(* ===== verification/_CoqProject ===== *)
-Q . S2P
Prelude.v
Tables.v
Frame.v
CLib.v
Crypto.v
AuthLimit.v
Password.v
AuthStore.v
AuthSpec.v
AuthFile.v
CFloat.v
Config.v
ConfigSpec.v
HashMap.v
Message.v
Queue.v
QueueSpec.v
Store.v
Exchange.v
Broker.v
BrokerRoute.v
BrokerSpec.v
BrokerDelivery.v
BrokerRefine.v
Net.v
Dispatch.v
DispatchInv.v
DispatchOps.v
DispatchSettle.v
DispatchDraw.v
DispatchServe.v
DispatchRun.v
DispatchWake.v
DispatchWire.v
DispatchSpec.v
Server.v
Protocol.v
NetServer.v
DispatchClient.v
ServerInv.v
ProtocolInv.v
ProtocolSafe.v
ProtocolData.v
ProtocolRun.v
NetSafe.v
NetAccept.v
ServerRun.v
ServerSpec.v
ClusterWire.v
ClusterNode.v
ClusterLog.v
ClusterApply.v
ClusterRaft.v
ClusterDispatch.v
ClusterApi.v
ClusterVotes.v
ClusterCalm.v
ElectSpec.v
ClusterElect.v
ClusterMesh.v
ClusterFrame.v
ClusterCommit.v
ClusterOps.v
ClusterWal.v
ClusterReplay.v
ClusterWorker.v
ClusterDemo.v
