(* ===== verification/Prelude.v ===== *)
(** * BeaverMQ: a verification development

    BeaverMQ is a message broker in C: AMQP 0-9-1 clients connect to worker threads,
    each with its own libuv loop; the workers share one broker of exchanges and
    queues, an access-control store and a login throttle, and a cluster node
    replicates the operations of several brokers with Raft.  The sources are under
    src/src and src/include.  This library translates them into Rocq functions, one
    definition per C function with its name where possible, and proves what makes
    them correct.

    ** Conventions

    Machine integers are [Z] with the wrap-around written out ([u8], [u16], [u32],
    [u64]); bytes and C strings are [list Z], strings without their NUL.  A struct is
    a record, updated with [r <| f := v |>].  Pointers that are shared are addresses
    in tables (messages in [heap], queues in [store], exchanges, consumers, groups,
    connections, streams), so aliasing and reference counts are as in the code; a use
    after free sets a fault flag or has no result.  What may fail takes its outcome
    from a list: [oracle] for allocations, lists of results for libuv calls, for system
    calls and for saving files; theorems hold for all of them unless they say
    otherwise.  A computation without result ([None]) is one that blocks for ever, or
    whose behaviour C leaves undefined.  Functions that run under a mutex are one step;
    code that runs without one is a step relation over the threads.

    ** Files and what they model

    - Prelude, Tables, CLib, CFloat: notations, record update, tactics and hint
      databases, lemmas on lists and integers; arrays with swap-removal; the functions
      of the C library that the sources use, [strtod] on IEEE doubles among them.
    - Frame (frame.c): the cursor, the output buffer, fields and frames.
    - HashMap (hashmap.c): SipHash, chains and growth; [PtrMap] is the interface of a
      string-keyed map that the broker and the dispatcher are written against, and
      [hashmap_registry] the instance by the hash map.
    - Message, Queue, QueueSpec, Store (message.c, queue.c): reference counts, the ring
      with its limits and overflow policies, the congestion and memory alarms, the
      consume watermark, waiters, and the table of all queues.
    - Exchange (exchange.c): bindings, topic matching, routing.
    - Broker, BrokerRoute, BrokerSpec, BrokerDelivery, BrokerRefine (broker.c): the
      registries, publishing, dead letters; its invariant [world_ok], termination, what
      a publish delivers, and refinement of an abstract namespace.
    - Net, Dispatch, DispatchInv, DispatchOps, DispatchSettle, DispatchDraw,
      DispatchServe, DispatchRun, DispatchWake, DispatchWire, DispatchSpec (dispatch.c,
      the write path of net.c): the consumers of a worker, delivery, acks and rejects;
      DispatchDraw has the causes of a failed send, DispatchWake the wakeup of the loop.
    - Server, Protocol, NetServer (protocol.c, net.c): a worker with its connections;
      every handler of the protocol and every callback of the loop is a [proc] on
      [beaver_server].  [ClusterOps] is what a worker asks of the cluster.
    - DispatchClient, ServerInv, ProtocolInv, ProtocolSafe, ProtocolData, ProtocolRun,
      NetSafe, NetAccept, ServerRun, ServerSpec: the invariant of a worker through all
      of its code.
    - Crypto, AuthLimit, Password, AuthStore, AuthSpec, AuthFile (crypto.c, authlimit.c,
      authstore.c): SHA-256 and HMAC, login back-off and the limit on concurrent
      hashes, password records, the access-control store, its contract and its file.
    - Config, ConfigSpec (config.c): settings from defaults, file and environment.
    - ClusterWire, ClusterNode, ClusterLog, ClusterApply, ClusterRaft, ClusterDispatch,
      ClusterApi (cluster.c): the wire format, the state of a node with its files, the
      log and its persistence, snapshots and recovery, applying operations, elections,
      replication, links and timers, and the calls of the workers.  The code of a node
      is a [cl], a computation on [cluster_node] that may be undefined.
    - ElectSpec, ClusterVotes, ClusterCalm, ClusterElect, ClusterMesh: the election
      protocol without the code, and that a cluster of nodes follows it.
    - ClusterFrame, ClusterCommit, ClusterOps, ClusterWal, ClusterReplay, ClusterWorker,
      ClusterDemo: what code leaves alone, commitment, the replicated operations, the
      log file, what a sequence of committed entries makes of the stores, the node as
      the cluster of a worker (the instance of [ClusterOps]), and runs of a cluster of
      three nodes.

    ** What is shown

    - Codecs: frames, fields, deliveries, configuration files, password records, the
      access-control file and the operations of the cluster are read back as written;
      parsing is incremental and stays inside its buffer; truncated files are refused;
      the checksum of the cluster detects every burst of four bytes.
    - Data structures: the hash map refines a finite map, the queue a FIFO list with
      limits, the broker a namespace, the access-control store sets and maps, under any
      history of operations and any allocation failures, which the abstract operations
      report.  The store can then block for ever: where a failed allocation makes the
      code return with the lock held, the refinement ends ([wedges] in AuthSpec).
    - Routing: the topic matcher decides the declarative relation; a publish returns for
      every dead-letter topology and puts one copy into each matching queue.
    - Delivery: messages are handed out in order within the prefetch limits until the
      queue is empty, nobody can take one or a send fails; acks settle exactly what they
      name; what is pending is served; nothing dangles.
    - A worker takes any bytes and any failures, with every reference accounted for and
      the state of every connection well formed, up to a call of the throttle timer that
      waits for a lock it holds ([throttle_timer_waits] in ServerSpec).
    - Configuration: every field of a start is in range and is that of its last valid
      setting.
    - Security: back-off and its end, the limit on hashes, denial after a user is
      deleted, restart with the lists of the last saved file.
    - Cluster: at most one leader per term, with frames delayed, reordered and lost and
      nodes restarted from a file that has their term and vote (a node whose write of it
      failed may vote twice, [vote_lost_on_restart] in ClusterDemo); commitment only with
      a majority and in the own term; an operation is applied as it was proposed, and
      the committed entries of a log in order and once, so that equal entries make equal
      stores; an operation of a worker reaches the log of the leader in order; the log
      read after a restart has all that was synchronised.

    ** Fuel and bounds

    Routing through dead letters ([broker_route]) recurses on fuel, and so does what
    calls it.  [route_fuel] computes enough of it from the stored messages
    (BrokerDelivery); theorems on the worker say that all but finitely many values give
    the same result.  Theorems on one event of a cluster node hold for every fuel.
    Other loops recurse on the data, or on a count that the code bounds.  The elections
    are shown while terms are below 2^32, the width they have in frames; log indices
    and sequence numbers stay below 2^64.  [log_recovered] is about a log that is not
    compacted and system calls that succeed; compaction and snapshots are modelled in ClusterLog and ClusterApply.

    ** Not modelled

    The HTTP interface (http.c, web/), the supervisor (supervisor.c), the logger and
    main.c: formatting of pages and of log lines, processes, signals and start-up.  Log
    lines and texts of errors that only reach the log are left out.  libuv, the
    regular expressions of the C library, the address parser, the clock and the source
    of randomness are parameters.  Between processes only whole frames are delivered to
    the nodes of [mesh]; the reassembly of frames is in [cl_drain_frames].  The power
    failure that loses what was written but not synchronised is not modelled: the file
    a restart finds is the file that was written.  That all committed entries survive a
    change of the leader is not claimed: a follower cuts off matching entries when an
    older AppendEntries arrives again. *)

From stdpp Require Export base strings numbers gmap list list_numbers sorting.

#[global] Open Scope Z_scope.
#[export] Set Warnings "-clear-no-such-hyp".

(** * Notations *)

Declare Scope bmq_scope.
Delimit Scope bmq_scope with bmq.
#[global] Open Scope bmq_scope.

(** ** Functional record update

    C code assigns struct fields one at a time; [r <| f := v |>] is the record
    [r] with the field [f] replaced.  A record type opts in with a [Settable]
    instance that rebuilds a value from its own projections, and the setter of
    a field is found by abstracting that projection. *)

Class Settable (R : Type) := rebuild : R -> R.

Class Setter {R E : Type} (field : R -> E) := update_field : (E -> E) -> R -> R.
#[global] Arguments update_field {R E} field {_} _ _.

Ltac derive_setter R E field :=
  exact (fun (upd : E -> E) (r : R) => ltac:(
    let inst := constr:(_ : Settable R) in
    let body := eval hnf in (inst r) in
    match body with
    | context C [field r] =>
        let body' := context C [upd (field r)] in exact body'
    end)).

#[global] Hint Extern 1 (@Setter ?R ?E ?field) =>
  derive_setter R E field : typeclass_instances.

Notation "r '<|' f ':=' v '|>'" := (update_field f (fun _ => v) r)
  (at level 1, f at next level, left associativity, format "r <| f  :=  v |>")
  : bmq_scope.
Notation "r '<|' f '::=' g '|>'" := (update_field f g r)
  (at level 1, f at next level, left associativity, format "r <| f  ::=  g |>")
  : bmq_scope.

(** * Automation

    [bmq] is the database of resolution lemmas and [bmq_rw] the rewriting
    database of the equations that hold by the width and length conventions of
    the development. *)

Create HintDb bmq.

(** Case analysis on every [if] and [match] of the goal and the hypotheses,
    closing the branches that contradict a hypothesis. *)
Ltac split_cases :=
  repeat (case_match; simplify_eq/=; try done).

(** Decide a boolean comparison into the proposition it stands for. *)
Ltac reflect_bools :=
  repeat match goal with
  | H : (_ && _)%bool = true |- _ => apply andb_true_iff in H as [? ?]
  | H : (_ && _)%bool = false |- _ => apply andb_false_iff in H
  | H : (_ || _)%bool = false |- _ => apply orb_false_iff in H as [? ?]
  | H : (_ || _)%bool = true |- _ => apply orb_true_iff in H
  | H : negb _ = true |- _ => apply negb_true_iff in H
  | H : negb _ = false |- _ => apply negb_false_iff in H
  | H : (_ =? _)%Z = true |- _ => apply Z.eqb_eq in H
  | H : (_ =? _)%Z = false |- _ => apply Z.eqb_neq in H
  | H : (_ <? _)%Z = true |- _ => apply Z.ltb_lt in H
  | H : (_ <? _)%Z = false |- _ => apply Z.ltb_ge in H
  | H : (_ <=? _)%Z = true |- _ => apply Z.leb_le in H
  | H : (_ <=? _)%Z = false |- _ => apply Z.leb_gt in H
  | H : (_ =? _)%nat = true |- _ => apply Nat.eqb_eq in H
  | H : (_ =? _)%nat = false |- _ => apply Nat.eqb_neq in H
  | H : (_ <? _)%nat = true |- _ => apply Nat.ltb_lt in H
  | H : (_ <? _)%nat = false |- _ => apply Nat.ltb_ge in H
  | H : (_ <=? _)%nat = true |- _ => apply Nat.leb_le in H
  | H : (_ <=? _)%nat = false |- _ => apply Nat.leb_gt in H
  | H : bool_decide _ = true |- _ => apply bool_decide_eq_true in H
  | H : bool_decide _ = false |- _ => apply bool_decide_eq_false in H
  end.

(** * Machine integers

    A [w]-bit unsigned C integer is a [Z] in [[0, 2^w)]; [wrap w] is the
    conversion to that width, and every addition or subtraction of the source
    that can leave the range is written with the conversion around it. *)

Definition wrap (w z : Z) : Z := z mod 2 ^ w.

Definition u8 (z : Z) : Z := wrap 8 z.
Definition u16 (z : Z) : Z := wrap 16 z.
Definition u32 (z : Z) : Z := wrap 32 z.
Definition u64 (z : Z) : Z := wrap 64 z.

#[global] Arguments wrap : simpl never.
#[global] Arguments u8 : simpl never.
#[global] Arguments u16 : simpl never.
#[global] Arguments u32 : simpl never.
#[global] Arguments u64 : simpl never.

Definition UINT64_MAX : Z := 2 ^ 64 - 1.
Definition SIZE_MAX : Z := 2 ^ 64 - 1.

Lemma wrap_range w z : 0 <= w -> 0 <= wrap w z < 2 ^ w.
Proof. intros. apply Z.mod_pos_bound. by apply Z.pow_pos_nonneg. Qed.

Lemma wrap_small w z : 0 <= z < 2 ^ w -> wrap w z = z.
Proof. apply Z.mod_small. Qed.

Lemma wrap_wrap w z : wrap w (wrap w z) = wrap w z.
Proof. unfold wrap. by rewrite Zmod_mod. Qed.

Lemma wrap_add_l w a b : wrap w (wrap w a + b) = wrap w (a + b).
Proof. unfold wrap. by rewrite Zplus_mod_idemp_l. Qed.

Lemma wrap_sub_l w a b : wrap w (wrap w a - b) = wrap w (a - b).
Proof. unfold wrap. by rewrite Zminus_mod_idemp_l. Qed.

Lemma u64_small z : 0 <= z < 2 ^ 64 -> u64 z = z.
Proof. intros. by apply wrap_small. Qed.

Lemma u8_small z : 0 <= z < 256 -> u8 z = z.
Proof. intros. by apply wrap_small. Qed.

Lemma u8_range z : 0 <= u8 z < 256.
Proof. apply (wrap_range 8). lia. Qed.

(** Linear arithmetic with the 64-bit conversion: each conversion is replaced by
    its quotient and remainder. *)
Ltac u64_lia :=
  unfold u64, wrap in *; change (2 ^ 64) with 18446744073709551616 in *;
  Z.div_mod_to_equations; lia.

(** * Byte strings

    Bytes on the wire and C strings are both lists of [Z]; [bytes_ok] says that
    every element is a byte.  A C string is the list of its characters before
    the terminating NUL. *)

Abbreviation bytes := (list Z).

Definition byte_ok (b : Z) : Prop := 0 <= b < 256.
Abbreviation bytes_ok := (Forall byte_ok).

#[global] Instance byte_ok_dec b : Decision (byte_ok b).
Proof. unfold byte_ok. apply _. Defined.

(** String literals of the source. *)
Definition cstr (s : string) : bytes :=
  (fun c => Z.of_N (Ascii.N_of_ascii c)) <$> String.list_ascii_of_string s.

Lemma u8_byte_ok z : byte_ok (u8 z).
Proof. apply u8_range. Qed.
#[export] Hint Resolve u8_byte_ok : bmq.

(** ** Big-endian integers *)

(** The [n] low-order bytes of [v], most significant first. *)
Fixpoint be_encode (n : nat) (v : Z) : bytes :=
  match n with
  | O => []
  | S n' => u8 (v ≫ (8 * Z.of_nat n')) :: be_encode n' v
  end.

(** The integer whose big-endian representation is [bs]. *)
Definition be_decode (bs : bytes) : Z := foldl (fun acc b => acc * 256 + b) 0 bs.

Lemma be_encode_length n v : length (be_encode n v) = n.
Proof. revert v. induction n as [|n IH]; intros v; [done|]. simpl. by rewrite IH. Qed.

Lemma be_encode_ok n v : bytes_ok (be_encode n v).
Proof. revert v. induction n; intros v; simpl; constructor; eauto with bmq. Qed.
#[export] Hint Resolve be_encode_ok : bmq.

Lemma be_decode_acc acc bs :
  foldl (fun acc b => acc * 256 + b) acc bs = acc * 256 ^ Z.of_nat (length bs) + be_decode bs.
Proof.
  unfold be_decode. revert acc. induction bs as [|b bs IH]; intros acc; simpl.
  - lia.
  - rewrite IH, (IH (0 * 256 + b)).
    replace (Z.of_nat (S (length bs))) with (Z.of_nat (length bs) + 1) by lia.
    rewrite Z.pow_add_r by lia. lia.
Qed.

Lemma be_decode_cons b bs :
  be_decode (b :: bs) = b * 256 ^ Z.of_nat (length bs) + be_decode bs.
Proof. unfold be_decode at 1. simpl. rewrite be_decode_acc. lia. Qed.

Lemma be_decode_range bs : bytes_ok bs -> 0 <= be_decode bs < 256 ^ Z.of_nat (length bs).
Proof.
  induction 1 as [|b bs Hb _ IH]; [unfold be_decode; simpl; lia|].
  rewrite be_decode_cons. simpl length.
  replace (Z.of_nat (S (length bs))) with (Z.of_nat (length bs) + 1) by lia.
  rewrite Z.pow_add_r by lia. unfold byte_ok in Hb. nia.
Qed.

Lemma be_decode_encode n v : be_decode (be_encode n v) = v mod 256 ^ Z.of_nat n.
Proof.
  revert v. induction n as [|n IH]; intros v; cbn [be_encode].
  - unfold be_decode. cbn. by rewrite Z.mod_1_r.
  - rewrite be_decode_cons, IH, be_encode_length.
    unfold u8, wrap. rewrite Z.shiftr_div_pow2 by lia.
    replace (2 ^ (8 * Z.of_nat n)) with (256 ^ Z.of_nat n)
      by (rewrite Z.pow_mul_r by lia; done).
    replace (Z.of_nat (S n)) with (Z.of_nat n + 1) by lia.
    rewrite Z.pow_add_r by lia. change (256 ^ 1) with 256. change (2 ^ 8) with 256.
    rewrite Z.rem_mul_r by lia. lia.
Qed.

Lemma be_encode_shift n v k : be_encode n (k * 256 ^ Z.of_nat n + v) = be_encode n v.
Proof.
  cut (forall m, (n <= m)%nat -> be_encode n (k * 256 ^ Z.of_nat m + v) = be_encode n v);
    [by intros H; apply H|].
  induction n as [|n IH]; intros m Hm; [done|]. cbn [be_encode]. rewrite IH by lia.
  f_equal. unfold u8, wrap. rewrite !Z.shiftr_div_pow2 by lia.
  replace (2 ^ (8 * Z.of_nat n)) with (256 ^ Z.of_nat n) by (by rewrite Z.pow_mul_r by lia).
  replace (Z.of_nat m) with ((Z.of_nat m - Z.of_nat n - 1) + 1 + Z.of_nat n) by lia.
  rewrite !Z.pow_add_r by lia. rewrite Z.mul_assoc, Z.div_add_l by (by apply Z.pow_nonzero; lia).
  change (256 ^ 1) with (2 ^ 8). rewrite Z.mul_assoc, Z.add_comm. by rewrite Z.mod_add by lia.
Qed.

Lemma be_encode_decode bs : bytes_ok bs -> be_encode (length bs) (be_decode bs) = bs.
Proof.
  induction 1 as [|b bs Hb Hbs IH]; [done|].
  cbn [length be_encode]. rewrite be_decode_cons, be_encode_shift, IH. f_equal.
  pose proof (be_decode_range bs Hbs). unfold byte_ok in Hb.
  rewrite Z.shiftr_div_pow2 by lia.
  replace (2 ^ (8 * Z.of_nat (length bs))) with (256 ^ Z.of_nat (length bs))
    by (by rewrite Z.pow_mul_r by lia).
  rewrite Z.div_add_l, Z.div_small, Z.add_0_r by (done || (apply Z.pow_nonzero; lia)).
  by apply u8_small.
Qed.

(** The shift-and-or composition the C code writes for a big-endian read is the
    positional value. *)
Lemma lor_shiftl_low a b n : 0 <= n -> 0 <= b < 2 ^ n -> Z.lor (a ≪ n) b = a * 2 ^ n + b.
Proof.
  intros Hn Hb. rewrite <- Z.add_nocarry_lor.
  - by rewrite Z.shiftl_mul_pow2.
  - apply Z.bits_inj'. intros i Hi. rewrite Z.land_spec, Z.bits_0.
    destruct (decide (i < n)).
    + by rewrite Z.shiftl_spec_low.
    + rewrite <- (Z.mod_small b (2 ^ n)) by done.
      rewrite Z.mod_pow2_bits_high by lia. apply andb_false_r.
Qed.

(** * Allocation

    Every call of the source that can fail for lack of memory takes its outcome
    from an oracle: the list of the outcomes still to come, [true] for success.
    An exhausted oracle always succeeds. *)

Abbreviation oracle := (list bool).

Definition malloc (o : oracle) : bool * oracle :=
  match o with
  | [] => (true, [])
  | b :: o' => (b, o')
  end.

(** * Generic lemmas on lists and options *)

(** Replacing one element list exchanges its entries in the whole. *)
Lemma concat_alter_perm {A} (f : list A -> list A) (b : list (list A)) i es :
  b !! i = Some es -> concat (alter f i b) ++ es ≡ₚ concat b ++ f es.
Proof.
  revert i. induction b as [|x b IH]; intros [|i] Hi; simplify_eq/=.
  - rewrite <- !app_assoc, (Permutation_app_comm (concat b) es), app_assoc, (Permutation_app_comm (f es)).
    rewrite <- app_assoc. f_equiv. apply Permutation_app_comm.
  - rewrite <- !app_assoc. f_equiv. by apply IH.
Qed.

Lemma list_elem_of_concat {A} (x : A) (b : list (list A)) :
  x ∈ concat b <-> exists l, x ∈ l /\ l ∈ b.
Proof.
  induction b as [|l b IH]; simpl; [set_solver|].
  rewrite elem_of_app, IH. set_solver.
Qed.

Lemma list_filter_all {A} (P : A -> Prop) `{!forall x, Decision (P x)} (l : list A) :
  Forall P l -> filter P l = l.
Proof. induction 1 as [|x l Hx Hl IH]; [done|]. rewrite filter_cons, decide_True by done. by rewrite IH. Qed.
