(* ===== verification/Tables.v ===== *)
(** Tables as the sources keep them: arrays of records searched by key, appended to
    at the end and shortened by moving the last element into the hole. *)

From S2P Require Import Prelude.

(** * Arrays *)

(** [a[i] = a[--n]]: the last element moves into the place of the removed one. *)
Definition swap_remove {A} (i : nat) (l : list A) : list A :=
  match last l with
  | Some x => take (length l - 1) (<[i := x]> l)
  | None => l
  end.

Lemma swap_remove_perm {A} (l : list A) i x :
  l !! i = Some x -> x :: swap_remove i l ≡ₚ l.
Proof.
  intros Hi. unfold swap_remove. destruct l as [|a l] using rev_ind; [done|]. clear IHl.
  rewrite last_snoc, length_app. simpl. rewrite Nat.add_sub.
  apply lookup_app_Some in Hi as [Hi|[Hge Hi]].
  - pose proof (lookup_lt_Some _ _ _ Hi). rewrite insert_app_l, take_app_length' by (rewrite ?length_insert; done).
    rewrite insert_take_drop by done. rewrite <- (take_drop_middle l i x Hi) at 3.
    rewrite <- Permutation_cons_append, <- !Permutation_middle. apply perm_swap.
  - apply list_lookup_singleton_Some in Hi as [Hi <-].
    rewrite insert_app_r_alt, take_app_length by done. apply Permutation_cons_append.
Qed.

Lemma take_swap_remove {A} (l : list A) i : (i < length l)%nat -> take i (swap_remove i l) = take i l.
Proof.
  intros Hi. unfold swap_remove. destruct (last l); [|done].
  rewrite take_take, Nat.min_l by lia. by apply take_insert_ge.
Qed.

(** The loop that removes every element that satisfies a test; [fuel] counts the
    iterations. *)
Fixpoint drop_loop {A} (p : A -> bool) (fuel i : nat) (l : list A) : list A :=
  match fuel with
  | O => l
  | S fuel =>
      match l !! i with
      | None => l
      | Some x => if p x then drop_loop p fuel i (swap_remove i l) else drop_loop p fuel (S i) l
      end
  end.

Definition drop_matching {A} (p : A -> bool) (l : list A) : list A := drop_loop p (length l) 0 l.

Lemma drop_loop_spec {A} (p : A -> bool) fuel : forall i l,
  (length l <= fuel + i)%nat -> Forall (fun x => p x = false) (take i l) ->
  drop_loop p fuel i l ≡ₚ filter (fun x => p x = false) l.
Proof.
  induction fuel as [|fuel IH]; intros i l Hl Hi; cbn [drop_loop].
  { rewrite take_ge in Hi by lia. by rewrite list_filter_all. }
  destruct (l !! i) as [x|] eqn:Ex.
  2:{ apply lookup_ge_None in Ex. rewrite take_ge in Hi by lia. by rewrite list_filter_all. }
  pose proof (lookup_lt_Some _ _ _ Ex) as Hlt. destruct (p x) eqn:Ep.
  - pose proof (swap_remove_perm l i x Ex) as Hp. rewrite IH.
    + rewrite <- Hp at 2. rewrite filter_cons, decide_False by congruence. done.
    + apply Permutation_length in Hp. simpl in Hp. lia.
    + by rewrite take_swap_remove.
  - apply IH; [lia|]. rewrite (take_S_r _ _ x) by done. apply Forall_app. split; [done|]. by apply Forall_singleton.
Qed.

Lemma drop_matching_perm {A} (p : A -> bool) l : drop_matching p l ≡ₚ filter (fun x => p x = false) l.
Proof. apply drop_loop_spec; [lia|]. rewrite take_0. constructor. Qed.

Lemma delete_list_insert {A} (l : list A) i x : delete i (<[i := x]> l) = delete i l.
Proof. revert i. induction l as [|y l IH]; intros [|i]; simpl; [done..|]. by rewrite IH. Qed.

(** * Keyed tables *)

Section Keyed.
Context {K A : Type} `{Countable K} (key : A -> K).
Implicit Types (l : list A) (k : K).

(** The index of the first element with the key. *)
Fixpoint find_key k l : option nat :=
  match l with
  | [] => None
  | x :: l => if bool_decide (key x = k) then Some 0%nat else S <$> find_key k l
  end.

(** The table as a map. *)
Definition kmap l : gmap K A := list_to_map ((fun x => (key x, x)) <$> l).

Definition keys_ok l : Prop := NoDup (key <$> l).

Lemma keys_fst l : ((fun x => (key x, x)) <$> l).*1 = key <$> l.
Proof. rewrite <- list_fmap_compose. by apply list_fmap_ext. Qed.

Lemma find_key_Some k l i : find_key k l = Some i -> exists x, l !! i = Some x /\ key x = k.
Proof.
  revert i. induction l as [|x l IH]; intros i; simpl; [done|]. case_bool_decide as Hk; [intros [= <-]; by exists x|].
  destruct (find_key k l) as [j|]; [|done]. intros [= <-]. by apply IH.
Qed.

Lemma find_key_None k l : find_key k l = None <-> k ∉ key <$> l.
Proof.
  induction l as [|x l IH]; simpl; [set_solver|]. case_bool_decide as Hk; [set_solver|].
  rewrite fmap_None, IH. set_solver.
Qed.

Lemma kmap_elem l x : keys_ok l -> x ∈ l <-> kmap l !! key x = Some x.
Proof.
  intros Hl. unfold kmap. rewrite <- elem_of_list_to_map by (by rewrite keys_fst). rewrite list_elem_of_fmap. naive_solver.
Qed.

Lemma kmap_key l k x : keys_ok l -> kmap l !! k = Some x -> key x = k /\ x ∈ l.
Proof.
  intros Hl. unfold kmap. rewrite <- elem_of_list_to_map by (by rewrite keys_fst). rewrite list_elem_of_fmap. naive_solver.
Qed.

Lemma kmap_find k l : keys_ok l -> kmap l !! k = find_key k l ≫= (fun i => l !! i).
Proof.
  intros Hl. destruct (find_key k l) as [i|] eqn:E; simpl.
  - apply find_key_Some in E as (x & Hx & <-). rewrite Hx. apply kmap_elem; [done|]. by eapply list_elem_of_lookup_2.
  - apply find_key_None in E. apply not_elem_of_list_to_map_1. by rewrite keys_fst.
Qed.

Lemma kmap_perm l1 l2 : keys_ok l1 -> l1 ≡ₚ l2 -> kmap l1 = kmap l2 /\ keys_ok l2.
Proof.
  intros Hl Hp. split; [|unfold keys_ok in *; by rewrite <- Hp]. unfold kmap.
  apply list_to_map_proper; [by rewrite keys_fst | by rewrite Hp].
Qed.

Lemma kmap_nil : kmap [] = ∅.
Proof. done. Qed.

Lemma kmap_cons x l : kmap (x :: l) = <[key x := x]> (kmap l).
Proof. done. Qed.

Lemma kmap_append l x : keys_ok l -> key x ∉ key <$> l -> kmap (l ++ [x]) = <[key x := x]> (kmap l) /\ keys_ok (l ++ [x]).
Proof.
  intros Hl Hx. assert (Hp : x :: l ≡ₚ l ++ [x]) by apply Permutation_cons_append.
  destruct (kmap_perm (x :: l) (l ++ [x])) as [<- Hk]; [by constructor | done |]. split; [apply kmap_cons | done].
Qed.

Lemma keys_delete l i x : keys_ok l -> l !! i = Some x -> l ≡ₚ x :: delete i l /\ keys_ok (delete i l) /\ (key x ∉ key <$> delete i l).
Proof.
  intros Hl Hi. pose proof (delete_Permutation l i x Hi) as Hp. split; [done|].
  unfold keys_ok in Hl. rewrite Hp in Hl. cbn in Hl. by apply NoDup_cons in Hl as [? ?].
Qed.

Lemma kmap_update l i x y :
  keys_ok l -> l !! i = Some x -> key y = key x -> kmap (<[i := y]> l) = <[key y := y]> (kmap l) /\ keys_ok (<[i := y]> l).
Proof.
  intros Hl Hi Hk. destruct (keys_delete l i x Hl Hi) as (Hp & Hd & Hni).
  assert (Hp' : y :: delete i l ≡ₚ <[i := y]> l).
  { pose proof (delete_Permutation (<[i := y]> l) i y) as Hq. rewrite Hq by (apply list_lookup_insert_eq; by eapply lookup_lt_Some).
    by rewrite delete_list_insert. }
  destruct (kmap_perm (y :: delete i l) (<[i := y]> l)) as [<- Hok]; [constructor; [by rewrite Hk | done] | done |].
  split; [|done]. destruct (kmap_perm _ _ Hl Hp) as [-> _]. rewrite !kmap_cons, Hk. by rewrite insert_insert_eq.
Qed.

Lemma kmap_remove l i x :
  keys_ok l -> l !! i = Some x -> kmap (swap_remove i l) = delete (key x) (kmap l) /\ keys_ok (swap_remove i l).
Proof.
  intros Hl Hi. pose proof (swap_remove_perm l i x Hi) as Hp. destruct (kmap_perm l _ Hl (symmetry Hp)) as [-> Hok].
  cbn in Hok. apply NoDup_cons in Hok as [Hni Hok]. split; [|done]. rewrite kmap_cons, delete_insert_eq.
  symmetry. apply delete_id. apply not_elem_of_list_to_map_1. by rewrite keys_fst.
Qed.

(** Removing every element that satisfies a test. *)
Lemma kmap_drop p l :
  keys_ok l -> kmap (drop_matching p l) = filter (fun kx => p kx.2 = false) (kmap l) /\ keys_ok (drop_matching p l).
Proof.
  intros Hl. assert (Hf : keys_ok (filter (fun x => p x = false) l)).
  { unfold keys_ok in *. induction l as [|x l IH]; [done|]. cbn in Hl. apply NoDup_cons in Hl as [Hni Hl].
    rewrite filter_cons. destruct (decide _); [|by apply IH]. cbn. constructor; [|by apply IH].
    intros (y & Hy & Hin)%list_elem_of_fmap. apply list_elem_of_filter in Hin as [_ Hin]. destruct Hni.
    rewrite Hy. apply list_elem_of_fmap. by exists y. }
  destruct (kmap_perm _ (drop_matching p l) Hf) as [<- Hok]; [symmetry; apply drop_matching_perm|]. split; [|done].
  apply map_eq. intros k. apply option_eq. intros x. rewrite map_lookup_filter_Some. split.
  - intros Hx. destruct (kmap_key _ _ _ Hf Hx) as [<- Hin]. apply list_elem_of_filter in Hin as [Hpx Hin].
    split; [by apply kmap_elem | done].
  - intros [Hx Hpx]. destruct (kmap_key _ _ _ Hl Hx) as [<- Hin]. apply kmap_elem; [done|].
    apply list_elem_of_filter. split; done.
Qed.
End Keyed.

#[global] Arguments kmap {K A EqDecision0 H} key l : simpl never.
