(* ===== verification/Frame.v ===== *)
(** AMQP 0-9-1 framing and field codecs: [src/frame.c] and [include/frame.h].

    [bmqp_reader] is the bounds-checked input cursor, [bmqp_buf] the growable
    output buffer.  An output buffer is threaded together with the allocation
    oracle ([bufst]); its [b_data] holds the bytes in use, [b_cap] the size of
    the allocation.  A pointer into the input buffer is the slice it denotes. *)

From S2P Require Import Prelude.

(** * Protocol constants *)

Definition BMQP_FRAME_HEADER_SIZE : Z := 7.
Definition BMQP_FRAME_END : Z := 206. (* 0xCE *)
Definition BMQP_FRAME_OVERHEAD : Z := BMQP_FRAME_HEADER_SIZE + 1.
Definition BMQP_FRAME_METHOD : Z := 1.
Definition BMQP_FRAME_HEADER : Z := 2.
Definition BMQP_FRAME_BODY : Z := 3.
Definition BMQP_FRAME_HEARTBEAT : Z := 8.
Definition BMQP_MAX_FRAME_PAYLOAD : Z := 16 * 1024 * 1024.
Definition AMQP_PROTOCOL_HEADER : bytes := cstr "AMQP" ++ [0; 0; 9; 1].

(** * Input reader *)

Record bmqp_reader := Reader {
  r_data : bytes;
  r_len : Z;
  r_pos : Z;
  r_error : bool
}.

#[global] Instance bmqp_reader_settable : Settable bmqp_reader :=
  fun r => Reader (r_data r) (r_len r) (r_pos r) (r_error r).

(** [p[i]] and the [n] bytes at [p + i]. *)
Definition byte_at (data : bytes) (i : Z) : Z := default 0 (data !! Z.to_nat i).
Definition slice (data : bytes) (i n : Z) : bytes :=
  take (Z.to_nat n) (drop (Z.to_nat i) data).

Definition bmqp_reader_init (data : bytes) (len : Z) : bmqp_reader :=
  Reader data len 0 false.

Definition reader_take (r : bmqp_reader) (need : Z) : option Z * bmqp_reader :=
  if (r_error r || (r_len r <? u64 (r_pos r + need)))%bool
  then (None, r <| r_error := true |>)
  else (Some (r_pos r), r <| r_pos := u64 (r_pos r + need) |>).

Definition bmqp_read_u8 (r : bmqp_reader) : Z * bmqp_reader :=
  match reader_take r 1 with
  | (None, r') => (0, r')
  | (Some at_, r') => (byte_at (r_data r) at_, r')
  end.

Definition bmqp_read_u16 (r : bmqp_reader) : Z * bmqp_reader :=
  match reader_take r 2 with
  | (None, r') => (0, r')
  | (Some at_, r') =>
      (u16 (Z.lor (byte_at (r_data r) at_ ≪ 8) (byte_at (r_data r) (at_ + 1))), r')
  end.

(** The shift-and-or of four bytes at [at_]. *)
Definition load_be32 (d : bytes) (at_ : Z) : Z :=
  Z.lor (Z.lor (Z.lor (u32 (byte_at d at_ ≪ 24)) (u32 (byte_at d (at_ + 1) ≪ 16)))
               (u32 (byte_at d (at_ + 2) ≪ 8)))
        (byte_at d (at_ + 3)).

Definition bmqp_read_u32 (r : bmqp_reader) : Z * bmqp_reader :=
  match reader_take r 4 with
  | (None, r') => (0, r')
  | (Some at_, r') => (load_be32 (r_data r) at_, r')
  end.

Definition bmqp_read_u64 (r : bmqp_reader) : Z * bmqp_reader :=
  match reader_take r 8 with
  | (None, r') => (0, r')
  | (Some at_, r') =>
      (foldl (fun v i => Z.lor (u64 (v ≪ 8)) (byte_at (r_data r) (at_ + i)))
             0 [0; 1; 2; 3; 4; 5; 6; 7], r')
  end.

(** The returned pointer and [*out_len] together: [None] for the NULL pointer
    (with [*out_len = 0]), [Some s] for a pointer to the [length s] bytes. *)
Definition bmqp_read_shortstr (r : bmqp_reader) : option bytes * bmqp_reader :=
  let '(n, r) := bmqp_read_u8 r in
  match reader_take r n with
  | (None, r') => (None, r')
  | (Some at_, r') => (Some (slice (r_data r) at_ n), r')
  end.

Definition bmqp_read_longstr (r : bmqp_reader) : option bytes * bmqp_reader :=
  let '(n, r) := bmqp_read_u32 r in
  match reader_take r n with
  | (None, r') => (None, r')
  | (Some at_, r') => (Some (slice (r_data r) at_ n), r')
  end.

Definition bmqp_reader_remaining (r : bmqp_reader) : Z :=
  if r_pos r <=? r_len r then r_len r - r_pos r else 0.

(** * Output buffer *)

Record bmqp_buf := Buf { b_data : bytes; b_cap : Z; b_error : bool }.

#[global] Instance bmqp_buf_settable : Settable bmqp_buf :=
  fun b => Buf (b_data b) (b_cap b) (b_error b).

Definition b_len (b : bmqp_buf) : Z := Z.of_nat (length (b_data b)).

(** A buffer together with the outcomes of the allocations still to come. *)
Abbreviation bufst := (bmqp_buf * oracle)%type.

Definition bmqp_buf_init : bmqp_buf := Buf [] 0 false.
Definition bmqp_buf_free (b : bmqp_buf) : bmqp_buf := Buf [] 0 false.
Definition bmqp_buf_reset (b : bmqp_buf) : bmqp_buf := b <| b_data := [] |>.

(** The capacity-doubling loop of [buf_reserve]; 64 doublings reach every
    [size_t]. *)
Fixpoint grow_cap (fuel : nat) (newcap need : Z) : Z :=
  match fuel with
  | O => newcap
  | S fuel' =>
      if newcap <? need then
        if SIZE_MAX / 2 <? newcap then need else grow_cap fuel' (newcap * 2) need
      else newcap
  end.

#[global] Arguments grow_cap : simpl never.

Definition buf_reserve (st : bufst) (extra : Z) : bool * bufst :=
  let '(b, o) := st in
  if b_error b then (false, st)
  else
    let need := u64 (b_len b + extra) in
    if need <? b_len b then (false, (b <| b_error := true |>, o))
    else if need <=? b_cap b then (true, st)
    else
      let newcap := grow_cap 64 (if b_cap b =? 0 then 64 else b_cap b) need in
      match malloc o with
      | (false, o') => (false, (b <| b_error := true |>, o'))
      | (true, o') => (true, (b <| b_cap := newcap |>, o'))
      end.

Definition bmqp_buf_reserve (st : bufst) (extra : Z) : bufst := snd (buf_reserve st extra).

(** [b->data[b->len++] = v] for each [v] of [vs], after a successful reserve. *)
Definition buf_push (st : bufst) (vs : bytes) : bufst :=
  ((fst st) <| b_data ::= fun d => d ++ vs |>, snd st).

Definition bmqp_buf_put_u8 (st : bufst) (v : Z) : bufst :=
  match buf_reserve st 1 with
  | (false, st') => st'
  | (true, st') => buf_push st' [v]
  end.

Definition bmqp_buf_put_u16 (st : bufst) (v : Z) : bufst :=
  match buf_reserve st 2 with
  | (false, st') => st'
  | (true, st') => buf_push st' [u8 (v ≫ 8); u8 (Z.land v 255)]
  end.

Definition bmqp_buf_put_u32 (st : bufst) (v : Z) : bufst :=
  match buf_reserve st 4 with
  | (false, st') => st'
  | (true, st') =>
      buf_push st' [u8 (v ≫ 24); u8 (v ≫ 16); u8 (v ≫ 8); u8 (Z.land v 255)]
  end.

Definition bmqp_buf_put_u64 (st : bufst) (v : Z) : bufst :=
  match buf_reserve st 8 with
  | (false, st') => st'
  | (true, st') =>
      buf_push st' ((fun i => u8 (Z.land (v ≫ (i * 8)) 255)) <$> [7; 6; 5; 4; 3; 2; 1; 0])
  end.

(** [memcpy] of the bytes [data], whose length is the C argument [len]. *)
Definition bmqp_buf_put_bytes (st : bufst) (data : bytes) : bufst :=
  if Z.of_nat (length data) =? 0 then st
  else
    match buf_reserve st (Z.of_nat (length data)) with
    | (false, st') => st'
    | (true, st') => buf_push st' data
    end.

Definition bmqp_buf_put_shortstr_n (st : bufst) (s : bytes) (n : Z) : bufst :=
  let n := if 255 <? n then 255 else n in
  bmqp_buf_put_bytes (bmqp_buf_put_u8 st (u8 n)) (take (Z.to_nat n) s).

Definition bmqp_buf_put_shortstr (st : bufst) (s : option bytes) : bufst :=
  match s with
  | Some s => bmqp_buf_put_shortstr_n st s (Z.of_nat (length s))
  | None => bmqp_buf_put_shortstr_n st [] 0
  end.

Definition bmqp_buf_put_longstr (st : bufst) (data : bytes) : bufst :=
  bmqp_buf_put_bytes (bmqp_buf_put_u32 st (u32 (Z.of_nat (length data)))) data.

(** * Frame envelope *)

Record bmqp_frame_header := FrameHeader {
  fh_type : Z;
  fh_channel : Z;
  fh_payload_len : Z
}.

(** The return value (bytes consumed, 0 for incomplete, -1 for a protocol
    error) with the out-parameters, which are only written on success. *)
Definition bmqp_frame_parse (buf : bytes) : Z * option (bmqp_frame_header * bytes) :=
  let len := Z.of_nat (length buf) in
  if len <? BMQP_FRAME_HEADER_SIZE then (0, None)
  else
    let h := FrameHeader (byte_at buf 0)
               (u16 (Z.lor (byte_at buf 1 ≪ 8) (byte_at buf 2)))
               (load_be32 buf 3) in
    if BMQP_MAX_FRAME_PAYLOAD <? fh_payload_len h then (-1, None)
    else
      let total := u32 (u32 (BMQP_FRAME_HEADER_SIZE + fh_payload_len h) + 1) in
      if len <? total then (0, None)
      else if negb (byte_at buf (total - 1) =? BMQP_FRAME_END) then (-1, None)
      else (total, Some (h, slice buf BMQP_FRAME_HEADER_SIZE (fh_payload_len h))).

Definition bmqp_frame_write (out : bufst) (type channel : Z) (payload : bytes) : bufst :=
  let out := bmqp_buf_put_u8 out type in
  let out := bmqp_buf_put_u16 out channel in
  let out := bmqp_buf_put_u32 out (u32 (Z.of_nat (length payload))) in
  let out := bmqp_buf_put_bytes out payload in
  bmqp_buf_put_u8 out BMQP_FRAME_END.

Definition bmqp_frame_begin (out : bufst) (type channel : Z) : Z * bufst :=
  let out := bmqp_buf_put_u8 out type in
  let out := bmqp_buf_put_u16 out channel in
  let out := bmqp_buf_put_u32 out 0 in
  (b_len (fst out), out).

(** [out->data[i] = v] *)
Definition buf_poke (st : bufst) (i v : Z) : bufst :=
  ((fst st) <| b_data ::= fun d => <[Z.to_nat i := v]> d |>, snd st).

Definition bmqp_frame_finish (out : bufst) (payload_start : Z) : bufst :=
  if b_error (fst out) then out
  else
    let payload_len := u64 (b_len (fst out) - payload_start) in
    if 4294967295 <? payload_len then ((fst out) <| b_error := true |>, snd out)
    else
      let lp := u64 (payload_start - 4) in
      let out := buf_poke out lp (u8 (payload_len ≫ 24)) in
      let out := buf_poke out (lp + 1) (u8 (payload_len ≫ 16)) in
      let out := buf_poke out (lp + 2) (u8 (payload_len ≫ 8)) in
      let out := buf_poke out (lp + 3) (u8 (Z.land payload_len 255)) in
      bmqp_buf_put_u8 out BMQP_FRAME_END.

(** * Loads are big-endian decodes *)

Lemma load16_decode a b :
  byte_ok a -> byte_ok b -> u16 (Z.lor (a ≪ 8) b) = be_decode [a; b].
Proof.
  unfold byte_ok. intros Ha Hb. rewrite lor_shiftl_low by lia.
  unfold u16. rewrite wrap_small by lia. unfold be_decode. simpl. lia.
Qed.

Lemma u32_shift a n : byte_ok a -> 0 <= n <= 24 -> u32 (a ≪ n) = a ≪ n.
Proof.
  unfold byte_ok. intros Ha Hn. apply wrap_small. rewrite Z.shiftl_mul_pow2 by lia.
  split; [nia|]. apply Z.lt_le_trans with (256 * 2 ^ n).
  - apply Z.mul_lt_mono_pos_r; lia.
  - change 256 with (2 ^ 8). rewrite <- Z.pow_add_r by lia.
    apply Z.pow_le_mono_r; lia.
Qed.

Lemma load32_decode a b c d :
  byte_ok a -> byte_ok b -> byte_ok c -> byte_ok d ->
  Z.lor (Z.lor (Z.lor (u32 (a ≪ 24)) (u32 (b ≪ 16))) (u32 (c ≪ 8))) d
  = be_decode [a; b; c; d].
Proof.
  intros Ha Hb Hc Hd. rewrite !u32_shift by (done || lia). unfold byte_ok in *.
  rewrite (Z.shiftl_mul_pow2 b), (Z.shiftl_mul_pow2 c) by lia.
  rewrite (lor_shiftl_low a) by lia.
  replace (a * 2 ^ 24 + b * 2 ^ 16) with ((a * 2 ^ 8 + b) ≪ 16)
    by (rewrite Z.shiftl_mul_pow2; lia).
  rewrite lor_shiftl_low by lia.
  replace ((a * 2 ^ 8 + b) * 2 ^ 16 + c * 2 ^ 8) with (((a * 2 ^ 8 + b) * 2 ^ 8 + c) ≪ 8)
    by (rewrite Z.shiftl_mul_pow2; lia).
  rewrite lor_shiftl_low by lia. unfold be_decode. simpl. lia.
Qed.

(** The byte-accumulation loop of [bmqp_read_u64]. *)
Lemma load64_acc bs acc :
  bytes_ok bs -> 0 <= acc -> acc * 256 ^ Z.of_nat (length bs) + 256 ^ Z.of_nat (length bs) <= 2 ^ 64 ->
  foldl (fun v b => Z.lor (u64 (v ≪ 8)) b) acc bs = foldl (fun v b => v * 256 + b) acc bs.
Proof.
  intros Hbs. revert acc. induction Hbs as [|b bs Hb Hbs IH]; intros acc Hacc Hmax; [done|].
  unfold byte_ok in Hb. cbn [foldl length] in *.
  replace (Z.of_nat (S (length bs))) with (Z.of_nat (length bs) + 1) in Hmax by lia.
  rewrite Z.pow_add_r in Hmax by lia.
  assert (0 < 256 ^ Z.of_nat (length bs)) by (apply Z.pow_pos_nonneg; lia).
  rewrite Z.shiftl_mul_pow2 by lia. change (2 ^ 8) with 256.
  rewrite u64_small by nia.
  replace (Z.lor (acc * 256) b) with (acc * 256 + b).
  - apply IH; nia.
  - change 256 with (2 ^ 8). rewrite <- Z.shiftl_mul_pow2 by lia.
    by rewrite lor_shiftl_low by (change (2 ^ 8) with 256; lia); rewrite Z.shiftl_mul_pow2 by lia.
Qed.

Lemma byte_at_app_r (pre d : bytes) i :
  0 <= i -> byte_at (pre ++ d) (Z.of_nat (length pre) + i) = byte_at d i.
Proof.
  intros. unfold byte_at. rewrite Z2Nat.inj_add, Nat2Z.id by lia.
  rewrite lookup_app_r by lia. do 2 f_equal. lia.
Qed.

Lemma slice_app_r (pre d : bytes) n :
  slice (pre ++ d) (Z.of_nat (length pre)) n = take (Z.to_nat n) d.
Proof. unfold slice. by rewrite Nat2Z.id, drop_app_length. Qed.

(** * What the writers append

    [wrote bs st st']: if no error is recorded in [st'], none was in [st] and the
    buffer of [st'] is that of [st] with [bs] appended.  It composes along the
    sequence of writers, so a caller that checks [->error] once at the end knows
    the whole output. *)

Definition wrote (bs : bytes) (st st' : bufst) : Prop :=
  b_error (fst st') = false ->
  b_error (fst st) = false /\ b_data (fst st') = b_data (fst st) ++ bs.

Lemma wrote_trans bs1 bs2 st1 st2 st3 :
  wrote bs1 st1 st2 -> wrote bs2 st2 st3 -> wrote (bs1 ++ bs2) st1 st3.
Proof.
  intros H12 H23 Herr. destruct (H23 Herr) as [E2 D2]. destruct (H12 E2) as [E1 D1].
  split; [done|]. by rewrite D2, D1, <- app_assoc.
Qed.

Lemma wrote_nil st : wrote [] st st.
Proof. intros Herr. by rewrite app_nil_r. Qed.

Lemma reserve_push_wrote st extra bs :
  wrote bs st (match buf_reserve st extra with
               | (false, st') => st'
               | (true, st') => buf_push st' bs
               end).
Proof.
  destruct st as [b o]. unfold wrote, buf_reserve.
  destruct (b_error b) eqn:Eb; simpl; [by rewrite Eb|].
  destruct (_ <? b_len b); simpl; [done|].
  destruct (_ <=? b_cap b); simpl; [by rewrite Eb|].
  destruct (malloc o) as [[] o']; simpl; by rewrite ?Eb.
Qed.

Lemma land_255 v : u8 (Z.land v 255) = u8 v.
Proof.
  change 255 with (Z.ones 8). rewrite Z.land_ones by lia. unfold u8. apply wrap_wrap.
Qed.

Lemma put_u8_wrote st v : wrote [v] st (bmqp_buf_put_u8 st v).
Proof. apply reserve_push_wrote. Qed.

Lemma put_u16_wrote st v : wrote (be_encode 2 v) st (bmqp_buf_put_u16 st v).
Proof.
  unfold bmqp_buf_put_u16. rewrite land_255.
  change (be_encode 2 v) with [u8 (v ≫ 8); u8 (v ≫ 0)]. rewrite Z.shiftr_0_r.
  apply reserve_push_wrote.
Qed.

Lemma put_u32_wrote st v : wrote (be_encode 4 v) st (bmqp_buf_put_u32 st v).
Proof.
  unfold bmqp_buf_put_u32. rewrite land_255.
  change (be_encode 4 v) with [u8 (v ≫ 24); u8 (v ≫ 16); u8 (v ≫ 8); u8 (v ≫ 0)].
  rewrite Z.shiftr_0_r. apply reserve_push_wrote.
Qed.

Lemma put_u64_wrote st v : wrote (be_encode 8 v) st (bmqp_buf_put_u64 st v).
Proof.
  unfold bmqp_buf_put_u64. cbn [fmap list_fmap]. rewrite !land_255.
  apply reserve_push_wrote.
Qed.

Lemma put_bytes_wrote st bs : wrote bs st (bmqp_buf_put_bytes st bs).
Proof.
  unfold bmqp_buf_put_bytes. destruct bs as [|b bs]; [apply wrote_nil|].
  simpl. apply reserve_push_wrote.
Qed.
#[export] Hint Resolve put_u8_wrote put_u16_wrote put_u32_wrote put_u64_wrote
  put_bytes_wrote : bmq.

Lemma put_shortstr_wrote st s :
  Z.of_nat (length s) <= 255 ->
  wrote (Z.of_nat (length s) :: s) st (bmqp_buf_put_shortstr st (Some s)).
Proof.
  intros Hs. simpl. unfold bmqp_buf_put_shortstr_n.
  rewrite (proj2 (Z.ltb_ge 255 _)) by done. rewrite u8_small by lia.
  rewrite Nat2Z.id, take_ge by lia.
  apply (wrote_trans [_] s _ _ _ (put_u8_wrote _ _) (put_bytes_wrote _ _)).
Qed.

Lemma put_longstr_wrote st s :
  Z.of_nat (length s) < 2 ^ 32 ->
  wrote (be_encode 4 (Z.of_nat (length s)) ++ s) st (bmqp_buf_put_longstr st s).
Proof.
  intros Hs. unfold bmqp_buf_put_longstr, u32. rewrite wrap_small by lia.
  eapply wrote_trans; [apply put_u32_wrote | apply put_bytes_wrote].
Qed.
#[export] Hint Resolve put_shortstr_wrote put_longstr_wrote : bmq.

(** The bytes of a frame on the wire. *)
Definition frame_bytes (type channel : Z) (payload : bytes) : bytes :=
  [type] ++ be_encode 2 channel ++ be_encode 4 (Z.of_nat (length payload)) ++
  payload ++ [BMQP_FRAME_END].

Lemma frame_write_wrote st type channel payload :
  Z.of_nat (length payload) < 2 ^ 32 ->
  wrote (frame_bytes type channel payload) st (bmqp_frame_write st type channel payload).
Proof.
  intros Hp. unfold frame_bytes, bmqp_frame_write, u32. rewrite wrap_small by lia.
  eapply wrote_trans; [apply put_u8_wrote|].
  eapply wrote_trans; [apply put_u16_wrote|].
  eapply wrote_trans; [apply put_u32_wrote|].
  eapply wrote_trans; [apply put_bytes_wrote | apply put_u8_wrote].
Qed.

(** * Frame envelope: round trip and incremental parsing *)

Lemma frame_bytes_length type channel payload :
  Z.of_nat (length (frame_bytes type channel payload)) = 8 + Z.of_nat (length payload).
Proof. unfold frame_bytes. simpl. rewrite !length_app. simpl. lia. Qed.

Lemma frame_parse_bytes type channel payload rest :
  byte_ok type -> 0 <= channel < 2 ^ 16 ->
  Z.of_nat (length payload) <= BMQP_MAX_FRAME_PAYLOAD ->
  bmqp_frame_parse (frame_bytes type channel payload ++ rest) =
    (8 + Z.of_nat (length payload),
     Some (FrameHeader type channel (Z.of_nat (length payload)), payload)).
Proof.
  intros Ht Hc Hp. unfold BMQP_MAX_FRAME_PAYLOAD in Hp.
  pose proof (be_decode_encode 2 channel) as Dc. pose proof (be_decode_encode 4 (Z.of_nat (length payload))) as Dl.
  rewrite Z.mod_small in Dc by (simpl; lia). rewrite Z.mod_small in Dl by (simpl; lia).
  unfold bmqp_frame_parse.
  rewrite length_app, Nat2Z.inj_add, frame_bytes_length.
  unfold BMQP_FRAME_HEADER_SIZE. rewrite (proj2 (Z.ltb_ge _ 7)) by lia.
  set (buf := frame_bytes _ _ _ ++ rest).
  assert (Hch : u16 (Z.lor (byte_at buf 1 ≪ 8) (byte_at buf 2)) = channel).
  { change (byte_at buf 1) with (u8 (channel ≫ 8)).
    change (byte_at buf 2) with (u8 (channel ≫ 0)).
    rewrite load16_decode by auto with bmq. exact Dc. }
  assert (Hln : load_be32 buf 3 = Z.of_nat (length payload)).
  { unfold load_be32. set (n := Z.of_nat (length payload)) in *.
    change (byte_at buf 3) with (u8 (n ≫ 24)).
    change (byte_at buf (3 + 1)) with (u8 (n ≫ 16)).
    change (byte_at buf (3 + 2)) with (u8 (n ≫ 8)).
    change (byte_at buf (3 + 3)) with (u8 (n ≫ 0)).
    rewrite load32_decode by auto with bmq. exact Dl. }
  rewrite Hch, Hln. cbn [fh_payload_len].
  rewrite (proj2 (Z.ltb_ge _ _)) by (unfold BMQP_MAX_FRAME_PAYLOAD; lia).
  assert (Htot : u32 (u32 (7 + Z.of_nat (length payload)) + 1) = 8 + Z.of_nat (length payload)).
  { unfold u32. rewrite wrap_add_l, wrap_small by lia. lia. }
  rewrite Htot. rewrite (proj2 (Z.ltb_ge _ _)) by lia.
  assert (Hsplit : buf = ([type] ++ be_encode 2 channel ++ be_encode 4 (Z.of_nat (length payload)))
                          ++ payload ++ BMQP_FRAME_END :: rest).
  { subst buf. unfold frame_bytes. by rewrite <- !app_assoc. }
  assert (Hend : byte_at buf (8 + Z.of_nat (length payload) - 1) = BMQP_FRAME_END).
  { rewrite Hsplit, app_assoc.
    replace (8 + Z.of_nat (length payload) - 1) with
      (Z.of_nat (length (([type] ++ be_encode 2 channel ++ be_encode 4 (Z.of_nat (length payload))) ++ payload)) + 0)
      by (rewrite !length_app; simpl; lia).
    rewrite byte_at_app_r by lia. done. }
  rewrite Hend. cbn [BMQP_FRAME_END Z.eqb Pos.eqb negb].
  do 3 f_equal. rewrite Hsplit.
  change 7 with (Z.of_nat (length ([type] ++ be_encode 2 channel ++ be_encode 4 (Z.of_nat (length payload))))).
  rewrite slice_app_r, Nat2Z.id. apply take_app_length.
Qed.

(** C17: a frame appended by [bmqp_frame_write] without an allocation error parses
    back, whatever bytes follow it: the parser consumes exactly the bytes written
    and returns the type, the channel, the length and the payload. *)
Theorem frame_write_parse st type channel payload rest :
  byte_ok type -> 0 <= channel < 2 ^ 16 ->
  Z.of_nat (length payload) <= BMQP_MAX_FRAME_PAYLOAD ->
  b_error (fst (bmqp_frame_write st type channel payload)) = false ->
  let out := drop (length (b_data (fst st)))
                  (b_data (fst (bmqp_frame_write st type channel payload))) in
  bmqp_frame_parse (out ++ rest) =
    (Z.of_nat (length out),
     Some (FrameHeader type channel (Z.of_nat (length payload)), payload)).
Proof.
  intros Ht Hc Hp Herr out.
  destruct (frame_write_wrote st type channel payload) as [_ D];
    [unfold BMQP_MAX_FRAME_PAYLOAD in Hp; lia | done |].
  assert (out = frame_bytes type channel payload) as ->
    by (subst out; by rewrite D, drop_app_length).
  rewrite frame_bytes_length. by apply frame_parse_bytes.
Qed.

Lemma frame_write_parse_witness :
  bmqp_frame_parse
    (drop 0 (b_data (fst (bmqp_frame_write (bmqp_buf_init, []) BMQP_FRAME_BODY 5 (cstr "hello"))))
       ++ [1; 2; 3])
  = (13, Some (FrameHeader 3 5 5, cstr "hello")).
Proof.
  apply (frame_write_parse (bmqp_buf_init, []) BMQP_FRAME_BODY 5 (cstr "hello") [1; 2; 3]);
    vm_compute; by repeat split.
Defined.

Lemma byte_at_app_l (d more : bytes) i :
  0 <= i < Z.of_nat (length d) -> byte_at (d ++ more) i = byte_at d i.
Proof. intros Hi. unfold byte_at. by rewrite lookup_app_l by lia. Qed.

Lemma slice_app_l (d more : bytes) i n :
  0 <= i -> 0 <= n -> i + n <= Z.of_nat (length d) -> slice (d ++ more) i n = slice d i n.
Proof.
  intros. unfold slice. rewrite drop_app_le by lia. rewrite take_app_le; [done|].
  rewrite length_drop. lia.
Qed.

Lemma byte_at_ok d i : bytes_ok d -> byte_ok (byte_at d i).
Proof.
  intros Hd. unfold byte_at. destruct (d !! Z.to_nat i) eqn:E; simpl.
  - by eapply Forall_lookup_1.
  - unfold byte_ok. lia.
Qed.
#[export] Hint Resolve byte_at_ok : bmq.

Lemma load_be32_range d i : bytes_ok d -> 0 <= load_be32 d i < 2 ^ 32.
Proof.
  intros Hd. unfold load_be32. rewrite load32_decode by auto with bmq.
  apply be_decode_range. repeat constructor; by apply byte_at_ok.
Qed.

(** The total length of a frame whose length field is in range. *)
Lemma frame_total n : 0 <= n <= BMQP_MAX_FRAME_PAYLOAD -> u32 (u32 (BMQP_FRAME_HEADER_SIZE + n) + 1) = BMQP_FRAME_OVERHEAD + n.
Proof.
  unfold BMQP_MAX_FRAME_PAYLOAD, BMQP_FRAME_OVERHEAD, BMQP_FRAME_HEADER_SIZE. intros H. unfold u32. rewrite wrap_add_l, wrap_small by lia. lia.
Qed.

(** What the parser answers. *)
Lemma frame_parse_shape buf n res :
  bytes_ok buf -> bmqp_frame_parse buf = (n, res) ->
  (n = 0 \/ n = -1) /\ res = None \/
  exists h payload, res = Some (h, payload) /\ n = BMQP_FRAME_OVERHEAD + fh_payload_len h /\ fh_payload_len h = Z.of_nat (length payload) /\
    fh_payload_len h <= BMQP_MAX_FRAME_PAYLOAD /\ n <= Z.of_nat (length buf) /\ 0 <= fh_channel h < 2 ^ 16.
Proof.
  intros Hok. unfold bmqp_frame_parse. destruct (_ <? BMQP_FRAME_HEADER_SIZE); [intros [= <- <-]; auto|].
  pose proof (load_be32_range buf 3 Hok) as Hr. cbn [fh_payload_len].
  destruct (Z.ltb_spec BMQP_MAX_FRAME_PAYLOAD (load_be32 buf 3)) as [|Hmax]; [intros [= <- <-]; auto|].
  rewrite frame_total by lia. destruct (Z.ltb_spec (Z.of_nat (length buf)) (BMQP_FRAME_OVERHEAD + load_be32 buf 3)) as [|Hle]; [intros [= <- <-]; auto|].
  destruct (negb _); intros [= <- <-]; [auto|]. right. do 2 eexists. split; [done|]. cbn [fh_payload_len fh_channel].
  unfold BMQP_FRAME_OVERHEAD, BMQP_FRAME_HEADER_SIZE in *.
  split_and!; try lia; [unfold slice; rewrite length_take, length_drop; lia | apply wrap_range; lia..].
Qed.

Lemma frame_parse_app buf more n res :
  bytes_ok buf -> bmqp_frame_parse buf = (n, res) -> n <> 0 -> bmqp_frame_parse (buf ++ more) = (n, res).
Proof.
  intros Hok. unfold bmqp_frame_parse, BMQP_FRAME_HEADER_SIZE. rewrite length_app, Nat2Z.inj_add.
  destruct (Z.ltb_spec (Z.of_nat (length buf)) 7) as [|Hlen]; [congruence|]. rewrite (proj2 (Z.ltb_ge _ 7)) by lia.
  pose proof (load_be32_range buf 3 Hok) as Hr.
  assert (Hh : load_be32 (buf ++ more) 3 = load_be32 buf 3) by (unfold load_be32; by rewrite !byte_at_app_l by lia).
  rewrite Hh, !(byte_at_app_l buf more) by lia. cbn [fh_payload_len].
  destruct (Z.ltb_spec BMQP_MAX_FRAME_PAYLOAD (load_be32 buf 3)) as [|Hmax]; [intros [= <- <-] _; auto|].
  assert (Htot : u32 (u32 (7 + load_be32 buf 3) + 1) = 8 + load_be32 buf 3) by (apply (frame_total (load_be32 buf 3)); lia). rewrite Htot.
  destruct (Z.ltb_spec (Z.of_nat (length buf)) (8 + load_be32 buf 3)); [congruence|].
  rewrite (proj2 (Z.ltb_ge _ (8 + _))) by lia. rewrite byte_at_app_l by lia.
  destruct (negb _); intros [= <- <-] _; [auto|]. by rewrite slice_app_l by lia.
Qed.

(** C21: parsing is incremental.  Once a buffer holds enough bytes for the parser
    to accept a frame or to refuse the stream, the bytes that arrive later never
    change that outcome; and an accepted frame lies wholly inside the buffer,
    is at most 16 MiB + 8 bytes long and consumes at least its 8 bytes of
    overhead. *)
Theorem frame_parse_incremental buf more n res :
  bytes_ok buf -> bmqp_frame_parse buf = (n, res) -> n <> 0 ->
  bmqp_frame_parse (buf ++ more) = (n, res) /\
  (n = -1 \/ exists h payload, res = Some (h, payload) /\
     n = BMQP_FRAME_OVERHEAD + fh_payload_len h /\
     fh_payload_len h = Z.of_nat (length payload) /\
     fh_payload_len h <= BMQP_MAX_FRAME_PAYLOAD /\ n <= Z.of_nat (length buf)).
Proof.
  intros Hok E Hn. split; [by apply frame_parse_app|].
  destruct (frame_parse_shape buf n res Hok E) as [[[->| ->] _]|(h & payload & H)]; [done | by left | right; exists h, payload; tauto].
Qed.

Lemma frame_parse_incremental_witness :
  let buf := frame_bytes BMQP_FRAME_METHOD 1 [0; 10; 0; 11] in
  bmqp_frame_parse (buf ++ [9; 9]) = bmqp_frame_parse buf.
Proof.
  apply (frame_parse_incremental (frame_bytes BMQP_FRAME_METHOD 1 [0; 10; 0; 11]) [9; 9]);
    [apply (bool_decide_unpack _); vm_compute; exact I | reflexivity | discriminate].
Defined.

(** * In-place frame construction *)

(** Back-patching the four placeholder bytes of a length field. *)
Lemma poke_length_field st at_ pre w x y z a b c d post :
  b_data (fst st) = pre ++ w :: x :: y :: z :: post -> at_ = Z.of_nat (length pre) ->
  b_data (fst (buf_poke (buf_poke (buf_poke (buf_poke st at_ a) (at_ + 1) b) (at_ + 2) c)
                 (at_ + 3) d)) = pre ++ a :: b :: c :: d :: post.
Proof.
  intros D ->. simpl. rewrite D.
  replace (Z.to_nat (Z.of_nat (length pre))) with (length pre + 0)%nat by lia.
  replace (Z.to_nat (Z.of_nat (length pre) + 1)) with (length pre + 1)%nat by lia.
  replace (Z.to_nat (Z.of_nat (length pre) + 2)) with (length pre + 2)%nat by lia.
  replace (Z.to_nat (Z.of_nat (length pre) + 3)) with (length pre + 3)%nat by lia.
  by rewrite !insert_app_r.
Qed.

Lemma frame_begin_wrote st type channel :
  wrote ([type] ++ be_encode 2 channel ++ be_encode 4 0) st
        (snd (bmqp_frame_begin st type channel)).
Proof.
  eapply wrote_trans; [apply put_u8_wrote|].
  eapply wrote_trans; [apply put_u16_wrote | apply put_u32_wrote].
Qed.

(** [bmqp_frame_finish] after a payload that fits the length field. *)
Lemma frame_finish_wrote st type channel payload at_ st1 st2 :
  bmqp_frame_begin st type channel = (at_, st1) -> wrote payload st1 st2 ->
  (b_error (fst st2) = false -> b_len (fst st2) < 2 ^ 64) ->
  Z.of_nat (length payload) < 2 ^ 32 -> wrote (frame_bytes type channel payload) st (bmqp_frame_finish st2 at_).
Proof.
  intros Hb Hw2 Hlen Hsize. pose proof (frame_begin_wrote st type channel) as Hw1.
  rewrite Hb in Hw1. unfold bmqp_frame_begin in Hb. injection Hb as <- Hst1. rewrite Hst1 in *. simpl in Hw1.
  unfold bmqp_frame_finish. destruct (b_error (fst st2)) eqn:Herr2; [intros H; congruence|].
  specialize (Hlen eq_refl).
  destruct (Hw2 Herr2) as [Herr1 D2]. destruct (Hw1 Herr1) as [Herr0 D1].
  set (n := Z.of_nat (length payload)) in *.
  assert (Hn : b_len (fst st2) = b_len (fst st1) + n)
    by (unfold b_len; rewrite D2, length_app; lia).
  assert (H7 : b_len (fst st1) = b_len (fst st) + 7)
    by (unfold b_len; rewrite D1, !length_app; simpl; lia).
  assert (0 <= b_len (fst st)) by (unfold b_len; lia).
  replace (u64 (b_len (fst st2) - b_len (fst st1))) with n by (rewrite u64_small by lia; lia).
  rewrite (u64_small (b_len (fst st1) - 4)) by lia.
  rewrite (proj2 (Z.ltb_ge _ _)) by lia. intros HerrF. split; [done|].
  apply put_u8_wrote in HerrF as [_ ->].
  erewrite (poke_length_field st2 _ (b_data (fst st) ++ type :: be_encode 2 channel) 0 0 0 0 _ _ _ _ payload);
    [| rewrite D2, D1; by rewrite <- !app_assoc
     | unfold b_len in *; rewrite length_app; simpl; lia].
  unfold frame_bytes. fold n.
  change (be_encode 4 n) with [u8 (n ≫ 24); u8 (n ≫ 16); u8 (n ≫ 8); u8 (n ≫ 0)].
  by rewrite Z.shiftr_0_r, land_255, <- !app_assoc.
Qed.

(** Building a frame in place ([bmqp_frame_begin], then any sequence of
    writers, then [bmqp_frame_finish] back-patching the length) leaves exactly the
    bytes that [bmqp_frame_write] appends for the same payload; a payload whose
    length does not fit the 32-bit field is refused by setting the error flag. *)
Theorem frame_begin_finish_write st type channel payload at_ st1 st2 :
  bmqp_frame_begin st type channel = (at_, st1) ->
  wrote payload st1 st2 -> b_error (fst st2) = false ->
  b_len (fst st2) < 2 ^ 64 ->
  (Z.of_nat (length payload) < 2 ^ 32 ->
     b_error (fst (bmqp_frame_finish st2 at_)) = false ->
     b_error (fst (bmqp_frame_write st type channel payload)) = false ->
     b_data (fst (bmqp_frame_finish st2 at_)) =
     b_data (fst (bmqp_frame_write st type channel payload))) /\
  (2 ^ 32 <= Z.of_nat (length payload) ->
     b_error (fst (bmqp_frame_finish st2 at_)) = true).
Proof.
  intros Hb Hw2 Herr2 Hlen. split; intros Hsize.
  - intros HerrF HerrW. destruct (frame_write_wrote st type channel payload Hsize HerrW) as [_ ->].
    by apply (frame_finish_wrote _ _ _ _ _ _ _ Hb Hw2 (fun _ => Hlen) Hsize) in HerrF as [_ ->].
  - destruct (Hw2 Herr2) as [_ D2]. injection Hb as <- Hst1. rewrite Hst1 in *.
    assert (Hn : b_len (fst st2) = b_len (fst st1) + Z.of_nat (length payload)) by (unfold b_len; rewrite D2, length_app; lia).
    assert (0 <= b_len (fst st1)) by (unfold b_len; lia).
    unfold bmqp_frame_finish. rewrite Herr2, u64_small by lia. by rewrite (proj2 (Z.ltb_lt _ _)) by lia.
Qed.

Lemma frame_begin_finish_write_witness :
  let '(at_, st1) := bmqp_frame_begin (bmqp_buf_init, []) BMQP_FRAME_METHOD 7 in
  let st2 := bmqp_buf_put_u16 st1 60 in
  b_data (fst (bmqp_frame_finish st2 at_)) =
  b_data (fst (bmqp_frame_write (bmqp_buf_init, []) BMQP_FRAME_METHOD 7 [0; 60])).
Proof.
  apply (frame_begin_finish_write (bmqp_buf_init, []) BMQP_FRAME_METHOD 7 [0; 60] 7
           (snd (bmqp_frame_begin (bmqp_buf_init, []) BMQP_FRAME_METHOD 7))); try reflexivity.
  exact (put_u16_wrote _ 60).
Defined.

(** * Field codec

    The argument fields of methods and content headers as one sum type, so that
    a method is the list of its fields. *)

Inductive field :=
| FU8 (v : Z) | FU16 (v : Z) | FU32 (v : Z) | FU64 (v : Z)
| FShort (s : bytes) | FLong (s : bytes).

Inductive field_kind := KU8 | KU16 | KU32 | KU64 | KShort | KLong.

Definition kind_of (f : field) : field_kind :=
  match f with
  | FU8 _ => KU8 | FU16 _ => KU16 | FU32 _ => KU32 | FU64 _ => KU64
  | FShort _ => KShort | FLong _ => KLong
  end.

Definition field_ok (f : field) : Prop :=
  match f with
  | FU8 v => byte_ok v
  | FU16 v => 0 <= v < 2 ^ 16
  | FU32 v => 0 <= v < 2 ^ 32
  | FU64 v => 0 <= v < 2 ^ 64
  | FShort s => Z.of_nat (length s) <= 255
  | FLong s => Z.of_nat (length s) < 2 ^ 32
  end.

Definition field_bytes (f : field) : bytes :=
  match f with
  | FU8 v => [v]
  | FU16 v => be_encode 2 v
  | FU32 v => be_encode 4 v
  | FU64 v => be_encode 8 v
  | FShort s => Z.of_nat (length s) :: s
  | FLong s => be_encode 4 (Z.of_nat (length s)) ++ s
  end.

Definition put_field (st : bufst) (f : field) : bufst :=
  match f with
  | FU8 v => bmqp_buf_put_u8 st v
  | FU16 v => bmqp_buf_put_u16 st v
  | FU32 v => bmqp_buf_put_u32 st v
  | FU64 v => bmqp_buf_put_u64 st v
  | FShort s => bmqp_buf_put_shortstr st (Some s)
  | FLong s => bmqp_buf_put_longstr st s
  end.

Definition read_field (k : field_kind) (r : bmqp_reader) : field * bmqp_reader :=
  match k with
  | KU8 => prod_map FU8 id (bmqp_read_u8 r)
  | KU16 => prod_map FU16 id (bmqp_read_u16 r)
  | KU32 => prod_map FU32 id (bmqp_read_u32 r)
  | KU64 => prod_map FU64 id (bmqp_read_u64 r)
  | KShort => prod_map (fun s => FShort (default [] s)) id (bmqp_read_shortstr r)
  | KLong => prod_map (fun s => FLong (default [] s)) id (bmqp_read_longstr r)
  end.

Fixpoint read_fields (ks : list field_kind) (r : bmqp_reader) : list field * bmqp_reader :=
  match ks with
  | [] => ([], r)
  | k :: ks' =>
      let '(f, r) := read_field k r in
      let '(fs, r) := read_fields ks' r in (f :: fs, r)
  end.

Definition put_fields (st : bufst) (fs : list field) : bufst := foldl put_field st fs.

Lemma put_field_wrote st f : field_ok f -> wrote (field_bytes f) st (put_field st f).
Proof. destruct f; cbn [put_field field_bytes field_ok]; auto with bmq. Qed.

Lemma put_fields_wrote st fs :
  Forall field_ok fs -> wrote (fs ≫= field_bytes) st (put_fields st fs).
Proof.
  intros Hfs. revert st. induction Hfs as [|f fs Hf Hfs IH]; intros st; [apply wrote_nil|].
  eapply wrote_trans; [by apply put_field_wrote | apply IH].
Qed.

(** ** Reading at the position of an encoded field *)

Lemma reader_take_ok d len pos need :
  0 <= pos -> 0 <= need -> pos + need <= len -> len < 2 ^ 64 ->
  reader_take (Reader d len pos false) need = (Some pos, Reader d len (pos + need) false).
Proof.
  intros. unfold reader_take. cbn. rewrite u64_small by lia.
  by rewrite (proj2 (Z.ltb_ge _ _)) by lia.
Qed.

Lemma byte_at_pre (pre d : bytes) : byte_at (pre ++ d) (Z.of_nat (length pre)) = byte_at d 0.
Proof. rewrite <- (byte_at_app_r pre d 0) by lia. f_equal. lia. Qed.

Lemma read_u8_at pre v post len :
  Z.of_nat (length pre) + 1 <= len < 2 ^ 64 ->
  bmqp_read_u8 (Reader (pre ++ v :: post) len (Z.of_nat (length pre)) false)
  = (v, Reader (pre ++ v :: post) len (Z.of_nat (length pre) + 1) false).
Proof.
  intros. unfold bmqp_read_u8. rewrite reader_take_ok by lia. cbn. by rewrite byte_at_pre.
Qed.

Lemma read_u32_at pre v post len :
  0 <= v < 2 ^ 32 -> Z.of_nat (length pre) + 4 <= len < 2 ^ 64 ->
  bmqp_read_u32 (Reader (pre ++ be_encode 4 v ++ post) len (Z.of_nat (length pre)) false)
  = (v, Reader (pre ++ be_encode 4 v ++ post) len (Z.of_nat (length pre) + 4) false).
Proof.
  intros. unfold bmqp_read_u32. rewrite reader_take_ok by lia. cbn [r_data].
  f_equal. unfold load_be32. rewrite byte_at_pre, !byte_at_app_r by lia.
  change (byte_at (be_encode 4 v ++ post) 0) with (u8 (v ≫ 24)).
  change (byte_at (be_encode 4 v ++ post) 1) with (u8 (v ≫ 16)).
  change (byte_at (be_encode 4 v ++ post) 2) with (u8 (v ≫ 8)).
  change (byte_at (be_encode 4 v ++ post) 3) with (u8 (v ≫ 0)).
  rewrite load32_decode by auto with bmq.
  change [u8 (v ≫ 24); u8 (v ≫ 16); u8 (v ≫ 8); u8 (v ≫ 0)] with (be_encode 4 v).
  rewrite (be_decode_encode 4).
  by apply Z.mod_small.
Qed.

Lemma read_u64_loop pre post v :
  foldl (fun w i => Z.lor (u64 (w ≪ 8))
           (byte_at (pre ++ be_encode 8 v ++ post) (Z.of_nat (length pre) + i)))
        0 [0; 1; 2; 3; 4; 5; 6; 7] = be_decode (be_encode 8 v).
Proof.
  set (f := fun i => byte_at (pre ++ be_encode 8 v ++ post) (Z.of_nat (length pre) + i)).
  assert (E : f <$> [0; 1; 2; 3; 4; 5; 6; 7] = be_encode 8 v).
  { subst f. cbn [fmap list_fmap]. by rewrite !byte_at_app_r by lia. }
  transitivity (foldl (fun w b => Z.lor (u64 (w ≪ 8)) b) 0 (f <$> [0; 1; 2; 3; 4; 5; 6; 7])).
  - by rewrite foldl_fmap.
  - rewrite E, load64_acc; auto with bmq; rewrite ?be_encode_length; lia.
Qed.

Lemma read_field_at pre f post len :
  field_ok f -> Z.of_nat (length pre + length (field_bytes f)) <= len < 2 ^ 64 ->
  let d := pre ++ field_bytes f ++ post in
  read_field (kind_of f) (Reader d len (Z.of_nat (length pre)) false)
  = (f, Reader d len (Z.of_nat (length pre + length (field_bytes f))) false).
Proof.
  intros Hf Hlen d. subst d. rewrite Nat2Z.inj_add in *. destruct f as [v|v|v|v|s|s];
    cbn [read_field kind_of field_bytes field_ok] in *;
    rewrite ?length_app, ?be_encode_length in *; cbn [length] in *.
  - cbn [app]. by rewrite read_u8_at by lia.
  - unfold bmqp_read_u16. rewrite reader_take_ok by lia. cbn [r_data].
    rewrite byte_at_pre, byte_at_app_r by lia.
    change (byte_at (be_encode 2 v ++ post) 0) with (u8 (v ≫ 8)).
    change (byte_at (be_encode 2 v ++ post) 1) with (u8 (v ≫ 0)).
    rewrite load16_decode by auto with bmq.
    change [u8 (v ≫ 8); u8 (v ≫ 0)] with (be_encode 2 v).
    rewrite (be_decode_encode 2), Z.mod_small by (simpl; lia). done.
  - by rewrite read_u32_at by lia.
  - unfold bmqp_read_u64. rewrite reader_take_ok by lia. cbn [r_data].
    rewrite (read_u64_loop _ _ v), (be_decode_encode 8), Z.mod_small by lia. done.
  - unfold bmqp_read_shortstr. cbn [app]. rewrite read_u8_at by lia.
    rewrite reader_take_ok by lia. cbn [r_data prod_map id fst snd].
    replace (Z.of_nat (length pre) + 1) with (Z.of_nat (length (pre ++ [Z.of_nat (length s)])))
      by (rewrite length_app; simpl; lia).
    rewrite (cons_middle _ pre). rewrite app_assoc, slice_app_r, Nat2Z.id, take_app_length.
    rewrite length_app. cbn [length default]. do 2 f_equal; lia.
  - unfold bmqp_read_longstr. rewrite <- app_assoc, read_u32_at by lia.
    rewrite reader_take_ok by lia. cbn [r_data prod_map id fst snd].
    replace (Z.of_nat (length pre) + 4) with
      (Z.of_nat (length (pre ++ be_encode 4 (Z.of_nat (length s)))))
      by (rewrite length_app, be_encode_length; simpl; lia).
    rewrite app_assoc, slice_app_r, Nat2Z.id, take_app_length.
    rewrite length_app, be_encode_length. cbn [default]. do 2 f_equal; lia.
Qed.

Lemma read_fields_at fs pre post len :
  Forall field_ok fs -> Z.of_nat (length pre + length (fs ≫= field_bytes)) <= len < 2 ^ 64 ->
  let d := pre ++ (fs ≫= field_bytes) ++ post in
  read_fields (kind_of <$> fs) (Reader d len (Z.of_nat (length pre)) false)
  = (fs, Reader d len (Z.of_nat (length pre + length (fs ≫= field_bytes))) false).
Proof.
  intros Hfs. revert pre. induction Hfs as [|f fs Hf Hfs IH]; intros pre Hlen d; subst d.
  { csimpl. by rewrite Nat.add_0_r. }
  csimpl in *. rewrite length_app in *.
  rewrite <- app_assoc, read_field_at by (done || lia).
  specialize (IH (pre ++ field_bytes f)). rewrite length_app in IH.
  rewrite <- !app_assoc in IH. rewrite IH by lia. do 2 f_equal. lia.
Qed.

(** C22: every list of well-formed fields survives the wire.  Written by the
    [bmqp_buf_put_*] functions into any buffer and read back by the matching
    [bmqp_read_*] functions, the fields come back unchanged, the reader records no
    error and stops right after the last written byte, whatever follows. *)
Theorem fields_roundtrip st fs rest :
  Forall field_ok fs ->
  b_error (fst (put_fields st fs)) = false ->
  let out := drop (length (b_data (fst st))) (b_data (fst (put_fields st fs))) in
  let d := out ++ rest in
  Z.of_nat (length d) < 2 ^ 64 ->
  read_fields (kind_of <$> fs) (bmqp_reader_init d (Z.of_nat (length d)))
  = (fs, Reader d (Z.of_nat (length d)) (Z.of_nat (length out)) false).
Proof.
  intros Hfs Herr out d Hlen. subst d.
  destruct (put_fields_wrote st fs Hfs Herr) as [_ D].
  assert (Hout : out = fs ≫= field_bytes) by (subst out; by rewrite D, drop_app_length).
  rewrite Hout in *. rewrite length_app in *.
  apply (read_fields_at fs [] rest); [done | simpl; lia].
Qed.

Lemma fields_roundtrip_witness :
  let fs := [FU16 60; FShort (cstr "ctag"); FU64 (2 ^ 40 + 3); FU8 1; FLong (cstr "body")] in
  let d := b_data (fst (put_fields (bmqp_buf_init, []) fs)) ++ [206] in
  read_fields (kind_of <$> fs) (bmqp_reader_init d (Z.of_nat (length d)))
  = (fs, Reader d (Z.of_nat (length d)) 24 false).
Proof.
  apply (fields_roundtrip (bmqp_buf_init, [])
           [FU16 60; FShort (cstr "ctag"); FU64 (2 ^ 40 + 3); FU8 1; FLong (cstr "body")] [206]);
    [repeat constructor; vm_compute; done | reflexivity | reflexivity].
Defined.

(** ** Reading arbitrary input *)

Definition reader_ok (r : bmqp_reader) : Prop :=
  bytes_ok (r_data r) /\ r_len r = Z.of_nat (length (r_data r)) /\
  r_len r < 2 ^ 63 /\ 0 <= r_pos r <= r_len r.

Lemma reader_take_fails r need :
  reader_ok r -> 0 <= need < 2 ^ 32 -> r_error r = true \/ r_len r < r_pos r + need ->
  reader_take r need = (None, r <| r_error := true |>).
Proof.
  intros (_ & _ & Hl & Hp) Hn H. unfold reader_take. rewrite u64_small by lia.
  destruct H as [-> | H]; [done|]. by rewrite (proj2 (Z.ltb_lt _ _) H), orb_true_r.
Qed.

(** The width of the fixed part of a field. *)
Definition kind_width (k : field_kind) : Z :=
  match k with KU8 | KShort => 1 | KU16 => 2 | KU32 | KLong => 4 | KU64 => 8 end.

Lemma read_field_fails k r :
  reader_ok r -> r_error r = true \/ r_len r < r_pos r + kind_width k ->
  r_error (snd (read_field k r)) = true.
Proof.
  intros Hr H. destruct k; cbn [read_field kind_width] in *;
    unfold bmqp_read_shortstr, bmqp_read_longstr, bmqp_read_u8, bmqp_read_u16, bmqp_read_u32,
      bmqp_read_u64; rewrite reader_take_fails by (done || lia); done.
Qed.

Lemma split_at (d : bytes) i n :
  0 <= i -> 0 <= n -> i + n <= Z.of_nat (length d) ->
  exists pre bs post, d = pre ++ bs ++ post /\ Z.of_nat (length pre) = i /\
    Z.of_nat (length bs) = n.
Proof.
  intros. exists (take (Z.to_nat i) d), (take (Z.to_nat n) (drop (Z.to_nat i) d)),
    (drop (Z.to_nat n) (drop (Z.to_nat i) d)).
  rewrite !take_drop, !length_take, length_drop. split_and!; [done | lia | lia].
Qed.

Lemma bytes_are_encoded bs n :
  bytes_ok bs -> length bs = n ->
  exists v, bs = be_encode n v /\ 0 <= v < 256 ^ Z.of_nat n.
Proof.
  intros Hbs Hn. exists (be_decode bs). subst n.
  rewrite be_encode_decode by done. split; [done|]. by apply be_decode_range.
Qed.

Lemma string_present (pre hd post : bytes) (n len : Z) :
  len = Z.of_nat (length (pre ++ hd ++ post)) -> 0 <= n ->
  Z.of_nat (length pre) + Z.of_nat (length hd) + n <= len ->
  exists s post', post = s ++ post' /\ Z.of_nat (length s) = n.
Proof.
  rewrite !length_app. intros Hlen Hn Hle.
  destruct (split_at post 0 n) as ([|] & s & post' & -> & Hpre & Hs); [lia..| |simpl in Hpre; lia].
  by exists s, post'.
Qed.

Lemma field_present k r :
  reader_ok r -> r_error r = false -> r_pos r + kind_width k <= r_len r ->
  (exists f pre post, kind_of f = k /\ field_ok f /\
     r_data r = pre ++ field_bytes f ++ post /\ Z.of_nat (length pre) = r_pos r) \/
  r_error (snd (read_field k r)) = true.
Proof.
  intros (Hd & Hlen & Hmax & Hpos) Herr Hw. destruct r as [d len pos err]. simpl in *. subst err.
  destruct (split_at d pos (kind_width k)) as (pre & bs & post & -> & Hpre & Hbs);
    [lia | destruct k; simpl; lia | lia |].
  apply Forall_app in Hd as [Hdpre Hd]. apply Forall_app in Hd as [Hdbs Hdpost].
  assert (Hrok : reader_ok (Reader (pre ++ bs ++ post) len (pos + kind_width k) false)).
  { unfold reader_ok. simpl. split_and!; [by repeat apply Forall_app_2 | lia | lia | | lia].
    destruct k; simpl; lia. }
  assert (Hbs' : length bs = Z.to_nat (kind_width k)) by lia.
  destruct k; cbn [kind_width] in *;
    destruct (bytes_are_encoded bs _ Hdbs Hbs') as (v & -> & Hv).
  - left. exists (FU8 (u8 v)), pre, post.
    change (field_bytes (FU8 (u8 v))) with (be_encode 1 v). split_and!; [done | apply u8_byte_ok | done | done].
  - left. by exists (FU16 v), pre, post.
  - left. by exists (FU32 v), pre, post.
  - left. by exists (FU64 v), pre, post.
  - assert (0 <= v < 256) by done.
    assert (Hone : be_encode (Z.to_nat 1) v = [v])
      by (change (be_encode (Z.to_nat 1) v) with [u8 (v ≫ 0)];
          rewrite Z.shiftr_0_r, u8_small; [done | lia]).
    rewrite Hone in *.
    destruct (Z.le_gt_cases (pos + 1 + v) len) as [Hle|Hgt].
    + destruct (string_present pre [v] post v len) as (s & post' & -> & Hs); [done | lia | simpl; lia |].
      left. exists (FShort s), pre, post'. cbn [field_bytes field_ok]. rewrite Hs.
      split_and!; try done; lia.
    + right. cbn [read_field]. unfold bmqp_read_shortstr. subst pos. cbn [app].
      rewrite read_u8_at by lia. rewrite reader_take_fails by (done || simpl; lia). done.
  - destruct (Z.le_gt_cases (pos + 4 + v) len) as [Hle|Hgt].
    + destruct (string_present pre (be_encode 4 v) post v len) as (s & post' & -> & Hs);
        [done | lia | rewrite be_encode_length; lia |].
      left. exists (FLong s), pre, post'. cbn [field_bytes field_ok]. rewrite Hs.
      split_and!; try done; apply Hv.
    + right. cbn [read_field]. unfold bmqp_read_longstr. subst pos.
      assert (0 <= v < 2 ^ 32) by done. change (Z.to_nat 4) with 4%nat.
      rewrite read_u32_at by lia.
      rewrite reader_take_fails by (done || simpl in *; lia). done.
Qed.

Lemma read_field_inv k r f r' :
  reader_ok r -> read_field k r = (f, r') -> r_error r' = false ->
  kind_of f = k /\ field_ok f /\ reader_ok r' /\
  exists pre post, r_data r = pre ++ field_bytes f ++ post /\ r_data r' = r_data r /\
    r_pos r = Z.of_nat (length pre) /\ r_len r' = r_len r /\
    r_pos r' = Z.of_nat (length pre + length (field_bytes f)).
Proof.
  intros Hr Hread Herr.
  assert (Hnf : r_error (snd (read_field k r)) <> true) by (rewrite Hread; simpl; congruence).
  destruct (r_error r) eqn:Er; [by destruct Hnf; apply read_field_fails; auto|].
  destruct (Z.le_gt_cases (r_pos r + kind_width k) (r_len r)) as [Hle|Hgt];
    [|by destruct Hnf; apply read_field_fails; auto].
  destruct (field_present k r Hr Er Hle) as [(f0 & pre & post & <- & Hf & Hd & Hpre)|]; [|done].
  destruct Hr as (Hok & Hlen & Hmax & Hpos). destruct r as [d len pos err]. simpl in *. subst.
  rewrite !length_app in *. rewrite read_field_at in Hread by (done || lia).
  injection Hread as <- <-. unfold reader_ok. simpl. rewrite !length_app.
  split_and!; try done; try lia. by exists pre, post.
Qed.

(** The error flag is sticky. *)
Lemma read_field_error k r : r_error r = true -> r_error (snd (read_field k r)) = true.
Proof.
  intros Hr. assert (Ht : forall n, reader_take r n = (None, r <| r_error := true |>))
    by (intros; unfold reader_take; by rewrite Hr).
  destruct k; cbn [read_field];
    unfold bmqp_read_shortstr, bmqp_read_longstr, bmqp_read_u8, bmqp_read_u16, bmqp_read_u32,
      bmqp_read_u64; rewrite Ht; done.
Qed.

Lemma read_fields_error ks r : r_error r = true -> r_error (snd (read_fields ks r)) = true.
Proof.
  revert r. induction ks as [|k ks IH]; intros r Hr; [done|]. simpl.
  pose proof (read_field_error k r Hr) as H1. destruct (read_field k r) as [f r1].
  specialize (IH r1 H1). by destruct (read_fields ks r1).
Qed.

(** C23: reads never leave the input.  For any bytes and any sequence of reads, if
    the error flag is clear at the end then the fields returned are well formed
    and their encoding is exactly the bytes between the two positions, which lie
    inside the buffer. *)
Theorem reads_in_bounds ks r fs r' :
  reader_ok r -> read_fields ks r = (fs, r') -> r_error r' = false ->
  kind_of <$> fs = ks /\ Forall field_ok fs /\
  slice (r_data r) (r_pos r) (r_pos r' - r_pos r) = fs ≫= field_bytes /\
  r_pos r <= r_pos r' <= Z.of_nat (length (r_data r)).
Proof.
  intros Hr Hread Herr.
  cut (kind_of <$> fs = ks /\ Forall field_ok fs /\ exists pre post,
         r_data r = pre ++ (fs ≫= field_bytes) ++ post /\ r_pos r = Z.of_nat (length pre) /\
         r_pos r' = Z.of_nat (length pre + length (fs ≫= field_bytes))).
  { intros (Hk & Hf & pre & post & Hd & Hp & Hp'). split_and!; try done; [|lia|].
    - rewrite Hd, Hp, Hp', slice_app_r, Nat2Z.inj_add.
      replace (Z.to_nat _) with (length (fs ≫= field_bytes)) by lia. apply take_app_length.
    - rewrite Hd, !length_app, Hp'. lia. }
  revert r fs Hr Hread. induction ks as [|k ks IH]; intros r fs Hr Hread; simpl in Hread.
  { injection Hread as <- <-. destruct Hr as (_ & Hlen & _ & Hpos). split_and!; try done.
    destruct (split_at (r_data r) (r_pos r) 0) as (pre & [|] & post & Hd & Hpre & Hb);
      [lia.. | | simpl in Hb; lia]. exists pre, post. csimpl. split_and!; [done | lia | lia]. }
  destruct (read_field k r) as [f r1] eqn:E1.
  destruct (read_fields ks r1) as [fs1 r2] eqn:E2. injection Hread as <- ->.
  assert (Herr1 : r_error r1 = false).
  { destruct (r_error r1) eqn:Er; [|done]. apply (read_fields_error ks) in Er.
    rewrite E2 in Er. simpl in Er. congruence. }
  destruct (read_field_inv k r f r1 Hr E1 Herr1)
    as (<- & Hf & Hr1 & pre & post & Hd & Hd1 & Hp & Hl & Hp1).
  destruct (IH r1 fs1 Hr1 E2) as (<- & Hfs & pre1 & post1 & Hd1' & Hp1' & Hp').
  assert (pre1 = pre ++ field_bytes f) as ->.
  { rewrite Hd1, Hd, app_assoc in Hd1'. symmetry in Hd1'. eapply app_inj_1 in Hd1' as [-> _]; [done|].
    rewrite length_app. lia. }
  split_and!; [done | by constructor |]. exists pre, post1. csimpl.
  rewrite length_app, Hp', <- Hd1, Hd1', length_app, <- !app_assoc. split_and!; [done | lia | lia].
Qed.

Lemma reads_in_bounds_witness :
  let r := bmqp_reader_init [1; 2; 3; 3; 97; 98; 99; 7] 8 in
  let '(fs, r') := read_fields [KU8; KU16; KShort] r in
  slice (r_data r) 0 (r_pos r' - 0) = fs ≫= field_bytes.
Proof.
  apply (reads_in_bounds [KU8; KU16; KShort]
           (bmqp_reader_init [1; 2; 3; 3; 97; 98; 99; 7] 8)
           [FU8 1; FU16 515; FShort [97; 98; 99]]
           (Reader [1; 2; 3; 3; 97; 98; 99; 7] 8 7 false)); try reflexivity.
  unfold reader_ok. simpl. split_and!; try lia.
  apply (bool_decide_unpack _). vm_compute. exact I.
Defined.

(** * Buffer growth *)

Lemma grow_cap_spec fuel c need :
  1 <= c <= SIZE_MAX -> 0 <= need <= SIZE_MAX -> need <= c * 2 ^ Z.of_nat fuel ->
  need <= grow_cap fuel c need <= SIZE_MAX /\ c <= grow_cap fuel c need.
Proof.
  revert c. induction fuel as [|fuel IH]; intros c Hc Hneed Hfuel; unfold grow_cap; fold grow_cap.
  { simpl in Hfuel. lia. }
  destruct (Z.ltb_spec c need); [|lia].
  destruct (Z.ltb_spec (SIZE_MAX / 2) c) as [|Hhalf]; [lia|].
  replace (Z.of_nat (S fuel)) with (Z.of_nat fuel + 1) in Hfuel by lia.
  rewrite Z.pow_add_r in Hfuel by lia.
  assert (2 * (SIZE_MAX / 2) <= SIZE_MAX) by (apply Z.mul_div_le; lia).
  destruct (IH (c * 2)); [lia | done | lia | lia].
Qed.

(** The bytes in use fit the allocation. *)
Definition buf_ok (b : bmqp_buf) : Prop := b_len b <= b_cap b <= SIZE_MAX.

(** Reserving never under-allocates.  For every buffer whose contents fit its
    capacity and every request, a successful [buf_reserve] leaves the contents
    alone and a capacity of at least [len + extra] computed without wrap-around
    (the doubling loop ends); a request that would wrap [size_t], or an allocation
    failure, is reported and recorded in the error flag, and nothing is written. *)
Theorem buf_reserve_sound b o extra :
  buf_ok b -> 0 <= extra <= SIZE_MAX ->
  match buf_reserve (b, o) extra with
  | (true, (b', _)) => b_error b = false /\ b_error b' = false /\ b_data b' = b_data b /\
      b_len b + extra <= b_cap b' <= SIZE_MAX /\ b_cap b <= b_cap b'
  | (false, (b', _)) => b_error b' = true /\ b_data b' = b_data b /\ b_cap b' = b_cap b /\
      (b_error b = true \/ SIZE_MAX < b_len b + extra \/ b_cap b < b_len b + extra /\ fst (malloc o) = false)
  end.
Proof.
  unfold buf_ok, buf_reserve. intros Hb Hextra.
  assert (0 <= b_len b) by (unfold b_len; lia).
  destruct (b_error b) eqn:Eb; [by auto 10|].
  destruct (Z.ltb_spec (u64 (b_len b + extra)) (b_len b)) as [Hw|Hw].
  { simpl. split_and!; try done. right. left.
    destruct (Z.le_gt_cases (b_len b + extra) SIZE_MAX); [|lia].
    rewrite u64_small in Hw by (unfold SIZE_MAX in *; lia). lia. }
  assert (Hsmall : b_len b + extra <= SIZE_MAX).
  { unfold SIZE_MAX, u64, wrap in *. destruct (Z.le_gt_cases (b_len b + extra) (2 ^ 64 - 1)); [done|].
    rewrite <- (Z.mod_unique (b_len b + extra) (2 ^ 64) 1 (b_len b + extra - 2 ^ 64)) in Hw; lia. }
  rewrite u64_small by (unfold SIZE_MAX in *; lia).
  destruct (Z.leb_spec (b_len b + extra) (b_cap b)); [split_and!; try done; lia|].
  destruct (malloc o) as [[] o'] eqn:Em; simpl; [|by auto 10].
  destruct (grow_cap_spec 64 (if b_cap b =? 0 then 64 else b_cap b) (b_len b + extra));
    [destruct (Z.eqb_spec (b_cap b) 0); unfold SIZE_MAX in *; lia | lia | | ].
  { unfold SIZE_MAX in Hsmall. destruct (Z.eqb_spec (b_cap b) 0); simpl; lia. }
  split_and!; try done; destruct (Z.eqb_spec (b_cap b) 0); lia.
Qed.

Lemma buf_reserve_sound_witness :
  let '(ok, (b', _)) := buf_reserve (Buf (cstr "abc") 64 false, []) 1000 in
  ok = true /\ 1003 <= b_cap b' <= SIZE_MAX.
Proof.
  pose proof (buf_reserve_sound (Buf (cstr "abc") 64 false) [] 1000
    ltac:(vm_compute; split; congruence) ltac:(vm_compute; split; congruence)) as H.
  split; [reflexivity | exact (proj1 (proj2 (proj2 (proj2 H))))].
Defined.
