(* ===== verification/CLib.v ===== *)
(** What the sources use of the C library: character classes, number parsing and
    printing, string comparison and search, on strings as lists of characters
    without the terminating NUL. *)

From S2P Require Import Prelude.

(** * Characters and strings *)

Definition isspace (c : Z) : bool := (c =? 32) || ((9 <=? c) && (c <=? 13)).
Definition isdigit (c : Z) : bool := (48 <=? c) && (c <=? 57).

Definition tolower (c : Z) : Z := if (65 <=? c) && (c <=? 90) then c + 32 else c.

Definition strcasecmp_eq (a b : bytes) : bool := bool_decide ((tolower <$> a) = (tolower <$> b)).

(** [snprintf(buf, cap, "%s", s)]. *)
Definition snprintf_str (cap : nat) (s : bytes) : bytes := take (cap - 1) s.

(** The characters before the first NUL of a buffer. *)
Fixpoint c_string (bs : bytes) : bytes :=
  match bs with
  | [] => []
  | b :: bs => if b =? 0 then [] else b :: c_string bs
  end.

(** [strchr]: the parts before and after the first occurrence. *)
Fixpoint strchr (c : Z) (s : bytes) : option (bytes * bytes) :=
  match s with
  | [] => None
  | x :: s => if x =? c then Some ([], s) else (fun ab => (x :: ab.1, ab.2)) <$> strchr c s
  end.

(** The parts before and after the last [c]. *)
Fixpoint strrchr (c : Z) (s : bytes) : option (bytes * bytes) :=
  match s with
  | [] => None
  | x :: s =>
      match strrchr c s with
      | Some (a, b) => Some (x :: a, b)
      | None => if x =? c then Some ([], s) else None
      end
  end.

(** The part after the given prefix. *)
Fixpoint strip_prefix (p s : bytes) : option bytes :=
  match p, s with
  | [], s => Some s
  | a :: p, b :: s => if a =? b then strip_prefix p s else None
  | _ :: _, [] => None
  end.

(** * Numbers *)

Fixpoint skip_spaces (s : bytes) : bytes :=
  match s with
  | c :: s' => if isspace c then skip_spaces s' else s
  | [] => []
  end.

(** The digits at the front: their value on top of [acc], and the rest. *)
Fixpoint read_digits (acc : Z) (s : bytes) : Z * bytes :=
  match s with
  | c :: s' => if isdigit c then read_digits (acc * 10 + (c - 48)) s' else (acc, s)
  | [] => (acc, [])
  end.

(** A subject sequence in base 10: whether it is negative, its absolute value, the
    rest; [None] when there are no digits, so that [end] is the start. *)
Definition read_number (s : bytes) : option (bool * Z * bytes) :=
  let s1 := skip_spaces s in
  let '(neg, s2) := match s1 with
                    | 45 :: s' => (true, s')
                    | 43 :: s' => (false, s')
                    | _ => (false, s1)
                    end in
  match s2 with
  | c :: _ => if isdigit c then let '(v, rest) := read_digits 0 s2 in Some (neg, v, rest) else None
  | [] => None
  end.

Definition LONG_MAX : Z := 2 ^ 63 - 1.
Definition LONG_MIN : Z := - 2 ^ 63.
Definition ULONG_MAX : Z := 2 ^ 64 - 1.

(** [strtol(s, &end, 10)]: the value, the rest at [end], and whether [errno] is set
    (ERANGE). *)
Definition strtol (s : bytes) : Z * bytes * bool :=
  match read_number s with
  | None => (0, s, false)
  | Some (neg, v, rest) =>
      let v := if neg then - v else v in
      if LONG_MAX <? v then (LONG_MAX, rest, true)
      else if v <? LONG_MIN then (LONG_MIN, rest, true)
      else (v, rest, false)
  end.

(** [strtoul(s, &end, 10)] (and [strtoull]): a minus sign negates in the type. *)
Definition strtoul (s : bytes) : Z * bytes * bool :=
  match read_number s with
  | None => (0, s, false)
  | Some (neg, v, rest) =>
      if ULONG_MAX <? v then (ULONG_MAX, rest, true)
      else (if neg then u64 (- v) else v, rest, false)
  end.

(** [%u]: the decimal digits of [v]; [n] bounds their number. *)
Fixpoint digits (n : nat) (v : Z) : bytes :=
  match n with
  | O => []
  | S n => if v <? 10 then [48 + v] else digits n (v / 10) ++ [48 + v mod 10]
  end.

Definition print_u32 (v : Z) : bytes := digits 10 v.

(** * Lemmas *)

Lemma isdigit_spec c : isdigit c = true <-> 48 <= c <= 57.
Proof. unfold isdigit. rewrite andb_true_iff, !Z.leb_le. lia. Qed.

Lemma c_string_id s : Forall (fun b => b <> 0) s -> c_string s = s.
Proof. induction 1 as [|b s Hb Hs IH]; [done|]. simpl. apply Z.eqb_neq in Hb. by rewrite Hb, IH. Qed.

Lemma strip_prefix_app p s : strip_prefix p (p ++ s) = Some s.
Proof. induction p as [|a p IH]; simpl; [done|]. by rewrite Z.eqb_refl. Qed.

Lemma read_digits_app acc s rest :
  Forall (fun c => isdigit c = true) s -> (match rest with c :: _ => isdigit c = false | [] => True end) ->
  read_digits acc (s ++ rest) = (foldl (fun a c => a * 10 + (c - 48)) acc s, rest).
Proof.
  intros Hs Hr. revert acc. induction Hs as [|c s Hc Hs IH]; intros acc; simpl.
  - destruct rest as [|c rest]; [done|]. simpl. by rewrite Hr.
  - by rewrite Hc, IH.
Qed.

Lemma digits_spec n v :
  0 <= v < 10 ^ Z.of_nat n -> (0 < n)%nat ->
  Forall (fun c => isdigit c = true) (digits n v) /\ digits n v <> [] /\
  foldl (fun a c => a * 10 + (c - 48)) 0 (digits n v) = v /\ (length (digits n v) <= n)%nat.
Proof.
  revert v. induction n as [|n IH]; intros v Hv Hn; [lia|]. cbn [digits]. destruct (Z.ltb_spec v 10) as [Hlt|Hge].
  - split; [apply Forall_singleton, isdigit_spec; lia|]. split; [done|]. simpl. lia.
  - assert (Hn' : (0 < n)%nat) by (destruct n; [simpl in Hv; lia | lia]).
    assert (Hq : 0 <= v / 10 < 10 ^ Z.of_nat n).
    { split; [apply Z.div_pos; lia|]. apply Z.div_lt_upper_bound; [lia|].
      replace (Z.of_nat (S n)) with (Z.of_nat n + 1) in Hv by lia. rewrite Z.pow_add_r in Hv by lia. lia. }
    destruct (IH (v / 10) Hq Hn') as (H1 & H2 & H3 & H4). split; [|split_and!].
    + apply Forall_app. split; [done|]. apply Forall_singleton, isdigit_spec. pose proof (Z.mod_pos_bound v 10). lia.
    + by destruct (digits n (v / 10)).
    + rewrite foldl_app, H3. simpl. pose proof (Z.div_mod v 10). lia.
    + rewrite length_app. simpl. lia.
Qed.

(** Printing then parsing a number gives it back, up to what follows. *)
Lemma strtoul_print v rest :
  0 <= v < 2 ^ 32 -> (match rest with c :: _ => isdigit c = false | [] => True end) ->
  strtoul (print_u32 v ++ rest) = (v, rest, false).
Proof.
  intros Hv Hr. unfold strtoul, read_number, print_u32.
  destruct (digits_spec 10 v ltac:(simpl; lia) ltac:(lia)) as (H1 & H2 & H3 & _).
  pose proof (read_digits_app 0 (digits 10 v) rest H1 Hr) as Hread. rewrite H3 in Hread.
  destruct (digits 10 v) as [|c ds] eqn:Ed; [done|]. apply Forall_cons in H1 as [Hc _]. apply isdigit_spec in Hc as Hc'.
  cbn [app skip_spaces] in *.
  assert (Hsp : isspace c = false) by (unfold isspace; apply orb_false_iff; split; [lia | apply andb_false_iff; right; lia]).
  rewrite Hsp.
  assert (Hm : match c :: ds ++ rest with
               | 45 :: s' => (true, s') | 43 :: s' => (false, s') | _ => (false, c :: ds ++ rest) end
               = (false, c :: ds ++ rest)).
  { destruct (decide (c = 48)) as [->|]; [done|]. destruct c as [|p|p]; try lia.
    do 6 (destruct p as [p|p|]; try lia; try done). }
  rewrite Hm. cbn iota. rewrite Hc. change (c :: ds ++ rest) with ((c :: ds) ++ rest) in *. rewrite Hread.
  unfold ULONG_MAX. rewrite (proj2 (Z.ltb_ge _ _)) by lia. done.
Qed.
