(* ===== verification/Crypto.v ===== *)
(** SHA-256, HMAC-SHA256 and the constant-time comparison: src/src/crypto.c.

    Words are 32-bit [Z]s.  [crypto_hmac_sha256] copies the message into a buffer
    with room for 64 bytes, so a longer message (which src/include/crypto.h
    excludes) has no result here.  The randomness of [crypto_random_bytes] comes
    from the operating system and is a parameter where it is used. *)

From S2P Require Import Prelude.

(** * SHA-256 *)

Definition ror (x n : Z) : Z := Z.lor (x ≫ n) (u32 (x ≪ (32 - n))).

(** The table of the source, eight words to a row. *)
Definition SHA256_K : list Z :=
  concat [
    [0x428a2f98; 0x71374491; 0xb5c0fbcf; 0xe9b5dba5; 0x3956c25b; 0x59f111f1; 0x923f82a4; 0xab1c5ed5];
    [0xd807aa98; 0x12835b01; 0x243185be; 0x550c7dc3; 0x72be5d74; 0x80deb1fe; 0x9bdc06a7; 0xc19bf174];
    [0xe49b69c1; 0xefbe4786; 0x0fc19dc6; 0x240ca1cc; 0x2de92c6f; 0x4a7484aa; 0x5cb0a9dc; 0x76f988da];
    [0x983e5152; 0xa831c66d; 0xb00327c8; 0xbf597fc7; 0xc6e00bf3; 0xd5a79147; 0x06ca6351; 0x14292967];
    [0x27b70a85; 0x2e1b2138; 0x4d2c6dfc; 0x53380d13; 0x650a7354; 0x766a0abb; 0x81c2c92e; 0x92722c85];
    [0xa2bfe8a1; 0xa81a664b; 0xc24b8b70; 0xc76c51a3; 0xd192e819; 0xd6990624; 0xf40e3585; 0x106aa070];
    [0x19a4c116; 0x1e376c08; 0x2748774c; 0x34b0bcb5; 0x391c0cb3; 0x4ed8aa4a; 0x5b9cca4f; 0x682e6ff3];
    [0x748f82ee; 0x78a5636f; 0x84c87814; 0x8cc70208; 0x90befffa; 0xa4506ceb; 0xbef9a3f7; 0xc67178f2]].

Definition at32 (w : list Z) (i : nat) : Z := default 0 (w !! i).

(** [w[i]] for [i < 16]: a big-endian load. *)
Definition load_word (p : bytes) (i : nat) : Z :=
  Z.lor (Z.lor (Z.lor (u32 (at32 p (i * 4) ≪ 24)) (u32 (at32 p (i * 4 + 1) ≪ 16))) (u32 (at32 p (i * 4 + 2) ≪ 8)))
    (at32 p (i * 4 + 3)).

(** The message schedule from [w[i]] on, [n] more words. *)
Fixpoint schedule (n i : nat) (w : list Z) : list Z :=
  match n with
  | O => w
  | S n =>
      let x := at32 w (i - 15) in
      let y := at32 w (i - 2) in
      let s0 := Z.lxor (Z.lxor (ror x 7) (ror x 18)) (x ≫ 3) in
      let s1 := Z.lxor (Z.lxor (ror y 17) (ror y 19)) (y ≫ 10) in
      schedule n (S i) (w ++ [u32 (at32 w (i - 16) + s0 + at32 w (i - 7) + s1)])
  end.

Record regs := Regs { ra : Z; rb : Z; rc : Z; rd : Z; re : Z; rf : Z; rg : Z; rh : Z }.

(** [~x] on 32 bits. *)
Definition not32 (x : Z) : Z := Z.lxor x 0xffffffff.

Definition sha_round (k w : Z) (r : regs) : regs :=
  let S1 := Z.lxor (Z.lxor (ror (re r) 6) (ror (re r) 11)) (ror (re r) 25) in
  let ch := Z.lxor (Z.land (re r) (rf r)) (Z.land (not32 (re r)) (rg r)) in
  let t1 := u32 (rh r + S1 + ch + k + w) in
  let S0 := Z.lxor (Z.lxor (ror (ra r) 2) (ror (ra r) 13)) (ror (ra r) 22) in
  let maj := Z.lxor (Z.lxor (Z.land (ra r) (rb r)) (Z.land (ra r) (rc r))) (Z.land (rb r) (rc r)) in
  let t2 := u32 (S0 + maj) in
  Regs (u32 (t1 + t2)) (ra r) (rb r) (rc r) (u32 (rd r + t1)) (re r) (rf r) (rg r).

Fixpoint sha_rounds (ks ws : list Z) (r : regs) : regs :=
  match ks, ws with
  | k :: ks, w :: ws => sha_rounds ks ws (sha_round k w r)
  | _, _ => r
  end.

(** [sha256_block]: [s] is the chaining value [c->s]. *)
Definition sha256_block (s : regs) (p : bytes) : regs :=
  let w := schedule 48 16 (load_word p <$> seq 0 16) in
  let r := sha_rounds SHA256_K w s in
  Regs (u32 (ra s + ra r)) (u32 (rb s + rb r)) (u32 (rc s + rc r)) (u32 (rd s + rd r))
       (u32 (re s + re r)) (u32 (rf s + rf r)) (u32 (rg s + rg r)) (u32 (rh s + rh r)).

Definition SHA256_INIT : regs :=
  Regs 0x6a09e667 0xbb67ae85 0x3c6ef372 0xa54ff53a 0x510e527f 0x9b05688c 0x1f83d9ab 0x5be0cd19.

(** The loop over the full blocks of the data, which returns the rest; [n] counts
    the iterations. *)
Fixpoint sha_full_blocks (n : nat) (s : regs) (data : bytes) : regs * bytes :=
  match n with
  | O => (s, data)
  | S n => if (64 <=? length data)%nat then sha_full_blocks n (sha256_block s (take 64 data)) (drop 64 data) else (s, data)
  end.

(** The tail buffer: the rest of the data, 0x80, zeros and the bit count. *)
Definition sha_tail (rest : bytes) (len : Z) : bytes :=
  let t := S (length rest) in
  let pad := if (t <=? 56)%nat then (56 - t)%nat else (120 - t)%nat in
  let bits := u64 (len * 8) in
  rest ++ [0x80] ++ replicate pad 0 ++ ((fun i => u8 (bits ≫ (56 - Z.of_nat i * 8))) <$> seq 0 8).

(** The loop over the blocks of the tail buffer. *)
Fixpoint sha_tail_blocks (n : nat) (s : regs) (tail : bytes) : regs :=
  match n with
  | O => s
  | S n => if (0 <? length tail)%nat then sha_tail_blocks n (sha256_block s (take 64 tail)) (drop 64 tail) else s
  end.

Definition word_bytes (x : Z) : bytes := [u8 (x ≫ 24); u8 (x ≫ 16); u8 (x ≫ 8); u8 x].

Definition crypto_sha256 (data : bytes) : bytes :=
  let '(s, rest) := sha_full_blocks (length data) SHA256_INIT data in
  let s := sha_tail_blocks 2 s (sha_tail rest (Z.of_nat (length data))) in
  [ra s; rb s; rc s; rd s; re s; rf s; rg s; rh s] ≫= word_bytes.

(** * HMAC and comparison *)

Definition crypto_hmac_sha256 (key msg : bytes) : option bytes :=
  let k := if (64 <? length key)%nat then crypto_sha256 key else key in
  let k := k ++ replicate (64 - length k) 0 in
  if (64 <? length msg)%nat then None
  else
    let dig := crypto_sha256 (((fun b => u8 (Z.lxor b 0x36)) <$> k) ++ msg) in
    Some (crypto_sha256 (((fun b => u8 (Z.lxor b 0x5c)) <$> k) ++ dig)).

Definition crypto_ct_memcmp (a b : bytes) : Z :=
  foldl (fun d xy => Z.lor d (u8 (Z.lxor xy.1 xy.2))) 0 (zip a b).

(** * The padded message *)

(** FIPS 180-4: one bit, zeros up to 56 modulo 64, the length in bits on 64 bits. *)
Definition padded (msg : bytes) : bytes :=
  msg ++ [0x80] ++ replicate (Z.to_nat ((55 - Z.of_nat (length msg)) mod 64)) 0 ++
  be_encode 8 (8 * Z.of_nat (length msg)).

(** Cut into blocks of 64 bytes. *)
Fixpoint blocks (n : nat) (l : bytes) : list bytes :=
  match n with
  | O => []
  | S n => match l with [] => [] | _ => take 64 l :: blocks n (drop 64 l) end
  end.

Definition sha256_ref (msg : bytes) : bytes :=
  let s := foldl sha256_block SHA256_INIT (blocks (length (padded msg)) (padded msg)) in
  [ra s; rb s; rc s; rd s; re s; rf s; rg s; rh s] ≫= word_bytes.

(** ** Published vectors *)

Definition hex_digit (d : Z) : Z := if d <? 10 then 48 + d else 87 + d.
Definition hex (l : bytes) : bytes := l ≫= (fun b => [hex_digit (b ≫ 4); hex_digit (Z.land b 15)]).

Example sha256_empty :
  hex (crypto_sha256 []) = cstr "e3b0c44298fc1c149afbf4c8996fb92427ae41e4649b934ca495991b7852b855".
Proof. vm_compute. reflexivity. Qed.

Example sha256_abc :
  hex (crypto_sha256 (cstr "abc")) = cstr "ba7816bf8f01cfea414140de5dae2223b00361a396177a9cb410ff61f20015ad".
Proof. vm_compute. reflexivity. Qed.

Example sha256_two_blocks :
  hex (crypto_sha256 (cstr "abcdbcdecdefdefgefghfghighijhijkijkljklmklmnlmnomnopnopq"))
  = cstr "248d6a61d20638b8e5c026930c3e6039a33ce45964ff2167f6ecedd419db06c1".
Proof. vm_compute. reflexivity. Qed.

Example hmac_rfc4231_2 :
  hex <$> crypto_hmac_sha256 (cstr "Jefe") (cstr "what do ya want for nothing?")
  = Some (cstr "5bdcc146bf60754e6a042426089575c75a003f089d2739839dec58b964ec3843").
Proof. vm_compute. reflexivity. Qed.

(** * Equivalence *)

(** The padded end of a message of [L] bytes in all. *)
Definition pad_with (L : Z) (rest : bytes) : bytes :=
  rest ++ [0x80] ++ replicate (Z.to_nat ((55 - Z.of_nat (length rest)) mod 64)) 0 ++ be_encode 8 (8 * L).

Lemma bits_bytes L : 0 <= L < 2 ^ 61 ->
  (fun i => u8 (u64 (L * 8) ≫ (56 - Z.of_nat i * 8))) <$> seq 0 8 = be_encode 8 (8 * L).
Proof. intros HL. rewrite u64_small by lia. rewrite Z.mul_comm. reflexivity. Qed.

Lemma pad_with_tail L rest :
  0 <= L < 2 ^ 61 -> (length rest < 64)%nat -> pad_with L rest = sha_tail rest L.
Proof.
  intros HL Hr. unfold pad_with, sha_tail. rewrite bits_bytes by done. do 3 f_equal.
  destruct (Nat.leb_spec (S (length rest)) 56); f_equal.
  - rewrite Z.mod_small by lia. lia.
  - rewrite <- (Z.mod_add (55 - Z.of_nat (length rest)) 1 64) by lia. rewrite Z.mod_small by lia. lia.
Qed.

Lemma sha_tail_length rest L :
  (length rest < 64)%nat -> length (sha_tail rest L) = 64%nat \/ length (sha_tail rest L) = 128%nat.
Proof.
  intros Hr. unfold sha_tail. rewrite !length_app, length_replicate, length_fmap, length_seq.
  destruct (Nat.leb_spec (S (length rest)) 56); cbn [length]; lia.
Qed.

Lemma pad_with_drop L rest :
  (64 <= length rest)%nat -> take 64 (pad_with L rest) = take 64 rest /\ drop 64 (pad_with L rest) = pad_with L (drop 64 rest).
Proof.
  intros Hr. unfold pad_with. split; [by rewrite take_app_le|].
  rewrite drop_app_le by done. do 4 f_equal. rewrite length_drop.
  replace (55 - Z.of_nat (length rest - 64)) with (55 - Z.of_nat (length rest) + 1 * 64) by lia. by rewrite Z.mod_add.
Qed.

Lemma blocks_step n l : l <> [] -> blocks (S n) l = take 64 l :: blocks n (drop 64 l).
Proof. by destruct l. Qed.

(** The blocks of the tail buffer. *)
Lemma tail_blocks n s tail :
  (2 <= n)%nat -> length tail = 64%nat \/ length tail = 128%nat ->
  sha_tail_blocks 2 s tail = foldl sha256_block s (blocks n tail).
Proof.
  intros Hn Hl. destruct n as [|[|n]]; [lia | lia |].
  assert (Hne : forall l : bytes, (0 < length l)%nat -> l <> []) by (intros l ? ->; simpl in *; lia).
  assert (Hnil : forall l : bytes, length l = 0%nat -> l = []) by (by intros [|]).
  cbn [sha_tail_blocks]. rewrite (proj2 (Nat.ltb_lt 0 (length tail))) by lia.
  rewrite blocks_step by (apply Hne; lia). rewrite length_drop. destruct Hl as [Hl|Hl].
  - rewrite (proj2 (Nat.ltb_ge _ _)) by lia. rewrite (Hnil (drop 64 tail)) by (rewrite length_drop; lia). done.
  - rewrite (proj2 (Nat.ltb_lt _ _)) by lia. rewrite blocks_step by (apply Hne; rewrite length_drop; lia).
    rewrite (Hnil (drop 64 (drop 64 tail))) by (rewrite !length_drop; lia). by destruct n.
Qed.

Lemma sha_blocks_ref L : 0 <= L < 2 ^ 61 -> forall n s rest m,
  (length rest <= n)%nat -> (n + 128 <= m)%nat ->
  (let '(s', r') := sha_full_blocks n s rest in sha_tail_blocks 2 s' (sha_tail r' L))
  = foldl sha256_block s (blocks m (pad_with L rest)).
Proof.
  intros HL n. induction n as [|n IH]; intros s rest m Hr Hm; cbn [sha_full_blocks].
  - rewrite pad_with_tail by (done || lia). apply tail_blocks; [lia|]. apply sha_tail_length. lia.
  - destruct (Nat.leb_spec 64 (length rest)) as [Hge|Hlt].
    + destruct m as [|m]; [lia|]. destruct (pad_with_drop L rest Hge) as [Ht Hd].
      rewrite blocks_step by (unfold pad_with; by destruct rest). cbn [foldl]. rewrite Ht, Hd.
      apply IH; [rewrite length_drop; lia | lia].
    + rewrite pad_with_tail by done. apply tail_blocks; [lia|]. by apply sha_tail_length.
Qed.

Lemma blocks_enough n : forall m l, (length l <= n)%nat -> (n <= m)%nat -> blocks m l = blocks n l.
Proof.
  induction n as [|n IH]; intros m l Hl Hm.
  - assert (l = []) as -> by (destruct l; [done | simpl in *; lia]). by destruct m.
  - destruct m as [|m]; [lia|]. destruct l as [|b l]; [done|]. rewrite !blocks_step by done. f_equal.
    apply IH; [|lia]. rewrite length_drop. simpl in *. lia.
Qed.

(** C31: [crypto_sha256] hashes the FIPS 180-4 padding of its input: for every
    message whose length in bits fits in 64 bits, working through the full blocks
    in place and then through the tail buffer is the same as cutting the padded
    message into 64-byte blocks and chaining the block function over them; the
    tail fits in the 128-byte buffer of the code. *)
Theorem sha256_padding data :
  Z.of_nat (length data) < 2 ^ 61 ->
  crypto_sha256 data = sha256_ref data /\
  let rest := snd (sha_full_blocks (length data) SHA256_INIT data) in
  (length (sha_tail rest (Z.of_nat (length data))) <= 128)%nat.
Proof.
  intros Hlen.
  assert (Hrest : forall n s d, (length d <= n)%nat -> (length (snd (sha_full_blocks n s d)) < 64)%nat).
  { induction n as [|n IH]; intros s d Hd; cbn [sha_full_blocks]; [simpl; lia|].
    destruct (Nat.leb_spec 64 (length d)); [|simpl; lia]. apply IH. rewrite length_drop. lia. }
  split; [|simpl; destruct (sha_tail_length _ (Z.of_nat (length data)) (Hrest _ SHA256_INIT data (le_n _))); lia].
  unfold crypto_sha256, sha256_ref. change (padded data) with (pad_with (Z.of_nat (length data)) data).
  set (P := pad_with _ data).
  pose proof (sha_blocks_ref (Z.of_nat (length data)) ltac:(lia) (length data) SHA256_INIT data (length P + 128)) as H.
  destruct (sha_full_blocks _ _ _) as [s rest]. rewrite H; [|done | unfold P, pad_with; rewrite length_app; lia].
  fold P. rewrite (blocks_enough (length P) (length P + 128) P) by lia. done.
Qed.

Lemma sha256_padding_witness :
  crypto_sha256 (replicate 70 7) = sha256_ref (replicate 70 7).
Proof. apply (sha256_padding (replicate 70 7)). vm_compute. reflexivity. Defined.

(** * Comparison *)

(** Buffers of the same size compare as 0 exactly when they are the same bytes. *)
Lemma ct_memcmp_spec a b :
  bytes_ok a -> bytes_ok b -> length a = length b -> crypto_ct_memcmp a b = 0 <-> a = b.
Proof.
  intros Ha Hb Hl. unfold crypto_ct_memcmp.
  cut (forall d, 0 <= d -> foldl (fun d xy => Z.lor d (u8 (Z.lxor xy.1 xy.2))) d (zip a b) = 0 <-> d = 0 /\ a = b).
  { intros H. rewrite H by lia. naive_solver. }
  revert b Hb Hl. induction Ha as [|x a Hx Ha IH]; intros [|y b] Hb Hl d Hd; simplify_eq/=; [naive_solver|].
  apply Forall_cons in Hb as [Hy Hb].
  rewrite IH by (done || (apply Z.lor_nonneg; split; [done | apply u8_range])).
  rewrite Z.lor_eq_0_iff. rewrite u8_small.
  - rewrite Z.lxor_eq_0_iff. naive_solver.
  - unfold byte_ok in *. split; [apply Z.lxor_nonneg; lia|]. apply (Z.log2_lt_cancel _ 256).
    destruct (decide (Z.lxor x y <= 0)); [rewrite Z.log2_nonpos by done; done|].
    pose proof (Z.log2_lxor x y ltac:(lia) ltac:(lia)). pose proof (Z.log2_le_mono x 255 ltac:(lia)).
    pose proof (Z.log2_le_mono y 255 ltac:(lia)). simpl in *. lia.
Qed.
