(* ===== verification/AuthLimit.v ===== *)
(** The throttle of password verification: src/src/authlimit.c.

    The table of back-off entries is a list of [AUTHLIMIT_TABLE] slots; each
    operation is the step it takes under the lock.  The slots of the concurrent
    hashes are taken by a compare-and-swap loop without the lock, so they are a
    step relation over the threads. *)

From S2P Require Import Prelude.

(** * State *)

Definition AUTHLIMIT_TABLE : nat := 1024.
Definition AUTHLIMIT_KEYLEN : nat := 64.
Definition AUTHLIMIT_FREE_ATTEMPTS : Z := 5.
Definition AUTHLIMIT_BASE_MS : Z := 500.
Definition AUTHLIMIT_MAX_MS : Z := 30000.
Definition AUTHLIMIT_IDLE_RESET_MS : Z := 900000.
Definition AUTHLIMIT_HASH_CONCURRENCY : Z := 8.

Record entry_t := EntryT { l_key : bytes; l_failures : Z; l_next_ms : Z; l_last_ms : Z; l_used : bool }.

#[global] Instance entry_t_settable : Settable entry_t := fun e =>
  EntryT (l_key e) (l_failures e) (l_next_ms e) (l_last_ms e) (l_used e).

Definition zero_entry : entry_t := EntryT [] 0 0 0 false.

(** [authlimit_reset_for_test]: the table of a fresh process. *)
Definition authlimit_reset_for_test : list entry_t := replicate AUTHLIMIT_TABLE zero_entry.

(** * Operations *)

(** [snprintf] into [AUTHLIMIT_KEYLEN] bytes. *)
Definition norm_key (key : bytes) : bytes := take (AUTHLIMIT_KEYLEN - 1) key.

Definition is_entry (key : bytes) (e : entry_t) : bool := l_used e && bool_decide (l_key e = key).

(** The first slot that satisfies a test. *)
Fixpoint first_slot (p : entry_t -> bool) (tab : list entry_t) : option nat :=
  match tab with
  | [] => None
  | e :: tab => if p e then Some 0%nat else S <$> first_slot p tab
  end.

Definition find_locked (key : bytes) (tab : list entry_t) : option nat := first_slot (is_entry key) tab.

Definition slot_at (tab : list entry_t) (i : nat) : entry_t := default zero_entry (tab !! i).

(** The loop that looks for a free slot and remembers the stalest one; [i] is the
    index of the head of [rest]. *)
Fixpoint free_or_oldest (tab : list entry_t) (i : nat) (rest : list entry_t) (oldest : nat) : nat :=
  match rest with
  | [] => oldest
  | e :: rest =>
      if negb (l_used e) then i
      else free_or_oldest tab (S i) rest (if l_last_ms e <? l_last_ms (slot_at tab oldest) then i else oldest)
  end.

Definition find_or_create_locked (key : bytes) (now_ms : Z) (tab : list entry_t) : nat * list entry_t :=
  match find_locked key tab with
  | Some i => (i, tab)
  | None =>
      let i := free_or_oldest tab 0 tab 0 in
      (i, <[i := EntryT (norm_key key) 0 0 now_ms true]> tab)
  end.

Definition authlimit_retry_after_ms (key : option bytes) (now_ms : Z) (tab : list entry_t) : Z * list entry_t :=
  match key with
  | None | Some [] => (0, tab)
  | Some key =>
      match find_locked (norm_key key) tab with
      | None => (0, tab)
      | Some i =>
          let e := slot_at tab i in
          if AUTHLIMIT_IDLE_RESET_MS <? u64 (now_ms - l_last_ms e) then (0, <[i := e <| l_used := false |>]> tab)
          else if now_ms <? l_next_ms e then (l_next_ms e - now_ms, tab)
          else (0, tab)
      end
  end.

(** The loop [for (i = 1; i < over && d < MAX; i++) d <<= 1], [n] iterations left. *)
Fixpoint backoff_loop (n : nat) (d : Z) : Z :=
  match n with
  | O => d
  | S n => if d <? AUTHLIMIT_MAX_MS then backoff_loop n (u64 (d ≪ 1)) else d
  end.

Definition backoff_delay (failures : Z) : Z :=
  if AUTHLIMIT_FREE_ATTEMPTS <? failures then
    let over := u32 (failures - AUTHLIMIT_FREE_ATTEMPTS) in
    let d := backoff_loop (Z.to_nat (over - 1)) AUTHLIMIT_BASE_MS in
    if AUTHLIMIT_MAX_MS <? d then AUTHLIMIT_MAX_MS else d
  else 0.

(** The update of the entry of the failing key. *)
Definition fail_entry (now_ms : Z) (e : entry_t) : entry_t :=
  let failures := if AUTHLIMIT_IDLE_RESET_MS <? u64 (now_ms - l_last_ms e) then 0 else l_failures e in
  let failures := u32 (failures + 1) in
  EntryT (l_key e) failures (u64 (now_ms + backoff_delay failures)) now_ms (l_used e).

Definition authlimit_record_failure (key : option bytes) (now_ms : Z) (tab : list entry_t) : list entry_t :=
  match key with
  | None | Some [] => tab
  | Some key =>
      let '(i, tab) := find_or_create_locked (norm_key key) now_ms tab in
      <[i := fail_entry now_ms (slot_at tab i)]> tab
  end.

Definition authlimit_record_success (key : option bytes) (tab : list entry_t) : list entry_t :=
  match key with
  | None | Some [] => tab
  | Some key =>
      match find_locked (norm_key key) tab with
      | None => tab
      | Some i => <[i := (slot_at tab i) <| l_used := false |>]> tab
      end
  end.

(** * The table as a map *)

(** No key is in two used slots. *)
Definition uniq (tab : list entry_t) : Prop :=
  forall i j e1 e2, tab !! i = Some e1 -> tab !! j = Some e2 -> l_used e1 = true -> l_used e2 = true ->
    l_key e1 = l_key e2 -> i = j.

Definition al_ok (tab : list entry_t) : Prop := length tab = AUTHLIMIT_TABLE /\ uniq tab.

(** The state kept for a key. *)
Definition al_get (tab : list entry_t) (key : bytes) : option entry_t := slot_at tab <$> find_locked key tab.

Lemma first_slot_Some p tab i :
  first_slot p tab = Some i -> exists e, tab !! i = Some e /\ p e = true.
Proof.
  revert i. induction tab as [|e tab IH]; intros i; simpl; [done|].
  destruct (p e) eqn:Ep; [intros [= <-]; by exists e|].
  destruct (first_slot p tab) as [j|]; [|done]. intros [= <-]. by apply IH.
Qed.

Lemma first_slot_None p tab : first_slot p tab = None -> forall i e, tab !! i = Some e -> p e = false.
Proof.
  induction tab as [|e tab IH]; simpl; [done|]. destruct (p e) eqn:Ep; [done|].
  destruct (first_slot p tab); [done|]. intros _ [|i] e' He; simplify_eq/=; [done | by eapply IH].
Qed.

Lemma find_locked_iff tab key i :
  uniq tab ->
  find_locked key tab = Some i <-> exists e, tab !! i = Some e /\ l_used e = true /\ l_key e = key.
Proof.
  intros Hnd. unfold find_locked, is_entry. split.
  - intros (e & He & Hp)%first_slot_Some. reflect_bools. eauto.
  - intros (e & He & Hu & Hk). destruct (first_slot _ tab) as [j|] eqn:E.
    + apply first_slot_Some in E as (e' & He' & Hp). reflect_bools. f_equal. eapply Hnd; eauto; congruence.
    + apply (first_slot_None _ _ E) in He. rewrite Hu in He. by rewrite bool_decide_true in He.
Qed.

Lemma al_get_Some tab key e :
  uniq tab -> al_get tab key = Some e <-> exists i, tab !! i = Some e /\ l_used e = true /\ l_key e = key.
Proof.
  intros Hnd. unfold al_get, slot_at. split.
  - destruct (find_locked key tab) as [i|] eqn:E; [|done]. apply find_locked_iff in E as (e' & He & ? & ?); [|done].
    simpl. rewrite He. intros [= <-]. eauto.
  - intros (i & He & Hu & Hk). rewrite (proj2 (find_locked_iff tab key i Hnd)) by eauto. simpl. by rewrite He.
Qed.

Lemma al_get_None tab key :
  uniq tab -> al_get tab key = None <-> forall i e, tab !! i = Some e -> l_used e = true -> l_key e <> key.
Proof.
  intros Hnd. destruct (al_get tab key) as [e|] eqn:E.
  - apply al_get_Some in E as (i & He & Hu & Hk); [|done]. split; [done|]. intros H. by destruct (H i e).
  - split; [|done]. intros _ i e He Hu Hk. assert (al_get tab key = Some e) by (apply al_get_Some; eauto). congruence.
Qed.

(** Replacing one slot. *)
Lemma uniq_insert tab i e :
  uniq tab -> (l_used e = true -> forall j e', tab !! j = Some e' -> l_used e' = true -> l_key e' = l_key e -> j = i) ->
  uniq (<[i := e]> tab).
Proof.
  intros Hu He j k e1 e2 Hj Hk U1 U2 Heq. apply list_lookup_insert_Some in Hj as [(-> & <- & _)|[Hne Hj]];
    apply list_lookup_insert_Some in Hk as [(-> & <- & _)|[Hne' Hk]]; eauto. symmetry. eauto.
Qed.

Lemma al_get_insert_same tab i e :
  uniq (<[i := e]> tab) -> (i < length tab)%nat -> l_used e = true -> al_get (<[i := e]> tab) (l_key e) = Some e.
Proof. intros Hu Hi He. apply al_get_Some; [done|]. exists i. by rewrite list_lookup_insert_eq. Qed.

(** Slot [i] held [e0]; the other keys are not affected. *)
Lemma al_get_insert_other tab i e0 e key :
  uniq tab -> uniq (<[i := e]> tab) -> tab !! i = Some e0 ->
  (l_used e = true -> l_key e <> key) -> (l_used e0 = true -> l_key e0 <> key) ->
  al_get (<[i := e]> tab) key = al_get tab key.
Proof.
  intros Hu Hu' Hi He He0. destruct (al_get tab key) as [x|] eqn:E.
  - apply al_get_Some in E as (j & Hj & Hux & Hkx); [|done]. apply al_get_Some; [done|]. exists j.
    rewrite list_lookup_insert_ne; [done|]. intros ->. simplify_eq. by destruct He0.
  - apply al_get_None; [done|]. intros j x Hj Hux Hkx.
    apply list_lookup_insert_Some in Hj as [(-> & -> & _)|[Hne Hj]]; [by apply He|].
    by eapply al_get_None in E.
Qed.

(** The slot chosen for a new key is free, or no slot is and it is the stalest. *)
Lemma free_or_oldest_spec tab : forall rest i oldest,
  (forall k, rest !! k = tab !! (i + k)%nat) -> (oldest < length tab)%nat -> length tab = (i + length rest)%nat ->
  (forall k e, (k < i)%nat -> tab !! k = Some e -> l_used e = true /\ l_last_ms (slot_at tab oldest) <= l_last_ms e) ->
  let r := free_or_oldest tab i rest oldest in
  (r < length tab)%nat /\
  (l_used (slot_at tab r) = false \/
   forall e, e ∈ tab -> l_used e = true /\ l_last_ms (slot_at tab r) <= l_last_ms e).
Proof.
  induction rest as [|e rest IH]; intros i oldest Hr Ho Hlen Hold; cbn [free_or_oldest].
  - split; [done|]. right. intros e [k He]%list_elem_of_lookup. apply (Hold k e); [|done].
    apply lookup_lt_Some in He. simpl in Hlen. lia.
  - assert (Hi : tab !! i = Some e) by (specialize (Hr 0%nat); rewrite Nat.add_0_r in Hr; done).
    destruct (l_used e) eqn:Eu; cbn [negb].
    2:{ split; [by eapply lookup_lt_Some|]. left. unfold slot_at. by rewrite Hi. }
    apply IH.
    + intros k. specialize (Hr (S k)). simpl in Hr. rewrite Hr. f_equal. lia.
    + destruct (_ <? _); [by eapply lookup_lt_Some | done].
    + simpl in Hlen. lia.
    + intros k e' Hk He'. destruct (Z.ltb_spec (l_last_ms e) (l_last_ms (slot_at tab oldest))) as [Hlt|Hge].
      * unfold slot_at at 1. rewrite Hi. simpl. destruct (decide (k = i)) as [->|]; [simplify_eq; split; [done | lia]|].
        destruct (Hold k e' ltac:(lia) He'). split; [done | lia].
      * destruct (decide (k = i)) as [->|]; [simplify_eq; by split|]. apply (Hold k e'); [lia | done].
Qed.

(** * The delay *)

Lemma backoff_loop_spec n : forall k, 0 <= k ->
  500 * 2 ^ k < 60000 ->
  Z.min 30000 (backoff_loop n (500 * 2 ^ k)) = Z.min 30000 (500 * 2 ^ (k + Z.of_nat n)).
Proof.
  induction n as [|n IH]; intros k Hk Hd; cbn [backoff_loop]; [by rewrite Z.add_0_r|].
  unfold AUTHLIMIT_MAX_MS. destruct (Z.ltb_spec (500 * 2 ^ k) 30000) as [Hlt|Hge].
  - assert (Hs : u64 ((500 * 2 ^ k) ≪ 1) = 500 * 2 ^ (k + 1)).
    { rewrite Z.shiftl_mul_pow2 by lia. rewrite Z.pow_add_r by lia. rewrite u64_small; lia. }
    rewrite Hs, IH; [f_equal; f_equal; f_equal; lia | lia |]. rewrite Z.pow_add_r by lia. lia.
  - rewrite Z.min_l by lia. rewrite Z.min_l; [done|].
    assert (2 ^ k <= 2 ^ (k + Z.of_nat (S n))) by (apply Z.pow_le_mono_r; lia). lia.
Qed.

(** Five free attempts, then a delay that doubles from half a second up to thirty
    seconds. *)
Lemma backoff_delay_spec f :
  0 <= f < 2 ^ 32 -> backoff_delay f = if 5 <? f then Z.min 30000 (500 * 2 ^ (f - 6)) else 0.
Proof.
  intros Hf. unfold backoff_delay, AUTHLIMIT_FREE_ATTEMPTS, AUTHLIMIT_BASE_MS.
  destruct (Z.ltb_spec 5 f); [|done]. unfold u32. rewrite wrap_small by lia.
  pose proof (backoff_loop_spec (Z.to_nat (f - 5 - 1)) 0 ltac:(lia) ltac:(lia)) as Hl.
  rewrite Z2Nat.id in Hl by lia. change (500 * 2 ^ 0) with 500 in Hl.
  replace (0 + (f - 5 - 1)) with (f - 6) in Hl by lia. rewrite <- Hl. unfold AUTHLIMIT_MAX_MS.
  destruct (Z.ltb_spec 30000 (backoff_loop (Z.to_nat (f - 5 - 1)) 500)); lia.
Qed.

(** * Failures *)

Lemma norm_key_idem key : norm_key (norm_key key) = norm_key key.
Proof. unfold norm_key. by rewrite take_take, Nat.min_id. Qed.

Lemma slot_at_insert tab i e : (i < length tab)%nat -> slot_at (<[i := e]> tab) i = e.
Proof. intros Hi. unfold slot_at. by rewrite list_lookup_insert_eq. Qed.

(** The number of failures that still count for a key at time [now]. *)
Definition live_failures (now : Z) (prev : option entry_t) : Z :=
  match prev with
  | Some e => if AUTHLIMIT_IDLE_RESET_MS <? u64 (now - l_last_ms e) then 0 else l_failures e
  | None => 0
  end.

(** Another key keeps its entry, or the table was full and it was the stalest. *)
Definition others_kept (key : bytes) (tab tab' : list entry_t) : Prop :=
  (forall k, k <> key -> al_get tab' k = al_get tab k) \/
  (al_get tab key = None /\ (forall e, e ∈ tab -> l_used e = true) /\
   exists v, al_get tab (l_key v) = Some v /\ (forall e, e ∈ tab -> l_last_ms v <= l_last_ms e) /\
     forall k, k <> key -> k <> l_key v -> al_get tab' k = al_get tab k).

Lemma record_failure_known key now tab i e :
  al_ok tab -> tab !! i = Some e -> l_used e = true -> l_key e = key ->
  let tab' := <[i := fail_entry now e]> tab in
  al_ok tab' /\ al_get tab' key = Some (fail_entry now e) /\ others_kept key tab tab'.
Proof.
  intros [Hlen Hu] Hi Hus Hk tab'. assert (Hlt : (i < length tab)%nat) by (by eapply lookup_lt_Some).
  assert (Hu' : uniq tab').
  { apply uniq_insert; [done|]. intros _ j e' Hj Uj Kj. eapply Hu; eauto. }
  split_and!.
  - split; [unfold tab'; by rewrite length_insert | done].
  - rewrite <- Hk. change (l_key e) with (l_key (fail_entry now e)). by apply al_get_insert_same.
  - left. intros k Hne. apply al_get_insert_other with e; try done; intros _; simpl; congruence.
Qed.

Lemma record_failure_new key now tab i :
  al_ok tab -> al_get tab key = None -> norm_key key = key -> i = free_or_oldest tab 0 tab 0 ->
  let tab' := <[i := fail_entry now (EntryT key 0 0 now true)]> tab in
  al_ok tab' /\ al_get tab' key = Some (fail_entry now (EntryT key 0 0 now true)) /\ others_kept key tab tab'.
Proof.
  intros [Hlen Hu] Hg Hn Hi tab'.
  destruct (free_or_oldest_spec tab tab 0 0) as [Hlt Hslot]; [done | rewrite Hlen; unfold AUTHLIMIT_TABLE; lia | done | lia |].
  rewrite <- Hi in Hlt, Hslot. destruct (lookup_lt_is_Some_2 tab i Hlt) as [e0 He0].
  assert (Hs0 : slot_at tab i = e0) by (unfold slot_at; by rewrite He0). rewrite Hs0 in Hslot.
  assert (Hnk : forall j e, tab !! j = Some e -> l_used e = true -> l_key e <> key) by (by apply al_get_None).
  assert (Hu' : uniq tab').
  { apply uniq_insert; [done|]. intros _ j e' Hj Uj Kj. by destruct (Hnk j e'). }
  split_and!.
  - split; [unfold tab'; by rewrite length_insert | done].
  - apply (al_get_insert_same tab i (fail_entry now (EntryT key 0 0 now true))); done.
  - destruct (l_used e0) eqn:U0.
    + right. destruct Hslot as [|Hall]; [done|]. split_and!; [done | intros e He; by apply Hall |].
      exists e0. split_and!; [by apply al_get_Some; eauto | intros e He; by apply Hall |].
      intros k Hne Hne'. apply al_get_insert_other with e0; try done; intros _; simpl; congruence.
    + left. intros k Hne. apply al_get_insert_other with e0; try done; intros; simpl in *; congruence.
Qed.

Lemma record_failure_spec key now tab :
  al_ok tab -> key <> [] ->
  let k := norm_key key in
  let tab' := authlimit_record_failure (Some key) now tab in
  let f := u32 (live_failures now (al_get tab k) + 1) in
  al_ok tab' /\ al_get tab' k = Some (EntryT k f (u64 (now + backoff_delay f)) now true) /\ others_kept k tab tab'.
Proof.
  intros Hok Hne k tab' f. pose proof Hok as [Hlen Hu].
  assert (Hk0 : norm_key k = k) by apply norm_key_idem.
  unfold tab', authlimit_record_failure. destruct key as [|c key]; [done|]. fold k.
  unfold find_or_create_locked. destruct (find_locked k tab) as [i|] eqn:E.
  - apply find_locked_iff in E as (e & Hi & Hus & Hk); [|done].
    assert (Hg : al_get tab k = Some e) by (apply al_get_Some; eauto).
    assert (Hs : slot_at tab i = e) by (unfold slot_at; by rewrite Hi). rewrite Hs.
    destruct (record_failure_known k now tab i e Hok Hi Hus Hk) as (A1 & A2 & A3). split_and!; [done | | done].
    rewrite A2. unfold f. rewrite Hg. unfold fail_entry, live_failures. by rewrite Hk, Hus.
  - assert (Hg : al_get tab k = None) by (unfold al_get; by rewrite E).
    set (i := free_or_oldest tab 0 tab 0).
    destruct (free_or_oldest_spec tab tab 0 0) as [Hlt _]; [done | rewrite Hlen; unfold AUTHLIMIT_TABLE; lia | done | lia |].
    fold i in Hlt. rewrite slot_at_insert, list_insert_insert_eq, Hk0 by done.
    destruct (record_failure_new k now tab i Hok Hg Hk0 eq_refl) as (A1 & A2 & A3). split_and!; [done | | done].
    rewrite A2. unfold f, fail_entry, live_failures. rewrite Hg. simpl. rewrite Z.sub_diag. done.
Qed.

(** * Forgetting a key *)

(** The state of [key] is gone, and no other state has changed. *)
Definition forgotten (key : bytes) (tab tab' : list entry_t) : Prop :=
  al_ok tab' /\ al_get tab' key = None /\ forall k, k <> key -> al_get tab' k = al_get tab k.

Lemma clear_slot_forgets key tab i :
  al_ok tab -> find_locked key tab = Some i -> forgotten key tab (<[i := (slot_at tab i) <| l_used := false |>]> tab).
Proof.
  intros [Hlen Hu] (e & Hi & Hus & Hk)%find_locked_iff; [|done]. assert (Hs : slot_at tab i = e) by (unfold slot_at; by rewrite Hi).
  rewrite Hs. set (tab' := <[i := _]> tab). assert (Hu' : uniq tab') by (by apply uniq_insert). split_and!.
  - split; [unfold tab'; by rewrite length_insert | done].
  - apply al_get_None; [done|]. intros j x Hj Hx Hkx. apply list_lookup_insert_Some in Hj as [(-> & <- & _)|[Hne Hj]]; [done|].
    apply Hne. eapply Hu; eauto. congruence.
  - intros k Hne. apply al_get_insert_other with e; try done. intros _. congruence.
Qed.

Lemma record_success_spec key tab : al_ok tab -> key <> [] -> forgotten (norm_key key) tab (authlimit_record_success (Some key) tab).
Proof.
  intros Hok Hne. unfold authlimit_record_success. destruct key as [|c key]; [done|].
  destruct (find_locked _ tab) as [i|] eqn:E; [by apply clear_slot_forgets|]. split_and!; [done | unfold al_get; by rewrite E | done].
Qed.

(** An unknown key need not wait. *)
Lemma retry_unknown key now tab : al_get tab (norm_key key) = None -> authlimit_retry_after_ms (Some key) now tab = (0, tab).
Proof.
  unfold al_get, authlimit_retry_after_ms. destruct key as [|c key]; [done|]. by destruct (find_locked _ tab).
Qed.

(** C32: the back-off.  Recording a failure of a key (an address) counts it on top of
    the failures of the last fifteen minutes; until that many minutes later, an
    attempt is told to wait exactly until the delay after the last failure is over:
    none for the first five failures, then half a second doubling with each further
    failure, never more than thirty seconds.  Later than that, an attempt need not wait
    and the key is forgotten.  Recording a success forgets the key: an attempt need not
    wait, and the next failure is the first one.  The other keys keep their state,
    except that the failure of a new key in a full table takes the slot of the stalest
    one.  Times are below 2^64 ms, failures below 2^32. *)
Theorem authlimit_backoff key now tab :
  al_ok tab -> key <> [] ->
  let k := norm_key key in
  let n := live_failures now (al_get tab k) + 1 in
  0 < n < 2 ^ 32 -> 0 <= now -> now + 900000 < 2 ^ 64 ->
  let tab' := authlimit_record_failure (Some key) now tab in
  let delay := if 5 <? n then Z.min 30000 (500 * 2 ^ (n - 6)) else 0 in
  al_ok tab' /\ others_kept k tab tab' /\ l_failures <$> al_get tab' k = Some n /\
  (forall now', now <= now' <= now + 900000 -> authlimit_retry_after_ms (Some key) now' tab' = (Z.max 0 (now + delay - now'), tab')) /\
  (forall now', now + 900000 < now' < 2 ^ 64 ->
     (authlimit_retry_after_ms (Some key) now' tab').1 = 0 /\ forgotten k tab' (authlimit_retry_after_ms (Some key) now' tab').2) /\
  let tab'' := authlimit_record_success (Some key) tab' in
  forgotten k tab' tab'' /\ forall now',
    authlimit_retry_after_ms (Some key) now' tab'' = (0, tab'') /\
    l_failures <$> al_get (authlimit_record_failure (Some key) now' tab'') k = Some 1.
Proof.
  intros Hok Hne k n Hn H1 H3 tab' delay. destruct (record_failure_spec key now tab Hok Hne) as (Hok' & Hg & Hoth).
  fold k n tab' in Hg, Hok', Hoth. unfold u32 in Hg. rewrite (wrap_small 32) in Hg by lia. rewrite backoff_delay_spec in Hg by lia. fold delay in Hg.
  assert (Hd : 0 <= delay <= 30000).
  { unfold delay. destruct (Z.ltb_spec 5 n); [|lia]. assert (0 <= 2 ^ (n - 6)) by (apply Z.pow_nonneg; lia). lia. }
  rewrite u64_small in Hg by lia. split_and!; [done | done | by rewrite Hg | | |].
  - intros now' Hnow. unfold authlimit_retry_after_ms. destruct key as [|c key]; [done|]. fold k.
    unfold al_get in Hg. destruct (find_locked k tab') as [i|]; [|done]. simpl in Hg. injection Hg as ->. simpl.
    unfold AUTHLIMIT_IDLE_RESET_MS. rewrite u64_small by lia. rewrite (proj2 (Z.ltb_ge _ _)) by lia.
    destruct (Z.ltb_spec now' (now + delay)); f_equal; lia.
  - intros now' Hnow. unfold authlimit_retry_after_ms. destruct key as [|c key]; [done|]. fold k.
    destruct (find_locked k tab') as [i|] eqn:E; [|unfold al_get in Hg; by rewrite E in Hg].
    assert (l_last_ms (slot_at tab' i) = now) as ->. { unfold al_get in Hg. rewrite E in Hg. by injection Hg as ->. }
    unfold AUTHLIMIT_IDLE_RESET_MS. rewrite u64_small by lia. rewrite (proj2 (Z.ltb_lt _ _)) by lia. split; [done | by apply clear_slot_forgets].
  - destruct (record_success_spec key tab' Hok' Hne) as (A1 & A2 & A3). fold k in A2, A3. split; [done|]. intros now'.
    split; [by apply retry_unknown|]. destruct (record_failure_spec key now' _ A1 Hne) as (_ & E & _). fold k in E. by rewrite E, A2.
Qed.

Lemma authlimit_backoff_witness :
  let tab := Nat.iter 6 (authlimit_record_failure (Some (cstr "10.0.0.1")) 1000) authlimit_reset_for_test in
  let tab' := authlimit_record_failure (Some (cstr "10.0.0.1")) 1000 tab in
  authlimit_retry_after_ms (Some (cstr "10.0.0.1")) 1200 tab' = (800, tab') /\
  al_get (authlimit_record_success (Some (cstr "10.0.0.1")) tab') (cstr "10.0.0.1") = None.
Proof.
  assert (Hok : forall n, al_ok (Nat.iter n (authlimit_record_failure (Some (cstr "10.0.0.1")) 1000) authlimit_reset_for_test)).
  { induction n as [|n IH]; [|by apply record_failure_spec].
    split; [done|]. intros i j e1 e2 Hi _ U1. apply lookup_replicate in Hi as [-> _]. done. }
  destruct (authlimit_backoff (cstr "10.0.0.1") 1000 (Nat.iter 6 (authlimit_record_failure (Some (cstr "10.0.0.1")) 1000)
    authlimit_reset_for_test) (Hok 6%nat)) as (_ & _ & _ & H & _ & (_ & H2 & _) & _); try lia; try discriminate.
  - vm_compute. split; reflexivity.
  - split; [apply H; lia | exact H2].
Defined.

(** * Hash slots *)

(** Where a thread is: not hashing, in the loop of [authlimit_hash_begin] with the
    counter it last saw, or hashing. *)
Inductive tstate := TIdle | TLoop (cur : Z) | THashing.

Record hslots := HSlots { g_inflight : Z; h_threads : list tstate }.

(** One atomic step of thread [i]. *)
Inductive hash_step : hslots -> hslots -> Prop :=
| begin_load g ts i :
    ts !! i = Some TIdle -> hash_step (HSlots g ts) (HSlots g (<[i := TLoop g]> ts))
| begin_cas g ts i :
    ts !! i = Some (TLoop g) -> g < AUTHLIMIT_HASH_CONCURRENCY ->
    hash_step (HSlots g ts) (HSlots (g + 1) (<[i := THashing]> ts))
| begin_retry g ts i cur : (* the exchange fails and reloads the counter *)
    ts !! i = Some (TLoop cur) -> cur < AUTHLIMIT_HASH_CONCURRENCY ->
    hash_step (HSlots g ts) (HSlots g (<[i := TLoop g]> ts))
| begin_refused g ts i cur : (* -1: at capacity *)
    ts !! i = Some (TLoop cur) -> AUTHLIMIT_HASH_CONCURRENCY <= cur ->
    hash_step (HSlots g ts) (HSlots g (<[i := TIdle]> ts))
| hash_end g ts i :
    ts !! i = Some THashing -> hash_step (HSlots g ts) (HSlots (g - 1) (<[i := TIdle]> ts)).

Definition hashing (t : tstate) : bool := match t with THashing => true | _ => false end.
Definition n_hashing (ts : list tstate) : Z := Z.of_nat (length (filter (fun t => hashing t = true) ts)).

Lemma n_hashing_insert ts i t t' :
  ts !! i = Some t -> n_hashing (<[i := t']> ts) = n_hashing ts - Z.b2z (hashing t) + Z.b2z (hashing t').
Proof.
  unfold n_hashing. revert i. induction ts as [|x ts IH]; intros [|i] Hi; simplify_eq/=.
  - rewrite !filter_cons. destruct t, t'; simpl; lia.
  - specialize (IH i Hi). rewrite !filter_cons. destruct (decide (hashing x = true)); cbn [length]; lia.
Qed.

Lemma hash_step_inv s s' :
  hash_step s s' -> g_inflight s = n_hashing (h_threads s) /\ g_inflight s <= AUTHLIMIT_HASH_CONCURRENCY ->
  g_inflight s' = n_hashing (h_threads s') /\ g_inflight s' <= AUTHLIMIT_HASH_CONCURRENCY.
Proof.
  unfold AUTHLIMIT_HASH_CONCURRENCY.
  destruct 1 as [g ts i Hi|g ts i Hi ?|g ts i cur Hi ?|g ts i cur Hi ?|g ts i Hi];
    simpl; rewrite (n_hashing_insert _ _ _ _ Hi); simpl; unfold AUTHLIMIT_HASH_CONCURRENCY in *; lia.
Qed.

(** C33: never more than eight hashes at once.  However the threads interleave and
    however often an exchange fails, the counter is the number of threads that hash,
    and that number never exceeds the cap; a thread that sees a free slot and is not
    overtaken takes it. *)
Theorem hash_slots_bounded n s :
  rtc hash_step (HSlots 0 (replicate n TIdle)) s ->
  g_inflight s = n_hashing (h_threads s) /\ 0 <= g_inflight s <= AUTHLIMIT_HASH_CONCURRENCY /\
  forall i, h_threads s !! i = Some (TLoop (g_inflight s)) -> g_inflight s < AUTHLIMIT_HASH_CONCURRENCY ->
    exists s', hash_step s s' /\ h_threads s' !! i = Some THashing.
Proof.
  intros Hr. assert (Hinv : g_inflight s = n_hashing (h_threads s) /\ g_inflight s <= AUTHLIMIT_HASH_CONCURRENCY).
  { remember (HSlots 0 (replicate n TIdle)) as s0 eqn:Hs0.
    assert (H0 : g_inflight s0 = n_hashing (h_threads s0) /\ g_inflight s0 <= AUTHLIMIT_HASH_CONCURRENCY).
    { subst s0. simpl. split; [|done]. unfold n_hashing. clear. by induction n. }
    clear Hs0. induction Hr as [|x y z Hxy _ IH]; [done|]. apply IH. by eapply hash_step_inv. }
  destruct Hinv as [Hg Hle]. split_and!; [done | unfold n_hashing in Hg; lia | done |].
  intros i Hi Hlt. destruct s as [g ts]. simpl in *. eexists. split; [by eapply begin_cas|]. simpl.
  apply list_lookup_insert_eq. by eapply lookup_lt_Some.
Qed.

Lemma hash_slots_bounded_witness : 
  rtc hash_step (HSlots 0 (replicate 2 TIdle)) (HSlots 1 [THashing; TLoop 1]) /\ 0 <= 1 <= AUTHLIMIT_HASH_CONCURRENCY.
Proof.
  assert (Hr : rtc hash_step (HSlots 0 (replicate 2 TIdle)) (HSlots 1 [THashing; TLoop 1])).
  { eapply rtc_l; [by eapply (begin_load 0 _ 0)|]. eapply rtc_l; [by eapply (begin_load 0 _ 1)|].
    eapply rtc_l; [by eapply (begin_cas 0 _ 0)|]. eapply rtc_l; [by eapply (begin_retry 1 _ 1 0)|]. apply rtc_refl. }
  split; [exact Hr|]. destruct (hash_slots_bounded 2 _ Hr) as (_ & H & _). exact H.
Defined.
