(* ===== verification/Password.v ===== *)
(** Password hashes: the first part of src/src/authstore.c.

    The stored form is "$p2$<iterations>$<salt in hex>$<digest in hex>"; the older
    form, the hex of a 4-byte salt and a SHA-256 digest, is still verified.  The
    salt comes from the operating system: it is an argument, [None] when no source
    of randomness is available. *)

From S2P Require Import Prelude CLib Crypto.

(** * Hexadecimal *)

Definition HEX : bytes := cstr "0123456789abcdef".

Definition to_hex (b : bytes) : bytes := b ≫= (fun x => [default 0 (HEX !! Z.to_nat (x ≫ 4)); default 0 (HEX !! Z.to_nat (Z.land x 15))]).

(** [None] is -1. *)
Definition hexval (c : Z) : option Z :=
  if (48 <=? c) && (c <=? 57) then Some (c - 48)
  else
    let c := Z.lor c 32 in
    if (97 <=? c) && (c <=? 102) then Some (c - 97 + 10) else None.

Fixpoint from_hex (s : bytes) (n : nat) {struct n} : option bytes :=
  match n with
  | O => Some []
  | S n =>
      match s with
      | x :: y :: s =>
          match hexval x, hexval y with
          | Some a, Some b => cons (u8 (Z.lor (a ≪ 4) b)) <$> from_hex s n
          | _, _ => None
          end
      | _ => None
      end
  end.

(** * PBKDF2 *)

Definition pbkdf2_step (pw : bytes) (st : option (bytes * bytes)) : option (bytes * bytes) :=
  '(u, out) ← st; u ← crypto_hmac_sha256 pw u; Some (u, zip_with Z.lxor out u).

Definition pbkdf2_sha256 (pass salt : bytes) (iters : Z) : option bytes :=
  u ← crypto_hmac_sha256 pass (salt ++ [0; 0; 0; 1]);
  '(_, out) ← N.iter (Z.to_N (iters - 1)) (pbkdf2_step pass) (Some (u, u));
  Some out.

Definition AUTH_PBKDF2_ITERS : Z := 210000.
Definition AUTHSTORE_HASH_MAX : nat := 128.

(** * Hashing and verifying *)

(** The return code and the string left in [out]. *)
Definition authstore_hash_password (random : option bytes) (password : bytes) (out_cap : nat) : option (Z * bytes) :=
  if (out_cap <? AUTHSTORE_HASH_MAX)%nat then Some (-1, [])
  else
    match random with
    | None => Some (-1, [])
    | Some salt =>
        dig ← pbkdf2_sha256 password salt AUTH_PBKDF2_ITERS;
        Some (0, snprintf_str out_cap
                   (cstr "$p2$" ++ print_u32 AUTH_PBKDF2_ITERS ++ cstr "$" ++ to_hex salt ++ cstr "$" ++ to_hex dig))
    end.

(** The branch of the current form; [rest] is what follows "$p2$". *)
Definition p2_matches (rest password : bytes) : option bool :=
  let '(iters, rest, _) := strtoul rest in
  match rest with
  | 36 :: sh =>
      if (iters =? 0) || (10 * AUTH_PBKDF2_ITERS <? iters) then Some false
      else if negb (length sh =? 97)%nat || negb (default 0 (sh !! 32%nat) =? 36) then Some false
      else
        match from_hex sh 16, from_hex (drop 33 sh) 32 with
        | Some salt, Some want =>
            dig ← pbkdf2_sha256 password salt (u32 iters);
            Some (crypto_ct_memcmp dig want =? 0)
        | _, _ => Some false
        end
  | _ => Some false
  end.

(** The branch of the older form. *)
Definition legacy_matches (o : oracle) (stored password : bytes) : bool :=
  if (length stored <? 72)%nat then false
  else
    match from_hex stored 36 with
    | None => false
    | Some blob =>
        if fst (malloc o) then crypto_ct_memcmp (crypto_sha256 (take 4 blob ++ password)) (drop 4 blob) =? 0
        else false
    end.

Definition hash_matches (o : oracle) (stored password : bytes) : option bool :=
  match strip_prefix (cstr "$p2$") stored with
  | Some rest => p2_matches rest password
  | None => Some (legacy_matches o stored password)
  end.

(** [authstore_password_matches] on non-NULL arguments. *)
Definition authstore_password_matches (o : oracle) (stored password : bytes) : option bool :=
  if (length stored =? 0)%nat then Some false else hash_matches o stored password.

(** * Lemmas *)

Lemma lt_256 x (P : Z -> bool) : forallb P (Z.of_nat <$> seq 0 256) = true -> byte_ok x -> P x = true.
Proof.
  intros Hall Hx. rewrite forallb_forall in Hall. apply Hall. apply list_elem_of_In, list_elem_of_fmap.
  exists (Z.to_nat x). unfold byte_ok in Hx. split; [lia|]. apply elem_of_seq. lia.
Qed.

(** The two digits of one byte: not NUL, and read back. *)
Definition hex_back (x : Z) : bool :=
  match to_hex [x] with
  | [a; b] =>
      negb (a =? 0) && negb (b =? 0) &&
      match hexval a, hexval b with
      | Some a, Some b => u8 (Z.lor (a ≪ 4) b) =? x
      | _, _ => false
      end
  | _ => false
  end.

Lemma hex_back_ok x : byte_ok x -> hex_back x = true.
Proof. apply lt_256. vm_compute. reflexivity. Qed.

Lemma to_hex_length b : length (to_hex b) = (2 * length b)%nat.
Proof. unfold to_hex. induction b as [|x b IH]; csimpl; [done|]. rewrite IH. lia. Qed.

Lemma to_hex_nonzero b : bytes_ok b -> Forall (fun c => c <> 0) (to_hex b).
Proof.
  unfold to_hex. induction 1 as [|x b Hx Hb IH]; csimpl; [constructor|].
  pose proof (hex_back_ok x Hx) as H. unfold hex_back, to_hex in H. csimpl in H. rewrite !andb_true_iff in H.
  destruct H as [[Ha%negb_true_iff%Z.eqb_neq Hc%negb_true_iff%Z.eqb_neq] _]. by repeat constructor.
Qed.

Lemma from_to_hex b rest : bytes_ok b -> from_hex (to_hex b ++ rest) (length b) = Some b.
Proof.
  unfold to_hex. induction 1 as [|x b Hx Hb IH]; csimpl; [done|].
  pose proof (hex_back_ok x Hx) as H. unfold hex_back, to_hex in H. csimpl in H. rewrite andb_true_iff in H.
  destruct H as [_ H]. destruct (hexval _) as [a|]; [|done]. destruct (hexval _) as [c|]; [|done].
  apply Z.eqb_eq in H. rewrite H. csimpl. by rewrite IH.
Qed.

Lemma words_ok ws : bytes_ok (ws ≫= word_bytes) /\ length (ws ≫= word_bytes) = (4 * length ws)%nat.
Proof.
  induction ws as [|x ws [IH1 IH2]]; csimpl; [done|]. split; [|rewrite IH2; lia].
  repeat (constructor; [apply u8_range|]). done.
Qed.

Lemma sha256_digest data : bytes_ok (crypto_sha256 data) /\ length (crypto_sha256 data) = 32%nat.
Proof. unfold crypto_sha256. destruct (sha_full_blocks _ _ _) as [s rest]. apply (words_ok [_; _; _; _; _; _; _; _]). Qed.

Definition digest_ok (d : bytes) : Prop := bytes_ok d /\ length d = 32%nat.

Lemma hmac_digest key msg : (length msg <= 64)%nat -> exists d, crypto_hmac_sha256 key msg = Some d /\ digest_ok d.
Proof.
  intros Hm. unfold crypto_hmac_sha256. destruct (Nat.ltb_spec 64 (length msg)); [lia|].
  eexists. split; [done|]. apply sha256_digest.
Qed.

Lemma lxor_byte x y : byte_ok x -> byte_ok y -> byte_ok (Z.lxor x y).
Proof.
  unfold byte_ok. intros Hx Hy. split; [apply Z.lxor_nonneg; lia|]. apply (Z.log2_lt_cancel _ 256).
  destruct (decide (Z.lxor x y <= 0)); [rewrite Z.log2_nonpos by done; done|].
  pose proof (Z.log2_lxor x y ltac:(lia) ltac:(lia)). pose proof (Z.log2_le_mono x 255 ltac:(lia)).
  pose proof (Z.log2_le_mono y 255 ltac:(lia)). simpl in *. lia.
Qed.

Lemma xor_digest a b : digest_ok a -> digest_ok b -> digest_ok (zip_with Z.lxor a b).
Proof.
  intros [Ha Hla] [Hb Hlb]. split; [|rewrite length_zip_with; lia].
  rewrite Forall_lookup in Ha, Hb. apply Forall_lookup. intros i x (y & z & -> & Hy & Hz)%lookup_zip_with_Some.
  apply lxor_byte; eauto.
Qed.

(** The derivation of a key from a salt of at most 60 bytes always has a result. *)
Lemma pbkdf2_digest pass salt iters :
  (length salt <= 60)%nat -> exists d, pbkdf2_sha256 pass salt iters = Some d /\ digest_ok d.
Proof.
  intros Hs. unfold pbkdf2_sha256.
  destruct (hmac_digest pass (salt ++ [0; 0; 0; 1])) as (u & -> & Hu); [rewrite length_app; simpl; lia|]. csimpl.
  assert (Hi : exists u' out, N.iter (Z.to_N (iters - 1)) (pbkdf2_step pass) (Some (u, u)) = Some (u', out) /\
                              digest_ok u' /\ digest_ok out).
  { apply N.iter_invariant; [|by exists u, u]. intros st (u' & out & -> & Hu' & Hout). unfold pbkdf2_step. csimpl.
    destruct (hmac_digest pass u') as (v & -> & Hv); [destruct Hu'; lia|]. csimpl.
    exists v, (zip_with Z.lxor out v). split; [done|]. split; [done|]. by apply xor_digest. }
  destruct Hi as (u' & out & -> & _ & Hout). csimpl. by exists out.
Qed.

Lemma iters_printed : print_u32 AUTH_PBKDF2_ITERS = cstr "210000".
Proof. reflexivity. Qed.

Opaque pbkdf2_sha256.

(** Verifying a record built from a salt and a digest. *)
Lemma p2_matches_record salt key q :
  bytes_ok salt -> length salt = 16%nat -> digest_ok key ->
  p2_matches (print_u32 AUTH_PBKDF2_ITERS ++ cstr "$" ++ to_hex salt ++ cstr "$" ++ to_hex key) q
  = Some (bool_decide (pbkdf2_sha256 q salt AUTH_PBKDF2_ITERS = Some key)).
Proof.
  intros Hs Hls [Hk Hlk]. unfold p2_matches.
  rewrite strtoul_print by (done || (unfold AUTH_PBKDF2_ITERS; lia)).
  change (cstr "$") with [36]. cbn [app]. set (sh := to_hex salt ++ 36 :: to_hex key).
  assert (Hlen : length (to_hex salt) = 32%nat) by (rewrite to_hex_length; lia).
  assert (Hsh : length sh = 97%nat) by (unfold sh; rewrite length_app; simpl; rewrite Hlen, to_hex_length; lia).
  assert (H32 : sh !! 32%nat = Some 36) by (unfold sh; rewrite lookup_app_r by lia; by rewrite Hlen).
  assert (Hd : drop 33 sh = to_hex key ++ []).
  { unfold sh. rewrite app_nil_r. rewrite drop_app_ge by lia. by rewrite Hlen. }
  assert (E : (AUTH_PBKDF2_ITERS =? 0) || (10 * AUTH_PBKDF2_ITERS <? AUTH_PBKDF2_ITERS) = false) by done.
  rewrite E, Hsh, H32, Hd. cbn [Nat.eqb negb default orb Z.eqb Pos.eqb].
  unfold sh. rewrite <- Hls at 1. rewrite from_to_hex by done. rewrite <- Hlk at 1. rewrite from_to_hex by done.
  change (u32 AUTH_PBKDF2_ITERS) with AUTH_PBKDF2_ITERS.
  destruct (pbkdf2_digest q salt AUTH_PBKDF2_ITERS) as (d & Ed & Hd1 & Hd2); [lia|]. rewrite Ed. csimpl. f_equal.
  apply eq_bool_prop_intro. rewrite bool_decide_spec, Is_true_true, Z.eqb_eq, ct_memcmp_spec by (done || lia). naive_solver.
Qed.

(** C34: hashing a password with any 16-byte salt gives a C string that fits the
    store's field, and a later login with [q] is accepted exactly when [q] derives
    the same PBKDF2 key from that salt; the password itself is always accepted. *)
Theorem password_roundtrip salt p cap :
  bytes_ok salt -> length salt = 16%nat -> (AUTHSTORE_HASH_MAX <= cap)%nat ->
  exists h,
    authstore_hash_password (Some salt) p cap = Some (0, h) /\
    (length h < AUTHSTORE_HASH_MAX)%nat /\ Forall (fun c => c <> 0) h /\
    (forall o q, authstore_password_matches o h q =
       Some (bool_decide (pbkdf2_sha256 q salt AUTH_PBKDF2_ITERS = pbkdf2_sha256 p salt AUTH_PBKDF2_ITERS))) /\
    (forall o, authstore_password_matches o h p = Some true).
Proof.
  intros Hs Hls Hcap. destruct (pbkdf2_digest p salt AUTH_PBKDF2_ITERS) as (key & Ek & Hk); [lia|].
  set (h := cstr "$p2$" ++ print_u32 AUTH_PBKDF2_ITERS ++ cstr "$" ++ to_hex salt ++ cstr "$" ++ to_hex key).
  assert (Hlen : length h = 108%nat).
  { unfold h. rewrite !length_app, !to_hex_length, Hls, (proj2 Hk). done. }
  assert (Hm : forall o q, authstore_password_matches o h q =
    Some (bool_decide (pbkdf2_sha256 q salt AUTH_PBKDF2_ITERS = Some key))).
  { intros o q. unfold authstore_password_matches. rewrite Hlen. cbn [Nat.eqb]. unfold hash_matches, h.
    rewrite strip_prefix_app. by apply p2_matches_record. }
  exists h. split.
  { unfold authstore_hash_password. rewrite (proj2 (Nat.ltb_ge _ _)) by done. rewrite Ek.
    change (Some (0, snprintf_str cap h) = Some (0, h)). unfold snprintf_str.
    by rewrite take_ge by (unfold AUTHSTORE_HASH_MAX in *; lia). }
  split; [rewrite Hlen; unfold AUTHSTORE_HASH_MAX; lia|]. split; [|split; [intros o q; rewrite Hm, Ek; reflexivity|]].
  - unfold h. rewrite iters_printed, !Forall_app. destruct Hk as [Hk _].
    split_and!; try (by apply to_hex_nonzero); repeat (constructor; [done|]); constructor.
  - intros o. by rewrite Hm, Ek, bool_decide_true.
Qed.

Lemma password_roundtrip_witness :
  exists h, authstore_hash_password (Some (replicate 16 7)) (cstr "guest") 128 = Some (0, h) /\
            authstore_password_matches [] h (cstr "guest") = Some true.
Proof.
  destruct (password_roundtrip (replicate 16 7) (cstr "guest") 128) as (h & H1 & _ & _ & _ & H2).
  - apply Forall_replicate. unfold byte_ok. lia.
  - reflexivity.
  - unfold AUTHSTORE_HASH_MAX. lia.
  - exists h. split; [exact H1 | exact (H2 [])].
Defined.
