(* ===== verification/AuthStore.v ===== *)
(** The store of virtual hosts, users and permissions: src/src/authstore.c.

    The three tables are lists in array order.  The reader-writer lock is the flag
    [s_locked]: an operation that has to wait for a lock nobody will release has
    no result ([None]).  The regular expressions of the C library are the two
    functions [regcomp], whether a pattern compiles, and [regexec], whether a
    compiled pattern matches.  The files of the machine are a map from paths to
    contents, and [s_io] says how the next saves fare. *)

From S2P Require Import Prelude Tables CLib Crypto Password.

(** * State *)

Definition AUTHSTORE_NAME_MAX : nat := 128.
Definition AUTHSTORE_REGEX_MAX : nat := 256.

Inductive auth_perm_t := AUTH_CONFIGURE | AUTH_WRITE | AUTH_READ.

Record user_t := UserT { u_name : bytes; u_hash : bytes; u_tags : Z }.

(** A [regex_t]: the pattern it was compiled from, or no compiled expression. *)
Inductive regex_t := rx_none | rx_built (pattern : bytes).

Record perm_t := PermT {
  p_user : bytes; p_vhost : bytes; p_conf : bytes; p_wr : bytes; p_rd : bytes;
  p_rc : regex_t; p_rw : regex_t; p_rr : regex_t;
  p_compiled : bool;
}.

#[global] Instance perm_t_settable : Settable perm_t := fun p =>
  PermT (p_user p) (p_vhost p) (p_conf p) (p_wr p) (p_rd p) (p_rc p) (p_rw p) (p_rr p) (p_compiled p).

Definition zero_perm : perm_t := PermT [] [] [] [] [] rx_none rx_none rx_none false.

(** How a save ends: the temporary file cannot be opened; it is created but no
    stream can be attached to it; a write, the flush or the rename fails; or the
    file is replaced. *)
Inductive save_outcome := save_unopened | save_no_stream | save_failed | save_done.

Record authstore := AuthStore {
  s_vhosts : list bytes; s_cv : nat;
  s_users : list user_t; s_cu : nat;
  s_perms : list perm_t; s_cp : nat;
  s_persist_path : bytes;
  s_bootstrap_completed : bool;
  s_locked : bool;             (* a writer holds the lock *)
  s_oracle : oracle;
  s_disk : gmap bytes bytes;
  s_io : list save_outcome;    (* the outcomes of the next saves; [] is success *)
  s_misused : nat;             (* calls of [regfree] on no compiled expression *)
}.

#[global] Instance authstore_settable : Settable authstore := fun s =>
  AuthStore (s_vhosts s) (s_cv s) (s_users s) (s_cu s) (s_perms s) (s_cp s) (s_persist_path s)
    (s_bootstrap_completed s) (s_locked s) (s_oracle s) (s_disk s) (s_io s) (s_misused s).

(** [authstore_new], when the allocation succeeds. *)
Definition authstore_new (o : oracle) (disk : gmap bytes bytes) (io : list save_outcome) : authstore :=
  AuthStore [] 0 [] 0 [] 0 [] false false o disk io 0.

Definition wrlock (s : authstore) : option authstore := if s_locked s then None else Some (s <| s_locked := true |>).
Definition unlock (s : authstore) : authstore := s <| s_locked := false |>.
Definition rdlock (s : authstore) : option unit := if s_locked s then None else Some tt.

(** * Tables *)

Definition too_long (s : bytes) (n : nat) : bool := (n <=? length s)%nat.

(** [GROW]: the new capacity and oracle, or [None] for the early return. *)
Definition GROW (n cap : nat) (o : oracle) : option nat * oracle :=
  if (n =? cap)%nat then
    let '(ok, o) := malloc o in
    (if ok then Some (if (cap =? 0)%nat then 8 else cap * 2)%nat else None, o)
  else (Some cap, o).

Definition find_vhost (s : authstore) (v : bytes) : option nat := find_key id v (s_vhosts s).
Definition find_user (s : authstore) (u : bytes) : option nat := find_key u_name u (s_users s).

Definition perm_key (p : perm_t) : bytes * bytes := (p_user p, p_vhost p).
Definition find_perm (s : authstore) (u v : bytes) : option nat := find_key perm_key (u, v) (s_perms s).

Definition regfree (r : regex_t) : regex_t * nat :=
  match r with
  | rx_built _ => (rx_none, 0%nat)
  | rx_none => (rx_none, 1%nat)
  end.

(** The row without its expressions, and the misuses of [regfree]. *)
Definition perm_free_regex (p : perm_t) : perm_t * nat :=
  if p_compiled p then
    let '(rc, a) := regfree (p_rc p) in
    let '(rw, b) := regfree (p_rw p) in
    let '(rr, c) := regfree (p_rr p) in
    ((p <| p_rc := rc |> <| p_rw := rw |> <| p_rr := rr |>) <| p_compiled := false |>, (a + b + c)%nat)
  else (p, 0%nat).

(** The test of [drop_perms_matching]; NULL is [None]. *)
Definition perm_matches (u v : option bytes) (p : perm_t) : bool :=
  bool_decide (u = Some (p_user p)) || bool_decide (v = Some (p_vhost p)).

(** The loop; [fuel] counts the iterations. *)
Fixpoint drop_perms_loop (u v : option bytes) (fuel i : nat) (perms : list perm_t) (misused : nat) : list perm_t * nat :=
  match fuel with
  | O => (perms, misused)
  | S fuel =>
      match perms !! i with
      | None => (perms, misused)
      | Some p =>
          if perm_matches u v p then
            drop_perms_loop u v fuel i (swap_remove i perms) (misused + (perm_free_regex p).2)
          else drop_perms_loop u v fuel (S i) perms misused
      end
  end.

Definition drop_perms_matching (u v : option bytes) (s : authstore) : authstore :=
  let '(perms, m) := drop_perms_loop u v (length (s_perms s)) 0 (s_perms s) (s_misused s) in
  s <| s_perms := perms |> <| s_misused := m |>.

(** * The file *)

Definition AUTHSTORE_DB_MAGIC : Z := 0x41535442.
Definition AUTHSTORE_DB_VERSION : Z := 1.

Definition put_u32 (v : Z) : bytes := be_encode 4 v.

Definition put_str (s : bytes) : option bytes :=
  if 0xffff <? Z.of_nat (length s) then None else Some (be_encode 2 (Z.of_nat (length s)) ++ s).

Definition get_u32 (f : bytes) : option (Z * bytes) :=
  if (length f <? 4)%nat then None else Some (be_decode (take 4 f), drop 4 f).

(** The string ends at the first NUL of what was read. *)
Definition get_str (cap : nat) (f : bytes) : option (bytes * bytes) :=
  if (length f <? 2)%nat then None
  else
    let n := Z.to_nat (be_decode (take 2 f)) in
    if (cap <=? n)%nat then None
    else if (length (drop 2 f) <? n)%nat then None
    else Some (c_string (take n (drop 2 f)), drop n (drop 2 f)).

Definition put_user (u : user_t) : option bytes :=
  a ← put_str (u_name u); b ← put_str (u_hash u); Some (a ++ b ++ put_u32 (u_tags u)).

Definition put_perm (p : perm_t) : option bytes :=
  a ← put_str (p_user p); b ← put_str (p_vhost p); c ← put_str (p_conf p); d ← put_str (p_wr p); e ← put_str (p_rd p);
  Some (a ++ b ++ c ++ d ++ e).

(** The bytes that a save writes, [None] when one of the writes is refused. *)
Definition serialize (s : authstore) : option bytes :=
  vs ← mapM put_str (s_vhosts s); us ← mapM put_user (s_users s); ps ← mapM put_perm (s_perms s);
  Some (put_u32 AUTHSTORE_DB_MAGIC ++ put_u32 AUTHSTORE_DB_VERSION ++
        put_u32 (if s_bootstrap_completed s then 1 else 0) ++
        put_u32 (Z.of_nat (length (s_vhosts s))) ++ concat vs ++
        put_u32 (Z.of_nat (length (s_users s))) ++ concat us ++
        put_u32 (Z.of_nat (length (s_perms s))) ++ concat ps).

Definition save_paths (s : authstore) : bytes * bytes := (s_persist_path s, s_persist_path s ++ cstr ".tmp").

Definition authstore_save_locked (s : authstore) : authstore :=
  let '(path, tmp) := save_paths s in
  if (length path =? 0)%nat then s
  else if (600 <=? length tmp)%nat then s
  else
    let '(out, io) := match s_io s with [] => (save_done, []) | x :: io => (x, io) end in
    let s := s <| s_io := io |> in
    match out, serialize s with
    | save_unopened, _ => s
    | save_no_stream, _ => s <| s_disk ::= <[tmp := []]> |>
    | save_done, Some file => s <| s_disk ::= fun d => <[path := file]> (delete tmp d) |>
    | _, _ => s <| s_disk ::= delete tmp |>
    end.

(** * Operations *)

Definition authstore_add_vhost (vhost : bytes) (s : authstore) : option (Z * authstore) :=
  if too_long vhost AUTHSTORE_NAME_MAX then Some (-1, s)
  else
    s ← wrlock s;
    match find_vhost s vhost with
    | Some _ => Some (0, unlock s)
    | None =>
        let '(cap, o) := GROW (length (s_vhosts s)) (s_cv s) (s_oracle s) in
        let s := s <| s_oracle := o |> in
        match cap with
        | None => Some (-1, s)
        | Some cap =>
            let s := s <| s_cv := cap |> <| s_vhosts ::= fun l => l ++ [snprintf_str AUTHSTORE_NAME_MAX vhost] |> in
            Some (0, unlock (authstore_save_locked s))
        end
    end.

Definition authstore_del_vhost (vhost : bytes) (s : authstore) : option (Z * authstore) :=
  s ← wrlock s;
  match find_vhost s vhost with
  | None => Some (0, unlock s)
  | Some i =>
      let s := s <| s_vhosts ::= swap_remove i |> in
      Some (0, unlock (authstore_save_locked (drop_perms_matching None (Some vhost) s)))
  end.

Definition authstore_add_user (user pass_hash : bytes) (tags : Z) (s : authstore) : option (Z * authstore) :=
  if too_long user AUTHSTORE_NAME_MAX || too_long pass_hash AUTHSTORE_HASH_MAX then Some (-1, s)
  else
    s ← wrlock s;
    let u := UserT (snprintf_str AUTHSTORE_NAME_MAX user) (snprintf_str AUTHSTORE_HASH_MAX pass_hash) tags in
    let finish s := Some (0, unlock (authstore_save_locked (s <| s_bootstrap_completed := true |>))) in
    match find_user s user with
    | Some i => finish (s <| s_users ::= <[i := u]> |>)
    | None =>
        let '(cap, o) := GROW (length (s_users s)) (s_cu s) (s_oracle s) in
        let s := s <| s_oracle := o |> in
        match cap with
        | None => Some (-1, s)
        | Some cap => finish (s <| s_cu := cap |> <| s_users ::= fun l => l ++ [u] |>)
        end
    end.

Definition authstore_del_user (user : bytes) (s : authstore) : option (Z * authstore) :=
  s ← wrlock s;
  match find_user s user with
  | None => Some (0, unlock s)
  | Some i =>
      let s := s <| s_users ::= swap_remove i |> in
      Some (0, unlock (authstore_save_locked (drop_perms_matching (Some user) None s)))
  end.

Definition authstore_clear_perm (user vhost : bytes) (s : authstore) : option (Z * authstore) :=
  s ← wrlock s;
  match find_perm s user vhost with
  | None => Some (0, unlock s)
  | Some i =>
      let m := match s_perms s !! i with Some p => (perm_free_regex p).2 | None => 0%nat end in
      let s := s <| s_perms ::= swap_remove i |> <| s_misused ::= Nat.add m |> in
      Some (0, unlock (authstore_save_locked s))
  end.

Definition authstore_is_open (s : authstore) : option bool :=
  _ ← rdlock s; Some ((length (s_users s) =? 0)%nat && negb (s_bootstrap_completed s)).

Definition authstore_vhost_exists (s : authstore) (vhost : bytes) : option bool :=
  _ ← rdlock s; Some (bool_decide (is_Some (find_vhost s vhost))).

Definition authstore_can_access_vhost (s : authstore) (user vhost : bytes) : option bool :=
  _ ← rdlock s; Some (bool_decide (is_Some (find_perm s user vhost))).

Definition authstore_verify (o : oracle) (s : authstore) (user password : bytes) : option bool :=
  _ ← rdlock s;
  match find_user s user ≫= (fun i => s_users s !! i) with
  | Some u => hash_matches o (u_hash u) password
  | None => Some false
  end.

(** The string left in [out], when found; [cap] is not 0. *)
Definition authstore_lookup_hash (s : authstore) (user : bytes) (cap : nat) : option (option bytes) :=
  _ ← rdlock s;
  Some (match find_user s user ≫= (fun i => s_users s !! i) with
        | Some u => if (length (u_hash u) <? cap)%nat then Some (u_hash u) else None
        | None => None
        end).

Definition authstore_user_tags (s : authstore) (user : bytes) : option Z :=
  _ ← rdlock s;
  Some (match find_user s user ≫= (fun i => s_users s !! i) with Some u => u_tags u | None => 0 end).

(** The arguments of the callback, in the order of the calls. *)
Definition authstore_foreach_vhost (s : authstore) : option (list bytes) := _ ← rdlock s; Some (s_vhosts s).

Definition authstore_foreach_user (s : authstore) : option (list (bytes * Z)) :=
  _ ← rdlock s; Some ((fun u => (u_name u, u_tags u)) <$> s_users s).

Definition authstore_foreach_perm (s : authstore) : option (list (bytes * bytes * bytes * bytes * bytes)) :=
  _ ← rdlock s; Some ((fun p => (p_user p, p_vhost p, p_conf p, p_wr p, p_rd p)) <$> s_perms s).

Section Regex.
Context (regcomp : bytes -> bool) (regexec : bytes -> bytes -> bool).

(** One of the three compilations: whether all is well so far, the expression and
    whether it was compiled here. *)
Definition compile_pattern (ok : bool) (pattern : bytes) (r : regex_t) : bool * regex_t * bool :=
  if ok && negb (length pattern =? 0)%nat then
    if regcomp pattern then (true, rx_built pattern, true) else (false, rx_none, false)
  else (ok, r, false).

Definition free_if (b : bool) (r : regex_t) : regex_t := if b then (regfree r).1 else r.

(** The row from [perm_free_regex] on, and the misuses of [regfree]. *)
Definition set_row (user vhost configure write read : bytes) (p : perm_t) : perm_t * nat :=
  let '(p, m) := perm_free_regex p in
  let p := p <| p_user := snprintf_str AUTHSTORE_NAME_MAX user |>
             <| p_vhost := snprintf_str AUTHSTORE_NAME_MAX vhost |>
             <| p_conf := snprintf_str AUTHSTORE_REGEX_MAX configure |>
             <| p_wr := snprintf_str AUTHSTORE_REGEX_MAX write |>
             <| p_rd := snprintf_str AUTHSTORE_REGEX_MAX read |> in
  let '(ok, rc, rc_ok) := compile_pattern true (p_conf p) (p_rc p) in
  let '(ok, rw, rw_ok) := compile_pattern ok (p_wr p) (p_rw p) in
  let '(ok, rr, rr_ok) := compile_pattern ok (p_rd p) (p_rr p) in
  let p := if ok then p <| p_rc := rc |> <| p_rw := rw |> <| p_rr := rr |>
           else p <| p_rc := free_if rc_ok rc |> <| p_rw := free_if rw_ok rw |> <| p_rr := free_if rr_ok rr |> in
  (p <| p_compiled := ok |>, m).

Definition authstore_set_perm (user vhost configure write read : bytes) (s : authstore) : option (Z * authstore) :=
  if too_long user AUTHSTORE_NAME_MAX || too_long vhost AUTHSTORE_NAME_MAX || too_long configure AUTHSTORE_REGEX_MAX ||
     too_long write AUTHSTORE_REGEX_MAX || too_long read AUTHSTORE_REGEX_MAX then Some (-1, s)
  else
    s ← wrlock s;
    let finish i p s :=
      let '(p, m) := set_row user vhost configure write read p in
      let s := s <| s_perms ::= <[i := p]> |> <| s_misused ::= Nat.add m |> in
      Some (if p_compiled p then 0 else -1, unlock (authstore_save_locked s)) in
    match find_perm s user vhost with
    | Some i => finish i (default zero_perm (s_perms s !! i)) s
    | None =>
        let '(cap, o) := GROW (length (s_perms s)) (s_cp s) (s_oracle s) in
        let s := s <| s_oracle := o |> in
        match cap with
        | None => Some (-1, s)
        | Some cap =>
            let i := length (s_perms s) in
            finish i zero_perm (s <| s_cp := cap |> <| s_perms ::= fun l => l ++ [zero_perm] |>)
        end
    end.

Definition authstore_check (s : authstore) (user vhost : bytes) (kind : auth_perm_t) (object : bytes) : option bool :=
  _ ← rdlock s;
  Some (match find_perm s user vhost ≫= (fun i => s_perms s !! i) with
        | Some p =>
            if p_compiled p then
              let '(pat, re) := match kind with
                                | AUTH_CONFIGURE => (p_conf p, p_rc p)
                                | AUTH_WRITE => (p_wr p, p_rw p)
                                | AUTH_READ => (p_rd p, p_rr p)
                                end in
              if (length pat =? 0)%nat then false
              else match re with rx_built pattern => regexec pattern object | rx_none => false end
            else false
        | None => false
        end).

(** ** Loading *)

(** The loop of one section of the file: [n] rows, each read and added to the
    store.  The rest of the file is [None] once the file is found bad. *)
Fixpoint load_rows (row : authstore -> bytes -> option (authstore * option bytes)) (n : nat)
    (s : authstore) (f : bytes) : option (authstore * option bytes) :=
  match n with
  | O => Some (s, Some f)
  | S n =>
      '(s, f) ← row s f;
      match f with
      | None => Some (s, None)
      | Some f => load_rows row n s f
      end
  end.

Definition load_section (row : authstore -> bytes -> option (authstore * option bytes))
    (st : authstore * option bytes) : option (authstore * option bytes) :=
  match st with
  | (s, None) => Some (s, None)
  | (s, Some f) =>
      match get_u32 f with
      | None => Some (s, None)
      | Some (n, f) => load_rows row (Z.to_nat n) s f
      end
  end.

Definition load_vhost (s : authstore) (f : bytes) : option (authstore * option bytes) :=
  match get_str AUTHSTORE_NAME_MAX f with
  | None => Some (s, None)
  | Some (name, f) => '(_, s) ← authstore_add_vhost name s; Some (s, Some f)
  end.

Definition load_user (s : authstore) (f : bytes) : option (authstore * option bytes) :=
  match ('(name, f) ← get_str AUTHSTORE_NAME_MAX f; '(hash, f) ← get_str AUTHSTORE_HASH_MAX f;
         '(tags, f) ← get_u32 f; Some (name, hash, tags, f)) with
  | None => Some (s, None)
  | Some (name, hash, tags, f) => '(_, s) ← authstore_add_user name hash tags s; Some (s, Some f)
  end.

Definition load_perm (s : authstore) (f : bytes) : option (authstore * option bytes) :=
  match ('(name, f) ← get_str AUTHSTORE_NAME_MAX f; '(vh, f) ← get_str AUTHSTORE_NAME_MAX f;
         '(cf, f) ← get_str AUTHSTORE_REGEX_MAX f; '(wr, f) ← get_str AUTHSTORE_REGEX_MAX f;
         '(rd, f) ← get_str AUTHSTORE_REGEX_MAX f; Some (name, vh, cf, wr, rd, f)) with
  | None => Some (s, None)
  | Some (name, vh, cf, wr, rd, f) => '(_, s) ← authstore_set_perm name vh cf wr rd s; Some (s, Some f)
  end.

(** The bootstrap flag of a file with a good header. *)
Definition load_header (f : bytes) : option (Z * bytes) :=
  '(magic, f) ← get_u32 f;
  if negb (magic =? AUTHSTORE_DB_MAGIC) then None
  else
    '(version, f) ← get_u32 f;
    if negb (version =? AUTHSTORE_DB_VERSION) then None else get_u32 f.

(** The three sections. *)
Definition load_body (s : authstore) (f : bytes) : option (authstore * option bytes) :=
  st ← load_section load_vhost (s, Some f);
  st ← load_section load_user st;
  load_section load_perm st.

(** [opens] is whether [fopen] gets at the file when there is one; a file that cannot be
    opened counts as no file. *)
Definition authstore_load (opens : bool) (path : bytes) (s : authstore) : option (Z * authstore) :=
  let remember s := s <| s_persist_path := snprintf_str 512 path |> in
  match (if opens then s_disk s !! path else None) with
  | None => s ← wrlock s; Some (0, unlock (remember s))
  | Some file =>
      match load_header file with
      | None => Some (-1, s)
      | Some (boot, f) =>
          '(s, rest) ← load_body s f;
          match rest with
          | None => Some (-1, s)
          | Some _ =>
              s ← wrlock s;
              let s := if boot =? 0 then s else s <| s_bootstrap_completed := true |> in
              Some (0, unlock (remember s))
          end
      end
  end.
End Regex.
