(* ===== verification/AuthSpec.v ===== *)
(** The access-control store against its abstract contract: sets and maps instead
    of arrays, with what each operation does to them. *)

From S2P Require Import Prelude Tables CLib Crypto Password AuthStore.

#[local] Arguments authstore_save_locked : simpl never.

Section Regex.
Context (regcomp : bytes -> bool).

(** * The contract *)

Record acl := Acl {
  a_vhosts : gset bytes;
  a_users : gmap bytes (bytes * Z);
  a_perms : gmap (bytes * bytes) (bytes * bytes * bytes);
  a_started : bool;   (* a user has existed *)
}.

Inductive auth_op :=
  | op_add_vhost (v : bytes)
  | op_del_vhost (v : bytes)
  | op_add_user (u h : bytes) (tags : Z)
  | op_del_user (u : bytes)
  | op_set_perm (u v c w r : bytes)
  | op_clear_perm (u v : bytes).

Definition fits (n : nat) (s : bytes) : bool := (length s <? n)%nat.

(** An empty pattern needs no compilation. *)
Definition compiles (pattern : bytes) : bool := (length pattern =? 0)%nat || regcomp pattern.

Definition row_compiles (c w r : bytes) : bool := compiles c && compiles w && compiles r.

Definition acl_step (op : auth_op) (a : acl) : Z * acl :=
  let '(Acl V U P b) := a in
  match op with
  | op_add_vhost v => if fits AUTHSTORE_NAME_MAX v then (0, Acl (V ∪ {[v]}) U P b) else (-1, a)
  | op_del_vhost v =>
      if decide (v ∈ V) then (0, Acl (V ∖ {[v]}) U (filter (fun kp => kp.1.2 <> v) P) b) else (0, a)
  | op_add_user u h tags => if fits AUTHSTORE_NAME_MAX u && fits AUTHSTORE_HASH_MAX h then (0, Acl V (<[u := (h, tags)]> U) P true) else (-1, a)
  | op_del_user u =>
      match U !! u with
      | Some _ => (0, Acl V (delete u U) (filter (fun kp => kp.1.1 <> u) P) b)
      | None => (0, a)
      end
  | op_set_perm u v c w r =>
      if fits AUTHSTORE_NAME_MAX u && fits AUTHSTORE_NAME_MAX v && fits AUTHSTORE_REGEX_MAX c && fits AUTHSTORE_REGEX_MAX w && fits AUTHSTORE_REGEX_MAX r then
        (if row_compiles c w r then 0 else -1, Acl V U (<[(u, v) := (c, w, r)]> P) b)
      else (-1, a)
  | op_clear_perm u v => (0, Acl V U (delete (u, v) P) b)
  end.

Fixpoint acl_steps (ops : list auth_op) (a : acl) : list Z * acl :=
  match ops with
  | [] => ([], a)
  | op :: ops => let '(r, a) := acl_step op a in let '(rs, a) := acl_steps ops a in (r :: rs, a)
  end.

(** * The store *)

Definition auth_step (op : auth_op) (s : authstore) : option (Z * authstore) :=
  match op with
  | op_add_vhost v => authstore_add_vhost v s
  | op_del_vhost v => authstore_del_vhost v s
  | op_add_user u h tags => authstore_add_user u h tags s
  | op_del_user u => authstore_del_user u s
  | op_set_perm u v c w r => authstore_set_perm regcomp u v c w r s
  | op_clear_perm u v => authstore_clear_perm u v s
  end.

Fixpoint auth_steps (ops : list auth_op) (s : authstore) : option (list Z * authstore) :=
  match ops with
  | [] => Some ([], s)
  | op :: ops => '(r, s) ← auth_step op s; '(rs, s) ← auth_steps ops s; Some (r :: rs, s)
  end.

Definition user_row (u : user_t) : bytes * Z := (u_hash u, u_tags u).
Definition perm_row (p : perm_t) : bytes * bytes * bytes := (p_conf p, p_wr p, p_rd p).

Definition abs (s : authstore) : acl :=
  Acl (list_to_set (s_vhosts s)) (user_row <$> kmap u_name (s_users s)) (perm_row <$> kmap perm_key (s_perms s))
      (s_bootstrap_completed s).

(** ** The invariant *)

(** A C string that fits a field of [n] characters. *)
Definition str_ok (n : nat) (s : bytes) : Prop := Forall (fun b => 0 < b < 256) s /\ (length s < n)%nat.

Definition user_ok (u : user_t) : Prop := str_ok AUTHSTORE_NAME_MAX (u_name u) /\ str_ok AUTHSTORE_HASH_MAX (u_hash u) /\ 0 <= u_tags u < 2 ^ 32.

(** The expression that belongs to a pattern of a compiled row. *)
Definition built (pattern : bytes) (r : regex_t) : Prop := pattern <> [] -> r = rx_built pattern.

Definition perm_ok (p : perm_t) : Prop :=
  str_ok AUTHSTORE_NAME_MAX (p_user p) /\ str_ok AUTHSTORE_NAME_MAX (p_vhost p) /\
  str_ok AUTHSTORE_REGEX_MAX (p_conf p) /\ str_ok AUTHSTORE_REGEX_MAX (p_wr p) /\ str_ok AUTHSTORE_REGEX_MAX (p_rd p) /\
  p_compiled p = row_compiles (p_conf p) (p_wr p) (p_rd p) /\
  (p_compiled p = true -> built (p_conf p) (p_rc p) /\ built (p_wr p) (p_rw p) /\ built (p_rd p) (p_rr p)).

Record auth_ok (s : authstore) : Prop := {
  ok_vhosts : NoDup (s_vhosts s);
  ok_vhost : Forall (str_ok AUTHSTORE_NAME_MAX) (s_vhosts s);
  ok_users : keys_ok u_name (s_users s);
  ok_user : Forall user_ok (s_users s);
  ok_perms : keys_ok perm_key (s_perms s);
  ok_perm : Forall perm_ok (s_perms s);
  ok_started : s_users s <> [] -> s_bootstrap_completed s = true;
  ok_unlocked : s_locked s = false;
  ok_memory : s_oracle s = [];
}.

(** The arguments of an operation are C strings. *)
Definition c_str (s : bytes) : Prop := Forall (fun b => 0 < b < 256) s.

Definition op_ok (op : auth_op) : Prop :=
  match op with
  | op_add_vhost v | op_del_vhost v => c_str v
  | op_add_user u h tags => c_str u /\ c_str h /\ 0 <= tags < 2 ^ 32
  | op_del_user u => c_str u
  | op_set_perm u v c w r => c_str u /\ c_str v /\ c_str c /\ c_str w /\ c_str r
  | op_clear_perm u v => c_str u /\ c_str v
  end.

(** What a save leaves alone. *)
Definition tables (s : authstore) :=
  (s_vhosts s, s_users s, s_perms s, s_bootstrap_completed s, s_locked s, s_oracle s, s_persist_path s).

Lemma tables_save s : tables (authstore_save_locked s) = tables s.
Proof.
  unfold authstore_save_locked. destruct (save_paths s) as [path tmp].
  destruct (length path =? 0)%nat; [done|]. destruct (600 <=? length tmp)%nat; [done|].
  destruct (match s_io s with [] => (save_done, []) | x :: io => (x, io) end) as [out io].
  cbv zeta. repeat case_match; done.
Qed.

(** The end of every writing operation. *)
Lemma finish_step (r : Z) s a :
  auth_ok (unlock s) -> abs s = a ->
  exists s', Some (r, unlock (authstore_save_locked s)) = Some (r, s') /\ auth_ok s' /\ abs s' = a.
Proof.
  intros Hok <-. eexists. split; [done|]. pose proof (tables_save s) as H. unfold tables in H.
  injection H as E1 E2 E3 E4 E5 E6 E7. unfold abs, unlock. cbn. rewrite E1, E2, E3, E4. split; [|done].
  destruct Hok as [H1 H2 H3 H4 H5 H6 H7 H8 H9]. cbn in *. split; cbn; rewrite ?E1, ?E2, ?E3, ?E4, ?E6; done.
Qed.

Lemma wrlock_ok s : s_locked s = false -> wrlock s = Some (s <| s_locked := true |>).
Proof. unfold wrlock. by intros ->. Qed.

Lemma grow_ok n cap : exists cap', GROW n cap [] = (Some cap', []).
Proof. unfold GROW. destruct (n =? cap)%nat; cbn; eauto. Qed.

Lemma fits_too_long n s : too_long s n = negb (fits n s).
Proof. unfold too_long, fits. destruct (Nat.leb_spec n (length s)), (Nat.ltb_spec (length s) n); done || lia. Qed.

Lemma fits_str n s : c_str s -> fits n s = true -> str_ok n s /\ snprintf_str n s = s.
Proof.
  unfold fits. intros Hs Hl%Nat.ltb_lt. split; [done|]. unfold snprintf_str. apply take_ge. lia.
Qed.

(** ** Virtual hosts *)

Lemma find_vhost_spec s v : find_vhost s v = None <-> v ∉ s_vhosts s.
Proof. unfold find_vhost. rewrite find_key_None, list_fmap_id. done. Qed.

Lemma list_to_set_swap_remove (l : list bytes) i x :
  NoDup l -> l !! i = Some x ->
  list_to_set (swap_remove i l) = (list_to_set l : gset bytes) ∖ {[x]} /\ NoDup (swap_remove i l).
Proof.
  intros Hl Hi. pose proof (swap_remove_perm l i x Hi) as Hp. remember (swap_remove i l) as l' eqn:E. clear E.
  rewrite <- Hp in Hl. apply NoDup_cons in Hl as [Hx Hl].
  split; [|done]. apply set_eq. intros y. rewrite elem_of_difference, !elem_of_list_to_set, elem_of_singleton, <- Hp. set_solver.
Qed.

Lemma add_vhost_spec v s :
  auth_ok s -> c_str v ->
  exists s', authstore_add_vhost v s = Some ((acl_step (op_add_vhost v) (abs s)).1, s') /\ auth_ok s' /\
             abs s' = (acl_step (op_add_vhost v) (abs s)).2.
Proof.
  intros Hok Hv. unfold authstore_add_vhost. rewrite fits_too_long. cbn [acl_step abs].
  destruct (fits AUTHSTORE_NAME_MAX v) eqn:Ef; cbn [negb]; [|by exists s].
  destruct (fits_str AUTHSTORE_NAME_MAX v Hv Ef) as [Hs Hsn]. rewrite wrlock_ok by apply Hok. csimpl.
  set (s1 := s <| s_locked := true |>). destruct (find_vhost s1 v) as [i|] eqn:Ei.
  - exists (unlock s1). assert (Heq : unlock s1 = s) by (destruct Hok as [_ _ _ _ _ _ _ Hl _], s; cbn in *; by subst).
    rewrite Heq. split; [done|]. split; [done|]. unfold abs. f_equal.
    apply find_key_Some in Ei as (x & Hx%list_elem_of_lookup_2 & <-). unfold s1 in Hx. cbn in *. set_solver.
  - rewrite find_vhost_spec in Ei. unfold s1 in *. cbn [s_oracle s_vhosts s_cv] in *. rewrite (ok_memory _ Hok).
    destruct (grow_ok (length (s_vhosts s)) (s_cv s)) as [cap ->]. csimpl. rewrite Hsn.
    destruct Hok. apply finish_step.
    + split; cbn; try done.
      * apply NoDup_app. split; [done|]. split; [set_solver|]. apply NoDup_singleton.
      * apply Forall_app. split; [done|]. by apply Forall_singleton.
    + unfold abs. cbn. f_equal. rewrite list_to_set_app_L. set_solver.
Qed.

(** A state with the lock taken and released. *)
Lemma unlock_wrlock s : s_locked s = false -> unlock (s <| s_locked := true |>) = s.
Proof. intros Hl. destruct s. cbn in *. by subst. Qed.

(** ** Dropping permissions *)

Lemma drop_perms_list u v fuel : forall i perms m,
  (drop_perms_loop u v fuel i perms m).1 = drop_loop (perm_matches u v) fuel i perms.
Proof. induction fuel as [|fuel IH]; intros i perms m; cbn; [done|]. repeat case_match; done || apply IH. Qed.

Lemma drop_perms_spec u v s :
  exists m, drop_perms_matching u v s = s <| s_perms := drop_matching (perm_matches u v) (s_perms s) |> <| s_misused := m |>.
Proof.
  unfold drop_perms_matching. pose proof (drop_perms_list u v (length (s_perms s)) 0 (s_perms s) (s_misused s)) as H.
  destruct (drop_perms_loop _ _ _ _ _ _) as [perms m]. cbn in H. exists m. by rewrite H.
Qed.

Lemma drop_perms_abs u v (l : list perm_t) (P : (bytes * bytes) * (bytes * bytes * bytes) -> Prop) `{!forall x, Decision (P x)} :
  keys_ok perm_key l ->
  (forall p row, perm_matches u v p = false <-> P (perm_key p, row)) ->
  perm_row <$> kmap perm_key (drop_matching (perm_matches u v) l) = filter P (perm_row <$> kmap perm_key l) /\
  keys_ok perm_key (drop_matching (perm_matches u v) l).
Proof.
  intros Hl HP. destruct (kmap_drop perm_key (perm_matches u v) l Hl) as [-> Hok]. split; [|done].
  rewrite map_filter_fmap. f_equal. apply map_filter_ext. intros k p Hk. cbn.
  apply kmap_key in Hk as [<- _]; [|done]. apply HP.
Qed.

Lemma drop_Forall {A} (Q : A -> Prop) p (l : list A) : Forall Q l -> Forall Q (drop_matching p l).
Proof. rewrite drop_matching_perm, !Forall_forall. intros H x [_ Hx]%list_elem_of_filter. by apply H. Qed.

Lemma remove_Forall {A} (Q : A -> Prop) i x (l : list A) : l !! i = Some x -> Forall Q l -> Forall Q (swap_remove i l).
Proof.
  intros Hi H. pose proof (swap_remove_perm l i x Hi) as Hp. remember (swap_remove i l) as l' eqn:E. clear E.
  rewrite <- Hp in H. by apply Forall_cons in H as [_ H].
Qed.

Lemma del_vhost_spec v s :
  auth_ok s ->
  exists s', authstore_del_vhost v s = Some ((acl_step (op_del_vhost v) (abs s)).1, s') /\ auth_ok s' /\
             abs s' = (acl_step (op_del_vhost v) (abs s)).2.
Proof.
  intros Hok. unfold authstore_del_vhost. rewrite wrlock_ok by apply Hok. csimpl. cbn [acl_step abs].
  destruct (find_vhost _ v) as [i|] eqn:Ei.
  - apply find_key_Some in Ei as (x & Hx & <-). cbn in Hx. unfold id.
    rewrite decide_True by (apply elem_of_list_to_set; by eapply list_elem_of_lookup_2).
    match goal with |- context [drop_perms_matching ?a ?b ?s] => destruct (drop_perms_spec a b s) as [m ->] end.
    destruct Hok. destruct (list_to_set_swap_remove _ _ _ ok_vhosts0 Hx) as [Hset Hnd].
    destruct (drop_perms_abs None (Some x) (s_perms s) (fun kp => kp.1.2 <> x) ok_perms0) as [Hdrop Hkeys].
    { intros p row. unfold perm_matches. cbn. rewrite orb_false_iff, !bool_decide_eq_false. naive_solver. }
    apply finish_step.
    + split; cbn; try done; [by eapply remove_Forall | by apply drop_Forall].
    + apply (f_equal4 Acl); done.
  - rewrite find_vhost_spec in Ei. rewrite decide_False by (rewrite elem_of_list_to_set; done).
    exists s. by rewrite unlock_wrlock by apply Hok.
Qed.

(** ** Users *)

Lemma find_user_abs s u : auth_ok s -> a_users (abs s) !! u = user_row <$> (find_user s u ≫= (fun i => s_users s !! i)).
Proof. intros Hok. cbn. rewrite lookup_fmap, kmap_find by apply Hok. done. Qed.

Lemma add_user_spec u h tags s :
  auth_ok s -> op_ok (op_add_user u h tags) ->
  exists s', authstore_add_user u h tags s = Some ((acl_step (op_add_user u h tags) (abs s)).1, s') /\ auth_ok s' /\
             abs s' = (acl_step (op_add_user u h tags) (abs s)).2.
Proof.
  intros Hok (Hu & Hh & Ht). unfold authstore_add_user. rewrite !fits_too_long, <- negb_andb. cbn [acl_step abs].
  destruct (fits AUTHSTORE_NAME_MAX u && fits AUTHSTORE_HASH_MAX h) eqn:Ef; cbn [negb]; [|by exists s].
  apply andb_true_iff in Ef as [Ef1 Ef2]. destruct (fits_str _ u Hu Ef1) as [Hsu ->]. destruct (fits_str _ h Hh Ef2) as [Hsh ->].
  rewrite wrlock_ok by apply Hok. csimpl. set (row := UserT u h tags). assert (Hrow : user_ok row) by done.
  assert (Hins : forall l', kmap u_name l' = <[u := row]> (kmap u_name (s_users s)) ->
    user_row <$> kmap u_name l' = <[u := (h, tags)]> (user_row <$> kmap u_name (s_users s))).
  { intros l' ->. by rewrite fmap_insert. }
  destruct (find_user _ u) as [i|] eqn:Ei.
  - apply find_key_Some in Ei as (x & Hx & Hk). cbn in Hx. destruct Hok.
    destruct (kmap_update u_name _ i x row ok_users0 Hx ltac:(by rewrite Hk)) as [Hm Hkeys]. apply finish_step.
    + split; cbn; try done. by apply Forall_insert.
    + apply (f_equal4 Acl); done || by apply Hins.
  - apply find_key_None in Ei. cbn in Ei. cbn [s_oracle s_users s_cu]. rewrite (ok_memory _ Hok).
    destruct (grow_ok (length (s_users s)) (s_cu s)) as [cap ->]. csimpl. destruct Hok.
    destruct (kmap_append u_name _ row ok_users0 Ei) as [Hm Hkeys]. apply finish_step.
    + split; cbn; try done. apply Forall_app. split; [done | by apply Forall_singleton].
    + apply (f_equal4 Acl); done || by apply Hins.
Qed.

Lemma del_user_spec u s :
  auth_ok s ->
  exists s', authstore_del_user u s = Some ((acl_step (op_del_user u) (abs s)).1, s') /\ auth_ok s' /\
             abs s' = (acl_step (op_del_user u) (abs s)).2.
Proof.
  intros Hok. unfold authstore_del_user. rewrite wrlock_ok by apply Hok. csimpl. pose proof (find_user_abs s u Hok) as Habs.
  change (find_user _ u) with (find_user s u). cbn [acl_step abs a_users] in *. rewrite Habs.
  destruct (find_user s u) as [i|] eqn:Ei; [|exists s; by rewrite unlock_wrlock by apply Hok].
  apply find_key_Some in Ei as (x & Hx & <-). csimpl. rewrite Hx. csimpl.
  match goal with |- context [drop_perms_matching ?a ?b ?s] => destruct (drop_perms_spec a b s) as [m ->] end.
  destruct Hok. destruct (kmap_remove u_name _ i x ok_users0 Hx) as [Hm Hkeys].
  destruct (drop_perms_abs (Some (u_name x)) None (s_perms s) (fun kp => kp.1.1 <> u_name x) ok_perms0) as [Hdrop Hdkeys].
  { intros p row. unfold perm_matches. cbn. rewrite orb_false_iff, !bool_decide_eq_false.
    split; [intros [H _] E; apply H; by rewrite E | intros H; split; [congruence | done]]. }
  apply finish_step.
  - split; cbn; try done; [by eapply remove_Forall | by apply drop_Forall |].
    intros _. apply ok_started0. by destruct (s_users s).
  - apply (f_equal4 Acl); try done. cbn. by rewrite Hm, fmap_delete.
Qed.

(** ** Permissions *)

Lemma find_perm_abs s u v :
  auth_ok s -> a_perms (abs s) !! (u, v) = perm_row <$> (find_perm s u v ≫= (fun i => s_perms s !! i)).
Proof. intros Hok. cbn. rewrite lookup_fmap, kmap_find by apply Hok. done. Qed.

Lemma clear_perm_spec u v s :
  auth_ok s ->
  exists s', authstore_clear_perm u v s = Some ((acl_step (op_clear_perm u v) (abs s)).1, s') /\ auth_ok s' /\
             abs s' = (acl_step (op_clear_perm u v) (abs s)).2.
Proof.
  intros Hok. unfold authstore_clear_perm. rewrite wrlock_ok by apply Hok. csimpl. pose proof (find_perm_abs s u v Hok) as Habs.
  change (find_perm _ u v) with (find_perm s u v). cbn [acl_step abs a_perms] in *.
  destruct (find_perm s u v) as [i|] eqn:Ei.
  - apply find_key_Some in Ei as (x & Hx & Hk). destruct Hok.
    destruct (kmap_remove perm_key _ i x ok_perms0 Hx) as [Hm Hkeys]. apply finish_step.
    + split; cbn; try done. by eapply remove_Forall.
    + apply (f_equal4 Acl); try done. cbn. by rewrite Hm, fmap_delete, Hk.
  - exists s. rewrite unlock_wrlock by apply Hok. split; [done|]. split; [done|]. cbn. unfold abs. f_equal.
    by rewrite delete_id.
Qed.

(** One compilation, from a slot without expression or with any content. *)
Lemma compile_spec ok pat r :
  exists r' b, compile_pattern regcomp ok pat r = (ok && compiles pat, r', b) /\
               (ok && compiles pat = true -> built pat r').
Proof.
  unfold compile_pattern, compiles, built. destruct ok; [|by exists r, false].
  destruct pat as [|c pat]; [by exists r, false|]. cbn. destruct (regcomp (c :: pat)); by eexists _, _.
Qed.

Lemma set_row_spec u v c w r p :
  str_ok AUTHSTORE_NAME_MAX u -> str_ok AUTHSTORE_NAME_MAX v ->
  str_ok AUTHSTORE_REGEX_MAX c -> str_ok AUTHSTORE_REGEX_MAX w -> str_ok AUTHSTORE_REGEX_MAX r ->
  exists p' m, set_row regcomp u v c w r p = (p', m) /\ perm_ok p' /\ perm_key p' = (u, v) /\
               perm_row p' = (c, w, r) /\ p_compiled p' = row_compiles c w r.
Proof.
  intros Hu Hv Hc Hw Hr. unfold set_row. destruct (perm_free_regex p) as [p1 m].
  assert (Hcut : forall n s, str_ok n s -> snprintf_str n s = s) by (intros n s [_ Hs]; apply take_ge; lia).
  rewrite !Hcut by done. cbn.
  destruct (compile_spec true c (p_rc p1)) as (rc & b1 & -> & Hrc). cbn.
  destruct (compile_spec (compiles c) w (p_rw p1)) as (rw & b2 & -> & Hrw). cbn.
  destruct (compile_spec (compiles c && compiles w) r (p_rr p1)) as (rr & b3 & -> & Hrr). cbn.
  eexists _, m. split; [done|]. unfold perm_ok, perm_key, perm_row, row_compiles.
  destruct (compiles c) eqn:Ec, (compiles w) eqn:Ew, (compiles r) eqn:Er; cbn in *; rewrite ?Ec, ?Ew, ?Er;
    (split; [do 5 (split; [done|]); split; [done|]; intros Hok; first [discriminate Hok | auto] | done]).
Qed.

Lemma set_perm_spec u v c w r s :
  auth_ok s -> op_ok (op_set_perm u v c w r) ->
  exists s', authstore_set_perm regcomp u v c w r s = Some ((acl_step (op_set_perm u v c w r) (abs s)).1, s') /\ auth_ok s' /\
             abs s' = (acl_step (op_set_perm u v c w r) (abs s)).2.
Proof.
  intros Hok (Hu & Hv & Hc & Hw & Hr). unfold authstore_set_perm. rewrite !fits_too_long, <- !negb_andb. cbn [acl_step abs].
  destruct (fits AUTHSTORE_NAME_MAX u && _ && _ && _ && _) eqn:Ef; cbn [negb]; [|by exists s].
  rewrite !andb_true_iff in Ef. destruct Ef as [[[[E1 E2] E3] E4] E5].
  pose proof (proj1 (fits_str _ _ Hu E1)) as Ku. pose proof (proj1 (fits_str _ _ Hv E2)) as Kv.
  pose proof (proj1 (fits_str _ _ Hc E3)) as Kc. pose proof (proj1 (fits_str _ _ Hw E4)) as Kw.
  pose proof (proj1 (fits_str _ _ Hr E5)) as Kr. rewrite wrlock_ok by apply Hok. csimpl.
  change (find_perm _ u v) with (find_perm s u v). destruct (find_perm s u v) as [i|] eqn:Ei.
  - apply find_key_Some in Ei as (x & Hx & Hk). rewrite Hx. change (default zero_perm (Some x)) with x.
    destruct (set_row_spec u v c w r x Ku Kv Kc Kw Kr) as (p & m & -> & Hp & Hkey & Hrow & ->). cbn [fst snd].
    destruct Hok. destruct (kmap_update perm_key _ i x p ok_perms0 Hx ltac:(congruence)) as [Hm Hkeys]. apply finish_step.
    + split; cbn; try done. by apply Forall_insert.
    + apply (f_equal4 Acl); try done. cbn. by rewrite Hm, fmap_insert, Hkey, Hrow.
  - apply find_key_None in Ei. cbn [s_oracle s_perms s_cp]. rewrite (ok_memory _ Hok).
    destruct (grow_ok (length (s_perms s)) (s_cp s)) as [cap ->]. csimpl.
    destruct (set_row_spec u v c w r zero_perm Ku Kv Kc Kw Kr) as (p & m & -> & Hp & Hkey & Hrow & ->). cbn [fst snd].
    assert (Hins : <[length (s_perms s) := p]> (s_perms s ++ [zero_perm]) = s_perms s ++ [p]).
    { rewrite insert_app_r_alt by lia. by rewrite Nat.sub_diag. }
    destruct Hok. destruct (kmap_append perm_key _ p ok_perms0) as [Hm Hkeys]; [by rewrite Hkey|]. apply finish_step.
    + split; cbn; rewrite ?Hins; try done. apply Forall_app. split; [done | by apply Forall_singleton].
    + apply (f_equal4 Acl); try done. cbn. by rewrite Hins, Hm, fmap_insert, Hkey, Hrow.
Qed.

(** ** Any sequence *)

Lemma step_spec op s :
  auth_ok s -> op_ok op ->
  exists s', auth_step op s = Some ((acl_step op (abs s)).1, s') /\ auth_ok s' /\ abs s' = (acl_step op (abs s)).2.
Proof.
  destruct op; cbn [op_ok auth_step]; intros Hok Hop.
  - by apply add_vhost_spec.
  - by apply del_vhost_spec.
  - by apply add_user_spec.
  - by apply del_user_spec.
  - by apply set_perm_spec.
  - by apply clear_perm_spec.
Qed.

Lemma steps_spec ops : forall s,
  auth_ok s -> Forall op_ok ops ->
  exists s', auth_steps ops s = Some ((acl_steps ops (abs s)).1, s') /\ auth_ok s' /\ abs s' = (acl_steps ops (abs s)).2.
Proof.
  induction ops as [|op ops IH]; intros s Hok Hops; [by exists s|]. apply Forall_cons in Hops as [Hop Hops].
  cbn [auth_steps acl_steps].
  destruct (step_spec op s Hok Hop) as (s1 & -> & Hok1 & Habs1). cbn [mbind option_bind].
  destruct (IH s1 Hok1 Hops) as (s2 & -> & Hok2 & Habs2). cbn [mbind option_bind]. rewrite Habs1 in *.
  destruct (acl_step op (abs s)) as [r a]. cbn [fst snd] in *. destruct (acl_steps ops a) as [rs a']. by exists s2.
Qed.

Lemma new_ok disk io : auth_ok (authstore_new [] disk io).
Proof. split; cbn; try done; constructor. Qed.

(** ** Short memory *)

Lemma save_memory x y o : y = x <| s_oracle := o |> -> unlock (authstore_save_locked y) = (unlock (authstore_save_locked x)) <| s_oracle := o |>.
Proof.
  intros ->. unfold authstore_save_locked, save_paths. cbn [s_persist_path s_io].
  change (s_persist_path (x <| s_oracle := o |>)) with (s_persist_path x). change (s_io (x <| s_oracle := o |>)) with (s_io x).
  destruct (length (s_persist_path x) =? 0)%nat; [done|]. destruct (600 <=? _)%nat; [done|].
  destruct (match s_io x with [] => _ | _ => _ end) as [out io].
  change (serialize (x <| s_oracle := o |> <| s_io := io |>)) with (serialize (x <| s_io := io |>)).
  by destruct out, (serialize (x <| s_io := io |>)).
Qed.

Lemma drop_perms_memory a b s o : drop_perms_matching a b (s <| s_oracle := o |>) = (drop_perms_matching a b s) <| s_oracle := o |>.
Proof. unfold drop_perms_matching. cbn. by destruct (drop_perms_loop _ _ _ _ _ _). Qed.

Lemma grow_memory n cap o c o' : GROW n cap o = (c, o') ->
  match c with Some c => GROW n cap [] = (Some c, []) /\ (o = [] -> o' = []) | None => o <> [] end.
Proof. unfold GROW. destruct (n =? cap)%nat; [|by intros [= <- <-]]. destruct o as [|[] o]; cbn; by intros [= <- <-]. Qed.

(** The result [y] with the outcomes [o] of the allocations, and [x] when none fails: they
    agree, or the growth of a table failed, and the operation returned -1 with the lock
    held and nothing changed. *)
Definition as_with_memory (o : oracle) (s : authstore) (x y : option (Z * authstore)) : Prop :=
  (exists r s' o', x = Some (r, s') /\ y = Some (r, s' <| s_oracle := o' |>) /\ (o = [] -> o' = [])) \/
  (exists s', y = Some (-1, s') /\ s_locked s' = true /\ abs s' = abs s /\ o <> []).

Lemma same_with_memory o s r x y : x = s -> y = s <| s_oracle := o |> -> as_with_memory o s (Some (r, x)) (Some (r, y)).
Proof. intros -> ->. left. by exists r, s, o. Qed.

Lemma saved_with_memory o s r x y o' :
  y = x <| s_oracle := o' |> -> (o = [] -> o' = []) -> as_with_memory o s (Some (r, unlock (authstore_save_locked x))) (Some (r, unlock (authstore_save_locked y))).
Proof. intros Hy Ho. left. eexists r, _, o'. split; [done|]. split; [|done]. do 2 f_equal. by apply save_memory. Qed.

Lemma step_memory o op s : s_locked s = false -> s_oracle s = [] -> as_with_memory o s (auth_step op s) (auth_step op (s <| s_oracle := o |>)).
Proof.
  intros Hl Ho. assert (Hw : wrlock s = Some (s <| s_locked := true |>)) by by apply wrlock_ok.
  assert (Hw' : wrlock (s <| s_oracle := o |>) = Some (s <| s_oracle := o |> <| s_locked := true |>)) by by apply wrlock_ok.
  assert (Hu : unlock (s <| s_locked := true |>) = s) by (destruct s; cbn in *; by subst).
  assert (Hu' : unlock (s <| s_oracle := o |> <| s_locked := true |>) = s <| s_oracle := o |>) by (destruct s; cbn in *; by subst).
  set (t := s <| s_locked := true |>) in *. set (t' := s <| s_oracle := o |> <| s_locked := true |>) in *.
  destruct op as [v|v|u h tags|u|u v c w r|u v]; cbn [auth_step].
  - unfold authstore_add_vhost. destruct (too_long _ _); [by apply same_with_memory|]. rewrite Hw, Hw'. cbn [mbind option_bind].
    change (find_vhost t' v) with (find_vhost t v). destruct (find_vhost t v); [by apply same_with_memory|].
    change (s_oracle t) with (s_oracle s). rewrite Ho. change (GROW (length (s_vhosts t')) (s_cv t') (s_oracle t')) with (GROW (length (s_vhosts t)) (s_cv t) o).
    destruct (GROW _ _ o) as [[cap|] o'] eqn:E; apply grow_memory in E; [destruct E as [-> Hoo]; by apply (saved_with_memory _ _ _ _ _ o')|].
    right. eexists. by split_and!.
  - unfold authstore_del_vhost. rewrite Hw, Hw'. cbn [mbind option_bind]. change (find_vhost t' v) with (find_vhost t v).
    destruct (find_vhost t v) as [i|]; [|by apply same_with_memory]. apply (saved_with_memory _ _ _ _ _ o); [|done].
    exact (drop_perms_memory None (Some v) (t <| s_vhosts ::= swap_remove i |>) o).
  - unfold authstore_add_user. destruct (_ || _); [by apply same_with_memory|]. rewrite Hw, Hw'. cbn [mbind option_bind].
    change (find_user t' u) with (find_user t u). destruct (find_user t u); [by apply (saved_with_memory _ _ _ _ _ o)|].
    change (s_oracle t) with (s_oracle s). rewrite Ho. change (GROW (length (s_users t')) (s_cu t') (s_oracle t')) with (GROW (length (s_users t)) (s_cu t) o).
    destruct (GROW _ _ o) as [[cap|] o'] eqn:E; apply grow_memory in E; [destruct E as [-> Hoo]; by apply (saved_with_memory _ _ _ _ _ o')|].
    right. eexists. by split_and!.
  - unfold authstore_del_user. rewrite Hw, Hw'. cbn [mbind option_bind]. change (find_user t' u) with (find_user t u).
    destruct (find_user t u) as [i|]; [|by apply same_with_memory]. apply (saved_with_memory _ _ _ _ _ o); [|done].
    exact (drop_perms_memory (Some u) None (t <| s_users ::= swap_remove i |>) o).
  - unfold authstore_set_perm. destruct (_ || _); [by apply same_with_memory|]. rewrite Hw, Hw'. cbn [mbind option_bind].
    change (find_perm t' u v) with (find_perm t u v). change (s_perms t') with (s_perms t). destruct (find_perm t u v) as [i|].
    { destruct (set_row _ _ _ _ _ _ _) as [p m]. by apply (saved_with_memory _ _ _ _ _ o). }
    change (s_oracle t) with (s_oracle s). rewrite Ho. change (GROW (length (s_perms t)) (s_cp t') (s_oracle t')) with (GROW (length (s_perms t)) (s_cp t) o).
    destruct (GROW _ _ o) as [[cap|] o'] eqn:E; apply grow_memory in E; [|right; eexists; by split_and!].
    destruct E as [-> Hoo]. destruct (set_row _ _ _ _ _ _ _) as [p m]. by apply (saved_with_memory _ _ _ _ _ o').
  - unfold authstore_clear_perm. rewrite Hw, Hw'. cbn [mbind option_bind]. change (find_perm t' u v) with (find_perm t u v).
    destruct (find_perm t u v) as [i|]; [by apply (saved_with_memory _ _ _ _ _ o) | by apply same_with_memory].
Qed.

(** Whoever needs the lock waits. *)
Lemma locked_waits op s : s_locked s = true -> auth_step op s = None \/ auth_step op s = Some (-1, s).
Proof.
  intros Hl. assert (Hw : wrlock s = None) by (unfold wrlock; by rewrite Hl). destruct op; cbn [auth_step];
    unfold authstore_add_vhost, authstore_del_vhost, authstore_add_user, authstore_del_user, authstore_set_perm, authstore_clear_perm;
    rewrite Hw; try first [destruct (_ || _) | destruct (too_long _ _)]; auto.
Qed.

(** The invariant but for the memory. *)
Definition tables_ok (s : authstore) : Prop := auth_ok (s <| s_oracle := [] |>).

(** The growth of a table failed in [op]: -1, nothing changed, and the lock is never
    released. *)
Definition wedges (op : auth_op) (s : authstore) : Prop :=
  exists s', auth_step op s = Some (-1, s') /\ abs s' = abs s /\ forall op', auth_step op' s' = None \/ auth_step op' s' = Some (-1, s').

Lemma steps_memory ops : forall o s,
  auth_ok s -> Forall op_ok ops ->
  exists n s', (n <= length ops)%nat /\ auth_steps (take n ops) (s <| s_oracle := o |>) = Some ((acl_steps (take n ops) (abs s)).1, s') /\
    tables_ok s' /\ abs s' = (acl_steps (take n ops) (abs s)).2 /\
    (n = length ops \/ o <> [] /\ exists op, ops !! n = Some op /\ wedges op s').
Proof.
  induction ops as [|op ops IH]; intros o s Hok Hops; [exists 0%nat, (s <| s_oracle := o |>); split_and!; try done; [by destruct s, Hok; constructor | by left]|].
  apply Forall_cons in Hops as [Hop Hops]. destruct (step_spec op s Hok Hop) as (s1 & E1 & Hok1 & Habs1).
  destruct (step_memory o op s (ok_unlocked _ Hok) (ok_memory _ Hok)) as [(r & s2 & o' & E2 & E3 & Ho)|(s2 & E2 & Hl & Ha & Ho)].
  - destruct (acl_step op (abs s)) as [r0 a] eqn:Es. cbn [fst snd] in *. rewrite E1 in E2. injection E2 as <- <-. destruct (IH o' s1 Hok1 Hops) as (n & s3 & Hn & E4 & Hok3 & Ha3 & Hcase).
    exists (S n), s3. cbn [take auth_steps acl_steps length]. rewrite E3. cbn [mbind option_bind]. rewrite E4. cbn [mbind option_bind].
    rewrite Es, Habs1 in *. destruct (acl_steps (take n ops) a) as [rs a'].
    split_and!; [lia | done | done | done |]. destruct Hcase as [->|[Ho' H]]; [by left | right; naive_solver].
  - exists 0%nat, (s <| s_oracle := o |>). split_and!; [lia | done | by destruct s, Hok; constructor | done |]. right. split; [done|].
    exists op. split; [done|]. exists s2. split_and!; [done | done |]. intros op'. by apply locked_waits.
Qed.


(** ** Queries *)

Context (regexec : bytes -> bytes -> bool).

Definition pattern_of (kind : auth_perm_t) (row : bytes * bytes * bytes) : bytes :=
  match kind, row with
  | AUTH_CONFIGURE, (c, _, _) => c
  | AUTH_WRITE, (_, w, _) => w
  | AUTH_READ, (_, _, r) => r
  end.

(** Access: a row whose patterns all compile, and a pattern that is not empty and
    matches. *)
Definition acl_check (a : acl) (u v : bytes) (kind : auth_perm_t) (object : bytes) : bool :=
  match a_perms a !! (u, v) with
  | Some (c, w, r) =>
      row_compiles c w r && negb (length (pattern_of kind (c, w, r)) =? 0)%nat &&
      regexec (pattern_of kind (c, w, r)) object
  | None => false
  end.

Lemma check_spec s u v kind object :
  auth_ok s -> authstore_check regexec s u v kind object = Some (acl_check (abs s) u v kind object).
Proof.
  intros Hok. unfold authstore_check, rdlock, acl_check. rewrite (ok_unlocked _ Hok). cbn [mbind option_bind]. f_equal.
  rewrite find_perm_abs by done. destruct (find_perm s u v ≫= _) as [p|] eqn:Ep; [|done]. csimpl.
  assert (Hp : perm_ok p).
  { destruct (find_perm s u v) as [j|]; [|done]. cbn in Ep. by eapply Forall_lookup_1; [apply Hok | exact Ep]. }
  destruct Hp as (_ & _ & _ & _ & _ & Hc & Hb). unfold perm_row. rewrite <- Hc. destruct (p_compiled p); [|done].
  destruct Hb as (B1 & B2 & B3); [done|].
  assert (Hgen : forall pat re, built pat re ->
    (if (length pat =? 0)%nat then false else match re with rx_built x => regexec x object | rx_none => false end)
    = negb (length pat =? 0)%nat && regexec pat object).
  { intros [|c pat] re Hre; [done|]. by rewrite Hre. }
  by destruct kind; cbn [pattern_of andb]; apply Hgen.
Qed.

Lemma find_vhost_abs s v : bool_decide (is_Some (find_vhost s v)) = bool_decide (v ∈ a_vhosts (abs s)).
Proof.
  apply bool_decide_ext. cbn. rewrite elem_of_list_to_set. destruct (find_vhost s v) as [i|] eqn:E.
  - apply find_key_Some in E as (x & Hx%list_elem_of_lookup_2 & <-). unfold id. split; [done | eauto].
  - apply find_vhost_spec in E. split; [intros [? [=]] | done].
Qed.

(** What the store answers. *)
Definition answers (s : authstore) (a : acl) : Prop :=
  authstore_is_open s = Some (bool_decide (a_users a = ∅) && negb (a_started a)) /\
  (forall v, authstore_vhost_exists s v = Some (bool_decide (v ∈ a_vhosts a))) /\
  (forall u v, authstore_can_access_vhost s u v = Some (bool_decide (is_Some (a_perms a !! (u, v))))) /\
  (forall u, authstore_user_tags s u = Some (from_option snd 0 (a_users a !! u))) /\
  (forall u, authstore_lookup_hash s u AUTHSTORE_HASH_MAX = Some (fst <$> a_users a !! u)) /\
  (forall o u p, authstore_verify o s u p = from_option (fun row => hash_matches o row.1 p) (Some false) (a_users a !! u)) /\
  (forall u v kind object, authstore_check regexec s u v kind object = Some (acl_check a u v kind object)).

Lemma answers_ok s : auth_ok s -> answers s (abs s).
Proof.
  intros Hok. assert (Hrd : rdlock s = Some ()) by (unfold rdlock; by rewrite (ok_unlocked _ Hok)).
  assert (Hu : forall u x, find_user s u ≫= (fun i => s_users s !! i) = Some x -> user_ok x).
  { intros u x Hx. destruct (find_user s u) as [j|]; [|done]. by eapply Forall_lookup_1; [apply Hok | exact Hx]. }
  unfold answers, authstore_is_open, authstore_vhost_exists, authstore_can_access_vhost, authstore_user_tags,
    authstore_lookup_hash, authstore_verify. rewrite Hrd. cbn [mbind option_bind]. repeat split.
  - f_equal. f_equal. cbn. destruct (s_users s) as [|x l]; [done|]. rewrite bool_decide_false; [done|].
    rewrite kmap_cons, fmap_insert. apply insert_non_empty.
  - intros v. by rewrite find_vhost_abs.
  - intros u v. f_equal. apply bool_decide_ext. rewrite find_perm_abs by done. rewrite fmap_is_Some.
    destruct (find_perm s u v) as [i|] eqn:E; cbn [mbind option_bind].
    + apply find_key_Some in E as (x & -> & _). split; eauto.
    + split; intros [? [=]].
  - intros u. f_equal. rewrite find_user_abs by done. by destruct (find_user s u ≫= _).
  - intros u. f_equal. rewrite find_user_abs by done. destruct (find_user s u ≫= _) as [x|] eqn:E; [|done].
    destruct (Hu u x E) as (_ & [_ Hlen] & _). by rewrite (proj2 (Nat.ltb_lt _ _) Hlen).
  - intros o u p. rewrite find_user_abs by done. by destruct (find_user s u ≫= _).
  - intros. by apply check_spec.
Qed.

(** C6: from a fresh store, whatever allocations and saves fail, the operations run with
    the return codes of the abstract access-control lists, keep the tables well formed,
    and leave a store that answers every query as they do: all of them ([n]), or those
    before the first table that cannot grow, whose operation returns -1, changes nothing
    and never releases the lock, so that no later operation does anything.  While memory
    suffices it is all of them. *)
Theorem authstore_refines ops o disk io :
  Forall op_ok ops ->
  exists n s, (n <= length ops)%nat /\
    let '(rs, a) := acl_steps (take n ops) (Acl ∅ ∅ ∅ false) in
    auth_steps (take n ops) (authstore_new o disk io) = Some (rs, s) /\ tables_ok s /\ abs s = a /\ answers s a /\
    (n = length ops \/ o <> [] /\ exists op, ops !! n = Some op /\ wedges op s).
Proof.
  intros Hops. destruct (steps_memory ops o (authstore_new [] disk io)) as (n & s & Hn & Hs & Hok & Habs & Hcase); [apply new_ok | done |].
  exists n, s. change (abs (authstore_new [] disk io)) with (Acl ∅ ∅ ∅ false) in *. destruct (acl_steps (take n ops) _) as [rs a]. cbn [fst snd] in *.
  split_and!; [done | exact Hs | done | done | | done]. rewrite <- Habs. exact (answers_ok _ Hok).
Qed.

(** ** Revocation *)

(** The operation that can give [u] access again. *)
Definition grants (u : bytes) (op : auth_op) : bool :=
  match op with
  | op_set_perm u' _ _ _ _ => bool_decide (u' = u)
  | _ => false
  end.

Definition no_rows (u : bytes) (a : acl) : Prop := forall v, a_perms a !! (u, v) = None.

Lemma no_rows_step u op a : grants u op = false -> no_rows u a -> no_rows u (acl_step op a).2.
Proof.
  intros Hg Hno. destruct a as [V U P b]. destruct op; cbn [grants acl_step] in *; repeat case_match; try done;
    intros v'; specialize (Hno v'); cbn in *.
  - by apply map_lookup_filter_None_2; left.
  - by apply map_lookup_filter_None_2; left.
  - apply bool_decide_eq_false in Hg. rewrite lookup_insert_ne; [done|]. congruence.
  - apply bool_decide_eq_false in Hg. rewrite lookup_insert_ne; [done|]. congruence.
  - by apply lookup_delete_None; right.
Qed.

Lemma no_rows_steps u ops : forall a, forallb (fun op => negb (grants u op)) ops = true -> no_rows u a -> no_rows u (acl_steps ops a).2.
Proof.
  induction ops as [|op ops IH]; intros a Hg Hno; [done|]. cbn [forallb] in Hg. apply andb_true_iff in Hg as [Hop%negb_true_iff Hg].
  pose proof (no_rows_step u op a Hop Hno) as H1. cbn [acl_steps]. destruct (acl_step op a) as [r a1].
  specialize (IH a1 Hg H1). by destruct (acl_steps ops a1) as [rs a2].
Qed.

(** C35: once an existing user has been deleted, no check of any kind on any object
    of any virtual host succeeds for that name, whatever operations follow, until
    permissions are set for it again; recreating the user does not bring its old
    permissions back. *)
Theorem deleted_user_denied u ops s :
  auth_ok s -> c_str u -> Forall op_ok ops ->
  is_Some (a_users (abs s) !! u) -> forallb (fun op => negb (grants u op)) ops = true ->
  exists rs s', auth_steps (op_del_user u :: ops) s = Some (rs, s') /\
    (forall v kind object, authstore_check regexec s' u v kind object = Some false) /\
    (forall v, authstore_can_access_vhost s' u v = Some false).
Proof.
  intros Hok Hu Hops [row Hrow] Hg.
  destruct (steps_spec (op_del_user u :: ops) s) as (s' & Hs & Hok' & Habs); [done | by constructor |].
  eexists _, s'. split; [exact Hs|]. assert (Hno : no_rows u (abs s')).
  { rewrite Habs. cbn [acl_steps]. destruct (abs s) as [V U P b]. cbn [a_users] in Hrow.
    assert (Hdel : acl_step (op_del_user u) (Acl V U P b) = (0, Acl V (delete u U) (filter (fun kp => kp.1.1 <> u) P) b))
      by (cbn; by rewrite Hrow).
    rewrite Hdel. destruct (acl_steps ops _) as [rs a] eqn:E. cbn.
    change a with (rs, a).2. rewrite <- E. apply no_rows_steps; [done|]. intros v. cbn. apply map_lookup_filter_None_2.
    right. cbn. by intros ? _ []. }
  destruct (answers_ok s' Hok') as (_ & _ & Hcan & _ & _ & _ & Hcheck). split.
  - intros v kind object. rewrite Hcheck. unfold acl_check. by rewrite Hno.
  - intros v. rewrite Hcan, Hno. done.
Qed.
End Regex.

(** ** Instances *)

(** Patterns as plain strings: all compile but "(", and they match themselves. *)
Definition demo_regcomp (p : bytes) : bool := bool_decide (p <> cstr "(").
Definition demo_regexec (p object : bytes) : bool := bool_decide (p = object).

Definition demo_ops : list auth_op :=
  [op_add_vhost (cstr "/"); op_add_user (cstr "ann") (cstr "h") 1;
   op_set_perm (cstr "ann") (cstr "/") (cstr "q") (cstr "q") []; op_set_perm (cstr "ann") (cstr "v") (cstr "(") [] []].

Lemma demo_ops_ok : Forall op_ok demo_ops.
Proof. repeat constructor; cbn; lia. Qed.

Lemma authstore_refines_witness :
  exists s, auth_steps demo_regcomp demo_ops (authstore_new [] ∅ []) = Some ([0; 0; 0; -1], s) /\
            authstore_check demo_regexec s (cstr "ann") (cstr "/") AUTH_WRITE (cstr "q") = Some true /\
            authstore_check demo_regexec s (cstr "ann") (cstr "/") AUTH_READ (cstr "q") = Some false.
Proof.
  destruct (authstore_refines demo_regcomp demo_regexec demo_ops [] ∅ [] demo_ops_ok) as (n & s & _ & H).
  destruct (acl_steps demo_regcomp (take n demo_ops) (Acl ∅ ∅ ∅ false)) as [rs a] eqn:E. destruct H as (Hs & _ & _ & Ha & [->|[Ho _]]); [|by destruct Ho].
  vm_compute in E. injection E as <- <-. exists s. split; [exact Hs|]. destruct Ha as (_ & _ & _ & _ & _ & _ & Ha). split; [exact (Ha _ _ _ _) | exact (Ha _ _ _ _)].
Defined.

Lemma demo_acl_store : exists s, auth_steps demo_regcomp demo_ops (authstore_new [] ∅ []) = Some ([0; 0; 0; -1], s) /\
  auth_ok demo_regcomp s /\ is_Some (a_users (abs s) !! cstr "ann").
Proof.
  destruct (steps_spec demo_regcomp demo_ops (authstore_new [] ∅ [])) as (s & Hs & Hok & Habs);
    [apply new_ok | apply demo_ops_ok |].
  exists s. split; [exact Hs|]. split; [exact Hok|]. rewrite Habs. vm_compute. eauto.
Qed.

Lemma deleted_user_denied_witness :
  exists rs s s', auth_steps demo_regcomp demo_ops (authstore_new [] ∅ []) = Some ([0; 0; 0; -1], s) /\
    auth_steps demo_regcomp [op_del_user (cstr "ann"); op_add_user (cstr "ann") (cstr "x") 0] s = Some (rs, s') /\
    authstore_check demo_regexec s' (cstr "ann") (cstr "/") AUTH_WRITE (cstr "q") = Some false.
Proof.
  destruct demo_acl_store as (s & Hs & Hok & Hu).
  destruct (deleted_user_denied demo_regcomp demo_regexec (cstr "ann") [op_add_user (cstr "ann") (cstr "x") 0] s)
    as (rs & s' & H1 & H2 & _); [exact Hok | repeat constructor | repeat constructor; cbn; lia | exact Hu | reflexivity |].
  exists rs, s, s'. split; [exact Hs|]. split; [exact H1 | exact (H2 _ _ _)].
Defined.
