(* ===== verification/AuthFile.v ===== *)
(** The persisted form of the access-control store: what a restart finds, what a
    damaged file does, and what a failed allocation leaves behind. *)

From S2P Require Import Prelude Tables CLib Crypto Password AuthStore AuthSpec.

#[local] Arguments authstore_save_locked : simpl never.
#[local] Arguments be_encode : simpl never.
#[local] Arguments acl_step : simpl never.

(** * Reading back what was written *)

Lemma get_u32_put v rest : 0 <= v < 2 ^ 32 -> get_u32 (put_u32 v ++ rest) = Some (v, rest).
Proof.
  intros Hv. unfold get_u32, put_u32. rewrite (proj2 (Nat.ltb_ge _ _)) by (rewrite length_app, be_encode_length; lia).
  rewrite take_app_length', drop_app_length' by (by rewrite be_encode_length). rewrite be_decode_encode.
  by rewrite Z.mod_small by (simpl; lia).
Qed.

Lemma put_str_ok n s : str_ok n s -> (n <= 256)%nat -> put_str s = Some (be_encode 2 (Z.of_nat (length s)) ++ s).
Proof. intros [_ Hs] Hn. unfold put_str. by rewrite (proj2 (Z.ltb_ge _ _)) by lia. Qed.

Lemma get_str_put n s bs rest :
  str_ok n s -> (n <= 256)%nat -> put_str s = Some bs -> get_str n (bs ++ rest) = Some (s, rest).
Proof.
  intros Hs Hn Hput. rewrite (put_str_ok n s Hs Hn) in Hput. apply Some_inj in Hput as <-. destruct Hs as [Hb Hl].
  unfold get_str. rewrite <- app_assoc, (proj2 (Nat.ltb_ge _ _)) by (rewrite length_app, be_encode_length; lia).
  rewrite take_app_length', drop_app_length' by (by rewrite be_encode_length).
  rewrite be_decode_encode, Z.mod_small, Nat2Z.id by (simpl; lia).
  rewrite (proj2 (Nat.leb_gt _ _)), (proj2 (Nat.ltb_ge _ _)) by (done || (rewrite length_app; lia)).
  rewrite take_app_length, drop_app_length, c_string_id; [done|]. eapply Forall_impl; [exact Hb|]. cbn. lia.
Qed.

Section Regex.
Context (regcomp : bytes -> bool).

Abbreviation step := (auth_step regcomp).
Abbreviation steps := (auth_steps regcomp).

(** A row reader undoes a row writer: it reads the row and performs its operation. *)
Definition reads {A} (row : authstore -> bytes -> option (authstore * option bytes)) (put : A -> option bytes)
    (op : A -> auth_op) (good : A -> Prop) : Prop :=
  forall x bs s rest, good x -> put x = Some bs -> row s (bs ++ rest) = ('(_, s) ← step (op x) s; Some (s, Some rest)).

Definition user_op (u : user_t) : auth_op := op_add_user (u_name u) (u_hash u) (u_tags u).
Definition perm_op (p : perm_t) : auth_op := op_set_perm (p_user p) (p_vhost p) (p_conf p) (p_wr p) (p_rd p).

Lemma load_vhost_reads : reads load_vhost put_str op_add_vhost (str_ok AUTHSTORE_NAME_MAX).
Proof. intros v bs s rest Hv Hput. unfold load_vhost. by rewrite (get_str_put _ v bs) by (done || (unfold AUTHSTORE_NAME_MAX; lia)). Qed.

Ltac sizes := unfold AUTHSTORE_NAME_MAX, AUTHSTORE_HASH_MAX, AUTHSTORE_REGEX_MAX; lia.

Lemma load_user_reads : reads load_user put_user user_op user_ok.
Proof.
  intros u bs s rest (Hn & Hh & Ht) Hput. unfold put_user in Hput.
  destruct (put_str (u_name u)) as [a|] eqn:Ea; [|done]. destruct (put_str (u_hash u)) as [b|] eqn:Eb; [|done].
  apply Some_inj in Hput as <-. unfold load_user. rewrite <- !app_assoc.
  rewrite (get_str_put _ _ a _ Hn) by (done || sizes). cbn [mbind option_bind].
  rewrite (get_str_put _ _ b _ Hh) by (done || sizes). cbn [mbind option_bind]. by rewrite get_u32_put.
Qed.

Lemma load_perm_reads : reads (load_perm regcomp) put_perm perm_op (perm_ok regcomp).
Proof.
  intros p bs s rest (Hu & Hv & Hc & Hw & Hr & _) Hput. unfold put_perm in Hput.
  destruct (put_str (p_user p)) as [a|] eqn:Ea; [|done]. destruct (put_str (p_vhost p)) as [b|] eqn:Eb; [|done].
  destruct (put_str (p_conf p)) as [c|] eqn:Ec; [|done]. destruct (put_str (p_wr p)) as [d|] eqn:Ed; [|done].
  destruct (put_str (p_rd p)) as [e|] eqn:Ee; [|done].
  apply Some_inj in Hput as <-. unfold load_perm. rewrite <- !app_assoc.
  rewrite (get_str_put _ _ a _ Hu) by (done || sizes). cbn [mbind option_bind].
  rewrite (get_str_put _ _ b _ Hv) by (done || sizes). cbn [mbind option_bind].
  rewrite (get_str_put _ _ c _ Hc) by (done || sizes). cbn [mbind option_bind].
  rewrite (get_str_put _ _ d _ Hw) by (done || sizes). cbn [mbind option_bind].
  rewrite (get_str_put _ _ e _ Hr) by (done || sizes). done.
Qed.

(** Rows, then sections, perform the operations of the rows. *)
Lemma load_rows_steps {A} row put (op : A -> auth_op) good :
  reads row put op good -> forall xs bss s rest, Forall good xs -> mapM put xs = Some bss ->
  load_rows row (length xs) s (concat bss ++ rest) = ('(_, s) ← steps (op <$> xs) s; Some (s, Some rest)).
Proof.
  intros Hrow. induction xs as [|x xs IH]; intros bss s rest Hxs Hput.
  - cbn in Hput. apply Some_inj in Hput as <-. done.
  - apply Forall_cons in Hxs as [Hx Hxs]. cbn in Hput. destruct (put x) as [bs|] eqn:Ex; [|done]. cbn in Hput.
    destruct (mapM put xs) as [bss'|] eqn:Exs; [|done]. cbn in Hput. apply Some_inj in Hput as <-.
    cbn [length load_rows concat fmap list_fmap auth_steps]. rewrite <- app_assoc, (Hrow x bs) by done.
    destruct (step (op x) s) as [[r s1]|]; cbn [mbind option_bind]; [|done]. rewrite IH by done.
    by destruct (steps (op <$> xs) s1) as [[rs s2]|].
Qed.

Lemma load_section_steps {A} row put (op : A -> auth_op) good :
  reads row put op good -> forall xs bss s rest, Forall good xs -> mapM put xs = Some bss -> Z.of_nat (length xs) < 2 ^ 32 ->
  load_section row (s, Some (put_u32 (Z.of_nat (length xs)) ++ concat bss ++ rest))
  = ('(_, s) ← steps (op <$> xs) s; Some (s, Some rest)).
Proof.
  intros Hrow xs bss s rest Hxs Hput Hn. unfold load_section. rewrite get_u32_put by lia. rewrite Nat2Z.id.
  by eapply load_rows_steps.
Qed.

Lemma steps_app ops1 ops2 s :
  steps (ops1 ++ ops2) s = ('(r1, s) ← steps ops1 s; '(r2, s) ← steps ops2 s; Some (r1 ++ r2, s)).
Proof.
  revert s. induction ops1 as [|op ops1 IH]; intros s; cbn [app auth_steps mbind option_bind].
  - by destruct (steps ops2 s) as [[]|].
  - destruct (step op s) as [[r s1]|]; cbn [mbind option_bind]; [|done]. rewrite IH.
    destruct (steps ops1 s1) as [[rs s2]|]; cbn [mbind option_bind]; [|done].
    by destruct (steps ops2 s2) as [[rs' s3]|].
Qed.

(** The operations that rebuild a store. *)
Definition dump (s : authstore) : list auth_op :=
  (op_add_vhost <$> s_vhosts s) ++ (user_op <$> s_users s) ++ (perm_op <$> s_perms s).

Definition counts_ok (s : authstore) : Prop :=
  Z.of_nat (length (s_vhosts s)) < 2 ^ 32 /\ Z.of_nat (length (s_users s)) < 2 ^ 32 /\ Z.of_nat (length (s_perms s)) < 2 ^ 32.

Lemma serialize_load s f :
  auth_ok regcomp s -> counts_ok s -> serialize s = Some f ->
  exists body, load_header f = Some (if s_bootstrap_completed s then 1 else 0, body) /\
    forall s0, load_body regcomp s0 body = ('(_, s1) ← steps (dump s) s0; Some (s1, Some [])).
Proof.
  intros Hok (H1 & H2 & H3) Hf. unfold serialize in Hf.
  destruct (mapM put_str (s_vhosts s)) as [vs|] eqn:Ev; [|done]. destruct (mapM put_user (s_users s)) as [us|] eqn:Eu; [|done].
  destruct (mapM put_perm (s_perms s)) as [ps|] eqn:Ep; [|done]. apply Some_inj in Hf as <-.
  eexists. split.
  - unfold load_header. rewrite get_u32_put by (unfold AUTHSTORE_DB_MAGIC; lia). cbn [mbind option_bind].
    rewrite Z.eqb_refl. cbn [negb]. rewrite get_u32_put by (unfold AUTHSTORE_DB_VERSION; lia). cbn [mbind option_bind].
    rewrite Z.eqb_refl. cbn [negb]. apply get_u32_put. destruct (s_bootstrap_completed s); lia.
  - intros s0. unfold load_body, dump. rewrite !steps_app.
    rewrite (load_section_steps _ _ _ _ load_vhost_reads _ vs) by (done || apply Hok).
    destruct (steps (op_add_vhost <$> _) s0) as [[r1 s1]|]; cbn [mbind option_bind]; [|done]. rewrite steps_app.
    rewrite (load_section_steps _ _ _ _ load_user_reads _ us) by (done || apply Hok).
    destruct (steps (user_op <$> _) s1) as [[r2 s2]|]; cbn [mbind option_bind]; [|done].
    rewrite <- (app_nil_r (concat ps)).
    rewrite (load_section_steps _ _ _ _ load_perm_reads _ ps) by (done || apply Hok).
    by destruct (steps (perm_op <$> _) s2) as [[r3 s3]|].
Qed.

(** ** Rebuilding *)

Lemma acl_steps_app ops1 ops2 a : (acl_steps regcomp (ops1 ++ ops2) a).2 = (acl_steps regcomp ops2 (acl_steps regcomp ops1 a).2).2.
Proof.
  revert a. induction ops1 as [|op ops1 IH]; intros a; [done|]. cbn [app acl_steps].
  destruct (acl_step regcomp op a) as [r a1]. specialize (IH a1).
  destruct (acl_steps regcomp (ops1 ++ ops2) a1), (acl_steps regcomp ops1 a1). exact IH.
Qed.

Lemma acl_steps_cons op ops a : (acl_steps regcomp (op :: ops) a).2 = (acl_steps regcomp ops (acl_step regcomp op a).2).2.
Proof. cbn [acl_steps]. destruct (acl_step regcomp op a) as [r a1]. cbn [snd]. by destruct (acl_steps regcomp ops a1). Qed.

Lemma str_fits n s : str_ok n s -> fits n s = true.
Proof. intros [_ Hs]. by apply Nat.ltb_lt. Qed.

Lemma rebuild_vhosts l U P b : Forall (str_ok AUTHSTORE_NAME_MAX) l -> forall V,
  (acl_steps regcomp (op_add_vhost <$> l) (Acl V U P b)).2 = Acl (V ∪ list_to_set l) U P b.
Proof.
  induction 1 as [|v l Hv Hl IH]; intros V; [cbn; f_equal; set_solver|]. cbn [fmap list_fmap]. rewrite acl_steps_cons.
  unfold acl_step. rewrite (str_fits _ _ Hv). cbn [snd]. rewrite IH. f_equal. cbn. set_solver.
Qed.

Lemma rebuild_users l V P : Forall user_ok l -> keys_ok u_name l -> forall U b,
  (acl_steps regcomp (user_op <$> l) (Acl V U P b)).2
  = Acl V ((user_row <$> kmap u_name l) ∪ U) P (if decide (l = []) then b else true).
Proof.
  induction 1 as [|u l Hu Hl IH]; intros Hk U b.
  { by rewrite kmap_nil, fmap_empty, (left_id_L ∅ (∪)). }
  unfold keys_ok in Hk. cbn in Hk. apply NoDup_cons in Hk as [Hnew Hk]. cbn [fmap list_fmap]. rewrite acl_steps_cons.
  unfold acl_step. cbn [user_op]. destruct Hu as (Hn & Hh & _). rewrite (str_fits _ _ Hn), (str_fits _ _ Hh). cbn [andb snd].
  rewrite IH by done. rewrite kmap_cons, fmap_insert, <- insert_union_l, <- insert_union_r.
  - f_equal. by destruct (decide (l = [])), (decide (u :: l = [])).
  - rewrite lookup_fmap. apply fmap_None. apply not_elem_of_list_to_map_1. by rewrite keys_fst.
Qed.

Lemma rebuild_perms l V U b : Forall (perm_ok regcomp) l -> keys_ok perm_key l -> forall P,
  (acl_steps regcomp (perm_op <$> l) (Acl V U P b)).2 = Acl V U ((perm_row <$> kmap perm_key l) ∪ P) b.
Proof.
  induction 1 as [|p l Hp Hl IH]; intros Hk P.
  { by rewrite kmap_nil, fmap_empty, (left_id_L ∅ (∪)). }
  unfold keys_ok in Hk. cbn in Hk. apply NoDup_cons in Hk as [Hnew Hk]. cbn [fmap list_fmap]. rewrite acl_steps_cons.
  unfold acl_step. cbn [perm_op]. destruct Hp as (H1 & H2 & H3 & H4 & H5 & _).
  rewrite (str_fits _ _ H1), (str_fits _ _ H2), (str_fits _ _ H3), (str_fits _ _ H4), (str_fits _ _ H5). cbn [andb snd].
  rewrite IH by done. rewrite kmap_cons, fmap_insert, <- insert_union_l, <- insert_union_r; [done|].
  rewrite lookup_fmap. apply fmap_None. apply not_elem_of_list_to_map_1. by rewrite keys_fst.
Qed.

Lemma rebuild s :
  auth_ok regcomp s ->
  (acl_steps regcomp (dump s) (Acl ∅ ∅ ∅ false)).2
  = Acl (a_vhosts (abs s)) (a_users (abs s)) (a_perms (abs s)) (if decide (s_users s = []) then false else true).
Proof.
  intros [H1 H2 H3 H4 H5 H6 _ _ _]. unfold dump. rewrite !acl_steps_app, rebuild_vhosts, rebuild_users, rebuild_perms by done.
  unfold abs. cbn [a_vhosts a_users a_perms]. f_equal; [set_solver | |]; by rewrite (right_id_L ∅ (∪)).
Qed.

Lemma c_str_of n s : str_ok n s -> c_str s.
Proof. by intros []. Qed.

Lemma dump_ok s : auth_ok regcomp s -> Forall op_ok (dump s).
Proof.
  intros [_ H2 _ H4 _ H6 _ _ _]. unfold dump. rewrite !Forall_app, !Forall_fmap. split; [|split].
  - eapply Forall_impl; [exact H2|]. intros v Hv. by eapply c_str_of.
  - eapply Forall_impl; [exact H4|]. intros u (Ha & Hb & Hc).
    split; [by eapply c_str_of|]. split; [by eapply c_str_of | exact Hc].
  - eapply Forall_impl; [exact H6|]. intros p (Ha & Hb & Hc & Hd & He & _). cbn. split_and!; by eapply c_str_of.
Qed.

(** ** The file follows the store *)

(** A step of [s] that ends with a save of [x], one row longer at most. *)
Record saves (s x : authstore) : Prop := {
  saves_path : s_persist_path x = s_persist_path s;
  saves_io : s_io x = s_io s;
  saves_disk : s_disk x = s_disk s;
  saves_oracle : s_oracle x = s_oracle s;
  saves_vhosts : (length (s_vhosts x) <= S (length (s_vhosts s)))%nat;
  saves_users : (length (s_users x) <= S (length (s_users s)))%nat;
  saves_perms : (length (s_perms x) <= S (length (s_perms s)))%nat;
}.

Lemma length_swap_remove {A} (l : list A) i x : l !! i = Some x -> (length (swap_remove i l) <= S (length l))%nat.
Proof. intros Hi. pose proof (Permutation_length (swap_remove_perm l i x Hi)) as H. simpl in H. lia. Qed.

Lemma length_drop_matching {A} (p : A -> bool) (l : list A) : (length (drop_matching p l) <= S (length l))%nat.
Proof. rewrite drop_matching_perm. pose proof (length_filter (fun x => p x = false) l). lia. Qed.

#[local] Arguments set_row : simpl never.

Ltac unchanged := eexists _, _; split; [done|]; by left.
Ltac changed :=
  eexists _, _; split; [done|]; right; eexists; split; [done|]; split; cbn;
  rewrite ?length_insert, ?length_app; simpl; first [lia | done | congruence | by eapply length_swap_remove | apply length_drop_matching].

Lemma step_saves op s :
  s_locked s = false -> s_oracle s = [] ->
  exists r s', step op s = Some (r, s') /\ (s' = s \/ exists x, s' = unlock (authstore_save_locked x) /\ saves s x).
Proof.
  intros Hl Ho. assert (Hw : wrlock s = Some (s <| s_locked := true |>)) by by apply wrlock_ok.
  assert (Hu : unlock (s <| s_locked := true |>) = s) by by apply unlock_wrlock.
  destruct op as [v|v|u h tags|u|u v c w r|u v]; cbn [auth_step];
    unfold authstore_add_vhost, authstore_del_vhost, authstore_add_user, authstore_del_user, authstore_set_perm, authstore_clear_perm;
    rewrite Hw; cbn [mbind option_bind]; try (case_match; [unchanged|]).
  - destruct (find_vhost _ v); [unchanged|]. cbn. rewrite Ho.
    destruct (grow_ok (length (s_vhosts s)) (s_cv s)) as [cap ->]. changed.
  - destruct (find_vhost _ v) as [i|] eqn:Ei; [|unchanged]. apply find_key_Some in Ei as (x & Hx & _). cbn in Hx.
    match goal with |- context [drop_perms_matching ?a ?b ?s] => destruct (drop_perms_spec a b s) as [m ->] end. changed.
  - destruct (find_user _ u) as [i|] eqn:Ei; [changed|]. cbn. rewrite Ho.
    destruct (grow_ok (length (s_users s)) (s_cu s)) as [cap ->]. changed.
  - destruct (find_user _ u) as [i|] eqn:Ei; [|unchanged]. apply find_key_Some in Ei as (x & Hx & _). cbn in Hx.
    match goal with |- context [drop_perms_matching ?a ?b ?s] => destruct (drop_perms_spec a b s) as [m ->] end. changed.
  - destruct (find_perm _ u v) as [i|] eqn:Ei; [destruct (set_row _ _ _ _ _ _ _) as [p m]; changed|]. cbn. rewrite Ho.
    destruct (grow_ok (length (s_perms s)) (s_cp s)) as [cap ->]. destruct (set_row _ _ _ _ _ _ _) as [p m]. changed.
  - destruct (find_perm _ u v) as [i|] eqn:Ei; [|unchanged]. apply find_key_Some in Ei as (x & Hx & _). cbn in Hx. changed.
Qed.

(** ** Loading *)

(** Nobody holds the lock, memory is available and nothing is saved. *)
Definition calm (s : authstore) : Prop := s_locked s = false /\ s_oracle s = [] /\ s_persist_path s = [].

Definition files (s : authstore) := (s_disk s, s_io s).

Lemma calm_step op s : calm s -> exists r s', step op s = Some (r, s') /\ calm s' /\ files s' = files s.
Proof.
  intros (Hl & Ho & Hp). destruct (step_saves op s Hl Ho) as (r & s' & Hs & Hcase). exists r, s'. split; [done|].
  destruct Hcase as [->|(x & -> & [P1 P2 P3 P4 _ _ _])]; [done|].
  assert (E : authstore_save_locked x = x) by (unfold authstore_save_locked, save_paths; by rewrite P1, Hp). rewrite E.
  unfold calm, files. cbn. by rewrite P1, P2, P3, P4.
Qed.

Lemma calm_steps ops : forall s rs s', calm s -> steps ops s = Some (rs, s') -> calm s' /\ files s' = files s.
Proof.
  induction ops as [|op ops IH]; intros s rs s' Hs; cbn [auth_steps]; [by intros [= _ <-]|].
  destruct (calm_step op s Hs) as (r & s1 & -> & Hs1 & Ef). cbn [mbind option_bind].
  destruct (steps ops s1) as [[rs2 s2]|] eqn:E; [|done]. intros [= _ <-]. destruct (IH s1 rs2 s2 Hs1 E) as [H1 H2]. split; [done | congruence].
Qed.

(** Loading a saved file into a fresh store. *)
Lemma load_saved s f path disk io :
  auth_ok regcomp s -> counts_ok s -> serialize s = Some f -> disk !! path = Some f ->
  exists s', authstore_load regcomp true path (authstore_new [] disk io) = Some (0, s') /\ auth_ok regcomp s' /\ abs s' = abs s /\
             s_persist_path s' = snprintf_str 512 path /\ files s' = (disk, io).
Proof.
  intros Hok Hcnt Hf Hdisk. unfold authstore_load. cbn [s_disk authstore_new]. rewrite Hdisk.
  destruct (serialize_load s f Hok Hcnt Hf) as (body & -> & Hbody). rewrite Hbody.
  destruct (steps_spec regcomp (dump s) (authstore_new [] disk io)) as (s1 & E1 & Hok1 & Habs1);
    [apply new_ok | by apply dump_ok |]. rewrite E1.
  assert (Hc0 : calm (authstore_new [] disk io)) by done. destruct (calm_steps _ _ _ _ Hc0 E1) as [_ Hfiles].
  change (abs (authstore_new [] disk io)) with (Acl ∅ ∅ ∅ false) in Habs1. rewrite rebuild in Habs1 by done.
  cbn [mbind option_bind]. rewrite wrlock_ok by apply Hok1. cbn [mbind option_bind]. eexists. split; [done|].
  pose proof (ok_started _ _ Hok) as Hst. pose proof (ok_started _ _ Hok1) as Hst1.
  destruct Hok1 as [G1 G2 G3 G4 G5 G6 G7 G8 G9]. unfold abs in Habs1 |- *. injection Habs1 as A1 A2 A3 A4. unfold files in *. injection Hfiles as F1 F2.
  destruct (s_bootstrap_completed s) eqn:Eb; cbn; (split; [split; cbn; done|]); rewrite A1, A2, A3, F1, F2; (split; [|done]); [done|].
  f_equal. rewrite A4. destruct (decide (s_users s = [])); [done|]. by discriminate Hst.
Qed.

(** ** The file follows the store *)

(** How many rows the tables have at most. *)
Definition acl_size (a : acl) : nat := Nat.max (size (a_vhosts a)) (Nat.max (size (a_users a)) (size (a_perms a))).

Lemma size_kmap {A K} `{Countable K} (key : A -> K) l : keys_ok key l -> size (kmap key l) = length l.
Proof.
  intros Hk. rewrite <- (size_dom (D := gset K)). unfold kmap. rewrite dom_list_to_map_L, keys_fst, size_list_to_set by done. apply length_fmap.
Qed.

Lemma acl_size_ok s : auth_ok regcomp s -> acl_size (abs s) = Nat.max (length (s_vhosts s)) (Nat.max (length (s_users s)) (length (s_perms s))).
Proof.
  intros [H1 _ H3 _ H5 _ _ _ _]. unfold acl_size, abs. cbn [a_vhosts a_users a_perms].
  by rewrite size_list_to_set, !map_size_fmap, !size_kmap.
Qed.

(** The file at [path] holds the lists [a]: it is what a store with these lists saved, or
    there is none and the lists are empty. *)
Definition holds_acl (path : bytes) (disk : gmap bytes bytes) (a : acl) : Prop :=
  (disk !! path = None /\ a = Acl ∅ ∅ ∅ false) \/
  (exists s f, auth_ok regcomp s /\ abs s = a /\ serialize s = Some f /\ disk !! path = Some f).

(** The file holds the store. *)
Definition saved (path : bytes) (s : authstore) : Prop :=
  s_persist_path s = path /\ s_io s = [] /\ holds_acl path (s_disk s) (abs s).

Lemma mapM_total {A B} (f : A -> option B) l : Forall (fun x => is_Some (f x)) l -> is_Some (mapM f l).
Proof. apply mapM_is_Some_2. Qed.

Lemma serialize_ok s : auth_ok regcomp s -> is_Some (serialize s).
Proof.
  intros [_ H2 _ H4 _ H6 _ _ _]. unfold serialize.
  assert (Hs : forall n x, str_ok n x -> (n <= 256)%nat -> is_Some (put_str x)) by (intros; erewrite put_str_ok; eauto).
  destruct (mapM_total put_str (s_vhosts s)) as [vs ->].
  { eapply Forall_impl; [exact H2|]. intros v Hv. apply (Hs _ _ Hv). sizes. }
  destruct (mapM_total put_user (s_users s)) as [us ->].
  { eapply Forall_impl; [exact H4|]. intros u (Ha & Hb & _). unfold put_user.
    destruct (Hs _ _ Ha ltac:(sizes)) as [a ->]. destruct (Hs _ _ Hb ltac:(sizes)) as [b ->]. by eexists. }
  destruct (mapM_total put_perm (s_perms s)) as [ps ->]; [|by eexists].
  eapply Forall_impl; [exact H6|]. intros p (Ha & Hb & Hc & Hd & He & _). unfold put_perm.
  destruct (Hs _ _ Ha ltac:(sizes)) as [a ->]. destruct (Hs _ _ Hb ltac:(sizes)) as [b ->].
  destruct (Hs _ _ Hc ltac:(sizes)) as [c ->]. destruct (Hs _ _ Hd ltac:(sizes)) as [d ->].
  destruct (Hs _ _ He ltac:(sizes)) as [e ->]. by eexists.
Qed.

Lemma serialize_tables s1 s2 :
  s_vhosts s1 = s_vhosts s2 -> s_users s1 = s_users s2 -> s_perms s1 = s_perms s2 ->
  s_bootstrap_completed s1 = s_bootstrap_completed s2 -> serialize s1 = serialize s2.
Proof. unfold serialize. by intros -> -> -> ->. Qed.

Lemma saved_save path x :
  s_persist_path x = path -> s_io x = [] -> (0 < length path < 512)%nat -> auth_ok regcomp (unlock (authstore_save_locked x)) ->
  saved path (unlock (authstore_save_locked x)).
Proof.
  intros Hp Hio Hl Hok. destruct (serialize_ok _ Hok) as [f Hf].
  pose proof (tables_save x) as H. unfold tables in H. injection H as E1 E2 E3 E4 _ _ E7.
  rewrite (serialize_tables _ x) in Hf by done.
  assert (Hd : s_io (authstore_save_locked x) = [] /\ s_disk (authstore_save_locked x) !! path = Some f).
  { unfold authstore_save_locked, save_paths. rewrite Hp, Hio. destruct (Nat.eqb_spec (length path) 0); [lia|].
    rewrite (proj2 (Nat.leb_gt _ _)) by (rewrite length_app; simpl; lia).
    rewrite (serialize_tables _ x), Hf by done. cbn. split; [done|]. apply lookup_insert_eq. }
  destruct Hd as [Hd1 Hd2]. split; [by cbn; rewrite E7|]. split; [done|]. right. eexists _, f. split; [done|]. split; [done|]. split; [|done].
  rewrite <- Hf. apply serialize_tables; cbn; done.
Qed.

Lemma saved_step path op s :
  auth_ok regcomp s -> op_ok op -> (0 < length path < 512)%nat -> saved path s ->
  exists r s', step op s = Some (r, s') /\ auth_ok regcomp s' /\ saved path s' /\ (acl_size (abs s') <= S (acl_size (abs s)))%nat.
Proof.
  intros Hok Hop Hl Hsv. destruct (step_spec regcomp op s Hok Hop) as (s' & Hs & Hok' & _).
  destruct (step_saves op s) as (r & s2 & Hs2 & Hcase); [apply Hok | apply Hok |]. rewrite Hs2 in Hs. injection Hs as -> ->.
  eexists _, s'. split; [exact Hs2|]. split; [done|]. destruct Hcase as [->|(x & -> & [P1 P2 P3 _ P4 P5 P6])]; [split; [done | lia]|].
  split.
  - destruct Hsv as (Hp & Hio & _). by apply saved_save; [congruence | congruence | |].
  - pose proof (tables_save x) as H. unfold tables in H. injection H as E1 E2 E3 E4 _ _ _.
    rewrite !acl_size_ok by done. cbn. rewrite E1, E2, E3. lia.
Qed.

Lemma saved_steps path ops : forall s,
  auth_ok regcomp s -> Forall op_ok ops -> (0 < length path < 512)%nat -> saved path s ->
  exists rs s', steps ops s = Some (rs, s') /\ auth_ok regcomp s' /\ saved path s' /\ (acl_size (abs s') <= acl_size (abs s) + length ops)%nat.
Proof.
  induction ops as [|op ops IH]; intros s Hok Hops Hl Hsv; [exists [], s; split_and!; done || (simpl; lia)|].
  apply Forall_cons in Hops as [Hop Hops].
  destruct (saved_step path op s Hok Hop Hl Hsv) as (r & s1 & E1 & Hok1 & Hsv1 & Hc1).
  destruct (IH s1 Hok1 Hops Hl Hsv1) as (rs & s2 & E2 & Hok2 & Hsv2 & Hc2).
  exists (r :: rs), s2. cbn [auth_steps]. rewrite E1. cbn [mbind option_bind]. rewrite E2. split; [done|].
  split; [done|]. split; [done|]. simpl. lia.
Qed.

(** A start on a file that holds the lists [a]. *)
Lemma start_loads path disk a :
  holds_acl path disk a -> (0 < length path < 512)%nat -> Z.of_nat (acl_size a) < 2 ^ 32 ->
  exists s, authstore_load regcomp true path (authstore_new [] disk []) = Some (0, s) /\ auth_ok regcomp s /\ saved path s /\ abs s = a.
Proof.
  intros Hh Hl Hn. assert (Hpath : snprintf_str 512 path = path) by (apply take_ge; lia). pose proof Hh as [[Hd ->]|(s0 & f & Hok & <- & Hf & Hd)].
  - unfold authstore_load. cbn [s_disk authstore_new]. rewrite Hd. eexists. split; [done|].
    split; [split; cbn; try done; constructor|]. split; [|done]. by split.
  - rewrite acl_size_ok in Hn by done. destruct (load_saved s0 f path disk [] Hok) as (s & E & Hok' & Habs & Hp & [= Ed Ei]); [unfold counts_ok; lia | done | done|].
    exists s. split_and!; [done | done | | done]. split_and!; [congruence | done |]. by rewrite Ed, Habs.
Qed.

(** C18: a standalone server that starts on its saved file, or without a file, performs
    any sequence of operations and restarts finds the access-control lists it had: those
    of the file changed by the operations, and the file holds them again.  Memory
    suffices, every save succeeds and the file can be opened; a table has fewer than
    2^32 rows and the path fewer than 512 bytes. *)
Theorem restart_recovers ops path disk a :
  Forall op_ok ops -> (0 < length path < 512)%nat -> holds_acl path disk a -> Z.of_nat (acl_size a + length ops) < 2 ^ 32 ->
  exists s0 rs s1 s2,
    authstore_load regcomp true path (authstore_new [] disk []) = Some (0, s0) /\ abs s0 = a /\ steps ops s0 = Some (rs, s1) /\
    authstore_load regcomp true path (authstore_new [] (s_disk s1) []) = Some (0, s2) /\
    abs s1 = (acl_steps regcomp ops a).2 /\ abs s2 = abs s1 /\ auth_ok regcomp s2 /\ holds_acl path (s_disk s2) (abs s2) /\ s_persist_path s2 = path.
Proof.
  intros Hops Hl Hd Hn. destruct (start_loads path disk a Hd Hl ltac:(lia)) as (s0 & Hload & Hok0 & Hsv0 & Habs0).
  destruct (saved_steps path ops s0 Hok0 Hops Hl Hsv0) as (rs & s1 & Hsteps & Hok1 & (_ & _ & Hh1) & Hc1). rewrite Habs0 in Hc1.
  destruct (steps_spec regcomp ops s0 Hok0 Hops) as (s1' & Hsteps' & _ & Habs1). rewrite Hsteps in Hsteps'. injection Hsteps' as _ <-. rewrite Habs0 in Habs1.
  destruct (start_loads path (s_disk s1) (abs s1) Hh1 Hl ltac:(lia)) as (s2 & Hload2 & Hok2 & (Hp2 & _ & Hh2) & Habs2).
  exists s0, rs, s1, s2. by split_and!.
Qed.

(** * Damaged files *)

(** A reader that succeeds does the same when the file is longer. *)
Definition extends (row : authstore -> bytes -> option (authstore * option bytes)) : Prop :=
  forall s f s' r g, row s f = Some (s', Some r) -> row s (f ++ g) = Some (s', Some (r ++ g)).

Lemma get_u32_app f v r g : get_u32 f = Some (v, r) -> get_u32 (f ++ g) = Some (v, r ++ g).
Proof.
  unfold get_u32. destruct (Nat.ltb_spec (length f) 4); [done|]. intros [= <- <-].
  rewrite (proj2 (Nat.ltb_ge _ _)) by (rewrite length_app; lia). by rewrite take_app_le, drop_app_le by lia.
Qed.

Lemma get_str_app n f v r g : get_str n f = Some (v, r) -> get_str n (f ++ g) = Some (v, r ++ g).
Proof.
  unfold get_str. destruct (Nat.ltb_spec (length f) 2); [done|]. rewrite (proj2 (Nat.ltb_ge (length (f ++ g)) 2)) by (rewrite length_app; lia).
  rewrite take_app_le, drop_app_le by lia. set (k := Z.to_nat _). destruct (n <=? k)%nat; [done|].
  destruct (Nat.ltb_spec (length (drop 2 f)) k); [done|]. rewrite (proj2 (Nat.ltb_ge (length (drop 2 f ++ g)) k)) by (rewrite length_app; lia).
  intros [= <- <-]. by rewrite take_app_le, drop_app_le by lia.
Qed.

Lemma load_vhost_extends : extends load_vhost.
Proof.
  intros s f s' r g. unfold load_vhost. destruct (get_str _ f) as [[v f1]|] eqn:E; [|done]. rewrite (get_str_app _ _ _ _ g E).
  destruct (authstore_add_vhost v s) as [[? ?]|]; cbn [mbind option_bind]; [|done]. by intros [= <- <-].
Qed.

Ltac read_field g :=
  let E := fresh "E" in
  match goal with
  | |- context [get_str ?n ?f] => destruct (get_str n f) as [[? ?]|] eqn:E; [rewrite (get_str_app _ _ _ _ g E) | done]
  | |- context [get_u32 ?f] => destruct (get_u32 f) as [[? ?]|] eqn:E; [rewrite (get_u32_app _ _ _ g E) | done]
  end; cbn [mbind option_bind].

Lemma load_user_extends : extends load_user.
Proof.
  intros s f s' r g. unfold load_user. do 3 read_field g.
  destruct (authstore_add_user _ _ _ s) as [[? ?]|]; cbn [mbind option_bind]; [|done]. by intros [= <- <-].
Qed.

Lemma load_perm_extends : extends (load_perm regcomp).
Proof.
  intros s f s' r g. unfold load_perm. do 5 read_field g.
  destruct (authstore_set_perm _ _ _ _ _ _ s) as [[? ?]|]; cbn [mbind option_bind]; [|done]. by intros [= <- <-].
Qed.

Lemma load_section_extends row s f s' r g :
  extends row -> load_section row (s, Some f) = Some (s', Some r) -> load_section row (s, Some (f ++ g)) = Some (s', Some (r ++ g)).
Proof.
  intros Hrow. unfold load_section. destruct (get_u32 f) as [[n f1]|] eqn:E; [|done]. rewrite (get_u32_app _ _ _ g E).
  generalize (Z.to_nat n). clear E. intros k. revert s f1. induction k as [|k IH]; intros s f1; cbn [load_rows]; [by intros [= <- <-]|].
  destruct (row s f1) as [[s1 [f2|]]|] eqn:E; cbn [mbind option_bind]; [|done..]. rewrite (Hrow _ _ _ _ g E). apply IH.
Qed.

Lemma load_body_extends : extends (load_body regcomp).
Proof.
  intros s f s' r g. unfold load_body.
  destruct (load_section load_vhost (s, Some f)) as [[s1 [f1|]]|] eqn:E1; cbn [mbind option_bind]; [|done..].
  rewrite (load_section_extends _ _ _ _ _ g load_vhost_extends E1). cbn [mbind option_bind].
  destruct (load_section load_user (s1, Some f1)) as [[s2 [f2|]]|] eqn:E2; cbn [mbind option_bind]; [|done..].
  rewrite (load_section_extends _ _ _ _ _ g load_user_extends E2). cbn [mbind option_bind]. intros E3.
  by apply (load_section_extends _ _ _ _ _ g load_perm_extends).
Qed.

Lemma load_header_extends f boot r g : load_header f = Some (boot, r) -> load_header (f ++ g) = Some (boot, r ++ g).
Proof.
  unfold load_header. read_field g. case_match; [done|]. read_field g. case_match; [done|]. apply get_u32_app.
Qed.

(** ** Loading always ends *)

Definition total (row : authstore -> bytes -> option (authstore * option bytes)) : Prop :=
  forall s f, calm s -> exists s' r, row s f = Some (s', r) /\ calm s'.

Lemma load_rows_total row n : total row -> total (load_rows row n).
Proof.
  intros Hrow. induction n as [|n IH]; intros s f Hs; cbn [load_rows]; [by exists s, (Some f)|].
  destruct (Hrow s f Hs) as (s1 & r & -> & Hs1). cbn [mbind option_bind]. destruct r as [r|]; [by apply IH | by exists s1, None].
Qed.

Lemma load_section_total row s r : total row -> calm s -> exists s' r', load_section row (s, r) = Some (s', r') /\ calm s'.
Proof.
  intros Hrow Hs. destruct r as [f|]; cbn; [|by exists s, None]. destruct (get_u32 f) as [[n f1]|]; [|by exists s, None].
  by apply load_rows_total.
Qed.

Lemma load_vhost_total : total load_vhost.
Proof.
  intros s f Hs. unfold load_vhost. destruct (get_str _ f) as [[v f1]|]; [|by exists s, None].
  destruct (calm_step (op_add_vhost v) s Hs) as (r & s' & E & Hs' & _). cbn [auth_step] in E. rewrite E. by exists s', (Some f1).
Qed.

Lemma load_user_total : total load_user.
Proof.
  intros s f Hs. unfold load_user.
  match goal with |- context [match ?x with _ => _ end] => destruct x as [[[[u h] tags] f1]|] end; [|by exists s, None].
  destruct (calm_step (op_add_user u h tags) s Hs) as (r & s' & E1 & Hs' & _). cbn [auth_step] in E1. rewrite E1. by exists s', (Some f1).
Qed.

Lemma load_perm_total : total (load_perm regcomp).
Proof.
  intros s f Hs. unfold load_perm.
  match goal with |- context [match ?x with _ => _ end] => destruct x as [[[[[[u v] c] w] rd] f1]|] end; [|by exists s, None].
  destruct (calm_step (op_set_perm u v c w rd) s Hs) as (r & s' & E1 & Hs' & _). cbn [auth_step] in E1. rewrite E1. by exists s', (Some f1).
Qed.

Lemma load_body_total : total (load_body regcomp).
Proof.
  intros s f Hs. unfold load_body. destruct (load_section_total _ s (Some f) load_vhost_total Hs) as (s1 & r1 & -> & H1). cbn [mbind option_bind].
  destruct (load_section_total _ s1 r1 load_user_total H1) as (s2 & r2 & -> & H2). cbn [mbind option_bind].
  by apply load_section_total; [apply load_perm_total|].
Qed.

(** C36: a file cut off anywhere is rejected: loading it into a fresh store ends
    with -1 and leaves saving off, so the damaged file is not overwritten. *)
Theorem truncated_rejected s f n path disk io :
  auth_ok regcomp s -> counts_ok s -> serialize s = Some f -> (n < length f)%nat -> disk !! path = Some (take n f) ->
  exists s', authstore_load regcomp true path (authstore_new [] disk io) = Some (-1, s') /\ s_persist_path s' = [].
Proof.
  intros Hok Hc Hf Hn Hd. unfold authstore_load. cbn [s_disk authstore_new]. rewrite Hd.
  destruct (load_header (take n f)) as [[boot f1]|] eqn:Eh; [|by eexists].
  set (s0 := authstore_new [] disk io). destruct (load_body_total s0 f1) as (s1 & r & Hb & Hs1); [done|].
  rewrite Hb. cbn [mbind option_bind]. destruct r as [r|]; [|exists s1; split; [done | apply Hs1]]. exfalso.
  destruct (serialize_load s f Hok Hc Hf) as (body & Hh & Hbody).
  pose proof (load_header_extends _ _ _ (drop n f) Eh) as Eh2. rewrite take_drop, Hh in Eh2. injection Eh2 as _ ->.
  pose proof (load_body_extends _ _ _ _ (drop n f) Hb) as Hb2. rewrite Hbody in Hb2.
  destruct (steps (dump s) s0) as [[rs s2]|]; cbn [mbind option_bind] in Hb2; [|done]. injection Hb2 as _ Hb2.
  symmetry in Hb2. apply app_eq_nil in Hb2 as [_ Hb2]. apply (f_equal length) in Hb2. rewrite length_drop in Hb2. simpl in Hb2. lia.
Qed.
End Regex.

(** * A failed allocation *)

(** When the table of virtual hosts cannot grow, [authstore_add_vhost] returns
    without releasing the write lock, and from then on every query and every
    operation that does not reject its arguments waits for ever. *)
Theorem failed_grow_wedges regcomp regexec v s o :
  s_locked s = false -> malloc (s_oracle s) = (false, o) -> length (s_vhosts s) = s_cv s ->
  fits AUTHSTORE_NAME_MAX v = true -> v ∉ s_vhosts s ->
  exists s', authstore_add_vhost v s = Some (-1, s') /\
    (forall op, auth_step regcomp op s' = None \/ auth_step regcomp op s' = Some (-1, s')) /\
    authstore_is_open s' = None /\ (forall o u p, authstore_verify o s' u p = None) /\
    (forall v, authstore_vhost_exists s' v = None) /\
    (forall u v kind object, authstore_check regexec s' u v kind object = None).
Proof.
  intros Hl Hm Hc Hv Hnew. unfold authstore_add_vhost. rewrite fits_too_long, Hv. cbn [negb].
  rewrite wrlock_ok by done. cbn [mbind option_bind].
  destruct (find_vhost _ v) as [i|] eqn:Ei.
  { apply find_key_Some in Ei as (x & Hx%list_elem_of_lookup_2 & <-). by destruct Hnew. }
  unfold GROW. cbn. rewrite Hc, Nat.eqb_refl, Hm.
  eexists. split; [done|]. split; [|done].
  intros op. destruct op; cbn [auth_step];
    unfold authstore_add_vhost, authstore_del_vhost, authstore_add_user, authstore_del_user, authstore_set_perm, authstore_clear_perm;
    try case_match; auto.
Qed.

Lemma failed_grow_wedges_witness :
  exists s', authstore_add_vhost (cstr "/") (authstore_new [false] ∅ []) = Some (-1, s') /\ authstore_is_open s' = None.
Proof.
  destruct (failed_grow_wedges demo_regcomp demo_regexec (cstr "/") (authstore_new [false] ∅ []) [])
    as (s' & H1 & _ & H2 & _); [reflexivity | reflexivity | reflexivity | reflexivity | apply not_elem_of_nil |].
  exists s'. split; [exact H1 | exact H2].
Defined.

(** * Instances *)

Lemma restart_recovers_witness :
  exists s0 rs s1 s2,
    authstore_load demo_regcomp true (cstr "db") (authstore_new [] ∅ []) = Some (0, s0) /\
    auth_steps demo_regcomp demo_ops s0 = Some (rs, s1) /\
    authstore_load demo_regcomp true (cstr "db") (authstore_new [] (s_disk s1) []) = Some (0, s2) /\ abs s2 = abs s1.
Proof.
  destruct (restart_recovers demo_regcomp demo_ops (cstr "db") ∅ (Acl ∅ ∅ ∅ false)) as (s0 & rs & s1 & s2 & H1 & _ & H2 & H3 & _ & H4 & _);
    [exact demo_ops_ok | cbn; lia | left; split; reflexivity | reflexivity |].
  exists s0, rs, s1, s2. split; [exact H1|]. split; [exact H2|]. split; [exact H3 | exact H4].
Defined.

(** A store with one administrator, saved at "db". *)
Definition demo_saved : option (list Z * authstore) :=
  '(_, s) ← authstore_load demo_regcomp true (cstr "db") (authstore_new [] ∅ []); auth_steps demo_regcomp demo_ops s.

Definition demo_file : bytes := default [] ('(_, s) ← demo_saved; s_disk s !! cstr "db").

Lemma demo_serialized : exists s, auth_ok demo_regcomp s /\ counts_ok s /\ serialize s = Some demo_file.
Proof.
  destruct (start_loads demo_regcomp (cstr "db") ∅ (Acl ∅ ∅ ∅ false)) as (s0 & Hload & Hok0 & _); [left; split; reflexivity | cbn; lia | reflexivity|].
  destruct (steps_spec demo_regcomp demo_ops s0 Hok0 demo_ops_ok) as (s & Hs & Hok & _). exists s. split; [exact Hok|].
  assert (E : demo_saved = Some ((acl_steps demo_regcomp demo_ops (abs s0)).1, s)) by (unfold demo_saved; rewrite Hload; exact Hs).
  unfold demo_file. clear Hok Hs. apply (f_equal (fmap snd)) in E. cbn [fmap option_fmap option_map snd] in E.
  vm_compute in E. injection E as <-. split; [|vm_compute; reflexivity]. unfold counts_ok. cbn. lia.
Qed.

Lemma truncated_rejected_witness :
  exists s', authstore_load demo_regcomp true (cstr "db") (authstore_new [] {[cstr "db" := take 30 demo_file]} []) = Some (-1, s') /\
             s_persist_path s' = [].
Proof.
  destruct demo_serialized as (s & Hok & Hc & Hf).
  apply (truncated_rejected demo_regcomp s demo_file 30 (cstr "db")); [exact Hok | exact Hc | exact Hf | | ].
  - apply Nat.ltb_lt. vm_compute. reflexivity.
  - apply lookup_singleton_eq.
Defined.

(** Loading a file that is cut off after its virtual hosts keeps them, although
    the function reports an error and documents that the store is left as it was,
    and forgets the bootstrap flag: the store with an administrator, which was
    closed, is open to unauthenticated bootstrap after the restart. *)
Example truncated_file_reopens :
  exists rs s s',
    demo_saved = Some (rs, s) /\ authstore_is_open s = Some false /\
    authstore_load demo_regcomp true (cstr "db") (authstore_new [] {[cstr "db" := take 20 demo_file]} []) = Some (-1, s') /\
    s_vhosts s' = [cstr "/"] /\ authstore_is_open s' = Some true.
Proof. vm_compute. eexists _, _, _. split; [reflexivity|]. split; [reflexivity|]. split; [reflexivity|]. split; reflexivity. Qed.

(** A permission with an empty pattern is marked compiled although no
    expression was compiled for that pattern, so clearing it calls [regfree] on a
    [regex_t] that [regcomp] never filled, which POSIX leaves undefined. *)
Example empty_pattern_regfree :
  exists rs s, auth_steps demo_regcomp [op_set_perm (cstr "ann") (cstr "/") (cstr "q") (cstr "q") [];
                                        op_clear_perm (cstr "ann") (cstr "/")] (authstore_new [] ∅ []) = Some (rs, s) /\
               s_perms s = [] /\ s_misused s = 1%nat.
Proof. vm_compute. eexists _, _. split; [reflexivity|]. split; reflexivity. Qed.

(** A file that is there but cannot be opened counts as no file: the store with an
    administrator is open to unauthenticated bootstrap, and the next operation replaces
    the file. *)
Example unreadable_file_reopens :
  exists rs s s' s2,
    demo_saved = Some (rs, s) /\ authstore_is_open s = Some false /\
    authstore_load demo_regcomp false (cstr "db") (authstore_new [] (s_disk s) []) = Some (0, s') /\ authstore_is_open s' = Some true /\
    auth_step demo_regcomp (op_add_vhost (cstr "x")) s' = Some (0, s2) /\ s_disk s2 !! cstr "db" <> s_disk s !! cstr "db".
Proof.
  vm_compute. eexists _, _, _, _. split; [reflexivity|]. split; [reflexivity|]. split; [reflexivity|]. split; [reflexivity|]. split; [reflexivity|]. discriminate.
Qed.
