(* ===== verification/CFloat.v ===== *)
(** [strtod] of the C library, on IEEE double precision. *)

From Stdlib Require Import SpecFloat.
From S2P Require Import Prelude CLib.

Abbreviation double := spec_float.

Definition double_of (neg : bool) (m e : Z) : double :=
  match m with
  | Zpos p => binary_round 53 1024 neg p e
  | _ => S754_zero neg
  end.

(** [m * 10^e], rounded to nearest. *)
Definition decimal_double (neg : bool) (m e : Z) : double :=
  match m, 10 ^ (- e) with
  | Zpos p, Zpos q => if 0 <=? e then double_of neg (m * 10 ^ e) 0
                      else SFdiv 53 1024 (S754_finite neg p 0) (S754_finite false q 0)
  | Zpos _, _ => double_of neg (m * 10 ^ e) 0
  | _, _ => S754_zero neg
  end.

Definition dec_digit (c : Z) : option Z := if isdigit c then Some (c - 48) else None.

Definition hex_digit_value (c : Z) : option Z :=
  if isdigit c then Some (c - 48)
  else let c := tolower c in if (97 <=? c) && (c <=? 102) then Some (c - 87) else None.

(** The digits of a mantissa with at most one point: whether there is a digit, the
    value without the point, the number of digits after the point, the rest. *)
Fixpoint mantissa (base : Z) (digit : Z -> option Z) (dot seen : bool) (m scale : Z) (s : bytes) : bool * Z * Z * bytes :=
  match s with
  | c :: s' =>
      match digit c with
      | Some d => mantissa base digit dot true (m * base + d) (if dot then scale + 1 else scale) s'
      | None => if (c =? 46) && negb dot then mantissa base digit true seen m scale s' else (seen, m, scale, s)
      end
  | [] => (seen, m, scale, s)
  end.

(** An exponent after the letter [e] (in lower case): 0 and no advance when there
    is none. *)
Definition exponent (letter : Z) (s : bytes) : Z * bytes :=
  match s with
  | c :: s' =>
      if tolower c =? letter then
        let '(neg, s'') := match s' with 45 :: x => (true, x) | 43 :: x => (false, x) | _ => (false, s') end in
        match s'' with
        | d :: _ => if isdigit d then let '(v, rest) := read_digits 0 s'' in (if neg then - v else v, rest) else (0, s)
        | [] => (0, s)
        end
      else (0, s)
  | [] => (0, s)
  end.

(** A case-insensitive prefix. *)
Definition strip_word (w s : bytes) : option bytes :=
  if bool_decide (tolower <$> take (length w) s = w) then Some (drop (length w) s) else None.

Definition isword (c : Z) : bool :=
  isdigit c || ((97 <=? tolower c) && (tolower c <=? 122)) || (c =? 95).

(** "nan" may be followed by characters in parentheses. *)
Definition nan_suffix (s : bytes) : bytes :=
  match s with
  | 40 :: s' =>
      match strchr 41 s' with
      | Some (inner, rest) => if forallb isword inner then rest else s
      | None => s
      end
  | _ => s
  end.

(** What follows "0x", when there is a digit. *)
Definition hex_float (neg : bool) (s : bytes) : option (double * bytes) :=
  match mantissa 16 hex_digit_value false false 0 0 s with
  | (true, m, scale, rest) => let '(e, rest) := exponent 112 rest in Some (double_of neg m (e - 4 * scale), rest)
  | _ => None
  end.

Definition dec_float (neg : bool) (s : bytes) : option (double * bytes) :=
  match mantissa 10 dec_digit false false 0 0 s with
  | (true, m, scale, rest) => let '(e, rest) := exponent 101 rest in Some (decimal_double neg m (e - scale), rest)
  | _ => None
  end.

(** [strtod(s, &end)]: the value and the rest at [end]. *)
Definition strtod (s : bytes) : double * bytes :=
  let s1 := skip_spaces s in
  let '(neg, s2) := match s1 with 45 :: x => (true, x) | 43 :: x => (false, x) | _ => (false, s1) end in
  let number :=
    match strip_word (cstr "infinity") s2, strip_word (cstr "inf") s2, strip_word (cstr "nan") s2 with
    | Some rest, _, _ | None, Some rest, _ => Some (S754_infinity neg, rest)
    | None, None, Some rest => Some (S754_nan, nan_suffix rest)
    | None, None, None =>
        match strip_word (cstr "0x") s2 ≫= hex_float neg with
        | Some r => Some r
        | None => dec_float neg s2
        end
    end in
  default (S754_zero false, s) number.

Definition d_zero : double := S754_zero false.
Definition d_one : double := double_of false 1 0.

Example strtod_samples :
  strtod (cstr "0.4") = (S754_finite false 7205759403792794 (-54), []) /\
  strtod (cstr " 1e-1x") = (S754_finite false 7205759403792794 (-56), cstr "x") /\
  strtod (cstr "0x1.8p1") = (S754_finite false 6755399441055744 (-51), []) /\
  strtod (cstr "-INF") = (S754_infinity true, []) /\
  strtod (cstr "nan(a1)") = (S754_nan, []) /\
  strtod (cstr ".e1") = (S754_zero false, cstr ".e1").
Proof. repeat split; vm_compute; reflexivity. Qed.
