(* ===== verification/Config.v ===== *)
(** Configuration: src/src/config.c.

    Settings come from the defaults, the lines of a file and the environment, in
    this order.  Files, the environment, the path of the executable and the number
    of cores are arguments.  The second component of the result of [apply_kv] says that a
    warning was logged; the text of the warning is not modelled. *)

From Stdlib Require Import SpecFloat.
From S2P Require Import Prelude CLib CFloat.

(** * State *)

Definition BEAVER_MAX_THREADS : Z := 64.
Definition BEAVER_MAX_CLUSTER_NODES : Z := 5.

Inductive log_level_t := LOG_LEVEL_DEBUG | LOG_LEVEL_INFO | LOG_LEVEL_WARN | LOG_LEVEL_ERROR | LOG_LEVEL_FATAL | LOG_LEVEL_NONE.

Record beaver_config_t := Config {
  c_threads : Z; c_amqp_port : Z; c_http_port : Z; c_bind_addr : bytes; c_log_level : log_level_t; c_web_root : bytes;
  c_max_connections : Z; c_max_message_size : Z; c_http_max_body_bytes : Z; c_http_max_connections : Z;
  c_http_request_timeout_ms : Z; c_queue_max_length : Z; c_queue_max_bytes : Z; c_memory_high_watermark : double;
  c_cluster_enabled : bool; c_cluster_explicit : bool; c_node_id : Z; c_cluster_nnodes : Z; c_cluster_nodes : list bytes;
  c_data_dir : bytes; c_election_timeout_ms : Z; c_heartbeat_ms : Z; c_cluster_secret : bytes; c_cluster_durable_commit : bool;
}.

#[global] Instance config_settable : Settable beaver_config_t := fun c =>
  Config (c_threads c) (c_amqp_port c) (c_http_port c) (c_bind_addr c) (c_log_level c) (c_web_root c)
    (c_max_connections c) (c_max_message_size c) (c_http_max_body_bytes c) (c_http_max_connections c)
    (c_http_request_timeout_ms c) (c_queue_max_length c) (c_queue_max_bytes c) (c_memory_high_watermark c)
    (c_cluster_enabled c) (c_cluster_explicit c) (c_node_id c) (c_cluster_nnodes c) (c_cluster_nodes c)
    (c_data_dir c) (c_election_timeout_ms c) (c_heartbeat_ms c) (c_cluster_secret c) (c_cluster_durable_commit c).

Definition config_defaults : beaver_config_t :=
  Config 0 5672 15672 (cstr "127.0.0.1") LOG_LEVEL_INFO [] 0 (16 * 1024 * 1024) (16 * 1024 * 1024) 512 30000 0 0
    (decimal_double false 4 (-1)) false false 0 0 (replicate 5 []) [] 0 0 [] true.

(** * Values *)

(** [trim]: without the white space at both ends. *)
Definition trim (s : bytes) : bytes := rev (skip_spaces (rev (skip_spaces s))).

Definition parse_log_level (v : bytes) : option log_level_t :=
  if strcasecmp_eq v (cstr "debug") then Some LOG_LEVEL_DEBUG
  else if strcasecmp_eq v (cstr "info") then Some LOG_LEVEL_INFO
  else if strcasecmp_eq v (cstr "warn") || strcasecmp_eq v (cstr "warning") then Some LOG_LEVEL_WARN
  else if strcasecmp_eq v (cstr "error") then Some LOG_LEVEL_ERROR
  else None.

Definition parse_threads (v : bytes) : option Z :=
  if strcasecmp_eq v (cstr "auto") then Some 0
  else
    let '(n, rest, _) := strtol v in
    if negb (length rest =? 0)%nat || (n <? 0) || (BEAVER_MAX_THREADS <? n) then None else Some n.

(** [end == v]: nothing was read. *)
Definition unread (rest v : bytes) : bool := (length rest =? length v)%nat.

Definition parse_int (v : bytes) (minv maxv : Z) : option Z :=
  let '(n, rest, err) := strtol v in
  if unread rest v || negb (length rest =? 0)%nat || err || (n <? minv) || (maxv <? n) then None else Some n.

Definition parse_size (v : bytes) : option Z :=
  let '(n, rest, _) := strtoul v in
  if unread rest v then None
  else
    let '(n, rest) := match rest with
                      | c :: rest' =>
                          if (c =? 107) || (c =? 75) then (u64 (n * 1024), rest')
                          else if (c =? 109) || (c =? 77) then (u64 (n * (1024 * 1024)), rest')
                          else (n, rest)
                      | [] => (n, rest)
                      end in
    if negb (length rest =? 0)%nat || (0xFFFFFFFF <? n) then None else Some (u32 n).

Definition parse_bool (v : bytes) : option bool :=
  if strcasecmp_eq v (cstr "on") || strcasecmp_eq v (cstr "true") || strcasecmp_eq v (cstr "yes") || bool_decide (v = cstr "1")
  then Some true
  else if strcasecmp_eq v (cstr "off") || strcasecmp_eq v (cstr "false") || strcasecmp_eq v (cstr "no") || bool_decide (v = cstr "0")
  then Some false
  else None.

(** The value of queue_max_length. *)
Definition parse_u64 (v : bytes) : option Z :=
  let '(n, rest, err) := strtoul v in
  if unread rest v || negb (length rest =? 0)%nat || err then None else Some n.

(** The value of memory_high_watermark. *)
Definition parse_fraction (v : bytes) : option double :=
  let '(x, rest) := strtod v in
  if unread rest v || negb (length rest =? 0)%nat || SFltb x d_zero || SFltb d_one x then None else Some x.

(** ** The list of cluster nodes *)

(** [strtok_r] with the separator ",". *)
Fixpoint tokens (cur : bytes) (s : bytes) : list bytes :=
  let flush rest := if (length cur =? 0)%nat then rest else rev cur :: rest in
  match s with
  | [] => flush []
  | c :: s => if c =? 44 then flush (tokens [] s) else tokens (c :: cur) s
  end.

Fixpoint skip_blanks (s : bytes) : bytes :=
  match s with
  | c :: s' => if (c =? 32) || (c =? 9) then skip_blanks s' else s
  | [] => []
  end.

(** The loop over the tokens, with the number of nodes stored so far and whether a
    warning was logged. *)
Fixpoint node_loop (toks : list bytes) (nodes : list bytes) (n : nat) (warned : bool) : list bytes * nat * bool :=
  match toks with
  | [] => (nodes, n, warned)
  | tok :: toks =>
      let tok := skip_blanks tok in
      if (length tok =? 0)%nat then node_loop toks nodes n warned
      else if BEAVER_MAX_CLUSTER_NODES <=? Z.of_nat n then (nodes, n, true)
      else if negb (existsb (Z.eqb 58) tok) then node_loop toks nodes n true
      else node_loop toks (<[n := snprintf_str 72 tok]> nodes) (S n) warned
  end.

Definition parse_cluster_nodes (c : beaver_config_t) (val : bytes) : beaver_config_t * bool :=
  let buf := snprintf_str (5 * 72) val in
  let '(nodes, n, warned) := node_loop (tokens [] buf) (c_cluster_nodes c) 0 false in
  let c := c <| c_cluster_nodes := nodes |> <| c_cluster_nnodes := Z.of_nat n |> in
  (if c_cluster_explicit c then c else c <| c_cluster_enabled := (0 <? n)%nat |>, warned).

(** * Settings *)

(** A parsed value is stored; a value that does not parse is a warning. *)
Definition store {A} (c : beaver_config_t) (v : option A) (set : A -> beaver_config_t) : beaver_config_t * bool :=
  match v with
  | Some x => (set x, false)
  | None => (c, true)
  end.

Definition apply_kv (c : beaver_config_t) (key val : bytes) : beaver_config_t * bool :=
  let key_is s := bool_decide (key = cstr s) in
  if key_is "threads" then store c (parse_threads val) (fun v => c <| c_threads := v |>)
  else if key_is "amqp_port" then store c (parse_int val 1 65535) (fun v => c <| c_amqp_port := v |>)
  else if key_is "http_port" then store c (parse_int val 1 65535) (fun v => c <| c_http_port := v |>)
  else if key_is "bind" || key_is "bind_addr" then (c <| c_bind_addr := snprintf_str 64 val |>, false)
  else if key_is "log_level" then store c (parse_log_level val) (fun v => c <| c_log_level := v |>)
  else if key_is "web_root" then (c <| c_web_root := snprintf_str 512 val |>, false)
  else if key_is "max_connections" then store c (parse_int val 0 10000000) (fun v => c <| c_max_connections := v |>)
  else if key_is "max_message_size" then store c (parse_size val) (fun v => c <| c_max_message_size := v |>)
  else if key_is "http_max_body_bytes" then store c (parse_size val) (fun v => c <| c_http_max_body_bytes := v |>)
  else if key_is "http_max_connections" then store c (parse_int val 0 10000000) (fun v => c <| c_http_max_connections := v |>)
  else if key_is "http_request_timeout_ms" then store c (parse_int val 1000 600000) (fun v => c <| c_http_request_timeout_ms := u32 v |>)
  else if key_is "queue_max_length" then store c (parse_u64 val) (fun v => c <| c_queue_max_length := v |>)
  else if key_is "queue_max_bytes" then store c (parse_size val) (fun v => c <| c_queue_max_bytes := v |>)
  else if key_is "memory_high_watermark" then store c (parse_fraction val) (fun v => c <| c_memory_high_watermark := v |>)
  else if key_is "cluster" then store c (parse_bool val) (fun v => c <| c_cluster_enabled := v |> <| c_cluster_explicit := true |>)
  else if key_is "node_id" then store c (parse_int val 0 (BEAVER_MAX_CLUSTER_NODES - 1)) (fun v => c <| c_node_id := v |>)
  else if key_is "cluster_nodes" then parse_cluster_nodes c val
  else if key_is "data_dir" then (c <| c_data_dir := snprintf_str 256 val |>, false)
  else if key_is "election_timeout_ms" then store c (parse_int val 0 600000) (fun v => c <| c_election_timeout_ms := v |>)
  else if key_is "heartbeat_ms" then store c (parse_int val 0 600000) (fun v => c <| c_heartbeat_ms := v |>)
  else if key_is "cluster_secret" then (c <| c_cluster_secret := snprintf_str 128 val |>, false)
  else if key_is "cluster_sync_policy" then
    (if strcasecmp_eq val (cstr "durable") then (c <| c_cluster_durable_commit := true |>, false)
     else if strcasecmp_eq val (cstr "fast") then (c <| c_cluster_durable_commit := false |>, false)
     else (c, true))
  else (c, true).

(** ** The file *)

(** [fgets]: up to [n] characters, through the first newline. *)
Fixpoint fgets (n : nat) (s : bytes) : bytes * bytes :=
  match n, s with
  | S n, c :: s => if c =? 10 then ([c], s) else let '(l, rest) := fgets n s in (c :: l, rest)
  | _, _ => ([], s)
  end.

(** The key and the value of one line as read, when it has them. *)
Definition line_kv (line : bytes) : option (bytes * bytes) :=
  let line := c_string line in
  let line := match strchr 35 line with Some (before, _) => before | None => line end in
  let s := trim line in
  if (length s =? 0)%nat then None
  else
    match strchr 61 s with
    | None => None
    | Some (k, v) => Some (trim k, trim v)
    end.

Definition load_line (c : beaver_config_t) (line : bytes) : beaver_config_t :=
  match line_kv line with
  | Some (k, v) => fst (apply_kv c k v)
  | None => c
  end.

(** The loop; [fuel] counts the lines. *)
Fixpoint load_lines (fuel : nat) (c : beaver_config_t) (f : bytes) : beaver_config_t :=
  match fuel, f with
  | S fuel, _ :: _ => let '(line, rest) := fgets 1023 f in load_lines fuel (load_line c line) rest
  | _, _ => c
  end.

(** [file] is the contents of the file at [path], if it can be opened. *)
Definition config_load_file (c : beaver_config_t) (file : option bytes) : Z * beaver_config_t :=
  match file with
  | None => (-1, c)
  | Some f => (0, load_lines (length f) c f)
  end.

(** ** The environment *)

Definition ENV_KEYS : list (bytes * bytes) :=
  [(cstr "BEAVERMQ_THREADS", cstr "threads"); (cstr "BEAVERMQ_AMQP_PORT", cstr "amqp_port");
   (cstr "BEAVERMQ_HTTP_PORT", cstr "http_port"); (cstr "BEAVERMQ_BIND", cstr "bind");
   (cstr "BEAVERMQ_LOG_LEVEL", cstr "log_level"); (cstr "BEAVERMQ_WEB_ROOT", cstr "web_root");
   (cstr "BEAVERMQ_MAX_CONNECTIONS", cstr "max_connections"); (cstr "BEAVERMQ_MAX_MESSAGE_SIZE", cstr "max_message_size");
   (cstr "BEAVERMQ_CLUSTER", cstr "cluster"); (cstr "BEAVERMQ_NODE_ID", cstr "node_id");
   (cstr "BEAVERMQ_CLUSTER_NODES", cstr "cluster_nodes"); (cstr "BEAVERMQ_DATA_DIR", cstr "data_dir");
   (cstr "BEAVERMQ_CLUSTER_SECRET", cstr "cluster_secret"); (cstr "BEAVERMQ_CLUSTER_SYNC_POLICY", cstr "cluster_sync_policy")].

Definition config_apply_env (getenv : bytes -> option bytes) (c : beaver_config_t) : beaver_config_t :=
  foldl (fun c '(var, key) => match getenv var with Some v => fst (apply_kv c key v) | None => c end) c ENV_KEYS.

(** [uv_available_parallelism] is an [unsigned int]; the cast to [int] wraps. *)
Definition config_resolve_threads (cores : Z) (c : beaver_config_t) : beaver_config_t :=
  let t := if c_threads c <=? 0 then (if cores <? 2 ^ 31 then cores else cores - 2 ^ 32) else c_threads c in
  let t := if t <? 1 then 1 else t in
  c <| c_threads := if BEAVER_MAX_THREADS <? t then BEAVER_MAX_THREADS else t |>.

(** ** Finding the file *)

(** [strrchr(path, '/')]: the part before the last slash. *)
Definition dirname (path : bytes) : option bytes :=
  match strchr 47 (rev path) with
  | Some (_, before) => Some (rev before)
  | None => None
  end.

(** [link] is the target of /proc/self/exe. *)
Definition config_executable_dir (link : option bytes) (outsz : nat) : option bytes :=
  path ← take 4095 <$> link;
  if (length path =? 0)%nat then None
  else
    dir ← dirname path;
    if (outsz <=? length dir)%nat then None else Some dir.

(** The first readable candidate; the last ones are built in a buffer of 512. *)
Definition config_find_file (readable : bytes -> bool) (getenv : bytes -> option bytes) (link : option bytes)
    (outsz : nat) (cli : option bytes) : option bytes :=
  let try p next := if readable p then Some (snprintf_str outsz p) else next in
  let local :=
    try (cstr "beavermq.conf")
      (match config_executable_dir link 256 with
       | Some dir =>
           try (snprintf_str 512 (dir ++ cstr "/beavermq.conf")) (try (snprintf_str 512 (dir ++ cstr "/../beavermq.conf")) None)
       | None => None
       end) in
  let env := match getenv (cstr "BEAVERMQ_CONF") with Some e => try e local | None => local end in
  match cli with Some p => try p env | None => env end.
