(* ===== verification/ConfigSpec.v ===== *)
(** The configuration a server starts with: its ranges, which setting wins, and the
    file format. *)

From Stdlib Require Import SpecFloat.
From S2P Require Import Prelude CLib CFloat Config.

(** * Start-up *)

(** The keys and values of the lines of a file, in order. *)
Fixpoint file_kvs (fuel : nat) (f : bytes) : list (bytes * bytes) :=
  match fuel, f with
  | S fuel, _ :: _ => let '(line, rest) := fgets 1023 f in
                      match line_kv line with Some kv => kv :: file_kvs fuel rest | None => file_kvs fuel rest end
  | _, _ => []
  end.

Definition env_kvs (getenv : bytes -> option bytes) : list (bytes * bytes) :=
  omap (fun '(var, key) => (fun v => (key, v)) <$> getenv var) ENV_KEYS.

(** Every setting of a start, in the order they apply. *)
Definition settings (file : option bytes) (getenv : bytes -> option bytes) : list (bytes * bytes) :=
  match file with Some f => file_kvs (length f) f | None => [] end ++ env_kvs getenv.

Definition apply_all (c : beaver_config_t) (kvs : list (bytes * bytes)) : beaver_config_t :=
  foldl (fun c kv => fst (apply_kv c kv.1 kv.2)) c kvs.

(** The configuration a server starts with. *)
Definition startup (file : option bytes) (getenv : bytes -> option bytes) (cores : Z) : beaver_config_t :=
  config_resolve_threads cores (config_apply_env getenv (config_load_file config_defaults file).2).

Lemma load_lines_all fuel : forall c f, load_lines fuel c f = apply_all c (file_kvs fuel f).
Proof.
  induction fuel as [|fuel IH]; intros c [|x f]; cbn [load_lines file_kvs]; try done.
  destruct (fgets 1023 (x :: f)) as [line rest]. rewrite IH. unfold load_line. by destruct (line_kv line) as [[k v]|].
Qed.

Lemma apply_env_all getenv c : config_apply_env getenv c = apply_all c (env_kvs getenv).
Proof.
  unfold config_apply_env, env_kvs, apply_all. revert c. induction ENV_KEYS as [|[var key] l IH]; intros c; [done|]. csimpl.
  rewrite IH. by destruct (getenv var).
Qed.

Lemma startup_all file getenv cores :
  startup file getenv cores = config_resolve_threads cores (apply_all config_defaults (settings file getenv)).
Proof.
  unfold startup, settings. f_equal. rewrite apply_env_all. unfold apply_all at 2. rewrite foldl_app. fold apply_all.
  destruct file as [f|]; [|done]. cbn [config_load_file snd]. by rewrite load_lines_all.
Qed.

(** ** Ranges *)

Lemma parse_int_range v lo hi n : parse_int v lo hi = Some n -> lo <= n <= hi.
Proof. unfold parse_int. destruct (strtol v) as [[m rest] err]. case_match eqn:E; [done|]. intros [= <-]. reflect_bools. lia. Qed.

Lemma parse_threads_range v n : parse_threads v = Some n -> 0 <= n <= BEAVER_MAX_THREADS.
Proof.
  unfold parse_threads. case_match; [intros [= <-]; unfold BEAVER_MAX_THREADS; lia|].
  destruct (strtol v) as [[m rest] err]. case_match eqn:E; [done|]. intros [= <-]. reflect_bools. lia.
Qed.

Lemma parse_size_range v n : parse_size v = Some n -> 0 <= n < 2 ^ 32.
Proof.
  unfold parse_size. destruct (strtoul v) as [[m rest] err]. case_match; [done|].
  match goal with |- (let '(_, _) := ?x in _) = _ -> _ => destruct x as [m' rest'] end. case_match; [done|].
  intros [= <-]. by apply wrap_range.
Qed.

Lemma read_digits_nonneg s acc : 0 <= acc -> 0 <= (read_digits acc s).1.
Proof.
  revert acc. induction s as [|c s IH]; intros acc Hacc; cbn [read_digits]; [done|].
  destruct (isdigit c) eqn:E; [|done]. apply isdigit_spec in E. apply IH. lia.
Qed.

Lemma strtoul_range v : 0 <= (strtoul v).1.1 < 2 ^ 64.
Proof.
  unfold strtoul. destruct (read_number v) as [[[neg n] rest]|] eqn:E; cbn [fst]; [|lia].
  assert (Hn : 0 <= n).
  { unfold read_number in E. match type of E with (let '(_, _) := ?x in _) = _ => destruct x as [sg s2] end.
    destruct s2 as [|c s2]; [done|]. destruct (isdigit c); [|done]. pose proof (read_digits_nonneg (c :: s2) 0 ltac:(lia)) as H.
    destruct (read_digits 0 (c :: s2)) as [x r]. cbn in H. congruence. }
  unfold ULONG_MAX. destruct (Z.ltb_spec (2 ^ 64 - 1) n); cbn [fst]; [lia|]. destruct neg; [apply wrap_range; lia | lia].
Qed.

Lemma parse_u64_range v n : parse_u64 v = Some n -> 0 <= n < 2 ^ 64.
Proof.
  unfold parse_u64. pose proof (strtoul_range v) as H. destruct (strtoul v) as [[m rest] err]. cbn in H.
  case_match; [done|]. by intros [= <-].
Qed.

(** Between 0.0 and 1.0, or not a number: "nan" passes both tests of the code. *)
Definition fraction_ok (x : double) : Prop := SFleb d_zero x = true /\ SFleb x d_one = true \/ x = S754_nan.

(** On numbers, not to be less is to be at least. *)
Lemma not_below_zero x : SFltb x d_zero = false -> x <> S754_nan -> SFleb d_zero x = true.
Proof. by destruct x as [[]|[]| |[] m e]. Qed.

Lemma not_above_one x : SFltb d_one x = false -> x <> S754_nan -> SFleb x d_one = true.
Proof.
  assert (E : exists m e, d_one = S754_finite false m e) by (vm_compute; eauto). destruct E as (m1 & e1 & ->).
  destruct x as [[]|[]| |[] m e]; try done. unfold SFltb, SFleb, SFcompare. intros H _. rewrite (Z.compare_antisym e1 e).
  destruct (e1 ?= e); simpl in *; try done. change (Pos.compare_cont Eq m1 m) with (m1 ?= m)%positive in H.
  change (Pos.compare_cont Eq m m1) with (m ?= m1)%positive. rewrite (Pos.compare_antisym m1 m). by destruct (m1 ?= m)%positive.
Qed.

Lemma parse_fraction_ok v x : parse_fraction v = Some x -> fraction_ok x.
Proof.
  unfold parse_fraction. destruct (strtod v) as [y rest]. case_match eqn:E; [done|]. intros [= <-]. reflect_bools.
  destruct y as [| | |]; [left; split; [by apply not_below_zero | by apply not_above_one].. | by right | left; split; [by apply not_below_zero | by apply not_above_one]].
Qed.

Lemma snprintf_short n s : (0 < n)%nat -> (length (snprintf_str n s) < n)%nat.
Proof. intros Hn. unfold snprintf_str. rewrite length_take. lia. Qed.

(** ** The invariant *)

Record config_ok (c : beaver_config_t) : Prop := {
  ok_threads : 0 <= c_threads c <= BEAVER_MAX_THREADS;
  ok_amqp_port : 1 <= c_amqp_port c <= 65535;
  ok_http_port : 1 <= c_http_port c <= 65535;
  ok_max_connections : 0 <= c_max_connections c <= 10000000;
  ok_http_max_connections : 0 <= c_http_max_connections c <= 10000000;
  ok_timeout : 1000 <= c_http_request_timeout_ms c <= 600000;
  ok_sizes : 0 <= c_max_message_size c < 2 ^ 32 /\ 0 <= c_http_max_body_bytes c < 2 ^ 32 /\ 0 <= c_queue_max_bytes c < 2 ^ 32;
  ok_queue_max_length : 0 <= c_queue_max_length c < 2 ^ 64;
  ok_watermark : fraction_ok (c_memory_high_watermark c);
  ok_node_id : 0 <= c_node_id c < BEAVER_MAX_CLUSTER_NODES;
  ok_raft : 0 <= c_election_timeout_ms c <= 600000 /\ 0 <= c_heartbeat_ms c <= 600000;
  ok_strings : (length (c_bind_addr c) < 64)%nat /\ (length (c_web_root c) < 512)%nat /\
               (length (c_data_dir c) < 256)%nat /\ (length (c_cluster_secret c) < 128)%nat;
  ok_nodes : length (c_cluster_nodes c) = 5%nat /\ Forall (fun x => (length x < 72)%nat) (c_cluster_nodes c);
  ok_nnodes : 0 <= c_cluster_nnodes c <= BEAVER_MAX_CLUSTER_NODES /\
              Forall (fun x => x <> []) (take (Z.to_nat (c_cluster_nnodes c)) (c_cluster_nodes c));
  ok_implicit : c_cluster_explicit c = false -> c_cluster_enabled c = (0 <? c_cluster_nnodes c);
}.

Lemma defaults_ok : config_ok config_defaults.
Proof.
  split; cbn; unfold BEAVER_MAX_THREADS, BEAVER_MAX_CLUSTER_NODES; try lia; try done.
  - left. split; vm_compute; reflexivity.
  - split; [done|]. repeat constructor.
Qed.

(** The nodes that a value of cluster_nodes lists: the first five entries with a port,
    without leading blanks, cut to the size of a table entry. *)
Definition node_list (v : bytes) : list bytes :=
  snprintf_str 72 <$> take 5 (filter (fun t => existsb (Z.eqb 58) t = true) (skip_blanks <$> tokens [] (snprintf_str (5 * 72) v))).

Lemma node_loop_spec toks : forall nodes n w,
  length nodes = 5%nat -> Forall (fun x => (length x < 72)%nat) nodes -> (n <= 5)%nat ->
  let '(nodes', n', _) := node_loop toks nodes n w in
  let good := snprintf_str 72 <$> take (5 - n) (filter (fun t => existsb (Z.eqb 58) t = true) (skip_blanks <$> toks)) in
  length nodes' = 5%nat /\ Forall (fun x => (length x < 72)%nat) nodes' /\ n' = (n + length good)%nat /\ take n' nodes' = take n nodes ++ good.
Proof.
  induction toks as [|tok toks IH]; intros nodes n w Hl Hs Hn; cbn [node_loop].
  { change (filter _ (skip_blanks <$> [])) with (@nil bytes). rewrite take_nil. simpl. rewrite Nat.add_0_r, app_nil_r. done. }
  csimpl. rewrite filter_cons. destruct (skip_blanks tok) as [|x t]; cbn [length Nat.eqb]; [exact (IH nodes n w Hl Hs Hn)|].
  destruct (Z.leb_spec BEAVER_MAX_CLUSTER_NODES (Z.of_nat n)); unfold BEAVER_MAX_CLUSTER_NODES in *.
  { replace (5 - n)%nat with 0%nat by lia. rewrite take_0. simpl. rewrite Nat.add_0_r, app_nil_r. done. }
  destruct (existsb (Z.eqb 58) (x :: t)) eqn:Ec; [rewrite decide_True by done | rewrite decide_False by done; exact (IH nodes n true Hl Hs Hn)].
  cbn [negb]. replace (5 - n)%nat with (S (5 - S n)) by lia. cbn [take fmap list_fmap length].
  specialize (IH (<[n := snprintf_str 72 (x :: t)]> nodes) (S n) w). destruct (node_loop toks _ _ _) as [[nodes' n'] w']. destruct IH as (H1 & H2 & H3 & H4).
  - by rewrite length_insert.
  - apply Forall_insert; [done | apply snprintf_short; lia].
  - lia.
  - split_and!; [done | done | lia |]. rewrite H4. rewrite (take_S_r _ _ (snprintf_str 72 (x :: t))) by (apply list_lookup_insert_eq; lia).
    by rewrite take_insert_ge, <- app_assoc by lia.
Qed.

Lemma node_list_bound v : (length (node_list v) <= 5)%nat /\ Forall (fun x => x <> []) (node_list v).
Proof.
  unfold node_list. split; [rewrite length_fmap, length_take; lia|]. apply Forall_fmap, Forall_take, Forall_forall.
  intros x [Hx _]%list_elem_of_filter. by destruct x.
Qed.

(** What a value of cluster_nodes changes. *)
Lemma parse_nodes_spec c v :
  length (c_cluster_nodes c) = 5%nat -> Forall (fun x => (length x < 72)%nat) (c_cluster_nodes c) ->
  exists nodes, let n := length (node_list v) in
    (parse_cluster_nodes c v).1 = c <| c_cluster_nodes := nodes |> <| c_cluster_nnodes := Z.of_nat n |>
      <| c_cluster_enabled := if c_cluster_explicit c then c_cluster_enabled c else (0 <? n)%nat |> /\
    length nodes = 5%nat /\ Forall (fun x => (length x < 72)%nat) nodes /\ take n nodes = node_list v.
Proof.
  intros Hl Hs. unfold parse_cluster_nodes. pose proof (node_loop_spec (tokens [] (snprintf_str (5 * 72) v)) (c_cluster_nodes c) 0 false Hl Hs ltac:(lia)) as H.
  destruct (node_loop _ _ _ _) as [[nodes n] w]. destruct H as (G1 & G2 & G3 & G4). fold (node_list v) in G3, G4. simpl in G3, G4. subst n.
  exists nodes. cbv zeta. split_and!; try done. destruct c as [? ? ? ? ? ? ? ? ? ? ? ? ? ? en ex]. by destruct ex.
Qed.

Lemma parse_nodes_ok c v : config_ok c -> config_ok (parse_cluster_nodes c v).1.
Proof.
  intros [H1 H2 H3 H4 H5 H6 H7 H8 H9 H10 H11 H12 [H13 H13'] [H14 H14'] H15].
  destruct (parse_nodes_spec c v H13 H13') as (nodes & -> & G1 & G2 & G3). destruct (node_list_bound v) as [B1 B2].
  set (L := node_list v) in *. clearbody L. split; cbn; try done; rewrite ?Nat2Z.id; unfold BEAVER_MAX_CLUSTER_NODES.
  - split; [lia | by rewrite G3].
  - intros ->. by destruct (length L).
Qed.

Ltac key_cases :=
  unfold apply_kv, store; cbv zeta;
  repeat match goal with
  | |- context [if ?b then _ else _] => destruct b eqn:?
  | |- context [match ?x with Some _ => _ | None => _ end] => destruct x eqn:?
  end.

Lemma apply_kv_ok c k v : config_ok c -> config_ok (apply_kv c k v).1.
Proof.
  intros Hok. pose proof (parse_nodes_ok c v Hok) as Hnodes.
  pose proof (parse_int_range v) as Hi. pose proof (parse_size_range v) as Hz. pose proof (parse_u64_range v) as Hu.
  pose proof (parse_threads_range v) as Ht. pose proof (parse_fraction_ok v) as Hf.
  key_cases; try exact Hok; try exact Hnodes; destruct Hok; split; cbn; try done; try (by eauto);
    repeat match goal with
           | H : parse_int v _ _ = Some _ |- _ => apply parse_int_range in H
           | H : parse_size v = Some _ |- _ => apply parse_size_range in H
           end;
    unfold BEAVER_MAX_CLUSTER_NODES, u32 in *; rewrite ?length_take, ?wrap_small by lia; lia.
Qed.

Lemma apply_all_ok kvs : forall c, config_ok c -> config_ok (apply_all c kvs).
Proof. induction kvs as [|[k v] kvs IH]; intros c Hok; [done|]. cbn. by apply IH, apply_kv_ok. Qed.

Lemma resolve_ok cores c : config_ok c -> 1 <= c_threads (config_resolve_threads cores c) <= BEAVER_MAX_THREADS /\
  config_ok (config_resolve_threads cores c).
Proof.
  intros Hok. assert (Ht : 1 <= c_threads (config_resolve_threads cores c) <= BEAVER_MAX_THREADS).
  { unfold config_resolve_threads, BEAVER_MAX_THREADS. cbn. repeat case_match; reflect_bools; lia. }
  split; [done|]. destruct Hok. split; try done. lia.
Qed.

(** Where a warning is logged, nothing changes or entries of a list of nodes are left
    out. *)
Lemma apply_kv_warned c k v :
  (apply_kv c k v).2 = true -> (apply_kv c k v).1 = c \/ k = cstr "cluster_nodes" /\ apply_kv c k v = parse_cluster_nodes c v.
Proof.
  destruct (decide (k = cstr "cluster_nodes")) as [->|Hne]; [intros _; right; split; reflexivity|]. intros H. left. revert H.
  apply (bool_decide_eq_false_2 (k = cstr "cluster_nodes")) in Hne. unfold apply_kv, store. cbv zeta. rewrite Hne.
  repeat match goal with
  | |- context [if ?b then _ else _] => destruct b
  | |- context [match ?x with Some _ => _ | None => _ end] => destruct x
  end; done.
Qed.

(** C37: whatever the file and the environment hold, the server starts with a
    configuration in range: ports, limits, timeouts and node ids within their
    bounds, the memory watermark between 0.0 and 1.0 or not a number, every string
    within its buffer, between 1 and 64 threads, and, without an explicit [cluster]
    setting, clustering on exactly when nodes are listed.  A setting that is warned
    about changes nothing, except that a list of nodes with bad or surplus entries is
    taken without them. *)
Theorem startup_in_range file getenv cores :
  config_ok (startup file getenv cores) /\ 1 <= c_threads (startup file getenv cores) <= BEAVER_MAX_THREADS /\
  (forall c k v, config_ok c -> (apply_kv c k v).2 = true ->
     (apply_kv c k v).1 = c \/
     k = cstr "cluster_nodes" /\ exists nodes, let n := length (node_list v) in
       (apply_kv c k v).1 = c <| c_cluster_nodes := nodes |> <| c_cluster_nnodes := Z.of_nat n |>
         <| c_cluster_enabled := if c_cluster_explicit c then c_cluster_enabled c else (0 <? n)%nat |> /\ take n nodes = node_list v).
Proof.
  rewrite startup_all. destruct (resolve_ok cores (apply_all config_defaults (settings file getenv))) as [H1 H2].
  { apply apply_all_ok, defaults_ok. }
  split; [done|]. split; [done|]. intros c k v [_ _ _ _ _ _ _ _ _ _ _ _ [Hl Hs] _ _] [H|[-> E]]%apply_kv_warned; [by left | right].
  split; [done|]. destruct (parse_nodes_spec c v Hl Hs) as (nodes & Hn & _ & _ & Ht). exists nodes. by rewrite E.
Qed.

(** ** The last valid setting wins *)

Definition key_in (k : bytes) (keys : list bytes) : bool := existsb (fun s => bool_decide (k = s)) keys.

(** The value of the last setting with one of the keys that parses. *)
Definition last_valid {A} (keys : list bytes) (parse : bytes -> option A) (kvs : list (bytes * bytes)) : option A :=
  last (omap (fun kv => if key_in kv.1 keys then parse kv.2 else None) kvs).

Lemma last_valid_cons {A} keys (parse : bytes -> option A) k v kvs :
  last_valid keys parse ((k, v) :: kvs) =
  match last_valid keys parse kvs with Some x => Some x | None => if key_in k keys then parse v else None end.
Proof.
  unfold last_valid. csimpl. destruct (if key_in k keys then parse v else None) as [x|]; [rewrite last_cons|]; by destruct (last _).
Qed.

(** The value of a field that one group of keys sets, after a setting. *)
Definition field_spec {A} (old : A) (keys : list bytes) (parse : bytes -> option A) (k v : bytes) : A :=
  default old (if key_in k keys then parse v else None).

Definition set_by {A} (get : beaver_config_t -> A) (keys : list bytes) (parse : bytes -> option A) : Prop :=
  forall c k v, get (apply_kv c k v).1 = field_spec (get c) keys parse k v.

Lemma set_by_last {A} (get : beaver_config_t -> A) keys parse :
  set_by get keys parse -> forall kvs c, get (apply_all c kvs) = default (get c) (last_valid keys parse kvs).
Proof.
  intros Hset. induction kvs as [|[k v] kvs IH]; intros c; [done|]. rewrite last_valid_cons.
  change (apply_all c ((k, v) :: kvs)) with (apply_all (apply_kv c k v).1 kvs). rewrite IH, Hset. unfold field_spec.
  by destruct (last_valid keys parse kvs).
Qed.

Lemma parse_nodes_fields c v :
  exists nodes n b, (parse_cluster_nodes c v).1 = c <| c_cluster_nodes := nodes |> <| c_cluster_nnodes := n |> <| c_cluster_enabled := b |>.
Proof.
  unfold parse_cluster_nodes. destruct (node_loop _ _ _ _) as [[nodes n] w]. cbn. destruct c as [? ? ? ? ? ? ? ? ? ? ? ? ? ? en ex].
  destruct ex; cbn; [by exists nodes, (Z.of_nat n), en | by eexists nodes, (Z.of_nat n), _].
Qed.

Abbreviation key1 s := [cstr s].

(** The value of cluster_sync_policy. *)
Definition policy (v : bytes) : option bool :=
  if strcasecmp_eq v (cstr "durable") then Some true else if strcasecmp_eq v (cstr "fast") then Some false else None.

Lemma fields_set c k v :
  let c' := (apply_kv c k v).1 in
  (c_threads c' = field_spec (c_threads c) (key1 "threads") parse_threads k v /\
   c_amqp_port c' = field_spec (c_amqp_port c) (key1 "amqp_port") (fun v => parse_int v 1 65535) k v /\
   c_http_port c' = field_spec (c_http_port c) (key1 "http_port") (fun v => parse_int v 1 65535) k v /\
   c_bind_addr c' = field_spec (c_bind_addr c) [cstr "bind"; cstr "bind_addr"] (fun v => Some (snprintf_str 64 v)) k v /\
   c_log_level c' = field_spec (c_log_level c) (key1 "log_level") parse_log_level k v /\
   c_web_root c' = field_spec (c_web_root c) (key1 "web_root") (fun v => Some (snprintf_str 512 v)) k v /\
   c_max_connections c' = field_spec (c_max_connections c) (key1 "max_connections") (fun v => parse_int v 0 10000000) k v /\
   c_max_message_size c' = field_spec (c_max_message_size c) (key1 "max_message_size") parse_size k v /\
   c_http_max_body_bytes c' = field_spec (c_http_max_body_bytes c) (key1 "http_max_body_bytes") parse_size k v /\
   c_http_max_connections c' = field_spec (c_http_max_connections c) (key1 "http_max_connections") (fun v => parse_int v 0 10000000) k v /\
   c_http_request_timeout_ms c' = field_spec (c_http_request_timeout_ms c) (key1 "http_request_timeout_ms") (fun v => parse_int v 1000 600000) k v) /\
  (c_queue_max_length c' = field_spec (c_queue_max_length c) (key1 "queue_max_length") parse_u64 k v /\
   c_queue_max_bytes c' = field_spec (c_queue_max_bytes c) (key1 "queue_max_bytes") parse_size k v /\
   c_memory_high_watermark c' = field_spec (c_memory_high_watermark c) (key1 "memory_high_watermark") parse_fraction k v /\
   c_cluster_explicit c' = field_spec (c_cluster_explicit c) (key1 "cluster") (fun v => (fun _ => true) <$> parse_bool v) k v /\
   c_node_id c' = field_spec (c_node_id c) (key1 "node_id") (fun v => parse_int v 0 (BEAVER_MAX_CLUSTER_NODES - 1)) k v /\
   c_data_dir c' = field_spec (c_data_dir c) (key1 "data_dir") (fun v => Some (snprintf_str 256 v)) k v /\
   c_election_timeout_ms c' = field_spec (c_election_timeout_ms c) (key1 "election_timeout_ms") (fun v => parse_int v 0 600000) k v /\
   c_heartbeat_ms c' = field_spec (c_heartbeat_ms c) (key1 "heartbeat_ms") (fun v => parse_int v 0 600000) k v /\
   c_cluster_secret c' = field_spec (c_cluster_secret c) (key1 "cluster_secret") (fun v => Some (snprintf_str 128 v)) k v /\
   c_cluster_durable_commit c' = field_spec (c_cluster_durable_commit c) (key1 "cluster_sync_policy") policy k v).
Proof.
  destruct (parse_nodes_fields c v) as (nodes & n & b & Hn). cbv zeta.
  assert (Hms : forall z, parse_int v 1000 600000 = Some z -> u32 z = z) by (intros z Hz%parse_int_range; unfold u32; apply wrap_small; lia).
  key_cases;
  repeat match goal with H : bool_decide (k = _) = true |- _ => apply bool_decide_eq_true in H; subst k end;
  repeat match goal with H : _ || _ = _ |- _ => rewrite ?orb_true_iff, ?orb_false_iff in H; destruct H end;
  repeat match goal with H : bool_decide (k = _) = true |- _ => apply bool_decide_eq_true in H; subst k end;
  unfold field_spec, policy; cbn [key_in existsb]; try rewrite Hn;
  try rewrite (Hms _ eq_refl);
  repeat match goal with H : _ = Some _ |- _ => rewrite H | H : _ = None |- _ => rewrite H | H : strcasecmp_eq v _ = _ |- _ => rewrite H end;
  repeat match goal with H : bool_decide (k = _) = false |- _ => rewrite H; clear H end;
  split_and!; reflexivity.
Qed.

(** ** The nodes, and clustering on or off *)

(** The list of nodes of a configuration. *)
Definition nodes_of (c : beaver_config_t) : list bytes := take (Z.to_nat (c_cluster_nnodes c)) (c_cluster_nodes c).

(** A setting of another key. *)
Lemma other_key c k v : k <> cstr "cluster_nodes" ->
  (c_cluster_nodes (apply_kv c k v).1, c_cluster_nnodes (apply_kv c k v).1) = (c_cluster_nodes c, c_cluster_nnodes c) /\
  (k <> cstr "cluster" -> c_cluster_enabled (apply_kv c k v).1 = c_cluster_enabled c).
Proof.
  intros Hne. apply (bool_decide_eq_false_2 (k = cstr "cluster_nodes")) in Hne. unfold apply_kv, store. cbv zeta. rewrite Hne. split.
  - repeat (case_match; try reflexivity).
  - intros Hc%(bool_decide_eq_false_2 (k = cstr "cluster")). rewrite Hc. repeat (case_match; try reflexivity).
Qed.

Lemma nodes_step c k v : config_ok c ->
  let c' := (apply_kv c k v).1 in
  (c_cluster_nnodes c', nodes_of c') =
    (if key_in k (key1 "cluster_nodes") then (Z.of_nat (length (node_list v)), node_list v) else (c_cluster_nnodes c, nodes_of c)) /\
  c_cluster_enabled c' =
    (if key_in k (key1 "cluster") then default (c_cluster_enabled c) (parse_bool v)
     else if key_in k (key1 "cluster_nodes") && negb (c_cluster_explicit c) then (0 <? length (node_list v))%nat
     else c_cluster_enabled c).
Proof.
  intros [_ _ _ _ _ _ _ _ _ _ _ _ [Hl Hs] _ _] c'. unfold c'. cbn [key_in existsb]. rewrite !orb_false_r.
  destruct (decide (k = cstr "cluster_nodes")) as [->|Hne].
  - destruct (parse_nodes_spec c v Hl Hs) as (nodes & E & _ & _ & Ht). change (apply_kv c (cstr "cluster_nodes") v) with (parse_cluster_nodes c v).
    rewrite E. clear E. set (L := node_list v) in *. clearbody L. unfold nodes_of, update_field. cbn. rewrite Nat2Z.id, Ht. split; [done|]. by destruct (c_cluster_explicit c).
  - destruct (other_key c k v Hne) as [[= E1 E2] E3]. unfold nodes_of. rewrite E1, E2, (bool_decide_eq_false_2 _ Hne). split; [done|]. cbn [andb].
    case_bool_decide as Hc; [|by apply E3]. subst k. clear. unfold apply_kv, store. cbn. by destruct (parse_bool v).
Qed.

Lemma nodes_all kvs : forall c, config_ok c ->
  (c_cluster_nnodes (apply_all c kvs), nodes_of (apply_all c kvs)) =
  from_option (fun v => (Z.of_nat (length (node_list v)), node_list v)) (c_cluster_nnodes c, nodes_of c) (last_valid (key1 "cluster_nodes") Some kvs).
Proof.
  induction kvs as [|[k v] kvs IH]; intros c Hok; [done|]. rewrite last_valid_cons.
  change (apply_all c ((k, v) :: kvs)) with (apply_all (apply_kv c k v).1 kvs). rewrite IH by (by apply apply_kv_ok).
  destruct (nodes_step c k v Hok) as [E _]. rewrite E. destruct (last_valid _ _ kvs); [done|]. by destruct (key_in k _).
Qed.

(** The environment comes after the file, and an explicit switch wins over a list
    of nodes whatever their order. *)
Lemma enabled_all kvs : forall c, config_ok c ->
  c_cluster_enabled (apply_all c kvs) =
  match last_valid (key1 "cluster") parse_bool kvs with
  | Some b => b
  | None => if c_cluster_explicit c then c_cluster_enabled c
            else from_option (fun v => 0 <? length (node_list v))%nat (c_cluster_enabled c) (last_valid (key1 "cluster_nodes") Some kvs)
  end.
Proof.
  induction kvs as [|[k v] kvs IH]; intros c Hok; [by destruct (c_cluster_explicit c)|]. rewrite !last_valid_cons.
  change (apply_all c ((k, v) :: kvs)) with (apply_all (apply_kv c k v).1 kvs). rewrite IH by (by apply apply_kv_ok).
  destruct (nodes_step c k v Hok) as [_ E]. rewrite E.
  pose proof (fields_set c k v) as (_ & _ & _ & _ & Hx & _). rewrite Hx. unfold field_spec.
  destruct (last_valid (key1 "cluster") parse_bool kvs); [done|].
  destruct (last_valid (key1 "cluster_nodes") Some kvs);
    destruct (key_in k (key1 "cluster")) eqn:E1; destruct (parse_bool v); destruct (key_in k (key1 "cluster_nodes")) eqn:E2;
    destruct (c_cluster_explicit c); try done.
  all: unfold key_in in E1, E2; cbn in E1, E2; rewrite orb_false_r in E1, E2; apply bool_decide_eq_true in E1, E2; congruence.
Qed.

Lemma resolve_threads_spec cores kvs :
  c_threads (config_resolve_threads cores (apply_all config_defaults kvs)) =
  let t := default 0 (last_valid (key1 "threads") parse_threads kvs) in
  Z.max 1 (Z.min 64 (if t =? 0 then if cores <? 2 ^ 31 then cores else cores - 2 ^ 32 else t)).
Proof.
  assert (E : c_threads (apply_all config_defaults kvs) = default 0 (last_valid (key1 "threads") parse_threads kvs)).
  { apply (set_by_last c_threads (key1 "threads") parse_threads) with (c := config_defaults). intros c k v. apply (fields_set c k v). }
  pose proof (ok_threads _ (apply_all_ok kvs _ defaults_ok)) as H. rewrite E in H. unfold config_resolve_threads, BEAVER_MAX_THREADS in *. cbv zeta.
  set (t := default 0 _) in *. set (auto := if cores <? _ then _ else _). change (c_threads (_ <| c_threads := ?x |>)) with x. rewrite E.
  destruct (Z.leb_spec t 0), (Z.eqb_spec t 0); try lia; repeat case_match; reflect_bools; lia.
Qed.


(** ** Writing a configuration file *)

(** Neither end is white space. *)
Definition edges_ok (s : bytes) : Prop :=
  (match s with c :: _ => isspace c = false | [] => True end) /\
  (match rev s with c :: _ => isspace c = false | [] => True end).

Definition kv_ok (kv : bytes * bytes) : Prop :=
  let '(k, v) := kv in
  Forall (fun c => c <> 0 /\ c <> 10 /\ c <> 35) (k ++ v) /\ Forall (fun c => c <> 61) k /\
  k <> [] /\ edges_ok k /\ edges_ok v /\ (length k + length v < 1022)%nat.

Definition kv_line (kv : bytes * bytes) : bytes := kv.1 ++ [61] ++ kv.2 ++ [10].

Lemma skip_spaces_id s : match s with c :: _ => isspace c = false | [] => True end -> skip_spaces s = s.
Proof. destruct s as [|c s]; [done|]. cbn. by intros ->. Qed.

Lemma trim_id s : edges_ok s -> trim s = s.
Proof. intros [H1 H2]. unfold trim. rewrite (skip_spaces_id s H1), (skip_spaces_id (rev s) H2). apply rev_involutive. Qed.

Lemma strchr_none c s : Forall (fun x => x <> c) s -> strchr c s = None.
Proof. induction 1 as [|x s Hx Hs IH]; [done|]. cbn. apply Z.eqb_neq in Hx. by rewrite Hx, IH. Qed.

Lemma strchr_first c a b : Forall (fun x => x <> c) a -> strchr c (a ++ c :: b) = Some (a, b).
Proof.
  induction 1 as [|x s Hx Hs IH]; cbn; [by rewrite Z.eqb_refl|]. apply Z.eqb_neq in Hx. by rewrite Hx, IH.
Qed.

Lemma fgets_line n l rest : Forall (fun c => c <> 10) l -> (length l < n)%nat -> fgets n (l ++ 10 :: rest) = (l ++ [10], rest).
Proof.
  intros Hl. revert n. induction Hl as [|x l Hx Hl IH]; intros [|n] Hn; cbn [length] in Hn; try lia; cbn [app fgets]; [done|].
  apply Z.eqb_neq in Hx. rewrite Hx, IH by lia. done.
Qed.

Lemma trim_line k v :
  k <> [] -> edges_ok k -> edges_ok v -> trim (k ++ [61] ++ v ++ [10]) = k ++ [61] ++ v.
Proof.
  intros Hne [Hk _] [_ Hv]. unfold trim. rewrite (skip_spaces_id (k ++ _)) by (by destruct k).
  rewrite !app_assoc, rev_app_distr. change (rev [10] ++ ?x) with (10 :: x). cbn [skip_spaces]. change (isspace 10) with true.
  cbn iota. rewrite skip_spaces_id; [by rewrite rev_involutive, <- app_assoc|].
  rewrite <- app_assoc, !rev_app_distr, <- app_assoc. by destruct (rev v).
Qed.

Lemma Forall_line (P Q : Z -> Prop) k v :
  Forall Q (k ++ v) -> (forall c, Q c -> P c) -> P 61 -> Forall P ((k ++ [61]) ++ v).
Proof.
  intros [Hk Hv]%Forall_app HQ H61. rewrite !Forall_app. split_and!; [by eapply Forall_impl | by constructor | by eapply Forall_impl].
Qed.

Lemma line_kv_line k v : kv_ok (k, v) -> line_kv (kv_line (k, v)) = Some (k, v).
Proof.
  intros (Hc & Hk & Hne & Ek & Ev & _). unfold line_kv, kv_line. cbn [fst snd].
  assert (Hall : forall P : Z -> Prop, (forall c, c <> 0 /\ c <> 10 /\ c <> 35 -> P c) -> P 61 -> P 10 -> Forall P (k ++ [61] ++ v ++ [10])).
  { intros P HP H61 H10. rewrite (app_assoc k), app_assoc. apply Forall_app. split; [by eapply Forall_line | by constructor]. }
  rewrite c_string_id by (apply Hall; lia). rewrite strchr_none by (apply Hall; lia).
  rewrite trim_line by done. rewrite (proj2 (Nat.eqb_neq _ _)) by (rewrite length_app; simpl; lia).
  cbn [app]. rewrite strchr_first by done. by rewrite !trim_id.
Qed.

Lemma fgets_kv k v rest : kv_ok (k, v) -> fgets 1023 (kv_line (k, v) ++ rest) = (kv_line (k, v), rest).
Proof.
  intros (Hc & _ & _ & _ & _ & Hl). unfold kv_line. cbn [fst snd].
  rewrite <- !app_assoc, (app_assoc k [61]), (app_assoc (k ++ [61]) v). change ([10] ++ ?x) with (10 :: x). rewrite fgets_line.
  - by rewrite <- !app_assoc.
  - eapply Forall_line; [exact Hc | cbn; lia | lia].
  - rewrite !length_app. simpl. lia.
Qed.

Lemma load_kvs kvs : Forall kv_ok kvs -> forall n c, (length kvs <= n)%nat -> load_lines n c (kvs ≫= kv_line) = apply_all c kvs.
Proof.
  induction 1 as [|[k v] kvs Hkv Hkvs IH]; intros [|n] c Hn; simpl in Hn; try lia; [done..|].
  assert (Hline : exists x f, ((k, v) :: kvs) ≫= kv_line = x :: f) by (csimpl; unfold kv_line; destruct k; eauto).
  destruct Hline as (x & f & Hf). rewrite Hf. cbn [load_lines]. rewrite <- Hf. clear x f Hf.
  change (((k, v) :: kvs) ≫= kv_line) with (kv_line (k, v) ++ (kvs ≫= kv_line)). rewrite fgets_kv by done.
  unfold load_line. rewrite line_kv_line by done. apply IH. lia.
Qed.

(** C39: a file that lists settings one per line, "key=value", is loaded as exactly
    these settings, applied one after the other in their order, for keys and values
    without line breaks, '#' and NUL, non-empty keys without '=', neither with white
    space at its ends, and lines that fit the buffer of 1024 characters. *)
Theorem config_file_roundtrip kvs c :
  Forall kv_ok kvs -> config_load_file c (Some (kvs ≫= kv_line)) = (0, foldl (fun c kv => (apply_kv c kv.1 kv.2).1) c kvs).
Proof.
  intros Hkvs. unfold config_load_file. f_equal. rewrite (load_kvs kvs Hkvs); [done|].
  clear c. induction Hkvs as [|[k v] kvs _ _ IH]; csimpl; [lia|]. rewrite length_app. unfold kv_line at 1. rewrite !length_app. simpl. lia.
Qed.

Lemma config_file_roundtrip_witness :
  let '(rc, c) := config_load_file config_defaults (Some ([(cstr "amqp_port", cstr "5673"); (cstr "bind", cstr "0.0.0.0")] ≫= kv_line)) in
  rc = 0 /\ c_amqp_port c = 5673 /\ c_bind_addr c = cstr "0.0.0.0".
Proof.
  rewrite (config_file_roundtrip [(cstr "amqp_port", cstr "5673"); (cstr "bind", cstr "0.0.0.0")] config_defaults).
  - split; [reflexivity|]. split; vm_compute; reflexivity.
  - repeat constructor; cbn; lia || discriminate.
Defined.

(** Sizes wrap around: "18014398509481985k" is accepted as 1024, and a negative
    number close to -2^64 as a small one; "nan" is accepted as a fraction of the
    memory, which turns the watermark off; and an empty number of threads is
    accepted as automatic. *)
Example config_accepts :
  parse_size (cstr "18014398509481985k") = Some 1024 /\ parse_size (cstr "-18446744073709551615") = Some 1 /\
  parse_fraction (cstr "nan") = Some S754_nan /\ SFltb d_zero S754_nan = false /\ parse_threads [] = Some 0.
Proof. repeat split; vm_compute; reflexivity. Qed.
