(* ===== verification/HashMap.v ===== *)
(** The string-keyed hash map of src/src/hashmap.c: SipHash-1-3 keyed by the
    process secret, separate chaining, growth at a load of 3/4.

    [hashmap] keeps the bucket array with its chains in the order of the [next]
    pointers; values (the [void *] of the C interface) are of any type.  The map
    refines a finite map from keys to values ([hm_map]), and [PtrMap] is the
    interface the registries of the broker and of the dispatcher rely on. *)

From S2P Require Import Prelude.

(** * SipHash *)

Definition SIP_ROTL (x b : Z) : Z := Z.lor (u64 (x ≪ b)) (x ≫ (64 - b)).

(** The four lanes. *)
Record sip := Sip { v0 : Z; v1 : Z; v2 : Z; v3 : Z }.

Definition SIP_ROUND (s : sip) : sip :=
  let '(Sip v0 v1 v2 v3) := s in
  let v0 := u64 (v0 + v1) in
  let v1 := SIP_ROTL v1 13 in
  let v1 := Z.lxor v1 v0 in
  let v0 := SIP_ROTL v0 32 in
  let v2 := u64 (v2 + v3) in
  let v3 := SIP_ROTL v3 16 in
  let v3 := Z.lxor v3 v2 in
  let v0 := u64 (v0 + v3) in
  let v3 := SIP_ROTL v3 21 in
  let v3 := Z.lxor v3 v0 in
  let v2 := u64 (v2 + v1) in
  let v1 := SIP_ROTL v1 17 in
  let v1 := Z.lxor v1 v2 in
  let v2 := SIP_ROTL v2 32 in
  Sip v0 v1 v2 v3.

(** A little-endian load of the bytes given. *)
Definition le_load (bs : bytes) : Z := foldr (fun b acc => Z.lor b (acc ≪ 8)) 0 bs.

(** Mixing one 64-bit word into the state: [v3 ^= m; SIP_ROUND(); v0 ^= m]. *)
Definition sip_mix (s : sip) (m : Z) : sip :=
  let s := SIP_ROUND (Sip (v0 s) (v1 s) (v2 s) (Z.lxor (v3 s) m)) in
  Sip (Z.lxor (v0 s) m) (v1 s) (v2 s) (v3 s).

(** The loop over the [n] full 8-byte words; returns the unread tail. *)
Fixpoint sip_words (n : nat) (s : sip) (inp : bytes) : sip * bytes :=
  match n with
  | O => (s, inp)
  | S n => sip_words n (sip_mix s (le_load (take 8 inp))) (drop 8 inp)
  end.

(** [sip_key_init]: the process secret from 16 random bytes, or, when the random
    source fails ([None]), mixed from the pid, the time and an address. *)
Definition sip_key_init (random : option bytes) (pid time addr : Z) : Z * Z :=
  match random with
  | Some k => (le_load (take 8 k), le_load (take 8 (drop 8 k)))
  | None =>
      let a := u64 pid in
      let b := u64 time in
      let c := u64 addr in
      (Z.lxor (u64 (a * 0x9e3779b97f4a7c15)) (u64 (b ≪ 1)),
       Z.lxor (u64 (c * 0xbf58476d1ce4e5b9)) (u64 (a ≪ 3)))
  end.

Section Map.
(** The process secret. *)
Context (g_sip_k0 g_sip_k1 : Z).

Definition hash_str (s : bytes) : Z :=
  let inlen := Z.of_nat (length s) in
  let st := Sip (Z.lxor 0x736f6d6570736575 g_sip_k0)
                (Z.lxor 0x646f72616e646f6d g_sip_k1)
                (Z.lxor 0x6c7967656e657261 g_sip_k0)
                (Z.lxor 0x7465646279746573 g_sip_k1) in
  let '(st, tail) := sip_words (length s / 8) st s in
  let b := Z.lor (u64 (inlen ≪ 56)) (le_load tail) in
  let st := sip_mix st b in
  let st := Sip (v0 st) (v1 st) (Z.lxor (v2 st) 0xff) (v3 st) in
  let st := SIP_ROUND (SIP_ROUND (SIP_ROUND st)) in
  Z.lxor (Z.lxor (Z.lxor (v0 st) (v1 st)) (v2 st)) (v3 st).

(** * The map *)

Context {V : Type}.

Record entry := Entry { e_key : bytes; e_value : V; e_hash : Z }.

Record hashmap := HashMap { buckets : list (list entry); nbuckets : nat; count : nat }.

Definition HASHMAP_INITIAL_BUCKETS : nat := 16.

(** [None] is the NULL returned when one of the two [calloc]s fails. *)
Definition hashmap_new (o : oracle) : option hashmap * oracle :=
  let '(ok, o) := malloc o in
  if ok then
    let '(ok, o) := malloc o in
    if ok then
      (Some (HashMap (replicate HASHMAP_INITIAL_BUCKETS []) HASHMAP_INITIAL_BUCKETS 0), o)
    else (None, o)
  else (None, o).

(** [h % nbuckets] *)
Definition bucket_of (h : Z) (n : nat) : nat := Z.to_nat (h mod Z.of_nat n).

Definition chain (m : hashmap) (i : nat) : list entry := default [] (buckets m !! i).

(** [e->hash == h && strcmp(e->key, key) == 0] *)
Definition entry_is (key : bytes) (h : Z) (e : entry) : bool :=
  (e_hash e =? h) && bool_decide (e_key e = key).

Fixpoint chain_find (key : bytes) (h : Z) (es : list entry) : option entry :=
  match es with
  | [] => None
  | e :: es => if entry_is key h e then Some e else chain_find key h es
  end.

Definition find_entry (m : hashmap) (key : bytes) (h : Z) : option entry :=
  chain_find key h (chain m (bucket_of h (nbuckets m))).

Definition hashmap_get (m : hashmap) (key : bytes) : option V :=
  e_value <$> find_entry m key (hash_str key).

(** Push an entry on the front of its chain in the bucket array [nb]. *)
Definition push_entry (n : nat) (nb : list (list entry)) (e : entry) : list (list entry) :=
  alter (cons e) (bucket_of (e_hash e) n) nb.

(** [hashmap_resize]: walk the old chains in order, pushing each entry on the
    front of its new chain. *)
Definition hashmap_resize (m : hashmap) (new_nbuckets : nat) (o : oracle) : bool * hashmap * oracle :=
  let '(ok, o) := malloc o in
  if ok then
    let nb := foldl (push_entry new_nbuckets) (replicate new_nbuckets []) (concat (buckets m)) in
    (true, HashMap nb new_nbuckets (count m), o)
  else (false, m, o).

(** [e->value = value] on the entry [find_entry] returned. *)
Fixpoint chain_set (key : bytes) (h : Z) (v : V) (es : list entry) : list entry :=
  match es with
  | [] => []
  | e :: es => if entry_is key h e then Entry (e_key e) v (e_hash e) :: es
               else e :: chain_set key h v es
  end.

(** The load test [(double)(count + 1) > (double)nbuckets * 0.75], whose operands
    are exact. *)
Definition overloaded (m : hashmap) : bool := (3 * nbuckets m <? 4 * (count m + 1))%nat.

(** Returns (success, the replaced value, the map). *)
Definition hashmap_put (m : hashmap) (key : bytes) (value : V) (o : oracle)
    : bool * option V * hashmap * oracle :=
  let h := hash_str key in
  match find_entry m key h with
  | Some e =>
      let i := bucket_of h (nbuckets m) in
      (true, Some (e_value e),
       HashMap (alter (chain_set key h value) i (buckets m)) (nbuckets m) (count m), o)
  | None =>
      let '(ok, m, o) := if overloaded m then hashmap_resize m (nbuckets m * 2) o else (true, m, o) in
      if ok then
        let '(ok, o) := malloc o in (* the entry *)
        if ok then
          let '(ok, o) := malloc o in (* the key's strdup *)
          if ok then
            (true, None,
             HashMap (push_entry (nbuckets m) (buckets m) (Entry key value h)) (nbuckets m)
               (count m + 1), o)
          else (false, None, m, o)
        else (false, None, m, o)
      else (false, None, m, o)
  end.

(** Unlink the first matching entry of a chain. *)
Fixpoint chain_remove (key : bytes) (h : Z) (es : list entry) : list entry :=
  match es with
  | [] => []
  | e :: es => if entry_is key h e then es else e :: chain_remove key h es
  end.

Definition hashmap_remove (m : hashmap) (key : bytes) : option V * hashmap :=
  let h := hash_str key in
  let idx := bucket_of h (nbuckets m) in
  match chain_find key h (chain m idx) with
  | Some e => (Some (e_value e),
               HashMap (alter (chain_remove key h) idx (buckets m)) (nbuckets m) (count m - 1))
  | None => (None, m)
  end.

Definition hashmap_count (m : hashmap) : nat := count m.

(** [hashmap_iter]: the visitor threads a state and stops the walk by returning
    true. *)
Fixpoint iter_entries {S} (fn : bytes -> V -> S -> bool * S) (es : list entry) (ctx : S) : S :=
  match es with
  | [] => ctx
  | e :: es => let '(stop, ctx) := fn (e_key e) (e_value e) ctx in
               if stop then ctx else iter_entries fn es ctx
  end.

Definition hashmap_iter {S} (m : hashmap) (fn : bytes -> V -> S -> bool * S) (ctx : S) : S :=
  iter_entries fn (concat (buckets m)) ctx.

(** [hashmap_free]: every value is handed to [free_value], in bucket order. *)
Definition hashmap_free {S} (m : option hashmap) (free_value : option (V -> S -> S)) (s : S) : S :=
  match m, free_value with
  | Some m, Some f => foldl (fun s e => f (e_value e) s) s (concat (buckets m))
  | _, _ => s
  end.

(** * Well-formedness and the abstract map *)

Definition hm_assoc (m : hashmap) : list (bytes * V) :=
  (fun e => (e_key e, e_value e)) <$> concat (buckets m).

Definition hm_map (m : hashmap) : gmap bytes V := list_to_map (hm_assoc m).

(** Every entry is in the chain its key hashes to. *)
Definition placed (n : nat) (b : list (list entry)) : Prop :=
  length b = n /\
  forall i es, b !! i = Some es ->
    Forall (fun e => e_hash e = hash_str (e_key e) /\ bucket_of (e_hash e) n = i) es.

(** Every entry hangs in the chain of its hash, no key occurs twice, [count] is the
    number of entries, and the load never exceeds 3/4. *)
Definition hm_wf (m : hashmap) : Prop :=
  (0 < nbuckets m)%nat /\ placed (nbuckets m) (buckets m) /\
  NoDup (hm_assoc m).*1 /\ count m = length (concat (buckets m)) /\
  (4 * count m <= 3 * nbuckets m)%nat.

End Map.
#[global] Arguments entry : clear implicits.
#[global] Arguments hashmap : clear implicits.

Section Correctness.
Context (k0 k1 : Z) {V : Type}.
Implicit Types (m : hashmap V) (e : entry V) (es : list (entry V)) (b : list (list (entry V))).
Abbreviation hash := (hash_str k0 k1).
Abbreviation wf := (hm_wf k0 k1).

Lemma concat_push_perm n b e :
  (bucket_of (e_hash e) n < length b)%nat -> concat (push_entry n b e) ≡ₚ e :: concat b.
Proof.
  intros Hi. destruct (lookup_lt_is_Some_2 _ _ Hi) as [es Hes].
  apply (Permutation_app_inv_r es). unfold push_entry.
  rewrite (concat_alter_perm _ _ _ _ Hes). simpl. by rewrite <- Permutation_middle.
Qed.

Lemma bucket_of_lt h n : (0 < n)%nat -> (bucket_of h n < n)%nat.
Proof. unfold bucket_of. pose proof (Z.mod_pos_bound h (Z.of_nat n)). lia. Qed.

(** Chains change in place: an update that keeps every entry's slot keeps the
    table placed. *)
Lemma placed_alter n b f i :
  placed k0 k1 n b ->
  (forall es, b !! i = Some es ->
     Forall (fun e => e_hash e = hash (e_key e) /\ bucket_of (e_hash e) n = i) es ->
     Forall (fun e => e_hash e = hash (e_key e) /\ bucket_of (e_hash e) n = i) (f es)) ->
  placed k0 k1 n (alter f i b).
Proof.
  intros [Hlen Hb] Hf. split; [by rewrite length_alter|].
  intros j es Hj. destruct (decide (i = j)) as [<-|Hne].
  - rewrite list_lookup_alter_eq in Hj. destruct (b !! i) as [es0|] eqn:Hi; simplify_eq/=. auto.
  - rewrite list_lookup_alter_ne in Hj by done. auto.
Qed.

Lemma placed_push n b e :
  placed k0 k1 n b -> e_hash e = hash (e_key e) -> placed k0 k1 n (push_entry n b e).
Proof. intros Hb He. apply placed_alter; [done|]. intros es _ Hes. by constructor. Qed.

Lemma entry_is_spec key h e : entry_is key h e = true <-> e_hash e = h /\ e_key e = key.
Proof. unfold entry_is. rewrite andb_true_iff, Z.eqb_eq, bool_decide_eq_true. done. Qed.

Lemma chain_find_spec key h es :
  match chain_find key h es with
  | Some e => exists es1 es2, es = es1 ++ e :: es2 /\ e_key e = key /\ e_hash e = h /\
      Forall (fun e => entry_is key h e = false) es1
  | None => Forall (fun e => entry_is key h e = false) es
  end.
Proof.
  induction es as [|e es IH]; simpl; [by constructor|].
  destruct (entry_is key h e) eqn:He.
  - apply entry_is_spec in He as [? ?]. by exists [], es.
  - destruct (chain_find key h es).
    + destruct IH as (es1 & es2 & -> & ? & ? & ?). exists (e :: es1), es2. split_and!; auto.
    + by constructor.
Qed.

Lemma chain_set_app key h v es1 e es2 :
  Forall (fun e => entry_is key h e = false) es1 -> entry_is key h e = true ->
  chain_set key h v (es1 ++ e :: es2) = es1 ++ Entry (e_key e) v (e_hash e) :: es2.
Proof.
  intros H1 He. induction H1 as [|e1 es1 He1 H1 IH]; simpl; [by rewrite He|].
  rewrite He1. by f_equal.
Qed.

Lemma chain_remove_app key h es1 e es2 :
  Forall (fun e => entry_is key h e = false) es1 -> entry_is key h e = true ->
  chain_remove key h (es1 ++ e :: es2) = es1 ++ es2.
Proof.
  intros H1 He. induction H1 as [|e1 es1 He1 H1 IH]; simpl; [by rewrite He|].
  rewrite He1. by f_equal.
Qed.

(** The chain of a key, in a well-formed map. *)
Lemma wf_chain m h : wf m -> buckets m !! bucket_of h (nbuckets m) = Some (chain m (bucket_of h (nbuckets m))).
Proof.
  intros (Hn & [Hlen _] & _). pose proof (bucket_of_lt h (nbuckets m) Hn) as Hlt.
  rewrite <- Hlen in Hlt at 2. destruct (lookup_lt_is_Some_2 _ _ Hlt) as [es Hes].
  unfold chain. by rewrite Hes.
Qed.

Lemma elem_of_assoc m key v :
  (key, v) ∈ hm_assoc m <-> exists e, e ∈ concat (buckets m) /\ e_key e = key /\ e_value e = v.
Proof.
  unfold hm_assoc. rewrite list_elem_of_fmap. split.
  - intros (e & He & Hin). simplify_eq. by exists e.
  - intros (e & Hin & <- & <-). by exists e.
Qed.

Lemma entries_in_chain m e :
  wf m -> e ∈ concat (buckets m) ->
  e_hash e = hash (e_key e) /\ e ∈ chain m (bucket_of (hash (e_key e)) (nbuckets m)).
Proof.
  intros (Hn & [Hlen Hb] & _) He. apply list_elem_of_concat in He as (es & He & Hes).
  apply list_elem_of_lookup in Hes as [i Hi].
  pose proof (Hb i es Hi) as Hall. rewrite Forall_forall in Hall. destruct (Hall e He) as [Hh Hidx].
  split; [done|]. unfold chain. by rewrite <- Hh, Hidx, Hi.
Qed.

Lemma hm_map_lookup m key :
  wf m -> hm_map m !! key = e_value <$> find_entry m key (hash key).
Proof.
  intros Hwf. pose proof (wf_chain m (hash key) Hwf) as Hch.
  pose proof Hwf as (_ & _ & Hnd & _). unfold find_entry.
  pose proof (chain_find_spec key (hash key) (chain m (bucket_of (hash key) (nbuckets m)))) as Hs.
  destruct (chain_find _ _ _) as [e|]; simpl.
  - destruct Hs as (es1 & es2 & Hes & <- & _ & _). apply elem_of_list_to_map_1; [done|].
    apply elem_of_assoc. exists e. split_and!; try done. apply list_elem_of_concat.
    eexists. split; [|by eapply list_elem_of_lookup_2]. rewrite Hes. set_solver.
  - apply not_elem_of_list_to_map_1. rewrite list_elem_of_fmap. intros ((key' & v) & -> & Hin).
    apply elem_of_assoc in Hin as (e & He & Hk & _). simpl in Hs. subst key'.
    destruct (entries_in_chain m e Hwf He) as [Hh Hin]. rewrite Forall_forall in Hs.
    specialize (Hs e Hin). rewrite (proj2 (entry_is_spec _ _ _)) in Hs by done. done.
Qed.

(** Two tables with the same entries up to order denote the same map. *)
Lemma hm_map_perm m1 m2 :
  NoDup (hm_assoc m1).*1 -> concat (buckets m1) ≡ₚ concat (buckets m2) ->
  NoDup (hm_assoc m2).*1 /\ hm_map m1 = hm_map m2.
Proof.
  intros Hnd Hp. assert (Ha : hm_assoc m1 ≡ₚ hm_assoc m2) by (unfold hm_assoc; by rewrite Hp).
  split; [by rewrite <- Ha | by apply list_to_map_proper].
Qed.

Lemma wf_hashed m : wf m -> Forall (fun e => e_hash e = hash (e_key e)) (concat (buckets m)).
Proof. intros Hwf. rewrite Forall_forall. intros e He. by apply (entries_in_chain m). Qed.

Lemma rehash_spec n es b :
  (0 < n)%nat -> placed k0 k1 n b -> Forall (fun e => e_hash e = hash (e_key e)) es ->
  placed k0 k1 n (foldl (push_entry n) b es) /\ concat (foldl (push_entry n) b es) ≡ₚ es ++ concat b.
Proof.
  intros Hn Hb Hes. revert b Hb. induction Hes as [|e es He Hes IH]; intros b Hb; simpl; [done|].
  destruct (IH (push_entry n b e)) as [? Hp]; [by apply placed_push|]. split; [done|].
  rewrite Hp, concat_push_perm; [by rewrite <- Permutation_middle|].
  destruct Hb as [-> _]. by apply bucket_of_lt.
Qed.

Lemma placed_empty n : placed k0 k1 n (replicate n ([] : list (entry V))).
Proof.
  split; [by rewrite length_replicate|]. intros i es Hi. apply lookup_replicate in Hi as [-> _]. constructor.
Qed.

Lemma concat_empty {A} n : concat (replicate n (@nil A)) = [].
Proof. by induction n. Qed.

Lemma resize_spec m n o :
  wf m -> (nbuckets m <= n)%nat ->
  match hashmap_resize m n o with
  | (true, m', _) => wf m' /\ nbuckets m' = n /\ hm_map m' = hm_map m /\ count m' = count m
  | (false, m', _) => m' = m
  end.
Proof.
  intros Hwf Hle. pose proof Hwf as (Hn & Hpl & Hnd & Hc & Hload).
  unfold hashmap_resize. destruct (malloc o) as [[] o']; [|done].
  destruct (rehash_spec n (concat (buckets m)) (replicate n [])) as [Hpl' Hperm];
    [lia | apply placed_empty | by apply wf_hashed |].
  rewrite concat_empty, app_nil_r in Hperm. set (nb := foldl _ _ _) in *.
  destruct (hm_map_perm m (HashMap nb n (count m))) as [Hnd' Hmap]; [done | by symmetry |].
  unfold hm_wf. simpl. rewrite Hperm. split_and!; try done; lia.
Qed.

(** The entry a lookup finds, set apart from the rest of the table. *)
Lemma found_entry m key e :
  wf m -> find_entry m key (hash key) = Some e ->
  exists es1 es2, buckets m !! bucket_of (hash key) (nbuckets m) = Some (es1 ++ e :: es2) /\
    e_key e = key /\ entry_is key (hash key) e = true /\ e_hash e = hash key /\
    Forall (fun e => entry_is key (hash key) e = false) es1.
Proof.
  intros Hwf Hf. pose proof (wf_chain m (hash key) Hwf) as Hch. unfold find_entry in Hf.
  pose proof (chain_find_spec key (hash key) (chain m (bucket_of (hash key) (nbuckets m)))) as Hs.
  rewrite Hf in Hs. destruct Hs as (es1 & es2 & Hes & Hk & Hh & H1).
  exists es1, es2. rewrite Hch, Hes. split_and!; try done. by apply entry_is_spec.
Qed.

(** Exchanging the entries [xs] of a chain for [ys]. *)
Lemma alter_chain_perm b i f es1 xs ys es2 :
  b !! i = Some (es1 ++ xs ++ es2) -> f (es1 ++ xs ++ es2) = es1 ++ ys ++ es2 ->
  concat (alter f i b) ++ xs ≡ₚ concat b ++ ys.
Proof.
  intros Hb Hf. apply (Permutation_app_inv_r (es1 ++ es2)).
  rewrite <- !app_assoc, !(app_assoc _ es1), !(Permutation_app_comm _ es1), <- !app_assoc.
  rewrite <- Hf. by apply concat_alter_perm.
Qed.

Lemma assoc_cons m m' e :
  concat (buckets m') ≡ₚ e :: concat (buckets m) -> hm_assoc m' ≡ₚ (e_key e, e_value e) :: hm_assoc m.
Proof. intros Hp. unfold hm_assoc. by rewrite Hp. Qed.

(** One more entry, under a new key. *)
Lemma map_cons m m' e :
  NoDup (hm_assoc m').*1 -> concat (buckets m') ≡ₚ e :: concat (buckets m) ->
  hm_map m' = <[e_key e := e_value e]> (hm_map m) /\ hm_map m !! e_key e = None /\ NoDup (hm_assoc m).*1.
Proof.
  intros Hnd Hp%assoc_cons. unfold hm_map. rewrite Hp in Hnd. apply NoDup_cons in Hnd as [Hni Hnd].
  split_and!; [|by apply not_elem_of_list_to_map_1 | done].
  rewrite <- (list_to_map_cons (M := gmap bytes)). apply list_to_map_proper; [|done].
  rewrite Hp. by apply NoDup_cons.
Qed.

Lemma put_new m key v :
  wf m -> overloaded m = false -> hm_map m !! key = None ->
  let m' := HashMap (push_entry (nbuckets m) (buckets m) (Entry key v (hash key))) (nbuckets m) (count m + 1) in
  wf m' /\ hm_map m' = <[key := v]> (hm_map m).
Proof.
  intros (Hn & Hpl & Hnd & Hc & Hload) Hov Hnone m'. set (e := Entry key v (hash key)).
  assert (Hp : concat (buckets m') ≡ₚ e :: concat (buckets m)).
  { apply concat_push_perm. destruct Hpl as [-> _]. by apply bucket_of_lt. }
  assert (Hnd' : NoDup (hm_assoc m').*1).
  { rewrite (assoc_cons _ _ _ Hp). apply NoDup_cons. split; [|done].
    by apply not_elem_of_list_to_map_2 in Hnone. }
  destruct (map_cons m m' e Hnd' Hp) as (Hm & _ & _). split; [|done].
  unfold hm_wf. rewrite Hp. unfold overloaded in Hov. reflect_bools. simpl.
  split_and!; [done | by apply placed_push | done | lia | lia].
Qed.

Lemma put_replace m key v e :
  wf m -> find_entry m key (hash key) = Some e ->
  let m' := HashMap (alter (chain_set key (hash key) v) (bucket_of (hash key) (nbuckets m)) (buckets m))
              (nbuckets m) (count m) in
  wf m' /\ hm_map m' = <[key := v]> (hm_map m).
Proof.
  intros Hwf Hf m'. destruct (found_entry m key e Hwf Hf) as (es1 & es2 & Hb & Hk & Hi & Hh & H1).
  destruct Hwf as (Hn & Hpl & Hnd & Hc & Hload).
  set (e' := Entry (e_key e) v (e_hash e)).
  assert (Hp : concat (buckets m') ++ [e] ≡ₚ concat (buckets m) ++ [e']).
  { apply alter_chain_perm with es1 es2; [done|]. by apply chain_set_app. }
  assert (He : e ∈ concat (buckets m)).
  { apply list_elem_of_concat. eexists. split; [|by eapply list_elem_of_lookup_2]. set_solver. }
  apply elem_of_Permutation in He as [rest Hrest]. rewrite Hrest in Hp.
  assert (Hp' : concat (buckets m') ≡ₚ e' :: rest).
  { apply (Permutation_app_inv_r [e]). rewrite Hp. simpl.
    rewrite (Permutation_app_comm rest [e']), (Permutation_app_comm rest [e]). simpl. apply perm_swap. }
  pose (m0 := HashMap [rest] 1 0).
  assert (H0 : concat (buckets m) ≡ₚ e :: concat (buckets m0)) by (simpl; by rewrite app_nil_r).
  assert (H0' : concat (buckets m') ≡ₚ e' :: concat (buckets m0)) by (simpl; by rewrite app_nil_r).
  assert (Hnd' : NoDup (hm_assoc m').*1).
  { rewrite (assoc_cons _ _ _ H0'). by rewrite (assoc_cons _ _ _ H0) in Hnd. }
  destruct (map_cons m0 m e Hnd H0) as (Hm & _ & _). destruct (map_cons m0 m' e' Hnd' H0') as (Hm' & _ & _).
  split; [|rewrite Hm, Hm'; simpl; by rewrite Hk, insert_insert_eq].
  unfold hm_wf. rewrite Hp'. rewrite Hrest in Hc. simpl. split_and!; [done| |done|done|done].
  apply placed_alter; [done|]. intros es Hes Hall. rewrite Hb in Hes. injection Hes as <-.
  rewrite chain_set_app by done. apply Forall_app in Hall as [? Hall]. apply Forall_app. split; [done|].
  apply Forall_cons in Hall as [? ?]. by constructor.
Qed.

(** A failed insertion may leave the table resized; it keeps the contents. *)
Lemma put_spec m key v o :
  wf m ->
  match hashmap_put k0 k1 m key v o with
  | (true, old, m', _) => wf m' /\ old = hm_map m !! key /\ hm_map m' = <[key := v]> (hm_map m)
  | (false, old, m', _) => wf m' /\ old = None /\ hm_map m !! key = None /\ hm_map m' = hm_map m
  end.
Proof.
  intros Hwf. unfold hashmap_put. pose proof (hm_map_lookup m key Hwf) as Hlk.
  destruct (find_entry m key (hash key)) as [e|] eqn:Hf; simpl in Hlk.
  - destruct (put_replace m key v e Hwf Hf). by split_and!.
  - assert (Hgrow : match (if overloaded m then hashmap_resize m (nbuckets m * 2) o else (true, m, o)) with
      | (true, m', _) => wf m' /\ overloaded m' = false /\ hm_map m' = hm_map m
      | (false, m', _) => m' = m end).
    { destruct (overloaded m) eqn:Hov; [|done].
      pose proof (resize_spec m (nbuckets m * 2) o Hwf ltac:(lia)) as Hr.
      destruct (hashmap_resize _ _ _) as [[[] m'] o']; [|done].
      destruct Hr as (Hwf' & Hn & Hm & Hc). split_and!; try done.
      unfold overloaded. apply Nat.ltb_ge. rewrite Hc, Hn.
      destruct Hwf as (? & _ & _ & _ & ?). lia. }
    destruct (if overloaded m then _ else _) as [[[] m'] o']; [|subst m'; by split_and!].
    destruct Hgrow as (Hwf' & Hov & Hm).
    destruct (malloc o') as [[] o2]; [|by split_and!]. destruct (malloc o2) as [[] o3]; [|by split_and!].
    destruct (put_new m' key v Hwf' Hov) as [? Hput]; [by rewrite Hm|].
    rewrite Hm in Hput. by split_and!.
Qed.

(** With memory at hand an insertion succeeds. *)
Lemma put_memory m key v : exists old m', hashmap_put k0 k1 m key v [] = (true, old, m', []).
Proof.
  unfold hashmap_put. destruct (find_entry m key (hash key)); [by eexists _, _|].
  unfold hashmap_resize. simpl. destruct (overloaded m); by eexists _, _.
Qed.

Lemma remove_spec m key :
  wf m ->
  let '(v, m') := hashmap_remove k0 k1 m key in
  wf m' /\ v = hm_map m !! key /\ hm_map m' = delete key (hm_map m).
Proof.
  intros Hwf. pose proof (hm_map_lookup m key Hwf) as Hlk. unfold hashmap_remove.
  fold (find_entry m key (hash key)). destruct (find_entry m key (hash key)) as [e|] eqn:Hf; simpl in Hlk.
  2:{ split_and!; try done. by rewrite delete_id. }
  destruct (found_entry m key e Hwf Hf) as (es1 & es2 & Hb & <- & Hi & Hh & H1).
  destruct Hwf as (Hn & Hpl & Hnd & Hc & Hload).
  set (m' := HashMap _ _ _).
  assert (Hp : concat (buckets m) ≡ₚ e :: concat (buckets m')).
  { rewrite <- (app_nil_r (concat (buckets m))), Permutation_cons_append. symmetry.
    apply alter_chain_perm with es1 es2; [done|]. by apply chain_remove_app. }
  destruct (map_cons m' m e Hnd Hp) as (Hm & Hnone & Hnd').
  split_and!; [|done | by rewrite Hm, delete_insert_id].
  unfold hm_wf. rewrite Hp in Hc. simpl in *. split_and!; [done| |done|lia|lia].
  apply placed_alter; [done|]. intros es Hes Hall. rewrite Hb in Hes. injection Hes as <-.
  rewrite chain_remove_app by done. apply Forall_app in Hall as [? Hall]. apply Forall_app. split; [done|].
  by apply Forall_cons in Hall as [? ?].
Qed.

Lemma new_spec o m : fst (hashmap_new (V := V) o) = Some m -> wf m /\ hm_map m = ∅.
Proof.
  unfold hashmap_new. destruct (malloc o) as [[] o1]; [|done]. destruct (malloc o1) as [[] o2]; [|done].
  intros [= <-]. split; [|done]. unfold hm_wf, HASHMAP_INITIAL_BUCKETS. split_and!; simpl; [lia | apply (placed_empty 16) | constructor | done | lia].
Qed.

(** Iteration visits the bindings of the map, each once. *)
Lemma assoc_perm m : wf m -> hm_assoc m ≡ₚ map_to_list (hm_map m).
Proof. intros (_ & _ & Hnd & _). symmetry. by apply map_to_list_to_map. Qed.

Lemma count_spec m : wf m -> hashmap_count m = size (hm_map m).
Proof.
  intros Hwf. rewrite <- length_map_to_list, <- (assoc_perm m Hwf).
  destruct Hwf as (_ & _ & _ & Hc & _). unfold hm_assoc, hashmap_count. by rewrite length_fmap.
Qed.

(** * Any history of operations *)

Inductive op := OpPut (key : bytes) (v : V) | OpRemove (key : bytes) | OpGet (key : bytes) | OpCount.

Inductive reply := RPut (ok : bool) (old : option V) | RValue (v : option V) | RCount (n : nat).

(** One operation on the hash map. *)
Definition hm_op (c : op) (m : hashmap V) (o : oracle) : reply * hashmap V * oracle :=
  match c with
  | OpPut key v => let '(ok, old, m, o) := hashmap_put k0 k1 m key v o in (RPut ok old, m, o)
  | OpRemove key => let '(v, m) := hashmap_remove k0 k1 m key in (RValue v, m, o)
  | OpGet key => (RValue (hashmap_get k0 k1 m key), m, o)
  | OpCount => (RCount (hashmap_count m), m, o)
  end.

Fixpoint hm_run (cs : list op) (m : hashmap V) (o : oracle) : list reply * hashmap V :=
  match cs with
  | [] => ([], m)
  | c :: cs => let '(r, m, o) := hm_op c m o in
               let '(rs, m) := hm_run cs m o in (r :: rs, m)
  end.

(** The contract: which reply a finite map allows, and its next state.  Only an
    insertion of a new key may fail (no memory), and then it changes nothing. *)
Inductive map_step (d : gmap bytes V) : op -> reply -> gmap bytes V -> Prop :=
| step_put key v : map_step d (OpPut key v) (RPut true (d !! key)) (<[key := v]> d)
| step_put_oom key v : d !! key = None -> map_step d (OpPut key v) (RPut false None) d
| step_remove key : map_step d (OpRemove key) (RValue (d !! key)) (delete key d)
| step_get key : map_step d (OpGet key) (RValue (d !! key)) d
| step_count : map_step d OpCount (RCount (size d)) d.

Inductive map_trace : gmap bytes V -> list op -> list reply -> gmap bytes V -> Prop :=
| trace_nil d : map_trace d [] [] d
| trace_cons d c r d' cs rs d'' :
    map_step d c r d' -> map_trace d' cs rs d'' -> map_trace d (c :: cs) (r :: rs) d''.

Lemma hm_op_refines c m o r m' o' :
  wf m -> hm_op c m o = (r, m', o') -> wf m' /\ map_step (hm_map m) c r (hm_map m').
Proof.
  intros Hwf. destruct c as [key v|key|key|]; simpl.
  - pose proof (put_spec m key v o Hwf) as Hp. destruct (hashmap_put _ _ _ _ _ _) as [[[ok old] m1] o1].
    intros [= <- <- <-]. destruct ok.
    + destruct Hp as (? & -> & ->). split; [done | constructor].
    + destruct Hp as (? & -> & ? & ->). split; [done | by constructor].
  - pose proof (remove_spec m key Hwf) as Hr. destruct (hashmap_remove _ _ _ _) as [v m1].
    intros [= <- <- <-]. destruct Hr as (? & -> & ->). split; [done | constructor].
  - intros [= <- <- <-]. split; [done|]. unfold hashmap_get. rewrite <- hm_map_lookup by done. constructor.
  - intros [= <- <- <-]. split; [done|]. rewrite count_spec by done. constructor.
Qed.

Lemma hm_run_refines cs m o rs m' :
  wf m -> hm_run cs m o = (rs, m') -> wf m' /\ map_trace (hm_map m) cs rs (hm_map m').
Proof.
  revert m o rs. induction cs as [|c cs IH]; simpl; intros m o rs Hwf.
  - intros [= <- <-]. split; [done | constructor].
  - destruct (hm_op c m o) as [[r m1] o1] eqn:E1. destruct (hm_run cs m1 o1) as [rs1 m2] eqn:E2.
    intros [= <- <-]. destruct (hm_op_refines _ _ _ _ _ _ Hwf E1). destruct (IH _ _ _ ltac:(done) E2).
    split; [done | by econstructor].
Qed.

End Correctness.

(** C7: the hash map implements a finite map.  From a fresh table, any history of
    insertions, removals, lookups and counts, under any pattern of allocation
    failures, gives the replies a finite map from keys to values allows (an
    insertion fails only for a new key, and then changes nothing); the table it
    leaves keeps every entry in the chain of its hash, no duplicate key, an exact
    count and a load of at most 3/4. *)
Theorem hashmap_refines_map k0 k1 V (o o' : oracle) (m m' : hashmap V) cs rs :
  fst (hashmap_new o) = Some m -> hm_run k0 k1 cs m o' = (rs, m') ->
  map_trace ∅ cs rs (hm_map m') /\ hm_wf k0 k1 m'.
Proof.
  intros [Hwf <-]%(new_spec k0 k1) Hrun. by destruct (hm_run_refines k0 k1 cs m o' rs m' Hwf Hrun).
Qed.

Lemma hashmap_refines_map_witness :
  let cs := [OpPut (cstr "a") 1; OpPut (cstr "b") 2; OpPut (cstr "a") 3; OpRemove (cstr "b"); OpGet (cstr "a"); OpCount] in
  exists m, fst (hashmap_new []) = Some m /\
    map_trace ∅ cs [RPut true None; RPut true None; RPut true (Some 1); RValue (Some 2); RValue (Some 3); RCount 1]
      (hm_map (snd (hm_run 7 11 cs m []))).
Proof.
  eexists. split; [reflexivity|].
  eapply (hashmap_refines_map 7 11 Z [] [] _ _ _ _); [reflexivity | vm_compute; reflexivity].
Defined.

Lemma iter_entries_take {V S} (fn : bytes -> V -> S -> bool * S) es ctx :
  exists n, iter_entries fn es ctx = foldl (fun s e => snd (fn (e_key e) (e_value e) s)) ctx (take n es) /\
    ((forall k v s, fst (fn k v s) = false) -> n = length es).
Proof.
  revert ctx. induction es as [|e es IH]; intros ctx; simpl; [by exists 0%nat|].
  destruct (fn (e_key e) (e_value e) ctx) as [stop ctx'] eqn:E. destruct stop.
  - exists 1%nat. simpl. rewrite E. split; [done|].
    intros Hns. specialize (Hns (e_key e) (e_value e) ctx). by rewrite E in Hns.
  - destruct (IH ctx') as (n & -> & Hn). exists (Datatypes.S n). simpl. rewrite E. split; [done|]. auto.
Qed.

(** Iteration visits each binding of the map exactly once: the visitor runs on
    a prefix of a list that is, up to order, the bindings of the map, and on all
    of it when it never asks to stop. *)
Theorem hashmap_iter_visits k0 k1 V S (m : hashmap V) (fn : bytes -> V -> S -> bool * S) ctx :
  hm_wf k0 k1 m ->
  exists l n, l ≡ₚ map_to_list (hm_map m) /\
    hashmap_iter m fn ctx = foldl (fun s kv => snd (fn kv.1 kv.2 s)) ctx (take n l) /\
    ((forall k v s, fst (fn k v s) = false) -> n = length l).
Proof.
  intros Hwf. exists (hm_assoc m). unfold hashmap_iter.
  destruct (iter_entries_take fn (concat (buckets m)) ctx) as (n & -> & Hn).
  exists n. split_and!; [by apply (assoc_perm k0 k1) | |].
  - unfold hm_assoc. rewrite <- fmap_take, foldl_fmap. done.
  - intros Hns. unfold hm_assoc. rewrite length_fmap. auto.
Qed.

Lemma hashmap_iter_visits_witness :
  let m := snd (hm_run 7 11 [OpPut (cstr "a") 1; OpPut (cstr "b") 2] (HashMap (replicate 16 []) 16 0) []) in
  exists l n, l ≡ₚ map_to_list (hm_map m) /\
    hashmap_iter m (fun _ v s => (false, v + s)) 0 = foldl (fun s kv => kv.2 + s) 0 (take n l).
Proof.
  destruct (hashmap_iter_visits 7 11 Z Z
    (snd (hm_run 7 11 [OpPut (cstr "a") 1; OpPut (cstr "b") 2] (HashMap (replicate 16 []) 16 0) []))
    (fun _ v s => (false, v + s)) 0) as (l & n & Hl & Hi & _).
  - eapply (hm_run_refines 7 11 [OpPut (cstr "a") 1; OpPut (cstr "b") 2] _ []);
      [|apply surjective_pairing]. eapply (new_spec 7 11 []). reflexivity.
  - exact (ex_intro _ l (ex_intro _ n (conj Hl Hi))).
Defined.

(** * The interface of a registry

    What the broker and the dispatcher use of a map from names to pointers
    (object addresses, [positive]), and what they may rely on. *)

Class PtrMap (M : Type) := {
  pm_new : oracle -> option M * oracle;
  pm_get : M -> bytes -> option positive;
  pm_put : M -> bytes -> positive -> oracle -> bool * option positive * M * oracle;
  pm_remove : M -> bytes -> option positive * M;
  pm_count : M -> nat;
  pm_elems : M -> list (bytes * positive) (* in iteration order *)
}.

Class PtrMapLaws (M : Type) `{!PtrMap M} := {
  pm_ok : M -> Prop;
  pm_map : M -> gmap bytes positive;
  pm_new_ok o m : fst (pm_new o) = Some m -> pm_ok m /\ pm_map m = ∅;
  pm_new_memory : exists m, pm_new [] = (Some m, []);
  pm_get_spec m k : pm_ok m -> pm_get m k = pm_map m !! k;
  pm_put_spec m k v o : pm_ok m ->
    match pm_put m k v o with
    | (true, old, m', _) => pm_ok m' /\ old = pm_map m !! k /\ pm_map m' = <[k := v]> (pm_map m)
    | (false, old, m', _) => pm_ok m' /\ old = None /\ pm_map m !! k = None /\ pm_map m' = pm_map m
    end;
  pm_put_memory m k v : exists old m', pm_put m k v [] = (true, old, m', []);
  pm_remove_spec m k : pm_ok m ->
    let '(v, m') := pm_remove m k in
    pm_ok m' /\ v = pm_map m !! k /\ pm_map m' = delete k (pm_map m);
  pm_count_spec m : pm_ok m -> pm_count m = size (pm_map m);
  pm_elems_spec m : pm_ok m -> pm_elems m ≡ₚ map_to_list (pm_map m)
}.

(** The hash map keyed by the process secret [(k0, k1)] is such a registry. *)
Definition hashmap_registry (k0 k1 : Z) : PtrMap (hashmap positive) := {|
  pm_new := hashmap_new;
  pm_get := hashmap_get k0 k1;
  pm_put := hashmap_put k0 k1;
  pm_remove := hashmap_remove k0 k1;
  pm_count := hashmap_count;
  pm_elems := fun m => hm_assoc m
|}.

#[local] Obligation Tactic := idtac.
#[global] Program Instance hashmap_registry_laws k0 k1 :
  @PtrMapLaws (hashmap positive) (hashmap_registry k0 k1) := {|
  pm_ok := hm_wf k0 k1;
  pm_map := hm_map
|}.
Next Obligation. intros k0 k1 o m Hm. exact (new_spec k0 k1 o m Hm). Qed.
Next Obligation. intros. by eexists. Qed.
Next Obligation. intros. simpl. symmetry. by apply hm_map_lookup. Qed.
Next Obligation. intros. by apply put_spec. Qed.
Next Obligation. intros. by apply put_memory. Qed.
Next Obligation. intros. by apply remove_spec. Qed.
Next Obligation. intros. by eapply count_spec. Qed.
Next Obligation. intros. by eapply assoc_perm. Qed.
