(* ===== verification/Message.v ===== *)
(** Reference-counted messages: src/src/message.c, src/include/message.h.

    A message's contents never change once it is shared, so they are a value
    ([message]) that carries the address of its block; the counts live in the
    [heap], a table from the addresses of the allocated blocks to their
    [refcount].  Taking or dropping a reference to a block that is not allocated
    is a use after free: it sets [h_fault], and the ownership predicate [holds]
    (every count is the number of references held) excludes it. *)

From S2P Require Import Prelude.

Record message := Message {
  m_addr : positive;
  m_id : Z;
  m_cluster_id : Z;
  m_exchange : bytes;
  m_routing_key : bytes;
  m_body : bytes;
  m_props : bytes; (* empty: the NULL pointer *)
  m_dl_hops : Z
}.

#[global] Instance message_settable : Settable message := fun m =>
  Message (m_addr m) (m_id m) (m_cluster_id m) (m_exchange m) (m_routing_key m) (m_body m)
    (m_props m) (m_dl_hops m).

#[global] Instance message_eq_dec : EqDecision message.
Proof. solve_decision. Defined.

Definition m_body_len (m : message) : Z := Z.of_nat (length (m_body m)).

(** The allocator: the outcomes still to come, the next address, the counts of the
    live blocks, and whether a dead block was touched. *)
Record heap := Heap {
  h_oracle : oracle;
  h_next : positive;
  h_refs : gmap positive Z;
  h_fault : bool
}.

#[global] Instance heap_settable : Settable heap := fun h =>
  Heap (h_oracle h) (h_next h) (h_refs h) (h_fault h).

(** The next allocation outcome, for the blocks that are not messages. *)
Definition h_malloc (h : heap) : bool * heap :=
  let '(ok, o) := malloc (h_oracle h) in (ok, h <| h_oracle := o |>).

(** * Operations *)

Definition message_new_full (exchange routing_key : option bytes) (body : bytes)
    (props : option bytes) (h : heap) : option message * heap :=
  let '(ok, h) := h_malloc h in
  if ok then
    let m := Message (h_next h) 0 0 (default [] exchange) (default [] routing_key) body
               (default [] props) 0 in
    (Some m, h <| h_next := Pos.succ (h_next h) |> <| h_refs ::= <[h_next h := 1]> |>)
  else (None, h).

Definition message_new (exchange routing_key : option bytes) (body : bytes) (h : heap)
    : option message * heap :=
  message_new_full exchange routing_key body None h.

Definition message_ref (m : message) (h : heap) : heap :=
  match h_refs h !! m_addr m with
  | Some n => h <| h_refs ::= <[m_addr m := n + 1]> |>
  | None => h <| h_fault := true |>
  end.

Definition message_unref (m : option message) (h : heap) : heap :=
  match m with
  | None => h
  | Some m =>
      match h_refs h !! m_addr m with
      | Some n => if n =? 1 then h <| h_refs ::= delete (m_addr m) |>
                  else h <| h_refs ::= <[m_addr m := n - 1]> |>
      | None => h <| h_fault := true |>
      end
  end.

Definition message_refcount (m : message) (h : heap) : option Z := h_refs h !! m_addr m.

#[global] Arguments message_ref : simpl never.
#[global] Arguments message_unref : simpl never.

(** Dropping a list of references, first to last. *)
Definition unref_all (ms : list message) (h : heap) : heap :=
  foldl (fun h m => message_unref (Some m) h) h ms.

Definition ref_all (ms : list message) (h : heap) : heap :=
  foldl (fun h m => message_ref m h) h ms.

(** * Ownership *)

(** The counts that make [refs] the list of the references held. *)
Definition counts (refs : list message) : gmap positive Z :=
  foldr (fun m c => <[m_addr m := default 0 (c !! m_addr m) + 1]> c) ∅ refs.

(** No dead block was touched, the count of every live block is the number of
    references held to it, and new addresses are fresh. *)
Record holds (h : heap) (refs : list message) : Prop := Holds {
  holds_fault : h_fault h = false;
  holds_refs : h_refs h = counts refs;
  holds_next : forall a n, h_refs h !! a = Some n -> (a < h_next h)%positive
}.

Definition occurrences (a : positive) (refs : list message) : nat :=
  length (filter (fun m => m_addr m = a) refs).

Lemma counts_lookup refs a :
  counts refs !! a = match occurrences a refs with O => None | n => Some (Z.of_nat n) end.
Proof.
  unfold occurrences. induction refs as [|m refs IH]; [done|]. simpl.
  rewrite filter_cons. destruct (decide (m_addr m = a)) as [->|Hne].
  - rewrite lookup_insert_eq, IH. simpl. destruct (length (filter _ refs)); simpl; f_equal; lia.
  - by rewrite lookup_insert_ne.
Qed.

Lemma counts_pos refs a n : counts refs !! a = Some n -> 0 < n.
Proof. rewrite counts_lookup. destruct (occurrences a refs); intros; simplify_eq; lia. Qed.

#[global] Instance counts_proper : Proper ((≡ₚ) ==> (=)) counts.
Proof.
  intros r1 r2 Hp. apply map_eq. intros a. rewrite !counts_lookup. unfold occurrences. by rewrite Hp.
Qed.

#[global] Instance holds_proper h : Proper ((≡ₚ) ==> iff) (holds h).
Proof.
  intros r1 r2 Hp. split; intros [Hf Hr Hn]; constructor; try done.
  - by rewrite Hr, Hp.
  - by rewrite Hr, Hp.
Qed.

Lemma counts_live refs m : m ∈ refs -> is_Some (counts refs !! m_addr m).
Proof.
  intros Hm. rewrite counts_lookup. unfold occurrences.
  destruct (filter _ refs) eqn:E; [|simpl; eauto].
  assert (Hin : m ∈ filter (fun m0 => m_addr m0 = m_addr m) refs) by (by apply list_elem_of_filter).
  rewrite E in Hin. set_solver.
Qed.

Lemma holds_malloc h refs : holds h refs -> holds (snd (h_malloc h)) refs.
Proof. intros [Hf Hr Hn]. unfold h_malloc. destruct (malloc (h_oracle h)). by constructor. Qed.

Lemma holds_ref h refs m : holds h refs -> m ∈ refs -> holds (message_ref m h) (m :: refs).
Proof.
  intros [Hf Hr Hn] Hm. unfold message_ref.
  destruct (counts_live refs m Hm) as [n Hlk]. rewrite Hr, Hlk.
  constructor; simpl; [done| |].
  - by rewrite Hr, Hlk.
  - intros a k. destruct (decide (a = m_addr m)) as [->|Hne].
    + intros _. apply (Hn _ n). by rewrite Hr.
    + rewrite lookup_insert_ne by done. apply Hn.
Qed.

Lemma holds_unref h refs m : holds h (m :: refs) -> holds (message_unref (Some m) h) refs.
Proof.
  intros [Hf Hr Hn]. unfold message_unref. rewrite Hr. simpl counts. rewrite lookup_insert_eq.
  assert (Hsub : forall a, a <> m_addr m -> h_refs h !! a = counts refs !! a)
    by (intros a Ha; rewrite Hr; simpl; by rewrite lookup_insert_ne).
  destruct (counts refs !! m_addr m) as [n|] eqn:Hlk; simpl.
  - pose proof (counts_pos _ _ _ Hlk). destruct (Z.eqb_spec (n + 1) 1); [lia|].
    constructor; simpl; [done| |].
    + rewrite Hr. simpl. rewrite insert_insert_eq, insert_id; [done|]. rewrite Hlk. f_equal. lia.
    + intros a k. destruct (decide (a = m_addr m)) as [->|Hne].
      * intros _. eapply Hn. rewrite Hr. simpl. apply lookup_insert_eq.
      * rewrite lookup_insert_ne by done. apply Hn.
  - constructor; simpl; [done| |].
    + rewrite Hr. simpl. by rewrite delete_insert_id.
    + intros a k Ha. apply lookup_delete_Some in Ha as [_ Ha]. by eapply Hn.
Qed.

Lemma holds_unref_all h ms refs : holds h (ms ++ refs) -> holds (unref_all ms h) refs.
Proof. revert h. induction ms as [|m ms IH]; intros h H; [done|]. apply IH. by apply holds_unref. Qed.

Lemma holds_ref_all h ms refs :
  holds h refs -> Forall (fun m => m ∈ refs) ms -> holds (ref_all ms h) (ms ++ refs).
Proof.
  revert h refs. induction ms as [|m ms IH]; intros h refs H Hms; [done|].
  apply Forall_cons in Hms as [Hm Hms]. simpl. rewrite Permutation_middle. apply IH.
  - by apply holds_ref.
  - eapply Forall_impl; [done|]. simpl. set_solver.
Qed.

Lemma holds_new h refs exchange routing_key body props :
  holds h refs ->
  match message_new_full exchange routing_key body props h with
  | (Some m, h') => holds h' (m :: refs) /\ Forall (fun x => m_addr x <> m_addr m) refs
  | (None, h') => holds h' refs
  end.
Proof.
  intros H. unfold message_new_full. pose proof (holds_malloc _ _ H) as Hm.
  destruct (h_malloc h) as [[] h']; [|done]. simpl in Hm. destruct Hm as [Hf Hr Hn].
  assert (Hfresh : h_refs h' !! h_next h' = None).
  { apply eq_None_not_Some. intros [n Hc]. specialize (Hn _ _ Hc). lia. }
  split; [constructor; simpl|].
  - done.
  - rewrite Hr in Hfresh. by rewrite Hr, Hfresh.
  - intros a n. destruct (decide (a = h_next h')) as [->|]; [lia|].
    rewrite lookup_insert_ne by done. intros Ha. specialize (Hn _ _ Ha). lia.
  - rewrite Forall_forall. simpl. intros x Hx Heq.
    destruct (counts_live _ _ Hx) as [n Hc]. rewrite <- Hr, Heq in Hc. congruence.
Qed.

(** Taking and dropping references allocates nothing. *)
Lemma message_ref_oracle m h : h_oracle (message_ref m h) = h_oracle h.
Proof. unfold message_ref. by destruct (h_refs h !! m_addr m). Qed.

Lemma message_unref_oracle m h : h_oracle (message_unref m h) = h_oracle h.
Proof.
  unfold message_unref. destruct m as [m|]; [|done].
  destruct (h_refs h !! m_addr m) as [n|]; [|done]. by destruct (n =? 1).
Qed.

Lemma ref_all_oracle ms h : h_oracle (ref_all ms h) = h_oracle h.
Proof. revert h. induction ms as [|m ms IH]; intros h; [done|]. simpl. by rewrite IH, message_ref_oracle. Qed.

Lemma unref_all_oracle ms h : h_oracle (unref_all ms h) = h_oracle h.
Proof.
  revert h. induction ms as [|m ms IH]; intros h; [done|].
  change (h_oracle (unref_all ms (message_unref (Some m) h)) = h_oracle h). by rewrite IH, message_unref_oracle.
Qed.

(** Only the addresses of the references matter: the contents may be filled in
    before a message is shared. *)
Lemma holds_same_addr h refs refs' :
  m_addr <$> refs = m_addr <$> refs' -> holds h refs -> holds h refs'.
Proof.
  intros He. assert (Hc : counts refs = counts refs').
  { revert refs' He. induction refs as [|m refs IH]; intros [|m' refs'] He; try done.
    simpl in *. injection He as Ha Hr. by rewrite Ha, (IH refs' Hr). }
  intros [Hf Hr Hn]. constructor; [done | congruence | done].
Qed.

Lemma holds_empty o a : holds (Heap o a ∅ false) [].
Proof. constructor; try done. Qed.
