(* ===== verification/Queue.v ===== *)
(** A queue: src/src/queue.c, src/include/queue.h.

    [queue] has the fields of [struct beaver_queue]; [sys] holds the allocator with
    the reference counts of the messages and the process-wide statics of queue.c.
    Every function runs under the queue's mutex in the source, so it is one
    atomic step here; [queue_enqueue_locked] is the part of [queue_enqueue] that
    holds the mutex, and returns the evicted messages that are dead-lettered
    after the mutex is released (Broker.v composes the two parts).

    The ring buffer refines a FIFO list ([contents]). *)

From S2P Require Import Prelude Tables Message.

(** * State *)

Inductive queue_overflow_t :=
| QUEUE_OVERFLOW_REJECT_PUBLISH
| QUEUE_OVERFLOW_DROP_HEAD.

#[global] Instance queue_overflow_eq_dec : EqDecision queue_overflow_t.
Proof. solve_decision. Defined.

(** A registered waiter: the callback and its context. *)
Definition waiter : Type := positive * positive.

Record queue := Queue {
  q_name : bytes;
  q_vhost : option bytes;
  q_flags : Z;
  q_max_length : Z;
  q_max_bytes : Z;
  q_overflow : queue_overflow_t;
  q_congested : bool;
  q_dl_exchange : option bytes;
  q_dl_routing_key : option bytes;
  q_dl_fn : bool; (* the broker's re-router is installed *)
  q_slots : list (option message);
  q_cap : nat;
  q_head : nat;
  q_tail : nat;
  q_count : nat;
  q_total_enqueued : Z;
  q_total_dequeued : Z;
  q_total_dropped : Z;
  q_total_rejected : Z;
  q_total_bytes : Z;
  q_deliver_hi : Z;
  q_unacked : list Z;
  q_cap_unacked : nat;
  q_consume_replicated : Z;
  q_waiters : list waiter;
  q_cap_waiters : nat;
  q_consumers : Z;
  q_refcount : Z;
  q_exclusive_owner : Z
}.

#[global] Instance queue_settable : Settable queue := fun q =>
  Queue (q_name q) (q_vhost q) (q_flags q) (q_max_length q) (q_max_bytes q) (q_overflow q)
    (q_congested q) (q_dl_exchange q) (q_dl_routing_key q) (q_dl_fn q) (q_slots q) (q_cap q)
    (q_head q) (q_tail q) (q_count q) (q_total_enqueued q) (q_total_dequeued q)
    (q_total_dropped q) (q_total_rejected q) (q_total_bytes q) (q_deliver_hi q) (q_unacked q)
    (q_cap_unacked q) (q_consume_replicated q) (q_waiters q) (q_cap_waiters q) (q_consumers q)
    (q_refcount q) (q_exclusive_owner q).

Record sys := Sys {
  s_heap : heap;
  g_queue_max_length : Z;
  g_queue_max_bytes : Z;
  g_flow_alarm_count : Z;
  g_mem_alarm : bool;
  g_mem_high_bytes : Z
}.

#[global] Instance sys_settable : Settable sys := fun s =>
  Sys (s_heap s) (g_queue_max_length s) (g_queue_max_bytes s) (g_flow_alarm_count s)
    (g_mem_alarm s) (g_mem_high_bytes s).

Definition s_malloc (s : sys) : bool * sys :=
  let '(ok, h) := h_malloc (s_heap s) in (ok, s <| s_heap := h |>).

(** * Process-wide settings and alarms *)

Definition queue_flow_alarm_active (s : sys) : bool := 0 <? g_flow_alarm_count s.

Definition queue_memory_alarm_active (s : sys) : bool := g_mem_alarm s.

Definition queue_set_memory_watermark (high_bytes : Z) (s : sys) : sys :=
  let s := s <| g_mem_high_bytes := high_bytes |> in
  if high_bytes =? 0 then s <| g_mem_alarm := false |> else s.

Definition queue_memory_watermark (s : sys) : Z := g_mem_high_bytes s.

Definition queue_memory_alarm_update (used_bytes : Z) (s : sys) : bool * sys :=
  if g_mem_high_bytes s =? 0 then (false, s)
  else
    let on := g_mem_alarm s in
    let low := g_mem_high_bytes s - g_mem_high_bytes s / 10 in
    if negb on && (g_mem_high_bytes s <=? used_bytes) then (true, s <| g_mem_alarm := true |>)
    else if on && (used_bytes <=? low) then (false, s <| g_mem_alarm := false |>)
    else (on, s).

Definition queue_set_default_limits (max_length max_bytes : Z) (s : sys) : sys :=
  s <| g_queue_max_length := max_length |> <| g_queue_max_bytes := max_bytes |>.

Definition queue_get_default_limits (s : sys) : Z * Z :=
  (g_queue_max_length s, g_queue_max_bytes s).

(** * Lifecycle *)

Definition QUEUE_INITIAL_CAP : nat := 16.

(** The zeroed struct with its name, slots, flags and first reference. *)
Definition fresh_queue (name : bytes) (flags : Z) : queue :=
  Queue name None flags 0 0 QUEUE_OVERFLOW_REJECT_PUBLISH false None None false
    (replicate QUEUE_INITIAL_CAP None) QUEUE_INITIAL_CAP 0 0 0 0 0 0 0 0 0 [] 0 0 [] 0 0 1 0.

(** The draws are the struct, the name, the slots and the mutex. *)
Definition queue_new (name : option bytes) (flags : Z) (s : sys) : option queue * sys :=
  let '(ok, s) := s_malloc s in
  if ok then
    let '(ok, s) := s_malloc s in
    if ok then
      let '(ok, s) := s_malloc s in
      if ok then
        let '(ok, s) := s_malloc s in
        if ok then
          (Some (fresh_queue (default [] name) flags), s)
        else (None, s)
      else (None, s)
    else (None, s)
  else (None, s).

Definition queue_ref (q : queue) : queue := q <| q_refcount ::= fun n => n + 1 |>.

(** Reading [slots[i]]: [None] is the NULL pointer. *)
Definition slot (q : queue) (i : nat) : option message := q_slots q !! i ≫= id.

(** The slots of the live window, [slots[(head + i) % cap]] for [i < count]. *)
Definition window (q : queue) : list (option message) :=
  (fun i => slot q ((q_head q + i) mod q_cap q)%nat) <$> seq 0 (q_count q).

(** The messages in the buffer, oldest first. *)
Definition contents (q : queue) : list message := omap id (window q).

(** [queue_unref]: [None] when the last reference went and the queue was freed, its
    messages released and its share of the flow alarm withdrawn. *)
Definition queue_unref (q : queue) (s : sys) : option queue * sys :=
  if q_refcount q =? 1 then
    let s := if q_congested q then s <| g_flow_alarm_count ::= fun n => u64 (n - 1) |> else s in
    (None, s <| s_heap ::= unref_all (contents q) |>)
  else (Some (q <| q_refcount ::= fun n => n - 1 |>), s).

Definition queue_name (q : queue) : bytes := q_name q.
Definition queue_vhost (q : queue) : bytes := default [] (q_vhost q).
Definition queue_flags (q : queue) : Z := q_flags q.

(** [strdup], NULL when it fails. *)
Definition strdup (str : bytes) (s : sys) : option bytes * sys :=
  let '(ok, s) := s_malloc s in (if ok then Some str else None, s).

Definition queue_set_vhost (vhost : option bytes) (q : queue) (s : sys) : queue * sys :=
  let '(v, s) := strdup (default [] vhost) s in (q <| q_vhost := v |>, s).

Definition queue_set_limits (max_length max_bytes : Z) (overflow : queue_overflow_t) (q : queue) : queue :=
  q <| q_max_length := max_length |> <| q_max_bytes := max_bytes |> <| q_overflow := overflow |>.

Definition queue_max_length (q : queue) : Z := q_max_length q.
Definition queue_max_bytes (q : queue) : Z := q_max_bytes q.
Definition queue_get_overflow (q : queue) : queue_overflow_t := q_overflow q.

Definition queue_total_dropped (q : queue) : Z := q_total_dropped q.
Definition queue_total_rejected (q : queue) : Z := q_total_rejected q.

(** [(str && str[0]) ? strdup(str) : NULL] *)
Definition strdup_nonempty (str : option bytes) (s : sys) : option bytes * sys :=
  match str with
  | None | Some [] => (None, s)
  | Some x => strdup x s
  end.

Definition queue_set_dead_letter (exchange routing_key : option bytes) (fn : bool)
    (q : queue) (s : sys) : queue * sys :=
  let '(ex, s) := strdup_nonempty exchange s in
  let '(rk, s) := strdup_nonempty routing_key s in
  (q <| q_dl_exchange := ex |> <| q_dl_routing_key := rk |>
     <| q_dl_fn := match ex with Some _ => fn | None => false end |>, s).

Definition queue_has_dead_letter (q : queue) : bool := q_dl_fn q.
Definition queue_dl_exchange (q : queue) : bytes := default [] (q_dl_exchange q).
Definition queue_dl_routing_key (q : queue) : bytes := default [] (q_dl_routing_key q).

(** [snprintf(out, cap, "%s", str)]: at most [cap - 1] characters. *)
Definition snprintf_s (cap : nat) (str : bytes) : bytes := take (cap - 1) str.

Definition queue_dead_letter_info (q : queue) (ex_cap rk_cap : nat) : bytes * bytes :=
  (snprintf_s ex_cap (default [] (q_dl_exchange q)),
   snprintf_s rk_cap (default [] (q_dl_routing_key q))).

Definition queue_set_exclusive_owner (conn_id : Z) (q : queue) : queue :=
  q <| q_exclusive_owner := conn_id |>.
Definition queue_exclusive_owner (q : queue) : Z := q_exclusive_owner q.

(** * The ring buffer *)

(** Dereferencing a NULL slot. *)
Definition null_deref (s : sys) : sys := s <| s_heap ::= fun h => h <| h_fault := true |> |>.

Definition queue_grow (q : queue) (s : sys) : bool * queue * sys :=
  let newcap := (q_cap q * 2)%nat in
  let '(ok, s) := s_malloc s in
  if ok then
    let ns := window q ++ replicate (newcap - q_count q) None in
    (true, q <| q_slots := ns |> <| q_cap := newcap |> <| q_head := 0%nat |> <| q_tail := q_count q |>, s)
  else (false, q, s).

(** [if (q->count == q->cap && queue_grow(q) != 0)] fails. *)
Definition make_room (q : queue) (s : sys) : bool * queue * sys :=
  if (q_count q =? q_cap q)%nat then queue_grow q s else (true, q, s).

(** Per-queue overrides win; 0 means the process-wide default. *)
Definition eff_max_length (s : sys) (q : queue) : Z :=
  if q_max_length q =? 0 then g_queue_max_length s else q_max_length q.
Definition eff_max_bytes (s : sys) (q : queue) : Z :=
  if q_max_bytes q =? 0 then g_queue_max_bytes s else q_max_bytes q.

Definition queue_would_overflow (s : sys) (q : queue) (body_len : Z) : bool :=
  let max_len := eff_max_length s q in
  let max_bytes := eff_max_bytes s q in
  (negb (max_len =? 0) && (max_len <? Z.of_nat (q_count q) + 1)) ||
  (negb (max_bytes =? 0) && (max_bytes <? u64 (q_total_bytes q + body_len))).

Definition queue_update_congestion (q : queue) (s : sys) : queue * sys :=
  let max_len := eff_max_length s q in
  let max_bytes := eff_max_bytes s q in
  let count := Z.of_nat (q_count q) in
  let over_high :=
    (negb (max_len =? 0) && (max_len - max_len / 10 <=? count)) ||
    (negb (max_bytes =? 0) && (max_bytes - max_bytes / 10 <=? q_total_bytes q)) in
  let under_low :=
    ((max_len =? 0) || (count <=? max_len - max_len / 4)) &&
    ((max_bytes =? 0) || (q_total_bytes q <=? max_bytes - max_bytes / 4)) in
  if negb (q_congested q) && over_high then
    (q <| q_congested := true |>, s <| g_flow_alarm_count ::= fun n => u64 (n + 1) |>)
  else if q_congested q && under_low then
    (q <| q_congested := false |>, s <| g_flow_alarm_count ::= fun n => u64 (n - 1) |>)
  else (q, s).

(* Conversion unfolds the callers first. *)
#[global] Strategy 100 [queue_update_congestion].

(** [slots[head] = NULL; head = (head + 1) % cap; count--], with the byte count kept
    in step. *)
Definition pop_head (q : queue) (m : message) : queue :=
  q <| q_slots ::= <[q_head q := None]> |>
    <| q_head := ((q_head q + 1) mod q_cap q)%nat |>
    <| q_count ::= Nat.pred |>
    <| q_total_bytes ::= fun n => u64 (n - m_body_len m) |>.

(** [slots[tail] = msg; tail = (tail + 1) % cap; count++], with the counters. *)
Definition put_slot (q : queue) (m : message) : queue :=
  q <| q_slots ::= <[q_tail q := Some m]> |>
    <| q_tail := ((q_tail q + 1) mod q_cap q)%nat |>
    <| q_count ::= S |>
    <| q_total_enqueued ::= fun n => u64 (n + 1) |>
    <| q_total_bytes ::= fun n => u64 (n + m_body_len m) |>.

(** Appending at the tail: the ring takes its own reference. *)
Definition push_tail (q : queue) (m : message) (s : sys) : queue * sys :=
  queue_update_congestion (put_slot q m) (s <| s_heap ::= message_ref m |>).

(** The evicted messages kept for dead-lettering: [dl], its capacity (a stack array
    of 8 before the first growth) and whether growing it failed. *)
Record dl_list := DlList { dl_msgs : list message; dl_cap : nat; dl_oom : bool }.

(** Keep [old] for dead-lettering, or drop it when the array cannot grow. *)
Definition dl_keep (old : message) (dl : dl_list) (s : sys) : bool * dl_list * sys :=
  if dl_oom dl then (false, dl, s)
  else if (length (dl_msgs dl) =? dl_cap dl)%nat then
    let '(ok, s) := s_malloc s in
    if ok then (true, DlList (dl_msgs dl ++ [old]) (dl_cap dl * 2) false, s)
    else (false, DlList (dl_msgs dl) (dl_cap dl) true, s)
  else (true, DlList (dl_msgs dl ++ [old]) (dl_cap dl) false, s).

(** The drop-head loop: [while (q->count > 0 && queue_would_overflow(...))].  Each
    round removes one message, so [fuel] = [count] rounds reach its end. *)
Fixpoint drop_head (fuel : nat) (body_len : Z) (has_dl : bool) (q : queue) (dl : dl_list) (s : sys)
    : queue * dl_list * sys :=
  match fuel with
  | O => (q, dl, s)
  | S fuel =>
      if (0 <? q_count q)%nat && queue_would_overflow s q body_len then
        match slot q (q_head q) with
        | None => (q, dl, null_deref s)
        | Some old =>
            let q := (pop_head q old) <| q_total_dropped ::= fun n => u64 (n + 1) |> in
            let '(kept, dl, s) := if has_dl then dl_keep old dl s else (false, dl, s) in
            let s := if kept then s else s <| s_heap ::= message_unref (Some old) |> in
            drop_head fuel body_len has_dl q dl s
        end
      else (q, dl, s)
  end.

Definition QUEUE_FULL : Z := -2.

(** [queue_enqueue] up to the release of the mutex: the return code and the messages
    to dead-letter. *)
Definition queue_enqueue_locked (q : queue) (msg : message) (s : sys) : Z * queue * list message * sys :=
  let over := queue_would_overflow s q (m_body_len msg) in
  if over && negb (bool_decide (q_overflow q = QUEUE_OVERFLOW_DROP_HEAD)) then
    (QUEUE_FULL, q <| q_total_rejected ::= fun n => u64 (n + 1) |>, [], s)
  else
    let '(q, dl, s) :=
      if over then drop_head (q_count q) (m_body_len msg) (q_dl_fn q) q (DlList [] 8 false) s
      else (q, DlList [] 8 false, s) in
    let '(ok, q, s) := make_room q s in
    if ok then
      let '(q, s) := push_tail q msg s in (0, q, dl_msgs dl, s)
    else (-1, q, dl_msgs dl, s).

Definition queue_requeue_internal (q : queue) (msg : message) (s : sys) : Z * queue * sys :=
  let '(ok, q, s) := make_room q s in
  if ok then
    let '(q, s) := push_tail q msg s in (0, q, s)
  else (-1, q, s).

(** The reference the ring held moves to the caller. *)
Definition queue_dequeue (q : queue) (s : sys) : option message * queue * sys :=
  if (0 <? q_count q)%nat then
    match slot q (q_head q) with
    | None => (None, q, null_deref s)
    | Some m =>
        let q := (pop_head q m) <| q_total_dequeued ::= fun n => u64 (n + 1) |> in
        let '(q, s) := queue_update_congestion q s in
        (Some m, q, s)
    end
  else (None, q, s).

(** * Consume tracking *)

(** The insertion point: the scan from the end past the larger ids. *)
Fixpoint scan_down (l : list Z) (cid : Z) (i : nat) : nat :=
  match i with
  | O => O
  | S j => if cid <? default 0 (l !! j) then scan_down l cid j else i
  end.

(** Room for one more id in [unacked]: grows the array when it is full, keeping the
    old one when that fails. *)
Definition grow_unacked (q : queue) (s : sys) : queue * sys :=
  if (length (q_unacked q) =? q_cap_unacked q)%nat then
    let nc := if (q_cap_unacked q =? 0)%nat then 16%nat else (q_cap_unacked q * 2)%nat in
    let '(ok, s) := s_malloc s in
    (if ok then q <| q_cap_unacked := nc |> else q, s)
  else (q, s).

(** Insert [cid] in order, skipping duplicates; returns [recorded]. *)
Definition record_unacked (cid : Z) (q : queue) (s : sys) : bool * queue * sys :=
  let i := scan_down (q_unacked q) cid (length (q_unacked q)) in
  let already_tracked := (0 <? i)%nat && (default 0 (q_unacked q !! (i - 1)%nat) =? cid) in
  if already_tracked then (true, q, s)
  else
    let '(q, s) := grow_unacked q s in
    if (length (q_unacked q) <? q_cap_unacked q)%nat then
      (true, q <| q_unacked ::= fun l => take i l ++ cid :: drop i l |>, s)
    else (false, q, s).

(** [if (cid > q->deliver_hi) q->deliver_hi = cid] *)
Definition raise_deliver_hi (cid : Z) (q : queue) : queue :=
  if q_deliver_hi q <? cid then q <| q_deliver_hi := cid |> else q.

Definition queue_consume_on_deliver (cid : Z) (no_ack : bool) (q : queue) (s : sys) : queue * sys :=
  if cid =? 0 then (q, s)
  else if no_ack then (raise_deliver_hi cid q, s)
  else
    let '(recorded, q, s) := record_unacked cid q s in
    (if recorded then raise_deliver_hi cid q else q, s).

(** Removing the first occurrence. *)
Fixpoint remove_cid (cid : Z) (l : list Z) : list Z :=
  match l with
  | [] => []
  | x :: l => if x =? cid then l else x :: remove_cid cid l
  end.

Definition queue_consume_on_ack (cid : Z) (q : queue) : queue :=
  if cid =? 0 then q else q <| q_unacked ::= remove_cid cid |>.

Definition queue_consume_watermark (q : queue) : Z :=
  match q_unacked q with
  | [] => q_deliver_hi q
  | x :: _ => u64 (x - 1)
  end.

(** Returns the references taken and whether the allocation failed. *)
Definition queue_snapshot_refs (max_cid : Z) (q : queue) (s : sys) : list message * bool * sys :=
  if (q_count q =? 0)%nat then ([], false, s)
  else
    let '(ok, s) := s_malloc s in
    if ok then
      let sel := filter (fun m => 0 < m_cluster_id m /\ m_cluster_id m <= max_cid) (contents q) in
      (sel, false, s <| s_heap ::= ref_all sel |>)
    else ([], true, s).

(** The first message that has a cluster id. *)
Fixpoint first_cid (ms : list message) : option Z :=
  match ms with
  | [] => None
  | m :: ms => if m_cluster_id m =? 0 then first_cid ms else Some (m_cluster_id m)
  end.

Definition queue_oldest_live_cluster_id (q : queue) : Z :=
  match q_unacked q with
  | x :: _ => x
  | [] => default UINT64_MAX (first_cid (contents q))
  end.

Definition queue_consume_mark_replicated (watermark : Z) (q : queue) : bool * queue :=
  if q_consume_replicated q <? watermark then (true, q <| q_consume_replicated := watermark |>)
  else (false, q).

(** The drain loop; [fuel] = [count] rounds reach its end. *)
Fixpoint drain_loop (fuel : nat) (watermark : Z) (q : queue) (s : sys) (drained : nat) : nat * queue * sys :=
  match fuel with
  | O => (drained, q, s)
  | S fuel =>
      if (0 <? q_count q)%nat then
        match slot q (q_head q) with
        | None => (drained, q, s)
        | Some m =>
            if (m_cluster_id m =? 0) || (watermark <? m_cluster_id m) then (drained, q, s)
            else
              let q := (pop_head q m) <| q_total_dequeued ::= fun n => u64 (n + 1) |> in
              drain_loop fuel watermark q (s <| s_heap ::= message_unref (Some m) |>) (S drained)
        end
      else (drained, q, s)
  end.

Definition queue_drain_consumed (watermark : Z) (q : queue) (s : sys) : nat * queue * sys :=
  let '(drained, q, s) := drain_loop (q_count q) watermark q s 0 in
  if (drained =? 0)%nat then (drained, q, s)
  else let '(q, s) := queue_update_congestion q s in (drained, q, s).

Definition queue_depth (q : queue) : nat := q_count q.
Definition queue_total_enqueued (q : queue) : Z := q_total_enqueued q.
Definition queue_total_dequeued (q : queue) : Z := q_total_dequeued q.

Fixpoint purge_loop (fuel : nat) (q : queue) (s : sys) : queue * sys :=
  match fuel with
  | O => (q, s)
  | S fuel =>
      if (0 <? q_count q)%nat then
        match slot q (q_head q) with
        | None => (q, null_deref s)
        | Some m => purge_loop fuel (pop_head q m) (s <| s_heap ::= message_unref (Some m) |>)
        end
      else (q, s)
  end.

Definition queue_purge (q : queue) (s : sys) : nat * queue * sys :=
  let purged := q_count q in
  let '(q, s) := purge_loop (q_count q) q s in
  let q := q <| q_total_dequeued ::= fun n => u64 (n + Z.of_nat purged) |> in
  let '(q, s) := queue_update_congestion q s in
  (purged, q, s).

(** * Waiters and consumers *)

Definition queue_add_waiter (w : waiter) (q : queue) (s : sys) : queue * sys :=
  if bool_decide (w ∈ q_waiters q) then (q, s)
  else
    let '(ok, q, s) :=
      if (length (q_waiters q) =? q_cap_waiters q)%nat then
        let nc := if (q_cap_waiters q =? 0)%nat then 4%nat else (q_cap_waiters q * 2)%nat in
        let '(ok, s) := s_malloc s in
        (ok, if ok then q <| q_cap_waiters := nc |> else q, s)
      else (true, q, s) in
    if ok then (q <| q_waiters ::= fun l => l ++ [w] |>, s) else (q, s).

Definition queue_remove_waiter (w : waiter) (q : queue) : queue :=
  match list_find (fun x => x = w) (q_waiters q) with
  | Some (i, _) => q <| q_waiters ::= swap_remove i |>
  | None => q
  end.

(** The callbacks invoked, in order. *)
Definition queue_wake_waiters (q : queue) : list waiter := q_waiters q.

Definition queue_consumers_inc (q : queue) : queue := q <| q_consumers ::= fun n => n + 1 |>.
Definition queue_consumers_dec (q : queue) : queue := q <| q_consumers ::= fun n => n - 1 |>.
Definition queue_consumer_count (q : queue) : Z := q_consumers q.

(** * The ring buffer is a FIFO list *)

(** The ring of these slots and indices holds the messages [l], oldest first. *)
Record ring_at (slots : list (option message)) (cap head tail count : nat) (l : list message) : Prop := Ring {
  ring_cap : (0 < cap)%nat;
  ring_slots : length slots = cap;
  ring_head : (head < cap)%nat;
  ring_count : count = length l;
  ring_fits : (count <= cap)%nat;
  ring_tail : tail = ((head + count) mod cap)%nat;
  ring_live : forall i m, l !! i = Some m -> slots !! ((head + i) mod cap)%nat = Some (Some m)
}.
#[global] Arguments ring_cap {slots cap head tail count l} _.
#[global] Arguments ring_slots {slots cap head tail count l} _.
#[global] Arguments ring_head {slots cap head tail count l} _.
#[global] Arguments ring_count {slots cap head tail count l} _.
#[global] Arguments ring_fits {slots cap head tail count l} _.
#[global] Arguments ring_tail {slots cap head tail count l} _.
#[global] Arguments ring_live {slots cap head tail count l} _.

Abbreviation ring q l := (ring_at (q_slots q) (q_cap q) (q_head q) (q_tail q) (q_count q) l).

Lemma ring_window q l : ring q l -> window q = Some <$> l.
Proof.
  intros H. apply list_eq. intros i. unfold window. rewrite !list_lookup_fmap.
  destruct (l !! i) as [m|] eqn:Hi.
  - pose proof (lookup_lt_Some _ _ _ Hi) as Hlt. rewrite <- (ring_count H) in Hlt.
    rewrite lookup_seq_lt by done. simpl. unfold slot. by rewrite (ring_live H i m Hi).
  - apply lookup_ge_None in Hi. rewrite <- (ring_count H) in Hi.
    by rewrite lookup_seq_ge.
Qed.

Lemma ring_contents q l : ring q l -> contents q = l.
Proof.
  intros H. unfold contents. rewrite (ring_window q l H). clear H.
  induction l as [|m l IH]; [done|]. csimpl. by rewrite IH.
Qed.

(** Two indices of the window are different slots. *)
Lemma mod_window_inj (h c i j : nat) :
  (i < c)%nat -> (j < c)%nat -> ((h + i) mod c = (h + j) mod c)%nat -> i = j.
Proof.
  intros Hi Hj He.
  pose proof (Nat.div_mod_eq (h + i) c) as E1. pose proof (Nat.div_mod_eq (h + j) c) as E2.
  rewrite He in E1. destruct (Nat.lt_trichotomy ((h + i) / c) ((h + j) / c)) as [|[Heq|]];
    [nia | rewrite Heq in E1; lia | nia].
Qed.

Lemma mod_succ_add (h c i : nat) : (((h + 1) mod c + i) mod c = (h + S i) mod c)%nat.
Proof. rewrite Nat.Div0.add_mod_idemp_l. f_equal. lia. Qed.

Lemma ring_slot_head q m l : ring q (m :: l) -> slot q (q_head q) = Some m.
Proof.
  intros H. pose proof (ring_live H 0 m eq_refl) as Hm. rewrite Nat.add_0_r in Hm.
  rewrite Nat.mod_small in Hm by apply (ring_head H). unfold slot. by rewrite Hm.
Qed.

Lemma ring_pop q m l : ring q (m :: l) -> ring (pop_head q m) l.
Proof.
  intros [Hc Hs Hh Hn Hf Ht Hl]. simpl in Hn. constructor; simpl; try lia.
  - by rewrite length_insert.
  - apply Nat.mod_upper_bound. lia.
  - rewrite Ht, mod_succ_add. f_equal. lia.
  - intros i m' Hi. rewrite mod_succ_add. pose proof (lookup_lt_Some _ _ _ Hi).
    rewrite list_lookup_insert_ne; [by apply Hl|].
    intros He. rewrite <- (Nat.mod_small (q_head q) (q_cap q)) in He at 1 by done.
    rewrite <- (Nat.add_0_r (q_head q)) in He at 1. apply mod_window_inj in He; lia.
Qed.

(** Writing the tail slot. *)
Lemma ring_push q q' m l :
  ring q l -> (q_count q < q_cap q)%nat ->
  q_slots q' = <[q_tail q := Some m]> (q_slots q) -> q_cap q' = q_cap q -> q_head q' = q_head q ->
  q_tail q' = ((q_tail q + 1) mod q_cap q)%nat -> q_count q' = S (q_count q) -> ring q' (l ++ [m]).
Proof.
  intros [Hc Hs Hh Hn Hf Ht Hl] Hlt E1 E2 E3 E4 E5. constructor; rewrite ?E1, ?E2, ?E3, ?E4, ?E5; try lia.
  - by rewrite length_insert.
  - rewrite length_app. simpl. lia.
  - rewrite Ht, Nat.Div0.add_mod_idemp_l. f_equal. lia.
  - intros i m' Hi. apply lookup_app_Some in Hi as [Hi|[Hge Hi]].
    + pose proof (lookup_lt_Some _ _ _ Hi). rewrite Ht, list_lookup_insert_ne; [by apply Hl|].
      intros He. apply mod_window_inj in He; lia.
    + apply list_lookup_singleton_Some in Hi as [Hi <-].
      replace i with (q_count q) by lia. rewrite Ht, list_lookup_insert_eq; [done|].
      rewrite Hs. apply Nat.mod_upper_bound. lia.
Qed.

Lemma ring_grown q q' l :
  ring q l -> q_slots q' = window q ++ replicate (q_cap q * 2 - q_count q) None ->
  q_cap q' = (q_cap q * 2)%nat -> q_head q' = 0%nat -> q_tail q' = q_count q -> q_count q' = q_count q ->
  ring q' l.
Proof.
  intros H E1 E2 E3 E4 E5. pose proof (ring_window q l H) as Hw.
  destruct H as [Hc Hs Hh Hn Hf Ht Hl]. constructor; rewrite ?E1, ?E2, ?E3, ?E4, ?E5, ?Hw; simpl; try lia.
  - rewrite length_app, length_fmap, length_replicate. lia.
  - rewrite Nat.mod_small; lia.
  - intros i m Hi. pose proof (lookup_lt_Some _ _ _ Hi). rewrite Nat.mod_small by lia.
    rewrite lookup_app_l by (rewrite length_fmap; lia). by rewrite list_lookup_fmap, Hi.
Qed.

(** * The invariant of a queue *)

Definition sum_bytes (l : list message) : Z := foldr (fun m n => m_body_len m + n) 0 l.

Lemma sum_bytes_app l1 l2 : sum_bytes (l1 ++ l2) = sum_bytes l1 + sum_bytes l2.
Proof. induction l1 as [|m l1 IH]; simpl; lia. Qed.

Lemma sum_bytes_nonneg l : 0 <= sum_bytes l.
Proof. induction l as [|m l IH]; simpl; unfold m_body_len; lia. Qed.

(** Consume tracking: the outstanding ids are sorted, real (not 0) and delivered. *)
Record tracking_at (unacked : list Z) (deliver_hi : Z) (cap_unacked : nat) : Prop := Tracking {
  trk_sorted : StronglySorted Z.lt unacked;
  trk_range : Forall (fun c => 0 < c <= deliver_hi) unacked;
  trk_hi : 0 <= deliver_hi < 2 ^ 64;
  trk_cap : (length unacked <= cap_unacked)%nat
}.
Abbreviation tracking_ok q := (tracking_at (q_unacked q) (q_deliver_hi q) (q_cap_unacked q)).

Definition waiters_at (waiters : list waiter) (cap_waiters : nat) : Prop :=
  NoDup waiters /\ (length waiters <= cap_waiters)%nat.
Abbreviation waiters_ok q := (waiters_at (q_waiters q) (q_cap_waiters q)).

(** The queue is consistent and holds [l]: the byte count is the sum of the bodies
    and the counters differ by the depth (both modulo the width of the counters). *)
Record qinv (q : queue) (l : list message) : Prop := QInv {
  qi_ring : ring q l;
  qi_bytes : q_total_bytes q = u64 (sum_bytes l);
  qi_counters : u64 (q_total_enqueued q - q_total_dequeued q - q_total_dropped q) = u64 (Z.of_nat (length l));
  qi_tracking : tracking_ok q;
  qi_waiters : waiters_ok q
}.

Definition queue_ok (q : queue) : Prop := qinv q (contents q).

Lemma qinv_contents q l : qinv q l -> contents q = l.
Proof. intros H. by apply ring_contents, (qi_ring q l). Qed.

Lemma qinv_ok q l : qinv q l -> queue_ok q.
Proof. intros H. unfold queue_ok. by rewrite (qinv_contents q l H). Qed.
#[export] Hint Resolve qinv_ok qinv_contents : bmq.

(** What the data operations leave alone. *)
Definition q_static (q : queue) :=
  (q_name q, q_vhost q, q_flags q, (q_max_length q, q_max_bytes q, q_overflow q),
   (q_dl_exchange q, q_dl_routing_key q, q_dl_fn q), (q_waiters q, q_cap_waiters q),
   q_consumers q, q_refcount q, q_exclusive_owner q).

Definition s_limits (s : sys) := (g_queue_max_length s, g_queue_max_bytes s, g_mem_alarm s, g_mem_high_bytes s).

(** The flow alarm counts this queue exactly while it is congested: the count less
    the queue's own share is unchanged. *)
Definition alarm_kept (q : queue) (s : sys) (q' : queue) (s' : sys) : Prop :=
  u64 (g_flow_alarm_count s' - Z.b2z (q_congested q')) = u64 (g_flow_alarm_count s - Z.b2z (q_congested q)).

(** Memory never runs out from here on. *)
Definition ample (s : sys) : Prop := h_oracle (s_heap s) = [].

Record framed (q : queue) (s : sys) (q' : queue) (s' : sys) : Prop := Framed {
  fr_static : q_static q' = q_static q;
  fr_limits : s_limits s' = s_limits s;
  fr_alarm : alarm_kept q s q' s';
  fr_ample : ample s -> ample s'
}.

Lemma framed_refl q s : framed q s q s.
Proof. by constructor. Qed.

Lemma framed_trans q1 s1 q2 s2 q3 s3 : framed q1 s1 q2 s2 -> framed q2 s2 q3 s3 -> framed q1 s1 q3 s3.
Proof.
  intros [? ? H1 ?] [? ? H2 ?]. constructor; [congruence.. | unfold alarm_kept in *; congruence | auto].
Qed.

Lemma congestion_spec q s q' s' :
  queue_update_congestion q s = (q', s') ->
  q' = q <| q_congested := q_congested q' |> /\
  s' = s <| g_flow_alarm_count := g_flow_alarm_count s' |> /\ framed q s q' s'.
Proof.
  assert (Hq : q = q <| q_congested := q_congested q |>) by (by destruct q).
  assert (Hs : s = s <| g_flow_alarm_count := g_flow_alarm_count s |>) by (by destruct s).
  unfold queue_update_congestion. destruct (q_congested q) eqn:Ec; simpl.
  - match goal with |- (if ?b then _ else _) = _ -> _ => destruct b end; intros [= <- <-].
    + split_and!; [done..|]. constructor; try done. unfold alarm_kept. simpl. rewrite Ec.
      unfold u64. rewrite wrap_sub_l. f_equal. simpl. lia.
    + rewrite Ec. split_and!; [done..|]. apply framed_refl.
  - match goal with |- (if ?b then _ else _) = _ -> _ => destruct b end; intros [= <- <-].
    + split_and!; [done..|]. constructor; try done. unfold alarm_kept. simpl. rewrite Ec.
      unfold u64. rewrite wrap_sub_l. f_equal. simpl. lia.
    + rewrite Ec. split_and!; [done..|]. apply framed_refl.
Qed.

(** Updating the congestion flag keeps the contents and the invariant. *)
Lemma qinv_congestion q l c : qinv q l -> qinv (q <| q_congested := c |>) l.
Proof. intros [Hr Hb Hc Ht Hw]. constructor; simpl; assumption. Qed.

Lemma congestion_qinv q s q' s' l :
  qinv q l -> queue_update_congestion q s = (q', s') ->
  qinv q' l /\ s_heap s' = s_heap s /\ framed q s q' s'.
Proof.
  intros H (-> & -> & Hf)%congestion_spec. split_and!; [by apply qinv_congestion | done | done].
Qed.

(** * Steps of the ring, with the counters *)

Lemma pop_dequeued q m l :
  qinv q (m :: l) -> qinv ((pop_head q m) <| q_total_dequeued ::= fun n => u64 (n + 1) |>) l.
Proof.
  intros [Hr Hb Hc Ht Hw]. apply ring_pop in Hr. simpl in Hb, Hc. constructor; simpl.
  - exact Hr.
  - rewrite Hb. u64_lia.
  - u64_lia.
  - exact Ht.
  - exact Hw.
Qed.

Lemma pop_dropped q m l :
  qinv q (m :: l) -> qinv ((pop_head q m) <| q_total_dropped ::= fun n => u64 (n + 1) |>) l.
Proof.
  intros [Hr Hb Hc Ht Hw]. apply ring_pop in Hr. simpl in Hb, Hc. constructor; simpl.
  - exact Hr.
  - rewrite Hb. u64_lia.
  - u64_lia.
  - exact Ht.
  - exact Hw.
Qed.

Lemma pop_framed q m s q' s' :
  q_static q' = q_static (pop_head q m) -> q_congested q' = q_congested q ->
  s_limits s' = s_limits s -> g_flow_alarm_count s' = g_flow_alarm_count s -> (ample s -> ample s') ->
  framed q s q' s'.
Proof. intros H1 H2 H3 H4 H5. constructor; [done..| |done]. unfold alarm_kept. by rewrite H2, H4. Qed.

Lemma put_slot_qinv q m l :
  qinv q l -> (q_count q < q_cap q)%nat -> qinv (put_slot q m) (l ++ [m]).
Proof.
  intros [Hr Hb Hc Ht Hw] Hlt. constructor.
  - by eapply (ring_push q).
  - simpl. rewrite Hb, sum_bytes_app. simpl. u64_lia.
  - simpl. rewrite length_app. simpl. u64_lia.
  - exact Ht.
  - exact Hw.
Qed.

Lemma push_qinv q m s q' s' l :
  qinv q l -> (q_count q < q_cap q)%nat -> push_tail q m s = (q', s') ->
  qinv q' (l ++ [m]) /\ s_heap s' = message_ref m (s_heap s) /\ framed q s q' s'.
Proof.
  intros Hq Hlt Hp. apply (congestion_qinv _ _ _ _ (l ++ [m])) in Hp as (Hq' & Hh & Hf);
    [|by apply put_slot_qinv].
  split_and!; [done | done |]. eapply framed_trans; [|done].
  constructor; try done. unfold ample. simpl. by rewrite message_ref_oracle.
Qed.

Lemma s_malloc_spec s ok s' :
  s_malloc s = (ok, s') ->
  s_limits s' = s_limits s /\ g_flow_alarm_count s' = g_flow_alarm_count s /\
  (forall refs, holds (s_heap s) refs -> holds (s_heap s') refs) /\
  (ample s -> ok = true /\ ample s').
Proof.
  unfold s_malloc. pose proof (fun refs => holds_malloc (s_heap s) refs) as Hm.
  unfold h_malloc in *. destruct (malloc (h_oracle (s_heap s))) as [ok1 o] eqn:E. intros [= <- <-].
  split_and!; try done. unfold ample. intros Ho. rewrite Ho in E. simpl in E. by injection E as <- <-.
Qed.

(** The ring has a free slot afterwards, or the allocation failed and nothing
    changed. *)
Lemma make_room_spec q s l ok q' s' :
  qinv q l -> make_room q s = (ok, q', s') ->
  qinv q' l /\ framed q s q' s' /\ (forall refs, holds (s_heap s) refs -> holds (s_heap s') refs) /\
  (ample s -> ok = true /\ ample s') /\
  (if ok then (q_count q' < q_cap q')%nat else q' = q).
Proof.
  intros H. unfold make_room, queue_grow. pose proof H as [Hr _ _ _ _].
  destruct (Nat.eqb_spec (q_count q) (q_cap q)) as [Hfull|Hn].
  - destruct (s_malloc s) as [ok1 s1] eqn:Em. apply s_malloc_spec in Em as (Hl & Ha & Hh & Ho).
    assert (Hfr : forall q1, q_static q1 = q_static q -> q_congested q1 = q_congested q -> framed q s q1 s1).
    { intros q1 E1 E2. constructor; [done..| |by apply Ho]. unfold alarm_kept. by rewrite E2, Ha. }
    destruct ok1; intros [= <- <- <-].
    + split_and!; [|by apply Hfr | done | done |].
      * destruct H as [_ ? ? ? ?]. constructor; [by eapply ring_grown | simpl; assumption..].
      * simpl. pose proof (ring_cap Hr). lia.
    + split_and!; [done | by apply Hfr | done | done | done].
  - intros [= <- <- <-]. split_and!; [done | apply framed_refl | done | done |].
    pose proof (ring_fits Hr). lia.
Qed.

(** * The operations on a consistent queue *)

(** [l] and one more body of [bl] bytes exceed the limits ([0]: no limit). *)
Definition over_limit (max_len max_bytes bl : Z) (l : list message) : bool :=
  (negb (max_len =? 0) && (max_len <? Z.of_nat (length l) + 1)) ||
  (negb (max_bytes =? 0) && (max_bytes <? u64 (sum_bytes l + bl))).

(** What drop-head leaves: messages go from the front until the newcomer fits or
    none is left. *)
Fixpoint keep_fitting (max_len max_bytes bl : Z) (l : list message) : list message :=
  match l with
  | [] => []
  | _ :: l' => if over_limit max_len max_bytes bl l then keep_fitting max_len max_bytes bl l' else l
  end.

Lemma keep_fitting_suffix ml mb bl l : keep_fitting ml mb bl l `suffix_of` l.
Proof.
  induction l as [|m l IH]; [done|]. cbn [keep_fitting].
  destruct (over_limit ml mb bl (m :: l)); [by apply suffix_cons_r | done].
Qed.

Lemma keep_fitting_fits ml mb bl l :
  keep_fitting ml mb bl l = [] \/ over_limit ml mb bl (keep_fitting ml mb bl l) = false.
Proof.
  induction l as [|m l IH]; [by left|]. cbn [keep_fitting].
  destruct (over_limit ml mb bl (m :: l)) eqn:E; auto.
Qed.

Lemma would_overflow_spec s q bl l :
  qinv q l -> queue_would_overflow s q bl = over_limit (eff_max_length s q) (eff_max_bytes s q) bl l.
Proof.
  intros [Hr Hb _ _ _]. unfold queue_would_overflow, over_limit.
  rewrite Hb, (ring_count Hr). unfold u64. by rewrite wrap_add_l.
Qed.

Lemma eff_framed q s q' s' :
  framed q s q' s' -> eff_max_length s' q' = eff_max_length s q /\ eff_max_bytes s' q' = eff_max_bytes s q.
Proof.
  intros [Hq Hs _ _]. unfold q_static in Hq. unfold s_limits in Hs. unfold eff_max_length, eff_max_bytes.
  injection Hq as _ _ _ -> -> _ _ _ _ _ _ _ _ _. by injection Hs as -> -> _ _.
Qed.

(** Keeping an evicted message: unless memory runs out it joins the list. *)
Lemma dl_keep_spec old dl s kept dl' s' :
  dl_keep old dl s = (kept, dl', s') ->
  s_limits s' = s_limits s /\ g_flow_alarm_count s' = g_flow_alarm_count s /\
  (forall refs, holds (s_heap s) refs -> holds (s_heap s') refs) /\
  dl_msgs dl' = dl_msgs dl ++ (if kept then [old] else []) /\ (dl_oom dl = true -> kept = false) /\
  (kept = false -> dl_oom dl' = true) /\
  (ample s -> dl_oom dl = false -> kept = true /\ dl_oom dl' = false) /\ (ample s -> ample s').
Proof.
  unfold dl_keep. destruct (dl_oom dl) eqn:Eo.
  { intros [= <- <- <-]. rewrite app_nil_r. by split_and!. }
  destruct (Nat.eqb _ _).
  - destruct (s_malloc s) as [ok s1] eqn:Em. apply s_malloc_spec in Em as (H1 & H2 & H3 & H4).
    destruct ok; intros [= <- <- <-]; simpl; rewrite ?app_nil_r; split_and!; try done; naive_solver.
  - intros [= <- <- <-]. by split_and!.
Qed.

(** The evicted messages that will be dead-lettered: none without a dead-letter
    target, all of them while memory lasts, always the oldest ones. *)
Definition dl_kept (has_dl : bool) (dl : dl_list) (s : sys) (dropped more : list message) : Prop :=
  more `prefix_of` dropped /\ (has_dl = false \/ dl_oom dl = true -> more = []) /\
  (has_dl = true -> dl_oom dl = false -> ample s -> more = dropped).

Lemma evict_one (has_dl : bool) q dl s m l kept dl1 s1 s2 F :
  qinv q (m :: l) -> holds (s_heap s) ((m :: l) ++ dl_msgs dl ++ F) ->
  (if has_dl then dl_keep m dl s else (false, dl, s)) = (kept, dl1, s1) ->
  s2 = (if kept then s1 else s1 <| s_heap ::= message_unref (Some m) |>) ->
  let q1 := (pop_head q m) <| q_total_dropped ::= fun n => u64 (n + 1) |> in
  qinv q1 l /\ framed q s q1 s2 /\ holds (s_heap s2) (l ++ dl_msgs dl1 ++ F) /\
  (forall dropped more, dl_kept has_dl dl1 s2 dropped more ->
     exists more', dl_kept has_dl dl s (m :: dropped) more' /\
       dl_msgs dl1 ++ more = dl_msgs dl ++ more').
Proof.
  intros Hq Hh Hk Hs2 q1.
  assert (Hs1 : s_limits s1 = s_limits s /\ g_flow_alarm_count s1 = g_flow_alarm_count s /\
    (forall refs, holds (s_heap s) refs -> holds (s_heap s1) refs) /\
    dl_msgs dl1 = dl_msgs dl ++ (if kept then [m] else []) /\
    (has_dl = false \/ dl_oom dl = true -> kept = false) /\
    (kept = false -> has_dl = false \/ dl_oom dl1 = true) /\
    (has_dl = true -> ample s -> dl_oom dl = false ->
      kept = true /\ dl_oom dl1 = false) /\ (ample s -> ample s1)).
  { destruct has_dl.
    - apply dl_keep_spec in Hk as (? & ? & ? & ? & ? & ? & ? & ?). split_and!; naive_solver.
    - injection Hk as <- <- <-. rewrite app_nil_r. split_and!; naive_solver. }
  destruct Hs1 as (Hl1 & Ha1 & Hh1 & Hm1 & Hno & Hoom & Hall & Hora).
  split_and!.
  - by apply pop_dropped.
  - subst s2. apply (pop_framed q m); [done | done | by destruct kept | by destruct kept |].
    intros Ho. unfold ample. destruct kept; simpl; rewrite ?message_unref_oracle; by apply Hora.
  - subst s2. apply Hh1 in Hh. rewrite Hm1. destruct kept.
    + rewrite <- app_assoc. simpl in *. by rewrite <- !Permutation_middle.
    + rewrite app_nil_r. by apply holds_unref.
  - intros dropped more (Hp & Hnone & Heq). exists ((if kept then [m] else []) ++ more).
    rewrite Hm1, <- app_assoc. split; [|done]. destruct kept; simpl.
    + split_and!; [by apply prefix_cons | intros Hc; by specialize (Hno Hc) |].
      intros E1 E2 E3. destruct (Hall E1 E3 E2) as (_ & ?). f_equal. subst s2. apply Heq; [done..|]. by apply Hora.
    + rewrite (Hnone (Hoom eq_refl)). split_and!; [apply prefix_nil | done |].
      intros E1 E2 E3. by destruct (Hall E1 E3 E2) as (? & _).
Qed.

Lemma drop_head_spec bl (has_dl : bool) l : forall q dl s q' dl' s' F,
  qinv q l -> drop_head (length l) bl has_dl q dl s = (q', dl', s') ->
  holds (s_heap s) (l ++ dl_msgs dl ++ F) ->
  let k := keep_fitting (eff_max_length s q) (eff_max_bytes s q) bl l in
  qinv q' k /\ framed q s q' s' /\ holds (s_heap s') (k ++ dl_msgs dl' ++ F) /\
  exists dropped more, l = dropped ++ k /\ dl_msgs dl' = dl_msgs dl ++ more /\ dl_kept has_dl dl s dropped more.
Proof.
  assert (Hnil : forall dl s, dl_kept has_dl dl s [] []) by (intros; unfold dl_kept; by split_and!).
  induction l as [|m l IH]; intros q dl s q' dl' s' F Hq Hd Hh.
  { simpl in Hd. injection Hd as <- <- <-. split_and!; [done | apply framed_refl | done |].
    exists [], []. split_and!; [done | by rewrite app_nil_r | apply Hnil]. }
  cbn [length drop_head] in Hd. rewrite (would_overflow_spec s q bl _ Hq) in Hd.
  rewrite (ring_count (qi_ring _ _ Hq)), (ring_slot_head q m l (qi_ring _ _ Hq)) in Hd.
  cbn [keep_fitting]. simpl andb in Hd. destruct (over_limit _ _ _ _).
  2:{ injection Hd as <- <- <-. split_and!; [done | apply framed_refl | done |].
      exists [], []. split_and!; [done | by rewrite app_nil_r | apply Hnil]. }
  destruct (if has_dl then _ else _) as [[kept dl1] s1] eqn:Ek.
  destruct (evict_one has_dl q dl s m l kept dl1 s1 _ F Hq Hh Ek eq_refl) as (Hq1 & Hf1 & Hh1 & Hdl).
  destruct (IH _ _ _ _ _ _ F Hq1 Hd Hh1) as (Hq' & Hf & Hh' & dropped & more & Hl & Hm & Hmore).
  destruct (eff_framed _ _ _ _ Hf1) as [El Eb]. rewrite El, Eb in *.
  destruct (Hdl _ _ Hmore) as (more' & Hk & Hmm). split_and!; [done | by eapply framed_trans | done |].
  exists (m :: dropped), more'. split_and!; [simpl; by rewrite <- Hl | by rewrite Hm | done..].
Qed.

Lemma drop_head_cap fuel bl has_dl : forall q dl s q' dl' s',
  drop_head fuel bl has_dl q dl s = (q', dl', s') -> q_cap q' = q_cap q.
Proof.
  induction fuel as [|fuel IH]; intros q dl s q' dl' s'; cbn [drop_head]; [by intros [= <- _ _]|].
  destruct (_ && _); [|by intros [= <- _ _]].
  destruct (slot q (q_head q)); [|by intros [= <- _ _]].
  destruct (if has_dl then _ else _) as [[kept dl1] s1]. intros Hd%IH. by rewrite Hd.
Qed.

(** Eviction leaves a free slot. *)
Lemma drop_head_room ml mb bl q l q1 :
  qinv q l -> over_limit ml mb bl l = true -> qinv q1 (keep_fitting ml mb bl l) -> q_cap q1 = q_cap q ->
  (q_count q1 < q_cap q1)%nat.
Proof.
  intros [Hr _ _ _ _] Ho [Hr1 _ _ _ _] Hcap. rewrite (ring_count Hr1).
  destruct Hr as [Hc _ _ Hn Hf _ _]. destruct l as [|m l]; simpl in *; [lia|].
  rewrite Ho. pose proof (suffix_length _ _ (keep_fitting_suffix ml mb bl l)). lia.
Qed.

(** The limits in force, the overflow behaviour and whether there is a dead-letter
    target. *)
Record policy := Policy { p_len : Z; p_bytes : Z; p_overflow : queue_overflow_t; p_dl : bool }.

Definition policy_of (s : sys) (q : queue) : policy :=
  Policy (eff_max_length s q) (eff_max_bytes s q) (q_overflow q) (q_dl_fn q).

Lemma policy_framed q s q' s' : framed q s q' s' -> policy_of s' q' = policy_of s q.
Proof.
  intros H. unfold policy_of. destruct (eff_framed _ _ _ _ H) as [-> ->].
  destruct H as [Hq _ _ _]. unfold q_static in Hq. by injection Hq as _ _ _ _ _ -> _ _ -> _ _ _ _ _.
Qed.

Definition p_over (p : policy) (msg : message) (l : list message) : bool :=
  over_limit (p_len p) (p_bytes p) (m_body_len msg) l.
Definition p_keep (p : policy) (msg : message) (l : list message) : list message :=
  keep_fitting (p_len p) (p_bytes p) (m_body_len msg) l.

(** The contract of [queue_enqueue_locked] under a policy, [mem] saying that memory
    cannot run out: the outcome [rc], the contents [l'] and the messages [dl] to
    dead-letter, for a queue that held [l]. *)
Inductive enqueued (p : policy) (mem : Prop) (msg : message) (l : list message)
    : Z -> list message -> list message -> Prop :=
| enq_rejected :
    p_over p msg l = true -> p_overflow p = QUEUE_OVERFLOW_REJECT_PUBLISH ->
    enqueued p mem msg l QUEUE_FULL l []
| enq_no_memory :
    p_over p msg l = false -> ~ mem -> enqueued p mem msg l (-1) l []
| enq_appended :
    p_over p msg l = false -> enqueued p mem msg l 0 (l ++ [msg]) []
| enq_evicted dropped dl :
    p_over p msg l = true -> p_overflow p = QUEUE_OVERFLOW_DROP_HEAD ->
    l = dropped ++ p_keep p msg l ->
    dl `prefix_of` dropped -> (p_dl p = false -> dl = []) -> (p_dl p = true -> mem -> dl = dropped) ->
    enqueued p mem msg l 0 (p_keep p msg l ++ [msg]) dl.

(** Appending to a ring with a free slot. *)
Lemma push_spec q m s q' s' l F :
  qinv q l -> (q_count q < q_cap q)%nat -> holds (s_heap s) (l ++ F) -> m ∈ F ->
  push_tail q m s = (q', s') ->
  qinv q' (l ++ [m]) /\ framed q s q' s' /\ holds (s_heap s') ((l ++ [m]) ++ F).
Proof.
  intros Hq Hlt Hh Hm Hp. apply (push_qinv _ _ _ _ _ l) in Hp as (Hq' & Hs & Hf); [|done..].
  split_and!; [done..|]. rewrite Hs, <- app_assoc. simpl. rewrite <- Permutation_middle.
  apply holds_ref; [done | set_solver].
Qed.

Lemma enqueue_spec q msg s F rc q' dl s' l :
  qinv q l -> holds (s_heap s) (l ++ F) -> msg ∈ F ->
  queue_enqueue_locked q msg s = (rc, q', dl, s') ->
  exists l', qinv q' l' /\ framed q s q' s' /\ holds (s_heap s') (l' ++ dl ++ F) /\
    enqueued (policy_of s q) (ample s) msg l rc l' dl.
Proof.
  intros Hq Hh Hm He. unfold queue_enqueue_locked in He.
  rewrite (would_overflow_spec s q _ l Hq) in He.
  destruct (over_limit _ _ _ l) eqn:Ho; cbn [andb] in He.
  - destruct (q_overflow q) eqn:Eov.
    + rewrite bool_decide_false in He by done. cbn [negb] in He. injection He as <- <- <- <-.
      exists l. split_and!; [destruct Hq; constructor; assumption | by constructor | done | by constructor].
    + rewrite bool_decide_true in He by done. cbn [negb] in He.
      rewrite (ring_count (qi_ring _ _ Hq)) in He.
      destruct (drop_head _ _ _ _ _ _) as [[q1 dl1] s1] eqn:Ed. pose proof (drop_head_cap _ _ _ _ _ _ _ _ _ Ed) as Hcap.
      apply (drop_head_spec _ _ _ _ _ _ _ _ _ F Hq) in Ed
        as (Hq1 & Hf1 & Hh1 & dropped & more & Hl & Hdl & Hk); [|done].
      set (k := keep_fitting _ _ _ l) in *. simpl in Hdl. subst more.
      pose proof (drop_head_room _ _ _ _ _ _ Hq Ho Hq1 Hcap) as Hroom.
      unfold make_room in He. replace (q_count q1 =? q_cap q1)%nat with false in He
        by (symmetry; apply Nat.eqb_neq; lia).
      destruct (push_tail q1 msg s1) as [q2 s2] eqn:Ep. injection He as <- <- <- <-.
      destruct (push_spec q1 msg s1 q2 s2 k (dl_msgs dl1 ++ F) Hq1 Hroom Hh1 ltac:(set_solver) Ep) as (Hq2 & Hf2 & Hh2).
      exists (k ++ [msg]). split_and!; [done | by eapply framed_trans | done |].
      destruct Hk as (Hpre & Hno & Hall). by apply (enq_evicted (policy_of s q) _ msg l dropped); auto.
  - destruct (make_room q s) as [[ok q1] s1] eqn:Em.
    apply (make_room_spec _ _ l) in Em as (Hq1 & Hf1 & Hh1 & Hor & Hok); [|done]. destruct ok.
    + destruct (push_tail q1 msg s1) as [q2 s2] eqn:Ep. injection He as <- <- <- <-.
      destruct (push_spec _ _ _ _ _ l F Hq1 Hok (Hh1 _ Hh) Hm Ep) as (Hq2 & Hf2 & Hh2).
      exists (l ++ [msg]). split_and!; [done | by eapply framed_trans | done | by constructor].
    + injection He as <- <- <- <-. subst q1. exists l. split_and!; [done | done | by apply Hh1 |].
      constructor; [done|]. intros Hnil. by destruct (Hor Hnil).
Qed.

Lemma requeue_spec q msg s F rc q' s' l :
  qinv q l -> holds (s_heap s) (l ++ F) -> msg ∈ F ->
  queue_requeue_internal q msg s = (rc, q', s') ->
  framed q s q' s' /\
  (rc = 0 /\ qinv q' (l ++ [msg]) /\ holds (s_heap s') ((l ++ [msg]) ++ F) \/
   rc = -1 /\ ~ ample s /\ qinv q' l /\ holds (s_heap s') (l ++ F)).
Proof.
  intros Hq Hh Hm He. unfold queue_requeue_internal in He.
  destruct (make_room q s) as [[ok q1] s1] eqn:Em.
  apply (make_room_spec _ _ l) in Em as (Hq1 & Hf1 & Hh1 & Hor & Hok); [|done]. destruct ok.
  - destruct (push_tail q1 msg s1) as [q2 s2] eqn:Ep. injection He as <- <- <-.
    destruct (push_spec _ _ _ _ _ l F Hq1 Hok (Hh1 _ Hh) Hm Ep) as (Hq2 & Hf2 & Hh2).
    split; [by eapply framed_trans | by left].
  - injection He as <- <- <-. split; [done|]. right. split_and!; [done | | done | by apply Hh1].
    intros Hnil. by destruct (Hor Hnil).
Qed.

Lemma dequeue_spec q s F r q' s' l :
  qinv q l -> holds (s_heap s) (l ++ F) -> queue_dequeue q s = (r, q', s') ->
  framed q s q' s' /\ holds (s_heap s') (l ++ F) /\ r = head l /\ qinv q' (tail l).
Proof.
  intros Hq Hh. unfold queue_dequeue. rewrite (ring_count (qi_ring _ _ Hq)).
  destruct l as [|m l]; simpl.
  - intros [= <- <- <-]. split_and!; [apply framed_refl | done..].
  - rewrite (ring_slot_head q m l (qi_ring _ _ Hq)).
    destruct (queue_update_congestion _ s) as [q1 s1] eqn:Ec. intros [= <- <- <-].
    apply (congestion_qinv _ _ _ _ l) in Ec as (Hq1 & Hs1 & Hf1); [|by apply pop_dequeued].
    split_and!; [|by rewrite Hs1 | done..].
    eapply framed_trans; [|done]. by apply (pop_framed q m).
Qed.

(** The messages a replicated consume watermark drains from the front. *)
Fixpoint undrained (watermark : Z) (l : list message) : list message :=
  match l with
  | [] => []
  | m :: l' => if (m_cluster_id m =? 0) || (watermark <? m_cluster_id m) then l else undrained watermark l'
  end.

Lemma drain_loop_spec w l : forall q s n q' s' d F,
  qinv q l -> holds (s_heap s) (l ++ F) -> drain_loop (length l) w q s n = (d, q', s') ->
  qinv q' (undrained w l) /\ framed q s q' s' /\ holds (s_heap s') (undrained w l ++ F) /\
  (d + length (undrained w l) = n + length l)%nat.
Proof.
  induction l as [|m l IH]; intros q s n q' s' d F Hq Hh.
  { simpl. intros [= <- <- <-]. split_and!; [done | apply framed_refl | done | done]. }
  cbn [length drain_loop undrained].
  rewrite (ring_count (qi_ring _ _ Hq)), (ring_slot_head q m l (qi_ring _ _ Hq)).
  cbn [length]. change (0 <? S (length l))%nat with true. destruct (_ || _); cbv iota.
  { intros [= <- <- <-]. split_and!; [done | apply framed_refl | done | done]. }
  intros Hd. apply (IH _ _ _ _ _ _ F) in Hd as (Hq' & Hf & Hh' & Hn);
    [|by apply pop_dequeued | by apply holds_unref].
  split_and!; [done | | done | lia].
  eapply framed_trans; [|done]. apply (pop_framed q m); try done.
  unfold ample. simpl. by rewrite ?message_unref_oracle.
Qed.

Lemma drain_spec w q s F d q' s' l :
  qinv q l -> holds (s_heap s) (l ++ F) -> queue_drain_consumed w q s = (d, q', s') ->
  qinv q' (undrained w l) /\ framed q s q' s' /\ holds (s_heap s') (undrained w l ++ F) /\
  (d + length (undrained w l) = length l)%nat.
Proof.
  intros Hq Hh. unfold queue_drain_consumed. rewrite (ring_count (qi_ring _ _ Hq)).
  destruct (drain_loop _ _ _ _ _) as [[d1 q1] s1] eqn:Ed.
  apply (drain_loop_spec w l _ _ _ _ _ _ F) in Ed as (Hq1 & Hf1 & Hh1 & Hn); [|done..].
  destruct (d1 =? 0)%nat; [by intros [= <- <- <-]|].
  destruct (queue_update_congestion q1 s1) as [q2 s2] eqn:Ec. intros [= <- <- <-].
  apply (congestion_qinv _ _ _ _ (undrained w l)) in Ec as (Hq2 & Hs2 & Hf2); [|done].
  split_and!; [done | by eapply framed_trans | by rewrite Hs2 | done].
Qed.

(** Purging: the byte counter returns to zero; the dequeue counter is corrected
    after the loop. *)
Lemma purge_loop_spec l : forall q s q' s' F,
  ring q l -> q_total_bytes q = u64 (sum_bytes l) -> holds (s_heap s) (l ++ F) ->
  purge_loop (length l) q s = (q', s') ->
  ring q' [] /\ q_total_bytes q' = 0 /\ holds (s_heap s') F /\
  s_limits s' = s_limits s /\ g_flow_alarm_count s' = g_flow_alarm_count s /\ (ample s -> ample s') /\
  q_static q' = q_static q /\ q_congested q' = q_congested q /\
  (q_total_enqueued q', q_total_dequeued q', q_total_dropped q', q_unacked q', q_deliver_hi q', q_cap_unacked q') =
  (q_total_enqueued q, q_total_dequeued q, q_total_dropped q, q_unacked q, q_deliver_hi q, q_cap_unacked q).
Proof.
  induction l as [|m l IH]; intros q s q' s' F Hr Hb Hh.
  { simpl. intros [= <- <-]. by split_and!. }
  cbn [length purge_loop]. rewrite (ring_count Hr), (ring_slot_head q m l Hr). cbn [length].
  change (0 <? S (length l))%nat with true. cbv iota. intros Hp.
  apply (IH _ _ _ _ F) in Hp as (? & ? & ? & ? & ? & Ho & ? & ? & ?);
    [split_and!; try done; intros Hs; apply Ho; unfold ample; simpl; by rewrite message_unref_oracle | by apply ring_pop | | by apply holds_unref].
  simpl in *. rewrite Hb. u64_lia.
Qed.

Lemma purge_spec q s F n q' s' l :
  qinv q l -> holds (s_heap s) (l ++ F) -> queue_purge q s = (n, q', s') ->
  n = length l /\ qinv q' [] /\ framed q s q' s' /\ holds (s_heap s') F.
Proof.
  intros [Hr Hb Hc Ht Hw] Hh. unfold queue_purge. rewrite (ring_count Hr).
  destruct (purge_loop _ q s) as [q1 s1] eqn:Ep.
  apply (purge_loop_spec l _ _ _ _ F Hr Hb Hh) in Ep as (Hr1 & Hb1 & Hh1 & Hl1 & Ha1 & Ho1 & Hs1 & Hg1 & Hx).
  injection Hx as Ee Ed Edr Eu Eh Ec.
  destruct (queue_update_congestion _ s1) as [q2 s2] eqn:Eq. intros [= <- <- <-].
  apply (congestion_qinv _ _ _ _ []) in Eq as (Hq2 & Hs2 & Hf2).
  - split_and!; [done | done | | by rewrite Hs2]. eapply framed_trans; [|done].
    constructor; [done.. | |done]. unfold alarm_kept. simpl. by rewrite Ha1, Hg1.
  - constructor; simpl; [done | by rewrite Hb1 | | by rewrite Eu, Eh, Ec |].
    + rewrite Ee, Ed, Edr. u64_lia.
    + unfold q_static in Hs1. injection Hs1 as _ _ _ _ _ _ _ _ _ -> -> _ _ _. done.
Qed.

Lemma snapshot_spec w q s F sel oom s' l :
  qinv q l -> holds (s_heap s) (l ++ F) -> queue_snapshot_refs w q s = (sel, oom, s') ->
  holds (s_heap s') (l ++ sel ++ F) /\ s_limits s' = s_limits s /\
  g_flow_alarm_count s' = g_flow_alarm_count s /\ (ample s -> ample s') /\
  (if oom then sel = [] /\ ~ ample s
   else sel = filter (fun m => 0 < m_cluster_id m /\ m_cluster_id m <= w) l).
Proof.
  intros Hq Hh. unfold queue_snapshot_refs. rewrite (qinv_contents q l Hq), (ring_count (qi_ring _ _ Hq)).
  destruct (Nat.eqb_spec (length l) 0) as [Hz|Hz].
  { destruct l; [|done]. by intros [= <- <- <-]. }
  destruct (s_malloc s) as [ok s1] eqn:Em. apply s_malloc_spec in Em as (H1 & H2 & H3 & H4).
  destruct ok; intros [= <- <- <-].
  - split_and!; [| done | done | unfold ample; simpl; rewrite ref_all_oracle; by apply H4 | done].
    set (sel := filter _ l). simpl. rewrite (Permutation_app_comm l), <- app_assoc.
    rewrite (Permutation_app_comm F). apply holds_ref_all; [by apply H3|].
    apply Forall_forall. subst sel. intros m [_ Hm]%list_elem_of_filter. set_solver.
  - split_and!; [by apply H3 | done | done | by apply H4 | done |]. intros Hn. by destruct (H4 Hn).
Qed.

(** * Consume tracking *)

Lemma sorted_lookup_lt l i j x y :
  StronglySorted Z.lt l -> l !! i = Some x -> l !! j = Some y -> (i < j)%nat -> x < y.
Proof.
  intros Hs Hi Hj Hij. rewrite <- (take_drop j l) in Hs. apply (StronglySorted_app_1_elem_of _ _ _ x y) in Hs; [done| |].
  - apply list_elem_of_lookup. exists i. by rewrite lookup_take_lt.
  - apply list_elem_of_lookup. exists 0%nat. by rewrite lookup_drop, Nat.add_0_r.
Qed.

Lemma scan_down_spec l cid i :
  let j := scan_down l cid i in
  (j <= i)%nat /\ (forall k x, (j <= k < i)%nat -> l !! k = Some x -> cid < x) /\
  (forall k x, j = S k -> l !! k = Some x -> x <= cid).
Proof.
  induction i as [|i IH]; cbn [scan_down]; [split_and!; [lia | lia | done]|].
  destruct (Z.ltb_spec cid (default 0 (l !! i))) as [Hlt|Hge].
  - destruct IH as (H1 & H2 & H3). split_and!; [lia | | done].
    intros k x Hk Hx. destruct (decide (k = i)) as [->|]; [by rewrite Hx in Hlt|]. apply (H2 k); [lia | done].
  - split_and!; [lia | lia |]. intros k x [= <-] Hx. by rewrite Hx in Hge.
Qed.

(** The insertion point splits the sorted ids, and the duplicate test is exact. *)
Lemma insertion_point l cid :
  StronglySorted Z.lt l ->
  let i := scan_down l cid (length l) in
  let dup := (0 <? i)%nat && (default 0 (l !! (i - 1)%nat) =? cid) in
  Forall (Z.lt cid) (drop i l) /\ (if dup then cid ∈ l else Forall (fun x => x < cid) (take i l)).
Proof.
  intros Hs i dup. destruct (scan_down_spec l cid (length l)) as (Hi & Hhi & Hlo). fold i in Hi, Hhi, Hlo.
  split.
  { apply Forall_lookup. intros k x Hk. rewrite lookup_drop in Hk.
    pose proof (lookup_lt_Some _ _ _ Hk). by apply (Hhi (i + k)%nat); [lia|]. }
  destruct i as [|j]; [by apply Forall_nil|]. subst dup. simpl. rewrite Nat.sub_0_r.
  destruct (lookup_lt_is_Some_2 l j ltac:(lia)) as [y Hy]. specialize (Hlo j y eq_refl Hy). rewrite Hy. simpl.
  destruct (Z.eqb_spec y cid) as [->|Hne]; [by eapply list_elem_of_lookup_2|].
  apply Forall_lookup. intros k x Hk. apply lookup_take_Some in Hk as [Hk Hlt].
  destruct (decide (k = j)) as [->|]; [simplify_eq; lia|].
  pose proof (sorted_lookup_lt l k j x y Hs Hk Hy ltac:(lia)). lia.
Qed.

Lemma sorted_insert l i cid :
  StronglySorted Z.lt l -> Forall (Z.lt cid) (drop i l) -> Forall (fun x => x < cid) (take i l) ->
  StronglySorted Z.lt (take i l ++ cid :: drop i l).
Proof.
  intros Hs Hhi Hlo. rewrite <- (take_drop i l) in Hs. apply StronglySorted_app in Hs as (H12 & H1 & H2).
  apply StronglySorted_app_2; [|done | by apply StronglySorted_cons].
  rewrite Forall_forall in Hlo. intros x y Hx [->|Hy]%elem_of_cons; auto.
Qed.

Lemma grow_unacked_spec q s q' s' :
  (length (q_unacked q) <= q_cap_unacked q)%nat -> grow_unacked q s = (q', s') ->
  q' = q <| q_cap_unacked := q_cap_unacked q' |> /\ (q_cap_unacked q <= q_cap_unacked q')%nat /\
  g_flow_alarm_count s' = g_flow_alarm_count s /\ s_limits s' = s_limits s /\
  (forall refs, holds (s_heap s) refs -> holds (s_heap s') refs) /\
  (ample s -> ample s' /\ (length (q_unacked q) < q_cap_unacked q')%nat).
Proof.
  intros Hc. assert (Hq : q = q <| q_cap_unacked := q_cap_unacked q |>) by (by destruct q).
  unfold grow_unacked. destruct (Nat.eqb_spec (length (q_unacked q)) (q_cap_unacked q)) as [He|Hn].
  - destruct (s_malloc s) as [ok s1] eqn:Em. apply s_malloc_spec in Em as (H1 & H2 & H3 & H4).
    intros [= <- <-]. destruct ok.
    + split_and!; try done; simpl; [destruct (Nat.eqb_spec (q_cap_unacked q) 0); lia|].
      intros Ho. destruct (H4 Ho). split; [done|]. destruct (Nat.eqb_spec (q_cap_unacked q) 0); lia.
    + split_and!; try done. intros Ho. by destruct (H4 Ho).
  - intros [= <- <-]. split_and!; try done. intros. split; [done | lia].
Qed.

(** What delivery tracking changes: the ids, their array and the high mark. *)
Definition tracking_only (q q' : queue) : Prop :=
  q' = q <| q_unacked := q_unacked q' |> <| q_deliver_hi := q_deliver_hi q' |>
         <| q_cap_unacked := q_cap_unacked q' |>.

Lemma raise_deliver_hi_spec cid q :
  raise_deliver_hi cid q = q <| q_deliver_hi := Z.max (q_deliver_hi q) cid |>.
Proof.
  unfold raise_deliver_hi. destruct (Z.ltb_spec (q_deliver_hi q) cid).
  - by rewrite Z.max_r by lia.
  - rewrite Z.max_l by lia. by destruct q.
Qed.

Lemma record_unacked_spec cid q s ok q' s' :
  tracking_ok q -> 0 < cid < 2 ^ 64 -> record_unacked cid q s = (ok, q', s') ->
  tracking_only q q' /\ q_deliver_hi q' = q_deliver_hi q /\
  StronglySorted Z.lt (q_unacked q') /\ (length (q_unacked q') <= q_cap_unacked q')%nat /\
  (forall c, c ∈ q_unacked q' <-> c ∈ q_unacked q \/ c = cid /\ ok = true) /\
  g_flow_alarm_count s' = g_flow_alarm_count s /\ s_limits s' = s_limits s /\
  (forall refs, holds (s_heap s) refs -> holds (s_heap s') refs) /\
  (ample s -> ample s' /\ ok = true).
Proof.
  intros [Hs Hr Hh Hc] Hcid. unfold record_unacked.
  destruct (insertion_point (q_unacked q) cid Hs) as [Hhi Hlo]. set (i := scan_down _ _ _) in *.
  destruct (_ && _).
  { intros [= <- <- <-]. split_and!; try done; [by destruct q|]. naive_solver. }
  destruct (grow_unacked q s) as [q1 s1] eqn:Eg.
  apply grow_unacked_spec in Eg as (-> & Hcap & Ha & Hl & Hho & Hor); [|done]. simpl in *.
  destruct (Nat.ltb_spec (length (q_unacked q)) (q_cap_unacked q1)); intros [= <- <- <-]; simpl.
  - split_and!; try done; [by apply sorted_insert| | |naive_solver].
    + pose proof (f_equal length (take_drop i (q_unacked q))) as El. rewrite length_app in *. simpl. lia.
    + intros c. rewrite elem_of_app, elem_of_cons. rewrite <- (take_drop i (q_unacked q)) at 3.
      rewrite elem_of_app. naive_solver.
  - split_and!; try done; [lia | naive_solver |]. intros Ho. destruct (Hor Ho). lia.
Qed.

(** Delivery: the tracking invariant holds, and unless memory ran out an id that
    needs an ack is recorded. *)
Lemma on_deliver_spec cid no_ack q s q' s' :
  tracking_ok q -> 0 <= cid < 2 ^ 64 -> queue_consume_on_deliver cid no_ack q s = (q', s') ->
  tracking_ok q' /\ tracking_only q q' /\ framed q s q' s' /\
  (forall refs, holds (s_heap s) refs -> holds (s_heap s') refs) /\
  (forall c, c ∈ q_unacked q -> c ∈ q_unacked q') /\
  (forall c, c ∈ q_unacked q' -> c ∈ q_unacked q \/ c = cid /\ no_ack = false /\ cid <> 0) /\
  (ample s -> ample s' /\
     q_deliver_hi q' = Z.max (q_deliver_hi q) cid /\
     (no_ack = false -> cid <> 0 -> cid ∈ q_unacked q')).
Proof.
  intros Ht Hcid. unfold queue_consume_on_deliver. pose proof Ht as [Hs Hr Hh Hc].
  assert (Hto : tracking_only q q) by (by destruct q).
  destruct (Z.eqb_spec cid 0) as [->|Hnz].
  { intros [= <- <-]. split_and!; auto using framed_refl; try lia. intros; split_and!; try done; lia. }
  assert (Hraise : forall q1, StronglySorted Z.lt (q_unacked q1) -> (length (q_unacked q1) <= q_cap_unacked q1)%nat ->
    q_deliver_hi q1 = q_deliver_hi q -> (forall c, c ∈ q_unacked q1 -> c ∈ q_unacked q \/ c = cid) ->
    tracking_ok (q1 <| q_deliver_hi := Z.max (q_deliver_hi q1) cid |>)).
  { intros q1 H1 H2 H3 H4. constructor; simpl; [done| |lia|done]. rewrite Forall_forall in Hr |- *.
    intros c [Hin| ->]%H4; [specialize (Hr c Hin)|]; lia. }
  destruct no_ack.
  { intros [= <- <-]. rewrite raise_deliver_hi_spec. split_and!; simpl; try by auto.
    by apply Hraise; auto. }
  destruct (record_unacked cid q s) as [[ok q1] s1] eqn:Er.
  apply record_unacked_spec in Er as (H1 & H2 & H3 & H4 & H5 & H6 & H7 & H8 & H9); [|done | lia].
  assert (Hfr : forall q2, tracking_only q q2 -> framed q s q2 s1).
  { intros q2 ->. constructor; [done..| |by apply H9]. unfold alarm_kept. simpl. by rewrite H6. }
  destruct ok; intros [= <- <-].
  - rewrite raise_deliver_hi_spec. assert (Hto' : tracking_only q (q1 <| q_deliver_hi := Z.max (q_deliver_hi q1) cid |>))
      by (rewrite H1; done).
    split_and!; try by auto.
    + apply Hraise; [done.. |]. naive_solver.
    + naive_solver.
    + naive_solver.
    + intros Ho. destruct (H9 Ho). split_and!; [done | by rewrite <- H2 | naive_solver].
  - split_and!; try by auto.
    + rewrite H1. constructor; simpl; rewrite ?H2; try done. apply Forall_forall. intros c Hin.
      rewrite Forall_forall in Hr. naive_solver.
    + naive_solver.
    + naive_solver.
    + intros Ho. by destruct (H9 Ho).
Qed.

Lemma remove_cid_spec cid l :
  StronglySorted Z.lt l -> StronglySorted Z.lt (remove_cid cid l) /\
  (length (remove_cid cid l) <= length l)%nat /\ forall c, c ∈ remove_cid cid l <-> c ∈ l /\ c <> cid.
Proof.
  induction 1 as [|x l Hs (IH1 & IH2 & IH3) Hx]; simpl; [split_and!; [constructor | done | set_solver]|].
  rewrite Forall_forall in Hx. destruct (Z.eqb_spec x cid) as [->|Hne].
  - split_and!; [done | lia |]. intros c. rewrite elem_of_cons. split; [|naive_solver].
    intros Hc. specialize (Hx c Hc). split; [auto | lia].
  - split_and!; [|simpl; lia |].
    + constructor; [done|]. apply Forall_forall. intros c [Hc _]%IH3. auto.
    + intros c. rewrite !elem_of_cons, IH3. naive_solver.
Qed.

Lemma on_ack_spec cid q :
  tracking_ok q -> tracking_ok (queue_consume_on_ack cid q) /\
  tracking_only q (queue_consume_on_ack cid q) /\
  forall c, c ∈ q_unacked (queue_consume_on_ack cid q) <-> c ∈ q_unacked q /\ c <> cid.
Proof.
  intros [Hs Hr Hh Hc]. unfold queue_consume_on_ack. rewrite Forall_forall in Hr.
  destruct (Z.eqb_spec cid 0) as [->|Hnz].
  - split_and!; [by constructor; [|apply Forall_forall|..] | by destruct q |].
    intros c. split; [|naive_solver]. intros Hin. specialize (Hr c Hin). split; [done | lia].
  - destruct (remove_cid_spec cid (q_unacked q) Hs) as (H1 & H2 & H3).
    split_and!; [|done | done]. constructor; simpl; [done | | done | lia].
    apply Forall_forall. intros c [Hin _]%H3. auto.
Qed.

(** The watermark is below every id that is still unacknowledged. *)
Lemma watermark_below q c : tracking_ok q -> c ∈ q_unacked q -> queue_consume_watermark q < c.
Proof.
  intros [Hs Hr Hh _] Hin. unfold queue_consume_watermark.
  destruct (q_unacked q) as [|x l]; [by apply elem_of_nil in Hin|].
  apply Forall_cons in Hr as [Hx _]. rewrite u64_small by lia.
  apply StronglySorted_inv in Hs as [_ Hl]. rewrite Forall_forall in Hl.
  apply elem_of_cons in Hin as [->|Hin]; [lia|]. specialize (Hl c Hin). lia.
Qed.

Lemma qinv_tracking q q' l : qinv q l -> tracking_only q q' -> tracking_ok q' -> qinv q' l.
Proof. intros [Hr Hb Hc _ Hw] Ht Hok. rewrite Ht. constructor; simpl; assumption. Qed.

(** * Waiters *)

Lemma add_waiter_spec w q s q' s' :
  waiters_ok q -> queue_add_waiter w q s = (q', s') ->
  waiters_ok q' /\ (forall w', w' ∈ q_waiters q' <-> w' ∈ q_waiters q \/ w' = w /\ w ∈ q_waiters q') /\
  (ample s -> ample s' /\ w ∈ q_waiters q').
Proof.
  intros [Hn Hc]. unfold queue_add_waiter. case_bool_decide as Hin.
  { intros [= <- <-]. split_and!; [done | naive_solver | done]. }
  assert (Happ : forall c, (length (q_waiters q) < c)%nat -> waiters_at (q_waiters q ++ [w]) c).
  { intros c Hlt. split; [|rewrite length_app; simpl; lia]. apply NoDup_app. split_and!; [done | set_solver|].
    apply NoDup_singleton. }
  destruct (Nat.eqb_spec (length (q_waiters q)) (q_cap_waiters q)) as [He|Hne].
  - destruct (s_malloc s) as [ok s1] eqn:Em. apply s_malloc_spec in Em as (H1 & H2 & H3 & H4).
    destruct ok; intros [= <- <-]; simpl.
    + split_and!; [apply Happ | set_solver | intros Ho; destruct (H4 Ho); split; [done | set_solver]].
      destruct (Nat.eqb_spec (q_cap_waiters q) 0); lia.
    + split_and!; [done | naive_solver | intros Ho; by destruct (H4 Ho)].
  - intros [= <- <-]. simpl. split_and!; [apply Happ; lia | set_solver | set_solver].
Qed.

Lemma remove_waiter_spec w q :
  waiters_ok q ->
  waiters_ok (queue_remove_waiter w q) /\
  forall w', w' ∈ q_waiters (queue_remove_waiter w q) <-> w' ∈ q_waiters q /\ w' <> w.
Proof.
  intros [Hn Hc]. unfold queue_remove_waiter.
  destruct (list_find (fun x => x = w) (q_waiters q)) as [[i x]|] eqn:Ef.
  - apply list_find_Some in Ef as (Hi & -> & _). pose proof (swap_remove_perm _ _ _ Hi) as Hp.
    rewrite <- Hp in Hn, Hc. apply NoDup_cons in Hn as [Hni Hn]. simpl in *.
    split; [split; [done | lia]|]. intros w'. rewrite <- Hp at 2. rewrite elem_of_cons. naive_solver.
  - split; [done|]. apply list_find_None in Ef. rewrite Forall_forall in Ef. naive_solver.
Qed.

(** ** The data operations leave the tracking alone *)

Definition q_track (q : queue) := (q_unacked q, q_deliver_hi q, q_cap_unacked q, q_consume_replicated q).

Lemma congestion_track q s q' s' : queue_update_congestion q s = (q', s') -> q_track q' = q_track q.
Proof. by intros (-> & _ & _)%congestion_spec. Qed.

Lemma make_room_track q s ok q' s' : make_room q s = (ok, q', s') -> q_track q' = q_track q.
Proof.
  unfold make_room, queue_grow. destruct (_ =? _)%nat; [|by intros [= _ <- _]].
  destruct (s_malloc s) as [[] s1]; by intros [= _ <- _].
Qed.

Lemma drop_head_track fuel bl has_dl : forall q dl s q' dl' s',
  drop_head fuel bl has_dl q dl s = (q', dl', s') -> q_track q' = q_track q.
Proof.
  induction fuel as [|fuel IH]; intros q dl s q' dl' s'; cbn [drop_head]; [by intros [= <- _ _]|].
  destruct (_ && _); [|by intros [= <- _ _]].
  destruct (slot q (q_head q)); [|by intros [= <- _ _]].
  destruct (if has_dl then _ else _) as [[kept dl1] s1]. intros Hd%IH. by rewrite Hd.
Qed.

Lemma enqueue_track q m s rc q' dl s' :
  queue_enqueue_locked q m s = (rc, q', dl, s') -> q_track q' = q_track q.
Proof.
  unfold queue_enqueue_locked. destruct (_ && _); [by intros [= _ <- _ _]|].
  destruct (if queue_would_overflow _ _ _ then _ else _) as [[q1 dl1] s1] eqn:E1.
  assert (H1 : q_track q1 = q_track q).
  { destruct (queue_would_overflow _ _ _); [by eapply drop_head_track | by injection E1 as <- _ _]. }
  destruct (make_room q1 s1) as [[ok q2] s2] eqn:E2. apply make_room_track in E2.
  destruct ok; [|intros [= _ <- _ _]; congruence].
  destruct (push_tail q2 m s2) as [q3 s3] eqn:E3. intros [= _ <- _ _].
  apply congestion_track in E3. rewrite E3, <- H1, <- E2. done.
Qed.

Lemma requeue_track q m s rc q' s' : queue_requeue_internal q m s = (rc, q', s') -> q_track q' = q_track q.
Proof.
  unfold queue_requeue_internal. destruct (make_room q s) as [[ok q2] s2] eqn:E2. apply make_room_track in E2.
  destruct ok; [|intros [= _ <- _]; congruence].
  destruct (push_tail q2 m s2) as [q3 s3] eqn:E3. intros [= _ <- _]. apply congestion_track in E3. by rewrite E3, <- E2.
Qed.

Lemma dequeue_track q s r q' s' : queue_dequeue q s = (r, q', s') -> q_track q' = q_track q.
Proof.
  unfold queue_dequeue. destruct (0 <? _)%nat; [|by intros [= _ <- _]].
  destruct (slot q _); [|by intros [= _ <- _]].
  destruct (queue_update_congestion _ s) as [q1 s1] eqn:E. intros [= _ <- _]. apply congestion_track in E. by rewrite E.
Qed.

Lemma drain_loop_track fuel w : forall q s n d q' s',
  drain_loop fuel w q s n = (d, q', s') -> q_track q' = q_track q.
Proof.
  induction fuel as [|fuel IH]; intros q s n d q' s'; cbn [drain_loop]; [by intros [= _ <- _]|].
  destruct (0 <? _)%nat; [|by intros [= _ <- _]]. destruct (slot q _); [|by intros [= _ <- _]].
  destruct (_ || _); [by intros [= _ <- _]|]. intros Hd%IH. by rewrite Hd.
Qed.

Lemma drain_track w q s d q' s' : queue_drain_consumed w q s = (d, q', s') -> q_track q' = q_track q.
Proof.
  unfold queue_drain_consumed. destruct (drain_loop _ _ _ _ _) as [[d1 q1] s1] eqn:E1. apply drain_loop_track in E1.
  destruct (d1 =? 0)%nat; [intros [= _ <- _]; congruence|].
  destruct (queue_update_congestion q1 s1) as [q2 s2] eqn:E. intros [= _ <- _]. apply congestion_track in E. congruence.
Qed.

Lemma purge_loop_track fuel : forall q s q' s', purge_loop fuel q s = (q', s') -> q_track q' = q_track q.
Proof.
  induction fuel as [|fuel IH]; intros q s q' s'; cbn [purge_loop]; [by intros [= <- _]|].
  destruct (0 <? _)%nat; [|by intros [= <- _]]. destruct (slot q _); [|by intros [= <- _]].
  intros Hd%IH. by rewrite Hd.
Qed.

Lemma purge_track q s n q' s' : queue_purge q s = (n, q', s') -> q_track q' = q_track q.
Proof.
  unfold queue_purge. destruct (purge_loop _ q s) as [q1 s1] eqn:E1. apply purge_loop_track in E1.
  destruct (queue_update_congestion _ s1) as [q2 s2] eqn:E. intros [= _ <- _].
  apply congestion_track in E. rewrite E. done.
Qed.

(** A new queue. *)
Lemma fresh_qinv name flags : qinv (fresh_queue name flags) [].
Proof.
  constructor; simpl; [|done | done | | split; [apply NoDup_nil_2 | simpl; lia]].
  - unfold QUEUE_INITIAL_CAP. constructor; simpl; try lia; done.
  - constructor; simpl; [constructor | constructor | lia | lia].
Qed.

Lemma queue_new_spec name flags s r s' :
  queue_new name flags s = (r, s') ->
  (r = Some (fresh_queue (default [] name) flags) \/ r = None /\ ~ ample s) /\
  s_limits s' = s_limits s /\ g_flow_alarm_count s' = g_flow_alarm_count s /\
  (forall refs, holds (s_heap s) refs -> holds (s_heap s') refs) /\ (ample s -> ample s').
Proof.
  unfold queue_new.
  destruct (s_malloc s) as [ok1 s1] eqn:E1. apply s_malloc_spec in E1 as (A1 & B1 & C1 & D1).
  assert (Hfail : ok1 = false -> ~ ample s) by (intros -> Ho; by destruct (D1 Ho)).
  destruct ok1; [|intros [= <- <-]; split_and!; [by auto | done | done | done | apply D1]].
  destruct (s_malloc s1) as [ok2 s2] eqn:E2. apply s_malloc_spec in E2 as (A2 & B2 & C2 & D2).
  destruct ok2; [|intros [= <- <-]; split_and!; [right; split; [done|]; intros Ho | congruence | congruence | by auto |]; naive_solver].
  destruct (s_malloc s2) as [ok3 s3] eqn:E3. apply s_malloc_spec in E3 as (A3 & B3 & C3 & D3).
  destruct ok3; [|intros [= <- <-]; split_and!; [right; split; [done|]; intros Ho | congruence | congruence | by auto |]; naive_solver].
  destruct (s_malloc s3) as [ok4 s4] eqn:E4. apply s_malloc_spec in E4 as (A4 & B4 & C4 & D4).
  destruct ok4; intros [= <- <-].
  - split_and!; [by left | congruence | congruence | by auto | naive_solver].
  - split_and!; [right; split; [done|]; intros Ho | congruence | congruence | by auto |]; naive_solver.
Qed.
