(* ===== verification/QueueSpec.v ===== *)
(** The properties of a queue (Queue.v): every history of its operations is one of
    a FIFO list with limits and reference counts, the consume watermark stays
    below the outstanding deliveries, and the congestion and memory alarms have
    the hysteresis they promise. *)

From S2P Require Import Prelude Message Queue.

(** * Histories

    A client holds the references [F].  It names a message by its index in [F];
    an index that names nothing is a no-op. *)

Inductive qop :=
| QEnqueue (i : nat) | QRequeue (i : nat) | QRelease (i : nat) | QDequeue | QDrain (w : Z) | QPurge
| QSnapshot (w : Z) | QDeliver (cid : Z) (no_ack : bool) | QAck (cid : Z).

Inductive qreply :=
| RCode (rc : Z) (dl : list message) | RMsg (m : option message) | RNum (n : nat)
| RSnap (ms : list message) (oom : bool) | RUnit.

Record client := Client { cl_q : queue; cl_s : sys; cl_held : list message }.

(** One operation.  The messages handed back for dead-lettering, the one dequeued
    and those of a snapshot are references the client holds from then on. *)
Definition q_op (c : qop) (st : client) : qreply * client :=
  let '(Client q s F) := st in
  match c with
  | QEnqueue i =>
      match F !! i with
      | Some m => let '(rc, q, dl, s) := queue_enqueue_locked q m s in (RCode rc dl, Client q s (dl ++ F))
      | None => (RUnit, st)
      end
  | QRequeue i =>
      match F !! i with
      | Some m => let '(rc, q, s) := queue_requeue_internal q m s in (RCode rc [], Client q s F)
      | None => (RUnit, st)
      end
  | QRelease i =>
      match F !! i with
      | Some m => (RUnit, Client q (s <| s_heap ::= message_unref (Some m) |>) (delete i F))
      | None => (RUnit, st)
      end
  | QDequeue => let '(r, q, s) := queue_dequeue q s in (RMsg r, Client q s (option_list r ++ F))
  | QDrain w => let '(n, q, s) := queue_drain_consumed w q s in (RNum n, Client q s F)
  | QPurge => let '(n, q, s) := queue_purge q s in (RNum n, Client q s F)
  | QSnapshot w => let '(ms, oom, s) := queue_snapshot_refs w q s in (RSnap ms oom, Client q s (ms ++ F))
  | QDeliver cid no_ack =>
      let '(q, s) := queue_consume_on_deliver (u64 cid) no_ack q s in (RUnit, Client q s F)
  | QAck cid => (RUnit, Client (queue_consume_on_ack (u64 cid) q) s F)
  end.

Fixpoint q_run (cs : list qop) (st : client) : list qreply * client :=
  match cs with
  | [] => ([], st)
  | c :: cs => let '(r, st) := q_op c st in let '(rs, st) := q_run cs st in (r :: rs, st)
  end.

(** ** The contract: a list of messages [l] and the references [F] of the client,
    under a policy, with [mem] saying that memory cannot run out. *)
Inductive fifo_step (p : policy) (mem : Prop) (l F : list message)
    : qop -> qreply -> list message -> list message -> Prop :=
| fifo_enqueue i m rc l' dl :
    F !! i = Some m -> enqueued p mem m l rc l' dl ->
    fifo_step p mem l F (QEnqueue i) (RCode rc dl) l' (dl ++ F)
| fifo_requeue i m :
    F !! i = Some m -> fifo_step p mem l F (QRequeue i) (RCode 0 []) (l ++ [m]) F
| fifo_requeue_oom i m :
    F !! i = Some m -> ~ mem -> fifo_step p mem l F (QRequeue i) (RCode (-1) []) l F
| fifo_release i m :
    F !! i = Some m -> fifo_step p mem l F (QRelease i) RUnit l (delete i F)
| fifo_dequeue :
    fifo_step p mem l F QDequeue (RMsg (head l)) (tail l) (option_list (head l) ++ F)
| fifo_drain w n :
    (n + length (undrained w l) = length l)%nat ->
    fifo_step p mem l F (QDrain w) (RNum n) (undrained w l) F
| fifo_purge : fifo_step p mem l F QPurge (RNum (length l)) [] F
| fifo_snapshot w ms :
    ms = filter (fun m => 0 < m_cluster_id m /\ m_cluster_id m <= w) l ->
    fifo_step p mem l F (QSnapshot w) (RSnap ms false) l (ms ++ F)
| fifo_snapshot_oom w : ~ mem -> fifo_step p mem l F (QSnapshot w) (RSnap [] true) l F
| fifo_nothing c i :
    F !! i = None -> c ∈ [QEnqueue i; QRequeue i; QRelease i] -> fifo_step p mem l F c RUnit l F
| fifo_deliver cid no_ack : fifo_step p mem l F (QDeliver cid no_ack) RUnit l F
| fifo_ack cid : fifo_step p mem l F (QAck cid) RUnit l F.

Inductive fifo_trace (p : policy) (mem : Prop)
    : list message -> list message -> list qop -> list qreply -> list message -> list message -> Prop :=
| fifo_done l F : fifo_trace p mem l F [] [] l F
| fifo_more l F c r l1 F1 cs rs l2 F2 :
    fifo_step p mem l F c r l1 F1 -> fifo_trace p mem l1 F1 cs rs l2 F2 ->
    fifo_trace p mem l F (c :: cs) (r :: rs) l2 F2.

(** The queue is consistent, and every reference is accounted for: those of the
    ring, those of the client and no others. *)
Definition client_ok (st : client) : Prop :=
  queue_ok (cl_q st) /\ holds (s_heap (cl_s st)) (contents (cl_q st) ++ cl_held st).

Lemma client_ok_qinv st l :
  qinv (cl_q st) l -> holds (s_heap (cl_s st)) (l ++ cl_held st) ->
  client_ok st /\ contents (cl_q st) = l.
Proof. intros Hq Hh. unfold client_ok. rewrite (qinv_contents _ _ Hq). eauto with bmq. Qed.

Lemma fifo_weaken p (mem mem' : Prop) l F c r l' F' :
  (mem' -> mem) -> fifo_step p mem l F c r l' F' -> fifo_step p mem' l F c r l' F'.
Proof.
  intros Hm Hs. destruct Hs; try (econstructor; by eauto).
  econstructor; [done|].
  match goal with H : enqueued _ _ _ _ _ _ _ |- _ => destruct H end; econstructor; eauto.
Qed.

Lemma fifo_trace_weaken p (mem mem' : Prop) l F cs rs l' F' :
  (mem' -> mem) -> fifo_trace p mem l F cs rs l' F' -> fifo_trace p mem' l F cs rs l' F'.
Proof. intros Hm. induction 1; econstructor; eauto using fifo_weaken. Qed.

Lemma u64_range z : 0 <= u64 z < 2 ^ 64.
Proof. apply wrap_range. lia. Qed.

(** A step of the queue that the contract allows. *)
Definition allowed (st : client) (c : qop) (r : qreply) (st' : client) : Prop :=
  client_ok st' /\ framed (cl_q st) (cl_s st) (cl_q st') (cl_s st') /\
  fifo_step (policy_of (cl_s st) (cl_q st)) (ample (cl_s st)) (contents (cl_q st)) (cl_held st) c r
    (contents (cl_q st')) (cl_held st').

Lemma allowed_intro st c r st' l' :
  qinv (cl_q st') l' -> holds (s_heap (cl_s st')) (l' ++ cl_held st') ->
  framed (cl_q st) (cl_s st) (cl_q st') (cl_s st') ->
  fifo_step (policy_of (cl_s st) (cl_q st)) (ample (cl_s st)) (contents (cl_q st)) (cl_held st) c r l' (cl_held st') ->
  allowed st c r st'.
Proof.
  intros Hq Hh Hf Hs. destruct (client_ok_qinv st' l' Hq Hh) as [Hok Hc]. unfold allowed. by rewrite Hc.
Qed.

Section Steps.
Context (q : queue) (s : sys) (F : list message).
Hypothesis Hok : client_ok (Client q s F).
Let l := contents q.

Lemma step_nothing c i : F !! i = None -> c ∈ [QEnqueue i; QRequeue i; QRelease i] -> allowed (Client q s F) c RUnit (Client q s F).
Proof.
  intros Hi Hc. split_and!; [done | apply framed_refl | by eapply fifo_nothing].
Qed.

Lemma step_enqueue i m rc q1 dl s1 :
  F !! i = Some m -> queue_enqueue_locked q m s = (rc, q1, dl, s1) ->
  allowed (Client q s F) (QEnqueue i) (RCode rc dl) (Client q1 s1 (dl ++ F)).
Proof.
  destruct Hok as [Hq Hh]. intros Hi E.
  apply (enqueue_spec _ _ _ F _ _ _ _ l) in E as (l' & Hq1 & Hf & Hh1 & He);
    [|done.. | by eapply list_elem_of_lookup_2].
  by eapply allowed_intro; [done.. | econstructor].
Qed.

Lemma step_requeue i m rc q1 s1 :
  F !! i = Some m -> queue_requeue_internal q m s = (rc, q1, s1) ->
  allowed (Client q s F) (QRequeue i) (RCode rc []) (Client q1 s1 F).
Proof.
  destruct Hok as [Hq Hh]. intros Hi E.
  apply (requeue_spec _ _ _ F _ _ _ l) in E as (Hf & [(-> & Hq1 & Hh1)|(-> & Hn & Hq1 & Hh1)]);
    [| |done.. | by eapply list_elem_of_lookup_2].
  - eapply allowed_intro; [done.. | by constructor].
  - eapply allowed_intro; [done.. | by econstructor].
Qed.

Lemma step_release i m :
  F !! i = Some m ->
  allowed (Client q s F) (QRelease i) RUnit (Client q (s <| s_heap ::= message_unref (Some m) |>) (delete i F)).
Proof.
  destruct Hok as [Hq Hh]. intros Hi. apply (allowed_intro _ _ _ _ l); simpl.
  - done.
  - apply holds_unref. by rewrite Permutation_middle, <- (delete_Permutation F i m Hi).
  - apply (pop_framed q m); try done. unfold ample. simpl. by rewrite message_unref_oracle.
  - by econstructor.
Qed.

Lemma step_dequeue r q1 s1 :
  queue_dequeue q s = (r, q1, s1) -> allowed (Client q s F) QDequeue (RMsg r) (Client q1 s1 (option_list r ++ F)).
Proof.
  destruct Hok as [Hq Hh]. intros E. apply (dequeue_spec _ _ F _ _ _ l) in E as (Hf & Hh1 & -> & Hq1); [|done..].
  apply (allowed_intro _ _ _ _ (tail l)); simpl; [done | | done | constructor].
  by destruct l; simpl in *; rewrite <- ?Permutation_middle.
Qed.

Lemma step_drain w n q1 s1 :
  queue_drain_consumed w q s = (n, q1, s1) -> allowed (Client q s F) (QDrain w) (RNum n) (Client q1 s1 F).
Proof.
  destruct Hok as [Hq Hh]. intros E. apply (drain_spec _ _ _ F _ _ _ l) in E as (Hq1 & Hf & Hh1 & Hn); [|done..].
  eapply allowed_intro; [done.. | by constructor].
Qed.

Lemma step_purge n q1 s1 :
  queue_purge q s = (n, q1, s1) -> allowed (Client q s F) QPurge (RNum n) (Client q1 s1 F).
Proof.
  destruct Hok as [Hq Hh]. intros E. apply (purge_spec _ _ F _ _ _ l) in E as (-> & Hq1 & Hf & Hh1); [|done..].
  eapply allowed_intro; [done.. | by constructor].
Qed.

Lemma step_snapshot w ms oom s1 :
  queue_snapshot_refs w q s = (ms, oom, s1) -> allowed (Client q s F) (QSnapshot w) (RSnap ms oom) (Client q s1 (ms ++ F)).
Proof.
  destruct Hok as [Hq Hh]. intros E. apply (snapshot_spec _ _ _ F _ _ _ l) in E as (Hh1 & Hl & Ha & Ho & Hms); [|done..].
  apply (allowed_intro _ _ _ _ l); simpl; [done | done | by constructor; try done; unfold alarm_kept; rewrite Ha |].
  destruct oom; [destruct Hms as [-> ?]|]; by constructor.
Qed.

(** The tracking operations do not touch the messages. *)
Lemma step_tracking c q1 s1 :
  tracking_only q q1 -> tracking_ok q1 -> framed q s q1 s1 ->
  (forall refs, holds (s_heap s) refs -> holds (s_heap s1) refs) ->
  fifo_step (policy_of s q) (ample s) l F c RUnit l F ->
  allowed (Client q s F) c RUnit (Client q1 s1 F).
Proof.
  destruct Hok as [Hq Hh]. intros Ht Htok Hf Hr Hs.
  apply (allowed_intro _ _ _ _ l); simpl; [by eapply qinv_tracking | by apply Hr | done..].
Qed.

End Steps.

Lemma q_op_refines c st r st' : client_ok st -> q_op c st = (r, st') -> allowed st c r st'.
Proof.
  destruct st as [q s F]. intros Hok.
  assert (Ht : tracking_ok q) by apply Hok.
  destruct c as [i|i|i| |w| |w|cid no_ack|cid]; simpl.
  - destruct (F !! i) as [m|] eqn:Hi; [|intros [= <- <-]; apply (step_nothing _ _ _ Hok _ i); set_solver].
    destruct (queue_enqueue_locked q m s) as [[[rc q1] dl] s1] eqn:E. intros [= <- <-]. by eapply step_enqueue.
  - destruct (F !! i) as [m|] eqn:Hi; [|intros [= <- <-]; apply (step_nothing _ _ _ Hok _ i); set_solver].
    destruct (queue_requeue_internal q m s) as [[rc q1] s1] eqn:E. intros [= <- <-]. by eapply step_requeue.
  - destruct (F !! i) as [m|] eqn:Hi; [|intros [= <- <-]; apply (step_nothing _ _ _ Hok _ i); set_solver].
    intros [= <- <-]. by apply step_release.
  - destruct (queue_dequeue q s) as [[r1 q1] s1] eqn:E. intros [= <- <-]. by apply step_dequeue.
  - destruct (queue_drain_consumed w q s) as [[n q1] s1] eqn:E. intros [= <- <-]. by apply step_drain.
  - destruct (queue_purge q s) as [[n q1] s1] eqn:E. intros [= <- <-]. by apply step_purge.
  - destruct (queue_snapshot_refs w q s) as [[ms oom] s1] eqn:E. intros [= <- <-]. by apply step_snapshot.
  - destruct (queue_consume_on_deliver (u64 cid) no_ack q s) as [q1 s1] eqn:E. intros [= <- <-].
    apply on_deliver_spec in E as (? & ? & ? & ? & _); [|done | apply u64_range].
    apply step_tracking; try done. constructor.
  - intros [= <- <-]. destruct (on_ack_spec (u64 cid) q Ht) as (? & Hto & _).
    apply step_tracking; try done; [|constructor]. rewrite Hto. by constructor.
Qed.

Lemma q_run_refines cs st rs st' :
  client_ok st -> q_run cs st = (rs, st') ->
  client_ok st' /\ framed (cl_q st) (cl_s st) (cl_q st') (cl_s st') /\
  fifo_trace (policy_of (cl_s st) (cl_q st)) (ample (cl_s st)) (contents (cl_q st)) (cl_held st) cs rs
    (contents (cl_q st')) (cl_held st').
Proof.
  revert st rs. induction cs as [|c cs IH]; intros st rs Hok; simpl.
  { intros [= <- <-]. split_and!; [done | apply framed_refl | constructor]. }
  destruct (q_op c st) as [r st1] eqn:E1. destruct (q_run cs st1) as [rs1 st2] eqn:E2. intros [= <- <-].
  apply q_op_refines in E1 as (Hok1 & Hf1 & Hs1); [|done].
  apply IH in E2 as (Hok2 & Hf2 & Hs2); [|done]. rewrite (policy_framed _ _ _ _ Hf1) in Hs2.
  split_and!; [done | by eapply framed_trans |]. econstructor; [done|].
  eapply fifo_trace_weaken; [apply (fr_ample _ _ _ _ Hf1) | done].
Qed.

(** ** A concrete queue *)

(** A process whose heap holds the messages of the given bodies (with the given
    cluster ids), each referenced once by the client. *)
Definition demo_heap (bodies : list (Z * bytes)) : heap * list message :=
  foldl (fun '(h, ms) '(cid, body) =>
           match message_new None None body h with
           | (Some m, h) => (h, ms ++ [m <| m_cluster_id := cid |>])
           | (None, h) => (h, ms)
           end) (Heap [] 1 ∅ false, []) bodies.

Definition demo_client (bodies : list (Z * bytes)) : client :=
  let '(h, ms) := demo_heap bodies in Client (fresh_queue (cstr "q") 0) (Sys h 0 0 0 false 0) ms.

Lemma demo_heap_ok bodies : holds (fst (demo_heap bodies)) (snd (demo_heap bodies)).
Proof.
  induction bodies as [|[cid body] bodies IH] using rev_ind; [apply holds_empty|].
  unfold demo_heap in *. rewrite foldl_app. simpl. destruct (foldl _ _ _) as [h ms]. simpl in IH.
  pose proof (holds_new h ms None None body None IH) as Hn. unfold message_new.
  destruct (message_new_full None None body None h) as [[m|] h1]; [|done]. simpl. destruct Hn as [Hn _].
  rewrite (Permutation_app_comm ms). simpl. by eapply holds_same_addr; [|exact Hn].
Qed.

Lemma demo_client_ok bodies : client_ok (demo_client bodies).
Proof.
  pose proof (demo_heap_ok bodies) as Hh. unfold demo_client. destruct (demo_heap bodies) as [h ms].
  by apply (client_ok_qinv (Client _ _ _) [] (fresh_qinv _ _)).
Qed.

(** * Properties *)

(** C3: a queue is a FIFO list with limits.  From any consistent queue whose
    references are all accounted for, every history of enqueues, requeues,
    dequeues, drains, purges, snapshots and delivery tracking gives the replies
    and the contents of a list under the queue's policy: messages leave in the
    order they came, a publish over the limits is rejected or evicts from the
    front until it fits, a requeue ignores the limits, and failures happen only
    when memory can run out.  Afterwards the queue is consistent again (indices,
    byte and message counters, tracking) and the reference count of every message
    is the number of references held by the ring and the client: none leaks,
    none is freed early. *)
Theorem queue_refines_fifo cs st rs st' :
  client_ok st -> q_run cs st = (rs, st') ->
  fifo_trace (policy_of (cl_s st) (cl_q st)) (ample (cl_s st)) (contents (cl_q st)) (cl_held st) cs rs
    (contents (cl_q st')) (cl_held st') /\ client_ok st'.
Proof. intros Hok Hrun. by destruct (q_run_refines cs st rs st' Hok Hrun) as (? & ? & ?). Qed.

Definition demo_ops : list qop :=
  [QEnqueue 0; QEnqueue 1; QEnqueue 2; QRelease 0; QDequeue; QDrain 2; QDequeue; QDequeue].

Lemma queue_refines_fifo_witness :
  let st' := snd (q_run demo_ops (demo_client [(1, cstr "one"); (2, cstr "two"); (0, cstr "three")])) in
  contents (cl_q st') = [] /\ client_ok st'.
Proof.
  split; [vm_compute; reflexivity|].
  exact (proj2 (queue_refines_fifo demo_ops _ _ _ (demo_client_ok _) (surjective_pairing _))).
Defined.

(** What the overflow test says when the byte count does not wrap. *)
Lemma over_limit_spec ml mb bl l :
  0 <= bl -> sum_bytes l + bl < 2 ^ 64 ->
  if over_limit ml mb bl l then (ml <> 0 /\ ml < Z.of_nat (length l) + 1) \/ (mb <> 0 /\ mb < sum_bytes l + bl)
  else (ml = 0 \/ Z.of_nat (length l) + 1 <= ml) /\ (mb = 0 \/ sum_bytes l + bl <= mb).
Proof.
  intros Hb Hs. pose proof (sum_bytes_nonneg l). unfold over_limit. rewrite u64_small by lia.
  destruct (_ || _) eqn:E.
  - apply orb_true_iff in E as [E|E]; reflect_bools; lia.
  - apply orb_false_iff in E as [E1 E2].
    apply andb_false_iff in E1 as [E1|E1]; apply andb_false_iff in E2 as [E2|E2]; reflect_bools; lia.
Qed.

(** A suffix of the contents that the newcomer fits behind. *)
Lemma fits_behind ml mb msg l k :
  k `suffix_of` l -> sum_bytes l + m_body_len msg < 2 ^ 64 -> 0 <= ml ->
  k = [] \/ over_limit ml mb (m_body_len msg) k = false ->
  last (k ++ [msg]) = Some msg /\ (ml = 0 \/ Z.of_nat (length (k ++ [msg])) <= ml) /\
  (mb = 0 \/ sum_bytes (k ++ [msg]) <= mb \/ k ++ [msg] = [msg]).
Proof.
  intros [p ->] Hs Hml Hor. rewrite sum_bytes_app in Hs. pose proof (sum_bytes_nonneg p).
  rewrite last_snoc, length_app, sum_bytes_app. simpl. split; [done|].
  destruct Hor as [->|Ho]; [simpl; split; [lia | auto]|].
  pose proof (over_limit_spec ml mb (m_body_len msg) k) as Hk. rewrite Ho in Hk.
  destruct Hk as [[|] [|]]; unfold m_body_len in *; lia.
Qed.

(** A publish refused at a limit counts itself, and nothing else changes. *)
Lemma enqueue_full q msg s q' dl s' :
  queue_enqueue_locked q msg s = (QUEUE_FULL, q', dl, s') ->
  q' = q <| q_total_rejected ::= fun n => u64 (n + 1) |> /\ dl = [] /\ s' = s.
Proof.
  unfold queue_enqueue_locked. destruct (_ && _); [by intros [= <- <- <-]|].
  destruct (if queue_would_overflow _ _ _ then _ else _) as [[q1 dl1] s1]. destruct (make_room q1 s1) as [[[] q2] s2]; [|done].
  by destruct (push_tail q2 msg s2).
Qed.

(** One that the ring has no memory for changes nothing, the allocator's state apart. *)
Lemma enqueue_no_memory q msg s rc q' dl s' :
  queue_would_overflow s q (m_body_len msg) = false -> rc <> 0 -> queue_enqueue_locked q msg s = (rc, q', dl, s') ->
  q' = q /\ dl = [] /\ q_count q = q_cap q /\ s_malloc s = (false, s').
Proof.
  unfold queue_enqueue_locked. intros -> Hrc. simpl. unfold make_room, queue_grow.
  destruct (Nat.eqb_spec (q_count q) (q_cap q)); [|destruct (push_tail q msg s); by intros [= <- _ _ _]].
  destruct (s_malloc s) as [[] s1]; [|by intros [= <- <- <- <-]]. destruct (push_tail _ msg s1). by intros [= <- _ _ _].
Qed.

(** C24: the limits hold, and a publish does one of three things.  It is accepted: the
    message is the last one, the oldest messages were evicted only if the queue drops
    its head and a limit would have been exceeded, the queue is within its effective
    length limit, and within its effective byte limit unless the new message is alone
    in it.  Or it is refused at a limit it would exceed: the queue counts one more
    rejected publish, and nothing else changes.  Or the full ring cannot be enlarged
    for want of memory: nothing changes. *)
Theorem enqueue_within_limits q msg s F rc q' dl s' :
  queue_ok q -> holds (s_heap s) (contents q ++ F) -> msg ∈ F ->
  sum_bytes (contents q) + m_body_len msg < 2 ^ 64 -> 0 <= eff_max_length s q ->
  queue_enqueue_locked q msg s = (rc, q', dl, s') ->
  let exceeds :=
    (eff_max_length s q <> 0 /\ eff_max_length s q < Z.of_nat (queue_depth q) + 1) \/
    (eff_max_bytes s q <> 0 /\ eff_max_bytes s q < sum_bytes (contents q) + m_body_len msg) in
  (rc = 0 /\
     (exists dropped kept, contents q = dropped ++ kept /\ contents q' = kept ++ [msg] /\
        (dropped = [] \/ (q_overflow q = QUEUE_OVERFLOW_DROP_HEAD /\ exceeds)) /\ dl `prefix_of` dropped) /\
     (eff_max_length s q = 0 \/ Z.of_nat (queue_depth q') <= eff_max_length s q) /\
     (eff_max_bytes s q = 0 \/ sum_bytes (contents q') <= eff_max_bytes s q \/ contents q' = [msg])) \/
  (rc = QUEUE_FULL /\ exceeds /\ q_overflow q = QUEUE_OVERFLOW_REJECT_PUBLISH /\
     q' = q <| q_total_rejected ::= fun n => u64 (n + 1) |> /\ dl = [] /\ s' = s) \/
  (rc = -1 /\ ~ exceeds /\ q' = q /\ dl = [] /\ q_count q = q_cap q /\ s_malloc s = (false, s')).
Proof.
  intros Hq Hh Hm Hsum Hlen He.
  destruct (enqueue_spec _ _ _ F _ _ _ _ (contents q) Hq Hh Hm He) as (l' & Hq' & _ & _ & Hc).
  unfold queue_depth. rewrite (ring_count (qi_ring _ _ Hq)), (ring_count (qi_ring _ _ Hq')), (qinv_contents _ _ Hq').
  pose proof (over_limit_spec (eff_max_length s q) (eff_max_bytes s q) (m_body_len msg) (contents q) ltac:(unfold m_body_len; lia) Hsum) as Hx.
  inversion Hc as [Ho Hp|Ho _|Ho|dropped dl0 Ho Hp Hl Hd _ _]; unfold p_over, p_keep in *; simpl in *; rewrite Ho in Hx; subst.
  - right. left. by apply enqueue_full in He as (-> & _ & ->).
  - right. right. rewrite <- (would_overflow_spec s q _ _ Hq) in Ho. apply enqueue_no_memory in He as (-> & _ & ? & ?); [|exact Ho | discriminate].
    rewrite <- (ring_count (qi_ring _ _ Hq)) in *. split_and!; try done. lia.
  - left. destruct (fits_behind (eff_max_length s q) (eff_max_bytes s q) msg (contents q) (contents q)) as (_ & ? & ?); auto.
    split_and!; auto. exists [], (contents q). by auto.
  - left. destruct (fits_behind (eff_max_length s q) (eff_max_bytes s q) msg (contents q)
      (keep_fitting (eff_max_length s q) (eff_max_bytes s q) (m_body_len msg) (contents q))) as (_ & ? & ?);
      auto using keep_fitting_suffix, keep_fitting_fits. split_and!; auto. eexists dropped, _. split_and!; [exact Hl | done | right; auto | done].
Qed.

(** A drop-head queue of at most one message and four bytes. *)
Definition demo_limited : client :=
  let '(Client q s F) := demo_client [(0, cstr "one"); (0, cstr "two")] in
  Client (queue_set_limits 1 4 QUEUE_OVERFLOW_DROP_HEAD q) s F.
Definition demo_message : message := Message 1 0 0 [] [] (cstr "one") [] 0.

Lemma demo_limited_ok : client_ok demo_limited.
Proof.
  pose proof (demo_client_ok [(0, cstr "one"); (0, cstr "two")]) as Hok. unfold demo_limited.
  destruct (demo_client _) as [q s F]. destruct Hok as [[Hr Hb Hc Ht Hw] Hh].
  apply (client_ok_qinv (Client _ _ _) (contents q)); [|exact Hh]. constructor; simpl; assumption.
Qed.

Lemma enqueue_within_limits_witness :
  exists rc q' dl s', queue_enqueue_locked (cl_q demo_limited) demo_message (cl_s demo_limited) = (rc, q', dl, s') /\
    rc = 0 /\ Z.of_nat (queue_depth q') <= 1.
Proof.
  assert (Hrc : (queue_enqueue_locked (cl_q demo_limited) demo_message (cl_s demo_limited)).1.1.1 = 0)
    by (vm_compute; reflexivity).
  destruct (queue_enqueue_locked _ _ _) as [[[rc q'] dl] s'] eqn:E. exists rc, q', dl, s'. simpl in Hrc.
  split; [done|]. split; [done|].
  destruct (enqueue_within_limits (cl_q demo_limited) demo_message (cl_s demo_limited) (cl_held demo_limited) rc q' dl s')
    as [(_ & _ & Hl & _)|[(? & _)|(? & _)]]; [apply demo_limited_ok | apply demo_limited_ok | | | | done | | subst; done..].
  - apply (bool_decide_unpack _). vm_compute. exact I.
  - vm_compute. reflexivity.
  - vm_compute. discriminate.
  - destruct Hl as [Hl|Hl]; [vm_compute in Hl; discriminate Hl | exact Hl].
Defined.

(** * The consume watermark *)

(** The deliveries that still wait for an ack after a history: delivered with
    acknowledgement, not acked since ([0] is the id of a message that is not
    replicated). *)
Definition outstanding_after (c : qop) (X : gset Z) : gset Z :=
  match c with
  | QDeliver cid false => if decide (u64 cid = 0) then X else X ∪ {[u64 cid]}
  | QAck cid => X ∖ {[u64 cid]}
  | _ => X
  end.

Definition outstanding (cs : list qop) (X : gset Z) : gset Z := foldl (fun X c => outstanding_after c X) X cs.

Lemma q_op_outstanding c st r st' X :
  client_ok st -> ample (cl_s st) -> (forall c, c ∈ X <-> c ∈ q_unacked (cl_q st)) -> q_op c st = (r, st') ->
  forall x, x ∈ outstanding_after c X <-> x ∈ q_unacked (cl_q st').
Proof.
  destruct st as [q s F]. intros Hok Hs HX. simpl in *.
  assert (Ht : tracking_ok q) by apply Hok.
  assert (Hsame : forall q', q_track q' = q_track q -> forall x, x ∈ X <-> x ∈ q_unacked q')
    by (intros q' [= -> _ _ _]; done).
  destruct c as [i|i|i| |w| |w|cid no_ack|cid]; simpl.
  - destruct (F !! i) as [m|]; [|intros [= <- <-]; by apply Hsame].
    destruct (queue_enqueue_locked q m s) as [[[rc q1] dl] s1] eqn:E. intros [= <- <-]. apply Hsame. by eapply enqueue_track.
  - destruct (F !! i) as [m|]; [|intros [= <- <-]; by apply Hsame].
    destruct (queue_requeue_internal q m s) as [[rc q1] s1] eqn:E. intros [= <- <-]. apply Hsame. by eapply requeue_track.
  - destruct (F !! i) as [m|]; intros [= <- <-]; by apply Hsame.
  - destruct (queue_dequeue q s) as [[r1 q1] s1] eqn:E. intros [= <- <-]. apply Hsame. by eapply dequeue_track.
  - destruct (queue_drain_consumed w q s) as [[n q1] s1] eqn:E. intros [= <- <-]. apply Hsame. by eapply drain_track.
  - destruct (queue_purge q s) as [[n q1] s1] eqn:E. intros [= <- <-]. apply Hsame. by eapply purge_track.
  - destruct (queue_snapshot_refs w q s) as [[ms oom] s1] eqn:E. intros [= <- <-]. by apply Hsame.
  - destruct (queue_consume_on_deliver (u64 cid) no_ack q s) as [q1 s1] eqn:E. intros [= <- <-]. simpl.
    apply on_deliver_spec in E as (_ & _ & _ & _ & Hin & Hout & Hrec); [|done | apply u64_range].
    destruct (Hrec Hs) as (_ & _ & Hnew). intros x.
    destruct no_ack; [|destruct (decide (u64 cid = 0))]; set_unfold; naive_solver.
  - intros [= <- <-]. simpl. destruct (on_ack_spec (u64 cid) q Ht) as (_ & _ & Hack). intros x. rewrite Hack. set_solver.
Qed.

Lemma q_run_outstanding cs st rs st' X :
  client_ok st -> ample (cl_s st) -> (forall c, c ∈ X <-> c ∈ q_unacked (cl_q st)) -> q_run cs st = (rs, st') ->
  client_ok st' /\ forall x, x ∈ outstanding cs X <-> x ∈ q_unacked (cl_q st').
Proof.
  revert st rs X. induction cs as [|c cs IH]; intros st rs X Hok Hs HX; simpl.
  { by intros [= <- <-]. }
  destruct (q_op c st) as [r st1] eqn:E1. destruct (q_run cs st1) as [rs1 st2] eqn:E2. intros [= <- <-].
  pose proof (q_op_outstanding c st r st1 X Hok Hs HX E1) as H1.
  apply q_op_refines in E1 as (Hok1 & Hf1 & _); [|done].
  eapply (IH st1 rs1); [done | by apply (fr_ample _ _ _ _ Hf1) | done | done].
Qed.

(** C19: the watermark never passes an unacknowledged delivery.  While memory lasts,
    after any history the ids tracked are exactly the deliveries that still wait
    for an ack, and the watermark the cluster replicates is below each of them:
    no replica drops a message that may have to be delivered again. *)
Theorem watermark_safe cs st rs st' :
  client_ok st -> ample (cl_s st) -> q_run cs st = (rs, st') ->
  forall cid, cid ∈ outstanding cs (list_to_set (q_unacked (cl_q st))) ->
    cid ∈ q_unacked (cl_q st') /\ queue_consume_watermark (cl_q st') < cid.
Proof.
  intros Hok Hs Hrun cid Hcid.
  destruct (q_run_outstanding cs st rs st' _ Hok Hs ltac:(intros; apply elem_of_list_to_set) Hrun) as [[Hq' _] Hout].
  apply Hout in Hcid. split; [done|]. apply watermark_below; [apply Hq' | done].
Qed.

Definition demo_deliveries : list qop := [QDeliver 1 false; QDeliver 3 false; QDeliver 4 true; QDeliver 2 false; QAck 1].

Lemma watermark_safe_witness :
  let st' := snd (q_run demo_deliveries (demo_client [])) in
  queue_consume_watermark (cl_q st') = 1 /\ queue_consume_watermark (cl_q st') < 2.
Proof.
  split; [vm_compute; reflexivity|].
  refine (proj2 (watermark_safe demo_deliveries _ _ _ (demo_client_ok []) _ (surjective_pairing _) 2 _)).
  - reflexivity.
  - apply (bool_decide_unpack _). vm_compute. exact I.
Defined.

(** The watermark can pass an unacknowledged delivery when memory runs out.
    There is a history with one failed allocation (the array of outstanding ids
    could not grow for id 1) after which id 1 is outstanding and the watermark is
    2: acking the later id 2 moves the watermark past the id that could not be
    recorded, which the guard in [queue_consume_on_deliver] means to prevent. *)
Theorem watermark_passes_unrecorded :
  exists st st', client_ok st /\ q_run [QDeliver 1 false; QDeliver 2 false; QAck 2] st = ([RUnit; RUnit; RUnit], st') /\
    1 ∈ outstanding [QDeliver 1 false; QDeliver 2 false; QAck 2] ∅ /\
    queue_consume_watermark (cl_q st') = 2.
Proof.
  pose (st := Client (fresh_queue (cstr "q") 0) (Sys (Heap [false] 1 ∅ false) 0 0 0 false 0) []).
  exists st, (snd (q_run [QDeliver 1 false; QDeliver 2 false; QAck 2] st)). split_and!.
  - apply (client_ok_qinv st [] (fresh_qinv _ _)), holds_empty.
  - vm_compute. reflexivity.
  - apply (bool_decide_unpack _). vm_compute. exact I.
  - vm_compute. reflexivity.
Qed.

(** * Alarms *)

(** At or above nine tenths of a limit; at or below three quarters of every limit. *)
Definition above_high (limit amount : Z) : Prop := limit <> 0 /\ limit - limit / 10 <= amount.
Definition below_low (limit amount : Z) : Prop := limit = 0 \/ amount <= limit - limit / 4.

(** Congestion has hysteresis.  With limits of at least 4 (or none), the
    update marks a queue congested when it is above the high mark of a limit,
    clears the mark when it is below the low mark of both, and leaves it alone in
    between; the flow alarm moves by exactly the change of the mark.  The low mark
    is three quarters, not the half of the comment above the function. *)
Theorem congestion_hysteresis q s q' s' :
  (forall lim, lim = eff_max_length s q \/ lim = eff_max_bytes s q -> lim = 0 \/ 4 <= lim) ->
  queue_update_congestion q s = (q', s') ->
  let high := above_high (eff_max_length s q) (Z.of_nat (q_count q)) \/ above_high (eff_max_bytes s q) (q_total_bytes q) in
  let low := below_low (eff_max_length s q) (Z.of_nat (q_count q)) /\ below_low (eff_max_bytes s q) (q_total_bytes q) in
  (high -> q_congested q' = true) /\ (low -> q_congested q' = false) /\
  (~ high -> ~ low -> q_congested q' = q_congested q) /\ alarm_kept q s q' s'.
Proof.
  intros Hlim Hu. pose proof (fr_alarm _ _ _ _ (proj2 (proj2 (congestion_spec _ _ _ _ Hu)))) as Ha.
  pose proof (Hlim _ (or_introl eq_refl)) as Hl. pose proof (Hlim _ (or_intror eq_refl)) as Hb. clear Hlim.
  unfold queue_update_congestion in Hu. unfold above_high, below_low.
  set (ml := eff_max_length s q) in *. set (mb := eff_max_bytes s q) in *.
  assert (Hdl : ml <> 0 -> ml / 10 < ml / 4) by (intros; Z.div_mod_to_equations; lia).
  assert (Hdb : mb <> 0 -> mb / 10 < mb / 4) by (intros; Z.div_mod_to_equations; lia).
  clear Hl Hb.
  destruct (Z.eqb_spec ml 0), (Z.eqb_spec mb 0), (Z.leb_spec (ml - ml / 10) (Z.of_nat (q_count q))),
    (Z.leb_spec (mb - mb / 10) (q_total_bytes q)), (Z.leb_spec (Z.of_nat (q_count q)) (ml - ml / 4)),
    (Z.leb_spec (q_total_bytes q) (mb - mb / 4)), (q_congested q) eqn:Ec; simpl in Hu;
    injection Hu as <- <-; (split_and!; [| | |done]); simpl; rewrite ?Ec; try done; intros; lia.
Qed.

Lemma congestion_hysteresis_witness :
  let q := queue_set_limits 4 0 QUEUE_OVERFLOW_REJECT_PUBLISH (fresh_queue [] 0) <| q_count := 4%nat |> in
  q_congested (fst (queue_update_congestion q (Sys (Heap [] 1 ∅ false) 0 0 0 false 0))) = true.
Proof.
  eapply (congestion_hysteresis
    (queue_set_limits 4 0 QUEUE_OVERFLOW_REJECT_PUBLISH (fresh_queue [] 0) <| q_count := 4%nat |>)
    (Sys (Heap [] 1 ∅ false) 0 0 0 false 0)); [|apply surjective_pairing|].
  - vm_compute. intros lim [->| ->]; [right; discriminate | left; reflexivity].
  - left. split; vm_compute; discriminate.
Defined.

(** The memory alarm has hysteresis.  With a watermark of at least 10
    bytes, feeding the usage
    turns the alarm on at the watermark, off at nine tenths of it, and changes
    nothing in between; the value returned is the state publishers see.  Without a
    watermark the alarm stays off. *)
Theorem memory_alarm_hysteresis used s :
  0 <= g_mem_high_bytes s -> (g_mem_high_bytes s = 0 -> g_mem_alarm s = false) ->
  let '(on, s') := queue_memory_alarm_update used s in
  let high := g_mem_high_bytes s in
  queue_memory_alarm_active s' = on /\ queue_memory_watermark s' = high /\
  (high = 0 -> on = false) /\
  (10 <= high -> high <= used -> on = true) /\
  (10 <= high -> used <= high - high / 10 -> on = false) /\
  (10 <= high -> high - high / 10 < used < high -> on = queue_memory_alarm_active s).
Proof.
  intros Hw Hoff. unfold queue_memory_alarm_update, queue_memory_alarm_active, queue_memory_watermark.
  assert (10 <= g_mem_high_bytes s -> 0 < g_mem_high_bytes s / 10) by (intros; Z.div_mod_to_equations; lia).
  destruct (Z.eqb_spec (g_mem_high_bytes s) 0) as [H0|Hn].
  - rewrite Hoff by done. split_and!; try done; lia.
  - destruct (g_mem_alarm s) eqn:Ea; simpl.
    + destruct (Z.leb_spec used (g_mem_high_bytes s - g_mem_high_bytes s / 10)); simpl; split_and!; try done; intros; lia.
    + destruct (Z.leb_spec (g_mem_high_bytes s) used); simpl; split_and!; try done; intros; lia.
Qed.

Lemma memory_alarm_hysteresis_witness :
  let s := Sys (Heap [] 1 ∅ false) 0 0 0 false 1000 in
  let '(on, s') := queue_memory_alarm_update 1000 s in on = true /\ queue_memory_alarm_active s' = on.
Proof.
  split; [|exact (proj1 (memory_alarm_hysteresis 1000 (Sys (Heap [] 1 ∅ false) 0 0 0 false 1000)
                           ltac:(vm_compute; discriminate) ltac:(vm_compute; discriminate)))].
  reflexivity.
Defined.
