(* ===== verification/Store.v ===== *)
(** The queues of the process: pointers to queues are addresses in a table, so a
    queue that the registry, the bindings and the dispatchers share is one object
    with one reference count (queue_ref/queue_unref of src/src/queue.c).  Using an
    address that is not in the table is a use after free and sets the fault flag
    of the heap; [store_ok] accounts for every reference to every queue and to
    every message, so it never happens. *)

From S2P Require Import Prelude Message Queue.

Record store := Store {
  st_sys : sys;
  st_queues : gmap positive queue;
  st_next : positive
}.

#[global] Instance store_settable : Settable store := fun st =>
  Store (st_sys st) (st_queues st) (st_next st).

(** * Operations through a pointer *)

Definition dangling (st : store) : store := st <| st_sys ::= null_deref |>.

(** Run [f] on the queue at [p]. *)
Definition on_queue {A} (dflt : A) (p : positive) (f : queue -> sys -> A * queue * sys) (st : store) : A * store :=
  match st_queues st !! p with
  | Some q => let '(a, q, s) := f q (st_sys st) in (a, Store s (<[p := q]> (st_queues st)) (st_next st))
  | None => (dflt, dangling st)
  end.

(** Reading a field of the queue at [p]. *)
Definition at_queue {A} (dflt : A) (p : positive) (f : queue -> A) (st : store) : A :=
  match st_queues st !! p with Some q => f q | None => dflt end.

Definition qp_ref (p : positive) (st : store) : store :=
  match st_queues st !! p with
  | Some q => st <| st_queues ::= <[p := queue_ref q]> |>
  | None => dangling st
  end.

Definition qp_unref (p : positive) (st : store) : store :=
  match st_queues st !! p with
  | Some q =>
      match queue_unref q (st_sys st) with
      | (Some q', s) => Store s (<[p := q']> (st_queues st)) (st_next st)
      | (None, s) => Store s (delete p (st_queues st)) (st_next st)
      end
  | None => dangling st
  end.

(** A new queue at a fresh address. *)
Definition qp_new (name : option bytes) (flags : Z) (st : store) : option positive * store :=
  match queue_new name flags (st_sys st) with
  | (Some q, s) => (Some (st_next st), Store s (<[st_next st := q]> (st_queues st)) (Pos.succ (st_next st)))
  | (None, s) => (None, st <| st_sys := s |>)
  end.

Definition st_malloc (st : store) : bool * store :=
  let '(ok, s) := s_malloc (st_sys st) in (ok, st <| st_sys := s |>).

(** * The invariant *)

Definition messages_of (m : gmap positive queue) : list message := map_to_list m ≫= (fun pq => contents pq.2).

(** How many queues of the table are congested. *)
Definition congested_in (m : gmap positive queue) : Z :=
  foldr (fun pq n => Z.b2z (q_congested pq.2) + n) 0 (map_to_list m).

Definition refs_to (p : positive) (R : list positive) : nat := length (filter (fun x => x = p) R).

(** [R] is the list of the references to queues that are held, [F] the list of the
    references to messages held outside the queues. *)
Record store_ok (st : store) (R : list positive) (F : list message) : Prop := StoreOk {
  so_queues : forall p q, st_queues st !! p = Some q -> queue_ok q;
  so_fresh : forall p q, st_queues st !! p = Some q -> (p < st_next st)%positive;
  so_refs : forall p q, st_queues st !! p = Some q ->
    q_refcount q = Z.of_nat (refs_to p R) /\ (0 < refs_to p R)%nat;
  so_live : forall p, p ∈ R -> is_Some (st_queues st !! p);
  so_holds : holds (s_heap (st_sys st)) (messages_of (st_queues st) ++ F);
  so_alarm : u64 (g_flow_alarm_count (st_sys st)) = u64 (congested_in (st_queues st))
}.

(** One queue set apart from the others. *)
Lemma map_split (m : gmap positive queue) p q :
  m !! p = Some q -> map_to_list m ≡ₚ (p, q) :: map_to_list (delete p m).
Proof.
  intros Hp. rewrite <- (insert_delete_id m p q Hp) at 1.
  apply map_to_list_insert. apply lookup_delete_eq.
Qed.

Lemma messages_split m p q :
  m !! p = Some q -> messages_of m ≡ₚ contents q ++ messages_of (delete p m).
Proof. intros Hp. unfold messages_of. by rewrite (map_split m p q Hp). Qed.

Lemma messages_insert m p q : messages_of (<[p := q]> m) ≡ₚ contents q ++ messages_of (delete p m).
Proof.
  rewrite (messages_split (<[p := q]> m) p q) by apply lookup_insert_eq. by rewrite delete_insert_eq.
Qed.

#[global] Instance congested_sum_proper :
  Proper ((≡ₚ) ==> (=)) (foldr (fun (pq : positive * queue) n => Z.b2z (q_congested pq.2) + n) 0).
Proof. intros l1 l2 Hp. induction Hp; simpl in *; lia. Qed.

Lemma congested_split m p q :
  m !! p = Some q -> congested_in m = Z.b2z (q_congested q) + congested_in (delete p m).
Proof. intros Hp. unfold congested_in. by rewrite (map_split m p q Hp). Qed.

Lemma congested_insert m p q :
  congested_in (<[p := q]> m) = Z.b2z (q_congested q) + congested_in (delete p m).
Proof.
  rewrite (congested_split (<[p := q]> m) p q) by apply lookup_insert_eq. by rewrite delete_insert_eq.
Qed.

#[global] Instance refs_to_proper p : Proper ((≡ₚ) ==> (=)) (refs_to p).
Proof. intros l1 l2 Hp. unfold refs_to. by rewrite Hp. Qed.

Lemma refs_to_cons p x R : refs_to p (x :: R) = ((if decide (x = p) then 1 else 0) + refs_to p R)%nat.
Proof. unfold refs_to. rewrite filter_cons. by destruct (decide (x = p)). Qed.

Lemma refs_to_pos p R : p ∈ R <-> (0 < refs_to p R)%nat.
Proof.
  induction R as [|x R IH]; [split; [set_solver | unfold refs_to; simpl; lia]|].
  rewrite refs_to_cons, elem_of_cons, IH. destruct (decide (x = p)); [|naive_solver lia].
  subst. split; [lia | auto].
Qed.

#[global] Instance store_ok_proper st : Proper ((≡ₚ) ==> (≡ₚ) ==> iff) (store_ok st).
Proof.
  intros R1 R2 HR F1 F2 HF. split; intros [H1 H2 H3 H4 H5 H6]; constructor; try done.
  - intros p q Hp. rewrite <- HR. eauto.
  - intros p Hp. apply H4. by rewrite HR.
  - by rewrite <- HF.
  - intros p q Hp. rewrite HR. eauto.
  - intros p Hp. apply H4. by rewrite <- HR.
  - by rewrite HF.
Qed.

(** ** Updating a queue in place *)

Lemma store_replace st p q q' s' R F F' l' :
  store_ok st R F -> st_queues st !! p = Some q -> qinv q' l' ->
  q_refcount q' = q_refcount q -> alarm_kept q (st_sys st) q' s' ->
  (forall X, holds (s_heap (st_sys st)) (contents q ++ X ++ F) -> holds (s_heap s') (l' ++ X ++ F')) ->
  store_ok (Store s' (<[p := q']> (st_queues st)) (st_next st)) R F'.
Proof.
  intros [H1 H2 H3 H4 H5 H6] Hp Hq' Hrc Ha Hh. constructor; simpl.
  - intros x y Hx. apply lookup_insert_Some in Hx as [[<- <-]|[_ Hx]]; [by eapply qinv_ok | eauto].
  - intros x y Hx. apply lookup_insert_Some in Hx as [[<- <-]|[_ Hx]]; eauto.
  - intros x y Hx. apply lookup_insert_Some in Hx as [[<- <-]|[_ Hx]]; [|eauto]. rewrite Hrc. by apply H3.
  - intros x Hx. apply lookup_insert_is_Some. destruct (decide (p = x)); auto.
  - rewrite messages_insert, (qinv_contents _ _ Hq'), <- app_assoc. apply Hh.
    by rewrite app_assoc, <- (messages_split _ _ _ Hp).
  - rewrite (congested_split _ _ _ Hp) in H6. rewrite congested_insert. unfold alarm_kept in Ha. u64_lia.
Qed.

Lemma store_update st p q q' s' R F F' l' :
  store_ok st R F -> st_queues st !! p = Some q -> qinv q' l' -> framed q (st_sys st) q' s' ->
  (forall X, holds (s_heap (st_sys st)) (contents q ++ X ++ F) -> holds (s_heap s') (l' ++ X ++ F')) ->
  store_ok (Store s' (<[p := q']> (st_queues st)) (st_next st)) R F'.
Proof.
  intros Hst Hp Hq' [Hs _ Ha _] Hh. apply store_replace with q F l'; try done.
  unfold q_static in Hs. by injection Hs as _ _ _ _ _ _ _ _ _ _ _ _ -> _.
Qed.

(** ** Allocation and the heap outside the queues *)

Lemma store_sys st s' R F F' :
  store_ok st R F -> g_flow_alarm_count s' = g_flow_alarm_count (st_sys st) ->
  (forall X, holds (s_heap (st_sys st)) (X ++ F) -> holds (s_heap s') (X ++ F')) ->
  store_ok (st <| st_sys := s' |>) R F'.
Proof. intros [H1 H2 H3 H4 H5 H6] Ha Hh. constructor; simpl; auto. by rewrite Ha. Qed.

Lemma st_malloc_ok st ok st' R F :
  store_ok st R F -> st_malloc st = (ok, st') ->
  store_ok st' R F /\ st_queues st' = st_queues st /\ s_limits (st_sys st') = s_limits (st_sys st) /\
  (ample (st_sys st) -> ok = true /\ ample (st_sys st')).
Proof.
  intros Hok. unfold st_malloc. destruct (s_malloc (st_sys st)) as [ok1 s1] eqn:E. intros [= <- <-].
  apply s_malloc_spec in E as (Hl & Ha & Hh & Ho). split_and!; try done.
  eapply store_sys; [done | done |]. intros X HX. by apply Hh.
Qed.

(** Only the allocation outcomes change. *)
Lemma store_oracle st o R F :
  store_ok st R F -> store_ok (st <| st_sys ::= fun s => s <| s_heap ::= fun h => h <| h_oracle := o |> |> |>) R F.
Proof.
  intros Hst. apply (store_sys st ((st_sys st) <| s_heap ::= fun h => h <| h_oracle := o |> |>) R F F); [done | done |].
  intros X [A1 A2 A3]. by constructor.
Qed.

(** ** References to queues *)

(** What is seen of a queue besides its reference count: the messages and the
    configuration. *)
Definition q_config (q : queue) :=
  (q_name q, q_vhost q, q_flags q, (q_max_length q, q_max_bytes q, q_overflow q),
   (q_dl_exchange q, q_dl_routing_key q, q_dl_fn q), q_waiters q, q_consumers q, q_exclusive_owner q).

Definition view (q : queue) := (contents q, q_config q).

Lemma static_config q q' : q_static q' = q_static q -> q_config q' = q_config q.
Proof. unfold q_static, q_config. congruence. Qed.

Lemma config_policy s s' q q' : q_config q' = q_config q -> s_limits s' = s_limits s -> policy_of s' q' = policy_of s q.
Proof.
  unfold q_config, s_limits, policy_of, eff_max_length, eff_max_bytes. intros H1 H2.
  injection H1 as _ _ _ -> -> -> _ _ -> _ _ _. by injection H2 as -> -> _ _.
Qed.

Lemma qp_ref_ok st p R F :
  store_ok st R F -> p ∈ R ->
  store_ok (qp_ref p st) (p :: R) F /\ st_sys (qp_ref p st) = st_sys st /\
  dom (st_queues (qp_ref p st)) = dom (st_queues st) /\
  (forall x, view <$> st_queues (qp_ref p st) !! x = view <$> st_queues st !! x).
Proof.
  intros [H1 H2 H3 H4 H5 H6] Hp. unfold qp_ref. destruct (H4 p Hp) as [q Hq]. rewrite Hq.
  destruct (H3 p q Hq) as [Hr Hpos].
  assert (Hq' : qinv (queue_ref q) (contents q)) by (destruct (H1 p q Hq); constructor; simpl; assumption).
  split_and!; [constructor; simpl| done | |].
  - intros x y Hx. apply lookup_insert_Some in Hx as [[<- <-]|[_ Hx]]; [by eapply qinv_ok | eauto].
  - intros x y Hx. apply lookup_insert_Some in Hx as [[<- <-]|[_ Hx]]; eauto.
  - intros x y Hx. rewrite refs_to_cons. apply lookup_insert_Some in Hx as [[<- <-]|[Hne Hx]].
    + destruct (decide (p = p)); [|done]. simpl. split; lia.
    + destruct (H3 x y Hx). destruct (decide (p = x)); [done|]. split; [lia | lia].
  - intros x [->|Hx]%elem_of_cons; apply lookup_insert_is_Some; [by left|]. destruct (decide (p = x)); auto.
  - by rewrite messages_insert, (qinv_contents _ _ Hq'), <- (messages_split _ _ _ Hq).
  - by rewrite congested_insert, H6, (congested_split _ _ _ Hq).
  - simpl. rewrite dom_insert_lookup_L; [done | by eexists].
  - intros x. simpl. destruct (decide (x = p)) as [->|]; [|by rewrite lookup_insert_ne].
    by rewrite lookup_insert_eq, Hq.
Qed.

Lemma qp_unref_ok st p R F :
  store_ok st (p :: R) F ->
  store_ok (qp_unref p st) R F /\ s_limits (st_sys (qp_unref p st)) = s_limits (st_sys st) /\
  (ample (st_sys st) -> ample (st_sys (qp_unref p st))) /\
  (forall x, x ∈ R -> view <$> st_queues (qp_unref p st) !! x = view <$> st_queues st !! x).
Proof.
  intros [H1 H2 H3 H4 H5 H6]. unfold qp_unref. destruct (H4 p ltac:(set_solver)) as [q Hq]. rewrite Hq.
  destruct (H3 p q Hq) as [Hr _]. rewrite refs_to_cons, decide_True in Hr by done.
  assert (Hother : forall x y, st_queues st !! x = Some y -> x <> p ->
    q_refcount y = Z.of_nat (refs_to x R) /\ (0 < refs_to x R)%nat).
  { intros x y Hx Hne. destruct (H3 x y Hx) as [Ha Hb]. rewrite refs_to_cons in Ha, Hb.
    by rewrite decide_False in Ha, Hb by done. }
  unfold queue_unref. destruct (Z.eqb_spec (q_refcount q) 1) as [He|Hne].
  - assert (Hp : p ∉ R) by (rewrite refs_to_pos; lia).
    split_and!; [constructor; simpl | by destruct (q_congested q) | |].
    + intros x y [_ Hx]%lookup_delete_Some. eauto.
    + intros x y [_ Hx]%lookup_delete_Some. eauto.
    + intros x y [Hne Hx]%lookup_delete_Some. eauto.
    + intros x Hx. rewrite lookup_delete_ne by (intros ->; done). apply H4. set_solver.
    + rewrite (messages_split _ _ _ Hq), <- app_assoc in H5. destruct (q_congested q); by apply holds_unref_all.
    + rewrite (congested_split _ _ _ Hq) in H6. destruct (q_congested q); simpl in *; u64_lia.
    + unfold ample. destruct (q_congested q); simpl; by rewrite unref_all_oracle.
    + intros x Hx. simpl. rewrite lookup_delete_ne; [done|]. by intros ->.
  - assert (Hq' : qinv (q <| q_refcount ::= fun n => n - 1 |>) (contents q))
      by (destruct (H1 p q Hq); constructor; simpl; assumption).
    split_and!; [constructor; simpl | done | done |].
    + intros x y Hx. apply lookup_insert_Some in Hx as [[<- <-]|[_ Hx]]; [by eapply qinv_ok | eauto].
    + intros x y Hx. apply lookup_insert_Some in Hx as [[<- <-]|[_ Hx]]; eauto.
    + intros x y Hx. apply lookup_insert_Some in Hx as [[<- <-]|[Hn Hx]]; [|by eauto].
      simpl. split; lia.
    + intros x Hx. apply lookup_insert_is_Some. destruct (decide (p = x)); [by left|]. right. split; [done|].
      apply H4. set_solver.
    + by rewrite messages_insert, (qinv_contents _ _ Hq'), <- (messages_split _ _ _ Hq).
    + by rewrite congested_insert, H6, (congested_split _ _ _ Hq).
    + intros x Hx. simpl. destruct (decide (x = p)) as [->|]; [|by rewrite lookup_insert_ne].
      by rewrite lookup_insert_eq, Hq.
Qed.

(** Same queues with the same contents and configuration (references aside). *)
Definition same_queues (st st' : store) : Prop :=
  forall x, view <$> st_queues st' !! x = view <$> st_queues st !! x.

Lemma messages_fmap m : messages_of m = map_to_list (contents <$> m) ≫= snd.
Proof.
  unfold messages_of. rewrite map_to_list_fmap. induction (map_to_list m) as [|[p q] l IH]; [done|]. csimpl. by rewrite IH.
Qed.

Lemma same_queues_messages st st' :
  same_queues st st' -> messages_of (st_queues st') = messages_of (st_queues st).
Proof.
  intros Hs. rewrite !messages_fmap. f_equal. f_equal. apply map_eq. intros x. specialize (Hs x).
  rewrite !lookup_fmap. destruct (st_queues st' !! x), (st_queues st !! x); simplify_eq/=; congruence.
Qed.

(** Dropping a reference while another one is left changes no contents. *)
Lemma unref_same_queues st p R F :
  store_ok st (p :: R) F -> p ∈ R -> same_queues st (qp_unref p st).
Proof.
  intros Hst Hp x. destruct (qp_unref_ok st p R F Hst) as (Hst' & _ & _ & Hs).
  destruct (decide (x ∈ R)) as [Hx|Hx]; [by apply Hs|].
  destruct (st_queues st !! x) as [q|] eqn:E1.
  { destruct (so_refs _ _ _ Hst x q E1) as [_ Hpos]. apply refs_to_pos in Hpos. set_solver. }
  destruct (st_queues (qp_unref p st) !! x) as [q|] eqn:E2; [|done].
  destruct (so_refs _ _ _ Hst' x q E2) as [_ Hpos]. apply refs_to_pos in Hpos. set_solver.
Qed.

Lemma elem_of_messages m x : x ∈ messages_of m <-> exists p q, m !! p = Some q /\ x ∈ contents q.
Proof.
  unfold messages_of. rewrite list_elem_of_bind. split.
  - intros ([p q] & Hx & Hin%elem_of_map_to_list). eauto.
  - intros (p & q & Hp & Hx). exists (p, q). split; [done|]. by apply elem_of_map_to_list.
Qed.

(** Dropping a reference adds no message. *)
Lemma unref_messages st p R F x :
  store_ok st (p :: R) F -> x ∈ messages_of (st_queues (qp_unref p st)) -> x ∈ messages_of (st_queues st).
Proof.
  intros Hst. destruct (qp_unref_ok st p R F Hst) as (Hst' & _ & _ & Hs). rewrite !elem_of_messages.
  intros (y & q & Hy & Hx). destruct (so_refs _ _ _ Hst' y q Hy) as [_ Hpos]. apply refs_to_pos in Hpos.
  specialize (Hs y Hpos). rewrite Hy in Hs. destruct (st_queues st !! y) as [q0|] eqn:E; [|done].
  simpl in Hs. injection Hs as Hc _. exists y, q0. by rewrite <- Hc.
Qed.

Lemma qp_new_ok name flags st r st' R F :
  store_ok st R F -> qp_new name flags st = (r, st') ->
  s_limits (st_sys st') = s_limits (st_sys st) /\ (ample (st_sys st) -> ample (st_sys st')) /\
  match r with
  | Some p => p = st_next st /\ store_ok st' (p :: R) F /\
      st_queues st' = <[p := fresh_queue (default [] name) flags]> (st_queues st) /\ st_queues st !! p = None
  | None => store_ok st' R F /\ ~ ample (st_sys st) /\ st_queues st' = st_queues st
  end.
Proof.
  intros [H1 H2 H3 H4 H5 H6]. unfold qp_new. destruct (queue_new name flags (st_sys st)) as [rq s1] eqn:E.
  apply queue_new_spec in E as (Hr & Hl & Ha & Hh & Ho).
  assert (Hfree : st_queues st !! st_next st = None).
  { destruct (st_queues st !! st_next st) eqn:Ef; [|done]. specialize (H2 _ _ Ef). lia. }
  assert (Hni : st_next st ∉ R) by (intros Hin; destruct (H4 _ Hin); congruence).
  destruct Hr as [-> |[-> Hn]]; intros [= <- <-].
  - split_and!; try done. constructor; simpl.
    + intros x y Hx. apply lookup_insert_Some in Hx as [[<- <-]|[_ Hx]]; [|eauto].
      eapply qinv_ok, fresh_qinv.
    + intros x y Hx. apply lookup_insert_Some in Hx as [[<- <-]|[_ Hx]]; [lia|]. specialize (H2 _ _ Hx). lia.
    + intros x y Hx. rewrite refs_to_cons. apply lookup_insert_Some in Hx as [[<- <-]|[Hne Hx]].
      * rewrite decide_True by done. rewrite refs_to_pos in Hni. simpl. split; lia.
      * rewrite decide_False by done. by apply H3.
    + intros x [->|Hx]%elem_of_cons; apply lookup_insert_is_Some; [by left|].
      destruct (decide (st_next st = x)); auto.
    + rewrite messages_insert, (qinv_contents _ _ (fresh_qinv _ _)), delete_id by done. by apply Hh.
    + rewrite congested_insert, delete_id, Ha, H6 by done. done.
  - split_and!; try done. constructor; simpl; auto. congruence.
Qed.

(** ** Operations on a queue through its pointer *)

Section Pointer.
Context (st : store) (R : list positive) (F : list message) (p : positive).
Hypothesis (Hst : store_ok st R F) (Hp : p ∈ R).

Lemma pointer_live : exists q, st_queues st !! p = Some q /\ queue_ok q.
Proof. destruct (so_live _ _ _ Hst p Hp) as [q Hq]. exists q. split; [done|]. by eapply so_queues. Qed.

(** The queue at [p] after the locked part of an enqueue. *)
Lemma enqueue_pointer msg rc dl st' :
  msg ∈ F ->
  on_queue (-1, []) p (fun q s => let '(rc, q, dl, s) := queue_enqueue_locked q msg s in ((rc, dl), q, s)) st
    = ((rc, dl), st') ->
  exists q q', st_queues st !! p = Some q /\ st_queues st' = <[p := q']> (st_queues st) /\
    store_ok st' R (dl ++ F) /\ framed q (st_sys st) q' (st_sys st') /\
    enqueued (policy_of (st_sys st) q) (ample (st_sys st)) msg (contents q) rc (contents q') dl.
Proof.
  intros Hm. destruct pointer_live as (q & Hq & Hqok). unfold on_queue. rewrite Hq.
  destruct (queue_enqueue_locked q msg (st_sys st)) as [[[rc1 q1] dl1] s1] eqn:E. intros [= <- <- <-].
  pose proof (fun X => enqueue_spec q msg (st_sys st) (X ++ F) rc1 q1 dl1 s1 (contents q) Hqok) as Hspec.
  destruct (Hspec (messages_of (delete p (st_queues st)))) as (l' & Hq1 & Hf & _ & He); [|set_solver | done|].
  { rewrite app_assoc, <- (messages_split _ _ _ Hq). apply Hst. }
  exists q, q1. rewrite (qinv_contents _ _ Hq1). split_and!; try done.
  eapply store_update; [done | done | done | done |]. intros X HX.
  destruct (Hspec X HX ltac:(set_solver) E) as (l'' & Hq1' & _ & Hh & _).
  assert (l'' = l') as -> by (rewrite <- (qinv_contents _ _ Hq1'); by apply qinv_contents).
  by rewrite (Permutation_app_comm X), <- app_assoc, (Permutation_app_comm F).
Qed.

End Pointer.

(** * The empty process, and one with a few queues *)

Definition empty_store : store := Store (Sys (Heap [] 1 ∅ false) 0 0 0 false 0) ∅ 1.

Lemma empty_store_ok : store_ok empty_store [] [].
Proof. constructor; simpl; try done. intros p Hp. by apply elem_of_nil in Hp. Qed.

(** [n] queues, each referenced once. *)
Fixpoint demo_store (n : nat) : list positive * store :=
  match n with
  | O => ([], empty_store)
  | S n => let '(ps, st) := demo_store n in
           match qp_new (Some (cstr "q")) 0 st with
           | (Some p, st) => (p :: ps, st)
           | (None, st) => (ps, st)
           end
  end.

Lemma demo_store_ok n : store_ok (snd (demo_store n)) (fst (demo_store n)) [].
Proof.
  induction n as [|n IH]; [apply empty_store_ok|]. simpl. destruct (demo_store n) as [ps st]. simpl in IH.
  destruct (qp_new (Some (cstr "q")) 0 st) as [r st1] eqn:E. destruct (qp_new_ok _ _ _ _ _ _ _ IH E) as (_ & _ & H).
  destruct r as [p|]; simpl; [by destruct H as (_ & H & _) | by destruct H as (H & _)].
Qed.
