(* ===== verification/Exchange.v ===== *)
(** Exchanges: src/src/exchange.c, src/include/exchange.h.

    Bindings hold pointers to queues (addresses of the [store]) and one reference
    each.  The topic matcher is the memoised recursion of the source over the
    words of the pattern and of the key, with its table of cells; it decides the
    relation [topic_match]. *)

From S2P Require Import Prelude Tables Message Queue Store.

(** * State *)

(** [EXCHANGE_OTHER] is any other value of the C enum: the switches of the source
    fall through for it. *)
Inductive exchange_type_t :=
| EXCHANGE_DIRECT
| EXCHANGE_FANOUT
| EXCHANGE_TOPIC
| EXCHANGE_OTHER (z : Z).

#[global] Instance exchange_type_eq_dec : EqDecision exchange_type_t.
Proof. solve_decision. Defined.

Record binding := Binding { bd_key : bytes; bd_queue : positive }.

#[global] Instance binding_eq_dec : EqDecision binding.
Proof. solve_decision. Defined.

Record exchange := Exchange {
  x_name : bytes;
  x_vhost : option bytes;
  x_type : exchange_type_t;
  x_flags : Z;
  x_bindings : list binding;
  x_cap_bindings : nat
}.

#[global] Instance exchange_settable : Settable exchange := fun x =>
  Exchange (x_name x) (x_vhost x) (x_type x) (x_flags x) (x_bindings x) (x_cap_bindings x).

(** * Types *)

(** Returns (0 or -1, the type). *)
Definition exchange_type_from_name (name : option bytes) : Z * exchange_type_t :=
  if bool_decide (name = Some (cstr "fanout")) then (0, EXCHANGE_FANOUT)
  else if bool_decide (name = Some (cstr "topic")) then (0, EXCHANGE_TOPIC)
  else if bool_decide (name = Some (cstr "direct")) then (0, EXCHANGE_DIRECT)
  else (-1, EXCHANGE_DIRECT).

Definition exchange_type_name (type : exchange_type_t) : bytes :=
  match type with
  | EXCHANGE_DIRECT => cstr "direct"
  | EXCHANGE_FANOUT => cstr "fanout"
  | EXCHANGE_TOPIC => cstr "topic"
  | EXCHANGE_OTHER _ => cstr "unknown"
  end.

(** * Lifecycle *)

Definition exchange_new (name : option bytes) (type : exchange_type_t) (flags : Z) (st : store)
    : option exchange * store :=
  let '(ok, st) := st_malloc st in
  if ok then
    let '(ok, st) := st_malloc st in
    if ok then (Some (Exchange (default [] name) None type flags [] 0), st) else (None, st)
  else (None, st).

Definition exchange_free (ex : option exchange) (st : store) : store :=
  match ex with
  | None => st
  | Some ex => foldl (fun st b => qp_unref (bd_queue b) st) st (x_bindings ex)
  end.

#[global] Arguments exchange_free : simpl never.

Definition exchange_name (ex : exchange) : bytes := x_name ex.
Definition exchange_type (ex : exchange) : exchange_type_t := x_type ex.
Definition exchange_flags (ex : exchange) : Z := x_flags ex.
Definition exchange_binding_count (ex : exchange) : nat := length (x_bindings ex).
Definition exchange_vhost (ex : exchange) : bytes := default [] (x_vhost ex).

Definition exchange_set_vhost (ex : exchange) (vhost : option bytes) (st : store) : exchange * store :=
  let '(v, s) := strdup (default [] vhost) (st_sys st) in
  (ex <| x_vhost := v |>, st <| st_sys := s |>).

(** * Bindings *)

(** Room in the array of bindings. *)
Definition grow_bindings (ex : exchange) (st : store) : bool * exchange * store :=
  if (length (x_bindings ex) =? x_cap_bindings ex)%nat then
    let nc := if (x_cap_bindings ex =? 0)%nat then 4%nat else (x_cap_bindings ex * 2)%nat in
    let '(ok, st) := st_malloc st in
    (ok, if ok then ex <| x_cap_bindings := nc |> else ex, st)
  else (true, ex, st).

Definition exchange_bind (ex : exchange) (routing_key : option bytes) (q : positive) (st : store)
    : Z * exchange * store :=
  let key := default [] routing_key in
  if bool_decide (Binding key q ∈ x_bindings ex) then (0, ex, st)
  else
    let '(ok, ex, st) := grow_bindings ex st in
    if ok then
      let '(ok, st) := st_malloc st in (* the key's strdup *)
      if ok then (0, ex <| x_bindings ::= fun l => l ++ [Binding key q] |>, qp_ref q st)
      else (-1, ex, st)
    else (-1, ex, st).

(** The loop of [exchange_unbind_queue] at index [i]: a removed binding is replaced
    by the last one and the same index is looked at again.  Each round removes a
    binding or advances, so [fuel] = [n_bindings] rounds reach the end. *)
Fixpoint unbind_loop (fuel i : nat) (q : positive) (bs : list binding) (st : store) (removed : nat)
    : nat * list binding * store :=
  match fuel with
  | O => (removed, bs, st)
  | S fuel =>
      match bs !! i with
      | None => (removed, bs, st)
      | Some b =>
          if bool_decide (bd_queue b = q) then
            unbind_loop fuel i q (swap_remove i bs) (qp_unref (bd_queue b) st) (S removed)
          else unbind_loop fuel (S i) q bs st removed
      end
  end.

Definition exchange_unbind_queue (ex : exchange) (q : positive) (st : store) : nat * exchange * store :=
  let '(removed, bs, st) := unbind_loop (length (x_bindings ex)) 0 q (x_bindings ex) st 0 in
  (removed, ex <| x_bindings := bs |>, st).

(** * Topic matching *)

Definition DOT : Z := 46. (* '.' *)

(** The scan that cuts the copy at the dots: [start] is the word read so far. *)
Fixpoint cut_words (start s : bytes) : list bytes :=
  match s with
  | [] => [start]
  | c :: s => if c =? DOT then start :: cut_words [] s else cut_words (start ++ [c]) s
  end.

(** [None]: one of the two allocations failed. *)
Definition split_words (s : bytes) (sy : sys) : option (list bytes) * sys :=
  let '(ok, sy) := s_malloc sy in
  if ok then
    let '(ok, sy) := s_malloc sy in
    (if ok then Some (cut_words [] s) else None, sy)
  else (None, sy).

Definition HASH : bytes := cstr "#".
Definition STAR : bytes := cstr "*".

(** The [for] loop of the '#' case: try [f] at [k], [k + 1], ... until one matches. *)
Fixpoint hash_loop (f : nat -> list Z -> bool * list Z) (rounds k : nat) (memo : list Z) : bool * list Z :=
  match rounds with
  | O => (false, memo)
  | S rounds => let '(r, memo) := f k memo in
                if r then (true, memo) else hash_loop f rounds (S k) memo
  end.

Section Match.
Context (pat key : list bytes).
Let np := length pat.
Let nk := length key.

(** The cells of the table: -1 not computed, 0/1 the cached result. *)
Definition cell (pi ki : nat) : nat := (pi * (nk + 1) + ki)%nat.

(** The recursion on the [left] pattern words still to match, at
    [pi = np - left]. *)
Fixpoint match_tokens (left ki : nat) (memo : list Z) : bool * list Z :=
  let pi := (np - left)%nat in
  let cached := default (-1) (memo !! cell pi ki) in
  if 0 <=? cached then (negb (cached =? 0), memo)
  else
    let '(r, memo) :=
      match left with
      | O => (bool_decide (ki = nk), memo)
      | S left' =>
          let word := nth pi pat [] in
          if bool_decide (word = HASH) then
            hash_loop (match_tokens left') (nk + 1 - ki) ki memo
          else if bool_decide (ki = nk) then (false, memo)
          else if bool_decide (word = STAR) || bool_decide (word = nth ki key []) then
            match_tokens left' (S ki) memo
          else (false, memo)
      end in
    (r, <[cell pi ki := Z.b2z r]> memo).
End Match.

(** The allocations are those of the pattern, of the key and of the table; a failed
    one makes the answer false. *)
Definition exchange_topic_match (pattern key : bytes) (sy : sys) : bool * sys :=
  let '(pw, sy) := split_words pattern sy in
  match pw with
  | None => (false, sy)
  | Some pw =>
      let '(kw, sy) := split_words key sy in
      match kw with
      | None => (false, sy)
      | Some kw =>
          let '(ok, sy) := s_malloc sy in
          if ok then
            let memo := replicate ((length pw + 1) * (length kw + 1)) (-1) in
            (fst (match_tokens pw kw (length pw) 0 memo), sy)
          else (false, sy)
      end
  end.

(** * Routing *)

Definition binding_matches (ex : exchange) (b : binding) (routing_key : bytes) (sy : sys) : bool * sys :=
  match x_type ex with
  | EXCHANGE_FANOUT => (true, sy)
  | EXCHANGE_DIRECT => (bool_decide (bd_key b = routing_key), sy)
  | EXCHANGE_TOPIC => exchange_topic_match (bd_key b) routing_key sy
  | EXCHANGE_OTHER _ => (false, sy)
  end.

(** The loop over the bindings: each new target queue is referenced once. *)
Fixpoint route_loop (ex : exchange) (routing_key : bytes) (bs : list binding) (targets : list positive)
    (st : store) : list positive * store :=
  match bs with
  | [] => (targets, st)
  | b :: bs =>
      let '(m, sy) := binding_matches ex b routing_key (st_sys st) in
      let st := st <| st_sys := sy |> in
      if m && negb (bool_decide (bd_queue b ∈ targets)) then
        route_loop ex routing_key bs (targets ++ [bd_queue b]) (qp_ref (bd_queue b) st)
      else route_loop ex routing_key bs targets st
  end.

(** Returns the referenced targets and whether the target array could not be
    allocated. *)
Definition exchange_route (ex : exchange) (routing_key : option bytes) (st : store)
    : list positive * bool * store :=
  match x_bindings ex with
  | [] => ([], false, st)
  | bs =>
      let key := default [] routing_key in
      let '(ok, st) := st_malloc st in
      if ok then let '(ts, st) := route_loop ex key bs [] st in (ts, false, st)
      else ([], true, st)
  end.

(** * The relation the matcher decides *)

(** '#' stands for any number of words, '*' for exactly one, any other word for
    itself. *)
Inductive topic_match : list bytes -> list bytes -> Prop :=
| tm_nil : topic_match [] []
| tm_hash ps ws1 ws2 : topic_match ps ws2 -> topic_match (HASH :: ps) (ws1 ++ ws2)
| tm_star w ps ws : topic_match ps ws -> topic_match (STAR :: ps) (w :: ws)
| tm_word w ps ws : w <> HASH -> topic_match ps ws -> topic_match (w :: ps) (w :: ws).

Lemma tm_nil_iff ws : topic_match [] ws <-> ws = [].
Proof. split; [by inversion 1 | intros ->; constructor]. Qed.

Lemma tm_hash_iff ps ws : topic_match (HASH :: ps) ws <-> exists j, (j <= length ws)%nat /\ topic_match ps (drop j ws).
Proof.
  split.
  - inversion 1; subst; try done. exists (length ws1). rewrite length_app, drop_app_length. split; [lia | done].
  - intros (j & _ & Hm). rewrite <- (take_drop j ws). by constructor.
Qed.

Lemma tm_word_iff p ps ws :
  p <> HASH ->
  topic_match (p :: ps) ws <-> exists w ws', ws = w :: ws' /\ (p = STAR \/ p = w) /\ topic_match ps ws'.
Proof.
  intros Hp. split.
  - inversion 1; subst; try done; eauto 10.
  - intros (w & ws' & -> & [->| ->] & Hm); [by constructor | by constructor].
Qed.

Section MatchSpec.
Context (pat key : list bytes).
Abbreviation np := (length pat).
Abbreviation nk := (length key).

(** Every computed cell holds the right answer. *)
Definition memo_ok (memo : list Z) : Prop :=
  length memo = ((np + 1) * (nk + 1))%nat /\
  forall pi ki, (pi <= np)%nat -> (ki <= nk)%nat ->
    exists v, memo !! cell key pi ki = Some v /\
      (v = -1 \/ v = 0 /\ ~ topic_match (drop pi pat) (drop ki key) \/
       v = 1 /\ topic_match (drop pi pat) (drop ki key)).

Lemma cell_inj pi ki pi' ki' :
  (ki <= nk)%nat -> (ki' <= nk)%nat -> cell key pi ki = cell key pi' ki' -> pi = pi' /\ ki = ki'.
Proof.
  unfold cell. intros H1 H2 He. assert (pi = pi') as ->; [|lia].
  destruct (Nat.lt_trichotomy pi pi') as [|[|]]; [nia | done | nia].
Qed.

Lemma memo_set memo pi ki (r : bool) :
  memo_ok memo -> (pi <= np)%nat -> (ki <= nk)%nat ->
  (r = true <-> topic_match (drop pi pat) (drop ki key)) ->
  memo_ok (<[cell key pi ki := Z.b2z r]> memo).
Proof.
  intros [Hlen Hm] Hpi Hki Hr. split; [by rewrite length_insert|]. intros pi' ki' Hpi' Hki'.
  destruct (decide (cell key pi' ki' = cell key pi ki)) as [He|Hne].
  - apply cell_inj in He as [-> ->]; [|done..]. exists (Z.b2z r). split.
    + apply list_lookup_insert_eq. destruct (Hm pi ki Hpi Hki) as (v & Hv & _). by eapply lookup_lt_Some.
    + destruct r; simpl; naive_solver.
  - rewrite list_lookup_insert_ne by done. auto.
Qed.

(** The answer of [f] at every key position, with the table kept right. *)
Definition decides (f : nat -> list Z -> bool * list Z) (ps : list bytes) : Prop :=
  forall ki memo, (ki <= nk)%nat -> memo_ok memo ->
    let '(r, memo') := f ki memo in memo_ok memo' /\ (r = true <-> topic_match ps (drop ki key)).

Lemma hash_loop_spec f ps rounds k memo :
  decides f ps -> (k + rounds = nk + 1)%nat -> memo_ok memo ->
  let '(r, memo') := hash_loop f rounds k memo in
  memo_ok memo' /\ (r = true <-> exists j, (k <= j <= nk)%nat /\ topic_match ps (drop j key)).
Proof.
  intros Hf. revert k memo. induction rounds as [|rounds IH]; intros k memo Hk Hm; simpl.
  { split; [done|]. split; [done|]. intros (j & Hj & _). lia. }
  specialize (Hf k memo ltac:(lia) Hm). destruct (f k memo) as [r memo1]. destruct Hf as [Hm1 Hr].
  destruct r.
  - split; [done|]. split; [|done]. intros _. exists k. split; [lia | by apply Hr].
  - specialize (IH (S k) memo1 ltac:(lia) Hm1). destruct (hash_loop f rounds (S k) memo1) as [r memo2].
    destruct IH as [Hm2 Hr2]. split; [done|]. rewrite Hr2. split; intros (j & Hj & Ht); exists j.
    + split; [lia | done].
    + split; [|done]. destruct (decide (j = k)) as [->|]; [|lia]. by apply Hr in Ht.
Qed.

Lemma drop_nth {A} (d : A) l i : (i < length l)%nat -> drop i l = nth i l d :: drop (S i) l.
Proof.
  intros Hi. destruct (lookup_lt_is_Some_2 l i Hi) as [x Hx]. rewrite (drop_S _ _ _ Hx). f_equal.
  symmetry. by apply nth_lookup_Some.
Qed.

Lemma cached_right memo pi ki :
  memo_ok memo -> (pi <= np)%nat -> (ki <= nk)%nat ->
  let v := default (-1) (memo !! cell key pi ki) in
  0 <= v -> (negb (v =? 0) = true <-> topic_match (drop pi pat) (drop ki key)).
Proof.
  intros [_ Hm] Hpi Hki. destruct (Hm pi ki Hpi Hki) as (v & -> & Hv). simpl. intros Hge.
  destruct Hv as [->|[[-> Hn]|[-> Hy]]]; [lia | done | done].
Qed.

(** Storing a right answer in its cell. *)
Lemma store_answer memo pi ki (r : bool) :
  memo_ok memo -> (pi <= np)%nat -> (ki <= nk)%nat ->
  (r = true <-> topic_match (drop pi pat) (drop ki key)) ->
  memo_ok (<[cell key pi ki := Z.b2z r]> memo) /\ (r = true <-> topic_match (drop pi pat) (drop ki key)).
Proof. intros. split; [by apply memo_set | done]. Qed.

Lemma match_tokens_spec left : (left <= np)%nat -> decides (match_tokens pat key left) (drop (np - left) pat).
Proof.
  induction left as [|left IH]; intros Hleft ki memo Hki Hm; cbn [match_tokens].
  - pose proof (cached_right memo (np - 0) ki Hm ltac:(lia) Hki) as Hc. cbv zeta in Hc.
    destruct (Z.leb_spec 0 (default (-1) (memo !! cell key (np - 0) ki))); [by split; [|apply Hc]|].
    apply store_answer; [done | lia | done |]. rewrite Nat.sub_0_r, drop_all, tm_nil_iff, bool_decide_eq_true.
    split; [intros ->; apply drop_all | intros Hnil%(f_equal length); rewrite length_drop in Hnil; simpl in Hnil; lia].
  - pose proof (cached_right memo (np - S left) ki Hm ltac:(lia) Hki) as Hc. cbv zeta in Hc.
    destruct (Z.leb_spec 0 (default (-1) (memo !! cell key (np - S left) ki))); [by split; [|apply Hc]|].
    specialize (IH ltac:(lia)). set (pi := (np - S left)%nat) in *.
    assert (Hdrop : drop pi pat = nth pi pat [] :: drop (np - left) pat).
    { rewrite (drop_nth []) by lia. do 2 f_equal. lia. }
    case_bool_decide as Hh; [|case_bool_decide as Hk; [|destruct (_ || _) eqn:Hw]].
    + pose proof (hash_loop_spec _ _ (nk + 1 - ki) ki memo IH ltac:(lia) Hm) as Hl.
      destruct (hash_loop _ _ _ _) as [r memo1]. destruct Hl as [Hm1 Hr].
      apply store_answer; [done | lia | done |]. rewrite Hr, Hdrop, Hh, tm_hash_iff, length_drop.
      split; intros (j & Hj & Ht).
      * exists (j - ki)%nat. rewrite drop_drop. replace (ki + (j - ki))%nat with j by lia. split; [lia | done].
      * exists (ki + j)%nat. rewrite drop_drop in Ht. split; [lia | done].
    + apply store_answer; [done | lia | done |]. rewrite Hdrop, tm_word_iff by done. subst ki.
      rewrite drop_all. split; [done|]. by intros (w & ws' & ? & _).
    + specialize (IH (S ki) memo ltac:(lia) Hm). destruct (match_tokens pat key left (S ki) memo) as [r memo1].
      destruct IH as [Hm1 Hr]. apply store_answer; [done | lia | done |].
      rewrite Hr, Hdrop, tm_word_iff, (drop_nth [] key ki) by (done || lia).
      apply orb_true_iff in Hw. rewrite !bool_decide_eq_true in Hw. naive_solver.
    + apply store_answer; [done | lia | done |].
      rewrite Hdrop, tm_word_iff, (drop_nth [] key ki) by (done || lia).
      apply orb_false_iff in Hw as [Hw1%bool_decide_eq_false Hw2%bool_decide_eq_false]. naive_solver.
Qed.

End MatchSpec.

(** * Words *)

(** The words joined by dots. *)
Fixpoint join_words (ws : list bytes) : bytes :=
  match ws with
  | [] => []
  | [w] => w
  | w :: ws => w ++ DOT :: join_words ws
  end.

Lemma cut_word (w : bytes) : forall start, DOT ∉ w -> cut_words start w = [start ++ w].
Proof.
  induction w as [|c w IH]; intros start Hw; simpl; [by rewrite app_nil_r|].
  destruct (Z.eqb_spec c DOT) as [->|]; [set_solver|]. rewrite IH by set_solver. by rewrite <- app_assoc.
Qed.

Lemma cut_word_dot (w rest : bytes) : forall start, DOT ∉ w ->
  cut_words start (w ++ DOT :: rest) = (start ++ w) :: cut_words [] rest.
Proof.
  induction w as [|c w IH]; intros start Hw; simpl; [by rewrite app_nil_r|].
  destruct (Z.eqb_spec c DOT) as [->|]; [set_solver|]. rewrite IH by set_solver. by rewrite <- app_assoc.
Qed.

(** Splitting undoes joining. *)
Lemma cut_join ws : ws <> [] -> Forall (fun w => DOT ∉ w) ws -> cut_words [] (join_words ws) = ws.
Proof.
  intros Hne Hws. induction Hws as [|w ws Hw Hws IH]; [done|]. destruct ws as [|w2 ws].
  - simpl. by rewrite cut_word.
  - cbn [join_words]. rewrite cut_word_dot by done. simpl app. f_equal. by apply IH.
Qed.

Lemma split_words_spec w sy r sy' :
  split_words w sy = (r, sy') ->
  (r = Some (cut_words [] w) \/ r = None /\ ~ ample sy) /\ (ample sy -> ample sy') /\
  s_limits sy' = s_limits sy /\ g_flow_alarm_count sy' = g_flow_alarm_count sy /\
  (forall refs, holds (s_heap sy) refs -> holds (s_heap sy') refs).
Proof.
  unfold split_words. destruct (s_malloc sy) as [ok1 s1] eqn:E1. apply s_malloc_spec in E1 as (A1 & B1 & C1 & D1).
  destruct ok1; [|intros [= <- <-]; split_and!; [right; split; [done|] | | done..]; naive_solver].
  destruct (s_malloc s1) as [ok2 s2] eqn:E2. apply s_malloc_spec in E2 as (A2 & B2 & C2 & D2).
  intros [= <- <-]. split_and!; [| naive_solver | congruence | congruence | by auto].
  destruct ok2; [by left | right; split; [done|]; naive_solver].
Qed.

Lemma memo_init pat key : memo_ok pat key (replicate ((length pat + 1) * (length key + 1)) (-1)).
Proof.
  split; [apply length_replicate|]. intros pi ki Hpi Hki. exists (-1). split; [|by left].
  apply lookup_replicate. split; [done|]. unfold cell. nia.
Qed.

(** The matcher without failed allocations decides [topic_match]; a failed one can
    only turn a match into a mismatch. *)
Lemma topic_match_spec pattern key sy r sy' :
  exchange_topic_match pattern key sy = (r, sy') ->
  (r = true -> topic_match (cut_words [] pattern) (cut_words [] key)) /\
  (ample sy -> topic_match (cut_words [] pattern) (cut_words [] key) -> r = true) /\
  (ample sy -> ample sy') /\ s_limits sy' = s_limits sy /\ g_flow_alarm_count sy' = g_flow_alarm_count sy /\
  (forall refs, holds (s_heap sy) refs -> holds (s_heap sy') refs).
Proof.
  unfold exchange_topic_match. destruct (split_words pattern sy) as [pw s1] eqn:E1.
  apply split_words_spec in E1 as ([-> |[-> Hn]] & A1 & B1 & C1 & D1); [|by intros [= <- <-]; split_and!].
  destruct (split_words key s1) as [kw s2] eqn:E2.
  apply split_words_spec in E2 as ([-> |[-> Hn]] & A2 & B2 & C2 & D2);
    [|intros [= <- <-]; split_and!; [done | naive_solver | naive_solver | congruence | congruence | by auto]].
  destruct (s_malloc s2) as [ok s3] eqn:E3. apply s_malloc_spec in E3 as (A3 & B3 & C3 & D3).
  set (ps := cut_words [] pattern). set (ws := cut_words [] key).
  pose proof (match_tokens_spec ps ws (length ps) ltac:(done) 0%nat _ ltac:(lia) (memo_init ps ws)) as Hm.
  destruct (match_tokens ps ws _ _ _) as [b memo'] eqn:Em. destruct Hm as [_ Hb]. rewrite Nat.sub_diag, !drop_0 in Hb.
  destruct ok; intros [= <- <-]; simpl;
    (split_and!; [naive_solver | naive_solver | naive_solver | congruence | congruence | by auto]).
Qed.

(** * Routing and bindings *)

(** What a binding matches. *)
Definition matches (ex : exchange) (b : binding) (routing_key : bytes) : Prop :=
  match x_type ex with
  | EXCHANGE_FANOUT => True
  | EXCHANGE_DIRECT => bd_key b = routing_key
  | EXCHANGE_TOPIC => topic_match (cut_words [] (bd_key b)) (cut_words [] routing_key)
  | EXCHANGE_OTHER _ => False
  end.

Lemma binding_matches_spec ex b rk sy r sy' :
  binding_matches ex b rk sy = (r, sy') ->
  (r = true -> matches ex b rk) /\ (ample sy -> matches ex b rk -> r = true) /\
  (ample sy -> ample sy') /\ s_limits sy' = s_limits sy /\ g_flow_alarm_count sy' = g_flow_alarm_count sy /\
  (forall refs, holds (s_heap sy) refs -> holds (s_heap sy') refs).
Proof.
  unfold binding_matches, matches. destruct (x_type ex).
  - intros [= <- <-]. rewrite bool_decide_eq_true. by split_and!.
  - intros [= <- <-]. by split_and!.
  - apply topic_match_spec.
  - intros [= <- <-]. by split_and!.
Qed.

(** The references of the bindings. *)
Definition binding_refs (ex : exchange) : list positive := bd_queue <$> x_bindings ex.

Lemma route_loop_spec ex rk bs : forall ts st R F ts' st',
  store_ok st (ts ++ R) F -> (forall b, b ∈ bs -> bd_queue b ∈ R) -> NoDup ts ->
  route_loop ex rk bs ts st = (ts', st') ->
  store_ok st' (ts' ++ R) F /\ NoDup ts' /\ ts `prefix_of` ts' /\ same_queues st st' /\
  s_limits (st_sys st') = s_limits (st_sys st) /\ (ample (st_sys st) -> ample (st_sys st')) /\
  (forall q, q ∈ ts' -> q ∈ ts \/ exists b, b ∈ bs /\ bd_queue b = q /\ matches ex b rk) /\
  (ample (st_sys st) -> forall b, b ∈ bs -> matches ex b rk -> bd_queue b ∈ ts').
Proof.
  induction bs as [|b bs IH]; intros ts st R F ts' st' Hst Hbs Hnd; simpl.
  { intros [= <- <-]. split_and!; try done; [by left | set_solver]. }
  destruct (binding_matches ex b rk (st_sys st)) as [m sy] eqn:Em.
  apply binding_matches_spec in Em as (Hm1 & Hm2 & Hsy & Hl & Ha & Hh).
  assert (Hst1 : store_ok (st <| st_sys := sy |>) (ts ++ R) F) by (eapply store_sys; eauto).
  destruct (m && _) eqn:Ec.
  - apply andb_true_iff in Ec as [-> Hni]. apply negb_true_iff, bool_decide_eq_false in Hni.
    destruct (qp_ref_ok _ (bd_queue b) _ _ Hst1) as (Hst2 & Hsys & _ & Hsame); [set_solver|].
    intros Hr. eapply (IH _ _ R F) in Hr as (A1 & A2 & [k Hk] & A3 & A4 & A5 & Hin & Hall).
    + rewrite Hsys in A4, A5, Hall. simpl in A4, A5, Hall. split_and!; [done | done | | | congruence | auto | |].
      * exists (bd_queue b :: k). by rewrite Hk, <- app_assoc.
      * intros x. by rewrite A3, Hsame.
      * intros q Hq. destruct (Hin q Hq) as [Hq'|]; [|set_solver]. set_unfold. naive_solver.
      * intros Hs c Hc Hmc. apply elem_of_cons in Hc as [->|Hc]; [rewrite Hk; set_solver | auto].
    + rewrite <- app_assoc. simpl. by rewrite <- Permutation_middle.
    + set_solver.
    + apply NoDup_app. split_and!; [done | set_solver | apply NoDup_singleton].
  - intros Hr. eapply (IH _ _ R F) in Hr as (A1 & A2 & Hpre & A3 & A4 & A5 & Hin & Hall); [|done | set_solver | done].
    simpl in A4, A5, Hall. split_and!; [done | done | done | done | congruence | auto | set_solver |].
    intros Hs c Hc Hmc. apply elem_of_cons in Hc as [->|Hc]; [|by apply Hall; auto].
    rewrite (Hm2 Hs Hmc) in Ec. apply negb_false_iff, bool_decide_eq_true in Ec.
    destruct Hpre as [k ->]. set_solver.
Qed.

Lemma route_spec ex rk st R F ts oom st' :
  store_ok st R F -> (forall q, q ∈ binding_refs ex -> q ∈ R) -> exchange_route ex rk st = (ts, oom, st') ->
  store_ok st' (ts ++ R) F /\ NoDup ts /\ same_queues st st' /\
  s_limits (st_sys st') = s_limits (st_sys st) /\ (ample (st_sys st) -> ample (st_sys st') /\ oom = false) /\
  (oom = true -> ts = []) /\
  (forall q, q ∈ ts -> exists b, b ∈ x_bindings ex /\ bd_queue b = q /\ matches ex b (default [] rk)) /\
  (ample (st_sys st) -> forall b, b ∈ x_bindings ex -> matches ex b (default [] rk) -> bd_queue b ∈ ts).
Proof.
  intros Hst Hbs. unfold exchange_route.
  assert (Hbs' : forall b, b ∈ x_bindings ex -> bd_queue b ∈ R).
  { intros b Hb. apply Hbs. unfold binding_refs. apply list_elem_of_fmap. by exists b. }
  destruct (x_bindings ex) as [|b0 bs0].
  { intros [= <- <- <-]. split_and!; try done; [apply NoDup_nil_2 | set_solver | set_solver]. }
  set (bs := b0 :: bs0) in *.
  destruct (st_malloc st) as [ok st1] eqn:Em. destruct (st_malloc_ok _ _ _ _ _ Hst Em) as (Hst1 & Hq1 & Hl1 & Ho1).
  assert (Hsame : same_queues st st1) by (intros x; by rewrite Hq1).
  destruct ok.
  - destruct (route_loop ex (default [] rk) bs [] st1) as [ts1 st2] eqn:Er. intros [= <- <- <-].
    eapply (route_loop_spec ex _ bs [] st1 R F) in Er as (A1 & A2 & _ & A3 & A4 & A5 & Hin & Hall);
      [|done | done | apply NoDup_nil_2].
    split_and!; [done | done | intros x; by rewrite A3 | congruence | | done | |].
    + intros Hs. destruct (Ho1 Hs). auto.
    + intros q Hq. destruct (Hin q Hq); [set_solver | done].
    + intros Hs. destruct (Ho1 Hs). by apply Hall.
  - intros [= <- <- <-]. split_and!; try done; [apply NoDup_nil_2 | | set_solver |].
    + intros Hs. by destruct (Ho1 Hs).
    + intros Hs. by destruct (Ho1 Hs).
Qed.

(** Binding: the array has the pair afterwards, or memory ran out. *)
Lemma bind_spec ex rk q st R F rc ex' st' :
  store_ok st R F -> q ∈ R -> exchange_bind ex rk q st = (rc, ex', st') ->
  let b := Binding (default [] rk) q in
  s_limits (st_sys st') = s_limits (st_sys st) /\ (ample (st_sys st) -> ample (st_sys st')) /\ same_queues st st' /\
  (x_name ex', x_vhost ex', x_type ex', x_flags ex') = (x_name ex, x_vhost ex, x_type ex, x_flags ex) /\
  (rc = 0 /\ b ∈ x_bindings ex /\ ex' = ex /\ st' = st \/
   rc = 0 /\ (b ∉ x_bindings ex) /\ x_bindings ex' = x_bindings ex ++ [b] /\ store_ok st' (q :: R) F \/
   rc = -1 /\ ~ ample (st_sys st) /\ x_bindings ex' = x_bindings ex /\ store_ok st' R F).
Proof.
  intros Hst Hq. unfold exchange_bind. case_bool_decide as Hin.
  { intros [= <- <- <-]. split_and!; try done. by left. }
  assert (Hg : forall ok ex1 st1, grow_bindings ex st = (ok, ex1, st1) ->
    store_ok st1 R F /\ st_queues st1 = st_queues st /\ s_limits (st_sys st1) = s_limits (st_sys st) /\
    (ample (st_sys st) -> ok = true /\ ample (st_sys st1)) /\ ex1 = ex <| x_cap_bindings := x_cap_bindings ex1 |>).
  { assert (He : ex = ex <| x_cap_bindings := x_cap_bindings ex |>) by (by destruct ex).
    unfold grow_bindings. intros ok ex1 st1. destruct (_ =? _)%nat.
    - destruct (st_malloc st) as [ok1 st2] eqn:Em. destruct (st_malloc_ok _ _ _ _ _ Hst Em) as (? & ? & ? & ?).
      intros [= <- <- <-]. split_and!; try done. by destruct ok1.
    - intros [= <- <- <-]. by split_and!. }
  destruct (grow_bindings ex st) as [[ok ex1] st1] eqn:Eg. destruct (Hg _ _ _ eq_refl) as (Hst1 & Hq1 & Hl1 & Ho1 & He1).
  destruct ok.
  2:{ intros [= <- <- <-]. rewrite He1. split_and!; try done; [naive_solver | intros x; by rewrite Hq1|].
      right; right. split_and!; try done. naive_solver. }
  destruct (st_malloc st1) as [ok2 st2] eqn:Em. destruct (st_malloc_ok _ _ _ _ _ Hst1 Em) as (Hst2 & Hq2 & Hl2 & Ho2).
  destruct ok2; intros [= <- <- <-].
  - destruct (qp_ref_ok st2 q R F Hst2 Hq) as (Hst3 & Hs3 & _ & Hsame). rewrite Hs3, He1.
    split_and!; [congruence | naive_solver | | done |].
    + intros x. by rewrite Hsame, Hq2, Hq1.
    + right; left. by split_and!.
  - rewrite He1. split_and!; [congruence | naive_solver | intros x; by rewrite Hq2, Hq1 | done |].
    right; right. split_and!; try done. naive_solver.
Qed.

(** Dropping a list of references to queues. *)
Lemma unref_list_ok ps : forall st R F,
  store_ok st (ps ++ R) F ->
  store_ok (foldl (fun st p => qp_unref p st) st ps) R F /\
  s_limits (st_sys (foldl (fun st p => qp_unref p st) st ps)) = s_limits (st_sys st) /\
  (ample (st_sys st) -> ample (st_sys (foldl (fun st p => qp_unref p st) st ps))).
Proof.
  induction ps as [|p ps IH]; intros st R F Hst; simpl; [done|].
  destruct (qp_unref_ok st p (ps ++ R) F Hst) as (H1 & H2 & H3 & _).
  destruct (IH _ R F H1) as (H4 & H5 & H6). split_and!; [done | congruence | auto].
Qed.

Lemma exchange_free_ok ex st R F :
  store_ok st (binding_refs ex ++ R) F ->
  store_ok (exchange_free (Some ex) st) R F /\
  s_limits (st_sys (exchange_free (Some ex) st)) = s_limits (st_sys st) /\
  (ample (st_sys st) -> ample (st_sys (exchange_free (Some ex) st))).
Proof.
  intros Hst. unfold exchange_free.
  replace (foldl _ st (x_bindings ex)) with (foldl (fun st p => qp_unref p st) st (binding_refs ex))
    by apply foldl_fmap. by apply unref_list_ok.
Qed.

(** Unbinding: what is left is the bindings to other queues, and the references of
    the removed ones are dropped. *)
Lemma unbind_loop_spec fuel : forall i q bs st n n' bs' st' R F,
  store_ok st ((bd_queue <$> bs) ++ R) F -> (length bs <= fuel + i)%nat ->
  Forall (fun b => bd_queue b <> q) (take i bs) ->
  unbind_loop fuel i q bs st n = (n', bs', st') ->
  store_ok st' ((bd_queue <$> bs') ++ R) F /\ bs' ≡ₚ filter (fun b => bd_queue b <> q) bs /\
  (n' + length bs' = n + length bs)%nat /\ (q ∈ R -> same_queues st st') /\
  s_limits (st_sys st') = s_limits (st_sys st) /\ (ample (st_sys st) -> ample (st_sys st')).
Proof.
  induction fuel as [|fuel IH]; intros i q bs st n n' bs' st' R F Hst Hlen Hpre; cbn [unbind_loop].
  { intros [= <- <- <-]. rewrite take_ge in Hpre by lia. split_and!; try done. by rewrite list_filter_all. }
  destruct (bs !! i) as [b|] eqn:Hi.
  2:{ apply lookup_ge_None in Hi. intros [= <- <- <-]. rewrite take_ge in Hpre by lia.
      split_and!; try done. by rewrite list_filter_all. }
  pose proof (lookup_lt_Some _ _ _ Hi) as Hlt. case_bool_decide as Hb.
  - pose proof (swap_remove_perm bs i b Hi) as Hp. pose proof (take_swap_remove bs i Hlt) as Ht.
    set (sr := swap_remove i bs) in *. clearbody sr. rewrite <- Hp in Hst.
    pose proof (Permutation_length Hp) as Hlen'. simpl in Hst, Hlen'.
    destruct (qp_unref_ok st (bd_queue b) ((bd_queue <$> sr) ++ R) F Hst) as (Hst1 & Hl1 & Ho1 & _).
    intros Hr. eapply (IH _ _ _ _ _ _ _ _ R F) in Hr as (A1 & A2 & A3 & A4 & A5 & A6); [|done | lia | by rewrite Ht].
    split_and!; [done | | lia | | congruence | auto].
    2:{ intros Hq x. rewrite (A4 Hq). eapply (unref_same_queues st); [done | set_solver]. }
    rewrite A2, <- Hp, filter_cons, decide_False; [done|]. by intros Hc; apply Hc.
  - intros Hr. eapply (IH _ _ _ _ _ _ _ _ R F) in Hr as (A1 & A2 & A3 & A4 & A5 & A6); [by split_and! | done | lia |].
    rewrite (take_S_r _ _ _ Hi). apply Forall_app. by split; [|constructor].
Qed.

Lemma unbind_spec ex q st n ex' st' R F :
  store_ok st (binding_refs ex ++ R) F -> exchange_unbind_queue ex q st = (n, ex', st') ->
  store_ok st' (binding_refs ex' ++ R) F /\ x_bindings ex' ≡ₚ filter (fun b => bd_queue b <> q) (x_bindings ex) /\
  (n + length (x_bindings ex') = length (x_bindings ex))%nat /\ (q ∈ R -> same_queues st st') /\
  (x_name ex', x_vhost ex', x_type ex', x_flags ex') = (x_name ex, x_vhost ex, x_type ex, x_flags ex) /\
  s_limits (st_sys st') = s_limits (st_sys st) /\ (ample (st_sys st) -> ample (st_sys st')).
Proof.
  intros Hst. unfold exchange_unbind_queue. destruct (unbind_loop _ _ _ _ _ _) as [[n1 bs] st1] eqn:E.
  intros [= <- <- <-]. eapply (unbind_loop_spec _ _ _ _ _ _ _ _ _ R F) in E as (H1 & H2 & H3 & H4 & H5 & H6);
    [|done | lia | constructor]. by split_and!.
Qed.

(** * Properties *)

(** C10: topic matching is right.  For any pattern words and key words without dots,
    the matcher on the dotted strings never claims a match that is not one, and,
    when no allocation fails, finds every match, where '#' stands for zero or
    more words and '*' for exactly one.  The memo table never changes the answer. *)
Theorem topic_match_correct ps ws sy :
  ps <> [] -> ws <> [] -> Forall (fun w => DOT ∉ w) ps -> Forall (fun w => DOT ∉ w) ws ->
  let r := fst (exchange_topic_match (join_words ps) (join_words ws) sy) in
  (r = true -> topic_match ps ws) /\ (ample sy -> topic_match ps ws -> r = true).
Proof.
  intros Hps Hws Hp Hw. destruct (exchange_topic_match (join_words ps) (join_words ws) sy) as [r sy'] eqn:E.
  apply topic_match_spec in E as (H1 & H2 & _). rewrite !cut_join in H1, H2 by done. by split.
Qed.

Lemma topic_match_correct_witness :
  let ps := [cstr "#"; cstr "news"; cstr "*"] in let ws := [cstr "eu"; cstr "news"; cstr "tech"] in
  fst (exchange_topic_match (join_words ps) (join_words ws) (st_sys empty_store)) = true /\ topic_match ps ws.
Proof.
  split; [vm_compute; reflexivity|].
  apply (topic_match_correct [cstr "#"; cstr "news"; cstr "*"] [cstr "eu"; cstr "news"; cstr "tech"] (st_sys empty_store));
    [discriminate | discriminate | | | vm_compute; reflexivity];
    apply (bool_decide_unpack _); vm_compute; exact I.
Defined.

(** C25: routing selects the right queues.  The targets of a message are distinct
    queues, each with a binding that matches the routing key, and when no
    allocation fails every queue with such a binding is among them; each target
    holds one new reference, so it outlives the registry lock, and the contents of
    the queues are untouched. *)
Theorem exchange_route_correct ex rk st R F ts oom st' :
  store_ok st R F -> (forall q, q ∈ binding_refs ex -> q ∈ R) -> exchange_route ex rk st = (ts, oom, st') ->
  NoDup ts /\ (forall q, q ∈ ts -> exists b, b ∈ x_bindings ex /\ bd_queue b = q /\ matches ex b (default [] rk)) /\
  (ample (st_sys st) -> oom = false /\
     forall b, b ∈ x_bindings ex -> matches ex b (default [] rk) -> bd_queue b ∈ ts) /\
  (oom = true -> ts = []) /\ store_ok st' (ts ++ R) F /\ same_queues st st'.
Proof.
  intros Hst Hbs Hr. apply (route_spec _ _ _ R F) in Hr as (H1 & H2 & H3 & _ & H4 & H5 & H6 & H7); [|done..].
  split_and!; try done. intros Hs. destruct (H4 Hs). auto.
Qed.

Definition demo_exchange : exchange :=
  Exchange (cstr "logs") None EXCHANGE_TOPIC 0
    [Binding (cstr "a.*") 1; Binding (cstr "#") 2; Binding (cstr "a.b") 1] 4.

Lemma exchange_route_correct_witness :
  let '(ts, oom, st') := exchange_route demo_exchange (Some (cstr "a.b")) (snd (demo_store 2)) in
  ts = [1; 2]%positive /\ store_ok st' (ts ++ fst (demo_store 2)) [].
Proof.
  destruct (exchange_route demo_exchange (Some (cstr "a.b")) (snd (demo_store 2))) as [[ts oom] st'] eqn:E.
  assert (Hts : (exchange_route demo_exchange (Some (cstr "a.b")) (snd (demo_store 2))).1.1 = [1; 2]%positive)
    by (vm_compute; reflexivity).
  rewrite E in Hts. split; [exact Hts|].
  apply (exchange_route_correct demo_exchange (Some (cstr "a.b")) (snd (demo_store 2)) (fst (demo_store 2)) [] ts oom st').
  - apply demo_store_ok.
  - intros q Hq. apply (bool_decide_unpack _). revert q Hq. apply Forall_forall.
    apply (bool_decide_unpack _). vm_compute. exact I.
  - exact E.
Defined.

(** C26: bindings are added once and removed completely.  Binding succeeds unless
    memory runs out; it leaves an existing pair alone, and otherwise appends the
    pair and takes one reference to the queue.  Unbinding a queue removes every
    binding to it and no other, drops exactly the references those bindings held,
    and returns their number. *)
Theorem bind_then_unbind ex rk q st R F rc ex1 st1 n ex2 st2 :
  store_ok st (binding_refs ex ++ R) F -> q ∈ R ->
  exchange_bind ex rk q st = (rc, ex1, st1) -> exchange_unbind_queue ex1 q st1 = (n, ex2, st2) ->
  (ample (st_sys st) -> rc = 0) /\
  (rc = 0 -> Binding (default [] rk) q ∈ x_bindings ex1 /\ (0 < n)%nat) /\
  (forall b, b ∈ x_bindings ex1 <-> b ∈ x_bindings ex \/ rc = 0 /\ b = Binding (default [] rk) q) /\
  store_ok st1 (binding_refs ex1 ++ R) F /\
  x_bindings ex2 ≡ₚ filter (fun b => bd_queue b <> q) (x_bindings ex) /\
  (n + length (x_bindings ex2) = length (x_bindings ex1))%nat /\ store_ok st2 (binding_refs ex2 ++ R) F.
Proof.
  intros Hst Hq Hb Hu. apply (bind_spec _ _ _ _ (binding_refs ex ++ R) F) in Hb as (_ & _ & _ & _ & Hcase); [|done | set_solver].
  assert (Hb1 : store_ok st1 (binding_refs ex1 ++ R) F /\ (ample (st_sys st) -> rc = 0) /\
    (rc = 0 -> Binding (default [] rk) q ∈ x_bindings ex1) /\
    (forall b, b ∈ x_bindings ex1 <-> b ∈ x_bindings ex \/ rc = 0 /\ b = Binding (default [] rk) q) /\
    filter (fun b => bd_queue b <> q) (x_bindings ex1) = filter (fun b => bd_queue b <> q) (x_bindings ex)).
  { destruct Hcase as [(-> & Hin & -> & ->)|[(-> & Hni & He & Hs)|(-> & Hn & He & Hs)]].
    - split_and!; try done. naive_solver.
    - unfold binding_refs in *. rewrite He. split_and!; try done.
      + rewrite fmap_app, <- app_assoc. simpl. by rewrite <- Permutation_middle.
      + set_solver.
      + set_solver.
      + rewrite filter_app, filter_cons, decide_False by (intros Hc; by apply Hc). by rewrite app_nil_r.
    - unfold binding_refs in *. rewrite He. split_and!; try done. naive_solver. }
  destruct Hb1 as (Hst1 & Hrc & Hin & Hiff & Hfil).
  apply (unbind_spec _ _ _ _ _ _ R F) in Hu as (H1 & H2 & H3 & _); [|done]. rewrite Hfil in H2.
  split_and!; try done. intros H0. split; [auto|]. specialize (Hin H0).
  destruct n; [|lia]. exfalso. assert (Hlen : length (x_bindings ex2) = length (x_bindings ex1)) by lia.
  rewrite H2, <- Hfil in Hlen. apply elem_of_Permutation in Hin as [k Hk]. rewrite Hk, filter_cons, decide_False in Hlen
    by (intros Hc; by apply Hc). pose proof (length_filter (fun b => bd_queue b <> q) k). simpl in Hlen. lia.
Qed.

Lemma bind_then_unbind_witness :
  let st := qp_ref 1 (qp_ref 2 (qp_ref 1 (snd (demo_store 2)))) in
  let '(rc, ex1, st1) := exchange_bind demo_exchange (Some (cstr "x")) 1 st in
  let '(n, ex2, st2) := exchange_unbind_queue ex1 1 st1 in
  n = 3%nat /\ store_ok st2 (binding_refs ex2 ++ fst (demo_store 2)) [].
Proof.
  intros st. pose proof (demo_store_ok 2) as H0. set (st0 := snd (demo_store 2)) in *. set (R := fst (demo_store 2)) in *.
  destruct (qp_ref_ok st0 1 R [] H0) as [H1 _]; [vm_compute; set_solver|].
  destruct (qp_ref_ok _ 2 _ _ H1) as [H2 _]; [vm_compute; set_solver|].
  destruct (qp_ref_ok _ 1 _ _ H2) as [H3 _]; [vm_compute; set_solver|].
  fold st in H3.
  assert (Hn : (exchange_unbind_queue (exchange_bind demo_exchange (Some (cstr "x")) 1 st).1.2 1
                  (exchange_bind demo_exchange (Some (cstr "x")) 1 st).2).1.1 = 3%nat) by (vm_compute; reflexivity).
  destruct (exchange_bind demo_exchange (Some (cstr "x")) 1 st) as [[rc ex1] st1] eqn:Eb. simpl in Hn.
  destruct (exchange_unbind_queue ex1 1 st1) as [[n ex2] st2] eqn:Eu. simpl in Hn. split; [exact Hn|].
  apply (bind_then_unbind demo_exchange (Some (cstr "x")) 1 st R [] rc ex1 st1 n ex2 st2); [exact H3 | vm_compute; set_solver | exact Eb | exact Eu].
Defined.
