(* ===== verification/Broker.v ===== *)
(** The broker: src/src/broker.c, src/include/broker.h.

    [world] is the broker with the objects it owns: the registries of queues and
    exchanges (any [PtrMap]), the exchanges by address, the store of the queues,
    the counters, and the log of the wakeups sent to the waiters of the queues.

    The dead-letter callback of a queue is [broker_dead_letter_cb], so
    [broker_route], [queue_enqueue] and the callback are mutually recursive in
    the source; here the depth of the nested routes is bounded by [fuel], and
    [None] means that the fuel ran out (BrokerSpec.v shows how much is enough). *)

From S2P Require Import Prelude HashMap Message Queue Store Exchange.

(** * State *)

Section Broker.
Context {M : Type} `{!PtrMap M}.

Record world := World {
  w_store : store;
  w_queues : M;
  w_exchanges : M;
  w_xobjs : gmap positive exchange;
  w_xnext : positive;
  w_next_msg_id : Z;
  w_messages_published : Z;
  w_wakeups : list (waiter * positive)
}.

#[global] Instance world_settable : Settable world := fun w =>
  World (w_store w) (w_queues w) (w_exchanges w) (w_xobjs w) (w_xnext w) (w_next_msg_id w)
    (w_messages_published w) (w_wakeups w).

Definition w_sys (w : world) : sys := st_sys (w_store w).

Definition w_malloc (w : world) : bool * world :=
  let '(ok, st) := st_malloc (w_store w) in (ok, w <| w_store := st |>).

(** Working on the heap of the messages. *)
Definition w_heap (f : heap -> heap) (w : world) : world :=
  w <| w_store ::= fun st => st <| st_sys ::= fun s => s <| s_heap ::= f |> |> |>.

(** The registries allocate from the same memory. *)
Definition reg_put (m : M) (k : bytes) (v : positive) (st : store) : bool * option positive * M * store :=
  let '(ok, old, m, o) := pm_put m k v (h_oracle (s_heap (st_sys st))) in
  (ok, old, m, st <| st_sys ::= fun s => s <| s_heap ::= fun h => h <| h_oracle := o |> |> |>).

(** The key [vhost \x01 name], formatted into 512 bytes. *)
Definition broker_vkey (vhost name : option bytes) : bytes :=
  snprintf_s 512 (default [] vhost ++ 1 :: default [] name).

(** * Lifecycle *)

(** The draws are the struct, the lock and the two maps. *)
Definition broker_new (st : store) : option world * store :=
  let '(ok, st) := st_malloc st in
  if ok then
    let '(ok, st) := st_malloc st in
    if ok then
      let '(qs, o) := pm_new (h_oracle (s_heap (st_sys st))) in
      let '(xs, o) := pm_new o in
      let st := st <| st_sys ::= fun s => s <| s_heap ::= fun h => h <| h_oracle := o |> |> |> in
      match qs, xs with
      | Some qs, Some xs => (Some (World st qs xs ∅ 1 1 0 []), st)
      | _, _ => (None, st)
      end
    else (None, st)
  else (None, st).

Definition free_exchange_value (w : world) (p : positive) : world :=
  w <| w_store ::= exchange_free (w_xobjs w !! p) |> <| w_xobjs ::= delete p |>.

Definition free_queue_value (w : world) (p : positive) : world := w <| w_store ::= qp_unref p |>.

(** [broker_free]: the exchanges go first. *)
Definition broker_free (w : world) : world :=
  let w := foldl (fun w kv => free_exchange_value w kv.2) w (pm_elems (w_exchanges w)) in
  foldl (fun w kv => free_queue_value w kv.2) w (pm_elems (w_queues w)).

(** * Declaring *)

(** Returns (rc, depth, created). *)
Definition broker_declare_queue (vhost name : bytes) (flags : Z) (w : world) : Z * Z * bool * world :=
  let key := broker_vkey (Some vhost) (Some name) in
  match pm_get (w_queues w) key with
  | None =>
      let '(q, st) := qp_new (Some name) flags (w_store w) in
      match q with
      | None => (-1, 0, false, w <| w_store := st |>)
      | Some q =>
          let '(_, st) := on_queue tt q (fun q s => let '(q, s) := queue_set_vhost (Some vhost) q s in (tt, q, s)) st in
          let '(ok, _, m, st) := reg_put (w_queues w) key q st in
          if ok then
            (0, u32 (Z.of_nat (at_queue 0%nat q queue_depth st)), true,
             w <| w_store := st |> <| w_queues := m |>)
          else (-1, 0, false, w <| w_store := qp_unref q st |> <| w_queues := m |>)
      end
  | Some q =>
      if at_queue 0 q queue_flags (w_store w) =? flags then
        (0, u32 (Z.of_nat (at_queue 0%nat q queue_depth (w_store w))), false, w)
      else (-2, 0, false, w)
  end.

(** Returns (rc, created). *)
Definition broker_declare_exchange (vhost name : bytes) (type : exchange_type_t) (flags : Z) (w : world)
    : Z * bool * world :=
  let key := broker_vkey (Some vhost) (Some name) in
  match pm_get (w_exchanges w) key with
  | None =>
      let '(ex, st) := exchange_new (Some name) type flags (w_store w) in
      match ex with
      | None => (-1, false, w <| w_store := st |>)
      | Some ex =>
          let '(ex, st) := exchange_set_vhost ex (Some vhost) st in
          let p := w_xnext w in
          let '(ok, _, m, st) := reg_put (w_exchanges w) key p st in
          if ok then
            (0, true, w <| w_store := st |> <| w_exchanges := m |> <| w_xobjs ::= <[p := ex]> |>
                        <| w_xnext ::= Pos.succ |>)
          else (-1, false, w <| w_store := exchange_free (Some ex) st |> <| w_exchanges := m |>)
      end
  | Some p =>
      match w_xobjs w !! p with
      | Some ex =>
          if bool_decide (x_type ex = type) && (x_flags ex =? flags) then (0, false, w) else (-2, false, w)
      | None => (0, false, w <| w_store ::= dangling |>)
      end
  end.

Definition broker_declare_default_exchanges (vhost : bytes) (w : world) : world :=
  let w := snd (broker_declare_exchange vhost (cstr "amq.direct") EXCHANGE_DIRECT 0 w) in
  let w := snd (broker_declare_exchange vhost (cstr "amq.fanout") EXCHANGE_FANOUT 0 w) in
  snd (broker_declare_exchange vhost (cstr "amq.topic") EXCHANGE_TOPIC 0 w).

(** * Binding and deleting *)

Definition broker_bind (vhost queue exchange : bytes) (routing_key : option bytes) (w : world) : Z * world :=
  let qkey := broker_vkey (Some vhost) (Some queue) in
  let ekey := broker_vkey (Some vhost) (Some exchange) in
  match pm_get (w_exchanges w) ekey, pm_get (w_queues w) qkey with
  | Some e, Some q =>
      match w_xobjs w !! e with
      | Some ex =>
          let '(rc, ex, st) := exchange_bind ex routing_key q (w_store w) in
          (rc, w <| w_store := st |> <| w_xobjs ::= <[e := ex]> |>)
      | None => (-1, w <| w_store ::= dangling |>)
      end
  | _, _ => (-1, w)
  end.

(** [unbind_queue_cb] on the exchange at [e]. *)
Definition unbind_queue_cb (q : positive) (w : world) (e : positive) : world :=
  match w_xobjs w !! e with
  | Some ex =>
      let '(_, ex, st) := exchange_unbind_queue ex q (w_store w) in
      w <| w_store := st |> <| w_xobjs ::= <[e := ex]> |>
  | None => w <| w_store ::= dangling |>
  end.

(** Returns (rc, the depth at deletion). *)
Definition broker_delete_queue (vhost name : bytes) (if_unused if_empty : bool) (w : world) : Z * Z * world :=
  let key := broker_vkey (Some vhost) (Some name) in
  match pm_get (w_queues w) key with
  | None => (-1, 0, w)
  | Some q =>
      if if_unused && (0 <? at_queue 0 q queue_consumer_count (w_store w)) then (-2, 0, w)
      else
        let depth := u32 (Z.of_nat (at_queue 0%nat q queue_depth (w_store w))) in
        if if_empty && (0 <? depth) then (-3, 0, w)
        else
          let w := foldl (fun w kv => unbind_queue_cb q w kv.2) w (pm_elems (w_exchanges w)) in
          let '(_, m) := pm_remove (w_queues w) key in
          (0, depth, w <| w_queues := m |> <| w_store ::= qp_unref q |>)
  end.

(** * Routing *)

Definition ROUTE_UNROUTABLE : Z := 0.
Definition ROUTE_RESOURCE_ERROR : Z := -1.
Definition BROKER_DL_MAX_HOPS : Z := 8.

(** Phase 1: the targets, each with a reference of its own, and whether the array
    could not be allocated. *)
Definition route_targets (vhost : bytes) (msg : message) (w : world) : list positive * bool * world :=
  match m_exchange msg with
  | [] =>
      match pm_get (w_queues w) (broker_vkey (Some vhost) (Some (m_routing_key msg))) with
      | Some q =>
          let '(ok, w) := w_malloc w in
          if ok then ([q], false, w <| w_store ::= qp_ref q |>) else ([], true, w)
      | None => ([], false, w)
      end
  | exchange =>
      match pm_get (w_exchanges w) (broker_vkey (Some vhost) (Some exchange)) with
      | Some e =>
          match w_xobjs w !! e with
          | Some ex =>
              let '(ts, oom, st) := exchange_route ex (Some (m_routing_key msg)) (w_store w) in
              (ts, oom, w <| w_store := st |>)
          | None => ([], false, w <| w_store ::= dangling |>)
          end
      | None => ([], false, w)
      end
  end.

Section Route.
(** [broker_route] at the next depth. *)
Context (route : bytes -> message -> world -> option (Z * world)).

(** [broker_dead_letter_cb]: a copy with one more hop goes to the dead-letter
    exchange of [src]. *)
Definition broker_dead_letter_cb (src : positive) (msg : message) (w : world) : option world :=
  match st_queues (w_store w) !! src with
  | None => Some (w <| w_store ::= dangling |>)
  | Some q =>
      if BROKER_DL_MAX_HOPS <=? m_dl_hops msg then Some w
      else
        match queue_dl_exchange q with
        | [] => Some w
        | dlx =>
            let rkey := match queue_dl_routing_key q with [] => m_routing_key msg | k => k end in
            let '(dm, h) := message_new_full (Some dlx) (Some rkey) (m_body msg) (Some (m_props msg)) (s_heap (w_sys w)) in
            let w := w_heap (fun _ => h) w in
            match dm with
            | None => Some w
            | Some dm =>
                let dm := dm <| m_dl_hops := u8 (m_dl_hops msg + 1) |> in
                match route (queue_vhost q) dm w with
                | None => None
                | Some (_, w) =>
                    Some (w_heap (message_unref (Some dm)) w)
                end
            end
        end
  end.

(** [queue_dead_letter], then the release of the queue's reference. *)
Definition dead_letter_one (src : positive) (msg : message) (w : world) : option world :=
  match (if at_queue false src queue_has_dead_letter (w_store w) then broker_dead_letter_cb src msg w else Some w) with
  | None => None
  | Some w => Some (w_heap (message_unref (Some msg)) w)
  end.

Fixpoint dead_letter_all (src : positive) (dl : list message) (w : world) : option world :=
  match dl with
  | [] => Some w
  | m :: dl => match dead_letter_one src m w with Some w => dead_letter_all src dl w | None => None end
  end.

(** The whole of [queue_enqueue]: the locked part, then the dead letters. *)
Definition queue_enqueue (p : positive) (msg : message) (w : world) : option (Z * world) :=
  let '((rc, dl), st) :=
    on_queue (-1, []) p (fun q s => let '(rc, q, dl, s) := queue_enqueue_locked q msg s in ((rc, dl), q, s)) (w_store w) in
  match dead_letter_all p dl (w <| w_store := st |>) with
  | Some w => Some (rc, w)
  | None => None
  end.

(** Phase 2: enqueue into each target, wake its waiters, drop its reference. *)
Fixpoint deliver_all (ts : list positive) (msg : message) (routed : nat) (failed : bool) (w : world)
    : option (nat * bool * world) :=
  match ts with
  | [] => Some (routed, failed, w)
  | p :: ts =>
      match queue_enqueue p msg w with
      | None => None
      | Some (rc, w) =>
          if rc =? 0 then
            let wk := at_queue [] p queue_wake_waiters (w_store w) in
            let w := w <| w_wakeups ::= fun l => l ++ ((fun x => (x, p)) <$> wk) |> in
            deliver_all ts msg (S routed) failed (w <| w_store ::= qp_unref p |>)
          else deliver_all ts msg routed true (w <| w_store ::= qp_unref p |>)
      end
  end.
End Route.

Fixpoint broker_route (fuel : nat) (vhost : bytes) (msg : message) (w : world) : option (Z * world) :=
  match fuel with
  | O => None
  | S fuel =>
      let msg := msg <| m_id := w_next_msg_id w |> in
      let w := w <| w_next_msg_id ::= fun n => u64 (n + 1) |> in
      let '(ts, oom, w) := route_targets vhost msg w in
      if oom then Some (ROUTE_RESOURCE_ERROR, w)
      else
        match deliver_all (broker_route fuel) ts msg 0 false w with
        | None => None
        | Some (routed, failed, w) =>
            let w := if (0 <? routed)%nat then w <| w_messages_published ::= fun n => u64 (n + 1) |> else w in
            if (routed =? 0)%nat && failed then Some (ROUTE_RESOURCE_ERROR, w)
            else Some (Z.of_nat routed, w)
        end
  end.

Definition broker_set_queue_dead_letter (q : positive) (dlx dl_rkey : option bytes) (w : world) : world :=
  let '(_, st) :=
    on_queue tt q (fun q s => let '(q, s) := queue_set_dead_letter dlx dl_rkey true q s in (tt, q, s)) (w_store w) in
  w <| w_store := st |>.

Definition broker_publish (fuel : nat) (vhost : bytes) (exchange routing_key : option bytes) (body : bytes)
    (w : world) : option (Z * world) :=
  let '(msg, h) := message_new (Some (default [] exchange)) (Some (default [] routing_key)) body (s_heap (w_sys w)) in
  let w := w_heap (fun _ => h) w in
  match msg with
  | None => Some (-1, w)
  | Some msg =>
      match broker_route fuel vhost msg w with
      | None => None
      | Some (routed, w) =>
          Some (routed, w_heap (message_unref (Some msg)) w)
      end
  end.

(** * Lookups and statistics *)

Definition broker_get_queue (vhost name : bytes) (w : world) : option positive * world :=
  match pm_get (w_queues w) (broker_vkey (Some vhost) (Some name)) with
  | Some q => (Some q, w <| w_store ::= qp_ref q |>)
  | None => (None, w)
  end.

Definition broker_exchange_exists (vhost name : bytes) (w : world) : bool :=
  match pm_get (w_exchanges w) (broker_vkey (Some vhost) (Some name)) with Some _ => true | None => false end.

Record broker_stats_t := BrokerStats {
  queue_count : nat; exchange_count : nat; messages_ready : Z; total_enqueued : Z; total_dequeued : Z;
  messages_published : Z
}.

(** [sum_queue_cb] over the registry. *)
Definition sum_queue_cb (st : store) (a : Z * Z * Z) (kv : bytes * positive) : Z * Z * Z :=
  let '(ready, enq, deq) := a in
  (u64 (ready + Z.of_nat (at_queue 0%nat kv.2 queue_depth st)),
   u64 (enq + at_queue 0 kv.2 queue_total_enqueued st),
   u64 (deq + at_queue 0 kv.2 queue_total_dequeued st)).

Definition broker_stats (w : world) : broker_stats_t :=
  let '(ready, enq, deq) := foldl (sum_queue_cb (w_store w)) (0, 0, 0) (pm_elems (w_queues w)) in
  BrokerStats (pm_count (w_queues w)) (pm_count (w_exchanges w)) ready enq deq (w_messages_published w).

(** The visitors stop when the callback returns true. *)
Fixpoint visit {A S} (fn : A -> S -> bool * S) (l : list A) (ctx : S) : S :=
  match l with
  | [] => ctx
  | x :: l => let '(stop, ctx) := fn x ctx in if stop then ctx else visit fn l ctx
  end.

Definition broker_foreach_queue {S} (fn : positive -> S -> bool * S) (ctx : S) (w : world) : S :=
  visit (fun kv => fn kv.2) (pm_elems (w_queues w)) ctx.

Definition broker_foreach_exchange {S} (fn : positive -> S -> bool * S) (ctx : S) (w : world) : S :=
  visit (fun kv => fn kv.2) (pm_elems (w_exchanges w)) ctx.

Definition min_live_cb (st : store) (q : positive) (m : Z) : bool * Z :=
  let v := at_queue UINT64_MAX q queue_oldest_live_cluster_id st in
  (false, if v <? m then v else m).

Definition broker_min_live_cluster_id (w : world) : Z :=
  broker_foreach_queue (min_live_cb (w_store w)) UINT64_MAX w.

End Broker.
#[global] Arguments world : clear implicits.
