(* ===== verification/BrokerRoute.v ===== *)
(** Routing terminates and accounts for every reference (Broker.v).

    A route can evict messages from drop-head queues; each evicted message is
    routed again as a dead letter with one more hop, which can evict others.  The
    recursion is bounded by a potential: with [N] queues a stored message of
    [h] hops weighs [(N + 1) ^ (8 - h)], so an evicted message weighs more than
    all the copies its dead letter can store. *)

From S2P Require Import Prelude HashMap Message Queue Store Exchange Broker.

(** * Weights *)

Definition wt (N : nat) (m : message) : nat := (S N ^ (8 - Z.to_nat (m_dl_hops m)))%nat.
Definition weight (N : nat) (l : list message) : nat := sum_list_with (wt N) l.

Lemma wt_pos N m : (1 <= wt N m)%nat.
Proof. unfold wt. apply Nat.neq_0_lt_0, Nat.pow_nonzero. lia. Qed.

(** A dead letter of [m] weighs less than its share. *)
Lemma wt_copy N m dm :
  0 <= m_dl_hops m < BROKER_DL_MAX_HOPS -> m_dl_hops dm = u8 (m_dl_hops m + 1) ->
  (wt N m = S N * wt N dm)%nat.
Proof.
  unfold BROKER_DL_MAX_HOPS. intros Hm Hd. unfold wt. rewrite Hd, u8_small by lia.
  replace (8 - Z.to_nat (m_dl_hops m))%nat with (S (8 - Z.to_nat (m_dl_hops m + 1))) by lia.
  by rewrite Nat.pow_succ_r'.
Qed.

Lemma weight_app N l1 l2 : weight N (l1 ++ l2) = (weight N l1 + weight N l2)%nat.
Proof. apply sum_list_with_app. Qed.

#[global] Instance weight_proper N : Proper ((≡ₚ) ==> (=)) (weight N).
Proof. apply (sum_list_with_Permutation_proper (wt N)). Qed.

Lemma weight_prefix N l1 l2 : l1 `prefix_of` l2 -> (weight N l1 <= weight N l2)%nat.
Proof. intros [k ->]. rewrite weight_app. lia. Qed.

(** An enqueue stores and hands back no more than it was given. *)
Lemma enqueued_weight N p mem msg l rc l' dl :
  enqueued p mem msg l rc l' dl -> (weight N l' + weight N dl <= weight N l + wt N msg)%nat.
Proof.
  destruct 1 as [? ?|? ?|?|dropped dl ? ? Hl Hpre ? ?]; rewrite ?weight_app; unfold weight in *; simpl; try lia.
  fold (weight N) in *. pose proof (weight_prefix N _ _ Hpre).
  assert (Hw : weight N l = (weight N dropped + weight N (p_keep p msg l))%nat) by (rewrite <- weight_app; by f_equal).
  unfold weight in *. lia.
Qed.

(** The messages an enqueue leaves or hands back are old ones or the new one. *)
Lemma enqueued_elem p mem msg l rc l' dl x :
  enqueued p mem msg l rc l' dl -> x ∈ l' ++ dl -> x ∈ l \/ x = msg.
Proof.
  destruct 1 as [? ?|? ?|?|dropped dl ? ? Hl Hpre ? ?]; intros Hx; try set_solver.
  destruct Hpre as [k ->]. rewrite Hl. set_solver.
Qed.

(** * Stores *)

(** How many queues the references [R] name. *)
Definition nq (R : list positive) : nat := size (list_to_set R : gset positive).

Lemma nq_app ts R : (forall p, p ∈ ts -> p ∈ R) -> nq (ts ++ R) = nq R.
Proof. intros Hts. unfold nq. f_equal. set_solver. Qed.

Lemma nq_targets ts R : NoDup ts -> (forall p, p ∈ ts -> p ∈ R) -> (length ts <= nq R)%nat.
Proof.
  intros Hnd Hts. rewrite <- (size_list_to_set (C := gset positive) ts Hnd). unfold nq.
  apply subseteq_size. set_solver.
Qed.

Lemma store_ok_same_addr st R F F' :
  m_addr <$> F = m_addr <$> F' -> store_ok st R F -> store_ok st R F'.
Proof.
  intros He [H1 H2 H3 H4 H5 H6]. constructor; try done. eapply holds_same_addr; [|done]. by rewrite !fmap_app, He.
Qed.

(** * Routing *)

Section Routing.
Context {M : Type} `{!PtrMap M} `{!PtrMapLaws M}.
Implicit Types (w : world M).

(** The registries name only queues that are referenced. *)
Record routable (w : world M) (R : list positive) : Prop := Routable {
  rt_queues_ok : pm_ok (w_queues w);
  rt_exchanges_ok : pm_ok (w_exchanges w);
  rt_queues : forall k p, pm_map (w_queues w) !! k = Some p -> p ∈ R;
  rt_exchanges : forall k e, pm_map (w_exchanges w) !! k = Some e ->
    exists ex, w_xobjs w !! e = Some ex /\ forall q, q ∈ binding_refs ex -> q ∈ R
}.

Definition same_regs w w' : Prop :=
  (w_queues w', w_exchanges w', w_xobjs w', w_xnext w') = (w_queues w, w_exchanges w, w_xobjs w, w_xnext w).

(** The queues keep their configuration. *)
Definition same_config w w' : Prop :=
  forall x, q_config <$> st_queues (w_store w') !! x = q_config <$> st_queues (w_store w) !! x.

Lemma same_config_trans w1 w2 w3 : same_config w1 w2 -> same_config w2 w3 -> same_config w1 w3.
Proof. intros H1 H2 x. by rewrite H2, H1. Qed.

Lemma same_queues_config w w' : same_queues (w_store w) (w_store w') -> same_config w w'.
Proof.
  intros Hs x. specialize (Hs x). apply (f_equal (fmap snd)) in Hs. by rewrite <- !option_fmap_compose in Hs.
Qed.

(** The callbacks that routing logs are for queues that live on. *)
Definition woken_live w w' : Prop :=
  forall x, x ∈ w_wakeups w' -> x ∈ w_wakeups w \/ is_Some (st_queues (w_store w') !! x.2).

(** What a route leaves as it was. *)
Definition frame_kept w w' : Prop := same_config w w' /\ woken_live w w'.

Lemma same_config_live w w' p :
  same_config w w' -> is_Some (st_queues (w_store w) !! p) -> is_Some (st_queues (w_store w') !! p).
Proof. intros Hc. specialize (Hc p). destruct (st_queues (w_store w') !! p); [done|]. intros [q Hq]. by rewrite Hq in Hc. Qed.

Lemma frame_kept_refl w : frame_kept w w.
Proof. split; [done | by left]. Qed.
#[local] Hint Resolve frame_kept_refl : core.

Lemma frame_kept_trans w1 w2 w3 : frame_kept w1 w2 -> frame_kept w2 w3 -> frame_kept w1 w3.
Proof.
  intros [H1 H2] [H3 H4]. split; [by eapply same_config_trans|]. intros x [Hx|Hx]%H4; [|by right].
  apply H2 in Hx as [Hx|Hx]; [by left|]. right. by eapply same_config_live.
Qed.

Lemma same_queues_frame w w' :
  same_queues (w_store w) (w_store w') -> w_wakeups w' = w_wakeups w -> frame_kept w w'.
Proof. intros Hs Hk. split; [by apply same_queues_config|]. intros x Hx. left. by rewrite <- Hk. Qed.

(** The ranges of the counters of a message. *)
Definition msg_ok (m : message) : Prop := 0 <= m_dl_hops m /\ 0 <= m_cluster_id m < 2 ^ 64.

Definition msgs_ok (l : list message) : Prop := Forall msg_ok l.

Definition stored w : list message := messages_of (st_queues (w_store w)).

(** A state in which routing may run: [R] references to queues and [F] references
    to messages are held. *)
Record rstate (w : world M) (R : list positive) (F : list message) : Prop := RState {
  rs_store : store_ok (w_store w) R F;
  rs_msgs : msgs_ok (stored w ++ F);
  rs_regs : routable w R
}.

Lemma routable_regs w w' R R' :
  routable w R -> same_regs w w' -> (forall p, p ∈ R -> p ∈ R') -> routable w' R'.
Proof.
  intros [H1 H2 H3 H4] [= Eq Ex Eo _] HR. constructor; rewrite ?Eq, ?Ex, ?Eo; [done | done | eauto |].
  intros k e Hk. destruct (H4 k e Hk) as (ex & ? & ?). eauto 10.
Qed.

Lemma same_regs_trans w1 w2 w3 : same_regs w1 w2 -> same_regs w2 w3 -> same_regs w1 w3.
Proof. unfold same_regs. congruence. Qed.

(** A new store with the same contents. *)
Lemma rstate_same w st' R R' F :
  rstate w R F -> store_ok st' R' F -> same_queues (w_store w) st' -> (forall p, p ∈ R <-> p ∈ R') ->
  rstate (w <| w_store := st' |>) R' F /\ stored (w <| w_store := st' |>) = stored w.
Proof.
  intros [H1 H2 H3] Hst Hs HR. apply same_queues_messages in Hs.
  assert (Hm : stored (w <| w_store := st' |>) = stored w) by (unfold stored; simpl; by rewrite Hs).
  split; [|done]. constructor; [done | by rewrite Hm |].
  apply routable_regs with w R; [done | done | by intros p; apply HR].
Qed.

Lemma route_targets_spec vhost msg w R F ts oom w' :
  rstate w R F -> route_targets vhost msg w = (ts, oom, w') ->
  rstate w' (ts ++ R) F /\ stored w' = stored w /\ same_regs w w' /\ NoDup ts /\ (forall p, p ∈ ts -> p ∈ R) /\
  (oom = true -> ts = []) /\
  (w_next_msg_id w', w_messages_published w', w_wakeups w') = (w_next_msg_id w, w_messages_published w, w_wakeups w) /\
  s_limits (w_sys w') = s_limits (w_sys w) /\ (ample (w_sys w) -> ample (w_sys w') /\ oom = false) /\
  same_queues (w_store w) (w_store w').
Proof.
  intros Hw. pose proof Hw as [Hst Hh [Hq Hx Hqr Hxr]]. unfold route_targets.
  assert (Hnone : rstate w ([] ++ R) F /\ stored w = stored w /\ same_regs w w /\ NoDup (@nil positive) /\
    (forall p, p ∈ [] -> p ∈ R) /\ (false = true -> @nil positive = []) /\
    (w_next_msg_id w, w_messages_published w, w_wakeups w) = (w_next_msg_id w, w_messages_published w, w_wakeups w) /\
    s_limits (w_sys w) = s_limits (w_sys w) /\ (ample (w_sys w) -> ample (w_sys w) /\ false = false) /\
    same_queues (w_store w) (w_store w)).
  { split_and!; try done; [apply NoDup_nil_2 | set_solver]. }
  destruct (m_exchange msg) as [|c exn].
  - rewrite pm_get_spec by done. destruct (pm_map (w_queues w) !! _) as [q|] eqn:Eq; [|intros [= <- <- <-]; exact Hnone].
    apply Hqr in Eq. unfold w_malloc. destruct (st_malloc (w_store w)) as [ok st1] eqn:Em.
    destruct (st_malloc_ok _ _ _ _ _ Hst Em) as (Hst1 & Hq1 & Hl1 & Ho1).
    assert (Hs1 : same_queues (w_store w) st1) by (intros x; by rewrite Hq1).
    destruct ok; intros [= <- <- <-].
    + destruct (qp_ref_ok st1 q R F Hst1 Eq) as (Hst2 & Hsys & _ & Hs2).
      assert (Hs : same_queues (w_store w) (qp_ref q st1)) by (intros x; by rewrite Hs2, Hs1).
      destruct (rstate_same w (qp_ref q st1) R (q :: R) F Hw Hst2 Hs ltac:(set_solver)) as [Hr Hm].
      split_and!; try done; [apply NoDup_singleton | set_solver | | ]; unfold w_sys; simpl; rewrite Hsys; [done|].
      intros Ha. by destruct (Ho1 Ha).
    + destruct (rstate_same w st1 R R F Hw Hst1 Hs1 ltac:(done)) as [Hr Hm].
      split_and!; try done; [apply NoDup_nil_2 | set_solver |]. intros Ha. by destruct (Ho1 Ha).
  - rewrite pm_get_spec by done. destruct (pm_map (w_exchanges w) !! _) as [e|] eqn:Ee; [|intros [= <- <- <-]; exact Hnone].
    destruct (Hxr _ _ Ee) as (ex & -> & Hbs).
    destruct (exchange_route ex _ (w_store w)) as [[ts1 oom1] st1] eqn:Er. intros [= <- <- <-].
    apply (route_spec _ _ _ R F) in Er as (A1 & A2 & A3 & A4 & A5 & A6 & A7 & A8); [|done..].
    assert (Hts : forall p, p ∈ ts1 -> p ∈ R).
    { intros p (b & Hb & <- & _)%A7. apply Hbs. unfold binding_refs. apply list_elem_of_fmap. eauto. }
    destruct (rstate_same w st1 R (ts1 ++ R) F Hw A1 A3 ltac:(set_solver)) as [Hr Hm].
    split_and!; try done.
Qed.

(** ** The heap of the messages *)

Lemma rstate_heap w f R F F' :
  rstate w R F -> (forall X, holds (s_heap (w_sys w)) (X ++ F) -> holds (f (s_heap (w_sys w))) (X ++ F')) ->
  msgs_ok F' -> rstate (w_heap f w) R F' /\ stored (w_heap f w) = stored w /\ same_regs w (w_heap f w).
Proof.
  intros [H1 H2 H3] Hf Hh. split_and!; try done. constructor.
  - unfold w_heap. simpl. eapply (store_sys _ ((st_sys (w_store w)) <| s_heap ::= f |>)); [done | done |]. exact Hf.
  - apply Forall_app. split; [by apply Forall_app in H2 as [? _] | done].
  - by apply routable_regs with w R.
Qed.

Lemma rstate_unref w m R F :
  rstate w R (m :: F) ->
  rstate (w_heap (message_unref (Some m)) w) R F /\ stored (w_heap (message_unref (Some m)) w) = stored w /\
  same_regs w (w_heap (message_unref (Some m)) w) /\
  (ample (w_sys w) -> ample (w_sys (w_heap (message_unref (Some m)) w))).
Proof.
  intros Hw. destruct (rstate_heap w (message_unref (Some m)) R (m :: F) F Hw) as (H1 & H2 & H3).
  - intros X HX. apply holds_unref. by rewrite Permutation_middle.
  - destruct Hw as [_ Hh _]. apply Forall_app in Hh as [_ Hh]. by apply Forall_cons in Hh as [_ Hh].
  - split_and!; try done. unfold ample, w_sys. simpl. by rewrite message_unref_oracle.
Qed.

Lemma message_new_oracle e k b p h m h' :
  message_new_full e k b p h = (m, h') -> h_oracle h = [] -> m <> None /\ h_oracle h' = [].
Proof.
  unfold message_new_full, h_malloc. intros He Ho. rewrite Ho in He. simpl in He. by injection He as <- <-.
Qed.

Lemma message_new_cid e k b p h m h' : message_new_full e k b p h = (Some m, h') -> m_cluster_id m = 0.
Proof. unfold message_new_full. destruct (h_malloc h) as [[] h1]; [by intros [= <- <-] | done]. Qed.

(** A new message, its contents filled in before it is shared. *)
Lemma rstate_new w R F e k b p dm h :
  rstate w R F -> message_new_full e k b p (s_heap (w_sys w)) = (dm, h) ->
  match dm with
  | Some dm => forall dm', m_addr dm' = m_addr dm -> msg_ok dm' ->
      rstate (w_heap (fun _ => h) w) R (dm' :: F)
  | None => rstate (w_heap (fun _ => h) w) R F
  end /\ stored (w_heap (fun _ => h) w) = stored w /\ same_regs w (w_heap (fun _ => h) w) /\
  (ample (w_sys w) -> dm <> None /\ ample (w_sys (w_heap (fun _ => h) w))).
Proof.
  intros Hw Hn. pose proof Hw as [_ Hh _]. apply Forall_app in Hh as [_ Hh].
  assert (Hholds : forall X, holds (s_heap (w_sys w)) (X ++ F) ->
    match dm with Some dm => holds h (dm :: X ++ F) | None => holds h (X ++ F) end).
  { intros X HX. pose proof (holds_new _ _ e k b p HX) as H1. rewrite Hn in H1. destruct dm; [by destruct H1 | done]. }
  split_and!; try done; [|by apply (message_new_oracle e k b p)].
  destruct dm as [dm|]; [|by apply (rstate_heap w _ R F F)].
  intros dm' Ha Hd. apply (rstate_heap w _ R F (dm' :: F)); [done | | by constructor].
  intros X HX. specialize (Hholds X HX). rewrite <- Permutation_middle.
  eapply holds_same_addr; [|exact Hholds]. simpl. by rewrite Ha.
Qed.

(** ** The routes of the next depth *)

(** [route] works on every state whose potential is below [n]. *)
Definition route_good (n : nat) (route : bytes -> message -> world M -> option (Z * world M)) : Prop :=
  forall vhost msg w R F, rstate w R (msg :: F) ->
    (weight (nq R) (stored w) + nq R * wt (nq R) msg < n)%nat ->
    exists rc w', route vhost msg w = Some (rc, w') /\ rstate w' R (msg :: F) /\ same_regs w w' /\ frame_kept w w' /\
      (weight (nq R) (stored w') <= weight (nq R) (stored w) + nq R * wt (nq R) msg)%nat /\
      (ample (w_sys w) -> ample (w_sys w')).

(** The locked part of an enqueue, in the broker. *)
Lemma enqueue_locked_state p msg w R F rc dl st :
  rstate w R (msg :: F) -> p ∈ R ->
  on_queue (-1, []) p (fun q s => let '(rc, q, dl, s) := queue_enqueue_locked q msg s in ((rc, dl), q, s)) (w_store w)
    = ((rc, dl), st) ->
  rstate (w <| w_store := st |>) R (dl ++ msg :: F) /\
  (weight (nq R) (stored (w <| w_store := st |>)) + weight (nq R) dl <= weight (nq R) (stored w) + wt (nq R) msg)%nat /\
  (ample (w_sys w) -> ample (st_sys st)) /\
  exists q q', st_queues (w_store w) !! p = Some q /\ st_queues st = <[p := q']> (st_queues (w_store w)) /\
    enqueued (policy_of (w_sys w) q) (ample (w_sys w)) msg (contents q) rc (contents q') dl /\
    framed q (w_sys w) q' (st_sys st).
Proof.
  intros [Hst Hh Hr] Hp He.
  destruct (enqueue_pointer _ _ _ _ Hst Hp msg rc dl st ltac:(set_solver) He) as (q & q' & Hq & Hq' & Hst' & Hf & Hen).
  assert (Hm0 : stored w ≡ₚ contents q ++ messages_of (delete p (st_queues (w_store w)))) by (by apply messages_split).
  assert (Hm1 : stored (w <| w_store := st |>) ≡ₚ contents q' ++ messages_of (delete p (st_queues (w_store w))))
    by (unfold stored; simpl; rewrite Hq'; apply messages_insert).
  split_and!; [| | apply Hf | by exists q, q'].
  - constructor; [done | | by apply routable_regs with w R].
    unfold msgs_ok in *. rewrite Forall_forall in Hh |- *. intros x Hx. rewrite Hm1 in Hx. setoid_rewrite Hm0 in Hh.
    pose proof (enqueued_elem _ _ _ _ _ _ _ x Hen). set_unfold. naive_solver.
  - rewrite Hm0, Hm1, !weight_app. pose proof (enqueued_weight (nq R) _ _ _ _ _ _ _ Hen). lia.
Qed.

(** Dropping the reference of a target. *)
Lemma rstate_unref_queue w p R F :
  rstate w (p :: R) F -> p ∈ R ->
  rstate (w <| w_store ::= qp_unref p |>) R F /\ stored (w <| w_store ::= qp_unref p |>) = stored w /\
  (ample (w_sys w) -> ample (w_sys (w <| w_store ::= qp_unref p |>))).
Proof.
  intros Hw Hp. destruct (qp_unref_ok _ _ _ _ (rs_store _ _ _ Hw)) as (Hst & _ & Ho & _).
  destruct (rstate_same w (qp_unref p (w_store w)) (p :: R) R F Hw Hst) as [H1 H2].
  - by eapply unref_same_queues; [apply Hw|].
  - set_solver.
  - by split_and!.
Qed.

Lemma update_frame w p q q' st :
  st_queues (w_store w) !! p = Some q -> st_queues st = <[p := q']> (st_queues (w_store w)) ->
  framed q (w_sys w) q' (st_sys st) -> frame_kept w (w <| w_store := st |>).
Proof.
  intros Hq Hqs Hf. split; [|by left]. intros x. simpl. rewrite Hqs. destruct (decide (x = p)) as [->|Hne]; [|by rewrite lookup_insert_ne].
  rewrite lookup_insert_eq, Hq. simpl. by rewrite (static_config _ _ (fr_static _ _ _ _ Hf)).
Qed.

Section NextDepth.
Context (n : nat) (route : bytes -> message -> world M -> option (Z * world M)).
Hypothesis Hroute : route_good n route.

Lemma dead_letter_cb_good src msg w R F :
  rstate w R (msg :: F) -> src ∈ R -> (weight (nq R) (stored w) + wt (nq R) msg <= n)%nat ->
  exists w', broker_dead_letter_cb route src msg w = Some w' /\ rstate w' R (msg :: F) /\ same_regs w w' /\ frame_kept w w' /\
    (weight (nq R) (stored w') <= weight (nq R) (stored w) + wt (nq R) msg)%nat /\
    (ample (w_sys w) -> ample (w_sys w')).
Proof.
  intros Hw Hsrc Hn. unfold broker_dead_letter_cb.
  destruct (so_live _ _ _ (rs_store _ _ _ Hw) src Hsrc) as [q ->].
  assert (Hsame : exists w', Some w = Some w' /\ rstate w' R (msg :: F) /\ same_regs w w' /\ frame_kept w w' /\
    (weight (nq R) (stored w') <= weight (nq R) (stored w) + wt (nq R) msg)%nat /\
    (ample (w_sys w) -> ample (w_sys w'))) by (exists w; split_and!; [done.. | apply frame_kept_refl | lia | done]).
  destruct (Z.leb_spec BROKER_DL_MAX_HOPS (m_dl_hops msg)) as [|Hlt]; [exact Hsame|].
  destruct (queue_dl_exchange q) as [|c dlx]; [exact Hsame|]. clear Hsame.
  destruct (message_new_full _ _ _ _ _) as [dm h] eqn:En.
  destruct (rstate_new _ _ _ _ _ _ _ _ _ Hw En) as (Hnew & Hs1 & Hr1 & Ho1).
  destruct dm as [dm|]; [|exists (w_heap (fun _ => h) w); split_and!; [done.. | by apply same_queues_frame | rewrite Hs1; lia | apply Ho1]].
  set (dm' := dm <| m_dl_hops := u8 (m_dl_hops msg + 1) |>).
  assert (Hh : 0 <= m_dl_hops msg).
  { destruct Hw as [_ Hh _]. apply Forall_app in Hh as [_ Hh]. by apply Forall_cons in Hh as [[? _] _]. }
  pose proof (wt_copy (nq R) msg dm' ltac:(lia) eq_refl) as Hwt. pose proof (wt_pos (nq R) dm').
  assert (Hdm : msg_ok dm') by (split; [apply u8_range | by rewrite (message_new_cid _ _ _ _ _ _ _ En : m_cluster_id dm' = 0)]).
  specialize (Hnew dm' eq_refl Hdm).
  destruct (Hroute (queue_vhost q) dm' _ R (msg :: F) Hnew) as (rc & w2 & -> & Hw2 & Hr2 & Hg2 & Hwt2 & Ho2);
    [rewrite Hs1; lia|].
  destruct (rstate_unref w2 dm' R (msg :: F) Hw2) as (Hw3 & Hs3 & Hr3 & Ho3).
  eexists. split; [done|]. rewrite Hs1 in Hwt2. split_and!; [done | by eapply same_regs_trans, same_regs_trans | exact Hg2 | rewrite Hs3; lia | naive_solver].
Qed.

Lemma dead_letter_one_good src msg w R F :
  rstate w R (msg :: F) -> src ∈ R -> (weight (nq R) (stored w) + wt (nq R) msg <= n)%nat ->
  exists w', dead_letter_one route src msg w = Some w' /\ rstate w' R F /\ same_regs w w' /\ frame_kept w w' /\
    (weight (nq R) (stored w') <= weight (nq R) (stored w) + wt (nq R) msg)%nat /\
    (ample (w_sys w) -> ample (w_sys w')).
Proof.
  intros Hw Hsrc Hn. unfold dead_letter_one.
  assert (Hcb : exists w', (if at_queue false src queue_has_dead_letter (w_store w)
      then broker_dead_letter_cb route src msg w else Some w) = Some w' /\ rstate w' R (msg :: F) /\ same_regs w w' /\ frame_kept w w' /\
    (weight (nq R) (stored w') <= weight (nq R) (stored w) + wt (nq R) msg)%nat /\
    (ample (w_sys w) -> ample (w_sys w'))).
  { destruct (at_queue _ _ _ _); [by apply dead_letter_cb_good|]. exists w. split_and!; try done. lia. }
  destruct Hcb as (w1 & -> & Hw1 & Hr1 & Hg1 & Hwt1 & Ho1).
  destruct (rstate_unref w1 msg R F Hw1) as (Hw2 & Hs2 & Hr2 & Ho2).
  eexists. split; [done|]. rewrite Hs2. split_and!; [done | by eapply same_regs_trans | exact Hg1 | done | auto].
Qed.

Lemma dead_letter_all_good src R F dl : forall w,
  rstate w R (dl ++ F) -> src ∈ R -> (weight (nq R) (stored w) + weight (nq R) dl <= n)%nat ->
  exists w', dead_letter_all route src dl w = Some w' /\ rstate w' R F /\ same_regs w w' /\ frame_kept w w' /\
    (weight (nq R) (stored w') <= weight (nq R) (stored w) + weight (nq R) dl)%nat /\
    (ample (w_sys w) -> ample (w_sys w')).
Proof.
  induction dl as [|m dl IH]; intros w Hw Hsrc Hn; cbn [dead_letter_all].
  { exists w. split_and!; try done. lia. }
  change (weight (nq R) (m :: dl)) with (wt (nq R) m + weight (nq R) dl)%nat in *.
  destruct (dead_letter_one_good src m w R (dl ++ F) Hw Hsrc ltac:(lia)) as (w1 & -> & Hw1 & Hr1 & Hg1 & Hwt1 & Ho1).
  destruct (IH w1 Hw1 Hsrc ltac:(lia)) as (w2 & -> & Hw2 & Hr2 & Hg2 & Hwt2 & Ho2).
  exists w2. split_and!; [done | done | by eapply same_regs_trans | by eapply frame_kept_trans | lia | auto].
Qed.

Lemma queue_enqueue_good p msg w R F :
  rstate w R (msg :: F) -> p ∈ R -> (weight (nq R) (stored w) + wt (nq R) msg <= n)%nat ->
  exists rc w', queue_enqueue route p msg w = Some (rc, w') /\ rstate w' R (msg :: F) /\ same_regs w w' /\ frame_kept w w' /\
    (weight (nq R) (stored w') <= weight (nq R) (stored w) + wt (nq R) msg)%nat /\
    (ample (w_sys w) -> ample (w_sys w')).
Proof.
  intros Hw Hp Hn. unfold queue_enqueue. destruct (on_queue _ _ _ _) as [[rc dl] st] eqn:E.
  destruct (enqueue_locked_state p msg w R F rc dl st Hw Hp E) as (Hw1 & Hwt1 & Ho1 & Hg1).
  assert (Hg : frame_kept w (w <| w_store := st |>)) by (destruct Hg1 as (q & q' & Hq & Hqs & _ & Hf); by eapply update_frame).
  destruct (dead_letter_all_good p R (msg :: F) dl _ Hw1 Hp ltac:(lia)) as (w2 & -> & Hw2 & Hr2 & Hg2 & Hwt2 & Ho2).
  exists rc, w2. split_and!; [done | done | done | by eapply frame_kept_trans | lia | auto].
Qed.

Lemma deliver_all_good msg R F ts : forall routed failed w,
  rstate w (ts ++ R) (msg :: F) -> (forall p, p ∈ ts -> p ∈ R) ->
  (weight (nq R) (stored w) + length ts * wt (nq R) msg <= n)%nat ->
  exists routed' failed' w', deliver_all route ts msg routed failed w = Some (routed', failed', w') /\
    rstate w' R (msg :: F) /\ same_regs w w' /\ frame_kept w w' /\
    (weight (nq R) (stored w') <= weight (nq R) (stored w) + length ts * wt (nq R) msg)%nat /\
    (ample (w_sys w) -> ample (w_sys w')).
Proof.
  induction ts as [|p ts IH]; intros routed failed w Hw Hts Hn; cbn [deliver_all].
  { exists routed, failed, w. split_and!; try done. simpl. lia. }
  assert (Hnq : nq (p :: ts ++ R) = nq R) by (apply (nq_app (p :: ts)); done).
  destruct (queue_enqueue_good p msg w (p :: ts ++ R) F Hw ltac:(set_solver)) as (rc & w1 & -> & Hw1 & Hr1 & Hg1 & Hwt1 & Ho1);
    [rewrite Hnq; simpl in Hn; lia|]. rewrite Hnq in Hwt1.
  assert (Hp : p ∈ ts ++ R) by set_solver.
  destruct (rstate_unref_queue w1 p (ts ++ R) (msg :: F) Hw1 Hp) as (Hw2 & Hs2 & Ho2).
  pose proof (unref_same_queues _ _ _ _ (rs_store _ _ _ Hw1) Hp) as Hsq.
  assert (Hnext : forall w2 r f, rstate w2 (ts ++ R) (msg :: F) -> stored w2 = stored w1 -> same_regs w1 w2 ->
    frame_kept w1 w2 ->
    (ample (w_sys w1) -> ample (w_sys w2)) ->
    exists routed' failed' w', deliver_all route ts msg r f w2 = Some (routed', failed', w') /\
      rstate w' R (msg :: F) /\ same_regs w w' /\ frame_kept w w' /\
      (weight (nq R) (stored w') <= weight (nq R) (stored w) + length (p :: ts) * wt (nq R) msg)%nat /\
      (ample (w_sys w) -> ample (w_sys w'))).
  { intros w2 r f Hw2' Hs2' Hr2' Hg2 Ho2'.
    destruct (IH r f w2 Hw2' ltac:(set_solver)) as (r' & f' & w3 & E3 & Hw3 & Hr3 & Hg3 & Hwt3 & Ho3);
      [rewrite Hs2'; simpl in Hn; lia|]. exists r', f', w3. split_and!; [done | done | | | rewrite Hs2' in Hwt3; simpl; lia | auto].
    - by eapply same_regs_trans, same_regs_trans.
    - by eapply frame_kept_trans, frame_kept_trans. }
  assert (Hlive : is_Some (st_queues (qp_unref p (w_store w1)) !! p)) by (by apply (so_live _ _ _ (rs_store _ _ _ Hw2))).
  destruct (rc =? 0).
  - apply Hnext; [|done | done | | done].
    + destruct Hw2 as [A1 A2 A3]. constructor; [done | done | by eapply routable_regs].
    + split; [by apply same_queues_config|]. intros x [Hx|Hx]%elem_of_app; [by left|].
      apply list_elem_of_fmap in Hx as (y & -> & _). by right.
  - apply Hnext; [done | done | done | | done]. by apply same_queues_frame.
Qed.
End NextDepth.

(** The id of a message is set before it is shared. *)
Lemma rstate_same_message w R F m m' :
  m_addr m' = m_addr m -> m_dl_hops m' = m_dl_hops m -> m_cluster_id m' = m_cluster_id m -> rstate w R (m :: F) -> rstate w R (m' :: F).
Proof.
  intros Ha Hh Hc [A1 A2 A3]. constructor; [|unfold msgs_ok in *|done].
  - eapply store_ok_same_addr; [|done]. simpl. by rewrite Ha.
  - apply Forall_app in A2 as [B1 B2]. apply Forall_cons in B2 as [B2 B3]. apply Forall_app. split; [done|].
    constructor; [by unfold msg_ok; rewrite Hh, Hc | done].
Qed.

(** Enough fuel: the potential of the state and the message. *)
Lemma broker_route_good fuel : route_good fuel (broker_route fuel).
Proof.
  induction fuel as [|fuel IH]; intros vhost msg w R F Hw Hn; [lia|]. cbn [broker_route].
  set (msg' := msg <| m_id := w_next_msg_id w |>).
  set (w0 := w <| w_next_msg_id ::= fun n => u64 (n + 1) |>).
  assert (Hwt : wt (nq R) msg' = wt (nq R) msg) by done.
  assert (Hw0 : rstate w0 R (msg' :: F)).
  { apply (rstate_same_message w0 R F msg msg'); [done | done | done |].
    destruct Hw as [A1 A2 A3]. constructor; [done | done | by apply routable_regs with w R]. }
  assert (Hback : forall w', rstate w' R (msg' :: F) -> rstate w' R (msg :: F))
    by (intros w'; by apply rstate_same_message).
  destruct (route_targets vhost msg' w0) as [[ts oom] w1] eqn:Et.
  destruct (route_targets_spec _ _ _ _ _ _ _ _ Hw0 Et) as (Hw1 & Hs1 & Hr1 & Hnd & Hts & Hoom & Htu & _ & Ho1 & Hsq).
  assert (Hg1 : frame_kept w w1) by (injection Htu as _ _ Hk; by apply (same_queues_frame w0 w1)).
  pose proof (nq_targets ts R Hnd Hts) as Hlen.
  destruct oom.
  { rewrite (Hoom eq_refl) in Hw1. exists ROUTE_RESOURCE_ERROR, w1. split_and!; [done | by apply Hback | done | done | | by apply Ho1].
    rewrite Hs1. change (stored w0) with (stored w). lia. }
  destruct (deliver_all_good fuel (broker_route fuel) IH msg' R F ts 0 false w1 Hw1 Hts)
    as (routed & failed & w2 & -> & Hw2 & Hr2 & Hg2 & Hwt2 & Ho2).
  { rewrite Hs1, Hwt. change (stored w0) with (stored w). nia. }
  rewrite Hs1, Hwt in Hwt2. change (stored w0) with (stored w) in Hwt2.
  assert (Hw3 : forall w3, w3 = w2 \/ w3 = w2 <| w_messages_published ::= fun n => u64 (n + 1) |> ->
    rstate w3 R (msg :: F) /\ same_regs w w3 /\ frame_kept w w3 /\ stored w3 = stored w2 /\ (ample (w_sys w) -> ample (w_sys w3))).
  { assert (same_regs w w2) by (by eapply same_regs_trans). assert (frame_kept w w2) by (by eapply frame_kept_trans).
    intros w3 [->| ->]; (split_and!; [|done | done | done | by intros Ha; apply Ho2, Ho1]); [by apply Hback|].
    destruct (Hback _ Hw2) as [A1 A2 A3]. constructor; [done | done | by apply routable_regs with w2 R]. }
  set (w3 := if (0 <? routed)%nat then _ else w2). destruct (Hw3 w3) as (B1 & B2 & Bg & B3 & B4);
    [subst w3; destruct (0 <? routed)%nat; auto|].
  destruct ((routed =? 0)%nat && failed); (eexists _, w3; split_and!; [done | done | done | done | rewrite B3; nia | done]).
Qed.

End Routing.
