(* ===== verification/BrokerSpec.v ===== *)
(** The broker's invariant and its properties (Broker.v). *)

From S2P Require Import Prelude HashMap Message Queue Store Exchange Broker BrokerRoute.

(** * Keys *)

(** Object names do not collide.  Two (vhost, name) pairs of short strings, the
    vhosts without the separator byte, have the same registry key only if they are
    the same pair. *)
Theorem vkey_injective v1 n1 v2 n2 :
  (length v1 <= 255)%nat -> (length n1 <= 255)%nat -> (length v2 <= 255)%nat -> (length n2 <= 255)%nat ->
  1 ∉ v1 -> 1 ∉ v2 -> broker_vkey (Some v1) (Some n1) = broker_vkey (Some v2) (Some n2) -> v1 = v2 /\ n1 = n2.
Proof.
  intros L1 L2 L3 L4 H1 H2. unfold broker_vkey, snprintf_s. simpl.
  rewrite !take_ge by (rewrite length_app; simpl; lia).
  revert v2 L3 H2. clear L1. induction v1 as [|c v1 IH]; intros [|d v2] L3 H2 He; simplify_eq/=.
  - done.
  - set_solver.
  - set_solver.
  - destruct (IH ltac:(set_solver) v2 ltac:(lia) ltac:(set_solver)) as [-> ->]; done.
Qed.

Lemma vkey_injective_witness :
  broker_vkey (Some (cstr "/")) (Some (cstr "orders")) = broker_vkey (Some (cstr "/")) (Some (cstr "orders")) /\
  (cstr "/" = cstr "/" /\ cstr "orders" = cstr "orders").
Proof.
  split; [reflexivity|].
  apply (vkey_injective (cstr "/") (cstr "orders") (cstr "/") (cstr "orders")); try (vm_compute; lia); try reflexivity;
    apply (bool_decide_unpack _); vm_compute; exact I.
Defined.

(** * The invariant *)

Section Spec.
Context {M : Type} `{!PtrMap M} `{!PtrMapLaws M}.
Implicit Types (w : world M).

(** The references the registries hold: one per registered queue and one per
    binding. *)
Definition reg_refs w : list positive := (map_to_list (pm_map (w_queues w))).*2.
Definition refs_of_bindings (X : gmap positive exchange) : list positive := map_to_list X ≫= (fun ex => binding_refs ex.2).
Definition owned_refs w : list positive := reg_refs w ++ refs_of_bindings (w_xobjs w).

(** [Rx] are the references to queues and [F] the references to messages held by
    the clients of the broker. *)
Record world_ok w (Rx : list positive) (F : list message) : Prop := WorldOk {
  wo_queues_ok : pm_ok (w_queues w);
  wo_exchanges_ok : pm_ok (w_exchanges w);
  (* every exchange object is registered under exactly one key *)
  wo_registered : forall e ex, w_xobjs w !! e = Some ex -> exists k, pm_map (w_exchanges w) !! k = Some e;
  wo_exchanges : forall k e, pm_map (w_exchanges w) !! k = Some e -> is_Some (w_xobjs w !! e);
  wo_exchange_inj : forall k1 k2 e, pm_map (w_exchanges w) !! k1 = Some e -> pm_map (w_exchanges w) !! k2 = Some e -> k1 = k2;
  wo_queue_inj : forall k1 k2 p, pm_map (w_queues w) !! k1 = Some p -> pm_map (w_queues w) !! k2 = Some p -> k1 = k2;
  wo_fresh : forall e ex, w_xobjs w !! e = Some ex -> (e < w_xnext w)%positive;
  (* bindings lead to registered queues only *)
  wo_bound : forall e ex p, w_xobjs w !! e = Some ex -> p ∈ binding_refs ex -> p ∈ reg_refs w;
  wo_store : store_ok (w_store w) (owned_refs w ++ Rx) F;
  wo_msgs : msgs_ok (stored w ++ F)
}.

Lemma elem_of_reg_refs w p : p ∈ reg_refs w <-> exists k, pm_map (w_queues w) !! k = Some p.
Proof.
  unfold reg_refs. rewrite list_elem_of_fmap. split.
  - intros ([k p'] & -> & Hin). exists k. by apply elem_of_map_to_list.
  - intros [k Hk]. exists (k, p). split; [done|]. by apply elem_of_map_to_list.
Qed.

Lemma refs_of_bindings_split X e ex :
  X !! e = Some ex -> refs_of_bindings X ≡ₚ binding_refs ex ++ refs_of_bindings (delete e X).
Proof.
  intros He. unfold refs_of_bindings. rewrite <- (insert_delete_id X e ex He) at 1.
  rewrite map_to_list_insert by apply lookup_delete_eq. done.
Qed.

Lemma refs_of_bindings_insert X e ex :
  refs_of_bindings (<[e := ex]> X) ≡ₚ binding_refs ex ++ refs_of_bindings (delete e X).
Proof.
  rewrite (refs_of_bindings_split (<[e := ex]> X) e ex) by apply lookup_insert_eq. by rewrite delete_insert_eq.
Qed.

Lemma elem_of_refs_of_bindings X p :
  p ∈ refs_of_bindings X <-> exists e ex, X !! e = Some ex /\ p ∈ binding_refs ex.
Proof.
  unfold refs_of_bindings. rewrite list_elem_of_bind. split.
  - intros ([e ex] & Hp & Hin%elem_of_map_to_list). eauto.
  - intros (e & ex & He & Hp). exists (e, ex). split; [done|]. by apply elem_of_map_to_list.
Qed.

(** What routing needs. *)
Lemma world_rstate w Rx F : world_ok w Rx F -> rstate w (owned_refs w ++ Rx) F.
Proof.
  intros [H1 H2 H3 H4 H5 H6 H7 H8 H9 H10]. constructor; [done | done |]. constructor; [done | done | |].
  - intros k p Hk. unfold owned_refs. rewrite !elem_of_app. left. left. apply elem_of_reg_refs. eauto.
  - intros k e Hk. destruct (H4 k e Hk) as [ex Hex]. exists ex. split; [done|]. intros q Hq.
    unfold owned_refs. rewrite !elem_of_app. left. right. apply elem_of_refs_of_bindings. eauto.
Qed.

(** Operations that leave the registered names alone. *)
Lemma world_ok_maps w w' Rx Rx' F F' :
  world_ok w Rx F -> pm_ok (w_queues w') -> pm_ok (w_exchanges w') ->
  pm_map (w_queues w') = pm_map (w_queues w) -> pm_map (w_exchanges w') = pm_map (w_exchanges w) ->
  w_xobjs w' = w_xobjs w -> w_xnext w' = w_xnext w ->
  store_ok (w_store w') (owned_refs w ++ Rx') F' -> msgs_ok (stored w' ++ F') -> world_ok w' Rx' F'.
Proof.
  intros [H1 H2 H3 H4 H5 H6 H7 H8 H9 H10] Hq Hx Eq Ex Eo En Hst Hh.
  constructor; unfold owned_refs, reg_refs in *; rewrite ?Eq, ?Ex, ?Eo, ?En; try done; eauto.
Qed.

Lemma world_ok_regs w w' Rx Rx' F F' :
  world_ok w Rx F -> same_regs w w' -> store_ok (w_store w') (owned_refs w ++ Rx') F' -> msgs_ok (stored w' ++ F') ->
  world_ok w' Rx' F'.
Proof.
  intros Hw [= Eq Ex Eo En] Hst Hh. apply world_ok_maps with w Rx F; try done; rewrite ?Eq, ?Ex; try done; apply Hw.
Qed.

Lemma owned_refs_regs w w' : same_regs w w' -> owned_refs w' = owned_refs w.
Proof. intros [= Eq _ Eo _]. unfold owned_refs, reg_refs. by rewrite Eq, Eo. Qed.

Lemma rstate_world w w' Rx F F' :
  world_ok w Rx F -> same_regs w w' -> rstate w' (owned_refs w ++ Rx) F' -> world_ok w' Rx F'.
Proof.
  intros Hw Hr [A1 A2 A3]. by apply world_ok_regs with w Rx F.
Qed.

(** ** Declaring a queue *)

Definition set_vhost_at (vhost : bytes) (p : positive) (st : store) : store :=
  snd (on_queue tt p (fun q s => let '(q, s) := queue_set_vhost (Some vhost) q s in (tt, q, s)) st).

Lemma set_vhost_ok vhost p st q R F :
  store_ok st R F -> st_queues st !! p = Some q ->
  exists v, store_ok (set_vhost_at vhost p st) R F /\
    st_queues (set_vhost_at vhost p st) = <[p := q <| q_vhost := v |>]> (st_queues st) /\
    (v = Some vhost \/ v = None /\ ~ ample (st_sys st)) /\
    (ample (st_sys st) -> ample (st_sys (set_vhost_at vhost p st))).
Proof.
  intros Hst Hq. unfold set_vhost_at, on_queue. rewrite Hq. unfold queue_set_vhost, strdup.
  destruct (s_malloc (st_sys st)) as [ok s] eqn:Em. apply s_malloc_spec in Em as (Hl & Ha & Hh & Ho). simpl.
  exists (if ok then Some vhost else None). split_and!; [|done | | by apply Ho].
  - eapply (store_replace _ _ q _ _ _ F F (contents q)); [done | done | | done | |].
    + destruct (so_queues _ _ _ Hst _ _ Hq). constructor; simpl; assumption.
    + unfold alarm_kept. simpl. by rewrite Ha.
    + intros X HX. by apply Hh.
  - destruct ok; [by left | right; split; [done|]]. intros Hs. by destruct (Ho Hs).
Qed.

Lemma reg_put_spec m k v st ok old m' st' R F :
  pm_ok m -> store_ok st R F -> reg_put m k v st = (ok, old, m', st') ->
  store_ok st' R F /\ st_queues st' = st_queues st /\ pm_ok m' /\ (ample (st_sys st) -> ok = true /\ ample (st_sys st')) /\
  (if ok then old = pm_map m !! k /\ pm_map m' = <[k := v]> (pm_map m)
   else pm_map m !! k = None /\ pm_map m' = pm_map m).
Proof.
  intros Hm Hst. unfold reg_put. pose proof (pm_put_spec m k v (h_oracle (s_heap (st_sys st))) Hm) as Hp.
  pose proof (pm_put_memory m k v) as (old0 & m0 & Hmem).
  destruct (pm_put m k v _) as [[[ok1 old1] m1] o1] eqn:E. intros [= <- <- <- <-].
  split_and!; [by apply store_oracle | done | by destruct ok1; destruct Hp | |].
  - intros Hs. unfold ample in Hs. rewrite Hs, Hmem in E. injection E as <- _ _ <-. done.
  - by destruct ok1; destruct Hp as (? & ? & ?).
Qed.

(** The broker after the registration of a new queue. *)
Lemma world_add_queue w Rx F k p st m :
  world_ok w Rx F -> pm_map (w_queues w) !! k = None -> store_ok st (p :: owned_refs w ++ Rx) F ->
  (p ∉ owned_refs w ++ Rx) -> msgs_ok (messages_of (st_queues st) ++ F) ->
  pm_ok m -> pm_map m = <[k := p]> (pm_map (w_queues w)) ->
  world_ok (w <| w_store := st |> <| w_queues := m |>) Rx F.
Proof.
  intros [H1 H2 H3 H4 H5 H6 H7 H8 H9 H10] Hk Hst Hp Hh Hm Hmap.
  assert (Hrefs : reg_refs (w <| w_store := st |> <| w_queues := m |>) ≡ₚ p :: reg_refs w).
  { unfold reg_refs. simpl. rewrite Hmap. by rewrite map_to_list_insert. }
  assert (Hnew : forall k', pm_map (w_queues w) !! k' <> Some p).
  { intros k' Hk'. apply Hp. unfold owned_refs. rewrite !elem_of_app. left. left. apply elem_of_reg_refs. eauto. }
  constructor; simpl; try done.
  - intros k1 k2 x. rewrite Hmap, !lookup_insert_Some. naive_solver.
  - intros e ex x He Hx. rewrite Hrefs. apply elem_of_cons. right. eauto.
  - unfold owned_refs in *. simpl. rewrite Hrefs. exact Hst.
Qed.

(** The steps that build a new queue, up to its registration. *)
Lemma new_queue_steps vhost name flags w Rx F r st :
  world_ok w Rx F -> qp_new (Some name) flags (w_store w) = (r, st) ->
  (ample (w_sys w) -> ample (st_sys st)) /\
  match r with
  | None => ~ ample (w_sys w) /\ store_ok st (owned_refs w ++ Rx) F /\ st_queues st = st_queues (w_store w)
  | Some p => exists v, st_queues (w_store w) !! p = None /\ (p ∉ owned_refs w ++ Rx) /\
      store_ok (set_vhost_at vhost p st) (p :: owned_refs w ++ Rx) F /\
      st_queues (set_vhost_at vhost p st) = <[p := (fresh_queue name flags) <| q_vhost := v |>]> (st_queues (w_store w)) /\
      messages_of (st_queues (set_vhost_at vhost p st)) ≡ₚ stored w /\
      (v = Some vhost \/ ~ ample (w_sys w)) /\ (ample (w_sys w) -> ample (st_sys (set_vhost_at vhost p st)))
  end.
Proof.
  intros Hw Hn. destruct (qp_new_ok _ _ _ _ _ _ _ (wo_store _ _ _ Hw) Hn) as (_ & Ho & Hr). split; [done|].
  destruct r as [p|]; [|by destruct Hr as (? & ? & ?)].
  destruct Hr as (-> & Hst & Hqs & Hfree).
  destruct (set_vhost_ok vhost (st_next (w_store w)) st (fresh_queue name flags) _ _ Hst) as (v & Hst' & Hqs' & Hv & Ho').
  { rewrite Hqs. apply lookup_insert_eq. }
  exists v. rewrite Hqs', Hqs, insert_insert_eq. split_and!; try done.
  - intros Hin. destruct (so_live _ _ _ (wo_store _ _ _ Hw) _ Hin). congruence.
  - rewrite messages_insert, delete_id by done.
    rewrite (ring_contents _ []); [done|]. apply (qi_ring _ _ (fresh_qinv name flags)).
  - destruct Hv as [|[? ?]]; [by left | right; auto].
  - auto.
Qed.

Lemma declare_queue_regs vhost name flags w rc depth created w' :
  broker_declare_queue vhost name flags w = (rc, depth, created, w') -> w_exchanges w' = w_exchanges w /\ w_xobjs w' = w_xobjs w.
Proof.
  unfold broker_declare_queue. destruct (pm_get _ _); [destruct (_ =? _); by intros [= _ _ _ <-]|].
  destruct (qp_new _ _ _) as [[q|] st]; [|by intros [= _ _ _ <-]]. destruct (on_queue _ _ _ _) as [u st1].
  destruct (reg_put _ _ _ _) as [[[ok old] m] st2]. destruct ok; by intros [= _ _ _ <-].
Qed.

Lemma declare_queue_spec vhost name flags w Rx F rc depth created w' :
  world_ok w Rx F -> broker_declare_queue vhost name flags w = (rc, depth, created, w') ->
  let key := broker_vkey (Some vhost) (Some name) in
  world_ok w' Rx F /\ (ample (w_sys w) -> ample (w_sys w') /\ rc <> -1) /\
  match pm_map (w_queues w) !! key with
  | Some p => w' = w /\ created = false /\
      exists q, st_queues (w_store w) !! p = Some q /\
        (q_flags q = flags /\ rc = 0 /\ depth = u32 (Z.of_nat (q_count q)) \/ q_flags q <> flags /\ rc = -2)
  | None =>
      (rc = 0 /\ created = true /\ depth = 0 /\
       exists p v, pm_map (w_queues w') = <[key := p]> (pm_map (w_queues w)) /\
         st_queues (w_store w) !! p = None /\
         st_queues (w_store w') = <[p := (fresh_queue name flags) <| q_vhost := v |>]> (st_queues (w_store w)) /\
         (v = Some vhost \/ ~ ample (w_sys w))) \/
      (rc = -1 /\ ~ ample (w_sys w) /\ created = false /\ pm_map (w_queues w') = pm_map (w_queues w) /\
       same_queues (w_store w) (w_store w'))
  end.
Proof.
  intros Hw. unfold broker_declare_queue. rewrite pm_get_spec by apply Hw.
  destruct (pm_map (w_queues w) !! _) as [p|] eqn:Ek.
  - assert (Hp : p ∈ owned_refs w ++ Rx).
    { unfold owned_refs. rewrite !elem_of_app. left. left. apply elem_of_reg_refs. eauto. }
    destruct (so_live _ _ _ (wo_store _ _ _ Hw) p Hp) as [q Hq]. unfold at_queue. rewrite Hq. unfold queue_flags, queue_depth.
    destruct (Z.eqb_spec (q_flags q) flags); intros [= <- <- <- <-]; split_and!; try done; exists q; auto.
  - destruct (qp_new _ flags (w_store w)) as [r st] eqn:En.
    destruct (new_queue_steps vhost name flags w Rx F r st Hw En) as [Ho1 Hr]. destruct r as [p|].
    2:{ intros [= <- <- <- <-]. destruct Hr as (Hn & Hst & Hqs).
        assert (Hs : same_queues (w_store w) st) by (intros x; by rewrite Hqs).
        split_and!; [|naive_solver | right; by split_and!].
        apply world_ok_regs with w Rx F; try done. unfold stored. simpl. rewrite Hqs. apply Hw. }
    destruct Hr as (v & Hfree & Hnew & Hst & Hqs & Hm & Hv & Ho).
    destruct (on_queue tt p _ st) as [u st2] eqn:Es. assert (st2 = set_vhost_at vhost p st) as ->
      by (unfold set_vhost_at; by rewrite Es).
    destruct (reg_put _ _ _ _) as [[[ok old] m] st3] eqn:Er.
    destruct (reg_put_spec _ _ _ _ _ _ _ _ _ _ (wo_queues_ok _ _ _ Hw) Hst Er) as (Hst3 & Hqs3 & Hm3 & Ho3 & Hok).
    assert (Hh : msgs_ok (messages_of (st_queues st3) ++ F)).
    { unfold msgs_ok. rewrite Hqs3, Hm. apply Hw. }
    destruct ok; intros [= <- <- <- <-].
    + split_and!; [|intros Ha; destruct (Ho3 (Ho Ha)); by split_and! |].
      * by eapply world_add_queue; [done | done | done | done | done | done | apply Hok].
      * left. unfold at_queue. rewrite Hqs3, Hqs, lookup_insert_eq. split_and!; try done. exists p, v.
        split_and!; try done; [apply Hok | simpl; by rewrite Hqs3].
    + destruct (qp_unref_ok st3 p _ F Hst3) as (Hst4 & _ & Ho4 & _).
      assert (Hq4 : st_queues (qp_unref p st3) = st_queues (w_store w)).
      { unfold qp_unref. rewrite Hqs3, Hqs, lookup_insert_eq. simpl. by rewrite delete_insert_id. }
      assert (Hs4 : same_queues (w_store w) (qp_unref p st3)) by (intros x; by rewrite Hq4).
      split_and!; [|naive_solver | right; split_and!; try done; [naive_solver | apply Hok]].
      apply world_ok_maps with w Rx F; try done; [apply Hw | apply Hok |].
      unfold stored. simpl. rewrite Hq4. apply Hw.
Qed.

(** ** Declaring an exchange *)

Lemma exchange_new_ok name type flags st ex st' R F :
  store_ok st R F -> exchange_new name type flags st = (ex, st') ->
  store_ok st' R F /\ st_queues st' = st_queues st /\ (ample (st_sys st) -> ample (st_sys st')) /\
  (ex = Some (Exchange (default [] name) None type flags [] 0) \/ ex = None /\ ~ ample (st_sys st)).
Proof.
  intros Hst. unfold exchange_new.
  destruct (st_malloc st) as [ok1 st1] eqn:E1. destruct (st_malloc_ok _ _ _ _ _ Hst E1) as (Hst1 & Hq1 & _ & Ho1).
  destruct ok1; [|intros [= <- <-]; split_and!; try done; [by apply Ho1 | right; split; [done|]; intros Hs; by destruct (Ho1 Hs)]].
  destruct (st_malloc st1) as [ok2 st2] eqn:E2. destruct (st_malloc_ok _ _ _ _ _ Hst1 E2) as (Hst2 & Hq2 & _ & Ho2).
  destruct ok2; intros [= <- <-]; (split_and!; [done | congruence | naive_solver |]); [by left|].
  right. split; [done|]. naive_solver.
Qed.

Lemma exchange_set_vhost_ok ex vhost st ex' st' R F :
  store_ok st R F -> exchange_set_vhost ex vhost st = (ex', st') ->
  store_ok st' R F /\ st_queues st' = st_queues st /\ (ample (st_sys st) -> ample (st_sys st')) /\
  ex' = ex <| x_vhost := x_vhost ex' |>.
Proof.
  intros Hst. unfold exchange_set_vhost, strdup. destruct (s_malloc (st_sys st)) as [ok s] eqn:Em.
  apply s_malloc_spec in Em as (Hl & Ha & Hh & Ho). intros [= <- <-]. split_and!; [|done | by apply Ho | done].
  eapply store_sys; [done | done |]. intros X HX. by apply Hh.
Qed.

(** The broker after the registration of a new exchange. *)
Lemma world_add_exchange w Rx F k ex st m :
  world_ok w Rx F -> pm_map (w_exchanges w) !! k = None -> x_bindings ex = [] ->
  store_ok st (owned_refs w ++ Rx) F -> st_queues st = st_queues (w_store w) ->
  pm_ok m -> pm_map m = <[k := w_xnext w]> (pm_map (w_exchanges w)) ->
  world_ok (w <| w_store := st |> <| w_exchanges := m |> <| w_xobjs ::= <[w_xnext w := ex]> |> <| w_xnext ::= Pos.succ |>) Rx F.
Proof.
  intros [H1 H2 H3 H4 H5 H6 H7 H8 H9 H10] Hk Hex Hst Hqs Hm Hmap.
  assert (Hfree : w_xobjs w !! w_xnext w = None).
  { destruct (w_xobjs w !! w_xnext w) eqn:E; [|done]. specialize (H7 _ _ E). lia. }
  assert (Hnew : forall k', pm_map (w_exchanges w) !! k' <> Some (w_xnext w)).
  { intros k' Hk'. destruct (H4 _ _ Hk'). congruence. }
  constructor; simpl; try done.
  - intros e y He. rewrite Hmap. apply lookup_insert_Some in He as [[<- <-]|[Hne He]].
    + exists k. apply lookup_insert_eq.
    + destruct (H3 e y He) as [k' Hk']. exists k'. rewrite lookup_insert_ne; [done|]. congruence.
  - intros k' e. rewrite Hmap, lookup_insert_Some. intros [[<- <-]|[_ Hk']]; apply lookup_insert_is_Some; [by left|].
    destruct (decide (w_xnext w = e)); [by left | right; split; [done|]; eauto].
  - intros k1 k2 e. rewrite Hmap, !lookup_insert_Some. naive_solver.
  - intros e y He. apply lookup_insert_Some in He as [[<- <-]|[_ He]]; [lia|]. specialize (H7 _ _ He). lia.
  - intros e y x He Hx. apply lookup_insert_Some in He as [[<- <-]|[_ He]]; [|by eapply H8].
    unfold binding_refs in Hx. rewrite Hex in Hx. set_solver.
  - unfold owned_refs in *. simpl. rewrite refs_of_bindings_insert, delete_id by done.
    unfold binding_refs at 1. rewrite Hex. exact Hst.
  - unfold stored. simpl. by rewrite Hqs.
Qed.

Lemma declare_exchange_spec vhost name type flags w Rx F rc created w' :
  world_ok w Rx F -> broker_declare_exchange vhost name type flags w = (rc, created, w') ->
  let key := broker_vkey (Some vhost) (Some name) in
  world_ok w' Rx F /\ st_queues (w_store w') = st_queues (w_store w) /\ w_queues w' = w_queues w /\
  (ample (w_sys w) -> ample (w_sys w') /\ rc <> -1) /\
  match pm_map (w_exchanges w) !! key with
  | Some e => w' = w /\ created = false /\
      exists ex, w_xobjs w !! e = Some ex /\
        (x_type ex = type /\ x_flags ex = flags /\ rc = 0 \/ ~ (x_type ex = type /\ x_flags ex = flags) /\ rc = -2)
  | None =>
      (rc = 0 /\ created = true /\ pm_map (w_exchanges w') = <[key := w_xnext w]> (pm_map (w_exchanges w)) /\
       exists v, w_xobjs w' = <[w_xnext w := Exchange name v type flags [] 0]> (w_xobjs w)) \/
      (rc = -1 /\ ~ ample (w_sys w) /\ created = false /\ pm_map (w_exchanges w') = pm_map (w_exchanges w) /\ w_xobjs w' = w_xobjs w)
  end.
Proof.
  intros Hw. unfold broker_declare_exchange. rewrite pm_get_spec by apply Hw.
  destruct (pm_map (w_exchanges w) !! _) as [e|] eqn:Ek.
  { destruct (wo_exchanges _ _ _ Hw _ _ Ek) as [ex Hex]. rewrite Hex.
    destruct (_ && _) eqn:Eb; intros [= <- <- <-]; (split_and!; try done; exists ex; split; [done|]).
    - left. apply andb_true_iff in Eb as [?%bool_decide_eq_true ?%Z.eqb_eq]. done.
    - right. split; [|done]. intros [Ht Hf]. by rewrite Ht, Hf, bool_decide_true, Z.eqb_refl in Eb. }
  destruct (exchange_new _ _ _ _) as [r st1] eqn:E1.
  destruct (exchange_new_ok _ _ _ _ _ _ _ _ (wo_store _ _ _ Hw) E1) as (Hst1 & Hq1 & Ho1 & Hr).
  destruct Hr as [-> |[-> Hn]].
  2:{ intros [= <- <- <-]. split_and!; [|done | done | naive_solver | by right].
      apply world_ok_regs with w Rx F; try done. unfold stored. simpl. rewrite Hq1. apply Hw. }
  destruct (exchange_set_vhost _ _ st1) as [ex st2] eqn:E2.
  destruct (exchange_set_vhost_ok _ _ _ _ _ _ _ Hst1 E2) as (Hst2 & Hq2 & Ho2 & Hex). simpl in Hex.
  destruct (reg_put _ _ _ _) as [[[ok old] m] st3] eqn:E3.
  destruct (reg_put_spec _ _ _ _ _ _ _ _ _ _ (wo_exchanges_ok _ _ _ Hw) Hst2 E3) as (Hst3 & Hq3 & Hm3 & Ho3 & Hok).
  assert (Hqs : st_queues st3 = st_queues (w_store w)) by congruence.
  destruct ok; intros [= <- <- <-].
  - split_and!; [|done | done | intros Ha; destruct (Ho3 (Ho2 (Ho1 Ha))); by split_and! |].
    + eapply world_add_exchange; try done; [by rewrite Hex | apply Hok].
    + left. split_and!; try done; [apply Hok|]. exists (x_vhost ex). simpl. by rewrite Hex.
  - assert (Hf : exchange_free (Some ex) st3 = st3) by (rewrite Hex; done).
    split_and!; [|simpl; by rewrite Hf | done | naive_solver | right; split_and!; try done; [naive_solver | apply Hok]].
    apply world_ok_maps with w Rx F; try done; [apply Hw | apply Hok | simpl; by rewrite Hf |].
    unfold stored. simpl. rewrite Hf, Hqs. apply Hw.
Qed.

(** ** Binding *)

(** The broker after one exchange was changed. *)
Lemma world_set_exchange w Rx Rx' F e ex ex' st :
  world_ok w Rx F -> w_xobjs w !! e = Some ex -> (forall p, p ∈ binding_refs ex' -> p ∈ reg_refs w) ->
  store_ok st (reg_refs w ++ (binding_refs ex' ++ refs_of_bindings (delete e (w_xobjs w))) ++ Rx') F ->
  messages_of (st_queues st) ≡ₚ stored w ->
  world_ok (w <| w_store := st |> <| w_xobjs ::= <[e := ex']> |>) Rx' F.
Proof.
  intros [H1 H2 H3 H4 H5 H6 H7 H8 H9 H10] He Hb Hst Hm. constructor; simpl; try done.
  - intros x y Hx. apply lookup_insert_Some in Hx as [[<- <-]|[_ Hx]]; eauto.
  - intros k x Hx. apply lookup_insert_is_Some. destruct (decide (e = x)); [by left | right; eauto].
  - intros x y Hx. apply lookup_insert_Some in Hx as [[<- <-]|[_ Hx]]; eauto.
  - intros x y p Hx Hp. change (p ∈ reg_refs w).
    apply lookup_insert_Some in Hx as [[<- <-]|[_ Hx]]; [by apply Hb | by eapply H8].
  - unfold owned_refs. simpl. rewrite refs_of_bindings_insert, <- app_assoc. exact Hst.
  - unfold stored, msgs_ok. simpl. by rewrite Hm.
Qed.

Lemma bind_broker_spec vhost queue exchange rk w Rx F rc w' :
  world_ok w Rx F -> broker_bind vhost queue exchange rk w = (rc, w') ->
  world_ok w' Rx F /\ same_queues (w_store w) (w_store w') /\ w_queues w' = w_queues w /\ w_exchanges w' = w_exchanges w /\
  (ample (w_sys w) -> ample (w_sys w')) /\
  match pm_map (w_exchanges w) !! broker_vkey (Some vhost) (Some exchange),
        pm_map (w_queues w) !! broker_vkey (Some vhost) (Some queue) with
  | Some e, Some q => (ample (w_sys w) -> rc = 0) /\ (rc = 0 \/ rc = -1) /\
      exists ex ex', w_xobjs w !! e = Some ex /\ w_xobjs w' = <[e := ex']> (w_xobjs w) /\
        (x_name ex', x_vhost ex', x_type ex', x_flags ex') = (x_name ex, x_vhost ex, x_type ex, x_flags ex) /\
        forall b, b ∈ x_bindings ex' <-> b ∈ x_bindings ex \/ rc = 0 /\ b = Binding (default [] rk) q
  | _, _ => rc = -1 /\ w' = w
  end.
Proof.
  intros Hw. unfold broker_bind. rewrite !pm_get_spec by apply Hw.
  destruct (pm_map (w_exchanges w) !! _) as [e|] eqn:Ee; [|by intros [= <- <-]].
  destruct (pm_map (w_queues w) !! _) as [q|] eqn:Eq; [|by intros [= <- <-]].
  destruct (wo_exchanges _ _ _ Hw _ _ Ee) as [ex Hex]. rewrite Hex.
  assert (Hq : q ∈ reg_refs w) by (apply elem_of_reg_refs; eauto).
  destruct (exchange_bind ex rk q (w_store w)) as [[rc1 ex1] st1] eqn:Eb. intros [= <- <-].
  assert (Hst : store_ok (w_store w) (reg_refs w ++ (binding_refs ex ++ refs_of_bindings (delete e (w_xobjs w))) ++ Rx) F).
  { pose proof (wo_store _ _ _ Hw) as H. unfold owned_refs in H. by rewrite (refs_of_bindings_split _ _ _ Hex), <- app_assoc in H. }
  destruct (bind_spec ex rk q (w_store w) _ F rc1 ex1 st1 Hst ltac:(set_solver) Eb) as (_ & Ho & Hs & Hn & Hcase).
  assert (Hm : messages_of (st_queues st1) ≡ₚ stored w) by (by rewrite (same_queues_messages _ _ Hs)).
  assert (Hold : forall p, p ∈ binding_refs ex -> p ∈ reg_refs w) by (intros p Hp; by eapply wo_bound).
  destruct Hcase as [(-> & Hin & -> & ->)|[(-> & Hni & Hbs & Hst1)|(-> & Hnm & Hbs & Hst1)]].
  - split_and!; try done; [by eapply world_set_exchange | by left|]. exists ex, ex. split_and!; try done. naive_solver.
  - split_and!; try done.
    + eapply world_set_exchange; try done; unfold binding_refs in *; rewrite Hbs, fmap_app; [set_solver|].
      rewrite <- (app_assoc _ (bd_queue <$> [_])). simpl. rewrite <- (Permutation_middle (bd_queue <$> x_bindings ex)). simpl.
      by rewrite <- Permutation_middle.
    + by left.
    + exists ex, ex1. split_and!; try done. rewrite Hbs. set_solver.
  - split_and!; try done.
    + eapply world_set_exchange; try done; unfold binding_refs in *; by rewrite Hbs.
    + by right.
    + exists ex, ex1. split_and!; try done. rewrite Hbs. naive_solver.
Qed.

(** ** Deleting a queue *)

(** [ex'] is [ex] without its bindings to [q]. *)
Definition unbound (q : positive) (ex ex' : exchange) : Prop :=
  (x_name ex', x_vhost ex', x_type ex', x_flags ex') = (x_name ex, x_vhost ex, x_type ex, x_flags ex) /\
  x_bindings ex' ≡ₚ filter (fun b => bd_queue b <> q) (x_bindings ex).

Lemma unbind_cb_spec q w e ex Rx F :
  world_ok w Rx F -> q ∈ reg_refs w -> w_xobjs w !! e = Some ex ->
  let w' := unbind_queue_cb q w e in
  world_ok w' Rx F /\ same_queues (w_store w) (w_store w') /\
  (w_queues w', w_exchanges w', w_xnext w') = (w_queues w, w_exchanges w, w_xnext w) /\
  (ample (w_sys w) -> ample (w_sys w')) /\
  exists ex', w_xobjs w' = <[e := ex']> (w_xobjs w) /\ unbound q ex ex'.
Proof.
  intros Hw Hq He. unfold unbind_queue_cb. rewrite He.
  destruct (exchange_unbind_queue ex q (w_store w)) as [[n ex'] st] eqn:Eu.
  assert (Hst : store_ok (w_store w) (binding_refs ex ++ reg_refs w ++ refs_of_bindings (delete e (w_xobjs w)) ++ Rx) F).
  { pose proof (wo_store _ _ _ Hw) as H. unfold owned_refs in H. rewrite (refs_of_bindings_split _ _ _ He), <- !app_assoc in H.
    by rewrite app_assoc, (Permutation_app_comm (reg_refs w)), <- app_assoc in H. }
  destruct (unbind_spec ex q (w_store w) n ex' st _ F Hst Eu) as (Hst' & Hb & _ & Hs & Hn & _ & Ho).
  specialize (Hs ltac:(set_solver)). simpl. split_and!; try done; [|by exists ex'].
  apply world_set_exchange with Rx ex; try done.
  - intros p. unfold binding_refs. rewrite Hb. intros (b & -> & Hin)%list_elem_of_fmap.
    apply list_elem_of_filter in Hin as [_ Hin]. eapply wo_bound; [done | done |].
    unfold binding_refs. apply list_elem_of_fmap. by exists b.
  - rewrite <- app_assoc, app_assoc, (Permutation_app_comm (reg_refs w)), <- app_assoc. exact Hst'.
  - by rewrite (same_queues_messages _ _ Hs).
Qed.

Lemma unbound_twice q ex1 ex2 ex3 : unbound q ex1 ex2 -> unbound q ex2 ex3 -> unbound q ex1 ex3.
Proof.
  intros [H1 H2] [H3 H4]. split; [congruence|]. rewrite H4, H2. by rewrite list_filter_filter_l.
Qed.

Lemma unbind_all_spec q Rx F (l : list (bytes * positive)) : forall w,
  world_ok w Rx F -> q ∈ reg_refs w -> (forall kv, kv ∈ l -> is_Some (w_xobjs w !! kv.2)) ->
  let w' := foldl (fun w kv => unbind_queue_cb q w kv.2) w l in
  world_ok w' Rx F /\ same_queues (w_store w) (w_store w') /\
  (w_queues w', w_exchanges w', w_xnext w') = (w_queues w, w_exchanges w, w_xnext w) /\
  (ample (w_sys w) -> ample (w_sys w')) /\
  (forall e, match w_xobjs w !! e with
     | None => w_xobjs w' !! e = None
     | Some ex => exists ex', w_xobjs w' !! e = Some ex' /\ (unbound q ex ex' \/ ex' = ex /\ e ∉ l.*2)
     end).
Proof.
  induction l as [|[k e] l IH]; intros w Hw Hq Hl; simpl.
  { split_and!; try done. intros e. destruct (w_xobjs w !! e) as [ex|]; [|done]. exists ex. split; [done|]. right. set_solver. }
  destruct (Hl (k, e) ltac:(set_solver)) as [ex He]. simpl in He.
  destruct (unbind_cb_spec q w e ex Rx F Hw Hq He) as (Hw1 & Hs1 & Hr1 & Ho1 & ex1 & Hx1 & Hu1).
  set (w1 := unbind_queue_cb q w e) in *. injection Hr1 as Rq Rx1 Rn.
  assert (Hq1 : q ∈ reg_refs w1) by (unfold reg_refs; by rewrite Rq).
  destruct (IH w1 Hw1 Hq1) as (Hw2 & Hs2 & Hr2 & Ho2 & Hall).
  { intros kv Hkv. rewrite Hx1. apply lookup_insert_is_Some. destruct (decide (e = kv.2)); [by left | right].
    split; [done|]. apply Hl. set_solver. }
  split_and!; [done | intros x; by rewrite Hs2, Hs1 | congruence | auto |].
  intros e'. specialize (Hall e'). rewrite Hx1 in Hall. destruct (decide (e' = e)) as [->|Hne].
  - rewrite lookup_insert_eq in Hall. rewrite He. destruct Hall as (ex' & He' & [Hu|[-> _]]); [|by eauto].
    exists ex'. split; [done|]. left. by eapply unbound_twice.
  - rewrite lookup_insert_ne in Hall by done. destruct (w_xobjs w !! e') as [ex0|]; [|done].
    destruct Hall as (ex' & He' & [Hu|[-> Hni]]); [by eauto|]. exists ex0. split; [done|]. right. split; [done|]. set_solver.
Qed.

(** The walk over all the registered exchanges leaves no binding to [q]. *)
Lemma unbind_everywhere q w Rx F :
  world_ok w Rx F -> q ∈ reg_refs w ->
  let w' := foldl (fun w kv => unbind_queue_cb q w kv.2) w (pm_elems (w_exchanges w)) in
  world_ok w' Rx F /\ same_queues (w_store w) (w_store w') /\
  (w_queues w', w_exchanges w', w_xnext w') = (w_queues w, w_exchanges w, w_xnext w) /\
  (ample (w_sys w) -> ample (w_sys w')) /\ (q ∉ refs_of_bindings (w_xobjs w')) /\
  forall e ex, w_xobjs w !! e = Some ex -> exists ex', w_xobjs w' !! e = Some ex' /\ unbound q ex ex'.
Proof.
  intros Hw Hq. destruct (unbind_all_spec q Rx F (pm_elems (w_exchanges w)) w Hw Hq) as (Hw1 & Hs1 & Hr1 & Ho1 & Hall).
  { intros [k e] Hin. rewrite pm_elems_spec in Hin by apply Hw. apply elem_of_map_to_list in Hin. by eapply wo_exchanges. }
  set (w1 := foldl _ _ _) in *.
  assert (Hub : forall e ex, w_xobjs w !! e = Some ex -> exists ex', w_xobjs w1 !! e = Some ex' /\ unbound q ex ex').
  { intros e ex He. specialize (Hall e). rewrite He in Hall. destruct Hall as (ex' & He' & [Hu|[-> Hni]]); [by eauto|].
    destruct Hni. destruct (wo_registered _ _ _ Hw e ex He) as [k Hk]. apply list_elem_of_fmap. exists (k, e).
    split; [done|]. rewrite pm_elems_spec by apply Hw. by apply elem_of_map_to_list. }
  split_and!; try done.
  intros (e & ex' & He' & Hin)%elem_of_refs_of_bindings. specialize (Hall e).
  destruct (w_xobjs w !! e) as [ex|] eqn:He; [|congruence]. destruct (Hub e ex He) as (ex2 & He2 & _ & Hb).
  rewrite He' in He2. injection He2 as <-. unfold binding_refs in Hin. rewrite Hb in Hin.
  apply list_elem_of_fmap in Hin as (b & -> & Hin). apply list_elem_of_filter in Hin as [Hne _]. done.
Qed.

(** Taking a queue without bindings out of the registry. *)
Lemma world_remove_queue w Rx F k q m :
  world_ok w Rx F -> pm_map (w_queues w) !! k = Some q -> (q ∉ refs_of_bindings (w_xobjs w)) ->
  pm_ok m -> pm_map m = delete k (pm_map (w_queues w)) ->
  let w' := w <| w_queues := m |> <| w_store ::= qp_unref q |> in
  world_ok w' Rx F /\ (ample (w_sys w) -> ample (w_sys w')) /\
  forall p, p ∈ owned_refs w' ++ Rx -> view <$> st_queues (w_store w') !! p = view <$> st_queues (w_store w) !! p.
Proof.
  intros [H1 H2 H3 H4 H5 H6 H7 H8 H9 H10] Hk Hni Hm Hmap w'.
  assert (Hrefs : reg_refs w ≡ₚ q :: reg_refs w').
  { unfold reg_refs. simpl. rewrite Hmap. rewrite <- (insert_delete_id _ _ _ Hk) at 1.
    by rewrite map_to_list_insert by apply lookup_delete_eq. }
  assert (Hst : store_ok (w_store w) (q :: owned_refs w' ++ Rx) F).
  { unfold owned_refs in *. rewrite Hrefs in H9. exact H9. }
  destruct (qp_unref_ok _ _ _ _ Hst) as (Hst' & _ & Ho & Hc). split_and!; try done. constructor; simpl; try done.
  - intros k1 k2 p. rewrite Hmap, !lookup_delete_Some. naive_solver.
  - intros e ex p He Hp. specialize (H8 e ex p He Hp). rewrite Hrefs in H8. apply elem_of_cons in H8 as [->|]; [|done].
    destruct Hni. apply elem_of_refs_of_bindings. eauto.
  - unfold msgs_ok in *. rewrite Forall_forall in H10 |- *. intros x Hx. apply H10.
    apply elem_of_app in Hx as [Hx|Hx]; [|set_solver]. apply elem_of_app. left. by eapply unref_messages.
Qed.

Lemma delete_queue_spec vhost name if_unused if_empty w Rx F rc depth w' :
  world_ok w Rx F -> broker_delete_queue vhost name if_unused if_empty w = (rc, depth, w') ->
  let key := broker_vkey (Some vhost) (Some name) in
  world_ok w' Rx F /\ (ample (w_sys w) -> ample (w_sys w')) /\
  match pm_map (w_queues w) !! key with
  | None => rc = -1 /\ w' = w
  | Some q => exists qv, st_queues (w_store w) !! q = Some qv /\
      (rc = -2 /\ w' = w /\ if_unused = true /\ 0 < q_consumers qv \/
       rc = -3 /\ w' = w /\ (if_unused = true -> q_consumers qv <= 0) /\ if_empty = true /\ 0 < u32 (Z.of_nat (q_count qv)) \/
       rc = 0 /\ (if_unused = true -> q_consumers qv <= 0) /\ depth = u32 (Z.of_nat (q_count qv)) /\ (if_empty = true -> depth <= 0) /\
       pm_map (w_queues w') = delete key (pm_map (w_queues w)) /\ w_exchanges w' = w_exchanges w /\
       (q ∉ refs_of_bindings (w_xobjs w')) /\
       (forall p, p ∈ owned_refs w' ++ Rx -> view <$> st_queues (w_store w') !! p = view <$> st_queues (w_store w) !! p) /\
       (forall e ex, w_xobjs w !! e = Some ex -> exists ex', w_xobjs w' !! e = Some ex' /\ unbound q ex ex'))
  end.
Proof.
  intros Hw. unfold broker_delete_queue. rewrite pm_get_spec by apply Hw.
  destruct (pm_map (w_queues w) !! _) as [q|] eqn:Ek; [|by intros [= <- <- <-]].
  assert (Hq : q ∈ reg_refs w) by (apply elem_of_reg_refs; eauto).
  destruct (so_live _ _ _ (wo_store _ _ _ Hw) q) as [qv Hqv]; [unfold owned_refs; set_solver|].
  unfold at_queue. rewrite Hqv. unfold queue_consumer_count, queue_depth.
  destruct (if_unused && _) eqn:Eu.
  { intros [= <- <- <-]. split_and!; try done. exists qv. split; [done|]. left.
    apply andb_true_iff in Eu as [? ?%Z.ltb_lt]. done. }
  destruct (if_empty && _) eqn:Ee.
  { intros [= <- <- <-]. split_and!; try done. exists qv. split; [done|]. right; left.
    apply andb_true_iff in Ee as [? ?%Z.ltb_lt]. split_and!; try done. intros ->. by apply Z.ltb_ge. }
  destruct (unbind_everywhere q w Rx F Hw Hq) as (Hw1 & Hs1 & Hr1 & Ho1 & Hni & Hub).
  set (w1 := foldl _ _ _) in *. injection Hr1 as Rq Rx1 Rn.
  pose proof (pm_remove_spec (w_queues w1) (broker_vkey (Some vhost) (Some name)) ltac:(apply Hw1)) as Hrm.
  destruct (pm_remove _ _) as [v m]. destruct Hrm as (Hm & _ & Hmap). intros [= <- <- <-].
  destruct (world_remove_queue w1 Rx F (broker_vkey (Some vhost) (Some name)) q m) as (Hw2 & Ho2 & Hc2);
    [done | by rewrite Rq | done | done | done |].
  split_and!; [done | auto |]. exists qv. split; [done|]. right; right.
  apply andb_false_iff in Eu. apply andb_false_iff in Ee. split_and!; try done.
  - intros ->. destruct Eu as [|Eu]; [done|]. by apply Z.ltb_ge in Eu.
  - intros ->. destruct Ee as [|Ee]; [done|]. by apply Z.ltb_ge in Ee.
  - by rewrite <- Rq.
  - intros p Hp. rewrite (Hc2 p Hp). apply Hs1.
Qed.

(** ** Looking up, creating and freeing *)

Lemma get_queue_spec vhost name w Rx F r w' :
  world_ok w Rx F -> broker_get_queue vhost name w = (r, w') ->
  r = pm_map (w_queues w) !! broker_vkey (Some vhost) (Some name) /\
  world_ok w' (match r with Some q => q :: Rx | None => Rx end) F /\ same_regs w w' /\
  same_queues (w_store w) (w_store w') /\ w_sys w' = w_sys w.
Proof.
  intros Hw. unfold broker_get_queue. rewrite pm_get_spec by apply Hw.
  destruct (pm_map (w_queues w) !! _) as [q|] eqn:Ek; [|by intros [= <- <-]]. intros [= <- <-].
  assert (Hq : q ∈ owned_refs w ++ Rx).
  { unfold owned_refs. rewrite !elem_of_app. left. left. apply elem_of_reg_refs. eauto. }
  destruct (qp_ref_ok _ _ _ _ (wo_store _ _ _ Hw) Hq) as (Hst & Hsys & _ & Hs). split_and!; try done.
  eapply world_ok_regs; [done | done | |].
  - simpl. by rewrite <- Permutation_middle.
  - unfold stored. simpl. rewrite (same_queues_messages _ _ Hs). apply Hw.
Qed.

(** A client that drops its reference. *)
Lemma world_unref w q Rx F :
  world_ok w (q :: Rx) F -> q ∈ owned_refs w ++ Rx ->
  world_ok (w <| w_store ::= qp_unref q |>) Rx F /\ same_queues (w_store w) (qp_unref q (w_store w)).
Proof.
  intros Hw Hq. pose proof (wo_store _ _ _ Hw) as Hst. rewrite <- Permutation_middle in Hst.
  pose proof (unref_same_queues _ _ _ _ Hst Hq) as Hs. split; [|done].
  eapply world_ok_regs; [done | done | by apply (qp_unref_ok _ _ _ _ Hst) |].
  unfold stored. simpl. rewrite (same_queues_messages _ _ Hs). apply Hw.
Qed.

(** A queue updated in place. *)
Lemma world_set_queue w p q q' l Rx F :
  world_ok w Rx F -> st_queues (w_store w) !! p = Some q -> qinv q' l -> l = contents q ->
  q_refcount q' = q_refcount q -> q_congested q' = q_congested q ->
  world_ok (w <| w_store := Store (w_sys w) (<[p := q']> (st_queues (w_store w))) (st_next (w_store w)) |>) Rx F.
Proof.
  intros Hw Hq Hq' -> Hrc Hcg. eapply world_ok_regs; [done | done | |].
  - apply (store_replace _ _ q q' (w_sys w) _ F F (contents q)); try done; [apply Hw | unfold alarm_kept; by rewrite Hcg].
  - unfold stored, msgs_ok. simpl. rewrite messages_insert, (qinv_contents _ _ Hq'), <- (messages_split _ _ _ Hq). apply Hw.
Qed.

Lemma set_dead_letter_ok q dlx rk w Rx F :
  world_ok w Rx F -> q ∈ owned_refs w ++ Rx ->
  world_ok (broker_set_queue_dead_letter q dlx rk w) Rx F /\
  (ample (w_sys w) -> ample (w_sys (broker_set_queue_dead_letter q dlx rk w))).
Proof.
  intros Hw Hq. pose proof (wo_store _ _ _ Hw) as Hst. destruct (so_live _ _ _ Hst q Hq) as [qv Hqv].
  unfold broker_set_queue_dead_letter, on_queue. rewrite Hqv. unfold queue_set_dead_letter.
  assert (Hdup : forall x s ex s', strdup_nonempty x s = (ex, s') ->
    g_flow_alarm_count s' = g_flow_alarm_count s /\ (forall X, holds (s_heap s) X -> holds (s_heap s') X) /\ (ample s -> ample s')).
  { intros [[|c x]|] s ex s'; [by intros [= <- <-] | | by intros [= <- <-]]. unfold strdup_nonempty, strdup.
    destruct (s_malloc s) as [ok s1] eqn:Em. apply s_malloc_spec in Em as (Hl & Ha & Hh & Ho). intros [= <- <-].
    split_and!; [done | intros X HX; by apply Hh | apply Ho]. }
  destruct (strdup_nonempty dlx _) as [ex s1] eqn:E1. destruct (strdup_nonempty rk s1) as [rk1 s2] eqn:E2.
  apply Hdup in E1 as (A1 & A2 & A3). apply Hdup in E2 as (B1 & B2 & B3). simpl.
  set (q' := qv <| q_dl_exchange := ex |> <| q_dl_routing_key := rk1 |> <| q_dl_fn := _ |>).
  assert (Hq' : qinv q' (contents qv)) by (destruct (so_queues _ _ _ Hst _ _ Hqv); constructor; simpl; assumption).
  split; [|auto]. eapply world_ok_regs; [done | done | |].
  - apply (store_replace _ _ qv q' s2 _ F F (contents qv)); try done; [unfold alarm_kept; simpl; congruence|].
    intros X HX. auto.
  - unfold stored, msgs_ok. simpl. rewrite messages_insert, (qinv_contents _ _ Hq'), <- (messages_split _ _ _ Hqv). apply Hw.
Qed.

Lemma broker_new_spec st R F r st' :
  store_ok st R F -> msgs_ok (messages_of (st_queues st) ++ F) -> broker_new st = (r, st') ->
  (ample (st_sys st) -> r <> None) /\
  match r with
  | Some w => world_ok w R F /\ pm_map (w_queues w) = ∅ /\ pm_map (w_exchanges w) = ∅ /\ w_store w = st' /\
      same_queues st st' /\ (ample (st_sys st) -> ample (w_sys w))
  | None => store_ok st' R F
  end.
Proof.
  intros Hst Hh. unfold broker_new.
  destruct (st_malloc st) as [ok1 st1] eqn:E1. destruct (st_malloc_ok _ _ _ _ _ Hst E1) as (Hst1 & Hq1 & _ & Ho1).
  destruct ok1; [|intros [= <- <-]; split; [|done]; intros Ha; by destruct (Ho1 Ha)].
  destruct (st_malloc st1) as [ok2 st2] eqn:E2. destruct (st_malloc_ok _ _ _ _ _ Hst1 E2) as (Hst2 & Hq2 & _ & Ho2).
  destruct ok2; [|intros [= <- <-]; split; [|done]; intros Ha; destruct (Ho1 Ha) as [_ Ha1]; by destruct (Ho2 Ha1)].
  destruct pm_new_memory as [m0 Hm0].
  assert (Hmem : ample (st_sys st) -> h_oracle (s_heap (st_sys st2)) = [])
    by (intros Ha; destruct (Ho1 Ha) as [_ Ha1]; by destruct (Ho2 Ha1)).
  destruct (pm_new (h_oracle (s_heap (st_sys st2)))) as [qs o1] eqn:Eq. destruct (pm_new o1) as [xs o2] eqn:Ex.
  assert (Hr : ample (st_sys st) -> is_Some qs /\ is_Some xs /\ o2 = []).
  { intros Ha. rewrite (Hmem Ha), Hm0 in Eq. injection Eq as <- <-. rewrite Hm0 in Ex. injection Ex as <- <-. eauto. }
  pose proof (store_oracle st2 o2 R F Hst2) as Hst3.
  destruct qs as [qs|]; [|intros [= <- <-]; split; [|done]; intros Ha; by destruct (Hr Ha) as ([? ?] & _)].
  destruct xs as [xs|]; [|intros [= <- <-]; split; [|done]; intros Ha; by destruct (Hr Ha) as (_ & [? ?] & _)].
  pose proof (pm_new_ok _ qs (f_equal fst Eq)) as [Hqo Hqm]. pose proof (pm_new_ok _ xs (f_equal fst Ex)) as [Hxo Hxm].
  intros [= <- <-]. split; [done|]. simpl. split_and!; try done.
  - constructor; simpl; rewrite ?Hqm, ?Hxm; try done.
    + unfold owned_refs, reg_refs, refs_of_bindings. simpl. by rewrite Hqm, map_to_list_empty.
    + unfold stored. simpl. by rewrite Hq2, Hq1.
  - intros x. simpl. by rewrite Hq2, Hq1.
  - intros Ha. apply (Hr Ha).
Qed.

Lemma free_exchanges_ok A F (l : list (bytes * positive)) : forall w,
  store_ok (w_store w) (refs_of_bindings (w_xobjs w) ++ A) F -> NoDup l.*2 ->
  (forall e, e ∈ l.*2 -> is_Some (w_xobjs w !! e)) ->
  let w' := foldl (fun w kv => free_exchange_value w kv.2) w l in
  store_ok (w_store w') (refs_of_bindings (w_xobjs w') ++ A) F /\
  (w_queues w', w_exchanges w') = (w_queues w, w_exchanges w) /\
  forall e, w_xobjs w' !! e = if decide (e ∈ l.*2) then None else w_xobjs w !! e.
Proof.
  induction l as [|[k p] l IH]; intros w Hst Hnd Hl; cbn [foldl].
  { by split_and!. }
  cbn in Hnd. apply NoDup_cons in Hnd as [Hni Hnd]. destruct (Hl p) as [ex Hex]; [cbn; set_solver|].
  rewrite (refs_of_bindings_split _ _ _ Hex), <- app_assoc in Hst.
  destruct (exchange_free_ok ex (w_store w) _ F Hst) as (Hst1 & _ & _).
  set (w1 := (w <| w_store ::= exchange_free (Some ex) |>) <| w_xobjs ::= delete p |>).
  assert (free_exchange_value w (k, p).2 = w1) as -> by (unfold free_exchange_value, w1; cbn; by rewrite Hex).
  destruct (IH w1) as (Hst2 & Hr & Hx); [done | done | |].
  { intros e He. cbn. rewrite lookup_delete_ne by (intros ->; done). apply Hl. cbn. set_solver. }
  split_and!; [done | done |]. intros e. rewrite Hx. cbn [w_xobjs]. destruct (decide (e ∈ l.*2)) as [Hin|Hin].
  - by rewrite decide_True by (cbn; set_solver).
  - destruct (decide (e = p)) as [->|Hne]; [rewrite decide_True by (cbn; set_solver) | rewrite decide_False by (cbn; set_solver)].
    + apply lookup_delete_eq.
    + cbn. by rewrite lookup_delete_ne.
Qed.

Lemma free_queues_ok (l : list (bytes * positive)) : forall w,
  w_store (foldl (fun w kv => free_queue_value w kv.2) w l) = foldl (fun st p => qp_unref p st) (w_store w) l.*2 /\
  w_xobjs (foldl (fun w kv => free_queue_value w kv.2) w l) = w_xobjs w.
Proof. induction l as [|[k p] l IH]; intros w; [done|]. cbn. by destruct (IH (free_queue_value w p)). Qed.

Lemma broker_free_ok w Rx F :
  world_ok w Rx F -> store_ok (w_store (broker_free w)) Rx F /\ w_xobjs (broker_free w) = ∅.
Proof.
  intros Hw. pose proof (wo_store _ _ _ Hw) as Hst. unfold owned_refs in Hst.
  rewrite <- app_assoc, app_assoc, (Permutation_app_comm (reg_refs w)), <- app_assoc in Hst.
  pose proof (pm_elems_spec _ (wo_exchanges_ok _ _ _ Hw)) as Hxp. pose proof (pm_elems_spec _ (wo_queues_ok _ _ _ Hw)) as Hqp.
  assert (Hel : forall e, e ∈ (pm_elems (w_exchanges w)).*2 <-> exists k, pm_map (w_exchanges w) !! k = Some e).
  { intros e. rewrite Hxp, list_elem_of_fmap. split.
    - intros ([k e'] & -> & Hin). exists k. by apply elem_of_map_to_list.
    - intros [k Hk]. exists (k, e). split; [done|]. by apply elem_of_map_to_list. }
  destruct (free_exchanges_ok (reg_refs w ++ Rx) F (pm_elems (w_exchanges w)) w Hst) as (Hst1 & Hr & Hx).
  - rewrite Hxp. apply NoDup_fmap_2_strong; [|apply NoDup_map_to_list].
    intros [k1 e1] [k2 e2] H1%elem_of_map_to_list H2%elem_of_map_to_list [= <-]. f_equal. by eapply wo_exchange_inj.
  - intros e [k Hk]%Hel. by eapply wo_exchanges.
  - unfold broker_free. set (w1 := foldl _ w _) in *. injection Hr as Hq _.
    assert (Hx0 : w_xobjs w1 = ∅).
    { apply map_eq. intros e. rewrite Hx, lookup_empty. destruct (decide _) as [|Hni]; [done|].
      destruct (w_xobjs w !! e) as [ex|] eqn:He; [|done]. destruct Hni. apply Hel. by eapply wo_registered. }
    destruct (free_queues_ok (pm_elems (w_queues w1)) w1) as [-> ->]. split; [|done].
    rewrite Hx0 in Hst1. rewrite Hq. apply unref_list_ok. rewrite Hqp. exact Hst1.
Qed.

End Spec.

(** * A small broker *)

#[global] Instance demo_registry : PtrMap (hashmap positive) := hashmap_registry 7 11.

Definition demo_map : hashmap positive := Eval vm_compute in default (HashMap [] 0 0) (fst (hashmap_new [])).

Definition demo_empty : world (hashmap positive) := World empty_store demo_map demo_map ∅ 1 1 0 [].

Lemma demo_empty_new : broker_new empty_store = (Some demo_empty, empty_store).
Proof. vm_compute. reflexivity. Qed.

Lemma demo_empty_ok : world_ok demo_empty [] [].
Proof.
  by destruct (broker_new_spec empty_store [] [] (Some demo_empty) empty_store) as (_ & Hw & _);
    [apply empty_store_ok | apply Forall_nil_2 | apply demo_empty_new |].
Qed.

(** Two queues, a topic exchange and its bindings. *)
Definition demo_world : world (hashmap positive) :=
  let w := snd (broker_declare_queue (cstr "/") (cstr "orders") 0 demo_empty) in
  let w := snd (broker_declare_queue (cstr "/") (cstr "audit") 0 w) in
  let w := snd (broker_declare_exchange (cstr "/") (cstr "logs") EXCHANGE_TOPIC 0 w) in
  let w := snd (broker_bind (cstr "/") (cstr "orders") (cstr "logs") (Some (cstr "a.*")) w) in
  snd (broker_bind (cstr "/") (cstr "audit") (cstr "logs") (Some (cstr "#")) w).

Lemma declare_queue_ok {M : Type} `{!PtrMap M} `{!PtrMapLaws M} vhost name flags (w : world M) Rx F :
  world_ok w Rx F -> world_ok (snd (broker_declare_queue vhost name flags w)) Rx F.
Proof. intros Hw. destruct (broker_declare_queue _ _ _ w) as [[[rc d] c] w'] eqn:E. by eapply declare_queue_spec in E as [? _]. Qed.

Lemma declare_exchange_ok {M : Type} `{!PtrMap M} `{!PtrMapLaws M} vhost name type flags (w : world M) Rx F :
  world_ok w Rx F -> world_ok (snd (broker_declare_exchange vhost name type flags w)) Rx F.
Proof. intros Hw. destruct (broker_declare_exchange _ _ _ _ w) as [[rc c] w'] eqn:E. by eapply declare_exchange_spec in E as [? _]. Qed.

Lemma bind_ok {M : Type} `{!PtrMap M} `{!PtrMapLaws M} vhost q x rk (w : world M) Rx F :
  world_ok w Rx F -> world_ok (snd (broker_bind vhost q x rk w)) Rx F.
Proof. intros Hw. destruct (broker_bind _ _ _ _ w) as [rc w'] eqn:E. by eapply bind_broker_spec in E as [? _]. Qed.

Lemma demo_world_ok : world_ok demo_world [] [].
Proof.
  apply bind_ok, bind_ok, declare_exchange_ok, declare_queue_ok, declare_queue_ok, demo_empty_ok.
Qed.
