(* ===== verification/BrokerDelivery.v ===== *)
(** What publishing does: the broker's routes always finish, whatever the
    dead-letter topology, and deliver one copy to each matching queue. *)

From S2P Require Import Prelude HashMap Message Queue Store Exchange Broker BrokerRoute BrokerSpec.

(** * More fuel does not change a result *)

Section Fuel.
Context {M : Type} `{!PtrMap M}.
Implicit Types (w : world M).

Section Step.
Context (r1 r2 : bytes -> message -> world M -> option (Z * world M)).
Hypothesis Hr : forall vhost msg w x, r1 vhost msg w = Some x -> r2 vhost msg w = Some x.

Lemma dead_letter_cb_more src msg w w' :
  broker_dead_letter_cb r1 src msg w = Some w' -> broker_dead_letter_cb r2 src msg w = Some w'.
Proof.
  unfold broker_dead_letter_cb.
  destruct (st_queues _ !! _) as [q|]; [|done]. destruct (_ <=? _); [done|]. destruct (queue_dl_exchange q); [done|].
  destruct (message_new_full _ _ _ _ _) as [[dm|] h]; [|done].
  destruct (r1 _ _ _) as [[rc w1]|] eqn:E; [|done]. by rewrite (Hr _ _ _ _ E).
Qed.

Lemma dead_letter_one_more src msg w w' :
  dead_letter_one r1 src msg w = Some w' -> dead_letter_one r2 src msg w = Some w'.
Proof.
  unfold dead_letter_one. destruct (at_queue _ _ _ _); [|done].
  destruct (broker_dead_letter_cb r1 src msg w) as [w1|] eqn:E; [|done]. by rewrite (dead_letter_cb_more _ _ _ _ E).
Qed.

Lemma dead_letter_all_more src dl : forall w w',
  dead_letter_all r1 src dl w = Some w' -> dead_letter_all r2 src dl w = Some w'.
Proof.
  induction dl as [|m dl IH]; intros w w'; cbn [dead_letter_all]; [done|].
  destruct (dead_letter_one r1 src m w) as [w1|] eqn:E; [|done]. rewrite (dead_letter_one_more _ _ _ _ E). apply IH.
Qed.

Lemma queue_enqueue_more p msg w x : queue_enqueue r1 p msg w = Some x -> queue_enqueue r2 p msg w = Some x.
Proof.
  unfold queue_enqueue. destruct (on_queue _ _ _ _) as [[rc dl] st].
  destruct (dead_letter_all r1 _ _ _) as [w1|] eqn:E; [|done]. by rewrite (dead_letter_all_more _ _ _ _ E).
Qed.

Lemma deliver_all_more msg ts : forall routed failed w x,
  deliver_all r1 ts msg routed failed w = Some x -> deliver_all r2 ts msg routed failed w = Some x.
Proof.
  induction ts as [|p ts IH]; intros routed failed w x; cbn [deliver_all]; [done|].
  destruct (queue_enqueue r1 p msg w) as [[rc w1]|] eqn:E; [|done]. rewrite (queue_enqueue_more _ _ _ _ E).
  destruct (rc =? 0); apply IH.
Qed.
End Step.

Lemma broker_route_more n : forall vhost msg w x,
  broker_route n vhost msg w = Some x -> broker_route (S n) vhost msg w = Some x.
Proof.
  induction n as [|n IH]; intros vhost msg w x Hx; [done|]. cbn [broker_route] in Hx.
  remember (S n) as n1. cbn [broker_route]. destruct (route_targets _ _ _) as [[ts oom] w1]. destruct oom; [done|].
  destruct (deliver_all (broker_route n) _ _ _ _ _) as [[[routed failed] w2]|] eqn:E; [|done].
  subst n1. by rewrite (deliver_all_more _ _ IH _ _ _ _ _ _ E).
Qed.

Lemma broker_route_fuel n m vhost msg w x :
  (n <= m)%nat -> broker_route n vhost msg w = Some x -> broker_route m vhost msg w = Some x.
Proof. intros Hle Hx. induction Hle as [|m _ IH]; [done|]. by apply broker_route_more. Qed.
End Fuel.

(** * Delivery *)

Section Delivery.
Context {M : Type} `{!PtrMap M} `{!PtrMapLaws M}.
Implicit Types (w : world M).

(** The queues a message published to exchange [exn] with key [rk] is for. *)
Definition is_target w (vhost exn rk : bytes) (p : positive) : Prop :=
  match exn with
  | [] => pm_map (w_queues w) !! broker_vkey (Some vhost) (Some rk) = Some p
  | _ => exists e ex b, pm_map (w_exchanges w) !! broker_vkey (Some vhost) (Some exn) = Some e /\
           w_xobjs w !! e = Some ex /\ b ∈ x_bindings ex /\ bd_queue b = p /\ matches ex b rk
  end.

Lemma route_targets_elem vhost msg w R F ts oom w' :
  rstate w R F -> route_targets vhost msg w = (ts, oom, w') ->
  (forall p, p ∈ ts -> is_target w vhost (m_exchange msg) (m_routing_key msg) p) /\
  (ample (w_sys w) -> forall p, is_target w vhost (m_exchange msg) (m_routing_key msg) p -> p ∈ ts).
Proof.
  intros Hw. pose proof Hw as [Hst Hh [Hq Hx Hqr Hxr]]. unfold route_targets, is_target.
  destruct (m_exchange msg) as [|c exn].
  - rewrite pm_get_spec by done. destruct (pm_map (w_queues w) !! _) as [q|] eqn:Eq;
      [|intros [= <- <- <-]; split; [set_solver | done]].
    unfold w_malloc. destruct (st_malloc (w_store w)) as [ok st1] eqn:Em.
    destruct (st_malloc_ok _ _ _ _ _ Hst Em) as (_ & _ & _ & Ho1).
    destruct ok; intros [= <- <- <-]; split; [set_solver | set_solver | set_solver |].
    intros Ha. by destruct (Ho1 Ha).
  - rewrite pm_get_spec by done. destruct (pm_map (w_exchanges w) !! _) as [e|] eqn:Ee;
      [|intros [= <- <- <-]; split; [set_solver | naive_solver]].
    destruct (Hxr _ _ Ee) as (ex & Hex & Hbs). rewrite Hex.
    destruct (exchange_route ex _ (w_store w)) as [[ts1 oom1] st1] eqn:Er. intros [= <- <- <-].
    apply (route_spec _ _ _ R F) in Er as (_ & _ & _ & _ & _ & _ & A7 & A8); [|done..].
    split; [|naive_solver]. intros p (b & Hb & Hp & Hm)%A7. by exists e, ex, b.
Qed.

(** [msg] was appended to the queues [ts], and the others were left alone. *)
Definition delivered (ts : list positive) (msg : message) w w' : Prop :=
  forall x, view <$> st_queues (w_store w') !! x =
    (fun q => (if decide (x ∈ ts) then contents q ++ [msg] else contents q, q_config q)) <$> st_queues (w_store w) !! x.

Definition has_room w (msg : message) (p : positive) : Prop :=
  forall q, st_queues (w_store w) !! p = Some q -> p_over (policy_of (w_sys w) q) msg (contents q) = false.

Definition counters w := (w_next_msg_id w, w_messages_published w).

Lemma same_queues_delivered st st' w w' :
  w_store w = st -> w_store w' = st' -> same_queues st st' -> forall msg, delivered [] msg w w'.
Proof.
  intros <- <- Hs msg x. rewrite Hs. by destruct (st_queues (w_store w) !! x).
Qed.

Lemma enqueue_room route p msg w R F :
  rstate w R (msg :: F) -> p ∈ R -> ample (w_sys w) -> has_room w msg p ->
  exists w', queue_enqueue route p msg w = Some (0, w') /\ rstate w' R (msg :: F) /\ same_regs w w' /\ ample (w_sys w') /\
    delivered [p] msg w w' /\ s_limits (w_sys w') = s_limits (w_sys w) /\ counters w' = counters w /\
    w_wakeups w' = w_wakeups w.
Proof.
  intros Hw Hp Ha Hroom. unfold queue_enqueue. destruct (on_queue _ _ _ _) as [[rc dl] st] eqn:E.
  destruct (enqueue_locked_state p msg w R F rc dl st Hw Hp E) as (Hw1 & _ & Ho1 & q & q' & Hq & Hqs & He & Hf).
  specialize (Hroom q Hq).
  assert (Hres : rc = 0 /\ dl = [] /\ contents q' = contents q ++ [msg]) by (destruct He; by try congruence).
  destruct Hres as (-> & -> & Hc). eexists. split; [done|]. split_and!; try done; [by apply Ho1 | | apply Hf].
  intros x. simpl. rewrite Hqs. destruct (decide (x = p)) as [->|Hne].
  - rewrite lookup_insert_eq, Hq. simpl. rewrite decide_True by set_solver. unfold view.
    by rewrite Hc, (static_config _ _ (fr_static _ _ _ _ Hf)).
  - rewrite lookup_insert_ne by done. destruct (st_queues (w_store w) !! x); [|done]. simpl.
    by rewrite decide_False by set_solver.
Qed.

Definition waiters_of w (p : positive) : list (waiter * positive) :=
  (fun x => (x, p)) <$> at_queue [] p queue_wake_waiters (w_store w).

Lemma delivered_waiters ts msg w w' p : delivered ts msg w w' -> waiters_of w' p = waiters_of w p.
Proof.
  intros Hd. specialize (Hd p). unfold waiters_of, at_queue.
  destruct (st_queues (w_store w') !! p) as [q'|], (st_queues (w_store w) !! p) as [q|]; try done.
  simpl in Hd. apply Some_inj in Hd. apply (f_equal snd) in Hd. simpl in Hd. unfold q_config in Hd.
  unfold queue_wake_waiters. by injection Hd as _ _ _ _ _ _ _ _ _ -> _ _.
Qed.

Lemma delivered_room ts msg w w' p :
  delivered ts msg w w' -> s_limits (w_sys w') = s_limits (w_sys w) -> (p ∉ ts) -> has_room w msg p -> has_room w' msg p.
Proof.
  intros Hd Hl Hp Hr q' Hq'. specialize (Hd p). rewrite Hq' in Hd.
  destruct (st_queues (w_store w) !! p) as [q|] eqn:Hq; [|done]. simpl in Hd. rewrite decide_False in Hd by done.
  apply Some_inj in Hd. pose proof (f_equal fst Hd) as Hc. pose proof (f_equal snd Hd) as Hf. simpl in Hc, Hf.
  rewrite (config_policy _ _ _ _ Hf Hl), Hc. by apply Hr.
Qed.

Lemma delivered_trans ts1 ts2 msg w1 w2 w3 :
  (forall p, p ∈ ts1 -> p ∉ ts2) -> delivered ts1 msg w1 w2 -> delivered ts2 msg w2 w3 -> delivered (ts1 ++ ts2) msg w1 w3.
Proof.
  intros Hdis H1 H2 x. specialize (H1 x). specialize (H2 x). rewrite H2.
  destruct (st_queues (w_store w2) !! x) as [q2|], (st_queues (w_store w1) !! x) as [q1|]; try done.
  simpl in *. apply Some_inj in H1. pose proof (f_equal fst H1) as Hc. pose proof (f_equal snd H1) as Hf. simpl in Hc, Hf.
  rewrite Hf, Hc. repeat f_equal. destruct (decide (x ∈ ts1)) as [Hin|].
  - rewrite decide_False by auto. by rewrite decide_True by set_solver.
  - destruct (decide (x ∈ ts2)); [rewrite decide_True by set_solver | rewrite decide_False by set_solver]; done.
Qed.

Lemma deliver_all_room route msg R F ts : forall routed failed w,
  rstate w (ts ++ R) (msg :: F) -> NoDup ts -> (forall p, p ∈ ts -> p ∈ R) -> ample (w_sys w) ->
  (forall p, p ∈ ts -> has_room w msg p) ->
  exists w', deliver_all route ts msg routed failed w = Some ((routed + length ts)%nat, failed, w') /\
    rstate w' R (msg :: F) /\ same_regs w w' /\ ample (w_sys w') /\ delivered ts msg w w' /\ counters w' = counters w /\
    w_wakeups w' = w_wakeups w ++ (ts ≫= waiters_of w).
Proof.
  induction ts as [|p ts IH]; intros routed failed w Hw Hnd Hts Ha Hroom; cbn [deliver_all].
  { exists w. rewrite Nat.add_0_r, app_nil_r. split_and!; try done. }
  apply NoDup_cons in Hnd as [Hni Hnd].
  destruct (enqueue_room route p msg w (p :: ts ++ R) F Hw) as (w1 & -> & Hw1 & Hr1 & Ha1 & Hd1 & Hl1 & Hk1 & Hwk1);
    [set_solver | done | apply Hroom; set_solver |]. simpl.
  assert (Hp : p ∈ ts ++ R) by set_solver.
  destruct (rstate_unref_queue w1 p (ts ++ R) (msg :: F) Hw1 Hp) as (Hw2 & _ & Ho2).
  pose proof (unref_same_queues _ _ _ _ (rs_store _ _ _ Hw1) Hp) as Hs2.
  destruct (qp_unref_ok _ _ _ _ (rs_store _ _ _ Hw1)) as (_ & Hl2 & _ & _).
  set (w2 := (w1 <| w_wakeups ::= fun l => l ++ waiters_of w1 p |>) <| w_store ::= qp_unref p |>).
  assert (Hd2 : delivered [p] msg w w2).
  { apply (delivered_trans [p] [] msg w w1 w2); [set_solver | done | by eapply same_queues_delivered]. }
  destruct (IH (S routed) failed w2) as (w3 & E3 & Hw3 & Hr3 & Ha3 & Hd3 & Hk3 & Hwk3).
  - destruct Hw2 as [A1 A2 A3]. constructor; [done | done | by eapply routable_regs].
  - done.
  - set_solver.
  - by apply Ho2.
  - intros x Hx. eapply delivered_room; [done | by rewrite <- Hl1 | set_solver | apply Hroom; set_solver].
  - exists w3. unfold w2 in E3. unfold waiters_of in E3. rewrite E3. split_and!; try done.
    + by rewrite Nat.add_succ_r.
    + by eapply same_regs_trans.
    + apply (delivered_trans [p] ts msg w w2 w3); [set_solver | done | done].
    + by rewrite Hk3.
    + rewrite Hwk3. simpl. rewrite Hwk1, (delivered_waiters _ _ _ _ p Hd1), <- app_assoc. f_equal. f_equal.
      apply list_bind_ext; [|done]. intros x. by apply (delivered_waiters _ _ _ _ x Hd2).
Qed.

Lemma same_regs_target w w' vhost exn rk p : same_regs w w' -> is_target w' vhost exn rk p <-> is_target w vhost exn rk p.
Proof. intros [= Eq Ex Eo _]. unfold is_target. by rewrite Eq, Ex, Eo. Qed.

(** A route whose targets all have room for the message. *)
Lemma route_room fuel vhost msg w R F :
  rstate w R (msg :: F) -> ample (w_sys w) ->
  (forall p, is_target w vhost (m_exchange msg) (m_routing_key msg) p -> has_room w msg p) ->
  let msg' := msg <| m_id := w_next_msg_id w |> in
  exists ts w', broker_route (S fuel) vhost msg w = Some (Z.of_nat (length ts), w') /\
    NoDup ts /\ (forall p, p ∈ ts <-> is_target w vhost (m_exchange msg) (m_routing_key msg) p) /\
    rstate w' R (msg :: F) /\ same_regs w w' /\ ample (w_sys w') /\ delivered ts msg' w w' /\
    counters w' = (u64 (w_next_msg_id w + 1),
                   if decide (ts = []) then w_messages_published w else u64 (w_messages_published w + 1)) /\
    w_wakeups w' = w_wakeups w ++ (ts ≫= waiters_of w).
Proof.
  intros Hw Ha Hroom msg'. cbn [broker_route]. fold msg'.
  set (w0 := w <| w_next_msg_id ::= fun n => u64 (n + 1) |>).
  assert (Hw0 : rstate w0 R (msg' :: F)).
  { apply (rstate_same_message w0 R F msg msg'); [done | done | done |].
    destruct Hw as [A1 A2 A3]. constructor; [done | done | by apply routable_regs with w R]. }
  destruct (route_targets vhost msg' w0) as [[ts oom] w1] eqn:Et.
  destruct (route_targets_spec _ _ _ _ _ _ _ _ Hw0 Et) as (Hw1 & _ & Hr1 & Hnd & Hts & _ & Hk1 & Hl1 & Ho1 & Hs1).
  destruct (route_targets_elem _ _ _ _ _ _ _ _ Hw0 Et) as [Hin Hall].
  destruct (Ho1 Ha) as [Ha1 ->]. injection Hk1 as Kn Kp Kw.
  assert (Hd1 : delivered [] msg' w w1) by (by eapply same_queues_delivered).
  destruct (deliver_all_room (broker_route fuel) msg' R F ts 0 false w1 Hw1 Hnd Hts Ha1)
    as (w2 & -> & Hw2 & Hr2 & Ha2 & Hd2 & Hk2 & Hwk2).
  { intros p Hp. apply (delivered_room [] msg' w w1); [done | done | set_solver |]. by apply Hroom, Hin. }
  simpl. rewrite andb_false_r.
  assert (Hfin : forall w3, rstate w3 R (msg' :: F) -> rstate w3 R (msg :: F)) by (intros w3; by apply rstate_same_message).
  assert (Hdel : delivered ts msg' w w2) by (apply (delivered_trans [] ts msg' w w1 w2); [set_solver | done | done]).
  assert (Hwk : ts ≫= waiters_of w1 = ts ≫= waiters_of w)
    by (apply list_bind_ext; [|done]; intros x; by apply (delivered_waiters _ _ _ _ x Hd1)).
  rewrite Hwk, Kw in Hwk2. unfold counters in *. rewrite Kn, Kp in Hk2. injection Hk2 as Kn2 Kp2.
  eexists ts, _. split; [done|]. split_and!; [done | split; [apply Hin | by apply Hall] | | | | | |].
  - destruct ts; simpl; [by apply Hfin|]. destruct (Hfin _ Hw2) as [A1 A2 A3].
    constructor; [done | done | by apply routable_regs with w2 R].
  - destruct ts; by eapply same_regs_trans.
  - by destruct ts.
  - by destruct ts.
  - destruct ts; simpl; rewrite Kn2, Kp2; done.
  - by destruct ts.
Qed.

(** * Publishing *)

(** Fuel enough for any publish in this state, whatever the dead-letter topology:
    one more than the potential of the stored messages and of one fresh message
    for each queue. *)
Definition route_fuel w : nat :=
  let N := size (st_queues (w_store w)) in S (weight N (stored w) + N * S N ^ 8).

Lemma store_nq st R F : store_ok st R F -> nq R = size (st_queues st).
Proof.
  intros Hst. unfold nq. rewrite <- (size_dom (D := gset positive)). f_equal. apply set_eq. intros p.
  rewrite elem_of_list_to_set, elem_of_dom. split; [apply Hst|].
  intros [q Hq]. apply refs_to_pos. by apply (so_refs _ _ _ Hst p q).
Qed.

Lemma message_new_fields e k b p h m h' :
  message_new_full e k b p h = (Some m, h') ->
  m_exchange m = default [] e /\ m_routing_key m = default [] k /\ m_body m = b /\ m_dl_hops m = 0.
Proof.
  unfold message_new_full, h_malloc. destruct (malloc _) as [[] o]; [|done]. intros [= <- <-]. done.
Qed.

(** ** The result of a publish *)

Lemma deliver_all_count route msg ts : forall routed failed w routed' failed' w',
  deliver_all route ts msg routed failed w = Some (routed', failed', w') ->
  (routed <= routed' <= routed + length ts)%nat /\ (routed' = routed -> failed' = failed || bool_decide (ts <> [])).
Proof.
  induction ts as [|p ts IH]; intros routed failed w routed' failed' w'; cbn [deliver_all].
  - intros [= <- <- _]. split; [simpl; lia|]. by rewrite orb_false_r.
  - destruct (queue_enqueue route p msg w) as [[rc w1]|]; [|done]. destruct (rc =? 0); intros [H1 H2]%IH; simpl; (split; [lia|]); intros E; [lia|].
    rewrite H2 by lia. by rewrite orb_true_r.
Qed.

(** The number of queues that took the message; -1 when there were targets and none took
    it, or when memory was short. *)
Definition publish_result (mem : bool) (n : nat) (rc : Z) : Prop :=
  rc = -1 /\ (n <> 0%nat \/ mem = false) \/ rc = 0 /\ (n = 0%nat \/ mem = false) \/ 1 <= rc <= Z.of_nat n.

Lemma route_result mem fuel vhost msg w R F rc w' :
  rstate w R (msg :: F) -> (mem = true -> ample (w_sys w)) -> broker_route fuel vhost msg w = Some (rc, w') ->
  exists ts, NoDup ts /\ (forall p, p ∈ ts -> is_target w vhost (m_exchange msg) (m_routing_key msg) p) /\
    (mem = true -> forall p, is_target w vhost (m_exchange msg) (m_routing_key msg) p -> p ∈ ts) /\ publish_result mem (length ts) rc.
Proof.
  intros Hw Hm. destruct fuel as [|fuel]; [done|]. cbn [broker_route].
  set (msg' := msg <| m_id := w_next_msg_id w |>). set (w0 := w <| w_next_msg_id ::= fun n => u64 (n + 1) |>).
  assert (Hw0 : rstate w0 R (msg' :: F)).
  { apply (rstate_same_message w0 R F msg msg'); [done | done | done |]. destruct Hw as [A1 A2 A3]. constructor; [done | done | by apply routable_regs with w R]. }
  destruct (route_targets vhost msg' w0) as [[ts oom] w1] eqn:Et.
  destruct (route_targets_spec _ _ _ _ _ _ _ _ Hw0 Et) as (_ & _ & _ & Hnd & _ & _ & _ & _ & Ho & _).
  destruct (route_targets_elem _ _ _ _ _ _ _ _ Hw0 Et) as [He1 He2]. intros E. exists ts.
  split_and!; [done | exact He1 | intros Ht; exact (He2 (Hm Ht)) |]. unfold publish_result. destruct oom.
  - injection E as <- _. left. split; [done|]. right. destruct mem; [|done]. by destruct (Ho (Hm eq_refl)).
  - destruct (deliver_all _ ts msg' 0 false w1) as [[[routed failed] w2]|] eqn:Ed; [|done].
    apply deliver_all_count in Ed as [H1 H2]. simpl in H1, H2. destruct (Nat.eqb_spec routed 0) as [->|Hn]; cbn [andb] in E.
    + rewrite (H2 eq_refl) in E. destruct ts; simpl in E; injection E as <- _; [right; left; auto | left; split; [done | left; simpl; lia]].
    + injection E as <- _. right; right. lia.
Qed.

(** The steps of a publish around the route. *)
Lemma publish_steps vhost exn rk body w Rx F :
  world_ok w Rx F ->
  (exists w', world_ok w' Rx F /\ same_regs w w' /\ frame_kept w w' /\ ~ ample (w_sys w) /\
     forall fuel, broker_publish fuel vhost exn rk body w = Some (-1, w')) \/
  (exists msg w1, rstate w1 (owned_refs w ++ Rx) (msg :: F) /\ same_regs w w1 /\ (ample (w_sys w) -> ample (w_sys w1)) /\
     w1 = w_heap (fun _ => s_heap (w_sys w1)) w /\ m_exchange msg = default [] exn /\
     m_routing_key msg = default [] rk /\ m_body msg = body /\ m_dl_hops msg = 0 /\
     forall fuel, broker_publish fuel vhost exn rk body w =
       match broker_route fuel vhost msg w1 with
       | None => None
       | Some (routed, w2) => Some (routed, w_heap (message_unref (Some msg)) w2)
       end).
Proof.
  intros Hw. pose proof (world_rstate _ _ _ Hw) as Hr. unfold broker_publish.
  destruct (message_new _ _ _ _) as [dm h] eqn:En. unfold message_new in En.
  destruct (rstate_new _ _ _ _ _ _ _ _ _ Hr En) as (Hnew & Hs1 & Hr1 & Ho1).
  destruct dm as [msg|].
  - right. destruct (message_new_fields _ _ _ _ _ _ _ En) as (Hx & Hk & Hb & Hh).
    exists msg, (w_heap (fun _ => h) w). split_and!; try done; [|intros Ha; by apply Ho1].
    apply Hnew; [done | split; [by rewrite Hh | by rewrite (message_new_cid _ _ _ _ _ _ _ En)]].
  - left. exists (w_heap (fun _ => h) w). split_and!; try done; [by eapply rstate_world | by apply same_queues_frame|].
    intros Ha. by destruct (Ho1 Ha).
Qed.

Lemma publish_codes mem vhost exn rk body w Rx F fuel rc w' :
  world_ok w Rx F -> (mem = true -> ample (w_sys w)) -> broker_publish fuel vhost exn rk body w = Some (rc, w') ->
  exists ts, NoDup ts /\ (forall p, p ∈ ts -> is_target w vhost (default [] exn) (default [] rk) p) /\
    (mem = true -> forall p, is_target w vhost (default [] exn) (default [] rk) p -> p ∈ ts) /\ publish_result mem (length ts) rc.
Proof.
  intros Hw Hm. destruct (publish_steps vhost exn rk body w Rx F Hw) as
    [(w1 & _ & _ & _ & Hn & Hpub)|(msg & w1 & Hw1 & Hr1 & Ho1 & Hst & Hx & Hk & Hb & Hh & Hpub)]; rewrite Hpub.
  - intros [= <- _]. exists []. assert (mem = false) as -> by (destruct mem; [by destruct (Hn (Hm eq_refl)) | done]).
    split_and!; [constructor | set_solver | done | left; auto].
  - destruct (broker_route fuel vhost msg w1) as [[rc1 w2]|] eqn:E; [|done]. intros [= <- _].
    destruct (route_result mem fuel vhost msg w1 _ _ _ _ Hw1 ltac:(auto) E) as (ts & Hnd & H1 & H2 & H3).
    rewrite Hx, Hk in H1, H2. exists ts. split_and!; [done | | | done].
    + intros p Hp. by apply (same_regs_target w w1), H1.
    + intros Ht p Hp. by apply H2, (same_regs_target w w1).
Qed.

Lemma publish_good vhost exn rk body w Rx F :
  world_ok w Rx F ->
  exists rc w', (forall fuel, (route_fuel w <= fuel)%nat -> broker_publish fuel vhost exn rk body w = Some (rc, w')) /\
    world_ok w' Rx F /\ same_regs w w' /\ frame_kept w w' /\ (ample (w_sys w) -> ample (w_sys w')).
Proof.
  intros Hw. destruct (publish_steps vhost exn rk body w Rx F Hw) as
    [(w1 & Hw1 & Hr1 & Hc1 & Hn & Hpub)|(msg & w1 & Hw1 & Hr1 & Ho1 & Hst & Hx & Hk & Hb & Hh & Hpub)].
  { exists (-1), w1. split_and!; done. }
  pose proof (store_nq _ _ _ (wo_store _ _ _ Hw)) as HN.
  assert (Hwt : wt (nq (owned_refs w ++ Rx)) msg = (S (nq (owned_refs w ++ Rx)) ^ 8)%nat) by (unfold wt; by rewrite Hh).
  assert (Hs : stored w1 = stored w) by (by rewrite Hst).
  destruct (broker_route_good (route_fuel w) vhost msg w1 _ _ Hw1) as (rc & w2 & Hroute & Hw2 & Hr2 & Hg2 & _ & Ho2).
  { rewrite Hwt, Hs. unfold route_fuel. rewrite HN. lia. }
  destruct (rstate_unref w2 msg _ F Hw2) as (Hw3 & _ & Hr3 & Ho3).
  exists rc, (w_heap (message_unref (Some msg)) w2).
  assert (Hr : same_regs w (w_heap (message_unref (Some msg)) w2)) by (by eapply same_regs_trans, same_regs_trans).
  split_and!; [|by eapply rstate_world | done | | auto].
  2:{ rewrite Hst in Hg2. exact Hg2. }
  intros fuel Hf. by rewrite Hpub, (broker_route_fuel _ _ _ _ _ _ Hf Hroute).
Qed.

(** C16: publishing terminates and keeps the broker's invariant.  Whatever the
    bindings, limits and dead-letter targets, a publish returns: every fuel from
    [route_fuel] on gives the same result, the registries
    and the configuration of the queues are unchanged, and every
    reference to every queue and message is still accounted for. *)
Theorem publish_total vhost exn rk body w Rx F :
  world_ok w Rx F ->
  exists rc w', (forall fuel, (route_fuel w <= fuel)%nat -> broker_publish fuel vhost exn rk body w = Some (rc, w')) /\
    world_ok w' Rx F /\ same_regs w w' /\ same_config w w' /\ (ample (w_sys w) -> ample (w_sys w')).
Proof.
  intros Hw. destruct (publish_good vhost exn rk body w Rx F Hw) as (rc & w' & H1 & H2 & H3 & [H4 _] & H5). by exists rc, w'.
Qed.

(** C8: a publish reaches exactly the matching queues.  When memory suffices and
    every target has room under its limits, the message is appended once to each
    queue whose binding (or, for the default exchange, name) matches and to no
    other; the result is their number, the waiters of each of them are woken, and
    the publish counter moves exactly when there was a target. *)
Theorem publish_delivers vhost exn rk body w Rx F fuel :
  world_ok w Rx F -> ample (w_sys w) -> (0 < fuel)%nat ->
  (forall p msg, is_target w vhost (default [] exn) (default [] rk) p -> m_body msg = body -> has_room w msg p) ->
  exists ts msg w', broker_publish fuel vhost exn rk body w = Some (Z.of_nat (length ts), w') /\
    NoDup ts /\ (forall p, p ∈ ts <-> is_target w vhost (default [] exn) (default [] rk) p) /\
    m_exchange msg = default [] exn /\ m_routing_key msg = default [] rk /\ m_body msg = body /\
    m_id msg = w_next_msg_id w /\ delivered ts msg w w' /\
    w_wakeups w' = w_wakeups w ++ (ts ≫= waiters_of w) /\
    w_messages_published w' = (if decide (ts = []) then w_messages_published w else u64 (w_messages_published w + 1)) /\
    world_ok w' Rx F /\ ample (w_sys w').
Proof.
  intros Hw Ha Hf Hroom. destruct fuel as [|fuel]; [lia|].
  destruct (publish_steps vhost exn rk body w Rx F Hw) as
    [(w1 & _ & _ & _ & Hn & _)|(msg & w1 & Hw1 & Hr1 & Ho1 & Hst & Hx & Hk & Hb & Hh & Hpub)]; [done|].
  assert (Htg : forall p, is_target w1 vhost (m_exchange msg) (m_routing_key msg) p <->
    is_target w vhost (default [] exn) (default [] rk) p).
  { intros p. rewrite Hx, Hk. by apply same_regs_target. }
  destruct (route_room fuel vhost msg w1 _ _ Hw1 (Ho1 Ha)) as (ts & w2 & Hroute & Hnd & Hts & Hw2 & Hr2 & Ha2 & Hd & Hk2 & Hwk).
  { intros p Hp%Htg. specialize (Hroom p msg Hp Hb). rewrite Hst. exact Hroom. }
  destruct (rstate_unref w2 msg _ F Hw2) as (Hw3 & _ & Hr3 & Ho3).
  exists ts, (msg <| m_id := w_next_msg_id w1 |>), (w_heap (message_unref (Some msg)) w2).
  rewrite Hpub, Hroute. rewrite Hst in Hwk, Hk2, Hd.
  split_and!; try done; [intros p; by rewrite Hts | by rewrite Hst | by rewrite Hst | | | auto].
  - injection Hk2 as _ Hp. exact Hp.
  - eapply rstate_world; [done | by eapply same_regs_trans, same_regs_trans | done].
Qed.

End Delivery.

(** * Witnesses *)

Lemma publish_total_witness :
  exists w', broker_publish (route_fuel demo_world) (cstr "/") (Some (cstr "logs")) (Some (cstr "a.b")) [1; 2] demo_world
    = Some (2, w') /\ world_ok w' [] [].
Proof.
  destruct (publish_total (cstr "/") (Some (cstr "logs")) (Some (cstr "a.b")) [1; 2] demo_world [] [] demo_world_ok)
    as (rc & w' & Hrun & Hw & _).
  specialize (Hrun (route_fuel demo_world) (le_n _)).
  assert (Hrc : fst <$> broker_publish (route_fuel demo_world) (cstr "/") (Some (cstr "logs")) (Some (cstr "a.b")) [1; 2] demo_world
    = Some 2) by (vm_compute; reflexivity).
  exists w'. split; [|exact Hw]. rewrite Hrun in Hrc |- *. injection Hrc as ->. reflexivity.
Defined.

Lemma demo_unlimited p msg : has_room demo_world msg p.
Proof.
  assert (Hall : map_Forall (fun _ q => policy_of (w_sys demo_world) q = Policy 0 0 QUEUE_OVERFLOW_REJECT_PUBLISH false)
    (st_queues (w_store demo_world))).
  { apply map_Forall_to_list. vm_compute. repeat constructor. }
  intros q Hq. by rewrite (Hall p q Hq).
Qed.

Lemma publish_delivers_witness :
  exists (ts : list positive) w', broker_publish 1 (cstr "/") (Some (cstr "logs")) (Some (cstr "x.y")) [7] demo_world = Some (Z.of_nat (length ts), w') /\
    length ts = 1%nat /\ world_ok w' [] [].
Proof.
  destruct (publish_delivers (cstr "/") (Some (cstr "logs")) (Some (cstr "x.y")) [7] demo_world [] [] 1)
    as (ts & msg & w' & Hrun & _ & _ & _ & _ & _ & _ & _ & _ & _ & Hw & _).
  - exact demo_world_ok.
  - vm_compute. reflexivity.
  - lia.
  - intros p msg _ _. apply demo_unlimited.
  - exists ts, w'. split; [exact Hrun|]. split; [|exact Hw].
    assert (Hrc : fst <$> broker_publish 1 (cstr "/") (Some (cstr "logs")) (Some (cstr "x.y")) [7] demo_world = Some 1)
      by (vm_compute; reflexivity).
    rewrite Hrun in Hrc. injection Hrc as Hlen. lia.
Defined.
