(* ===== verification/BrokerRefine.v ===== *)
(** The broker against its abstract specification: a namespace of queues, exchanges
    and bindings.

    [bop] are the calls the protocol layer makes of src/src/broker.c (the
    operations on a named queue look it up, use it and drop the reference, as
    src/src/protocol.c does), [bstep] runs one of them and [astep] says what it
    does to the namespace.  Every sequence of calls keeps the broker's invariant
    and refines a sequence of abstract steps. *)

From S2P Require Import Prelude HashMap Message Queue Store Exchange Broker BrokerRoute BrokerSpec BrokerDelivery.

(** * The abstract broker *)

Inductive bop :=
| BDeclareQueue (vhost name : bytes) (flags : Z)
| BDeclareExchange (vhost name : bytes) (type : exchange_type_t) (flags : Z)
| BBind (vhost queue exchange : bytes) (routing_key : option bytes)
| BDeleteQueue (vhost name : bytes) (if_unused if_empty : bool)
| BSetLimits (vhost name : bytes) (max_length max_bytes : Z) (overflow : queue_overflow_t)
| BSetDeadLetter (vhost name : bytes) (dlx dl_rkey : option bytes)
| BPublish (vhost : bytes) (exchange routing_key : option bytes) (body : bytes).

(** What the namespace knows of a queue; limits of 0 are those of the server. *)
Record aqueue := AQueue {
  aq_flags : Z;
  aq_limits : Z * Z * queue_overflow_t;
  aq_dead_letter : option bytes * option bytes;
  aq_consumers : Z;
  aq_depth : Z
}.

#[global] Instance aqueue_settable : Settable aqueue := fun q => AQueue (aq_flags q) (aq_limits q) (aq_dead_letter q) (aq_consumers q) (aq_depth q).

(** Queues, exchanges with their type and flags, and the bindings (exchange, routing
    key, queue), all by registry key. *)
Record abroker := ABroker {
  a_queues : gmap bytes aqueue;
  a_exchanges : gmap bytes (exchange_type_t * Z);
  a_bindings : gset (bytes * bytes * bytes)
}.

Definition akey (vhost name : bytes) : bytes := broker_vkey (Some vhost) (Some name).

Definition set_queue (k : bytes) (q : aqueue) (a : abroker) : abroker := ABroker (<[k := q]> (a_queues a)) (a_exchanges a) (a_bindings a).

(** What a binding with the key [pattern] matches in an exchange of type [t]. *)
Definition key_matches (t : exchange_type_t) (pattern rk : bytes) : Prop :=
  match t with
  | EXCHANGE_FANOUT => True
  | EXCHANGE_DIRECT => pattern = rk
  | EXCHANGE_TOPIC => topic_match (cut_words [] pattern) (cut_words [] rk)
  | EXCHANGE_OTHER _ => False
  end.

(** The queues that a message published to [x] with key [rk] is for. *)
Definition a_target (a : abroker) (v x rk k : bytes) : Prop :=
  match x with
  | [] => k = akey v rk /\ is_Some (a_queues a !! k)
  | _ => exists t f pattern, a_exchanges a !! akey v x = Some (t, f) /\ (akey v x, pattern, k) ∈ a_bindings a /\ key_matches t pattern rk
  end.

(** The copy of an optional name; an empty one counts as none. *)
Definition nonempty (s : option bytes) : option bytes := match s with Some (_ :: _) => s | _ => None end.
Definition copied (mem : bool) (s d : option bytes) : Prop := d = nonempty s \/ mem = false /\ d = None.

Definition new_aqueue (flags : Z) : aqueue := AQueue flags (0, 0, QUEUE_OVERFLOW_REJECT_PUBLISH) (None, None) 0 0.
Definition drop_bindings (k : bytes) (bs : gset (bytes * bytes * bytes)) := filter (fun b => b.2 <> k) bs.

(** One abstract step with its result code.  With [mem], no allocation fails; without,
    the step may also fail for lack of memory and then leaves the namespace alone. *)
Inductive astep (mem : bool) (a : abroker) : bop -> Z -> abroker -> Prop :=
| a_declare_queue v n f :
    a_queues a !! akey v n = None -> astep mem a (BDeclareQueue v n f) 0 (set_queue (akey v n) (new_aqueue f) a)
| a_declare_queue_fails v n f : mem = false -> a_queues a !! akey v n = None -> astep mem a (BDeclareQueue v n f) (-1) a
| a_redeclare_queue v n f q :
    a_queues a !! akey v n = Some q -> astep mem a (BDeclareQueue v n f) (if aq_flags q =? f then 0 else -2) a
| a_declare_exchange v n t f :
    a_exchanges a !! akey v n = None ->
    astep mem a (BDeclareExchange v n t f) 0 (ABroker (a_queues a) (<[akey v n := (t, f)]> (a_exchanges a)) (a_bindings a))
| a_declare_exchange_fails v n t f : mem = false -> a_exchanges a !! akey v n = None -> astep mem a (BDeclareExchange v n t f) (-1) a
| a_redeclare_exchange v n t f tf :
    a_exchanges a !! akey v n = Some tf ->
    astep mem a (BDeclareExchange v n t f) (if bool_decide (tf = (t, f)) then 0 else -2) a
| a_bind v q x rk :
    is_Some (a_exchanges a !! akey v x) -> is_Some (a_queues a !! akey v q) ->
    astep mem a (BBind v q x rk) 0
      (ABroker (a_queues a) (a_exchanges a) ({[ (akey v x, default [] rk, akey v q) ]} ∪ a_bindings a))
| a_bind_fails v q x rk :
    mem = false -> is_Some (a_exchanges a !! akey v x) -> is_Some (a_queues a !! akey v q) -> astep mem a (BBind v q x rk) (-1) a
| a_bind_missing v q x rk :
    a_exchanges a !! akey v x = None \/ a_queues a !! akey v q = None -> astep mem a (BBind v q x rk) (-1) a
| a_delete_missing v n iu ie : a_queues a !! akey v n = None -> astep mem a (BDeleteQueue v n iu ie) (-1) a
| a_delete_in_use v n ie q :
    a_queues a !! akey v n = Some q -> 0 < aq_consumers q -> astep mem a (BDeleteQueue v n true ie) (-2) a
| a_delete_not_empty v n iu q :
    a_queues a !! akey v n = Some q -> (iu = true -> aq_consumers q <= 0) -> 0 < aq_depth q -> astep mem a (BDeleteQueue v n iu true) (-3) a
| a_delete v n iu ie q :
    a_queues a !! akey v n = Some q -> (iu = true -> aq_consumers q <= 0) -> (ie = true -> aq_depth q <= 0) ->
    astep mem a (BDeleteQueue v n iu ie) 0
      (ABroker (delete (akey v n) (a_queues a)) (a_exchanges a) (drop_bindings (akey v n) (a_bindings a)))
| a_set_limits_missing v n ml mb ov : a_queues a !! akey v n = None -> astep mem a (BSetLimits v n ml mb ov) (-1) a
| a_set_dead_letter_missing v n dlx rk : a_queues a !! akey v n = None -> astep mem a (BSetDeadLetter v n dlx rk) (-1) a
| a_set_limits v n ml mb ov q :
    a_queues a !! akey v n = Some q ->
    astep mem a (BSetLimits v n ml mb ov) 0 (set_queue (akey v n) (q <| aq_limits := (ml, mb, ov) |>) a)
| a_set_dead_letter v n dlx rk q d r :
    a_queues a !! akey v n = Some q -> copied mem dlx d -> copied mem rk r ->
    astep mem a (BSetDeadLetter v n dlx rk) 0 (set_queue (akey v n) (q <| aq_dead_letter := (d, r) |>) a)
| a_publish v x rk b rc ts qs :
    NoDup ts -> (forall k, k ∈ ts -> a_target a v (default [] x) (default [] rk) k) ->
    (mem = true -> forall k, a_target a v (default [] x) (default [] rk) k -> k ∈ ts) -> publish_result mem (length ts) rc ->
    (forall k, (fun q => q <| aq_depth := 0 |>) <$> qs !! k = (fun q => q <| aq_depth := 0 |>) <$> a_queues a !! k) ->
    astep mem a (BPublish v x rk b) rc (ABroker qs (a_exchanges a) (a_bindings a)).

(** A sequence of abstract steps. *)
Inductive asteps (mem : bool) : abroker -> list bop -> list Z -> abroker -> Prop :=
| asteps_nil a : asteps mem a [] [] a
| asteps_cons a op rc a1 ops rcs a2 :
    astep mem a op rc a1 -> asteps mem a1 ops rcs a2 -> asteps mem a (op :: ops) (rc :: rcs) a2.

(** * The calls on the broker *)

Section Refine.
Context {M : Type} `{!PtrMap M} `{!PtrMapLaws M}.
Implicit Types (w : world M) (a : abroker).

(** Look the queue up, use it, drop the reference. *)
Definition with_queue (v n : bytes) (f : positive -> world M -> world M) w : Z * world M :=
  let '(r, w) := broker_get_queue v n w in
  match r with
  | None => (-1, w)
  | Some q => (0, (f q w) <| w_store ::= qp_unref q |>)
  end.

Definition set_limits_at (ml mb : Z) (ov : queue_overflow_t) (q : positive) w : world M :=
  let '(_, st) := on_queue tt q (fun q s => (tt, queue_set_limits ml mb ov q, s)) (w_store w) in
  w <| w_store := st |>.

Definition bstep (op : bop) w : option (Z * world M) :=
  match op with
  | BDeclareQueue v n f => let '(rc, _, _, w) := broker_declare_queue v n f w in Some (rc, w)
  | BDeclareExchange v n t f => let '(rc, _, w) := broker_declare_exchange v n t f w in Some (rc, w)
  | BBind v q x rk => Some (broker_bind v q x rk w)
  | BDeleteQueue v n iu ie => let '(rc, _, w) := broker_delete_queue v n iu ie w in Some (rc, w)
  | BSetLimits v n ml mb ov => Some (with_queue v n (set_limits_at ml mb ov) w)
  | BSetDeadLetter v n dlx rk => Some (with_queue v n (fun q => broker_set_queue_dead_letter q dlx rk) w)
  | BPublish v x rk b => broker_publish (route_fuel w) v x rk b w
  end.

Fixpoint bsteps (ops : list bop) w : option (list Z * world M) :=
  match ops with
  | [] => Some ([], w)
  | op :: ops =>
      match bstep op w with
      | None => None
      | Some (rc, w) =>
          match bsteps ops w with Some (rcs, w) => Some (rc :: rcs, w) | None => None end
      end
  end.

(** * The abstraction *)

Definition aqueue_of (q : queue) : aqueue :=
  AQueue (q_flags q) (q_max_length q, q_max_bytes q, q_overflow q) (q_dl_exchange q, q_dl_routing_key q) (q_consumers q)
    (u32 (Z.of_nat (length (contents q)))).

Record abs w a : Prop := Abs {
  abs_queues : forall k, a_queues a !! k = pm_map (w_queues w) !! k ≫= (fun p => aqueue_of <$> st_queues (w_store w) !! p);
  abs_exchanges : forall k,
    a_exchanges a !! k = pm_map (w_exchanges w) !! k ≫= (fun e => (fun ex => (x_type ex, x_flags ex)) <$> w_xobjs w !! e);
  abs_bindings : forall ek rk qk, (ek, rk, qk) ∈ a_bindings a <->
    exists e ex q, pm_map (w_exchanges w) !! ek = Some e /\ w_xobjs w !! e = Some ex /\
      Binding rk q ∈ x_bindings ex /\ pm_map (w_queues w) !! qk = Some q
}.

Lemma registered_live w Rx F k p :
  world_ok w Rx F -> pm_map (w_queues w) !! k = Some p -> p ∈ owned_refs w ++ Rx /\ is_Some (st_queues (w_store w) !! p).
Proof.
  intros Hw Hk. assert (Hp : p ∈ owned_refs w ++ Rx).
  { unfold owned_refs. rewrite !elem_of_app. left. left. apply elem_of_reg_refs. eauto. }
  split; [done|]. by apply (so_live _ _ _ (wo_store _ _ _ Hw)).
Qed.

Lemma abs_queue_none w a Rx F k :
  world_ok w Rx F -> abs w a -> a_queues a !! k = None <-> pm_map (w_queues w) !! k = None.
Proof.
  intros Hw Ha. rewrite (abs_queues _ _ Ha). destruct (pm_map (w_queues w) !! k) as [p|] eqn:Ek; [|done].
  destruct (registered_live _ _ _ _ _ Hw Ek) as [_ [q Hq]]. simpl. by rewrite Hq.
Qed.

Lemma abs_exchange_none w a Rx F k :
  world_ok w Rx F -> abs w a -> a_exchanges a !! k = None <-> pm_map (w_exchanges w) !! k = None.
Proof.
  intros Hw Ha. rewrite (abs_exchanges _ _ Ha). destruct (pm_map (w_exchanges w) !! k) as [e|] eqn:Ek; [|done].
  destruct (wo_exchanges _ _ _ Hw _ _ Ek) as [ex Hex]. simpl. by rewrite Hex.
Qed.

Lemma abs_queue_some w a Rx F k p :
  world_ok w Rx F -> abs w a -> pm_map (w_queues w) !! k = Some p ->
  exists q, st_queues (w_store w) !! p = Some q /\ a_queues a !! k = Some (aqueue_of q) /\ aq_depth (aqueue_of q) = u32 (Z.of_nat (q_count q)).
Proof.
  intros Hw Ha Hk. destruct (registered_live _ _ _ _ _ Hw Hk) as [_ [q Hq]]. exists q. rewrite (abs_queues _ _ Ha), Hk. simpl. rewrite Hq. split_and!; [done | done |].
  unfold aqueue_of. simpl. by rewrite <- (ring_count (qi_ring _ _ (so_queues _ _ _ (wo_store _ _ _ Hw) _ _ Hq))).
Qed.

(** Steps that leave the namespace alone. *)
Lemma view_aqueue (x y : option queue) : view <$> x = view <$> y -> aqueue_of <$> x = aqueue_of <$> y.
Proof.
  destruct x, y; try done. simpl. intros [= Hc H1 H2 H3 H4 H5 H6 H7 H8]. unfold aqueue_of. congruence.
Qed.

Lemma abs_keep w w' a :
  abs w a -> pm_map (w_queues w') = pm_map (w_queues w) -> pm_map (w_exchanges w') = pm_map (w_exchanges w) ->
  w_xobjs w' = w_xobjs w -> same_queues (w_store w) (w_store w') -> abs w' a.
Proof.
  intros [H1 H2 H3] Eq Ex Eo Hf. constructor.
  - intros k. rewrite H1, Eq. destruct (pm_map (w_queues w) !! k) as [p|] eqn:Ek; [|done]. simpl. symmetry. apply view_aqueue, Hf.
  - intros k. by rewrite H2, Ex, Eo.
  - intros ek rk qk. by rewrite H3, Ex, Eo, Eq.
Qed.

(** * Each call refines its abstract step *)

Definition refines mem op w a Rx F : Prop :=
  exists rc w' a', bstep op w = Some (rc, w') /\ astep mem a op rc a' /\ abs w' a' /\ world_ok w' Rx F /\ (mem = true -> ample (w_sys w')).

Lemma refine_declare_queue mem v n f w a Rx F :
  world_ok w Rx F -> (mem = true -> ample (w_sys w)) -> abs w a -> refines mem (BDeclareQueue v n f) w a Rx F.
Proof.
  intros Hw Ha Habs. unfold refines. cbn [bstep].
  destruct (broker_declare_queue v n f w) as [[[rc d] c] w'] eqn:E.
  destruct (declare_queue_spec _ _ _ _ _ _ _ _ _ _ Hw E) as (Hw' & Hmem & Hcase).
  assert (Ha' : mem = true -> ample (w_sys w')) by (intros Hm; by apply Hmem, Ha).
  pose proof (abs_queue_none w a Rx F (akey v n) Hw Habs) as Hnone. unfold akey in Hnone at 2.
  destruct (pm_map (w_queues w) !! _) as [p|] eqn:Ek.
  - destruct Hcase as (-> & _ & q & Hq & Hf). exists rc, w, a. split_and!; try done.
    assert (Hfl : a_queues a !! akey v n = Some (aqueue_of q)) by (rewrite (abs_queues _ _ Habs); unfold akey; by rewrite Ek; simpl; rewrite Hq).
    pose proof (a_redeclare_queue mem a v n f _ Hfl) as Hst. simpl in Hst.
    destruct Hf as [(Hf & -> & _)|[Hf ->]]; [by rewrite Hf, Z.eqb_refl in Hst|]. by apply Z.eqb_neq in Hf; rewrite Hf in Hst.
  - destruct (declare_queue_regs _ _ _ _ _ _ _ _ E) as [Ex Eo].
    destruct Hcase as [(-> & _ & _ & p & vh & Hm & Hfree & Hqs & _)|(-> & Hn & _ & Hm & Hs)].
    2:{ exists (-1), w', a. split_and!; [done | | by apply abs_keep with w; rewrite ?Ex | done | done].
        apply a_declare_queue_fails; [|by apply Hnone]. destruct mem; [by destruct Hn; apply Ha | done]. }
    eexists 0, w', _. split_and!; [done | by apply a_declare_queue, Hnone | | done | done].
    assert (Hne : forall k x, pm_map (w_queues w) !! k = Some x -> x <> p).
    { intros k x Hk ->. destruct (registered_live _ _ _ _ _ Hw Hk) as [_ [? ?]]. congruence. }
    constructor; simpl.
    + intros k. rewrite Hm, Hqs. fold (akey v n). destruct (decide (k = akey v n)) as [->|Hk].
      * by rewrite !lookup_insert_eq; simpl; rewrite lookup_insert_eq.
      * rewrite !lookup_insert_ne by done. rewrite (abs_queues _ _ Habs).
        destruct (pm_map (w_queues w) !! k) as [x|] eqn:Hx; [|done]. simpl. by rewrite lookup_insert_ne by (symmetry; eauto).
    + intros k. by rewrite Ex, Eo, (abs_exchanges _ _ Habs).
    + intros ek rk qk. rewrite (abs_bindings _ _ Habs), Ex, Eo, Hm. fold (akey v n). split.
      * intros (e & ex & q & H1 & H2 & H3 & H4). exists e, ex, q. split_and!; try done.
        rewrite lookup_insert_ne; [done|]. intros <-. unfold akey in H4. congruence.
      * intros (e & ex & q & H1 & H2 & H3 & H4). exists e, ex, q. split_and!; try done.
        apply lookup_insert_Some in H4 as [[_ <-]|[_ H4]]; [|done].
        pose proof (wo_bound _ _ _ Hw e ex p H2) as Hb. destruct (elem_of_reg_refs w p) as [Hr _].
        destruct Hr as [k Hk]; [apply Hb; unfold binding_refs; apply list_elem_of_fmap; by exists (Binding rk p)|].
        by destruct (Hne k p Hk).
Qed.

Lemma refine_declare_exchange mem v n t f w a Rx F :
  world_ok w Rx F -> (mem = true -> ample (w_sys w)) -> abs w a -> refines mem (BDeclareExchange v n t f) w a Rx F.
Proof.
  intros Hw Ha Habs. unfold refines. cbn [bstep].
  destruct (broker_declare_exchange v n t f w) as [[rc c] w'] eqn:E.
  destruct (declare_exchange_spec _ _ _ _ _ _ _ _ _ _ Hw E) as (Hw' & Hqs & Eq & Hmem & Hcase).
  assert (Ha' : mem = true -> ample (w_sys w')) by (intros Hm; by apply Hmem, Ha).
  pose proof (abs_exchange_none w a Rx F (akey v n) Hw Habs) as Hnone. unfold akey in Hnone at 2.
  destruct (pm_map (w_exchanges w) !! _) as [e|] eqn:Ek.
  - destruct Hcase as (-> & _ & ex & Hex & Hf). exists rc, w, a. split_and!; try done.
    assert (Hfl : a_exchanges a !! akey v n = Some (x_type ex, x_flags ex))
      by (rewrite (abs_exchanges _ _ Habs); unfold akey; by rewrite Ek; simpl; rewrite Hex).
    pose proof (a_redeclare_exchange mem a v n t f _ Hfl) as Hst.
    destruct Hf as [(<- & <- & ->)|[Hf ->]]; [by rewrite bool_decide_true in Hst|].
    rewrite bool_decide_false in Hst; [done|]. intros [= <- <-]. by destruct Hf.
  - destruct Hcase as [(-> & _ & Hm & vh & Hx)|(-> & Hn & _ & Hm & Hx)].
    2:{ exists (-1), w', a. split_and!; [done | | by apply abs_keep with w; rewrite ?Eq; [..|intros x; rewrite Hqs] | done | done].
        apply a_declare_exchange_fails; [|by apply Hnone]. destruct mem; [by destruct Hn; apply Ha | done]. }
    eexists 0, w', _. split_and!; [done | by apply a_declare_exchange, Hnone | | done | done].
    assert (Hfree : w_xobjs w !! w_xnext w = None).
    { destruct (w_xobjs w !! w_xnext w) eqn:Ef; [|done]. pose proof (wo_fresh _ _ _ Hw _ _ Ef). lia. }
    assert (Hne : forall k x, pm_map (w_exchanges w) !! k = Some x -> x <> w_xnext w).
    { intros k x Hk ->. destruct (wo_exchanges _ _ _ Hw _ _ Hk). congruence. }
    constructor; simpl.
    + intros k. by rewrite Eq, Hqs, (abs_queues _ _ Habs).
    + intros k. rewrite Hm, Hx. fold (akey v n). destruct (decide (k = akey v n)) as [->|Hk].
      * by rewrite !lookup_insert_eq; simpl; rewrite lookup_insert_eq.
      * rewrite !lookup_insert_ne by done. rewrite (abs_exchanges _ _ Habs).
        destruct (pm_map (w_exchanges w) !! k) as [x|] eqn:Hk'; [|done]. simpl. by rewrite lookup_insert_ne by (symmetry; eauto).
    + intros ek rk qk. rewrite (abs_bindings _ _ Habs), Eq, Hm, Hx. fold (akey v n). split.
      * intros (e & ex & q & H1 & H2 & H3 & H4). exists e, ex, q.
        split_and!; [rewrite lookup_insert_ne; [done|]; intros <-; unfold akey in H1; congruence | | done | done].
        by rewrite lookup_insert_ne by (symmetry; eauto).
      * intros (e & ex & q & H1 & H2 & H3 & H4). apply lookup_insert_Some in H1 as [[_ <-]|[_ H1]].
        { rewrite lookup_insert_eq in H2. injection H2 as <-. by apply not_elem_of_nil in H3. }
        rewrite lookup_insert_ne in H2 by (symmetry; eauto). by exists e, ex, q.
Qed.

(** Two names of the same queue are the same name, and a binding names its queue. *)
Lemma abs_set_exchange w w' a (e : positive) (ex ex' : exchange) (ek0 : bytes) (Rx : list positive) (F : list message) (P : bytes * bytes * bytes -> Prop) (B : gset (bytes * bytes * bytes)) :
  world_ok w Rx F -> abs w a -> pm_map (w_exchanges w) !! ek0 = Some e -> w_xobjs w !! e = Some ex ->
  w_queues w' = w_queues w -> w_exchanges w' = w_exchanges w -> w_xobjs w' = <[e := ex']> (w_xobjs w) ->
  (x_type ex', x_flags ex') = (x_type ex, x_flags ex) -> same_queues (w_store w) (w_store w') ->
  (forall b, b ∈ B <-> b ∈ a_bindings a \/ P b) ->
  (forall ek rk qk, P (ek, rk, qk) <-> ek = ek0 /\ exists q, pm_map (w_queues w) !! qk = Some q /\
     Binding rk q ∈ x_bindings ex' /\ (Binding rk q ∉ x_bindings ex)) ->
  (forall b, b ∈ x_bindings ex -> b ∈ x_bindings ex') ->
  abs w' (ABroker (a_queues a) (a_exchanges a) B).
Proof.
  intros Hw Habs Hek He Eq Ex Eo Ht Hs HB HP Hsub. constructor; simpl.
  - intros k. rewrite Eq, (abs_queues _ _ Habs). destruct (pm_map (w_queues w) !! k) as [p|]; [|done]. simpl.
    symmetry. apply view_aqueue, Hs.
  - intros k. rewrite Ex, Eo, (abs_exchanges _ _ Habs). destruct (pm_map (w_exchanges w) !! k) as [x|]; [|done]. simpl.
    destruct (decide (x = e)) as [->|]; [|by rewrite lookup_insert_ne]. rewrite lookup_insert_eq, He. simpl. by rewrite <- Ht.
  - intros ek rk qk. rewrite HB, HP, (abs_bindings _ _ Habs), Eq, Ex, Eo. split.
    + intros [(e1 & ex1 & q & H1 & H2 & H3 & H4)|(-> & q & H1 & H2 & H3)].
      * destruct (decide (e1 = e)) as [->|Hne].
        -- exists e, ex', q. rewrite lookup_insert_eq. rewrite H2 in He. injection He as <-. auto.
        -- exists e1, ex1, q. by rewrite lookup_insert_ne.
      * exists e, ex', q. by rewrite lookup_insert_eq.
    + intros (e1 & ex1 & q & H1 & H2 & H3 & H4). apply lookup_insert_Some in H2 as [[<- <-]|[Hne H2]]; [|left; by exists e1, ex1, q].
      destruct (decide (Binding rk q ∈ x_bindings ex)); [left; by exists e, ex, q|].
      right. split; [by eapply wo_exchange_inj | by exists q].
Qed.

Lemma refine_bind mem v qn x rk w a Rx F :
  world_ok w Rx F -> (mem = true -> ample (w_sys w)) -> abs w a -> refines mem (BBind v qn x rk) w a Rx F.
Proof.
  intros Hw Ha Habs. unfold refines. cbn [bstep]. destruct (broker_bind v qn x rk w) as [rc w'] eqn:E.
  destruct (bind_broker_spec _ _ _ _ _ _ _ _ _ Hw E) as (Hw' & Hs & Eq & Ex & Ha' & Hcase).
  pose proof (abs_exchange_none w a Rx F (akey v x) Hw Habs) as Hxn. unfold akey in Hxn at 2.
  pose proof (abs_queue_none w a Rx F (akey v qn) Hw Habs) as Hqn. unfold akey in Hqn at 2.
  assert (Hmiss : rc = -1 /\ w' = w -> a_exchanges a !! akey v x = None \/ a_queues a !! akey v qn = None ->
    exists rc0 w0 a', Some (rc, w') = Some (rc0, w0) /\ astep mem a (BBind v qn x rk) rc0 a' /\ abs w0 a' /\ world_ok w0 Rx F /\ (mem = true -> ample (w_sys w0))).
  { intros [-> ->] Hm. exists (-1), w, a. split_and!; try done. by apply a_bind_missing. }
  destruct (pm_map (w_exchanges w) !! _) as [e|] eqn:Ee; [|apply Hmiss; [done | left; by apply Hxn]].
  destruct (pm_map (w_queues w) !! _) as [q|] eqn:Eqq; [|apply Hmiss; [done | right; by apply Hqn]]. clear Hmiss.
  destruct Hcase as (Hrc & Hcode & ex & ex' & Hex & Hx' & Hn & Hb).
  assert (Hex0 : is_Some (a_exchanges a !! akey v x)) by (destruct (a_exchanges a !! akey v x); [done | discriminate (proj1 Hxn eq_refl)]).
  assert (Hq0 : is_Some (a_queues a !! akey v qn)) by (destruct (a_queues a !! akey v qn); [done | discriminate (proj1 Hqn eq_refl)]).
  destruct (decide (rc = 0)) as [->|Hne].
  2:{ assert (mem = false) as -> by (destruct mem; [by destruct Hne; apply Hrc, Ha | done]). destruct Hcode as [Hc|Hc]; [done|]. subst rc.
      exists (-1), w', a. split_and!; [done | by apply a_bind_fails | | done | done]. destruct a as [aq ax ab].
      apply (abs_set_exchange w w' (ABroker aq ax ab) e ex ex' (akey v x) Rx F (fun _ => False)); try done.
      + by injection Hn as _ _ -> ->.
      + naive_solver.
      + intros ek rk1 qk. split; [done|]. intros (_ & q1 & _ & H2 & H3). apply Hb in H2 as [|[? _]]; done.
      + intros b Hin. apply Hb. by left. }
  eexists 0, w', _. split_and!; [done | by apply a_bind | | done | auto].
  - apply (abs_set_exchange w w' a e ex ex' (akey v x) Rx F
      (fun b => b = (akey v x, default [] rk, akey v qn) /\ Binding (default [] rk) q ∉ x_bindings ex)); try done.
    + by injection Hn as _ _ -> ->.
    + intros b. destruct (decide (b = (akey v x, default [] rk, akey v qn))) as [->|]; [|set_solver].
      destruct (decide (Binding (default [] rk) q ∈ x_bindings ex)); [|set_solver].
      split; [|set_solver]. intros _. left. apply (abs_bindings _ _ Habs). by exists e, ex, q.
    + intros ek rk1 qk. split.
      * intros [[= -> -> ->] Hni]. split; [done|]. exists q. split_and!; [done | apply Hb; auto | done].
      * intros (-> & q1 & H1 & H2 & H3). apply Hb in H2 as [|[_ [= -> ->]]]; [done|]. split; [|done].
        by rewrite (wo_queue_inj _ _ _ Hw _ _ _ H1 Eqq).
    + intros b Hin. apply Hb. by left.
Qed.

(** The namespace after a queue was deleted. *)
Lemma abs_delete w w' a Rx F k q :
  world_ok w Rx F -> world_ok w' Rx F -> abs w a -> pm_map (w_queues w) !! k = Some q ->
  pm_map (w_queues w') = delete k (pm_map (w_queues w)) -> w_exchanges w' = w_exchanges w ->
  (forall p, p ∈ owned_refs w' ++ Rx -> view <$> st_queues (w_store w') !! p = view <$> st_queues (w_store w) !! p) ->
  (forall e ex, w_xobjs w !! e = Some ex -> exists ex', w_xobjs w' !! e = Some ex' /\ unbound q ex ex') ->
  abs w' (ABroker (delete k (a_queues a)) (a_exchanges a) (drop_bindings k (a_bindings a))).
Proof.
  intros Hw Hw' Habs Hk Hm Ex Hv Hub.
  assert (Hkeep : forall k1 p, k1 <> k -> pm_map (w_queues w) !! k1 = Some p -> pm_map (w_queues w') !! k1 = Some p)
    by (intros k1 p Hne Hp; by rewrite Hm, lookup_delete_ne).
  constructor; simpl.
  - intros k1. rewrite Hm. destruct (decide (k1 = k)) as [->|Hne]; [by rewrite !lookup_delete_eq|].
    rewrite !lookup_delete_ne by done. rewrite (abs_queues _ _ Habs).
    destruct (pm_map (w_queues w) !! k1) as [p|] eqn:Hp; [|done]. simpl. symmetry. apply view_aqueue.
    exact (Hv p (proj1 (registered_live _ _ _ _ _ Hw' (Hkeep _ _ Hne Hp)))).
  - intros k1. rewrite Ex, (abs_exchanges _ _ Habs). destruct (pm_map (w_exchanges w) !! k1) as [e|] eqn:He; [|done]. simpl.
    destruct (wo_exchanges _ _ _ Hw _ _ He) as [ex Hex]. destruct (Hub e ex Hex) as (ex' & Hex' & Hn & _).
    rewrite Hex, Hex'. simpl. by injection Hn as _ _ -> ->.
  - intros ek rk qk. unfold drop_bindings. rewrite elem_of_filter, (abs_bindings _ _ Habs), Ex. simpl. split.
    + intros (Hne & e & ex & q1 & H1 & H2 & H3 & H4). destruct (Hub e ex H2) as (ex' & Hex' & _ & Hb).
      exists e, ex', q1. split_and!; try done; [|by apply Hkeep]. rewrite Hb. apply list_elem_of_filter. split; [|done].
      simpl. intros ->. destruct Hne. by eapply (wo_queue_inj _ _ _ Hw).
    + intros (e & ex' & q1 & H1 & H2 & H3 & H4). rewrite Hm in H4. apply lookup_delete_Some in H4 as [Hne H4].
      split; [done|]. destruct (wo_exchanges _ _ _ Hw _ _ H1) as [ex Hex]. destruct (Hub e ex Hex) as (ex2 & Hex2 & _ & Hb).
      rewrite H2 in Hex2. injection Hex2 as <-. rewrite Hb in H3. apply list_elem_of_filter in H3 as [_ H3]. by exists e, ex, q1.
Qed.

Lemma refine_delete mem v n iu ie w a Rx F :
  world_ok w Rx F -> (mem = true -> ample (w_sys w)) -> abs w a -> refines mem (BDeleteQueue v n iu ie) w a Rx F.
Proof.
  intros Hw Ha Habs. unfold refines. cbn [bstep]. destruct (broker_delete_queue v n iu ie w) as [[rc d] w'] eqn:E.
  destruct (delete_queue_spec _ _ _ _ _ _ _ _ _ _ Hw E) as (Hw' & Ha' & Hcase).
  pose proof (abs_queue_none w a Rx F (akey v n) Hw Habs) as Hn. unfold akey in Hn at 2.
  destruct (pm_map (w_queues w) !! _) as [q|] eqn:Ek.
  2:{ destruct Hcase as [-> ->]. exists (-1), w, a. split_and!; try done. by apply a_delete_missing, Hn. }
  destruct (abs_queue_some w a Rx F (akey v n) q Hw Habs Ek) as (qv' & Hqv' & Hin & Hd). destruct Hcase as (qv & Hqv & Hcase).
  rewrite Hqv' in Hqv. injection Hqv as ->.
  destruct Hcase as [(-> & -> & -> & Hc)|[(-> & -> & Hc & -> & He)|(-> & Hc & -> & He & Hm & Ex & _ & Hv & Hub)]].
  - exists (-2), w, a. split_and!; try done. by eapply a_delete_in_use.
  - exists (-3), w, a. split_and!; try done. eapply a_delete_not_empty; [done | done | by rewrite Hd].
  - eexists 0, w', _. split_and!; [done | eapply a_delete; [done | done | by rewrite Hd] | | done | auto]. eapply (abs_delete w w' a Rx F (akey v n) q); done.
Qed.

(** One queue was changed. *)
Lemma abs_set_queue w w' a Rx F k p q' :
  world_ok w Rx F -> abs w a -> pm_map (w_queues w) !! k = Some p -> same_regs w w' ->
  aqueue_of <$> st_queues (w_store w') !! p = Some q' ->
  (forall x, x <> p -> aqueue_of <$> st_queues (w_store w') !! x = aqueue_of <$> st_queues (w_store w) !! x) -> abs w' (set_queue k q' a).
Proof.
  intros Hw [H1 H2 H3] Hk [= Eq Ex Eo _] Hq Ho. constructor; simpl.
  - intros k1. rewrite Eq. destruct (decide (k1 = k)) as [->|Hne]; [by rewrite lookup_insert_eq, Hk|].
    rewrite lookup_insert_ne, H1 by done. destruct (pm_map (w_queues w) !! k1) as [p1|] eqn:Hk1; [|done]. simpl. symmetry. apply Ho.
    intros ->. apply Hne. by eapply wo_queue_inj.
  - intros k1. by rewrite H2, Ex, Eo.
  - intros ek rk qk. by rewrite H3, Ex, Eo, Eq.
Qed.

(** An operation on a queue that was looked up; [P] relates the queue before and after. *)
Lemma refine_with_queue mem v n f w a Rx F (P : aqueue -> aqueue -> Prop) :
  world_ok w Rx F -> (mem = true -> ample (w_sys w)) -> abs w a ->
  (forall q w0 qv, st_queues (w_store w0) !! q = Some qv -> q ∈ owned_refs w0 ++ Rx -> world_ok w0 (q :: Rx) F -> (mem = true -> ample (w_sys w0)) ->
     world_ok (f q w0) (q :: Rx) F /\ (mem = true -> ample (w_sys (f q w0))) /\ same_regs w0 (f q w0) /\
     exists qv', st_queues (w_store (f q w0)) = <[q := qv']> (st_queues (w_store w0)) /\ P (aqueue_of qv) (aqueue_of qv')) ->
  exists rc w' a', with_queue v n f w = (rc, w') /\ abs w' a' /\ world_ok w' Rx F /\ (mem = true -> ample (w_sys w')) /\
    (rc = -1 /\ a' = a /\ a_queues a !! akey v n = None \/
     rc = 0 /\ exists q q', a_queues a !! akey v n = Some q /\ P q q' /\ a' = set_queue (akey v n) q' a).
Proof.
  intros Hw Ha Habs Hf. unfold with_queue. destruct (broker_get_queue v n w) as [r w1] eqn:E.
  destruct (get_queue_spec _ _ _ _ _ _ _ Hw E) as (Hr & Hw1 & Hr1 & Hs1 & Hsys). destruct r as [q|].
  2:{ exists (-1), w1, a. injection Hr1 as Eq Ex Eo _. split_and!; [done | by apply abs_keep with w; rewrite ?Eq, ?Ex | done | by rewrite Hsys |].
      left. split_and!; [done | done |]. by apply (abs_queue_none w a Rx F (akey v n) Hw Habs). }
  destruct (abs_queue_some w a Rx F (akey v n) q Hw Habs) as (qv & Hqv & Hin & _); [done|].
  assert (Hq : q ∈ owned_refs w ++ Rx) by (by eapply registered_live).
  pose proof (view_aqueue _ _ (Hs1 q)) as Hv1. rewrite Hqv in Hv1. destruct (st_queues (w_store w1) !! q) as [qv1|] eqn:Hqv1; [|done]. apply Some_inj in Hv1.
  destruct (Hf q w1 qv1) as (Hw2 & Ha2 & Hr2 & qv' & Hq2 & HP); [done | by rewrite (owned_refs_regs _ _ Hr1) | done | by rewrite Hsys |].
  assert (Hr02 : same_regs w (f q w1)) by (by eapply same_regs_trans).
  destruct (world_unref (f q w1) q Rx F Hw2) as [Hw3 Hs3]; [by rewrite (owned_refs_regs _ _ Hr02)|].
  eexists 0, _, (set_queue (akey v n) (aqueue_of qv') a). split_and!; [done | | done | |].
  - apply (abs_set_queue w _ a Rx F (akey v n) q); [done | done | done | done | |].
    + etrans; [exact (view_aqueue _ _ (Hs3 q))|]. by rewrite Hq2, lookup_insert_eq.
    + intros x Hx. etrans; [exact (view_aqueue _ _ (Hs3 x))|]. rewrite Hq2, lookup_insert_ne by done. apply view_aqueue, Hs1.
  - intros Hm. pose proof (wo_store _ _ _ Hw2) as Hst2. rewrite <- Permutation_middle in Hst2. by apply (qp_unref_ok _ _ _ _ Hst2), Ha2.
  - right. split; [done|]. exists (aqueue_of qv), (aqueue_of qv'). split_and!; [done | by rewrite <- Hv1 | done].
Qed.

Lemma set_limits_ok ml mb ov q w Rx F qv :
  st_queues (w_store w) !! q = Some qv -> world_ok w Rx F ->
  world_ok (set_limits_at ml mb ov q w) Rx F /\ w_sys (set_limits_at ml mb ov q w) = w_sys w /\ same_regs w (set_limits_at ml mb ov q w) /\
  st_queues (w_store (set_limits_at ml mb ov q w)) = <[q := queue_set_limits ml mb ov qv]> (st_queues (w_store w)).
Proof.
  intros Hqv Hw. unfold set_limits_at, on_queue. rewrite Hqv. split_and!; try done.
  apply world_set_queue with qv (contents qv); try done. destruct (so_queues _ _ _ (wo_store _ _ _ Hw) _ _ Hqv). constructor; simpl; assumption.
Qed.

Lemma strdup_copied mem s sy d sy' :
  (mem = true -> ample sy) -> strdup_nonempty s sy = (d, sy') -> copied mem s d /\ (mem = true -> ample sy').
Proof.
  intros Hm. unfold copied. destruct s as [[|c x]|]; [by intros [= <- <-]; auto | | by intros [= <- <-]; auto].
  unfold strdup_nonempty, strdup. destruct (s_malloc sy) as [ok s1] eqn:Em. apply s_malloc_spec in Em as (_ & _ & _ & Ho). intros [= <- <-].
  destruct mem; [destruct (Ho (Hm eq_refl)) as [-> ?]; auto | split; [|done]; destruct ok; auto].
Qed.

Lemma set_dead_letter_effect mem q dlx rk w qv :
  st_queues (w_store w) !! q = Some qv -> (mem = true -> ample (w_sys w)) ->
  same_regs w (broker_set_queue_dead_letter q dlx rk w) /\
  exists qv', st_queues (w_store (broker_set_queue_dead_letter q dlx rk w)) = <[q := qv']> (st_queues (w_store w)) /\
    exists d r, copied mem dlx d /\ copied mem rk r /\ aqueue_of qv' = (aqueue_of qv) <| aq_dead_letter := (d, r) |>.
Proof.
  intros Hq Hm. unfold broker_set_queue_dead_letter, on_queue, queue_set_dead_letter. rewrite Hq.
  destruct (strdup_nonempty dlx _) as [d s1] eqn:E1. destruct (strdup_copied mem _ _ _ _ Hm E1) as [H1 Hm1].
  destruct (strdup_nonempty rk s1) as [r s2] eqn:E2. destruct (strdup_copied mem _ _ _ _ Hm1 E2) as [H2 _].
  split; [done|]. eexists. split; [done|]. by exists d, r.
Qed.

(** The queues of the registry that [is_target] points at, by key. *)
Lemma abs_target w a Rx F v x rk p :
  world_ok w Rx F -> abs w a -> is_target w v x rk p -> exists k, pm_map (w_queues w) !! k = Some p /\ a_target a v x rk k.
Proof.
  intros Hw Ha. unfold is_target, a_target. destruct x as [|c x].
  - intros Hk. exists (akey v rk). split_and!; [done | done |]. destruct (abs_queue_some _ _ _ _ _ _ Hw Ha Hk) as (q & _ & E & _). by exists (aqueue_of q).
  - intros (e & ex & b & He & Hex & Hb & <- & Hm). pose proof (wo_bound _ _ _ Hw e ex (bd_queue b) Hex) as Hin.
    destruct (elem_of_reg_refs w (bd_queue b)) as [Hr _]. destruct Hr as [k Hk]; [apply Hin; unfold binding_refs; apply list_elem_of_fmap; by exists b|].
    exists k. split; [done|]. exists (x_type ex), (x_flags ex), (bd_key b). split_and!; [|apply (abs_bindings _ _ Ha) | exact Hm].
    + rewrite (abs_exchanges _ _ Ha). unfold akey. rewrite He. simpl. by rewrite Hex.
    + exists e, ex, (bd_queue b). split_and!; [done | done | by destruct b | done].
Qed.

Lemma target_abs w a Rx F v x rk k :
  world_ok w Rx F -> abs w a -> a_target a v x rk k -> exists p, pm_map (w_queues w) !! k = Some p /\ is_target w v x rk p.
Proof.
  intros Hw Ha. unfold is_target, a_target. destruct x as [|c x].
  - intros [-> [q Hq]]. rewrite (abs_queues _ _ Ha) in Hq. unfold akey in *. destruct (pm_map (w_queues w) !! _) as [p|]; [by exists p | done].
  - intros (t & f & pattern & Hx & Hb & Hm). apply (abs_bindings _ _ Ha) in Hb as (e & ex & p & He & Hex & Hb & Hk).
    rewrite (abs_exchanges _ _ Ha), He in Hx. simpl in Hx. rewrite Hex in Hx. injection Hx as <- <-.
    exists p. split; [done|]. exists e, ex, (Binding pattern p). by split_and!.
Qed.

(** The keys of a list of registered queues. *)
Lemma target_keys w a Rx F v x rk ts :
  world_ok w Rx F -> abs w a -> NoDup ts -> (forall p, p ∈ ts -> is_target w v x rk p) ->
  exists ks, NoDup ks /\ length ks = length ts /\ (forall k, k ∈ ks -> a_target a v x rk k) /\
    (forall p k, p ∈ ts -> pm_map (w_queues w) !! k = Some p -> k ∈ ks) /\ (forall k, k ∈ ks -> exists p, p ∈ ts /\ pm_map (w_queues w) !! k = Some p).
Proof.
  intros Hw Ha. induction ts as [|p ts IH]; intros Hnd Ht; [exists []; split_and!; [constructor | done | set_solver..]|].
  apply NoDup_cons in Hnd as [Hni Hnd]. destruct IH as (ks & H1 & H2 & H3 & H4 & H5); [done | set_solver|].
  destruct (abs_target w a Rx F v x rk p Hw Ha) as (k & Hk & Hkt); [set_solver|]. exists (k :: ks). split_and!.
  - apply NoDup_cons. split; [|done]. intros (p' & Hp' & Hk')%H5. by simplify_eq.
  - simpl. by rewrite H2.
  - set_solver.
  - intros p' k' Hp' Hk'. set_unfold. destruct Hp' as [->|Hp']; [left; by eapply wo_queue_inj | right; by eapply H4].
  - intros k' Hk'. set_unfold. destruct Hk' as [->|Hk']; [by exists p; auto | destruct (H5 k' Hk') as (p' & ? & ?); exists p'; auto].
Qed.

Lemma config_aqueue (x y : option queue) : q_config <$> x = q_config <$> y ->
  (fun q => q <| aq_depth := 0 |>) <$> (aqueue_of <$> x) = (fun q => q <| aq_depth := 0 |>) <$> (aqueue_of <$> y).
Proof. destruct x, y; try done. simpl. intros [= H1 H2 H3 H4 H5 H6 H7 H8]. f_equal. unfold aqueue_of, update_field. simpl. congruence. Qed.

(** The namespace with the depths that the queues have now. *)
Lemma abs_depths w w' a : abs w a -> same_regs w w' -> same_config w w' ->
  exists qs, abs w' (ABroker qs (a_exchanges a) (a_bindings a)) /\
    forall k, (fun q => q <| aq_depth := 0 |>) <$> qs !! k = (fun q => q <| aq_depth := 0 |>) <$> a_queues a !! k.
Proof.
  intros [H1 H2 H3] [= Eq Ex Eo _] Hc. exists (omap (fun p => aqueue_of <$> st_queues (w_store w') !! p) (pm_map (w_queues w))). split.
  - constructor; simpl; [intros k; by rewrite lookup_omap, Eq | intros k; by rewrite H2, Ex, Eo | intros ek rk qk; by rewrite H3, Ex, Eo, Eq].
  - intros k. rewrite lookup_omap, H1. destruct (pm_map (w_queues w) !! k) as [p|]; [|done]. simpl. apply config_aqueue, Hc.
Qed.

Lemma refine_publish mem v x rk b w a Rx F :
  world_ok w Rx F -> (mem = true -> ample (w_sys w)) -> abs w a -> refines mem (BPublish v x rk b) w a Rx F.
Proof.
  intros Hw Ha Habs. destruct (publish_good v x rk b w Rx F Hw) as (rc & w' & Hrun & Hw' & Hr & [Hc _] & Ha'). specialize (Hrun (route_fuel w) (le_n _)).
  destruct (publish_codes mem v x rk b w Rx F _ rc w' Hw Ha Hrun) as (ts & Hnd & Ht1 & Ht2 & Hrc).
  destruct (target_keys w a Rx F _ _ _ ts Hw Habs Hnd Ht1) as (ks & K1 & K2 & K3 & K4 & _).
  destruct (abs_depths w w' a Habs Hr Hc) as (qs & Habs' & Hqs). rewrite <- K2 in Hrc.
  eexists rc, w', _. split_and!; [exact Hrun | | exact Habs' | done | auto]. apply (a_publish mem a v x rk b rc ks qs); try done.
  intros Hm k Hk. destruct (target_abs w a Rx F _ _ _ k Hw Habs Hk) as (p & Hp & Hpt). eapply K4; [by apply Ht2 | done].
Qed.

Lemma bstep_refines mem op w a Rx F :
  world_ok w Rx F -> (mem = true -> ample (w_sys w)) -> abs w a -> refines mem op w a Rx F.
Proof.
  intros Hw Ha Habs. destruct op as [v n f|v n t f|v q x rk|v n iu ie|v n ml mb ov|v n dlx rk|v x rk b].
  - by apply refine_declare_queue.
  - by apply refine_declare_exchange.
  - by apply refine_bind.
  - by apply refine_delete.
  - destruct (refine_with_queue mem v n (set_limits_at ml mb ov) w a Rx F (fun q q' => q' = q <| aq_limits := (ml, mb, ov) |>) Hw Ha Habs)
      as (rc & w' & a' & E & Habs' & Hw' & Ha' & Hcase).
    { intros q w0 qv Hqv Hq Hw0 Ha0. destruct (set_limits_ok ml mb ov q w0 (q :: Rx) F qv Hqv Hw0) as (H1 & H2 & H3 & H4).
      split_and!; [done | by rewrite H2 | done |]. by eexists. }
    exists rc, w', a'. cbn [bstep]. rewrite E. split_and!; try done.
    destruct Hcase as [(-> & -> & Hn)|(-> & q & q' & Hn & -> & ->)]; [by apply a_set_limits_missing | by apply a_set_limits].
  - destruct (refine_with_queue mem v n (fun q => broker_set_queue_dead_letter q dlx rk) w a Rx F
      (fun q q' => exists d r, copied mem dlx d /\ copied mem rk r /\ q' = q <| aq_dead_letter := (d, r) |>) Hw Ha Habs)
      as (rc & w' & a' & E & Habs' & Hw' & Ha' & Hcase).
    { intros q w0 qv Hqv Hq Hw0 Ha0. destruct (set_dead_letter_ok q dlx rk w0 (q :: Rx) F Hw0) as [H1 H2]; [set_solver|].
      destruct (set_dead_letter_effect mem q dlx rk w0 qv Hqv Ha0) as [H3 H4]. split_and!; auto. }
    exists rc, w', a'. cbn [bstep]. rewrite E. split_and!; try done.
    destruct Hcase as [(-> & -> & Hn)|(-> & q & q' & Hn & (d & r & H1 & H2 & ->) & ->)]; [by apply a_set_dead_letter_missing | by apply a_set_dead_letter].
  - by apply refine_publish.
Qed.

Lemma bsteps_refine mem ops : forall w a Rx F, world_ok w Rx F -> (mem = true -> ample (w_sys w)) -> abs w a ->
  exists rcs w' a', bsteps ops w = Some (rcs, w') /\ asteps mem a ops rcs a' /\ abs w' a' /\ world_ok w' Rx F /\ (mem = true -> ample (w_sys w')).
Proof.
  induction ops as [|op ops IH]; intros w a Rx F Hw Ha Habs; cbn [bsteps].
  { exists [], w, a. split_and!; try done. constructor. }
  destruct (bstep_refines mem op w a Rx F Hw Ha Habs) as (rc & w1 & a1 & -> & Hst & Habs1 & Hw1 & Ha1).
  destruct (IH w1 a1 Rx F Hw1 Ha1 Habs1) as (rcs & w2 & a2 & -> & Hsts & Habs2 & Hw2 & Ha2).
  exists (rc :: rcs), w2, a2. split_and!; try done. by econstructor.
Qed.

Lemma abs_new w : pm_map (w_queues w) = ∅ -> pm_map (w_exchanges w) = ∅ -> abs w (ABroker ∅ ∅ ∅).
Proof.
  intros Hq Hx. constructor; simpl.
  - intros k. by rewrite Hq, !lookup_empty.
  - intros k. by rewrite Hx, !lookup_empty.
  - intros ek rk qk. rewrite Hx. setoid_rewrite lookup_empty. set_solver.
Qed.

End Refine.

(** * Theorems *)


(** C27: shutting the broker down frees everything it owned.  With no queue
    reference held elsewhere, no queue and no exchange is left, nothing was freed
    twice or used after it was freed, and the only messages left are those that
    somebody else references. *)
Theorem broker_free_releases {M : Type} `{!PtrMap M} `{!PtrMapLaws M} (w : world M) F :
  world_ok w [] F ->
  st_queues (w_store (broker_free w)) = ∅ /\ w_xobjs (broker_free w) = ∅ /\
  holds (s_heap (w_sys (broker_free w))) F /\ (F = [] -> h_refs (s_heap (w_sys (broker_free w))) = ∅).
Proof.
  intros Hw. destruct (broker_free_ok w [] F Hw) as [Hst Hx].
  assert (Hq : st_queues (w_store (broker_free w)) = ∅).
  { apply map_eq. intros p. rewrite lookup_empty. destruct (st_queues _ !! p) as [q|] eqn:E; [|done].
    destruct (so_refs _ _ _ Hst p q E) as [_ Hpos]. unfold refs_to in Hpos. simpl in Hpos. lia. }
  pose proof (so_holds _ _ _ Hst) as Hh. rewrite Hq in Hh. split_and!; try done.
  intros ->. apply holds_refs in Hh. done.
Qed.

(** * A broker in use *)

(** Two full drop-head queues that dead-letter into each other. *)
Definition ring_ops : list bop :=
  [BDeclareQueue (cstr "/") (cstr "a") 0; BDeclareQueue (cstr "/") (cstr "b") 0;
   BDeclareExchange (cstr "/") (cstr "dlx") EXCHANGE_DIRECT 0;
   BBind (cstr "/") (cstr "a") (cstr "dlx") (Some (cstr "a")); BBind (cstr "/") (cstr "b") (cstr "dlx") (Some (cstr "b"));
   BSetDeadLetter (cstr "/") (cstr "a") (Some (cstr "dlx")) (Some (cstr "b"));
   BSetDeadLetter (cstr "/") (cstr "b") (Some (cstr "dlx")) (Some (cstr "a"))] ++
  replicate 3 (BPublish (cstr "/") None (Some (cstr "a")) [1]) ++
  replicate 3 (BPublish (cstr "/") None (Some (cstr "b")) [2]) ++
  [BSetLimits (cstr "/") (cstr "a") 3 0 QUEUE_OVERFLOW_DROP_HEAD;
   BSetLimits (cstr "/") (cstr "b") 3 0 QUEUE_OVERFLOW_DROP_HEAD].

Definition ring_run : option (list Z * world (hashmap positive)) := bsteps ring_ops demo_empty.
Definition ring_world : world (hashmap positive) := from_option snd demo_empty ring_run.

Lemma ring_rcs : fst <$> ring_run = Some (replicate 7 0 ++ replicate 6 1 ++ [0; 0]).
Proof. vm_compute. reflexivity. Qed.

Lemma ring_world_ok : world_ok ring_world [] [].
Proof.
  destruct (bsteps_refine true ring_ops demo_empty (ABroker ∅ ∅ ∅) [] [] demo_empty_ok) as (rcs & w' & a & H1 & _ & _ & H4 & _);
    [done | by apply abs_new|].
  unfold ring_world, ring_run. rewrite H1. exact H4.
Qed.

Lemma no_hops l : forallb (fun m => m_dl_hops m =? 0) l = true -> Forall (fun m => m_dl_hops m = 0) l.
Proof.
  induction l as [|m l IH]; [constructor|]. simpl. intros [H1%Z.eqb_eq H2]%andb_true_iff. constructor; auto.
Qed.

Lemma ring_hops : forallb (fun m => m_dl_hops m =? 0) (stored ring_world) = true.
Proof. vm_compute. reflexivity. Qed.

Lemma ring_returns : fst <$> broker_publish 60 (cstr "/") None (Some (cstr "a")) [3] ring_world = Some 1.
Proof. vm_compute. reflexivity. Qed.

(** The hop limit does not bound the depth of dead-lettering.  In the broker
    [ring_world], reachable by ordinary calls, 6 messages that were never
    dead-lettered are stored; one publish nests more than 50 routes inside each
    other although a message makes at most [BROKER_DL_MAX_HOPS] = 8 hops: each
    eviction starts the count of another stored message.  (The nesting is finite,
    and the publish returns.) *)
Theorem dead_letter_depth :
  world_ok ring_world [] [] /\ length (stored ring_world) = 6%nat /\
  Forall (fun m => m_dl_hops m = 0) (stored ring_world) /\
  broker_publish 50 (cstr "/") None (Some (cstr "a")) [3] ring_world = None /\
  is_Some (broker_publish 60 (cstr "/") None (Some (cstr "a")) [3] ring_world).
Proof.
  split; [apply ring_world_ok|]. split; [vm_compute; reflexivity|]. split.
  { exact (no_hops _ ring_hops). }
  split; [vm_compute; reflexivity|]. pose proof ring_returns as H.
  destruct (broker_publish 60 (cstr "/") None (Some (cstr "a")) [3] ring_world) as [r|]; [exact (ex_intro _ r eq_refl) | discriminate H].
Qed.


Lemma broker_free_releases_witness :
  st_queues (w_store (broker_free demo_world)) = ∅ /\ h_refs (s_heap (w_sys (broker_free demo_world))) = ∅.
Proof.
  destruct (broker_free_releases demo_world [] demo_world_ok) as (H1 & _ & _ & H2). split; [exact H1 | exact (H2 eq_refl)].
Defined.
