(* ===== verification/Net.v ===== *)
(** The write path of a connection: src/src/net.c.

    libuv is not modelled: [n_uv] lists the outcomes of the next calls of
    [uv_write], an error or the size of the write queue afterwards (when the list
    is exhausted everything is queued).  The bytes of a successful write, in the
    order of the calls, are [cn_wire]; the writes whose callback has not run are
    [cn_writes], with the message each keeps alive. *)

From S2P Require Import Prelude Message.

(** What the timer of a connection is armed for. *)
Inductive conn_timer := timer_off | timer_handshake (timeout : Z) | timer_heartbeat (period : Z).

Record beaver_conn := Conn {
  cn_id : Z;
  cn_peer : bytes;
  cn_bytes_received : Z;
  cn_bytes_sent : Z;
  cn_amqp_state : Z;
  cn_frame_max : Z;
  cn_hb_timer : conn_timer;
  cn_hb_interval_ms : Z;
  cn_last_recv_ms : Z;
  cn_n_handles : nat;
  cn_n_handles_closed : nat;
  cn_closing : bool;
  cn_send_paused : bool;
  cn_read_paused : bool;
  cn_rbuf_cap : Z;
  cn_tcp_closing : bool;                (* [uv_close] has been called on the handle *)
  cn_timer_closing : bool;              (* ... and on the timer *)
  cn_queue_size : Z;
  cn_writes : list (option message);
  cn_wire : bytes
}.

#[global] Instance conn_settable : Settable beaver_conn := fun c =>
  Conn (cn_id c) (cn_peer c) (cn_bytes_received c) (cn_bytes_sent c) (cn_amqp_state c) (cn_frame_max c) (cn_hb_timer c)
    (cn_hb_interval_ms c) (cn_last_recv_ms c) (cn_n_handles c) (cn_n_handles_closed c) (cn_closing c) (cn_send_paused c)
    (cn_read_paused c) (cn_rbuf_cap c) (cn_tcp_closing c) (cn_timer_closing c) (cn_queue_size c) (cn_writes c) (cn_wire c).

(** The struct as [calloc] leaves it. *)
Definition conn_zero : beaver_conn := Conn 0 [] 0 0 0 0 timer_off 0 0 0 0 false false false 0 false false 0 [] [].

Inductive uv_result := uv_error (code : positive) | uv_queued (size : Z).

Record netst := Net { n_oracle : oracle; n_uv : list uv_result; n_total_bytes_sent : Z }.

#[global] Instance netst_settable : Settable netst := fun n => Net (n_oracle n) (n_uv n) (n_total_bytes_sent n).

Definition CONN_SEND_HIGH_WATER : Z := 256 * 1024.
Definition CONN_SEND_LOW_WATER : Z := 64 * 1024.

Definition n_malloc (n : netst) : bool * netst :=
  let '(ok, o) := malloc (n_oracle n) in (ok, n <| n_oracle := o |>).

(** [uv_write] of [len] bytes. *)
Definition uv_write (cn : beaver_conn) (len : Z) (n : netst) : uv_result * netst :=
  match n_uv n with
  | [] => (uv_queued (cn_queue_size cn + len), n)
  | r :: rest => (r, n <| n_uv := rest |>)
  end.

(** [uv_buf_init(data, (unsigned int)len)]. *)
Definition uv_buf (data : bytes) : bytes := take (Z.to_nat (u32 (Z.of_nat (length data)))) data.

Definition beaver_conn_pending_bytes (cn : beaver_conn) : Z := cn_queue_size cn.

Definition beaver_conn_send_full (cn : beaver_conn) : bool := CONN_SEND_HIGH_WATER <? beaver_conn_pending_bytes cn.

(** The connection after a successful write. *)
Definition written (cn : beaver_conn) (size len : Z) (ref : option message) (data : bytes) : beaver_conn :=
  cn <| cn_queue_size := size |> <| cn_writes ::= fun l => l ++ [ref] |> <| cn_wire ::= fun l => l ++ data |>
     <| cn_bytes_sent ::= fun b => u64 (b + len) |>.

Definition beaver_conn_send_owned (data : bytes) (cn : beaver_conn) (n : netst) : Z * beaver_conn * netst :=
  let len := Z.of_nat (length data) in
  if cn_closing cn || (len =? 0) then (-1, cn, n)
  else
    let '(ok, n) := n_malloc n in
    if negb ok then (-1, cn, n)
    else
      match uv_write cn (Z.of_nat (length (uv_buf data))) n with
      | (uv_error code, n) => (- Zpos code, cn, n)
      | (uv_queued size, n) =>
          (0, written cn size len None (uv_buf data), n <| n_total_bytes_sent ::= fun b => u64 (b + len) |>)
      end.

(** The frame header in [header], the body in place, and the frame end. *)
Definition beaver_conn_send_delivery (header : bytes) (body_msg : message) (cn : beaver_conn) (n : netst) (h : heap)
    : Z * beaver_conn * netst * heap :=
  let header_len := Z.of_nat (length header) in
  if cn_closing cn || (header_len =? 0) then (-1, cn, n, h)
  else
    let '(ok, n) := n_malloc n in
    if negb ok then (-1, cn, n, h)
    else
      let h := message_ref body_msg h in
      let data := uv_buf header ++ uv_buf (m_body body_msg) ++ [0xCE] in
      match uv_write cn (Z.of_nat (length data)) n with
      | (uv_error code, n) => (- Zpos code, cn, n, message_unref (Some body_msg) h)
      | (uv_queued size, n) =>
          let total := u64 (header_len + m_body_len body_msg + 1) in
          (0, written cn size total (Some body_msg) data, n <| n_total_bytes_sent ::= fun b => u64 (b + total) |>, h)
      end.

Definition beaver_conn_send (data : bytes) (cn : beaver_conn) (n : netst) : Z * beaver_conn * netst :=
  if cn_closing cn || (Z.of_nat (length data) =? 0) then (-1, cn, n)
  else
    let '(ok, n) := n_malloc n in
    if negb ok then (-1, cn, n) else beaver_conn_send_owned data cn n.

(** The first part of [on_write], for the oldest write in flight: its message is
    released and the write queue has the size libuv reports.  The second result
    says that delivery is to be resumed. *)
Definition on_write_done (size : Z) (cn : beaver_conn) (h : heap) : beaver_conn * bool * heap :=
  match cn_writes cn with
  | [] => (cn, false, h)
  | ref :: rest =>
      let h := message_unref ref h in
      let cn := cn <| cn_writes := rest |> <| cn_queue_size := size |> in
      if cn_send_paused cn && negb (cn_closing cn) && (beaver_conn_pending_bytes cn <=? CONN_SEND_LOW_WATER) then
        (cn <| cn_send_paused := false |>, true, h)
      else (cn, false, h)
  end.
