(* ===== verification/Dispatch.v ===== *)
(** The consumer dispatcher of a worker: src/src/dispatch.c.

    [dispatcher] is the dispatcher with what it works on: the broker's [world], the
    connections of the worker, the consumers and the groups by address, the
    registry of the groups (any [PtrMap]), the pending list and the log of the
    watermarks handed to the cluster.  A dispatcher runs on the thread of its
    loop; the wakeups that other threads cause reach it through the log of the
    broker ([take_wakeups]).  Its allocations have an oracle of their own, so
    every order of failures is covered.  A pointer that leads nowhere sets
    [d_fault]. *)

From S2P Require Import Prelude Tables Frame HashMap Message Queue Store Exchange Broker Net.

(** * State *)

Record consumer := Consumer {
  cs_conn : positive; cs_channel : Z; cs_tag : bytes; cs_queue : positive; cs_queue_name : bytes;
  cs_no_ack : bool; cs_prefetch : Z; cs_unacked : list (Z * message); cs_cap_unacked : nat; cs_group : positive
}.

#[global] Instance consumer_settable : Settable consumer := fun c =>
  Consumer (cs_conn c) (cs_channel c) (cs_tag c) (cs_queue c) (cs_queue_name c) (cs_no_ack c) (cs_prefetch c)
    (cs_unacked c) (cs_cap_unacked c) (cs_group c).

Record group := Group { g_queue : positive; g_arr : list positive; g_cap : nat; g_rr : Z }.

#[global] Instance group_settable : Settable group := fun g => Group (g_queue g) (g_arr g) (g_cap g) (g_rr g).

Definition BMQP_CLASS_BASIC : Z := 60.
Definition BMQP_BASIC_DELIVER : Z := 60.
Definition BMQP_FLAG_AUTO_DELETE : Z := 0x08.

(** [dispatcher_queue_waiter] as a callback of the queues. *)
Definition WAITER_FN : positive := 1.

Section Dispatch.
Context {M : Type} `{!PtrMap M}.

Record dispatcher := Dispatcher {
  d_self : positive;
  d_world : world M;
  d_net : netst;
  d_conns : gmap positive beaver_conn;
  d_tearing_down : bool;
  d_async_closing : bool;
  d_async_sent : bool;                  (* the loop has been asked to run [on_async] *)
  d_groups : M;
  d_gobjs : gmap positive group;
  d_cobjs : gmap positive consumer;
  d_next_addr : positive;
  d_consumers : list positive;          (* the global list, head first *)
  d_pending : list positive;
  d_cap_pending : nat;
  d_next_delivery_tag : Z;
  d_cluster : bool;
  d_consume_timer_on : bool;
  d_replicated : list (bytes * bytes * Z);
  d_fault : bool
}.

#[global] Instance dispatcher_settable : Settable dispatcher := fun d =>
  Dispatcher (d_self d) (d_world d) (d_net d) (d_conns d) (d_tearing_down d) (d_async_closing d) (d_async_sent d)
    (d_groups d) (d_gobjs d) (d_cobjs d) (d_next_addr d) (d_consumers d) (d_pending d) (d_cap_pending d)
    (d_next_delivery_tag d) (d_cluster d) (d_consume_timer_on d) (d_replicated d) (d_fault d).

Definition fault (d : dispatcher) : dispatcher := d <| d_fault := true |>.

Definition d_store (d : dispatcher) : store := w_store (d_world d).
Definition with_store (st : store) (d : dispatcher) : dispatcher := d <| d_world ::= fun w => w <| w_store := st |> |>.
Definition d_heap (f : heap -> heap) (d : dispatcher) : dispatcher := d <| d_world ::= w_heap f |>.

Definition d_malloc (d : dispatcher) : bool * dispatcher :=
  let '(ok, n) := n_malloc (d_net d) in (ok, d <| d_net := n |>).

(** A queue operation through its pointer. *)
Definition d_on_queue {A} (dflt : A) (p : positive) (f : queue -> sys -> A * queue * sys) (d : dispatcher) : A * dispatcher :=
  let '(a, st) := on_queue dflt p f (d_store d) in (a, with_store st d).

Definition d_at_queue {A} (dflt : A) (p : positive) (f : queue -> A) (d : dispatcher) : A := at_queue dflt p f (d_store d).

Definition pure_queue (p : positive) (f : queue -> queue) (d : dispatcher) : dispatcher :=
  snd (d_on_queue tt p (fun q s => (tt, f q, s)) d).

Definition d_unref (p : positive) (d : dispatcher) : dispatcher := with_store (qp_unref p (d_store d)) d.
Definition d_ref (p : positive) (d : dispatcher) : dispatcher := with_store (qp_ref p (d_store d)) d.

(** Putting a message back, whatever the caps; the code ignores all but the log. *)
Definition requeue (p : positive) (m : message) (d : dispatcher) : Z * dispatcher :=
  d_on_queue (-1) p (fun q s => queue_requeue_internal q m s) d.

(** * Construction *)

(** The draws are the struct, the map, the lock and the async handle. *)
Definition dispatcher_new (self : positive) (w : world M) (n : netst) (conns : gmap positive beaver_conn) : option dispatcher * netst :=
  let '(ok, n) := n_malloc n in
  if negb ok then (None, n)
  else
    let '(m, o) := pm_new (n_oracle n) in
    let n := n <| n_oracle := o |> in
    match m with
    | None => (None, n)
    | Some m =>
        let '(ok1, n) := n_malloc n in
        if negb ok1 then (None, n)
        else
          let '(ok2, n) := n_malloc n in
          if negb ok2 then (None, n)
          else (Some (Dispatcher self w n conns false false false m ∅ ∅ 1 [] [] 0 0 false false [] false), n)
    end.

(** ** Watermarks *)

Definition replicate_watermark (p : positive) (d : dispatcher) : dispatcher :=
  if negb (d_cluster d) then d
  else
    let wm := d_at_queue 0 p queue_consume_watermark d in
    if 0 <? wm then
      let '(fresh, d) := d_on_queue false p (fun q s => let '(b, q) := queue_consume_mark_replicated wm q in (b, q, s)) d in
      if fresh then
        d <| d_replicated ::= fun l => l ++ [(d_at_queue [] p queue_vhost d, d_at_queue [] p queue_name d, wm)] |>
      else d
    else d.

Definition consume_timer_cb (d : dispatcher) : dispatcher :=
  if negb (d_cluster d) then d
  else foldl (fun d c => match d_cobjs d !! c with Some x => replicate_watermark (cs_queue x) d | None => fault d end)
         d (d_consumers d).

Definition dispatcher_note_pull (q : positive) (cid : Z) (d : dispatcher) : dispatcher :=
  if negb (d_cluster d) || (cid =? 0) then d
  else
    let '(_, d) := d_on_queue tt q (fun q s => let '(q, s) := queue_consume_on_deliver cid true q s in (tt, q, s)) d in
    replicate_watermark q d.

Definition dispatcher_set_cluster (cluster : bool) (d : dispatcher) : dispatcher :=
  let d := d <| d_cluster := cluster |> in
  if cluster && negb (d_consume_timer_on d) then d <| d_consume_timer_on := true |> else d.

Definition dispatcher_request_close (d : dispatcher) : dispatcher :=
  if d_async_closing d then d else d <| d_async_closing := true |>.

(** * Notification *)

Definition dispatcher_notify (q : positive) (d : dispatcher) : dispatcher :=
  if d_async_closing d then d
  else if bool_decide (q ∈ d_pending d) then d
  else
    let '(ok, d) :=
      if (length (d_pending d) =? d_cap_pending d)%nat then
        let nc := if (d_cap_pending d =? 0)%nat then 8%nat else (d_cap_pending d * 2)%nat in
        let '(ok, d) := d_malloc d in
        (ok, if ok then d <| d_cap_pending := nc |> else d)
      else (true, d) in
    if ok then (d_ref q d) <| d_pending ::= fun l => l ++ [q] |> <| d_async_sent := true |> else d.

Definition dispatcher_queue_waiter (q : positive) (d : dispatcher) : dispatcher := dispatcher_notify q d.

(** The wakeups that the broker has sent to this dispatcher. *)
Definition take_wakeups (d : dispatcher) : dispatcher :=
  let mine := (WAITER_FN, d_self d) in
  let calls := snd <$> filter (fun wq => wq.1 = mine) (w_wakeups (d_world d)) in
  let d := d <| d_world ::= fun w => w <| w_wakeups ::= filter (fun wq => wq.1 <> mine) |> |> in
  foldl (fun d q => dispatcher_queue_waiter q d) d calls.

(** * Removing a consumer *)

(** One unacked delivery of a consumer that goes away. *)
Definition release_unacked (back : bool) (p : positive) (d : dispatcher) (u : Z * message) : dispatcher :=
  let d := if back then snd (requeue p u.2 d) else pure_queue p (queue_consume_on_ack (m_cluster_id u.2)) d in
  d_heap (message_unref (Some u.2)) d.

(** Out of its group; returns whether the group is now empty. *)
Definition group_remove (c : positive) (g : group) : group :=
  match list_find (fun x => x = c) (g_arr g) with
  | Some (i, _) =>
      let arr := swap_remove i (g_arr g) in
      g <| g_arr := arr |> <| g_rr ::= fun r => if Z.of_nat (length arr) <? r then 0 else r |>
  | None => g
  end.

(** The last consumer of the group is gone. *)
Definition drop_group (key : bytes) (ga : positive) (g : group) (d : dispatcher) : dispatcher :=
  let d := pure_queue (g_queue g) (queue_remove_waiter (WAITER_FN, d_self d)) d in
  let d := d <| d_groups ::= fun m => snd (pm_remove m key) |> in
  (d_unref (g_queue g) d) <| d_gobjs ::= delete ga |>.

Definition auto_delete (p : positive) (d : dispatcher) : dispatcher :=
  if negb (d_tearing_down d) && negb (Z.land (d_at_queue 0 p queue_flags d) BMQP_FLAG_AUTO_DELETE =? 0)
     && (d_at_queue 0 p queue_consumer_count d =? 0)
  then
    let '(_, _, w) :=
      broker_delete_queue (d_at_queue [] p queue_vhost d) (d_at_queue [] p queue_name d) false false (d_world d) in
    d <| d_world := w |>
  else d.

Definition consumer_destroy (cp : positive) (back : bool) (d : dispatcher) : dispatcher :=
  match d_cobjs d !! cp with
  | None => fault d
  | Some c =>
      let d := pure_queue (cs_queue c) queue_consumers_dec d in
      let d := foldl (release_unacked back (cs_queue c)) d (cs_unacked c) in
      let d := replicate_watermark (cs_queue c) d in
      match d_gobjs d !! cs_group c with
      | None => fault d
      | Some g =>
          let g := group_remove cp g in
          let d := d <| d_gobjs ::= <[cs_group c := g]> |> in
          let d := if (length (g_arr g) =? 0)%nat then drop_group (cs_queue_name c) (cs_group c) g d
                   else if back then dispatcher_notify (g_queue g) d else d in
          let d := auto_delete (cs_queue c) d in
          let d := d <| d_consumers ::= filter (fun x => x <> cp) |> in
          (d_unref (cs_queue c) d) <| d_cobjs ::= delete cp |>
      end
  end.

Definition free_group_value (d : dispatcher) (ga : positive) : dispatcher :=
  match d_gobjs d !! ga with
  | Some g => (d_unref (g_queue g) d) <| d_gobjs ::= delete ga |>
  | None => fault d
  end.

(** [while (d->consumers) consumer_destroy(d, d->consumers, 0)]. *)
Fixpoint destroy_all (fuel : nat) (d : dispatcher) : dispatcher :=
  match fuel, d_consumers d with
  | S fuel, c :: _ => destroy_all fuel (consumer_destroy c false d)
  | _, _ => d
  end.

(** The state in which the struct itself is freed. *)
Definition dispatcher_free (d : dispatcher) : dispatcher :=
  let d := d <| d_tearing_down := true |> in
  let d := destroy_all (length (d_consumers d)) d in
  let d := foldl free_group_value d (snd <$> pm_elems (d_groups d)) in
  (foldl (fun d q => d_unref q d) d (d_pending d)) <| d_pending := [] |>.

(** * Delivery *)

(** Room for one more unacked entry. *)
Definition consumer_reserve_unacked (c : consumer) (n : netst) : bool * consumer * netst :=
  if (length (cs_unacked c) <? cs_cap_unacked c)%nat then (true, c, n)
  else
    let nc := if (cs_cap_unacked c =? 0)%nat then 4%nat else (cs_cap_unacked c * 2)%nat in
    let '(ok, n) := n_malloc n in
    (ok, if ok then c <| cs_cap_unacked := nc |> else c, n).

(** The reference to [m] is the caller's; it is dropped when there is no room. *)
Definition consumer_add_unacked (tag : Z) (m : message) (c : consumer) (n : netst) (h : heap) : bool * consumer * netst * heap :=
  let '(ok, c, n) :=
    if (length (cs_unacked c) =? cs_cap_unacked c)%nat then
      let nc := if (cs_cap_unacked c =? 0)%nat then 4%nat else (cs_cap_unacked c * 2)%nat in
      let '(ok, n) := n_malloc n in
      (ok, if ok then c <| cs_cap_unacked := nc |> else c, n)
    else (true, c, n) in
  if ok then (true, c <| cs_unacked ::= fun l => l ++ [(tag, m)] |>, n, h) else (false, c, n, message_unref (Some m) h).

(** The Basic.Deliver method frame and the content header frame. *)
Definition delivery_head (channel : Z) (ctag : bytes) (tag : Z) (msg : message) (out : bufst) : bufst :=
  let '(mstart, out) := bmqp_frame_begin out BMQP_FRAME_METHOD channel in
  let out := bmqp_buf_put_u16 out BMQP_CLASS_BASIC in
  let out := bmqp_buf_put_u16 out BMQP_BASIC_DELIVER in
  let out := bmqp_buf_put_shortstr out (Some ctag) in
  let out := bmqp_buf_put_u64 out tag in
  let out := bmqp_buf_put_u8 out 0 in
  let out := bmqp_buf_put_shortstr out (Some (m_exchange msg)) in
  let out := bmqp_buf_put_shortstr out (Some (m_routing_key msg)) in
  let out := bmqp_frame_finish out mstart in
  let '(hstart, out) := bmqp_frame_begin out BMQP_FRAME_HEADER channel in
  let out := bmqp_buf_put_u16 out BMQP_CLASS_BASIC in
  let out := bmqp_buf_put_u16 out 0 in
  let out := bmqp_buf_put_u64 out (m_body_len msg) in
  let out := match m_props msg with [] => bmqp_buf_put_u16 out 0 | props => bmqp_buf_put_bytes out props end in
  bmqp_frame_finish out hstart.

(** The payload bytes of one body frame. *)
Definition chunk_of (frame_max : Z) : Z :=
  let fmax := if frame_max =? 0 then 131072 else frame_max in
  if BMQP_FRAME_OVERHEAD <? fmax then fmax - BMQP_FRAME_OVERHEAD else 4096.

(** The loop over the body; [fuel] counts the frames. *)
Fixpoint body_frames (fuel : nat) (chunk : Z) (channel : Z) (rem : bytes) (out : bufst) : bufst :=
  match fuel, rem with
  | S fuel, _ :: _ =>
      let n := Z.to_nat (if Z.of_nat (length rem) <? chunk then Z.of_nat (length rem) else chunk) in
      body_frames fuel chunk channel (drop n rem) (bmqp_frame_write out BMQP_FRAME_BODY channel (take n rem))
  | _, _ => out
  end.

(** The body does not fit one frame, or is empty. *)
Definition delivery_tail (chunk channel : Z) (body : bytes) (out : bufst) : bufst :=
  let rem := Z.of_nat (length body) in
  let out := if 0 <? rem then bmqp_buf_reserve out (rem + (rem + chunk - 1) / chunk * BMQP_FRAME_OVERHEAD) else out in
  body_frames (length body) chunk channel body out.

(** Building and sending one delivery: the return code of the send. *)
Definition send_message (channel : Z) (ctag : bytes) (tag : Z) (msg : message) (cn : beaver_conn) (n : netst) (h : heap)
    : Z * beaver_conn * netst * heap :=
  let out := delivery_head channel ctag tag msg (bmqp_buf_init, n_oracle n) in
  let chunk := chunk_of (cn_frame_max cn) in
  if (0 <? m_body_len msg) && (m_body_len msg <=? chunk) then
    let out := bmqp_buf_put_u8 out BMQP_FRAME_BODY in
    let out := bmqp_buf_put_u16 out channel in
    let '(out, o) := bmqp_buf_put_u32 out (u32 (m_body_len msg)) in
    let n := n <| n_oracle := o |> in
    if b_error out then (-1, cn, n, h) else beaver_conn_send_delivery (b_data out) msg cn n h
  else
    let '(out, o) := delivery_tail chunk channel (m_body msg) out in
    let n := n <| n_oracle := o |> in
    if b_error out then (-1, cn, n, h)
    else let '(rc, cn, n) := beaver_conn_send_owned (b_data out) cn n in (rc, cn, n, h).

(** What follows a successful send. *)
Definition record_delivery (cp : positive) (tag : Z) (msg : message) (d : dispatcher) : dispatcher :=
  match d_cobjs d !! cp with
  | None => fault d
  | Some c =>
      let d :=
        if cs_no_ack c then d
        else
          let d := d_heap (message_ref msg) d in
          let '(_, c, n, h) := consumer_add_unacked tag msg c (d_net d) (s_heap (w_sys (d_world d))) in
          (d_heap (fun _ => h) d) <| d_net := n |> <| d_cobjs ::= <[cp := c]> |> in
      snd (d_on_queue tt (cs_queue c)
             (fun q s => let '(q, s) := queue_consume_on_deliver (m_cluster_id msg) (cs_no_ack c) q s in (tt, q, s)) d)
  end.

Definition deliver (cp : positive) (msg : message) (d : dispatcher) : Z * dispatcher :=
  match d_cobjs d !! cp ≫= (fun c => pair c <$> d_conns d !! cs_conn c) with
  | None => (-1, fault d)
  | Some (c, cn) =>
      let tag := u64 (d_next_delivery_tag d + 1) in
      let '(sent, cn, n, h) :=
        send_message (cs_channel c) (cs_tag c) tag msg cn (d_net d) (s_heap (w_sys (d_world d))) in
      let d := (d_heap (fun _ => h) d) <| d_next_delivery_tag := tag |> <| d_net := n |> <| d_conns ::= <[cs_conn c := cn]> |> in
      if sent =? 0 then (0, record_delivery cp tag msg d) else (-1, d)
  end.

(** The search for a consumer that can take a message, from the round-robin cursor. *)
Fixpoint pick_consumer (tries : nat) (ga : positive) (d : dispatcher) : option positive * dispatcher :=
  match tries with
  | O => (None, d)
  | S tries =>
      match d_gobjs d !! ga with
      | None => (None, fault d)
      | Some g =>
          let i := Z.to_nat (g_rr g mod Z.of_nat (length (g_arr g))) in
          let d := d <| d_gobjs ::= <[ga := g <| g_rr := u64 (g_rr g + 1) |>]> |> in
          match g_arr g !! i ≫= (fun cp => d_cobjs d !! cp ≫= (fun c => (fun cn => (cp, c, cn)) <$> d_conns d !! cs_conn c)) with
          | None => (None, fault d)
          | Some (cp, cand, cn) =>
              if cn_closing cn then pick_consumer tries ga d
              else if cn_send_paused cn || beaver_conn_send_full cn then
                pick_consumer tries ga (d <| d_conns ::= <[cs_conn cand := cn <| cn_send_paused := true |>]> |>)
              else if negb (cs_no_ack cand) && negb (cs_prefetch cand =? 0) &&
                      (cs_prefetch cand <=? Z.of_nat (length (cs_unacked cand))) then pick_consumer tries ga d
              else if cs_no_ack cand then (Some cp, d)
              else
                let '(ok, cand, n) := consumer_reserve_unacked cand (d_net d) in
                let d := d <| d_net := n |> <| d_cobjs ::= <[cp := cand]> |> in
                if ok then (Some cp, d) else pick_consumer tries ga d
          end
      end
  end.

(** The loop of [service_group]; every round but the last takes a message from the
    queue, so [fuel] = one more than its depth reaches the end. *)
Fixpoint service_loop (fuel : nat) (ga : positive) (d : dispatcher) : dispatcher :=
  match fuel with
  | O => d
  | S fuel =>
      match d_gobjs d !! ga with
      | None => fault d
      | Some g =>
          if (length (g_arr g) =? 0)%nat then d
          else
            match pick_consumer (length (g_arr g)) ga d with
            | (None, d) => d
            | (Some cp, d) =>
                match d_on_queue None (g_queue g) queue_dequeue d with
                | (None, d) => d
                | (Some msg, d) =>
                    let '(rc, d) := deliver cp msg d in
                    if rc =? 0 then service_loop fuel ga (d_heap (message_unref (Some msg)) d)
                    else d_heap (message_unref (Some msg)) (snd (requeue (g_queue g) msg d))
                end
            end
      end
  end.

Definition service_group (ga : positive) (d : dispatcher) : dispatcher :=
  match d_gobjs d !! ga with
  | Some g => service_loop (S (d_at_queue 0%nat (g_queue g) queue_depth d)) ga d
  | None => fault d
  end.

(** One queue of the pending list. *)
Definition service_pending (d : dispatcher) (q : positive) : dispatcher :=
  let vkey := broker_vkey (Some (d_at_queue [] q queue_vhost d)) (Some (d_at_queue [] q queue_name d)) in
  let d :=
    match pm_get (d_groups d) vkey with
    | Some ga =>
        match d_gobjs d !! ga with
        | Some g => if (0 <? length (g_arr g))%nat then service_group ga d else d
        | None => fault d
        end
    | None => d
    end in
  d_unref q d.

Definition on_async (d : dispatcher) : dispatcher :=
  let list := d_pending d in
  let d := d <| d_pending := [] |> <| d_cap_pending := 0%nat |> <| d_async_sent := false |> in
  foldl service_pending d list.

(** * Registration *)

Definition group_add (cp : positive) (g : group) (n : netst) : bool * group * netst :=
  let '(ok, g, n) :=
    if (length (g_arr g) =? g_cap g)%nat then
      let nc := if (g_cap g =? 0)%nat then 4%nat else (g_cap g * 2)%nat in
      let '(ok, n) := n_malloc n in
      (ok, if ok then g <| g_cap := nc |> else g, n)
    else (true, g, n) in
  if ok then (true, g <| g_arr ::= fun l => l ++ [cp] |>, n) else (false, g, n).

(** The group of the key, or the address of a new one that is not yet registered. *)
Definition find_group (vkey : bytes) (d : dispatcher) : option positive * bool * dispatcher :=
  match pm_get (d_groups d) vkey with
  | Some ga => (Some ga, false, d)
  | None =>
      let '(ok, d) := d_malloc d in
      if ok then (Some (d_next_addr d), true, d <| d_next_addr ::= Pos.succ |>) else (None, true, d)
  end.

(** Registering a new group, with a reference of its own to the queue. *)
Definition register_group (vkey : bytes) (ga q : positive) (d : dispatcher) : bool * dispatcher :=
  let d := d_ref q d in
  let '(ok, _, m, o) := pm_put (d_groups d) vkey ga (n_oracle (d_net d)) in
  let d := d <| d_net ::= fun n => n <| n_oracle := o |> |> <| d_groups := m |> in
  if ok then (true, d <| d_gobjs ::= <[ga := Group q [] 0 0]> |>) else (false, d_unref q d).

(** Linking the consumer into its group and the global list, and announcing it. *)
Definition link_consumer (cp : positive) (c : consumer) (new_group : bool) (d : dispatcher) : Z * dispatcher :=
  match d_gobjs d !! cs_group c with
  | None => (-1, fault d)
  | Some g =>
      let '(ok, g, n) := group_add cp g (d_net d) in
      let d := d <| d_net := n |> <| d_gobjs ::= <[cs_group c := g]> |> in
      if ok then
        let d := d <| d_cobjs ::= <[cp := c]> |> <| d_consumers ::= cons cp |> in
        let d := pure_queue (cs_queue c) queue_consumers_inc d in
        let d := if new_group
                 then snd (d_on_queue tt (cs_queue c)
                        (fun q s => let '(q, s) := queue_add_waiter (WAITER_FN, d_self d) q s in (tt, q, s)) d)
                 else d in
        (0, dispatcher_notify (cs_queue c) d)
      else (-1, d_unref (cs_queue c) d)
  end.

Definition dispatcher_add_consumer (conn : positive) (channel : Z) (tag vhost queue_name : bytes) (no_ack : bool)
    (prefetch : Z) (d : dispatcher) : Z * dispatcher :=
  match broker_get_queue vhost queue_name (d_world d) with
  | (None, w) => (-1, d <| d_world := w |>)
  | (Some q, w) =>
      let d := d <| d_world := w |> in
      let vkey := broker_vkey (Some vhost) (Some queue_name) in
      let '(okc, d) := d_malloc d in
      let cp := d_next_addr d in
      let d := if okc then d <| d_next_addr ::= Pos.succ |> else d in
      let '(g, new_group, d) := find_group vkey d in
      match g with
      | None => (-1, d_unref q d)
      | Some ga =>
          if negb okc then (-1, d_unref q d)
          else
            let '(ok1, d) := d_malloc d in
            let '(ok2, d) := d_malloc d in
            if negb (ok1 && ok2) then (-1, d_unref q d)
            else
              let c := Consumer conn channel tag q vkey no_ack prefetch [] 0 ga in
              let '(ok, d) := if new_group then register_group vkey ga q d else (true, d) in
              if ok then link_consumer cp c new_group d else (-1, d_unref q d)
      end
  end.

(** * Settling *)

Definition tag_matches (multiple : bool) (delivery_tag t : Z) : bool :=
  if multiple then (delivery_tag =? 0) || (t <=? delivery_tag) else t =? delivery_tag.

(** [queue_dead_letter]: the re-router, when one is installed. *)
Definition dead_letter (fuel : nat) (p : positive) (m : message) (d : dispatcher) : option dispatcher :=
  if d_at_queue false p queue_has_dead_letter d then
    match broker_dead_letter_cb (broker_route fuel) p m (d_world d) with
    | Some w => Some (take_wakeups (d <| d_world := w |>))
    | None => None
    end
  else Some d.

(** One delivery that is settled. *)
Definition settle_one (fuel : nat) (p : positive) (back rejected : bool) (m : message) (d : dispatcher) : option dispatcher :=
  d ← (if back then Some (snd (requeue p m d))
       else
         d ← (if rejected then dead_letter fuel p m d else Some d);
         Some (pure_queue p (queue_consume_on_ack (m_cluster_id m)) d));
  Some (d_heap (message_unref (Some m)) d).

(** The loop over the unacked deliveries of the consumer at [cp], from index [i];
    [rounds] bounds the iterations.  Returns how many were settled. *)
Fixpoint settle_loop (fuel : nat) (rounds : nat) (cp : positive) (delivery_tag : Z) (multiple back rejected : bool)
    (i here : nat) (d : dispatcher) : option (nat * dispatcher) :=
  match rounds with
  | O => Some (here, d)
  | S rounds =>
      match d_cobjs d !! cp with
      | None => Some (here, fault d)
      | Some c =>
          match cs_unacked c !! i with
          | None => Some (here, d)
          | Some (t, m) =>
              if tag_matches multiple delivery_tag t then
                d ← settle_one fuel (cs_queue c) back rejected m d;
                let d := d <| d_cobjs ::= <[cp := c <| cs_unacked ::= swap_remove i |>]> |> in
                if multiple then settle_loop fuel rounds cp delivery_tag multiple back rejected i (S here) d
                else Some (S here, d)
              else settle_loop fuel rounds cp delivery_tag multiple back rejected (S i) here d
          end
      end
  end.

(** The loop over the global list. *)
Fixpoint settle_consumers (fuel : nat) (cps : list positive) (conn : positive) (channel delivery_tag : Z)
    (multiple back rejected : bool) (settled : nat) (d : dispatcher) : option (nat * dispatcher) :=
  match cps with
  | [] => Some (settled, d)
  | cp :: cps =>
      match d_cobjs d !! cp with
      | None => Some (settled, fault d)
      | Some c =>
          if bool_decide (cs_conn c <> conn) || negb (cs_channel c =? channel) then
            settle_consumers fuel cps conn channel delivery_tag multiple back rejected settled d
          else
            '(here, d) ← settle_loop fuel (length (cs_unacked c)) cp delivery_tag multiple back rejected 0 0 d;
            if (here =? 0)%nat then settle_consumers fuel cps conn channel delivery_tag multiple back rejected settled d
            else
              let d := dispatcher_notify (cs_queue c) d in
              if multiple then settle_consumers fuel cps conn channel delivery_tag multiple back rejected (settled + here) d
              else Some ((settled + here)%nat, d)
      end
  end.

Definition settle_unacked (fuel : nat) (conn : positive) (channel delivery_tag : Z) (multiple back rejected : bool)
    (d : dispatcher) : option (nat * dispatcher) :=
  settle_consumers fuel (d_consumers d) conn channel delivery_tag multiple back rejected 0 d.

Definition dispatcher_ack (fuel : nat) (conn : positive) (channel delivery_tag : Z) (multiple : bool) (d : dispatcher)
    : option dispatcher :=
  '(_, d) ← settle_unacked fuel conn channel delivery_tag multiple false false d; Some d.

Definition dispatcher_nack (fuel : nat) (conn : positive) (channel delivery_tag : Z) (multiple back : bool) (d : dispatcher)
    : option dispatcher :=
  '(_, d) ← settle_unacked fuel conn channel delivery_tag multiple back (negb back) d; Some d.

(** * Per-connection operations *)

Definition is_on (conn : positive) (channel : option Z) (c : consumer) : bool :=
  bool_decide (cs_conn c = conn) && match channel with Some ch => cs_channel c =? ch | None => true end.

(** A loop over the global list that acts on the consumers of the connection. *)
Definition for_consumers (conn : positive) (channel : option Z) (act : positive -> consumer -> dispatcher -> dispatcher)
    (d : dispatcher) : dispatcher :=
  foldl (fun d cp => match d_cobjs d !! cp with
                     | Some c => if is_on conn channel c then act cp c d else d
                     | None => fault d
                     end) d (d_consumers d).

Definition dispatcher_set_prefetch (conn : positive) (channel prefetch : Z) (d : dispatcher) : dispatcher :=
  for_consumers conn (Some channel)
    (fun cp c d => dispatcher_notify (cs_queue c) (d <| d_cobjs ::= <[cp := c <| cs_prefetch := prefetch |>]> |>)) d.

Definition dispatcher_resume_conn (conn : positive) (d : dispatcher) : dispatcher :=
  for_consumers conn None (fun _ c d => dispatcher_notify (cs_queue c) d) d.

(** The first consumer of the channel with the tag. *)
Definition find_consumer (conn : positive) (channel : Z) (tag : bytes) (d : dispatcher) : option positive :=
  snd <$> list_find (fun cp => match d_cobjs d !! cp with
                               | Some c => is_on conn (Some channel) c && bool_decide (cs_tag c = tag)
                               | None => false
                               end = true) (d_consumers d).

Definition dispatcher_cancel (conn : positive) (channel : Z) (tag : bytes) (d : dispatcher) : dispatcher :=
  match find_consumer conn channel tag d with
  | Some cp => consumer_destroy cp true d
  | None => d
  end.

Definition dispatcher_conn_has_consumers (conn : positive) (d : dispatcher) : bool :=
  existsb (fun cp => match d_cobjs d !! cp with Some c => is_on conn None c | None => false end) (d_consumers d).

Definition dispatcher_remove_connection (conn : positive) (d : dispatcher) : dispatcher :=
  for_consumers conn None (fun cp _ d => consumer_destroy cp true d) d.

Definition dispatcher_remove_channel (conn : positive) (channel : Z) (d : dispatcher) : dispatcher :=
  for_consumers conn (Some channel) (fun cp _ d => consumer_destroy cp true d) d.

(** * The network layer's calls *)

(** [on_write], with the size of the write queue that libuv reports. *)
Definition on_write (conn : positive) (size : Z) (d : dispatcher) : dispatcher :=
  match d_conns d !! conn with
  | None => fault d
  | Some cn =>
      let '(cn, resume, h) := on_write_done size cn (s_heap (w_sys (d_world d))) in
      let d := (d_heap (fun _ => h) d) <| d_conns ::= <[conn := cn]> |> in
      if resume then dispatcher_resume_conn conn d else d
  end.

(** The first part of [beaver_conn_close]. *)
Definition drop_conn (conn : positive) (d : dispatcher) : dispatcher :=
  match d_conns d !! conn with
  | None => fault d
  | Some cn =>
      if cn_closing cn then d
      else dispatcher_remove_connection conn (d <| d_conns ::= <[conn := cn <| cn_closing := true |>]> |>)
  end.
End Dispatch.
#[global] Arguments dispatcher : clear implicits.
