(* ===== verification/DispatchInv.v ===== *)
(** The invariant of the dispatcher (Dispatch.v): the consumers, the groups and the
    registry agree, and the references the dispatcher holds, to queues and to
    messages, are the ones the store counts; every operation keeps it. *)

From S2P Require Import Prelude Tables Frame HashMap Message Queue Store Exchange Broker BrokerRoute BrokerSpec BrokerDelivery Net Dispatch.

(** * Permutations of concatenations *)

(** [r] is [x] in front of [rest], up to the order. *)
Class Front {A} (x r rest : list A) : Prop := front : r ≡ₚ x ++ rest.
#[global] Hint Mode Front + + + - : typeclass_instances.

#[global] Instance front_here {A} (x : list A) : Front x x [] | 0.
Proof. unfold Front. by rewrite app_nil_r. Qed.
#[global] Instance front_head {A} (a : A) l : Front [a] (a :: l) l | 0.
Proof. unfold Front. done. Qed.
#[global] Instance front_l {A} (x l1 l2 r : list A) : Front x l1 r -> Front x (l1 ++ l2) (r ++ l2) | 1.
Proof. unfold Front. intros ->. by rewrite app_assoc. Qed.
#[global] Instance front_r {A} (x l1 l2 r : list A) : Front x l2 r -> Front x (l1 ++ l2) (l1 ++ r) | 2.
Proof. unfold Front. intros ->. rewrite !app_assoc. by rewrite (Permutation_app_comm l1). Qed.
#[global] Instance front_tail {A} (x : list A) a l r : Front x l r -> Front x (a :: l) (a :: r) | 2.
Proof. unfold Front. intros ->. by rewrite Permutation_middle. Qed.

Lemma perm_step {A} (x l r r' : list A) : Front x r r' -> l ≡ₚ r' -> x ++ l ≡ₚ r.
Proof. unfold Front. by intros -> ->. Qed.
Lemma perm_last {A} (x r r' : list A) : Front x r r' -> [] ≡ₚ r' -> x ≡ₚ r.
Proof. unfold Front. intros -> <-. by rewrite app_nil_r. Qed.
Lemma perm_assoc {A} (l1 l2 l3 r : list A) : l1 ++ (l2 ++ l3) ≡ₚ r -> (l1 ++ l2) ++ l3 ≡ₚ r.
Proof. by rewrite app_assoc. Qed.

(** Equal concatenations up to the order of their parts. *)
Ltac solve_perm :=
  repeat lazymatch goal with
  | |- [] ≡ₚ _ => rewrite ?app_nil_r; reflexivity
  | |- (?a :: ?l) ++ ?l' ≡ₚ ?r => change (a :: (l ++ l') ≡ₚ r)
  | |- ?a :: ?l ≡ₚ ?r => apply (perm_step [a] l r _ _)
  | |- (_ ++ _) ++ _ ≡ₚ _ => apply perm_assoc
  | |- [] ++ ?l ≡ₚ ?r => change (l ≡ₚ r)
  | |- ?x ++ ?l ≡ₚ ?r => apply (perm_step x l r _ _)
  | |- ?x ≡ₚ ?r => apply (perm_last x r _ _)
  end.

(** * What the objects of a table hold *)

Section Gather.
Context {A B : Type} (f : A -> list B).
Implicit Types (m : gmap positive A).

Definition gather m : list B := map_to_list m ≫= (fun x => f x.2).

Lemma gather_split m k a : m !! k = Some a -> gather m ≡ₚ f a ++ gather (delete k m).
Proof.
  intros Hk. unfold gather. rewrite <- (insert_delete_id m k a Hk) at 1.
  by rewrite map_to_list_insert by apply lookup_delete_eq.
Qed.

Lemma gather_insert m k a : gather (<[k := a]> m) ≡ₚ f a ++ gather (delete k m).
Proof. rewrite (gather_split (<[k := a]> m) k a) by apply lookup_insert_eq. by rewrite delete_insert_eq. Qed.

Lemma gather_new m k a : m !! k = None -> gather (<[k := a]> m) ≡ₚ f a ++ gather m.
Proof. intros Hk. by rewrite gather_insert, delete_id. Qed.

(** An object that changes without its holdings changing. *)
Lemma gather_same m k a a' : m !! k = Some a -> f a' = f a -> gather (<[k := a']> m) ≡ₚ gather m.
Proof. intros Hk Hf. by rewrite gather_insert, Hf, <- (gather_split m k a Hk). Qed.

Lemma elem_of_gather m x : x ∈ gather m <-> exists k a, m !! k = Some a /\ x ∈ f a.
Proof.
  unfold gather. rewrite list_elem_of_bind. split.
  - intros ([k a] & Hx & Hin%elem_of_map_to_list). eauto.
  - intros (k & a & Hk & Hx). exists (k, a). split; [done|]. by apply elem_of_map_to_list.
Qed.

End Gather.

(** * Operations on the broker's state through a pointer *)

(** What an operation on one queue may do: [F] becomes [F']. *)
Record op_ok (F F' : list message) (q : queue) (s : sys) (q' : queue) (s' : sys) : Prop := OpOk {
  oo_inv : queue_ok q';
  oo_refs : q_refcount q' = q_refcount q;
  oo_alarm : alarm_kept q s q' s';
  oo_ample : ample s -> ample s';
  oo_elems : forall m, m ∈ contents q' ++ F' -> m ∈ contents q ++ F
}.

Definition op_spec {A} (F : list message) (F' : A -> list message) (f : queue -> sys -> A * queue * sys) (q : queue) (s : sys)
    : Prop :=
  forall X, queue_ok q -> holds (s_heap s) (contents q ++ X ++ F) ->
  let '(a, q', s') := f q s in op_ok F (F' a) q s q' s' /\ holds (s_heap s') (contents q' ++ X ++ F' a).

(** Operations that leave the messages alone. *)
Lemma op_spec_pure {A} F (f : queue -> sys -> A * queue * sys) q s a q' s' :
  f q s = (a, q', s') ->
  (queue_ok q -> qinv q' (contents q) /\ q_refcount q' = q_refcount q /\ alarm_kept q s q' s' /\
     (ample s -> ample s') /\ (forall X, holds (s_heap s) X -> holds (s_heap s') X)) ->
  op_spec F (fun _ => F) f q s.
Proof.
  intros E Hall X Hok HX. rewrite E. destruct (Hall Hok) as (Hq & Hr & Ha & Ho & Hh).
  pose proof (qinv_contents _ _ Hq) as Hcont. split; [constructor; try done|].
  - by eapply qinv_ok.
  - by rewrite Hcont.
  - rewrite Hcont. auto.
Qed.

Lemma op_consumers (k : Z -> Z) F q s : op_spec F (fun _ => F) (fun q s => (tt, q <| q_consumers ::= k |>, s)) q s.
Proof. eapply op_spec_pure; [done|]. intros []. split_and!; try done. Qed.

Lemma op_on_ack cid F q s : op_spec F (fun _ => F) (fun q s => (tt, queue_consume_on_ack cid q, s)) q s.
Proof.
  eapply op_spec_pure; [done|]. intros Hok. destruct (on_ack_spec cid q (qi_tracking _ _ Hok)) as (H1 & H2 & _).
  split_and!; try done; [by eapply qinv_tracking | by rewrite H2 | unfold alarm_kept; by rewrite H2].
Qed.

Lemma op_mark_replicated wm F q s :
  op_spec F (fun _ => F) (fun q s => let '(b, q) := queue_consume_mark_replicated wm q in (b, q, s)) q s.
Proof.
  unfold queue_consume_mark_replicated. destruct (q_consume_replicated q <? wm) eqn:E.
  - eapply op_spec_pure; [by rewrite E|]. intros []. split_and!; try done.
  - eapply op_spec_pure; [by rewrite E|]. done.
Qed.

Lemma op_on_deliver cid no_ack F q s :
  0 <= cid < 2 ^ 64 ->
  op_spec F (fun _ => F) (fun q s => let '(q, s) := queue_consume_on_deliver cid no_ack q s in (tt, q, s)) q s.
Proof.
  intros Hcid. destruct (queue_consume_on_deliver cid no_ack q s) as [q' s'] eqn:E.
  eapply (op_spec_pure F _ q s tt q' s'); [by rewrite E|]. intros Hok.
  destruct (on_deliver_spec _ _ _ _ _ _ (qi_tracking _ _ Hok) Hcid E) as (H1 & H2 & H3 & H4 & _).
  split_and!; [by eapply qinv_tracking | by rewrite H2 | apply H3 | apply H3 | done].
Qed.

Lemma op_remove_waiter x F q s : op_spec F (fun _ => F) (fun q s => (tt, queue_remove_waiter x q, s)) q s.
Proof.
  eapply op_spec_pure; [done|]. intros Hok. destruct (remove_waiter_spec x q (qi_waiters _ _ Hok)) as [H1 _].
  revert H1. unfold queue_remove_waiter. destruct (list_find _ _) as [[i y]|]; [|done].
  intros H1. destruct Hok. split_and!; try done.
Qed.

Lemma op_add_waiter x F q s :
  op_spec F (fun _ => F) (fun q s => let '(q, s) := queue_add_waiter x q s in (tt, q, s)) q s.
Proof.
  destruct (queue_add_waiter x q s) as [q' s'] eqn:E. eapply (op_spec_pure F _ q s tt q' s'); [by rewrite E|].
  intros Hok. destruct (add_waiter_spec _ _ _ _ _ (qi_waiters _ _ Hok) E) as (H1 & _ & H2). revert E H1 H2.
  unfold queue_add_waiter. case_bool_decide; [by intros [= <- <-]|].
  destruct (length (q_waiters q) =? q_cap_waiters q)%nat.
  - destruct (s_malloc s) as [ok s1] eqn:Em. apply s_malloc_spec in Em as (_ & Ha & Hh & _).
    destruct ok; intros [= <- <-] H1 H2; destruct Hok; split_and!; try done; try (unfold alarm_kept; simpl; by rewrite Ha); apply H2.
  - intros [= <- <-] H1 H2. destruct Hok. split_and!; try done.
Qed.

Lemma op_dequeue F q s : op_spec F (fun r => option_list r ++ F) queue_dequeue q s.
Proof.
  intros X Hok HX. destruct (queue_dequeue q s) as [[r q'] s'] eqn:E.
  destruct (dequeue_spec q s (X ++ F) r q' s' (contents q) Hok HX E) as ([Hs _ Ha Ho] & Hh & -> & Hq').
  pose proof (qinv_contents _ _ Hq') as Hc.
  assert (Hsplit : contents q = option_list (head (contents q)) ++ tail (contents q)) by (by destruct (contents q)).
  split; [constructor; try done|].
  - by eapply qinv_ok.
  - unfold q_static in Hs. by injection Hs as _ _ _ _ _ _ _ _ _ _ _ _ -> _.
  - intros m. rewrite Hc. clear. destruct (contents q); set_solver.
  - rewrite Hc. rewrite Hsplit in Hh at 1. eapply holds_proper; [|exact Hh]. solve_perm.
Qed.

Lemma op_requeue m F q s :
  m ∈ F -> op_spec F (fun _ => F) (fun q s => queue_requeue_internal q m s) q s.
Proof.
  intros Hm X Hok HX. destruct (queue_requeue_internal q m s) as [[rc q'] s'] eqn:E.
  destruct (requeue_spec q m s (X ++ F) rc q' s' (contents q) Hok HX ltac:(set_solver) E) as ([Hs _ Ha Ho] & Hor).
  unfold q_static in Hs. injection Hs as _ _ _ _ _ _ _ _ _ _ _ _ Hs _.
  destruct Hor as [(_ & Hq' & Hh)|(_ & _ & Hq' & Hh)]; rewrite (qinv_contents _ _ Hq');
    (split; [constructor; try done; [by eapply qinv_ok | rewrite (qinv_contents _ _ Hq'); set_solver] | done]).
Qed.

Section Invariant.
Context {M : Type} `{!PtrMap M} `{!PtrMapLaws M}.
Implicit Types (w : world M) (d : dispatcher M).

(** The broker with the queue at [p] replaced. *)
Definition set_queue (p : positive) (q : queue) (s : sys) w : world M :=
  w <| w_store := Store s (<[p := q]> (st_queues (w_store w))) (st_next (w_store w)) |>.

Lemma world_live w R F p : world_ok w R F -> p ∈ owned_refs w ++ R -> exists q, st_queues (w_store w) !! p = Some q.
Proof. intros Hw Hp. apply (so_live _ _ _ (wo_store _ _ _ Hw) p Hp). Qed.

Lemma world_on_queue {A} (dflt : A) p f w R F F' :
  world_ok w R F -> p ∈ owned_refs w ++ R -> (forall q, st_queues (w_store w) !! p = Some q -> op_spec F F' f q (w_sys w)) ->
  exists q a q' s', st_queues (w_store w) !! p = Some q /\ f q (w_sys w) = (a, q', s') /\
    on_queue dflt p f (w_store w) = (a, w_store (set_queue p q' s' w)) /\
    world_ok (set_queue p q' s' w) R (F' a) /\ op_ok F (F' a) q (w_sys w) q' s'.
Proof.
  intros Hw Hp Hop. pose proof (wo_store _ _ _ Hw) as Hst. destruct (world_live _ _ _ _ Hw Hp) as [q Hq].
  pose proof (so_queues _ _ _ Hst _ _ Hq) as Hqok. pose proof (fun X => Hop q Hq X Hqok) as Hspec.
  destruct (f q (w_sys w)) as [[a q'] s'] eqn:E. exists q, a, q', s'.
  assert (Hh : holds (s_heap (w_sys w)) (contents q ++ messages_of (delete p (st_queues (w_store w))) ++ F)).
  { rewrite app_assoc, <- (messages_split _ _ _ Hq). apply Hst. }
  destruct (Hspec _ Hh) as [Hok _]. pose proof Hok as [H1 H2 H3 H4 H5]. split_and!; try done.
  { unfold on_queue. rewrite Hq. unfold w_sys in E. by rewrite E. }
  eapply world_ok_regs; [done | done | |].
  - apply (store_replace _ _ q q' s' _ F (F' a) (contents q')); try done. intros X HX. by apply Hspec.
  - unfold msgs_ok, stored, set_queue. simpl. pose proof (wo_msgs _ _ _ Hw) as Hm. unfold msgs_ok, stored in Hm.
    rewrite Forall_forall in Hm |- *. setoid_rewrite (messages_split _ _ _ Hq) in Hm. setoid_rewrite messages_insert.
    intros m Hin. apply Hm. specialize (H5 m). set_solver.
Qed.

(** A client takes or drops a reference to a queue. *)
Lemma world_ref w p R F :
  world_ok w R F -> p ∈ owned_refs w ++ R -> world_ok (w <| w_store ::= qp_ref p |>) (p :: R) F.
Proof.
  intros Hw Hp. destruct (qp_ref_ok _ _ _ _ (wo_store _ _ _ Hw) Hp) as (Hst & _ & _ & Hs).
  eapply world_ok_regs; [done | done | |].
  - simpl. by rewrite <- Permutation_middle.
  - unfold stored. simpl. rewrite (same_queues_messages _ _ Hs). apply Hw.
Qed.

Lemma world_drop w p R F : world_ok w (p :: R) F -> world_ok (w <| w_store ::= qp_unref p |>) R F.
Proof.
  intros Hw. pose proof (wo_store _ _ _ Hw) as Hst. rewrite <- Permutation_middle in Hst.
  eapply world_ok_regs; [done | done | by apply (qp_unref_ok _ _ _ _ Hst) |].
  pose proof (wo_msgs _ _ _ Hw) as Hm. unfold msgs_ok in *. rewrite Forall_forall in Hm |- *.
  intros m [Hin|Hin]%elem_of_app; apply Hm; [|set_solver]. apply elem_of_app. left. by eapply unref_messages.
Qed.

#[global] Instance world_ok_proper w : Proper ((≡ₚ) ==> (≡ₚ) ==> iff) (world_ok w).
Proof.
  assert (Himp : forall R1 R2 F1 F2, R1 ≡ₚ R2 -> F1 ≡ₚ F2 -> world_ok w R1 F1 -> world_ok w R2 F2).
  { intros R1 R2 F1 F2 HR HF Hw. eapply world_ok_regs; [done | done | |].
    - rewrite <- HR, <- HF. apply Hw.
    - pose proof (wo_msgs _ _ _ Hw) as Hm. unfold msgs_ok in *. by rewrite <- HF. }
  intros R1 R2 HR F1 F2 HF. split; apply Himp; done.
Qed.

(** The heap of the messages. *)
Lemma world_heap w f R F F' :
  world_ok w R F -> (forall X, holds (s_heap (w_sys w)) (X ++ F) -> holds (f (s_heap (w_sys w))) (X ++ F')) -> msgs_ok F' ->
  world_ok (w_heap f w) R F'.
Proof.
  intros Hw Hf Hm. destruct (rstate_heap w f _ F F' (world_rstate _ _ _ Hw) Hf Hm) as (H1 & _ & H3).
  by eapply rstate_world.
Qed.

Lemma world_msgs w R F m : world_ok w R F -> m ∈ F -> msg_ok m.
Proof.
  intros Hw Hm. pose proof (wo_msgs _ _ _ Hw) as H. unfold msgs_ok in H. rewrite Forall_forall in H.
  apply H. set_solver.
Qed.

Lemma world_unref_msg w m R F : world_ok w R (m :: F) -> world_ok (w_heap (message_unref (Some m)) w) R F.
Proof.
  intros Hw. eapply world_heap; [done | |].
  - intros X HX. apply holds_unref. by rewrite Permutation_middle.
  - pose proof (wo_msgs _ _ _ Hw) as H. unfold msgs_ok in *. rewrite Forall_forall in H |- *. set_solver.
Qed.

Lemma world_ref_msg w m R F : world_ok w R F -> m ∈ F -> world_ok (w_heap (message_ref m) w) R (m :: F).
Proof.
  intros Hw Hm. eapply world_heap; [done | |].
  - intros X HX. rewrite <- Permutation_middle. apply holds_ref; [done | set_solver].
  - pose proof (wo_msgs _ _ _ Hw) as H. unfold msgs_ok in *. rewrite Forall_forall in H |- *. set_solver.
Qed.

(** * The dispatcher's primitives *)

(** Only the broker's state, and the log of the watermarks, change. *)
Definition moved d d' : Prop := d' = d <| d_world := d_world d' |> <| d_replicated := d_replicated d' |>.

Lemma moved_refl d : moved d d.
Proof. by destruct d. Qed.

Lemma moved_trans d1 d2 d3 : moved d1 d2 -> moved d2 d3 -> moved d1 d3.
Proof. unfold moved. intros -> H. rewrite H. done. Qed.

Lemma moved_world f d : moved d (d <| d_world ::= f |>).
Proof. done. Qed.

(** The broker's state [w] after a step of a client from [w0]: the registries and
    the log of the callbacks are the same and allocation still succeeds. *)
Definition calm w0 w : Prop :=
  same_regs w0 w /\ w_wakeups w = w_wakeups w0 /\ (ample (w_sys w0) -> ample (w_sys w)).

Lemma calm_refl w : calm w w.
Proof. done. Qed.

Lemma calm_trans w1 w2 w3 : calm w1 w2 -> calm w2 w3 -> calm w1 w3.
Proof. intros (A1 & A2 & A3) (B1 & B2 & B3). split_and!; [by eapply same_regs_trans | congruence | auto]. Qed.

Lemma calm_refs w w' : calm w w' -> owned_refs w' = owned_refs w.
Proof. intros [H _]. by apply owned_refs_regs. Qed.

Section Client.
Context (p : positive) (d : dispatcher M) (R : list positive) (F : list message).
Hypothesis (Hw : world_ok (d_world d) R F) (Hp : p ∈ owned_refs (d_world d) ++ R).

(** The queue at [p] updated by [f]. *)
Lemma d_on_queue_ok {A} (dflt : A) f F' :
  (forall q, st_queues (d_store d) !! p = Some q -> op_spec F F' f q (w_sys (d_world d))) ->
  exists q a q' s', st_queues (d_store d) !! p = Some q /\ f q (w_sys (d_world d)) = (a, q', s') /\
    d_on_queue dflt p f d = (a, d <| d_world ::= set_queue p q' s' |>) /\
    world_ok (set_queue p q' s' (d_world d)) R (F' a) /\ calm (d_world d) (set_queue p q' s' (d_world d)).
Proof.
  intros Hop. destruct (world_on_queue dflt p f (d_world d) R F F' Hw Hp Hop) as (q & a & q' & s' & Hq & E & Eq & Hw' & Hok).
  exists q, a, q', s'. split_and!; try done; [unfold d_on_queue, d_store; by rewrite Eq|].
  split_and!; [done | done | apply Hok].
Qed.

Lemma pure_queue_ok f :
  (forall q, op_spec F (fun _ => F) (fun q s => (tt, f q, s)) q (w_sys (d_world d))) ->
  exists q, st_queues (d_store d) !! p = Some q /\
    pure_queue p f d = d <| d_world ::= set_queue p (f q) (w_sys (d_world d)) |> /\
    world_ok (set_queue p (f q) (w_sys (d_world d)) (d_world d)) R F /\
    calm (d_world d) (set_queue p (f q) (w_sys (d_world d)) (d_world d)).
Proof.
  intros Hop. destruct (d_on_queue_ok tt (fun q s => (tt, f q, s)) (fun _ => F)) as (q & a & q' & s' & Hq & E & Eq & Hw' & Hc).
  { intros q _. apply Hop. }
  injection E as <- <- <-. exists q. unfold pure_queue. rewrite Eq. by split_and!.
Qed.

Lemma requeue_ok m : m ∈ F ->
  exists q q' s' rc, st_queues (d_store d) !! p = Some q /\ queue_requeue_internal q m (w_sys (d_world d)) = (rc, q', s') /\
    requeue p m d = (rc, d <| d_world ::= set_queue p q' s' |>) /\
    world_ok (set_queue p q' s' (d_world d)) R F /\ calm (d_world d) (set_queue p q' s' (d_world d)).
Proof.
  intros Hm. destruct (d_on_queue_ok (-1) (fun q s => queue_requeue_internal q m s) (fun _ => F)) as (q & a & q' & s' & H).
  { intros q _. by apply op_requeue. }
  exists q, q', s', a. exact H.
Qed.

Lemma replicate_watermark_ok :
  let d' := replicate_watermark p d in
  world_ok (d_world d') R F /\ moved d d' /\ calm (d_world d) (d_world d').
Proof.
  unfold replicate_watermark. destruct (d_cluster d); cbn [negb]; [|split_and!; auto using moved_refl, calm_refl].
  destruct (0 <? _); [|split_and!; auto using moved_refl, calm_refl].
  set (wm := d_at_queue 0 p queue_consume_watermark d).
  destruct (d_on_queue_ok false (fun q s => let '(b, q) := queue_consume_mark_replicated wm q in (b, q, s)) (fun _ => F))
    as (q & a & q' & s' & _ & _ & Eq & Hw' & Hc); [intros; apply op_mark_replicated|].
  rewrite Eq. by destruct a.
Qed.
End Client.

Lemma d_unref_ok p d R F :
  world_ok (d_world d) (p :: R) F ->
  world_ok (d_world (d_unref p d)) R F /\ moved d (d_unref p d) /\ calm (d_world d) (d_world (d_unref p d)).
Proof.
  intros Hw. split_and!; [by apply world_drop | done |]. split_and!; [done | done |].
  pose proof (wo_store _ _ _ Hw) as Hst. rewrite <- Permutation_middle in Hst. apply (qp_unref_ok _ _ _ _ Hst).
Qed.

Lemma d_ref_ok p d R F :
  world_ok (d_world d) R F -> p ∈ owned_refs (d_world d) ++ R ->
  world_ok (d_world (d_ref p d)) (p :: R) F /\ moved d (d_ref p d) /\ calm (d_world d) (d_world (d_ref p d)).
Proof.
  intros Hw Hp. split_and!; [by apply world_ref | done |]. split_and!; [done | done |].
  destruct (qp_ref_ok _ _ _ _ (wo_store _ _ _ Hw) Hp) as (_ & Hs & _). unfold d_ref, with_store, d_store, w_sys. simpl.
  by rewrite Hs.
Qed.

Lemma d_unref_msg_ok m d R F :
  world_ok (d_world d) R (m :: F) -> let d' := d_heap (message_unref (Some m)) d in
  world_ok (d_world d') R F /\ moved d d' /\ calm (d_world d) (d_world d').
Proof.
  intros Hw. split_and!; [by apply world_unref_msg | done |]. split_and!; [done | done |].
  unfold ample, d_heap, w_sys. simpl. by rewrite message_unref_oracle.
Qed.

(** The unacked deliveries of a consumer that goes away. *)
Lemma release_all_ok back p us : forall d R F,
  world_ok (d_world d) R (us.*2 ++ F) -> p ∈ R ->
  let d' := foldl (release_unacked back p) d us in
  world_ok (d_world d') R F /\ moved d d' /\ calm (d_world d) (d_world d').
Proof.
  induction us as [|[t m] us IH]; intros d R F Hw Hp; cbn [foldl]; [split_and!; auto using moved_refl, calm_refl|].
  assert (Hstep : exists d1, release_unacked back p d (t, m) = d_heap (message_unref (Some m)) d1 /\
    world_ok (d_world d1) R (m :: us.*2 ++ F) /\ moved d d1 /\ calm (d_world d) (d_world d1)).
  { unfold release_unacked. cbn [snd]. destruct back.
    - destruct (requeue_ok p d R _ Hw ltac:(set_solver) m ltac:(set_solver)) as (q & q' & s' & rc & _ & _ & -> & Hw1 & Hc1).
      by eexists.
    - destruct (pure_queue_ok p d R _ Hw ltac:(set_solver) (queue_consume_on_ack (m_cluster_id m)))
        as (q & _ & -> & Hw1 & Hc1); [intros; apply op_on_ack|]. by eexists. }
  destruct Hstep as (d1 & -> & Hw1 & Hm1 & Hc1).
  destruct (d_unref_msg_ok m d1 R _ Hw1) as (Hw2 & Hm2 & Hc2).
  destruct (IH _ R F Hw2 Hp) as (Hw3 & Hm3 & Hc3). cbv zeta.
  split_and!; [done | by eapply moved_trans, moved_trans | by eapply calm_trans, calm_trans].
Qed.

Lemma unbind_wakeups q l : forall w, w_wakeups (foldl (fun w (kv : bytes * positive) => unbind_queue_cb q w kv.2) w l) = w_wakeups w.
Proof.
  induction l as [|[k e] l IH]; intros w; [done|]. cbn [foldl]. rewrite IH. unfold unbind_queue_cb.
  destruct (w_xobjs w !! _); [|done]. by destruct (exchange_unbind_queue _ _ _) as [[? ?] ?].
Qed.

Lemma auto_delete_ok p d R F :
  world_ok (d_world d) R F -> let d' := auto_delete p d in
  world_ok (d_world d') R F /\ moved d d' /\ w_wakeups (d_world d') = w_wakeups (d_world d) /\
  (ample (w_sys (d_world d)) -> ample (w_sys (d_world d'))).
Proof.
  intros Hw. unfold auto_delete. destruct (_ && _); [|split_and!; auto using moved_refl].
  destruct (broker_delete_queue _ _ false false (d_world d)) as [[rc depth] w'] eqn:E.
  destruct (delete_queue_spec _ _ _ _ _ _ _ _ _ _ Hw E) as (Hw' & Ho & _). split_and!; try done.
  revert E. unfold broker_delete_queue. cbn [d_world]. destruct (pm_get _ _); [|by intros [= _ _ <-]]. cbn [andb].
  destruct (pm_remove _ _) as [v m]. intros [= _ _ <-]. simpl. apply unbind_wakeups.
Qed.

(** * The invariant *)

Definition d_refs d : list positive :=
  gather (fun g => [g_queue g]) (d_gobjs d) ++ gather (fun c => [cs_queue c]) (d_cobjs d) ++ d_pending d.

Definition d_msgs d : list message :=
  gather (fun c => (cs_unacked c).*2) (d_cobjs d) ++ gather (fun cn => omap id (cn_writes cn)) (d_conns d).

(** A connection that is not being closed: neither its own flag nor its socket says so. *)
Definition flags (cn : beaver_conn) : bool * bool := (cn_closing cn, cn_tcp_closing cn).
Definition shut (cn : beaver_conn) : bool := (flags cn).1 || (flags cn).2.
Definition live_conn d (k : positive) : Prop := exists cn, d_conns d !! k = Some cn /\ shut cn = false.

Definition consumer_ok d (cp : positive) (c : consumer) : Prop :=
  (exists g, d_gobjs d !! cs_group c = Some g /\ cp ∈ g_arr g) /\
  pm_map (d_groups d) !! cs_queue_name c = Some (cs_group c) /\
  live_conn d (cs_conn c) /\ (length (cs_unacked c) <= cs_cap_unacked c)%nat.

Definition group_ok d (ga : positive) (g : group) : Prop :=
  NoDup (g_arr g) /\ (length (g_arr g) <= g_cap g)%nat /\
  forall cp, cp ∈ g_arr g -> exists c, d_cobjs d !! cp = Some c /\ cs_group c = ga.

(** The consumers, their groups, the registry and the global list agree. *)
Record wired d : Prop := Wired {
  wi_fault : d_fault d = false;
  wi_list : NoDup (d_consumers d);
  wi_dom : forall cp, cp ∈ d_consumers d <-> is_Some (d_cobjs d !! cp);
  wi_map : pm_ok (d_groups d);
  wi_registered : forall ga g, d_gobjs d !! ga = Some g -> exists k, pm_map (d_groups d) !! k = Some ga;
  wi_groups : forall k ga, pm_map (d_groups d) !! k = Some ga -> is_Some (d_gobjs d !! ga);
  wi_inj : forall k1 k2 ga, pm_map (d_groups d) !! k1 = Some ga -> pm_map (d_groups d) !! k2 = Some ga -> k1 = k2;
  wi_cfresh : forall cp c, d_cobjs d !! cp = Some c -> (cp < d_next_addr d)%positive;
  wi_gfresh : forall ga g, d_gobjs d !! ga = Some g -> (ga < d_next_addr d)%positive;
  wi_consumer : forall cp c, d_cobjs d !! cp = Some c -> consumer_ok d cp c;
  wi_group : forall ga g, d_gobjs d !! ga = Some g -> group_ok d ga g
}.

(** [R] and [F] are the references held by the rest of the process. *)
Record disp_ok d (R : list positive) (F : list message) : Prop := DispOk {
  do_wired : wired d;
  do_world : world_ok (d_world d) (d_refs d ++ R) (d_msgs d ++ F);
  do_heard : Forall (fun x => x.1 <> (WAITER_FN, d_self d)) (w_wakeups (d_world d))
}.

(** What [wired] is about. *)
Definition same_wires d d' : Prop :=
  (d_self d', d_conns d', d_groups d', d_gobjs d', d_cobjs d', d_next_addr d', d_consumers d', d_fault d') =
  (d_self d, d_conns d, d_groups d, d_gobjs d, d_cobjs d, d_next_addr d, d_consumers d, d_fault d).

Lemma wired_same d d' : wired d -> same_wires d d' -> wired d'.
Proof.
  intros [H1 H2 H3 H4 H5 H6 H7 H8 H9 H10 H11] [= _ Ec Eg Ego Eco En El Ef].
  constructor; unfold consumer_ok, live_conn, group_ok in *; rewrite ?Ec, ?Eg, ?Ego, ?Eco, ?En, ?El, ?Ef; assumption.
Qed.

Lemma same_wires_trans d1 d2 d3 : same_wires d1 d2 -> same_wires d2 d3 -> same_wires d1 d3.
Proof. unfold same_wires. congruence. Qed.

Lemma moved_wires d d' : moved d d' -> same_wires d d'.
Proof. intros ->. done. Qed.

(** The other fields that matter when a consumer goes away. *)
Definition d_rest d :=
  (d_self d, d_conns d, d_cobjs d, d_next_addr d, d_consumers d, d_fault d, d_tearing_down d, d_next_delivery_tag d).

Lemma moved_fields d d' :
  moved d d' -> d_rest d' = d_rest d /\ d_gobjs d' = d_gobjs d /\ d_groups d' = d_groups d /\ d_pending d' = d_pending d.
Proof. intros ->. done. Qed.

(** What notifications change: the pending list, with its references. *)
Record notified d d' : Prop := Notified {
  nt_wires : same_wires d d';
  nt_calm : calm (d_world d) (d_world d');
  nt_queues : same_queues (d_store d) (d_store d');
  nt_tear : d_tearing_down d' = d_tearing_down d;
  nt_tag : d_next_delivery_tag d' = d_next_delivery_tag d;
  nt_pending : forall p, p ∈ d_pending d -> p ∈ d_pending d'
}.

Lemma notified_refl d : notified d d.
Proof. by constructor. Qed.

Lemma notified_trans d1 d2 d3 : notified d1 d2 -> notified d2 d3 -> notified d1 d3.
Proof.
  intros [A1 A2 A3 A4 A5 A6] [B1 B2 B3 B4 B5 B6]. constructor; [by eapply same_wires_trans | by eapply calm_trans | | congruence.. | eauto].
  intros x. by rewrite B3, A3.
Qed.

(** The pending list is one of the holders. *)
Lemma notify_ok p d R F :
  world_ok (d_world d) (d_pending d ++ R) F -> p ∈ owned_refs (d_world d) ++ d_pending d ++ R ->
  let d' := dispatcher_notify p d in world_ok (d_world d') (d_pending d' ++ R) F /\ notified d d'.
Proof.
  intros Hw Hp. unfold dispatcher_notify. destruct (d_async_closing d); [split; auto using notified_refl|].
  case_bool_decide; [split; auto using notified_refl|].
  assert (Hadd : forall d1, moved d d1 \/ (exists n c, d1 = d <| d_net := n |> <| d_cap_pending := c |>) -> d_world d1 = d_world d ->
    let d' := (d_ref p d1) <| d_pending ::= fun l => l ++ [p] |> <| d_async_sent := true |> in
    world_ok (d_world d') (d_pending d' ++ R) F /\ notified d d').
  { intros d1 Hd1 E1. assert (E2 : d_pending d1 = d_pending d) by (by destruct Hd1 as [->|(n & c & ->)]).
    rewrite <- E1, <- E2 in Hw, Hp. destruct (d_ref_ok p d1 _ F Hw Hp) as (Hw1 & _ & Hc1). split.
    - eapply world_ok_proper; [..|exact Hw1]; [|done]. simpl. solve_perm.
    - rewrite E1 in Hc1. constructor; try (by destruct Hd1 as [->|(n & c & ->)]).
      + unfold d_store. rewrite <- E1. intros x. by apply (qp_ref_ok _ _ _ _ (wo_store _ _ _ Hw) Hp).
      + simpl. rewrite E2. set_solver. }
  destruct (length (d_pending d) =? d_cap_pending d)%nat.
  - unfold d_malloc. destruct (n_malloc (d_net d)) as [ok n]. destruct ok.
    + apply Hadd; [|done]. right. by eexists n, _.
    + split; [done | by constructor].
  - apply Hadd; [|done]. left. apply moved_refl.
Qed.

(** ** Removing a consumer *)

Lemma group_remove_spec cp g :
  cp ∈ g_arr g -> g_arr g ≡ₚ cp :: g_arr (group_remove cp g) /\ g_queue (group_remove cp g) = g_queue g /\
  g_cap (group_remove cp g) = g_cap g.
Proof.
  intros Hin. unfold group_remove. destruct (list_find (fun x => x = cp) (g_arr g)) as [[i x]|] eqn:E.
  - apply list_find_Some in E as (Hi & -> & _). split_and!; [|done | done]. simpl. symmetry. by apply swap_remove_perm.
  - apply list_find_None in E. rewrite Forall_forall in E. by destruct (E cp Hin).
Qed.

(** The tables before and after the removal of the consumer at [cp]. *)
Record unlinked d d' (cp : positive) (c : consumer) (g : group) : Prop := Unlinked {
  ul_conns : d_conns d' = d_conns d;
  ul_cobjs : d_cobjs d' = delete cp (d_cobjs d);
  ul_list : d_consumers d' = filter (fun x => x <> cp) (d_consumers d);
  ul_next : d_next_addr d' = d_next_addr d;
  ul_fault : d_fault d' = d_fault d;
  ul_groups :
    if (length (g_arr (group_remove cp g)) =? 0)%nat
    then d_gobjs d' = delete (cs_group c) (d_gobjs d) /\ d_groups d' = snd (pm_remove (d_groups d) (cs_queue_name c))
    else d_gobjs d' = <[cs_group c := group_remove cp g]> (d_gobjs d) /\ d_groups d' = d_groups d
}.

Lemma unlinked_listed d d' cp c g :
  wired d -> unlinked d d' cp c g -> NoDup (d_consumers d') /\ forall x, x ∈ d_consumers d' <-> is_Some (d_cobjs d' !! x).
Proof.
  intros [H1 H2 H3 _ _ _ _ _ _ _ _] [_ E2 E3 _ _ _]. rewrite E2, E3. split; [by apply NoDup_filter|]. intros x. rewrite list_elem_of_filter, H3. split.
  - intros [Hne Hx]. by rewrite lookup_delete_ne.
  - intros [y [Hne Hy]%lookup_delete_Some]. eauto.
Qed.

Lemma unlinked_kept d d' cp c g x y : unlinked d d' cp c g -> d_cobjs d' !! x = Some y -> x <> cp /\ d_cobjs d !! x = Some y.
Proof. intros [_ E2 _ _ _ _]. rewrite E2, lookup_delete_Some. naive_solver. Qed.

(** The members of any other group stay. *)
Lemma unlinked_others d d' cp c g ga g0 x :
  wired d -> d_cobjs d !! cp = Some c -> unlinked d d' cp c g -> d_gobjs d !! ga = Some g0 -> ga <> cs_group c -> x ∈ g_arr g0 ->
  exists y, d_cobjs d' !! x = Some y /\ cs_group y = ga.
Proof.
  intros Hwi Hc [_ E2 _ _ _ _] Hg0 Hne Hx. destruct (wi_group _ Hwi ga g0 Hg0) as (_ & _ & Hm). destruct (Hm x Hx) as (y & Hy & Hyg).
  exists y. split; [|done]. rewrite E2, lookup_delete_ne; [done|]. intros <-. congruence.
Qed.

(** The consumer was the only member of its group, which goes with it. *)
Lemma unlinked_last d d' cp c g :
  wired d -> d_cobjs d !! cp = Some c -> d_gobjs d !! cs_group c = Some g -> unlinked d d' cp c g -> g_arr g = [cp] ->
  d_gobjs d' = delete (cs_group c) (d_gobjs d) -> d_groups d' = snd (pm_remove (d_groups d) (cs_queue_name c)) -> wired d'.
Proof.
  intros Hwi Hc Hg Hu Harr E6 E7. pose proof Hwi as [H1 H2 H3 H4 H5 H6 H7 H8 H9 H10 H11]. pose proof Hu as [E1 E2 E3 E4 E5 _].
  destruct (unlinked_listed _ _ _ _ _ Hwi Hu) as [HL1 HL2]. destruct (H10 cp c Hc) as (_ & Hkey & _ & _).
  pose proof (pm_remove_spec (d_groups d) (cs_queue_name c) H4) as Hrm. destruct (pm_remove _ _) as [v m].
  destruct Hrm as (Hm & _ & Hmap). simpl in E7. subst m. constructor; rewrite ?E4, ?E5; try done.
  - intros ga g0. rewrite E6, Hmap. intros [Hne Hg0]%lookup_delete_Some. destruct (H5 _ _ Hg0) as [k Hk]. exists k.
    rewrite lookup_delete_ne; [done|]. intros <-. congruence.
  - intros k ga. rewrite E6, Hmap. intros [Hne Hk]%lookup_delete_Some. rewrite lookup_delete_ne; [eauto|].
    intros <-. apply Hne. by eapply H7.
  - intros k1 k2 ga. rewrite Hmap, !lookup_delete_Some. naive_solver.
  - intros x y [_ Hy]%(unlinked_kept _ _ _ _ _ _ _ Hu). eauto.
  - intros ga g0. rewrite E6. intros [_ Hg0]%lookup_delete_Some. eauto.
  - intros x y [Hne Hy]%(unlinked_kept _ _ _ _ _ _ _ Hu). destruct (H10 x y Hy) as ((g0 & Hg0 & Hx) & Hk & Hcn & Hl).
    assert (cs_group c <> cs_group y).
    { intros He. rewrite <- He, Hg in Hg0. injection Hg0 as <-. rewrite Harr in Hx. set_solver. }
    unfold consumer_ok, live_conn. rewrite E6, E1, Hmap. split_and!; try done.
    + exists g0. by rewrite lookup_delete_ne.
    + rewrite lookup_delete_ne; [done|]. intros He. rewrite <- He in Hk. congruence.
  - intros ga g0. rewrite E6. intros [Hne Hg0]%lookup_delete_Some. destruct (H11 _ _ Hg0) as (B1 & B2 & _).
    split_and!; try done. intros x Hx. by eapply unlinked_others.
Qed.

(** The group has other members. *)
Lemma unlinked_member d d' cp c g :
  wired d -> d_cobjs d !! cp = Some c -> d_gobjs d !! cs_group c = Some g -> unlinked d d' cp c g -> cp ∈ g_arr g ->
  d_gobjs d' = <[cs_group c := group_remove cp g]> (d_gobjs d) -> d_groups d' = d_groups d -> wired d'.
Proof.
  intros Hwi Hc Hg Hu Hin E6 E7. pose proof Hwi as [H1 H2 H3 H4 H5 H6 H7 H8 H9 H10 H11]. pose proof Hu as [E1 E2 E3 E4 E5 _].
  destruct (unlinked_listed _ _ _ _ _ Hwi Hu) as [HL1 HL2]. destruct (H11 _ _ Hg) as (Hnd & Hcap & Hmem).
  destruct (group_remove_spec cp g Hin) as (Hperm & _ & Hgc). rewrite Hperm in Hnd, Hcap. apply NoDup_cons in Hnd as [Hni Hnd]. simpl in Hcap.
  constructor; rewrite ?E4, ?E5, ?E7; try done.
  - intros ga g0. rewrite E6. intros [[<- _]|[_ Hg0]]%lookup_insert_Some; eauto.
  - intros k ga Hk. rewrite E6. apply lookup_insert_is_Some. destruct (decide (cs_group c = ga)); eauto.
  - intros x y [_ Hy]%(unlinked_kept _ _ _ _ _ _ _ Hu). eauto.
  - intros ga g0. rewrite E6. intros [[<- _]|[_ Hg0]]%lookup_insert_Some; eauto.
  - intros x y [Hne Hy]%(unlinked_kept _ _ _ _ _ _ _ Hu). destruct (H10 x y Hy) as ((g0 & Hg0 & Hx) & Hk & Hcn & Hl).
    unfold consumer_ok, live_conn. rewrite E6, E1, E7. split_and!; try done.
    destruct (decide (cs_group c = cs_group y)) as [He|Hn]; [|by exists g0; rewrite lookup_insert_ne].
    rewrite He, lookup_insert_eq. exists (group_remove cp g). split; [done|].
    rewrite <- He, Hg in Hg0. injection Hg0 as <-. rewrite Hperm in Hx. set_solver.
  - intros ga g0. rewrite E6. intros [[<- <-]|[Hne Hg0]]%lookup_insert_Some.
    + split_and!; [done | lia |]. intros x Hx. destruct (Hmem x) as (y & Hy & Hyg); [rewrite Hperm; set_solver|].
      exists y. split; [|done]. rewrite E2, lookup_delete_ne; [done|]. intros <-. done.
    + destruct (H11 _ _ Hg0) as (B1 & B2 & _). split_and!; try done. intros x Hx. by eapply unlinked_others.
Qed.

Lemma unlinked_wired d d' cp c g :
  wired d -> d_cobjs d !! cp = Some c -> d_gobjs d !! cs_group c = Some g -> unlinked d d' cp c g -> wired d'.
Proof.
  intros Hwi Hc Hg Hu. destruct (wi_consumer _ Hwi cp c Hc) as ((g1 & Hg1 & Hin) & _). rewrite Hg in Hg1. injection Hg1 as <-.
  destruct (group_remove_spec cp g Hin) as (Hperm & _ & _). pose proof (ul_groups _ _ _ _ _ Hu) as E.
  destruct (length (g_arr (group_remove cp g)) =? 0)%nat eqn:Elen; destruct E as [E6 E7].
  - apply Nat.eqb_eq, nil_length_inv in Elen. rewrite Elen in Hperm. apply Permutation_singleton_r in Hperm. by eapply unlinked_last.
  - by eapply unlinked_member.
Qed.

(** The group of the consumer, once its member is gone: the registry drops an empty
    group, the remaining members are told. *)
Definition leave_group (c : consumer) (g : group) (back : bool) d : dispatcher M :=
  if (length (g_arr g) =? 0)%nat then drop_group (cs_queue_name c) (cs_group c) g d
  else if back then dispatcher_notify (g_queue g) d else d.

Lemma leave_group_ok c g back d R F :
  world_ok (d_world d) (g_queue g :: d_pending d ++ R) F ->
  let d' := leave_group c g back d in
  world_ok (d_world d') ((if (length (g_arr g) =? 0)%nat then [] else [g_queue g]) ++ d_pending d' ++ R) F /\
  calm (d_world d) (d_world d') /\
  d_rest d' = d_rest d /\
  (if (length (g_arr g) =? 0)%nat
   then d_gobjs d' = delete (cs_group c) (d_gobjs d) /\ d_groups d' = snd (pm_remove (d_groups d) (cs_queue_name c))
   else d_gobjs d' = d_gobjs d /\ d_groups d' = d_groups d).
Proof.
  intros Hw. unfold leave_group. destruct (length (g_arr g) =? 0)%nat.
  - unfold drop_group.
    destruct (pure_queue_ok (g_queue g) d _ F Hw ltac:(set_solver) (queue_remove_waiter (WAITER_FN, d_self d)))
      as (q & _ & -> & Hw1 & Hc1); [intros; apply op_remove_waiter|].
    set (d1 := (d <| d_world ::= _ |>) <| d_groups ::= _ |>).
    destruct (d_unref_ok (g_queue g) d1 _ F Hw1) as (Hw2 & Hm2 & Hc2).
    split_and!; [done | by eapply calm_trans | by rewrite Hm2 | by rewrite Hm2 | by rewrite Hm2].
  - destruct back; [|split_and!; auto using calm_refl].
    destruct (notify_ok (g_queue g) d (g_queue g :: R) F) as (Hw1 & [Hs Hc _ Ht Hn _]).
    + eapply world_ok_proper; [..|exact Hw]; [solve_perm | done].
    + set_solver.
    + injection Hs as E1 E2 E3 E4 E5 E6 E7 E8. split_and!; try done; [|unfold d_rest; congruence].
      eapply world_ok_proper; [..|exact Hw1]; [solve_perm | done].
Qed.

(** The deliveries of the consumer are settled, its group is still as it was. *)
Lemma settle_all_ok back c d R F :
  world_ok (d_world d) R ((cs_unacked c).*2 ++ F) -> cs_queue c ∈ R ->
  let d' := replicate_watermark (cs_queue c)
              (foldl (release_unacked back (cs_queue c)) (pure_queue (cs_queue c) queue_consumers_dec d) (cs_unacked c)) in
  world_ok (d_world d') R F /\ moved d d' /\ calm (d_world d) (d_world d').
Proof.
  intros Hw Hp. destruct (pure_queue_ok (cs_queue c) d _ _ Hw ltac:(set_solver) queue_consumers_dec) as (q & _ & -> & Hw1 & Hc1);
    [intros; apply op_consumers|]. set (d1 := d <| d_world ::= _ |>).
  destruct (release_all_ok back (cs_queue c) (cs_unacked c) d1 _ _ Hw1 Hp) as (Hw2 & Hm2 & Hc2). set (d2 := foldl _ _ _) in *.
  destruct (replicate_watermark_ok (cs_queue c) d2 _ _ Hw2 ltac:(set_solver)) as (Hw3 & Hm3 & Hc3).
  cbv zeta. split_and!; [done | | by eapply calm_trans, calm_trans].
  eapply moved_trans; [|done]. eapply moved_trans; [apply moved_world | done].
Qed.

Lemma consumer_destroy_ok cp back d R F c :
  disp_ok d R F -> d_cobjs d !! cp = Some c ->
  exists g, d_gobjs d !! cs_group c = Some g /\ let d' := consumer_destroy cp back d in
    disp_ok d' R F /\ unlinked d d' cp c g /\ (ample (w_sys (d_world d)) -> ample (w_sys (d_world d'))) /\
    (d_self d', d_tearing_down d', d_next_delivery_tag d') = (d_self d, d_tearing_down d, d_next_delivery_tag d).
Proof.
  intros [Hwi Hw Hh] Hc. destruct (wi_consumer _ Hwi cp c Hc) as ((g & Hg & Hin) & _). exists g. split; [done|].
  unfold consumer_destroy. rewrite Hc. destruct (group_remove_spec cp g Hin) as (_ & Hgq & _).
  set (g' := group_remove cp g) in *.
  set (Rg := gather (fun g => [g_queue g]) (delete (cs_group c) (d_gobjs d))).
  set (Rc := gather (fun c => [cs_queue c]) (delete cp (d_cobjs d))).
  set (Fc := gather (fun c => (cs_unacked c).*2) (delete cp (d_cobjs d)) ++ gather (fun cn => omap id (cn_writes cn)) (d_conns d) ++ F).
  assert (Hw0 : world_ok (d_world d) (g_queue g' :: d_pending d ++ cs_queue c :: Rg ++ Rc ++ R) ((cs_unacked c).*2 ++ Fc)).
  { eapply world_ok_proper; [..|exact Hw]; unfold d_refs, d_msgs.
    - rewrite (gather_split _ _ _ _ Hg), (gather_split _ _ _ _ Hc), Hgq. unfold Rg, Rc. solve_perm.
    - rewrite (gather_split _ _ _ _ Hc). unfold Fc. solve_perm. }
  destruct (settle_all_ok back c d _ _ Hw0 ltac:(set_solver)) as (Hw3 & Hm3 & Hc3). set (d3 := replicate_watermark _ _) in *.
  destruct (moved_fields _ _ Hm3) as (Er3 & Eg3 & Em3 & Ep3). rewrite Eg3, Hg, <- Ep3 in *.
  set (d4 := d3 <| d_gobjs ::= _ |>).
  destruct (leave_group_ok c g' back d4 _ _ Hw3) as (Hw5 & Hc5 & Er5 & Hg5).
  fold (leave_group c g' back d4). set (d5 := leave_group c g' back d4) in *.
  destruct (auto_delete_ok (cs_queue c) d5 _ _ Hw5) as (Hw6 & Hm6 & Hk6 & Ho6). set (d6 := auto_delete _ _) in *.
  destruct (moved_fields _ _ Hm6) as (Er6 & Eg6 & Em6 & Ep6).
  assert (Er : d_rest d6 = d_rest d) by (by rewrite Er6, Er5).
  assert (Hk : w_wakeups (d_world d6) = w_wakeups (d_world d)).
  { rewrite Hk6. destruct Hc5 as (_ & Hk5 & _), Hc3 as (_ & Hk3 & _). by rewrite Hk5, <- Hk3. }
  assert (Ho : ample (w_sys (d_world d)) -> ample (w_sys (d_world d6))).
  { intros Ha. apply Ho6, Hc5, Hc3, Ha. }
  set (last := (length (g_arr g') =? 0)%nat) in *.
  assert (Hgo : if last then d_gobjs d6 = delete (cs_group c) (d_gobjs d) /\ d_groups d6 = snd (pm_remove (d_groups d) (cs_queue_name c))
                else d_gobjs d6 = <[cs_group c := g']> (d_gobjs d) /\ d_groups d6 = d_groups d).
  { rewrite Eg6, Em6. destruct last; destruct Hg5 as [-> ->]; subst d4; simpl; by rewrite Eg3, Em3, ?delete_insert_eq. }
  rewrite <- Ep6 in Hw6. clearbody d6. clear d3 d4 d5 Hw3 Hm3 Hc3 Er3 Eg3 Em3 Ep3 Hw5 Hc5 Er5 Hg5 Hm6 Hk6 Ho6 Er6 Eg6 Em6 Ep6 Hw0.
  injection Er as E1 E2 E3 E4 E5 E6 E7 E8.
  set (d7 := d6 <| d_consumers ::= _ |>).
  destruct (d_unref_ok (cs_queue c) d7 ((if last then [] else [g_queue g']) ++ d_pending d6 ++ Rg ++ Rc ++ R) Fc) as (Hw8 & _ & Hc8).
  { eapply world_ok_proper; [..|exact Hw6]; [solve_perm | done]. }
  set (d' := (d_unref (cs_queue c) d7) <| d_cobjs ::= delete cp |>).
  assert (Hul : unlinked d d' cp c g).
  { constructor; try done; [by simpl; rewrite E3 | by simpl; rewrite E5]. }
  destruct Hc8 as (_ & Hk8 & Ho8).
  split_and!; [|done | intros Ha; by apply Ho8, Ho | simpl; congruence].
  constructor; [by eapply unlinked_wired | | simpl; by rewrite Hk, E1].
  eapply world_ok_proper; [..|exact Hw8]; unfold d_refs, d_msgs; simpl; rewrite ?E2, E3; [|solve_perm].
  destruct last; destruct Hgo as [-> _]; rewrite ?gather_insert; fold Rg Rc; solve_perm.
Qed.

(** ** Notifications *)

(** A step that leaves the tables alone. *)
Lemma disp_same d d' R R' F F' :
  disp_ok d R F -> same_wires d d' -> world_ok (d_world d') (d_refs d' ++ R') (d_msgs d' ++ F') ->
  w_wakeups (d_world d') = w_wakeups (d_world d) -> disp_ok d' R' F'.
Proof.
  intros [Hwi _ Hh] Hs Hw Hk. constructor; [by eapply wired_same | done |].
  rewrite Hk. by injection Hs as -> _ _ _ _ _ _ _.
Qed.

(** The queue of a consumer, and of a group, is alive. *)
Lemma consumer_queue_live d R cp c : d_cobjs d !! cp = Some c -> cs_queue c ∈ owned_refs (d_world d) ++ d_refs d ++ R.
Proof.
  intros Hc. unfold d_refs. rewrite !elem_of_app. right. left. right. left. apply elem_of_gather.
  exists cp, c. set_solver.
Qed.

Lemma group_queue_live d R ga g : d_gobjs d !! ga = Some g -> g_queue g ∈ owned_refs (d_world d) ++ d_refs d ++ R.
Proof.
  intros Hg. unfold d_refs. rewrite !elem_of_app. right. left. left. apply elem_of_gather.
  exists ga, g. set_solver.
Qed.

Lemma disp_notify p d R F :
  disp_ok d R F -> p ∈ owned_refs (d_world d) ++ d_refs d ++ R ->
  let d' := dispatcher_notify p d in disp_ok d' R F /\ notified d d'.
Proof.
  intros Hd Hp. pose proof (do_world _ _ _ Hd) as Hw.
  set (R0 := gather (fun g => [g_queue g]) (d_gobjs d) ++ gather (fun c => [cs_queue c]) (d_cobjs d) ++ R).
  destruct (notify_ok p d R0 (d_msgs d ++ F)) as (Hw1 & Hn).
  - eapply world_ok_proper; [..|exact Hw]; [|done]. unfold d_refs, R0. solve_perm.
  - unfold d_refs in Hp. unfold R0. set_solver.
  - split; [|done]. eapply disp_same; [done | apply Hn | | apply Hn].
    pose proof (nt_wires _ _ Hn) as Hs. injection Hs as _ E1 _ E2 E3 _ _ _.
    eapply world_ok_proper; [..|exact Hw1]; unfold d_refs, d_msgs, R0; rewrite ?E1, ?E2, ?E3; solve_perm.
Qed.

(** ** Loops over the consumers of a connection *)

Lemma for_consumers_ind (P : dispatcher M -> Prop) conn channel act d :
  P d -> (forall cp, cp ∈ d_consumers d -> is_Some (d_cobjs d !! cp)) ->
  (forall cp c d1, P d1 -> d_cobjs d1 !! cp = Some c -> is_on conn channel c = true ->
     P (act cp c d1) /\ forall x, x <> cp -> d_cobjs (act cp c d1) !! x = d_cobjs d1 !! x) ->
  NoDup (d_consumers d) -> P (for_consumers conn channel act d).
Proof.
  unfold for_consumers. intros HP Hl Hact Hnd. revert d HP Hl Hnd.
  cut (forall l d, P d -> (forall cp, cp ∈ l -> is_Some (d_cobjs d !! cp)) -> NoDup l ->
    P (foldl (fun d cp => match d_cobjs d !! cp with
                          | Some c => if is_on conn channel c then act cp c d else d
                          | None => fault d end) d l)); [intros H d HP Hl Hnd; by apply H|].
  induction l as [|cp l IH]; intros d HP Hl Hnd; [done|]. cbn [foldl]. apply NoDup_cons in Hnd as [Hni Hnd].
  destruct (Hl cp) as [c Hc]; [set_solver|]. rewrite Hc.
  destruct (is_on conn channel c) eqn:Eo; [|apply IH; [done | set_solver | done]].
  destruct (Hact cp c d HP Hc Eo) as [HP1 Hx]. apply IH; [done | | done].
  intros x Hin. rewrite Hx by (intros ->; done). apply Hl. set_solver.
Qed.
End Invariant.
