(* ===== verification/DispatchOps.v ===== *)
(** Every operation of the dispatcher (Dispatch.v) keeps its invariant
    (DispatchInv.v). *)

From S2P Require Import Prelude Tables Frame HashMap Message Queue Store Exchange Broker BrokerRoute BrokerSpec BrokerDelivery Net Dispatch DispatchInv.

Section Ops.
Context {M : Type} `{!PtrMap M} `{!PtrMapLaws M}.
Implicit Types (w : world M) (d : dispatcher M).

(** * Changing one consumer, group or connection *)

(** What the tables see of a consumer. *)
Definition cs_links (c : consumer) := (cs_conn c, cs_queue c, cs_queue_name c, cs_group c).

Lemma wired_set_consumer d cp c c' :
  wired d -> d_cobjs d !! cp = Some c -> cs_links c' = cs_links c ->
  (length (cs_unacked c') <= cs_cap_unacked c')%nat -> wired (d <| d_cobjs ::= <[cp := c']> |>).
Proof.
  intros [H1 H2 H3 H4 H5 H6 H7 H8 H9 H10 H11] Hc [= E1 _ E2 E3] Hl.
  assert (Hdom : forall x, is_Some (<[cp := c']> (d_cobjs d) !! x) <-> is_Some (d_cobjs d !! x)).
  { intros x. rewrite lookup_insert_is_Some. destruct (decide (cp = x)) as [->|]; [|naive_solver].
    rewrite Hc. split; eauto. }
  assert (Hlk : forall x y, <[cp := c']> (d_cobjs d) !! x = Some y -> exists y0, d_cobjs d !! x = Some y0 /\
    (x = cp /\ y = c' \/ y = y0)).
  { intros x y [[<- <-]|[_ Hx]]%lookup_insert_Some; eauto 10. }
  constructor; simpl; try done.
  - intros x. by rewrite Hdom.
  - intros x y (y0 & Hy & _)%Hlk. eauto.
  - intros x y (y0 & Hy & Hor)%Hlk. destruct (H10 x y0 Hy) as (B1 & B2 & B3 & B4).
    destruct Hor as [[-> ->]| ->]; [|done]. rewrite Hc in Hy. injection Hy as <-.
    unfold consumer_ok. simpl. rewrite E1, E2, E3. done.
  - intros ga g Hg. destruct (H11 ga g Hg) as (B1 & B2 & B3). split_and!; try done. intros x Hx. simpl.
    destruct (B3 x Hx) as (y & Hy & Hyg). destruct (decide (cp = x)) as [->|Hne].
    + rewrite lookup_insert_eq. exists c'. split; [done|]. rewrite E3. rewrite Hc in Hy. by injection Hy as <-.
    + rewrite lookup_insert_ne by done. eauto.
Qed.

Lemma disp_set_consumer d cp c c' R F :
  disp_ok d R F -> d_cobjs d !! cp = Some c -> cs_links c' = cs_links c -> cs_unacked c' = cs_unacked c ->
  (length (cs_unacked c') <= cs_cap_unacked c')%nat -> disp_ok (d <| d_cobjs ::= <[cp := c']> |>) R F.
Proof.
  intros [Hwi Hw Hh] Hc Hl Hu Hcap. constructor; [by eapply wired_set_consumer | | done].
  injection Hl as _ Eq _ _. eapply world_ok_proper; [..|exact Hw]; unfold d_refs, d_msgs; simpl.
  - rewrite (gather_same _ _ _ c c' Hc); [done | by rewrite Eq].
  - rewrite (gather_same _ _ _ c c' Hc); [done | by rewrite Hu].
Qed.

Lemma wired_reset_conn d k cn cn' :
  wired d -> d_conns d !! k = Some cn -> shut cn' = shut cn -> wired (d <| d_conns ::= <[k := cn']> |>).
Proof.
  intros [H1 H2 H3 H4 H5 H6 H7 H8 H9 H10 H11] Hc Hcl. constructor; try done.
  intros x y Hy. destruct (H10 x y Hy) as (B1 & B2 & (cn0 & Hk & Hl) & B4). split_and!; try done. unfold live_conn. simpl.
  destruct (decide (k = cs_conn y)) as [->|]; [rewrite lookup_insert_eq | rewrite lookup_insert_ne by done; eauto].
  exists cn'. split; [done|]. rewrite Hc in Hk. injection Hk as <-. by rewrite Hcl.
Qed.

Lemma flags_shut cn cn' : flags cn' = flags cn -> shut cn' = shut cn.
Proof. unfold shut. by intros ->. Qed.

Lemma wired_set_conn d k cn cn' :
  wired d -> d_conns d !! k = Some cn -> flags cn' = flags cn -> wired (d <| d_conns ::= <[k := cn']> |>).
Proof. intros Hw Hk E%flags_shut. by eapply wired_reset_conn. Qed.

Lemma disp_shut_conn d k cn cn' R F :
  disp_ok d R F -> d_conns d !! k = Some cn -> omap id (cn_writes cn') = omap id (cn_writes cn) -> shut cn' = shut cn ->
  disp_ok (d <| d_conns ::= <[k := cn']> |>) R F.
Proof.
  intros [Hwi Hw Hh] Hc Hwr Hcl. constructor; [by eapply wired_reset_conn | | done].
  eapply world_ok_proper; [..|exact Hw]; unfold d_refs, d_msgs; simpl; [done|].
  rewrite (gather_same _ _ _ cn cn' Hc); [done | by rewrite Hwr].
Qed.

Lemma disp_set_conn d k cn cn' R F :
  disp_ok d R F -> d_conns d !! k = Some cn -> omap id (cn_writes cn') = omap id (cn_writes cn) -> flags cn' = flags cn ->
  disp_ok (d <| d_conns ::= <[k := cn']> |>) R F.
Proof. intros Hd Hk Hw E%flags_shut. by eapply disp_shut_conn. Qed.

(** The round-robin cursor moves, or the array of the group is larger. *)
Lemma disp_set_group d ga g g' R F :
  disp_ok d R F -> d_gobjs d !! ga = Some g -> g_queue g' = g_queue g -> g_arr g' = g_arr g ->
  (g_cap g <= g_cap g')%nat -> disp_ok (d <| d_gobjs ::= <[ga := g']> |>) R F.
Proof.
  intros [[H1 H2 H3 H4 H5 H6 H7 H8 H9 H10 H11] Hw Hh] Hg Eq Ea Hcap. constructor; [constructor; simpl; try done| |done].
  - intros x y [[<- _]|[_ Hx]]%lookup_insert_Some; eauto.
  - intros k x Hk. apply lookup_insert_is_Some. destruct (decide (ga = x)); eauto.
  - intros x y [[<- _]|[_ Hx]]%lookup_insert_Some; eauto.
  - intros x y Hy. destruct (H10 x y Hy) as ((g0 & Hg0 & Hin) & B2 & B3 & B4). split_and!; try done. simpl.
    destruct (decide (ga = cs_group y)) as [->|Hne]; [|rewrite lookup_insert_ne by done; eauto].
    rewrite lookup_insert_eq. exists g'. split; [done|]. rewrite Ea. rewrite Hg in Hg0. by injection Hg0 as <-.
  - intros x y [[<- <-]|[_ Hx]]%lookup_insert_Some; [|by apply H11]. destruct (H11 ga g Hg) as (B1 & B2 & B3).
    unfold group_ok. rewrite Ea. split_and!; [done | lia | done].
  - eapply world_ok_proper; [..|exact Hw]; unfold d_refs, d_msgs; simpl; [|done].
    rewrite (gather_same _ _ _ g g' Hg); [done | by rewrite Eq].
Qed.

(** Fields that the invariant does not mention. *)
Lemma disp_field d d' R F :
  disp_ok d R F -> same_wires d d' -> d_world d' = d_world d -> d_pending d' = d_pending d -> disp_ok d' R F.
Proof.
  intros [Hwi Hw Hh] Hs Ew Ep. constructor; [by eapply wired_same | |].
  - injection Hs as _ E1 _ E2 E3 _ _ _. unfold d_refs, d_msgs. by rewrite Ew, Ep, E1, E2, E3.
  - rewrite Ew. by injection Hs as -> _ _ _ _ _ _ _.
Qed.

(** * Per-connection operations *)

Lemma disp_for_consumers conn channel act d R F :
  disp_ok d R F ->
  (forall cp c d1, disp_ok d1 R F -> d_cobjs d1 !! cp = Some c ->
     disp_ok (act cp c d1) R F /\ forall x, x <> cp -> d_cobjs (act cp c d1) !! x = d_cobjs d1 !! x) ->
  disp_ok (for_consumers conn channel act d) R F.
Proof.
  intros Hd Hact. apply (for_consumers_ind (fun d => disp_ok d R F)).
  - done.
  - intros cp Hcp. by apply (wi_dom _ (do_wired _ _ _ Hd)).
  - intros cp c d1 Hd1 Hc _. by apply Hact.
  - apply Hd.
Qed.

Lemma set_prefetch_ok conn channel prefetch d R F :
  disp_ok d R F -> disp_ok (dispatcher_set_prefetch conn channel prefetch d) R F.
Proof.
  intros Hd. apply disp_for_consumers; [done|]. intros cp c d1 Hd1 Hc.
  assert (Hd2 : disp_ok (d1 <| d_cobjs ::= <[cp := c <| cs_prefetch := prefetch |>]> |>) R F).
  { eapply disp_set_consumer; try done. simpl. apply (wi_consumer _ (do_wired _ _ _ Hd1) cp c Hc). }
  destruct (disp_notify (cs_queue c) _ R F Hd2) as [Hd3 Hn].
  { change (cs_queue c) with (cs_queue (c <| cs_prefetch := prefetch |>)). eapply consumer_queue_live. apply lookup_insert_eq. }
  split; [done|]. intros x Hx. pose proof (nt_wires _ _ Hn) as Hs. injection Hs as _ _ _ _ -> _ _ _. simpl.
  by rewrite lookup_insert_ne.
Qed.

Lemma resume_conn_ok conn d R F : disp_ok d R F -> disp_ok (dispatcher_resume_conn conn d) R F.
Proof.
  intros Hd. apply disp_for_consumers; [done|]. intros cp c d1 Hd1 Hc.
  destruct (disp_notify (cs_queue c) d1 R F Hd1) as [Hd2 Hn]; [by eapply consumer_queue_live|].
  split; [done|]. intros x _. pose proof (nt_wires _ _ Hn) as Hs. by injection Hs as _ _ _ _ -> _ _ _.
Qed.

Lemma destroy_step cp c back d R F :
  disp_ok d R F -> d_cobjs d !! cp = Some c ->
  disp_ok (consumer_destroy cp back d) R F /\ forall x, x <> cp -> d_cobjs (consumer_destroy cp back d) !! x = d_cobjs d !! x.
Proof.
  intros Hd Hc. destruct (consumer_destroy_ok cp back d R F c Hd Hc) as (g & _ & Hd' & Hu & _). split; [done|].
  intros x Hx. rewrite (ul_cobjs _ _ _ _ _ Hu). by rewrite lookup_delete_ne.
Qed.

(** The loop that destroys the consumers of a connection or of a channel. *)
Lemma destroy_loop_ok conn channel R F l : forall d,
  disp_ok d R F -> (forall cp, cp ∈ l -> is_Some (d_cobjs d !! cp)) -> NoDup l ->
  let d' := foldl (fun d cp => match d_cobjs d !! cp with
                               | Some c => if is_on conn channel c then consumer_destroy cp true d else d
                               | None => fault d end) d l in
  disp_ok d' R F /\ d_conns d' = d_conns d /\
  forall x c, d_cobjs d' !! x = Some c -> d_cobjs d !! x = Some c /\ (x ∈ l -> is_on conn channel c = false).
Proof.
  induction l as [|cp l IH]; intros d Hd Hl Hnd; cbn [foldl]; [split_and!; [done | done | set_solver]|].
  apply NoDup_cons in Hnd as [Hni Hnd]. destruct (Hl cp) as [c Hc]; [set_solver|]. rewrite Hc.
  destruct (is_on conn channel c) eqn:Eo.
  - destruct (consumer_destroy_ok cp true d R F c Hd Hc) as (g & _ & Hd1 & Hu & _).
    pose proof (ul_cobjs _ _ _ _ _ Hu) as Ec. destruct (IH (consumer_destroy cp true d)) as (H1 & H2 & H3); [done | | done |].
    { intros x Hx. rewrite Ec, lookup_delete_ne by (intros ->; done). apply Hl. set_solver. }
    split_and!; [done | by rewrite H2, (ul_conns _ _ _ _ _ Hu) |]. intros x c' [Hx Hon]%H3. rewrite Ec in Hx.
    apply lookup_delete_Some in Hx as [Hne Hx]. set_solver.
  - destruct (IH d) as (H1 & H2 & H3); [done | set_solver | done |]. split_and!; [done | done |].
    intros x c' Hx. destruct (H3 x c' Hx) as [Hx' Hon]. split; [done|]. intros [->|Hin]%elem_of_cons; [congruence | auto].
Qed.

Lemma remove_consumers_ok conn channel d R F :
  disp_ok d R F -> let d' := for_consumers conn channel (fun cp _ d => consumer_destroy cp true d) d in
  disp_ok d' R F /\ d_conns d' = d_conns d /\
  forall x c, d_cobjs d' !! x = Some c -> d_cobjs d !! x = Some c /\ is_on conn channel c = false.
Proof.
  intros Hd. pose proof (do_wired _ _ _ Hd) as Hwi.
  destruct (destroy_loop_ok conn channel R F (d_consumers d) d Hd) as (H1 & H2 & H3).
  - intros cp Hcp. by apply (wi_dom _ Hwi).
  - apply Hwi.
  - split_and!; [done | done |]. intros x c Hx. destruct (H3 x c Hx) as [Hc Hon]. split; [done|]. apply Hon, (wi_dom _ Hwi). eauto.
Qed.

Lemma remove_channel_ok conn channel d R F : disp_ok d R F -> disp_ok (dispatcher_remove_channel conn channel d) R F.
Proof. intros Hd. by apply remove_consumers_ok. Qed.

Lemma find_consumer_spec conn channel tag d R F cp :
  disp_ok d R F -> find_consumer conn channel tag d = Some cp ->
  exists c, d_cobjs d !! cp = Some c /\ is_on conn (Some channel) c = true /\ cs_tag c = tag.
Proof.
  intros Hd. unfold find_consumer. destruct (list_find _ _) as [[i x]|] eqn:E; [|done]. intros [= <-].
  apply list_find_Some in E as (Hi & Hx & _). destruct (d_cobjs d !! x) as [c|]; [|done].
  apply andb_true_iff in Hx as [H1 H2%bool_decide_eq_true]. eauto.
Qed.

Lemma cancel_ok conn channel tag d R F : disp_ok d R F -> disp_ok (dispatcher_cancel conn channel tag d) R F.
Proof.
  intros Hd. unfold dispatcher_cancel. destruct (find_consumer conn channel tag d) as [cp|] eqn:E; [|done].
  destruct (find_consumer_spec _ _ _ _ _ _ _ Hd E) as (c & Hc & _). by eapply destroy_step.
Qed.

(** Destroying consumers does not look at the connections. *)
Definition with_conns (X : gmap positive beaver_conn) d : dispatcher M := d <| d_conns := X |>.

Lemma with_conns_watermark X p d : replicate_watermark p (with_conns X d) = with_conns X (replicate_watermark p d).
Proof.
  unfold replicate_watermark, d_on_queue, d_at_queue, with_store. destruct d. cbn.
  destruct d_cluster; [|done]. cbn. destruct (0 <? _); [|done].
  destruct (on_queue _ _ _ _) as [[|] st]; done.
Qed.

Lemma with_conns_release X back p us : forall d,
  foldl (release_unacked back p) (with_conns X d) us = with_conns X (foldl (release_unacked back p) d us).
Proof.
  induction us as [|u us IH]; intros d; [done|]. cbn [foldl]. rewrite <- IH. f_equal.
  unfold release_unacked, requeue, pure_queue, d_on_queue. destruct d. cbn.
  destruct back; cbn; by destruct (on_queue _ _ _ _).
Qed.

Lemma with_conns_notify X q d : dispatcher_notify q (with_conns X d) = with_conns X (dispatcher_notify q d).
Proof.
  unfold dispatcher_notify, d_malloc. destruct d. cbn. destruct d_async_closing; [done|]. destruct (bool_decide _); [done|].
  destruct (_ =? _)%nat; [|done]. cbn. by destruct (n_malloc d_net) as [[|] n].
Qed.

Lemma with_conns_drop_group X key ga g d : drop_group key ga g (with_conns X d) = with_conns X (drop_group key ga g d).
Proof. unfold drop_group, pure_queue, d_on_queue. destruct d. cbn. by destruct (on_queue _ _ _ _). Qed.

Lemma with_conns_auto_delete X p d : auto_delete p (with_conns X d) = with_conns X (auto_delete p d).
Proof. unfold auto_delete. destruct d. cbn. destruct (_ && _); [|done]. by destruct (broker_delete_queue _ _ _ _ _) as [[] w]. Qed.

Lemma with_conns_destroy X cp back d : consumer_destroy cp back (with_conns X d) = with_conns X (consumer_destroy cp back d).
Proof.
  unfold consumer_destroy. change (d_cobjs (with_conns X d)) with (d_cobjs d). destruct (d_cobjs d !! cp) as [c|]; [|done].
  assert (E : pure_queue (cs_queue c) queue_consumers_dec (with_conns X d) = with_conns X (pure_queue (cs_queue c) queue_consumers_dec d)).
  { unfold pure_queue, d_on_queue. destruct d. cbn. by destruct (on_queue _ _ _ _). }
  rewrite E, with_conns_release, with_conns_watermark. set (d3 := replicate_watermark _ _).
  change (d_gobjs (with_conns X d3)) with (d_gobjs d3). destruct (d_gobjs d3 !! cs_group c) as [g|]; [|done].
  set (g' := group_remove cp g).
  change ((with_conns X d3) <| d_gobjs ::= <[cs_group c := g']> |>) with (with_conns X (d3 <| d_gobjs ::= <[cs_group c := g']> |>)).
  set (d4 := d3 <| d_gobjs ::= _ |>). rewrite with_conns_drop_group, with_conns_notify.
  clearbody d4. clear.
  destruct (_ =? _)%nat; [|destruct back]; rewrite with_conns_auto_delete; set (d5 := auto_delete _ _); clearbody d5; by destruct d5.
Qed.

Lemma with_conns_remove X conn d :
  dispatcher_remove_connection conn (with_conns X d) = with_conns X (dispatcher_remove_connection conn d).
Proof.
  unfold dispatcher_remove_connection, for_consumers. change (d_consumers (with_conns X d)) with (d_consumers d).
  generalize (d_consumers d). intros l. revert d. induction l as [|cp l IH]; intros d; [done|]. cbn [foldl].
  rewrite <- IH. f_equal. change (d_cobjs (with_conns X d)) with (d_cobjs d). destruct (d_cobjs d !! cp) as [c|]; [|done].
  destruct (is_on conn None c); [apply with_conns_destroy | done].
Qed.

(** After the first part of a close no consumer is left on the connection. *)
Lemma conn_close_ok conn d R F :
  disp_ok d R F -> is_Some (d_conns d !! conn) -> disp_ok (drop_conn conn d) R F.
Proof.
  intros Hd [cn Hcn]. unfold drop_conn. rewrite Hcn. destruct (cn_closing cn); [done|].
  set (X := <[conn := cn <| cn_closing := true |>]> (d_conns d)). change (d <| d_conns ::= _ |>) with (with_conns X d).
  rewrite with_conns_remove. destruct (remove_consumers_ok conn None d R F Hd) as ([Hwi Hw Hh] & Ec & Hx).
  fold (dispatcher_remove_connection conn d) in *. set (d' := dispatcher_remove_connection conn d) in *. clearbody d'.
  constructor; [| |done].
  - destruct Hwi as [H1 H2 H3 H4 H5 H6 H7 H8 H9 H10 H11]. constructor; try done. intros cp c Hc.
    destruct (H10 cp c Hc) as (B1 & B2 & (cn0 & B3 & B5) & B4). split_and!; try done. exists cn0. split; [|done]. simpl.
    unfold X. rewrite lookup_insert_ne, <- Ec; [done|]. intros ->. destruct (Hx cp c Hc) as [_ Hon].
    unfold is_on in Hon. by rewrite bool_decide_true in Hon.
  - eapply world_ok_proper; [..|exact Hw]; [done|]. unfold d_msgs. simpl. unfold X.
    by rewrite Ec, (gather_same _ _ _ cn _ Hcn).
Qed.

(** * Registration *)

Lemma disp_perm d R R' F F' : disp_ok d R F -> R ≡ₚ R' -> F ≡ₚ F' -> disp_ok d R' F'.
Proof. intros [Hwi Hw Hh] HR HF. constructor; [done | by rewrite <- HR, <- HF | done]. Qed.

(** The rest of the process takes or drops a reference to a queue. *)
Lemma disp_drop p d R F : disp_ok d (p :: R) F -> disp_ok (d_unref p d) R F.
Proof.
  intros Hd. pose proof (do_world _ _ _ Hd) as Hw. rewrite <- Permutation_middle in Hw.
  destruct (d_unref_ok p d _ _ Hw) as (Hw1 & Hm & _ & Hk & _).
  eapply disp_same; [done | by apply moved_wires | | done].
  by rewrite Hm.
Qed.

Lemma get_queue_ok vhost name d R F r w :
  disp_ok d R F -> broker_get_queue vhost name (d_world d) = (r, w) ->
  disp_ok (d <| d_world := w |>) (option_list r ++ R) F /\
  r = pm_map (w_queues (d_world d)) !! broker_vkey (Some vhost) (Some name) /\ calm (d_world d) w /\
  same_queues (d_store d) (w_store w).
Proof.
  intros Hd E. destruct (get_queue_spec _ _ _ _ _ _ _ (do_world _ _ _ Hd) E) as (Hr & Hw & Hs & Hq & Hsys).
  assert (Hk : w_wakeups w = w_wakeups (d_world d)).
  { revert E. unfold broker_get_queue. destruct (pm_get _ _); by intros [= _ <-]. }
  split_and!; [|done | split_and!; [done | done | by rewrite Hsys] | done].
  eapply disp_same; [done | done | | done]. eapply world_ok_proper; [..|exact Hw]; [|done]. simpl.
  change (d_refs (d <| d_world := w |>)) with (d_refs d). destruct r; simpl; solve_perm.
Qed.

Lemma malloc_ok d ok d' R F : d_malloc d = (ok, d') -> disp_ok d R F -> disp_ok d' R F /\ exists n, d' = d <| d_net := n |>.
Proof.
  unfold d_malloc. destruct (n_malloc (d_net d)) as [ok1 n]. intros [= <- <-] Hd.
  split; [by eapply disp_field | eauto].
Qed.

(** An address that has never been used. *)
Lemma wired_skip d R F : disp_ok d R F -> disp_ok (d <| d_next_addr ::= Pos.succ |>) R F.
Proof.
  intros [[H1 H2 H3 H4 H5 H6 H7 H8 H9 H10 H11] Hw Hh]. constructor; [constructor; simpl; try done| done | done].
  - intros cp c Hc. specialize (H8 cp c Hc). lia.
  - intros ga g Hg. specialize (H9 ga g Hg). lia.
Qed.

(** The registry with a new, empty group. *)
Lemma wired_new_group d vkey ga q m :
  wired d -> pm_map (d_groups d) !! vkey = None -> d_gobjs d !! ga = None -> (ga < d_next_addr d)%positive ->
  pm_ok m -> pm_map m = <[vkey := ga]> (pm_map (d_groups d)) ->
  wired (d <| d_groups := m |> <| d_gobjs ::= <[ga := Group q [] 0 0]> |>).
Proof.
  intros [H1 H2 H3 H4 H5 H6 H7 H8 H9 H10 H11] Hk Hga Hlt Hm Hmap.
  assert (Hnew : forall k, pm_map (d_groups d) !! k <> Some ga).
  { intros k Hk0. destruct (H6 _ _ Hk0). congruence. }
  constructor; simpl; try done.
  - intros x y [[<- _]|[Hne Hx]]%lookup_insert_Some; [exists vkey; by rewrite Hmap, lookup_insert_eq|].
    destruct (H5 _ _ Hx) as [k Hkx]. exists k. rewrite Hmap, lookup_insert_ne; [done|]. intros <-. congruence.
  - intros k x. rewrite Hmap. intros [[_ <-]|[_ Hx]]%lookup_insert_Some; apply lookup_insert_is_Some; [by left|].
    destruct (decide (ga = x)); eauto.
  - intros k1 k2 x. rewrite Hmap, !lookup_insert_Some. naive_solver.
  - intros x y [[<- _]|[_ Hx]]%lookup_insert_Some; eauto.
  - intros x y Hy. destruct (H10 x y Hy) as ((g0 & Hg0 & Hin) & B2 & B3 & B4). unfold consumer_ok. simpl.
    rewrite Hmap, !lookup_insert_ne by congruence. eauto 10.
  - intros x y [[<- <-]|[_ Hx]]%lookup_insert_Some; [|by apply H11].
    split_and!; simpl; [apply NoDup_nil_2 | lia | set_solver].
Qed.

(** The registry is another representation of the same map. *)
Lemma wired_same_map d m : wired d -> pm_ok m -> pm_map m = pm_map (d_groups d) -> wired (d <| d_groups := m |>).
Proof.
  intros [H1 H2 H3 H4 H5 H6 H7 H8 H9 H10 H11] Hm Hmap.
  constructor; unfold consumer_ok in *; simpl; rewrite ?Hmap; assumption.
Qed.

Lemma register_group_ok vkey ga q d R F ok d' :
  disp_ok d (q :: R) F -> pm_map (d_groups d) !! vkey = None -> d_gobjs d !! ga = None -> (ga < d_next_addr d)%positive ->
  register_group vkey ga q d = (ok, d') ->
  disp_ok d' (q :: R) F /\
  (d_self d', d_conns d', d_cobjs d', d_next_addr d', d_consumers d') = (d_self d, d_conns d, d_cobjs d, d_next_addr d, d_consumers d) /\
  (ok = true -> d_gobjs d' !! ga = Some (Group q [] 0 0) /\ pm_map (d_groups d') !! vkey = Some ga).
Proof.
  intros Hd Hk Hga Hlt. unfold register_group. pose proof Hd as [Hwi Hw Hh].
  destruct (d_ref_ok q d _ _ Hw ltac:(set_solver)) as (Hw1 & Hm1 & _ & Hk1 & _). set (d1 := d_ref q d) in *.
  clearbody d1.
  destruct (moved_fields _ _ Hm1) as (Er & Eg & Em & Ep). injection Er as E1 E2 E3 E4 E5 E6 _ _.
  assert (Hwi1 : wired d1) by (eapply wired_same; [done | by apply moved_wires]).
  pose proof (pm_put_spec (d_groups d1) vkey ga (n_oracle (d_net d1)) ltac:(apply Hwi1)) as Hput.
  destruct (pm_put _ _ _ _) as [[[okp old] m] o]. rewrite Em in Hput.
  destruct okp; intros [= <- <-].
  - destruct Hput as (Hm & _ & Hmap). split_and!; [|simpl; congruence | by simpl; rewrite Hmap, !lookup_insert_eq].
    constructor; simpl; [| | by rewrite Hk1, E1].
    + eapply wired_same; [apply (wired_new_group d1 vkey ga q m Hwi1); congruence | done].
    + eapply world_ok_proper; [..|exact Hw1]; unfold d_refs, d_msgs; simpl; [|by rewrite E2, E3].
      rewrite Eg, E3, Ep, (gather_new _ _ _ _ Hga). simpl. solve_perm.
  - destruct Hput as (Hm & _ & _ & Hmap).
    set (d2 := (d1 <| d_net ::= _ |>) <| d_groups := m |>).
    destruct (d_unref_ok q d2 (d_refs d ++ q :: R) (d_msgs d ++ F) Hw1) as (Hw3 & Hm3 & _ & Hk3 & _).
    split_and!; [|simpl; congruence | done]. constructor; [| |by rewrite Hk3; simpl; rewrite Hk1, E1].
    + eapply wired_same; [|by apply moved_wires].
      eapply wired_same; [apply (wired_same_map d1 m Hwi1 Hm); congruence | done].
    + eapply world_ok_proper; [..|exact Hw3]; unfold d_refs, d_msgs; simpl; by rewrite ?Eg, ?E2, ?E3, ?Ep.
Qed.

Lemma group_add_spec cp g n ok g' n' :
  (length (g_arr g) <= g_cap g)%nat -> group_add cp g n = (ok, g', n') ->
  if ok then g_queue g' = g_queue g /\ g_arr g' = g_arr g ++ [cp] /\ (length (g_arr g') <= g_cap g')%nat else g' = g.
Proof.
  intros Hcap. unfold group_add. destruct (Nat.eqb_spec (length (g_arr g)) (g_cap g)) as [He|Hne].
  - destruct (n_malloc n) as [ok1 n1]. destruct ok1; intros [= <- <- <-]; [|done]. simpl. rewrite length_app. simpl.
    split_and!; [done | done |]. destruct (Nat.eqb_spec (g_cap g) 0); lia.
  - intros [= <- <- <-]. simpl. rewrite length_app. simpl. split_and!; [done | done | lia].
Qed.

(** A new consumer is a member of its group and of the global list. *)
Lemma wired_link d cp c g g' :
  wired d -> d_cobjs d !! cp = None -> (cp < d_next_addr d)%positive -> d_gobjs d !! cs_group c = Some g ->
  g_arr g' = g_arr g ++ [cp] -> (length (g_arr g') <= g_cap g')%nat ->
  pm_map (d_groups d) !! cs_queue_name c = Some (cs_group c) -> live_conn d (cs_conn c) ->
  (length (cs_unacked c) <= cs_cap_unacked c)%nat ->
  wired (d <| d_gobjs ::= <[cs_group c := g']> |> <| d_cobjs ::= <[cp := c]> |> <| d_consumers ::= cons cp |>).
Proof.
  intros [H1 H2 H3 H4 H5 H6 H7 H8 H9 H10 H11] Hc Hlt Hg Ea Hcap Hk Hcn Hu.
  assert (Hni : cp ∉ d_consumers d) by (rewrite H3, Hc; apply is_Some_None).
  destruct (H11 _ _ Hg) as (B1 & B2 & B3).
  assert (Hnm : forall ga g0, d_gobjs d !! ga = Some g0 -> cp ∉ g_arr g0).
  { intros ga g0 Hg0 Hin. destruct (H11 _ _ Hg0) as (_ & _ & Hm). destruct (Hm cp Hin) as (y & Hy & _). congruence. }
  constructor; simpl; try done.
  - by apply NoDup_cons.
  - intros x. rewrite elem_of_cons, H3, lookup_insert_is_Some. destruct (decide (cp = x)); naive_solver.
  - intros x y [[<- _]|[_ Hx]]%lookup_insert_Some; eauto.
  - intros k x Hkx. apply lookup_insert_is_Some. destruct (decide (cs_group c = x)); eauto.
  - intros x y [[<- _]|[_ Hx]]%lookup_insert_Some; eauto.
  - intros x y [[<- _]|[_ Hx]]%lookup_insert_Some; eauto.
  - intros x y [[<- <-]|[Hne Hx]]%lookup_insert_Some; unfold consumer_ok; simpl.
    + rewrite lookup_insert_eq. split_and!; try done. exists g'. split; [done|]. rewrite Ea. set_solver.
    + destruct (H10 x y Hx) as ((g0 & Hg0 & Hin) & D2 & D3 & D4). split_and!; try done.
      destruct (decide (cs_group c = cs_group y)) as [He|Hn]; [|rewrite lookup_insert_ne by done; eauto].
      rewrite <- He, lookup_insert_eq. exists g'. split; [done|]. rewrite <- He, Hg in Hg0. injection Hg0 as <-.
      rewrite Ea. set_solver.
  - intros x y [[<- <-]|[Hne Hx]]%lookup_insert_Some; unfold group_ok; simpl.
    + rewrite Ea. split_and!; [| by rewrite <- Ea|].
      * apply NoDup_app. split_and!; [done | | apply NoDup_singleton]. intros z Hz ->%list_elem_of_singleton. by eapply Hnm.
      * intros z [Hz| ->%list_elem_of_singleton]%elem_of_app; [|rewrite lookup_insert_eq; eauto].
        destruct (B3 z Hz) as (y & Hy & Hyg). exists y. by rewrite lookup_insert_ne by congruence.
    + destruct (H11 _ _ Hx) as (D1 & D2 & D3). split_and!; try done. intros z Hz.
      destruct (D3 z Hz) as (v & Hv & Hvg). exists v. by rewrite lookup_insert_ne by congruence.
Qed.

(** Announcing the consumer: the count, the waiter and the notification. *)
Lemma announce_ok q (new_group : bool) d R F :
  disp_ok d R F -> q ∈ owned_refs (d_world d) ++ d_refs d ++ R ->
  let d1 := pure_queue q queue_consumers_inc d in
  let d2 := if new_group
            then snd (d_on_queue tt q (fun x s => let '(x, s) := queue_add_waiter (WAITER_FN, d_self d1) x s in (tt, x, s)) d1)
            else d1 in
  let d3 := dispatcher_notify q d2 in
  disp_ok d3 R F /\ same_wires d d3 /\ d_next_delivery_tag d3 = d_next_delivery_tag d.
Proof.
  intros Hd Hq. pose proof (do_world _ _ _ Hd) as Hw.
  destruct (pure_queue_ok q d _ _ Hw Hq queue_consumers_inc) as (qv & _ & -> & Hw1 & Hc1); [intros; apply op_consumers|].
  set (d1 := d <| d_world ::= _ |>). cbv zeta.
  assert (Hd1 : disp_ok d1 R F) by (eapply disp_same; [done | done | done | apply Hc1]).
  assert (Hstep : exists d2, (if new_group
            then snd (d_on_queue tt q (fun x s => let '(x, s) := queue_add_waiter (WAITER_FN, d_self d1) x s in (tt, x, s)) d1)
            else d1) = d2 /\ disp_ok d2 R F /\ moved d d2 /\ calm (d_world d) (d_world d2)).
  { destruct new_group; [|by exists d1].
    destruct (d_on_queue_ok q d1 _ _ Hw1 Hq tt (fun x s => let '(x, s) := queue_add_waiter (WAITER_FN, d_self d1) x s in (tt, x, s))
      (fun _ => d_msgs d ++ F)) as (q1 & a & q1' & s' & _ & _ & -> & Hw2 & Hc2); [intros; apply op_add_waiter|].
    eexists. split; [done|]. split_and!; [|done | by eapply calm_trans].
    eapply disp_same; [exact Hd1 | done | done | apply Hc2]. }
  destruct Hstep as (d2 & -> & Hd2 & Hm2 & Hc2).
  destruct (disp_notify q d2 R F Hd2) as [Hd3 Hn].
  { rewrite (calm_refs _ _ Hc2). by rewrite Hm2. }
  split_and!; [done | |].
  - eapply same_wires_trans; [by apply moved_wires | apply Hn].
  - rewrite (nt_tag _ _ Hn). by rewrite Hm2.
Qed.

Lemma link_consumer_ok cp c new_group d R F g rc d' :
  disp_ok d (cs_queue c :: R) F -> d_cobjs d !! cp = None -> (cp < d_next_addr d)%positive ->
  d_gobjs d !! cs_group c = Some g -> pm_map (d_groups d) !! cs_queue_name c = Some (cs_group c) ->
  live_conn d (cs_conn c) -> cs_unacked c = [] -> link_consumer cp c new_group d = (rc, d') ->
  disp_ok d' R F /\ d_self d' = d_self d /\ d_conns d' = d_conns d /\
  (rc = 0 /\ d_cobjs d' = <[cp := c]> (d_cobjs d) /\ d_consumers d' = cp :: d_consumers d \/
   rc = -1 /\ d_cobjs d' = d_cobjs d /\ d_consumers d' = d_consumers d).
Proof.
  intros Hd Hcp Hlt Hg Hk Hcn Hu. unfold link_consumer. rewrite Hg. pose proof Hd as [Hwi Hw Hh].
  destruct (wi_group _ Hwi _ _ Hg) as (_ & Hcap & _).
  destruct (group_add cp g (d_net d)) as [[ok g'] n] eqn:Ea. pose proof (group_add_spec _ _ _ _ _ _ Hcap Ea) as Hga.
  destruct ok; intros [= <- <-].
  - destruct Hga as (Eq & Earr & Hcap').
    set (d1 := (d <| d_net := n |> <| d_gobjs ::= <[cs_group c := g']> |> <| d_cobjs ::= <[cp := c]> |>) <| d_consumers ::= cons cp |>).
    assert (Hd1 : disp_ok d1 R F).
    { constructor; [| |done].
      - eapply wired_same; [apply (wired_link d cp c g g'); try done; rewrite Hu; simpl; lia | done].
      - eapply world_ok_proper; [..|exact Hw]; unfold d_refs, d_msgs; simpl.
        + rewrite (gather_same _ _ _ g g' Hg), (gather_new _ _ _ _ Hcp) by (by rewrite Eq). simpl. solve_perm.
        + rewrite (gather_new _ _ _ _ Hcp), Hu. done. }
    destruct (announce_ok (cs_queue c) new_group d1 R F Hd1) as (Hd3 & Hs & _).
    { eapply consumer_queue_live. apply lookup_insert_eq. }
    injection Hs as E1 E2 _ _ E5 _ E7 _. split_and!; [exact Hd3 | exact E1 | exact E2 |].
    left. split_and!; [done | exact E5 | exact E7].
  - subst g'. split_and!; [|done | done | by right]. apply disp_drop.
    assert (Hd1 : disp_ok (d <| d_net := n |>) (cs_queue c :: R) F) by (by eapply disp_field).
    by eapply (disp_set_group _ _ g g).
Qed.

Lemma find_group_ok vkey d R F g new_group d' :
  disp_ok d R F -> find_group vkey d = (g, new_group, d') ->
  disp_ok d' R F /\ d_world d' = d_world d /\
  (d_self d', d_conns d', d_cobjs d', d_consumers d', d_groups d', d_gobjs d') =
  (d_self d, d_conns d, d_cobjs d, d_consumers d, d_groups d, d_gobjs d) /\ (d_next_addr d <= d_next_addr d')%positive /\
  forall ga, g = Some ga ->
    if new_group then pm_map (d_groups d) !! vkey = None /\ d_gobjs d !! ga = None /\ (ga < d_next_addr d')%positive
    else pm_map (d_groups d) !! vkey = Some ga.
Proof.
  intros Hd. unfold find_group. rewrite pm_get_spec by apply Hd.
  destruct (pm_map (d_groups d) !! vkey) as [ga|] eqn:Ek.
  { intros [= <- <- <-]. by split_and!. }
  destruct (d_malloc d) as [ok d1] eqn:Em. destruct (malloc_ok _ _ _ _ _ Em Hd) as (Hd1 & n & ->).
  destruct ok; intros [= <- <- <-]; [|by split_and!].
  split_and!; [by apply wired_skip | done | done | simpl; lia |]. intros x [= <-]. split_and!; [done | | simpl; lia].
  destruct (d_gobjs d !! d_next_addr d) as [g|] eqn:Eg; [|done].
  pose proof (wi_gfresh _ (do_wired _ _ _ Hd) _ _ Eg). lia.
Qed.

(** The result of a registration attempt. *)
Definition joined (cp : positive) (c : consumer) d d' (rc : Z) : Prop :=
  d_self d' = d_self d /\ d_conns d' = d_conns d /\
  (rc = 0 /\ d_cobjs d' = <[cp := c]> (d_cobjs d) /\ d_consumers d' = cp :: d_consumers d \/
   rc = -1 /\ d_cobjs d' = d_cobjs d /\ d_consumers d' = d_consumers d).

Lemma join_group_ok cp c (new_group : bool) d R F rc d' :
  disp_ok d (cs_queue c :: R) F -> d_cobjs d !! cp = None -> (cp < d_next_addr d)%positive ->
  live_conn d (cs_conn c) -> cs_unacked c = [] ->
  (if new_group then pm_map (d_groups d) !! cs_queue_name c = None /\ d_gobjs d !! cs_group c = None /\ (cs_group c < d_next_addr d)%positive
   else pm_map (d_groups d) !! cs_queue_name c = Some (cs_group c)) ->
  (let '(ok, d1) := if new_group then register_group (cs_queue_name c) (cs_group c) (cs_queue c) d else (true, d) in
   if ok : bool then link_consumer cp c new_group d1 else (-1, d_unref (cs_queue c) d1)) = (rc, d') ->
  disp_ok d' R F /\ joined cp c d d' rc.
Proof.
  intros Hd Hcp Hlt Hcn Hu Hgr. destruct new_group.
  - destruct Hgr as (Hk & Hga & Hgl).
    destruct (register_group _ _ _ d) as [ok d1] eqn:Er.
    destruct (register_group_ok _ _ _ _ _ _ _ _ Hd Hk Hga Hgl Er) as (Hd1 & E1 & Hg1). injection E1 as A1 A2 A3 A4 A5.
    destruct ok; [|intros [= <- <-]; split; [by apply disp_drop | split_and!; [done | done | by right]]].
    destruct (Hg1 eq_refl) as [Hg Hm]. intros Hl. assert (live_conn d1 (cs_conn c)) by (unfold live_conn; by rewrite A2).
    destruct (link_consumer_ok cp c true d1 R F (Group (cs_queue c) [] 0 0) rc d' Hd1) as (Hd2 & B1 & B2 & Hor); try done; try congruence.
    split; [done|]. unfold joined. rewrite <- A1, <- A2, <- A3, <- A5. done.
  - intros Hl. destruct (wi_groups _ (do_wired _ _ _ Hd) _ _ Hgr) as [g Hg].
    by destruct (link_consumer_ok cp c false d R F g rc d' Hd).
Qed.

Lemma add_consumer_ok conn channel tag vhost name no_ack prefetch d R F rc d' :
  disp_ok d R F -> live_conn d conn ->
  dispatcher_add_consumer conn channel tag vhost name no_ack prefetch d = (rc, d') ->
  disp_ok d' R F /\ exists cp q ga,
    joined cp (Consumer conn channel tag q (broker_vkey (Some vhost) (Some name)) no_ack prefetch [] 0 ga) d d' rc.
Proof.
  intros Hd Hcn. unfold dispatcher_add_consumer.
  assert (Hfail : forall q d0, disp_ok d0 (q :: R) F -> (d_self d0, d_conns d0, d_cobjs d0, d_consumers d0) = (d_self d, d_conns d, d_cobjs d, d_consumers d) ->
    disp_ok (d_unref q d0) R F /\ exists cp q ga,
      joined cp (Consumer conn channel tag q (broker_vkey (Some vhost) (Some name)) no_ack prefetch [] 0 ga) d (d_unref q d0) (-1)).
  { intros q d0 H0 [= E1 E2 E3 E4]. split; [by apply disp_drop|]. exists 1%positive, q, 1%positive. split_and!; [done | done | by right]. }
  destruct (broker_get_queue vhost name (d_world d)) as [[q|] w] eqn:Eq;
    destruct (get_queue_ok _ _ _ _ _ _ _ Hd Eq) as (Hd1 & _); simpl in Hd1;
    [|intros [= <- <-]; split; [done | exists 1%positive, 1%positive, 1%positive; split_and!; [done | done | by right]]].
  set (d1 := d <| d_world := w |>) in *. destruct (d_malloc d1) as [okc d2] eqn:Em2.
  destruct (malloc_ok _ _ _ _ _ Em2 Hd1) as (Hd2 & n2 & E2).
  assert (Hd3 : disp_ok (if okc then d2 <| d_next_addr ::= Pos.succ |> else d2) (q :: R) F)
    by (destruct okc; [by apply wired_skip | done]).
  set (d3 := if okc then _ else d2) in *.
  assert (E3 : (d_self d3, d_conns d3, d_cobjs d3, d_consumers d3) = (d_self d, d_conns d, d_cobjs d, d_consumers d))
    by (subst d2 d3; by destruct okc).
  assert (Hlt3 : okc = true -> (d_next_addr d2 < d_next_addr d3)%positive) by (subst d3; intros ->; simpl; lia).
  assert (Hfree : d_cobjs d !! d_next_addr d2 = None).
  { destruct (d_cobjs d !! d_next_addr d2) as [c|] eqn:Ec; [|done]. rewrite E2 in Ec.
    pose proof (wi_cfresh _ (do_wired _ _ _ Hd) _ _ Ec). simpl in *. lia. }
  set (vkey := broker_vkey (Some vhost) (Some name)) in *. clearbody d3.
  destruct (find_group vkey d3) as [[g new_group] d4] eqn:Ef.
  destruct (find_group_ok _ _ _ _ _ _ _ Hd3 Ef) as (Hd4 & _ & E4 & Hle4 & Hg4).
  assert (E : (d_self d4, d_conns d4, d_cobjs d4, d_consumers d4) = (d_self d, d_conns d, d_cobjs d, d_consumers d)) by congruence.
  destruct g as [ga|]; [|intros [= <- <-]; by apply Hfail].
  destruct okc; cbn [negb]; [|intros [= <- <-]; by apply Hfail].
  destruct (d_malloc d4) as [ok1 d5] eqn:Em5. destruct (malloc_ok _ _ _ _ _ Em5 Hd4) as (Hd5 & n5 & ->).
  destruct (d_malloc (d4 <| d_net := n5 |>)) as [ok2 d6] eqn:Em6. destruct (malloc_ok _ _ _ _ _ Em6 Hd5) as (Hd6 & n6 & ->).
  destruct (ok1 && ok2); cbn [negb]; [|intros [= <- <-]; by apply Hfail].
  set (c := Consumer conn channel tag q vkey no_ack prefetch [] 0 ga). injection E as A1 A2 A3 A4. injection E4 as B1 B2 B3 B4 B5 B6.
  intros Hj. destruct (join_group_ok (d_next_addr d2) c new_group _ R F rc d' Hd6) as [Hd' Hjo]; try done; simpl.
  - congruence.
  - specialize (Hlt3 eq_refl). lia.
  - unfold live_conn. simpl. by rewrite A2.
  - specialize (Hg4 ga eq_refl). by rewrite B5, B6.
  - split; [done|]. exists (d_next_addr d2), q, ga. unfold joined in *. simpl in Hjo. by rewrite <- A1, <- A2, <- A3, <- A4.
Qed.

(** * Wakeups *)

Lemma wake_all_ok l : forall d R F,
  world_ok (d_world d) (d_pending d ++ R) F -> (forall p, p ∈ l -> p ∈ owned_refs (d_world d) ++ d_pending d ++ R) ->
  let d' := foldl (fun d q => dispatcher_queue_waiter q d) d l in
  world_ok (d_world d') (d_pending d' ++ R) F /\ notified d d'.
Proof.
  induction l as [|p l IH]; intros d R F Hw Hl; cbn [foldl]; [split; auto using notified_refl|].
  destruct (notify_ok p d R F Hw) as [Hw1 Hn1]; [apply Hl; set_solver|].
  destruct (IH (dispatcher_queue_waiter p d) R F Hw1) as [Hw2 Hn2].
  { intros x Hx. specialize (Hl x ltac:(set_solver)). pose proof (nt_pending _ _ Hn1 x) as Hp.
    rewrite (calm_refs _ _ (nt_calm _ _ Hn1) : owned_refs (d_world (dispatcher_queue_waiter p d)) = _).
    change (d_pending (dispatcher_queue_waiter p d)) with (d_pending (dispatcher_notify p d)). set_solver. }
  split; [done | by eapply notified_trans].
Qed.

(** The callbacks in the log are for live queues, or not for this dispatcher. *)
Definition audible d (R : list positive) : Prop :=
  forall x, x ∈ w_wakeups (d_world d) -> x.1 = (WAITER_FN, d_self d) -> x.2 ∈ owned_refs (d_world d) ++ d_pending d ++ R.

Definition heard d : Prop := Forall (fun x => x.1 <> (WAITER_FN, d_self d)) (w_wakeups (d_world d)).

Lemma take_wakeups_ok d R F :
  world_ok (d_world d) (d_pending d ++ R) F -> audible d R ->
  let d' := take_wakeups d in
  world_ok (d_world d') (d_pending d' ++ R) F /\ same_wires d d' /\ same_regs (d_world d) (d_world d') /\
  (ample (w_sys (d_world d)) -> ample (w_sys (d_world d'))) /\
  same_queues (d_store d) (d_store d') /\ heard d' /\ d_next_delivery_tag d' = d_next_delivery_tag d.
Proof.
  intros Hw Ha. unfold take_wakeups. set (mine := (WAITER_FN, d_self d)).
  set (d1 := d <| d_world ::= fun w => w <| w_wakeups ::= filter (fun wq => wq.1 <> mine) |> |>).
  assert (Hw1 : world_ok (d_world d1) (d_pending d1 ++ R) F).
  { eapply world_ok_regs; [exact Hw | done | apply Hw | apply Hw]. }
  destruct (wake_all_ok (snd <$> filter (fun wq => wq.1 = mine) (w_wakeups (d_world d))) d1 R F Hw1) as [Hw2 Hn].
  { intros p (x & -> & Hx)%list_elem_of_fmap. apply list_elem_of_filter in Hx as [He Hx]. by apply (Ha x). }
  set (d2 := foldl _ _ _) in *. destruct (nt_calm _ _ Hn) as (Hr & Hk & Ho).
  pose proof (nt_wires _ _ Hn) as Hs. split_and!; [done | exact Hs | exact Hr | exact Ho | exact (nt_queues _ _ Hn) | | exact (nt_tag _ _ Hn)].
  unfold heard. rewrite Hk. injection Hs as -> _ _ _ _ _ _ _. simpl. apply Forall_forall. intros x Hx.
  apply list_elem_of_filter in Hx as [Hne _]. exact Hne.
Qed.

(** What routing logs can be heard. *)
Lemma woken_audible d w R F :
  heard d -> world_ok w (d_pending d ++ R) F -> frame_kept (d_world d) w -> audible (d <| d_world := w |>) R.
Proof.
  intros Hh Hw [_ Hk] x Hx He. simpl in *. destruct (Hk x Hx) as [Hold|[q Hq]].
  - unfold heard in Hh. rewrite Forall_forall in Hh. by destruct (Hh x Hold).
  - apply refs_to_pos. by apply (so_refs _ _ _ (wo_store _ _ _ Hw) _ _ Hq).
Qed.

(** * Settling *)

Section Fuel.
Context (fuel : nat).

Definition d_weight d (F : list message) : nat := weight (size (st_queues (d_store d))) (stored (d_world d) ++ F).

(** [settles d d'] : the tables are the same and the potential has not grown. *)
Record settles d d' : Prop := Settles {
  sl_wires : same_wires d d';
  sl_regs : same_regs (d_world d) (d_world d');
  sl_ample : ample (w_sys (d_world d)) -> ample (w_sys (d_world d'));
  sl_size : size (st_queues (d_store d')) = size (st_queues (d_store d));
  sl_tag : d_next_delivery_tag d' = d_next_delivery_tag d
}.

Lemma settles_trans d1 d2 d3 : settles d1 d2 -> settles d2 d3 -> settles d1 d3.
Proof.
  intros [A1 A2 A3 A4 A5] [B1 B2 B3 B4 B5]. constructor; [by eapply same_wires_trans | by eapply same_regs_trans | auto | congruence | congruence].
Qed.

Lemma same_view_size (m m' : gmap positive queue) :
  (forall x, q_config <$> m' !! x = q_config <$> m !! x) -> size m' = size m.
Proof.
  intros H. rewrite <- !(size_dom (D := gset positive)). f_equal. apply set_eq. intros x. rewrite !elem_of_dom.
  specialize (H x). destruct (m' !! x), (m !! x); try done; split; eauto; by intros [? [=]].
Qed.

Lemma dead_letter_ok p m d R F :
  world_ok (d_world d) (d_pending d ++ R) (m :: F) -> p ∈ R -> heard d -> (d_weight d [m] <= fuel)%nat ->
  exists d', dead_letter fuel p m d = Some d' /\
    world_ok (d_world d') (d_pending d' ++ R) (m :: F) /\ heard d' /\ settles d d' /\ (d_weight d' [] <= d_weight d [m])%nat.
Proof.
  intros Hw Hp Hh Hf. unfold dead_letter. destruct (d_at_queue _ _ _ _).
  2:{ exists d. split_and!; try done. unfold d_weight. rewrite !weight_app. simpl. lia. }
  pose proof (store_nq _ _ _ (wo_store _ _ _ Hw)) as HN. unfold d_weight, d_store in *.
  destruct (dead_letter_cb_good fuel (broker_route fuel) (broker_route_good fuel) p m (d_world d) _ F (world_rstate _ _ _ Hw))
    as (w' & -> & Hr' & Hs & Hfk & Hwt & Ho).
  { set_solver. }
  { rewrite HN. rewrite weight_app in Hf. simpl in Hf. unfold weight in *. simpl in Hf. lia. }
  pose proof (rstate_world _ _ _ _ _ Hw Hs Hr') as Hw'.
  set (d1 := d <| d_world := w' |>).
  destruct (take_wakeups_ok d1 R (m :: F) Hw') as (Hw2 & Hs2 & Hr2 & Ho2 & Hq2 & Hh2 & Ht2).
  { by eapply woken_audible. }
  assert (Hsz : size (st_queues w'.(w_store)) = size (st_queues (w_store (d_world d)))) by (apply same_view_size, Hfk).
  assert (Hsz2 : size (st_queues (d_store (take_wakeups d1))) = size (st_queues w'.(w_store))).
  { apply same_view_size. apply (same_queues_config w' (d_world (take_wakeups d1)) Hq2). }
  eexists. split; [done|]. split_and!; [done | done | |].
  - constructor; [exact Hs2 | by eapply same_regs_trans | auto | by rewrite Hsz2 | exact Ht2].
  - unfold d_store in Hsz2. rewrite Hsz2, Hsz, <- HN.
    assert (Hst : stored (d_world (take_wakeups d1)) = stored w')
      by (apply (same_queues_messages _ _ Hq2)).
    rewrite Hst, !weight_app. unfold weight in *. simpl. lia.
Qed.

(** The messages in the queue at [x]. *)
Definition q_at d (x : positive) : option (list message) := contents <$> st_queues (d_store d) !! x.

(** The messages [ms] have been put back at the end of the queue at [p]. *)
Definition appended (p : positive) (ms : list message) d d' : Prop :=
  forall x, q_at d' x = (if decide (x = p) then (fun l => l ++ ms) <$> q_at d x else q_at d x).

Lemma appended_nil p d d' : appended p [] d d' <-> forall x, q_at d' x = q_at d x.
Proof.
  split; intros H x; specialize (H x); destruct (decide (x = p)); try done.
  - rewrite H. destruct (q_at d x); simpl; [by rewrite app_nil_r | done].
  - rewrite H. destruct (q_at d x); simpl; [by rewrite app_nil_r | done].
Qed.

Lemma appended_trans p ms1 ms2 d1 d2 d3 : appended p ms1 d1 d2 -> appended p ms2 d2 d3 -> appended p (ms1 ++ ms2) d1 d3.
Proof.
  intros H1 H2 x. rewrite H2. rewrite (H1 x). destruct (decide (x = p)); [|done].
  destruct (q_at d1 x); simpl; [by rewrite app_assoc | done].
Qed.

Lemma same_queues_at d d' : same_queues (d_store d) (d_store d') -> forall x, q_at d' x = q_at d x.
Proof.
  intros H x. specialize (H x). apply (f_equal (fmap fst)) in H. by rewrite <- !option_fmap_compose in H.
Qed.

Lemma set_queue_at p q q' s d :
  st_queues (d_store d) !! p = Some q ->
  forall x, q_at (d <| d_world ::= set_queue p q' s |>) x = if decide (x = p) then Some (contents q') else q_at d x.
Proof.
  intros Hq x. unfold q_at, d_store. simpl. destruct (decide (x = p)) as [->|Hne]; [by rewrite lookup_insert_eq|].
  by rewrite lookup_insert_ne.
Qed.

Lemma set_queue_size p q q' s w : st_queues (w_store w) !! p = Some q -> size (st_queues (w_store (set_queue p q' s w))) = size (st_queues (w_store w)).
Proof. intros Hq. simpl. rewrite map_size_insert_Some; [done | by eexists]. Qed.

Lemma set_queue_stored p q q' s w : st_queues (w_store w) !! p = Some q ->
  exists L, stored w ≡ₚ contents q ++ L /\ stored (set_queue p q' s w) ≡ₚ contents q' ++ L.
Proof.
  intros Hq. exists (messages_of (delete p (st_queues (w_store w)))).
  split; [by apply messages_split | unfold stored; simpl; apply messages_insert].
Qed.

(** What putting a message back does to the queue. *)
Lemma requeue_contents p q m w R F rc q' s' :
  world_ok w R F -> m ∈ F -> st_queues (w_store w) !! p = Some q -> queue_requeue_internal q m (w_sys w) = (rc, q', s') ->
  rc = 0 /\ contents q' = contents q ++ [m] \/ rc = -1 /\ ~ ample (w_sys w) /\ contents q' = contents q.
Proof.
  intros Hw Hm Hq E. pose proof (wo_store _ _ _ Hw) as Hst.
  destruct (requeue_spec q m (w_sys w) (messages_of (delete p (st_queues (w_store w))) ++ F) rc q' s' (contents q)) as [_ Hor];
    [by eapply so_queues | | set_solver | done |].
  - rewrite app_assoc, <- (messages_split _ _ _ Hq). apply Hst.
  - destruct Hor as [(-> & Hq' & _)|(-> & Hn & Hq' & _)]; rewrite (qinv_contents _ _ Hq'); [by left | by right].
Qed.

(** What settling a delivery of [m] leaves. *)
Definition settled_one p back rejected m d R F d' : Prop :=
  world_ok (d_world d') (d_pending d' ++ R) F /\ heard d' /\ settles d d' /\ (d_weight d' [] <= d_weight d [m])%nat /\
  (ample (w_sys (d_world d)) -> back || negb rejected = true -> appended p (if back : bool then [m] else []) d d').

(** The reference of the delivery is dropped last. *)
Lemma settle_finish p back rejected m d R F d1 :
  settled_one p back rejected m d R (m :: F) d1 -> settled_one p back rejected m d R F (d_heap (message_unref (Some m)) d1).
Proof.
  intros (H1 & H2 & H3 & H4 & H5). destruct (d_unref_msg_ok m d1 _ F H1) as (Hw1 & Hm1 & Hr1 & Hk1 & Ho1).
  split_and!; try done. destruct H3 as [A1 A2 A3 A4 A5]. constructor; try done. auto.
Qed.

Lemma settle_requeue p rejected m d R F q q' s' rc :
  world_ok (d_world d) (d_pending d ++ R) (m :: F) -> p ∈ R -> heard d -> st_queues (d_store d) !! p = Some q ->
  queue_requeue_internal q m (w_sys (d_world d)) = (rc, q', s') ->
  world_ok (set_queue p q' s' (d_world d)) (d_pending d ++ R) (m :: F) -> calm (d_world d) (set_queue p q' s' (d_world d)) ->
  settled_one p true rejected m d R (m :: F) (d <| d_world ::= set_queue p q' s' |>).
Proof.
  intros Hw Hp Hh Hq E Hw1 (Hr1 & Hk1 & Ho1). pose proof (requeue_contents p q m _ _ _ _ _ _ Hw ltac:(set_solver) Hq E) as Hor. split_and!.
  - done.
  - exact Hh.
  - constructor; try done. by apply (set_queue_size p q).
  - unfold d_weight, d_store. change (d_world (d <| d_world ::= set_queue p q' s' |>)) with (set_queue p q' s' (d_world d)).
    rewrite (set_queue_size p q) by done. destruct (set_queue_stored p q q' s' _ Hq) as (L & HL1 & HL2). rewrite HL1, HL2.
    rewrite !weight_app. destruct Hor as [(_ & ->)|(_ & _ & ->)]; rewrite ?weight_app; unfold weight; simpl; lia.
  - intros Ha _ x. rewrite (set_queue_at p q) by done. destruct (decide (x = p)) as [->|]; [|done].
    unfold q_at. rewrite Hq. simpl. by destruct Hor as [(_ & ->)|(_ & Hn & _)].
Qed.

(** An ack of the message at the queue changes its tracking only. *)
Lemma settle_tracked p m d R F q :
  world_ok (d_world d) (d_pending d ++ R) (m :: F) -> p ∈ R -> st_queues (d_store d) !! p = Some q ->
  contents (queue_consume_on_ack (m_cluster_id m) q) = contents q.
Proof.
  intros Hw Hp Hq. apply qinv_contents. pose proof (so_queues _ _ _ (wo_store _ _ _ Hw) _ _ Hq) as Hok.
  destruct (on_ack_spec (m_cluster_id m) q (qi_tracking _ _ Hok)) as (H1 & H2 & _). by eapply qinv_tracking.
Qed.

Lemma settle_gone p rejected m d R F d1 q :
  settled_one p false rejected m d R (m :: F) d1 -> (rejected = false -> d1 = d) -> st_queues (d_store d1) !! p = Some q ->
  contents (queue_consume_on_ack (m_cluster_id m) q) = contents q ->
  world_ok (set_queue p (queue_consume_on_ack (m_cluster_id m) q) (w_sys (d_world d1)) (d_world d1)) (d_pending d1 ++ R) (m :: F) ->
  settled_one p false rejected m d R (m :: F) (d1 <| d_world ::= set_queue p (queue_consume_on_ack (m_cluster_id m) q) (w_sys (d_world d1)) |>).
Proof.
  intros (Hw1 & Hh1 & Hs1 & Hwt1 & _) Hid Hq Hcq Hw2. set (q' := queue_consume_on_ack (m_cluster_id m) q) in *. split_and!.
  - done.
  - exact Hh1.
  - eapply settles_trans; [done|]. constructor; try done. by apply (set_queue_size p q).
  - etransitivity; [|exact Hwt1]. unfold d_weight, d_store.
    change (d_world (d1 <| d_world ::= set_queue p q' (w_sys (d_world d1)) |>)) with (set_queue p q' (w_sys (d_world d1)) (d_world d1)).
    rewrite (set_queue_size p q) by done. destruct (set_queue_stored p q q' (w_sys (d_world d1)) _ Hq) as (L & HL1 & HL2).
    by rewrite HL1, HL2, Hcq.
  - intros _ Hr. rewrite Hid in * by (by destruct rejected). apply appended_nil. intros x. rewrite (set_queue_at p q) by done.
    destruct (decide (x = p)) as [->|]; [|done]. unfold q_at. by rewrite Hq, Hcq.
Qed.

Lemma settle_one_ok p back rejected m d R F :
  world_ok (d_world d) (d_pending d ++ R) (m :: F) -> p ∈ R -> heard d -> (d_weight d [m] <= fuel)%nat ->
  exists d', settle_one fuel p back rejected m d = Some d' /\ settled_one p back rejected m d R F d'.
Proof.
  intros Hw Hp Hh Hf. unfold settle_one. destruct back.
  - destruct (requeue_ok p d (d_pending d ++ R) (m :: F) Hw ltac:(set_solver) m ltac:(set_solver)) as (q & q' & s' & rc & Hq & E & -> & Hw1 & Hc1).
    cbn [mbind option_bind snd]. eexists. split; [done|]. apply settle_finish. by eapply settle_requeue.
  - assert (Hdl : exists d1, (if rejected then dead_letter fuel p m d else Some d) = Some d1 /\
      settled_one p false rejected m d R (m :: F) d1 /\ (rejected = false -> d1 = d)).
    { destruct rejected.
      - destruct (dead_letter_ok p m d R F Hw Hp Hh Hf) as (d1 & E & H1 & H2 & H3 & H4). exists d1. unfold settled_one. by split_and!.
      - exists d. unfold settled_one. split_and!; try done; [|intros _ _; by apply appended_nil].
        unfold d_weight. rewrite !weight_app. unfold weight; simpl; lia. }
    destruct Hdl as (d1 & -> & Hs1 & Hid). cbn [mbind option_bind].
    destruct (pure_queue_ok p d1 _ _ (proj1 Hs1) ltac:(set_solver) (queue_consume_on_ack (m_cluster_id m)))
      as (q & Hq & -> & Hw2 & Hc2); [intros; apply op_on_ack|].
    eexists. split; [done|]. apply settle_finish. apply settle_gone; try done. by eapply settle_tracked; [apply Hs1|..].
Qed.
End Fuel.
End Ops.
