(* ===== verification/DispatchSettle.v ===== *)
(** Acks, nacks and rejects: dispatcher_ack and dispatcher_nack settle exactly the
    deliveries they name. *)

From S2P Require Import Prelude Tables Frame HashMap Message Queue Store Exchange Broker BrokerRoute BrokerSpec BrokerDelivery Net Dispatch DispatchInv DispatchOps.

Lemma list_bind_ext_in {A B} (f g : A -> list B) l : (forall x, x ∈ l -> f x = g x) -> l ≫= f = l ≫= g.
Proof.
  induction l as [|x l IH]; intros H; [done|]. cbn [mbind list_bind]. rewrite (H x) by set_solver. f_equal. apply IH. set_solver.
Qed.

Section Settle.
Context {M : Type} `{!PtrMap M} `{!PtrMapLaws M}.
Implicit Types (w : world M) (d : dispatcher M).

(** * One delivery *)

(** What settling leaves alone, besides the consumers. *)
Record settled_frame d d' : Prop := SettledFrame {
  sf_tables : (d_self d', d_conns d', d_groups d', d_gobjs d', d_consumers d') = (d_self d, d_conns d, d_groups d, d_gobjs d, d_consumers d);
  sf_regs : same_regs (d_world d) (d_world d');
  sf_ample : ample (w_sys (d_world d)) -> ample (w_sys (d_world d'));
  sf_tag : d_next_delivery_tag d' = d_next_delivery_tag d
}.

Lemma settled_frame_refl d : settled_frame d d.
Proof. by constructor. Qed.

Lemma settled_frame_trans d1 d2 d3 : settled_frame d1 d2 -> settled_frame d2 d3 -> settled_frame d1 d3.
Proof. intros [A1 A2 A3 A4] [B1 B2 B3 B4]. constructor; [congruence | by eapply same_regs_trans | auto | congruence]. Qed.

(** The deliveries outstanding weigh against the fuel of the routes. *)
Definition settle_fuel d : nat := d_weight d (d_msgs d).

Section Fuel.
Context (fuel : nat) (back rejected : bool).

(** The case in which the queues are known afterwards: no dead-lettering. *)
Definition plain : Prop := back || negb rejected = true.

Definition returned (ms : list message) : list message := if back then ms else [].

Lemma returned_app ms1 ms2 : returned (ms1 ++ ms2) = returned ms1 ++ returned ms2.
Proof. unfold returned. by destruct back. Qed.

Lemma settle_step cp c i t m d R F :
  disp_ok d R F -> d_cobjs d !! cp = Some c -> cs_unacked c !! i = Some (t, m) -> (settle_fuel d <= fuel)%nat ->
  exists d1, settle_one fuel (cs_queue c) back rejected m d = Some d1 /\
    let d2 := d1 <| d_cobjs ::= <[cp := c <| cs_unacked ::= swap_remove i |>]> |> in
    disp_ok d2 R F /\ settled_frame d d2 /\ d_cobjs d2 = <[cp := c <| cs_unacked ::= swap_remove i |>]> (d_cobjs d) /\
    (settle_fuel d2 <= settle_fuel d)%nat /\
    (ample (w_sys (d_world d)) -> plain -> appended (cs_queue c) (returned [m]) d d2).
Proof.
  intros Hd Hc Hi Hf. pose proof Hd as [Hwi Hw Hh]. pose proof (swap_remove_perm _ _ _ Hi) as Hperm.
  set (c' := c <| cs_unacked ::= swap_remove i |>) in *.
  set (R0 := gather (fun g => [g_queue g]) (d_gobjs d) ++ gather (fun c => [cs_queue c]) (d_cobjs d) ++ R).
  set (F0 := gather (fun c => (cs_unacked c).*2) (<[cp := c']> (d_cobjs d)) ++ gather (fun cn => omap id (cn_writes cn)) (d_conns d)).
  assert (Hms : d_msgs d ≡ₚ m :: F0).
  { pose proof (fmap_Permutation snd _ _ Hperm) as Hp2. unfold d_msgs, F0. rewrite (gather_split _ _ _ _ Hc), gather_insert, <- Hp2.
    unfold c'. cbn. solve_perm. }
  assert (Hlive : cs_queue c ∈ R0).
  { unfold R0. rewrite !elem_of_app. right. left. apply elem_of_gather. exists cp, c. set_solver. }
  destruct (settle_one_ok fuel (cs_queue c) back rejected m d R0 (F0 ++ F)) as (d1 & E & Hw1 & Hh1 & [A1 A2 A3 A4 A5] & Hwt & Happ); try done.
  - eapply world_ok_proper; [..|exact Hw]; [unfold d_refs, R0; solve_perm | by rewrite Hms].
  - etransitivity; [|exact Hf]. unfold settle_fuel, d_weight. rewrite Hms, !weight_app. unfold weight. simpl. lia.
  - exists d1. split; [done|]. cbv zeta. set (d2 := d1 <| d_cobjs ::= _ |>). injection A1 as B1 B2 B3 B4 B5 B6 B7 B8.
    assert (Ems : d_msgs d2 = F0) by (unfold d_msgs, F0; simpl; by rewrite B2, B5).
    split_and!.
    + constructor; [| |done].
      * apply wired_set_consumer with c; [| by rewrite B5 | done |].
        -- eapply wired_same; [done|]. unfold same_wires. congruence.
        -- simpl. destruct (wi_consumer _ Hwi cp c Hc) as (_ & _ & _ & Hl). apply Permutation_length in Hperm. simpl in Hperm. lia.
      * rewrite Ems. eapply world_ok_proper; [..|exact Hw1]; [|done]. unfold d_refs, R0. simpl.
        rewrite B4, B5, (gather_same _ _ _ c c' Hc) by done. solve_perm.
    + constructor; simpl; [congruence | done | done | done].
    + simpl. by rewrite B5.
    + unfold settle_fuel. rewrite Ems. unfold d_weight in *. change (d_store d2) with (d_store d1). rewrite A4 in *.
      change (d_world d2) with (d_world d1). rewrite Hms, !weight_app in *. unfold weight in *. simpl in *. lia.
    + intros Ha Hpl. apply (Happ Ha Hpl).
Qed.

(** * The deliveries of one consumer *)

Context (delivery_tag : Z) (multiple : bool).

(** The delivery is named by the request. *)
Definition named (u : Z * message) : bool := tag_matches multiple delivery_tag u.1.

(** [sd] are the deliveries of [c] that were settled, the rest are those of [c']. *)
Record settled_at (sd : list (Z * message)) (c c' : consumer) : Prop := SettledAt {
  sa_only : c' = c <| cs_unacked := cs_unacked c' |>;
  sa_split : cs_unacked c ≡ₚ sd ++ cs_unacked c';
  sa_named : Forall (fun u => named u = true) sd;
  sa_rest : if multiple then Forall (fun u => named u = false) (cs_unacked c')
            else (length sd <= 1)%nat /\ (sd = [] -> Forall (fun u => named u = false) (cs_unacked c'))
}.

Lemma settled_none c : Forall (fun u => named u = false) (cs_unacked c) -> settled_at [] c c.
Proof. intros H. constructor; [by destruct c | done | constructor |]. destruct multiple; [done|]. split; [simpl; lia | done]. Qed.

Lemma settle_loop_ok cp rounds : forall i here d c R F,
  disp_ok d R F -> d_cobjs d !! cp = Some c -> (length (cs_unacked c) <= rounds + i)%nat ->
  Forall (fun u => named u = false) (take i (cs_unacked c)) -> (settle_fuel d <= fuel)%nat ->
  exists sd c' d', settle_loop fuel rounds cp delivery_tag multiple back rejected i here d = Some ((here + length sd)%nat, d') /\
    disp_ok d' R F /\ settled_frame d d' /\ d_cobjs d' = <[cp := c']> (d_cobjs d) /\ settled_at sd c c' /\
    (settle_fuel d' <= settle_fuel d)%nat /\
    (ample (w_sys (d_world d)) -> plain -> appended (cs_queue c) (returned sd.*2) d d').
Proof.
  assert (Hnone : forall here d c R F, disp_ok d R F -> d_cobjs d !! cp = Some c -> Forall (fun u => named u = false) (cs_unacked c) ->
    exists sd c' d', Some (here, d) = Some ((here + length sd)%nat, d') /\
      disp_ok d' R F /\ settled_frame d d' /\ d_cobjs d' = <[cp := c']> (d_cobjs d) /\ settled_at sd c c' /\
      (settle_fuel d' <= settle_fuel d)%nat /\
      (ample (w_sys (d_world d)) -> plain -> appended (cs_queue c) (returned sd.*2) d d')).
  { intros here d c R F Hd Hc Hall. exists [], c, d. split_and!; auto using settled_frame_refl, settled_none.
    - simpl. by rewrite Nat.add_0_r.
    - by rewrite insert_id.
    - intros _ _. replace (returned [].*2) with (@nil message) by (unfold returned; by destruct back). by apply appended_nil. }
  induction rounds as [|rounds IH]; intros i here d c R F Hd Hc Hl Hpre Hf; cbn [settle_loop].
  { rewrite take_ge in Hpre by lia. by apply Hnone with (R := R) (F := F). }
  rewrite Hc. destruct (cs_unacked c !! i) as [[t m]|] eqn:Ei.
  2:{ apply lookup_ge_None in Ei. rewrite take_ge in Hpre by lia. by apply Hnone with (R := R) (F := F). }
  pose proof (lookup_lt_Some _ _ _ Ei) as Hlt. destruct (tag_matches multiple delivery_tag t) eqn:Et.
  2:{ apply IH; [done | done | lia | | done]. rewrite (take_S_r _ _ _ Ei). apply Forall_app. split; [done | by constructor]. }
  destruct (settle_step cp c i t m d R F Hd Hc Ei Hf) as (d1 & -> & Hd2 & Hs2 & Hc2 & Hf2 & Ha2). cbn [mbind option_bind].
  set (c2 := c <| cs_unacked ::= swap_remove i |>) in *. set (d2 := d1 <| d_cobjs ::= _ |>) in *.
  pose proof (swap_remove_perm _ _ _ Ei) as Hperm. change (swap_remove i (cs_unacked c)) with (cs_unacked c2) in Hperm.
  destruct multiple eqn:Em.
  - destruct (IH i (S here) d2 c2 R F Hd2) as (sd & c' & d' & E & Hd' & Hs' & Hc' & [S1 S2 S3 S4] & Hf' & Ha').
    + rewrite Hc2. apply lookup_insert_eq.
    + apply Permutation_length in Hperm. cbn [length] in Hperm. lia.
    + unfold c2. simpl. by rewrite take_swap_remove.
    + lia.
    + exists ((t, m) :: sd), c', d'. rewrite E. split_and!; try done.
      * f_equal. f_equal. simpl. lia.
      * by eapply settled_frame_trans.
      * rewrite Hc', Hc2. apply insert_insert_eq.
      * constructor; [by rewrite S1 | by rewrite <- Hperm, S2 | constructor; [by unfold named; rewrite Em | done] | by rewrite Em in *].
      * lia.
      * intros Ha Hpl. change ((t, m) :: sd) with ([(t, m)] ++ sd). rewrite fmap_app, returned_app.
        eapply appended_trans; [by apply Ha2 | apply Ha'; [by apply Hs2 | done]].
  - exists [(t, m)], c2, d2. split_and!; try done.
    + f_equal. f_equal. simpl. lia.
    + constructor; [by destruct c | by rewrite <- Hperm | constructor; [by unfold named; rewrite Em | done] |]. rewrite Em. split; [simpl; lia | done].
Qed.

(** * All consumers of a channel *)

Context (conn : positive) (channel : Z).

Definition on_channel (c : consumer) : bool := is_on conn (Some channel) c.

(** The deliveries [S cp] of the consumer at [cp] were settled, for each [cp]. *)
Definition settled_all (l : list positive) (S : positive -> list (Z * message)) d d' : Prop :=
  forall cp c, d_cobjs d !! cp = Some c -> exists c', d_cobjs d' !! cp = Some c' /\ c' = c <| cs_unacked := cs_unacked c' |> /\
    cs_unacked c ≡ₚ S cp ++ cs_unacked c' /\ Forall (fun u => named u = true) (S cp) /\
    ((cp ∉ l \/ on_channel c = false) -> S cp = []) /\
    (multiple = true -> cp ∈ l -> on_channel c = true -> Forall (fun u => named u = false) (cs_unacked c')).

Definition total (l : list positive) (S : positive -> list (Z * message)) : nat := sum_list ((fun cp => length (S cp)) <$> l).

(** What is put back into the queue at [x]. *)
Definition put_back (l : list positive) (S : positive -> list (Z * message)) d (x : positive) : list message :=
  l ≫= (fun cp => match d_cobjs d !! cp with
                  | Some c => if decide (cs_queue c = x) then (S cp).*2 else []
                  | None => []
                  end).

Definition requeued (l : list positive) S d d' : Prop :=
  forall x, q_at d' x = (fun ms => ms ++ returned (put_back l S d x)) <$> q_at d x.

Definition single_complete (l : list positive) S d : Prop :=
  multiple = false -> (total l S <= 1)%nat /\
    (total l S = 0%nat -> forall cp c, cp ∈ l -> d_cobjs d !! cp = Some c -> on_channel c = true -> Forall (fun u => named u = false) (cs_unacked c)).

Lemma total_none l : total l (fun _ => []) = 0%nat.
Proof. unfold total. induction l as [|x l IH]; [done|]. simpl. exact IH. Qed.

Lemma put_back_none l d x : put_back l (fun _ => []) d x = [].
Proof.
  unfold put_back. induction l as [|cp l IH]; [done|]. cbn. destruct (d_cobjs d !! cp); [destruct (decide _)|]; apply IH.
Qed.

Lemma returned_nil : returned [] = [].
Proof. unfold returned. by destruct back. Qed.

Lemma requeued_same l S d d' : (forall x, put_back l S d x = []) -> (forall x, q_at d' x = q_at d x) -> requeued l S d d'.
Proof.
  intros Hp Hq x. rewrite Hp, returned_nil, Hq. destruct (q_at d x); simpl; [by rewrite app_nil_r | done].
Qed.

Definition consumers_result (l : list positive) (n : nat) d R F : Prop :=
  exists S d', settle_consumers fuel l conn channel delivery_tag multiple back rejected n d = Some ((n + total l S)%nat, d') /\
    disp_ok d' R F /\ settled_frame d d' /\ settled_all l S d d' /\ single_complete l S d /\
    (settle_fuel d' <= settle_fuel d)%nat /\ (ample (w_sys (d_world d)) -> plain -> requeued l S d d').

Lemma on_channel_code c : (bool_decide (cs_conn c <> conn) || negb (cs_channel c =? channel)) = negb (on_channel c).
Proof.
  unfold on_channel, is_on. rewrite negb_andb, bool_decide_not. done.
Qed.

(** A consumer of another channel is passed over. *)
Lemma skip_consumer cp l n d R F c :
  d_cobjs d !! cp = Some c -> on_channel c = false -> cp ∉ l -> consumers_result l n d R F -> consumers_result (cp :: l) n d R F.
Proof.
  intros Hc Ho Hni (S & d' & E & Hd' & Hs' & Hall & Hsi & Hf & Hq).
  assert (HS : S cp = []) by (destruct (Hall cp c Hc) as (c' & _ & _ & _ & _ & H & _); auto).
  assert (Ht : total (cp :: l) S = total l S) by (unfold total; simpl; by rewrite HS).
  exists S, d'. split_and!; try done.
  - cbn [settle_consumers]. by rewrite Hc, on_channel_code, Ho, Ht.
  - intros x y Hy. destruct (Hall x y Hy) as (c' & B1 & B2 & B3 & B4 & B5 & B6). exists c'. split_and!; try done.
    + intros Hor. destruct (decide (x = cp)) as [->|Hne]; [done|]. apply B5. set_solver.
    + intros Hm Hx Hox. destruct (decide (x = cp)) as [->|Hne]; [|apply B6; [done | set_solver | done]]. congruence.
  - intros Hm. destruct (Hsi Hm) as [H1 H2]. rewrite Ht. split; [done|]. intros Hz x y Hx Hy Hox.
    destruct (decide (x = cp)) as [->|Hne]; [congruence|]. apply (H2 Hz x y); [set_solver | done | done].
  - intros Ha Hp x. rewrite (Hq Ha Hp x). unfold put_back. cbn. rewrite Hc, HS. by destruct (decide _).
Qed.

Definition with_first (cp : positive) (sd : list (Z * message)) (S : positive -> list (Z * message)) : positive -> list (Z * message) :=
  fun x => if decide (x = cp) then sd else S x.

Lemma with_first_here cp sd S : with_first cp sd S cp = sd.
Proof. unfold with_first. by rewrite decide_True. Qed.

Lemma with_first_ne cp sd S x : x <> cp -> with_first cp sd S x = S x.
Proof. intros. unfold with_first. by rewrite decide_False. Qed.

Lemma total_cons cp l sd S : cp ∉ l -> total (cp :: l) (with_first cp sd S) = (length sd + total l S)%nat.
Proof.
  intros Hni. unfold total. simpl. rewrite with_first_here. f_equal. f_equal.
  apply list_fmap_ext. intros i x Hx. rewrite with_first_ne; [done|]. intros ->. apply Hni. by eapply list_elem_of_lookup_2.
Qed.

Section First.
Context (cp : positive) (l : list positive) (sd : list (Z * message)) (c c' : consumer) (d d2 : dispatcher M).
Context (Hni : cp ∉ l) (Hc : d_cobjs d !! cp = Some c) (Ho : on_channel c = true)
  (Hc2 : d_cobjs d2 = <[cp := c']> (d_cobjs d)) (Hsd : settled_at sd c c').

Lemma settled_all_cons S d' : settled_all l S d2 d' -> settled_all (cp :: l) (with_first cp sd S) d d'.
Proof.
  intros Hall. destruct Hsd as [S1 S2 S3 S4]. intros x y Hy. destruct (decide (x = cp)) as [->|Hne].
  - rewrite Hc in Hy. injection Hy as <-. destruct (Hall cp c') as (c2 & B1 & B2 & B3 & B4 & B5 & B6).
    { rewrite Hc2. apply lookup_insert_eq. }
    assert (HS : S cp = []) by auto. rewrite HS in B3. simpl in B3.
    exists c2. rewrite with_first_here. split_and!; try done.
    + rewrite B2, S1. done.
    + by rewrite S2, B3.
    + intros [Hx|Hx]; [set_solver | congruence].
    + intros Hm _ _. rewrite Hm in S4. by rewrite <- B3.
  - destruct (Hall x y) as (y' & B1 & B2 & B3 & B4 & B5 & B6); [by rewrite Hc2, lookup_insert_ne|].
    exists y'. rewrite with_first_ne by done. split_and!; try done.
    + intros Hor. apply B5. set_solver.
    + intros Hm Hx. apply B6; [done | set_solver].
Qed.

Lemma single_complete_cons S : (sd = [] -> single_complete l S d2) -> (multiple = false -> sd <> [] -> total l S = 0%nat) ->
  single_complete (cp :: l) (with_first cp sd S) d.
Proof.
  intros Hsi Hz Hm. destruct Hsd as [S1 S2 S3 S4]. rewrite Hm in S4. destruct S4 as [Hle Hnil].
  rewrite total_cons by done. destruct sd as [|u sd'].
  - destruct (Hsi eq_refl Hm) as [H1 H2]. simpl. split; [done|]. intros Ht x y Hx Hy Hox. destruct (decide (x = cp)) as [->|Hne].
    + rewrite Hc in Hy. injection Hy as <-. rewrite S2. by apply Hnil.
    + apply (H2 Ht x y); [set_solver | by rewrite Hc2, lookup_insert_ne | done].
  - rewrite (Hz Hm) by done. simpl in *. split; [lia | lia].
Qed.

Lemma requeued_cons S d' :
  appended (cs_queue c) (returned sd.*2) d d2 -> requeued l S d2 d' -> requeued (cp :: l) (with_first cp sd S) d d'.
Proof.
  intros Ha Hr x. rewrite (Hr x), (Ha x).
  assert (Hp : put_back (cp :: l) (with_first cp sd S) d x = (if decide (cs_queue c = x) then sd.*2 else []) ++ put_back l S d2 x).
  { unfold put_back. cbn [mbind list_bind]. rewrite Hc, with_first_here. f_equal.
    apply list_bind_ext_in. intros y Hy. assert (y <> cp) by (by intros ->). rewrite with_first_ne, Hc2, lookup_insert_ne; done. }
  rewrite Hp, returned_app. destruct (decide (x = cs_queue c)) as [->|Hne].
  - rewrite decide_True by done. destruct (q_at d _); [|done]. simpl. by rewrite app_assoc.
  - rewrite decide_False by done. by rewrite returned_nil.
Qed.
End First.

(** Telling the queue of the consumer changes nothing that settling looks at. *)
Lemma notify_frame p d R F :
  disp_ok d R F -> p ∈ owned_refs (d_world d) ++ d_refs d ++ R ->
  let d' := dispatcher_notify p d in
  disp_ok d' R F /\ settled_frame d d' /\ d_cobjs d' = d_cobjs d /\ settle_fuel d' = settle_fuel d /\ (forall x, q_at d' x = q_at d x).
Proof.
  intros Hd Hp. destruct (disp_notify p d R F Hd Hp) as [Hd' Hn]. pose proof Hn as [Hs [Hr [_ Ho]] Hq _ Ht _].
  cbv zeta. set (d' := dispatcher_notify p d) in *. clearbody d'.
  injection Hs as E1 E2 E3 E4 E5 E6 E7 E8. split_and!; [done | | done | | by apply same_queues_at].
  - constructor; [congruence | done | done | done].
  - unfold settle_fuel, d_weight, d_msgs, stored. rewrite E2, E5. change (w_store (d_world d')) with (d_store d').
    rewrite (same_queues_messages _ _ Hq). f_equal.
    apply same_view_size. exact (same_queues_config (d_world d) (d_world d') Hq).
Qed.

Lemma settle_nobody n d R F : disp_ok d R F -> consumers_result [] n d R F.
Proof.
  intros Hd. exists (fun _ => []), d. split_and!; auto using settled_frame_refl.
  - cbn [settle_consumers]. by rewrite total_none, Nat.add_0_r.
  - intros cp c Hc. exists c. split_and!; [done | by destruct c | done | constructor | done | set_solver].
  - intros _. rewrite total_none. split; [lia | set_solver].
  - intros _ _. by apply requeued_same.
Qed.

(** The first consumer is done: it has settled [sd]. *)
Definition first_settled cp c c' sd d d1 R F : Prop :=
  disp_ok d1 R F /\ settled_frame d d1 /\ d_cobjs d1 = <[cp := c']> (d_cobjs d) /\ settled_at sd c c' /\
  (settle_fuel d1 <= settle_fuel d)%nat /\ (ample (w_sys (d_world d)) -> plain -> appended (cs_queue c) (returned sd.*2) d d1).

Lemma first_notified cp c c' sd d d1 R F :
  first_settled cp c c' sd d d1 R F -> first_settled cp c c' sd d (dispatcher_notify (cs_queue c) d1) R F.
Proof.
  intros (Hd1 & Hs1 & Hc1 & Hsd & Hf1 & Ha1). destruct (notify_frame (cs_queue c) d1 R F Hd1) as (Hd2 & Hs2 & Ec2 & Ef2 & Hq2).
  - assert (Hc1' : d_cobjs d1 !! cp = Some c') by (rewrite Hc1; apply lookup_insert_eq).
    assert (Eq : cs_queue c' = cs_queue c) by (destruct Hsd as [S1 _ _ _]; by rewrite S1).
    rewrite <- Eq. exact (consumer_queue_live d1 R cp c' Hc1').
  - split_and!; [done | by eapply settled_frame_trans | by rewrite Ec2 | done | lia|]. intros Ha Hp x. rewrite Hq2. by apply Ha1.
Qed.

Lemma settle_then cp c c' sd l n d d2 R F :
  d_cobjs d !! cp = Some c -> on_channel c = true -> cp ∉ l -> first_settled cp c c' sd d d2 R F -> (multiple = false -> sd = []) ->
  settle_consumers fuel (cp :: l) conn channel delivery_tag multiple back rejected n d =
    settle_consumers fuel l conn channel delivery_tag multiple back rejected (n + length sd) d2 ->
  consumers_result l (n + length sd) d2 R F -> consumers_result (cp :: l) n d R F.
Proof.
  intros Hc Ho Hni (Hd2 & Hs2 & Hc2 & Hsd & Hf2 & Ha2) Hnil E (S & d' & E' & Hd' & Hs' & Hall & Hsi & Hf' & Hq').
  exists (with_first cp sd S), d'. rewrite total_cons by done. split_and!; try done.
  - rewrite E, E'. f_equal. f_equal. lia.
  - by eapply settled_frame_trans.
  - by eapply settled_all_cons.
  - eapply single_complete_cons; try done. intros Hmu Hne. by destruct Hne; apply Hnil.
  - lia.
  - intros Ha Hp. apply requeued_cons with c c' d2; auto. apply Hq'; [|done]. by apply Hs2.
Qed.

(** The delivery that a single tag names has been found. *)
Lemma settle_single cp c c' sd l n d d2 R F :
  d_cobjs d !! cp = Some c -> on_channel c = true -> cp ∉ l -> first_settled cp c c' sd d d2 R F ->
  settle_consumers fuel (cp :: l) conn channel delivery_tag multiple back rejected n d = Some ((n + length sd)%nat, d2) -> multiple = false -> sd <> [] ->
  consumers_result (cp :: l) n d R F.
Proof.
  intros Hc Ho Hni (Hd2 & Hs2 & Hc2 & Hsd & Hf2 & Ha2) E Hm Hne. exists (with_first cp sd (fun _ => [])), d2.
  rewrite total_cons, total_none, Nat.add_0_r by done. split_and!; [done | done | done | | | lia |].
  - eapply settled_all_cons; [done | done | done | done | done |]. intros x y Hy. exists y.
    split_and!; [done | by destruct y | done | constructor | done | congruence].
  - apply single_complete_cons with c c' d2; try done. by rewrite total_none.
  - intros Ha Hp. apply requeued_cons with c c' d2; auto. apply requeued_same; [|done]. intros x. apply put_back_none.
Qed.

Lemma settle_consumers_ok l : forall n d R F,
  disp_ok d R F -> NoDup l -> (forall cp, cp ∈ l -> is_Some (d_cobjs d !! cp)) -> (settle_fuel d <= fuel)%nat ->
  consumers_result l n d R F.
Proof.
  induction l as [|cp l IH]; intros n d R F Hd Hnd Hl Hf; [by apply settle_nobody|].
  apply NoDup_cons in Hnd as [Hni Hnd]. destruct (Hl cp ltac:(set_solver)) as [c Hc].
  destruct (on_channel c) eqn:Ho; [|eapply skip_consumer; try done; apply IH; try done; intros x Hx; apply Hl; set_solver].
  destruct (settle_loop_ok cp (length (cs_unacked c)) 0 0 d c R F Hd Hc) as (sd & c' & d1 & E1 & H1); [lia | constructor | done |].
  assert (Hnext : forall d2, first_settled cp c c' sd d d2 R F -> consumers_result l (n + length sd) d2 R F).
  { intros d2 (Hd2 & _ & Hc2 & _ & Hf2 & _). apply IH; [done | done | | lia]. intros x Hx.
    rewrite Hc2, lookup_insert_ne by (intros ->; done). apply Hl. set_solver. }
  assert (Hrun : settle_consumers fuel (cp :: l) conn channel delivery_tag multiple back rejected n d =
    if (length sd =? 0)%nat then settle_consumers fuel l conn channel delivery_tag multiple back rejected n d1
    else let d2 := dispatcher_notify (cs_queue c) d1 in
      if multiple then settle_consumers fuel l conn channel delivery_tag multiple back rejected (n + length sd) d2
      else Some ((n + length sd)%nat, d2)).
  { cbn [settle_consumers]. rewrite Hc, on_channel_code, Ho. cbn [negb]. rewrite E1. done. }
  destruct (Nat.eqb_spec (length sd) 0) as [Hz|Hnz].
  - apply nil_length_inv in Hz. apply (settle_then cp c c' sd l n d d1); auto. subst sd. by rewrite Nat.add_0_r.
  - pose proof (first_notified _ _ _ _ _ _ _ _ H1) as H2. destruct multiple eqn:Em.
    + eapply (settle_then cp c c' sd l n d _ R F Hc Ho Hni H2); [congruence | by rewrite Em | by apply Hnext].
    + eapply (settle_single cp c c' sd l n d _ R F Hc Ho Hni H2); [by rewrite Em | done | by intros ->].
Qed.
End Fuel.

(** * More fuel does not change a result *)

Section More.
Context (f1 f2 : nat) (Hle : (f1 <= f2)%nat).

Lemma dead_letter_more p m d d' : dead_letter f1 p m d = Some d' -> dead_letter f2 p m d = Some d'.
Proof.
  unfold dead_letter. destruct (d_at_queue _ _ _ _); [|done].
  destruct (broker_dead_letter_cb (broker_route f1) p m (d_world d)) as [w|] eqn:E; [|done].
  by rewrite (dead_letter_cb_more (broker_route f1) (broker_route f2) (fun v x w0 r => broker_route_fuel f1 f2 v x w0 r Hle) _ _ _ _ E).
Qed.

Lemma settle_one_more p back rejected m d d' :
  settle_one f1 p back rejected m d = Some d' -> settle_one f2 p back rejected m d = Some d'.
Proof.
  unfold settle_one. destruct back; [done|]. destruct rejected; [|done].
  destruct (dead_letter f1 p m d) as [d1|] eqn:E; [|done]. by rewrite (dead_letter_more _ _ _ _ E).
Qed.

Lemma settle_loop_more rounds cp tag multiple back rejected : forall i here d x,
  settle_loop f1 rounds cp tag multiple back rejected i here d = Some x ->
  settle_loop f2 rounds cp tag multiple back rejected i here d = Some x.
Proof.
  induction rounds as [|rounds IH]; intros i here d x; cbn [settle_loop]; [done|].
  destruct (d_cobjs d !! cp) as [c|]; [|done]. destruct (cs_unacked c !! i) as [[t m]|]; [|done].
  destruct (tag_matches multiple tag t); [|apply IH].
  destruct (settle_one f1 _ _ _ _ _) as [d1|] eqn:E; [|done]. rewrite (settle_one_more _ _ _ _ _ _ E).
  destruct multiple; [apply IH | done].
Qed.

Lemma settle_consumers_more l conn channel tag multiple back rejected : forall n d x,
  settle_consumers f1 l conn channel tag multiple back rejected n d = Some x ->
  settle_consumers f2 l conn channel tag multiple back rejected n d = Some x.
Proof.
  induction l as [|cp l IH]; intros n d x; cbn [settle_consumers]; [done|].
  destruct (d_cobjs d !! cp) as [c|]; [|done]. destruct (_ || _); [apply IH|].
  destruct (settle_loop f1 _ _ _ _ _ _ _ _ _) as [[h d1]|] eqn:E; [|done]. rewrite (settle_loop_more _ _ _ _ _ _ _ _ _ _ E).
  cbn [mbind option_bind]. destruct (h =? 0)%nat; [apply IH|]. destruct multiple; [apply IH | done].
Qed.
End More.

(** Settling in full: [S cp] are the deliveries of the consumer at [cp] that go. *)
Lemma settle_spec conn channel tag multiple back rejected d R F :
  disp_ok d R F ->
  exists S d', (forall fuel, (settle_fuel d <= fuel)%nat ->
      settle_unacked fuel conn channel tag multiple back rejected d = Some (total (d_consumers d) S, d')) /\
    disp_ok d' R F /\ settled_frame d d' /\ settled_all tag multiple conn channel (d_consumers d) S d d' /\
    single_complete tag multiple conn channel (d_consumers d) S d /\
    (ample (w_sys (d_world d)) -> plain back rejected -> requeued back (d_consumers d) S d d').
Proof.
  intros Hd. pose proof (do_wired _ _ _ Hd) as Hwi.
  destruct (settle_consumers_ok (settle_fuel d) back rejected tag multiple conn channel (d_consumers d) 0 d R F Hd)
    as (S & d' & E & Hd' & Hs & Hall & Hsi & _ & Hq); [apply Hwi | intros cp; apply Hwi | done |].
  exists S, d'. split_and!; try done. intros fuel Hf. unfold settle_unacked. by apply (settle_consumers_more (settle_fuel d)).
Qed.
End Settle.
