(* ===== verification/DispatchDraw.v ===== *)
(** Why a delivery fails: what the sending of a delivery draws from the allocator and
    from libuv, and the outcomes that make it fail. *)

From S2P Require Import Prelude Tables Frame HashMap Message Queue Store Exchange Broker Net Dispatch.

(** * What was drawn *)

(** From [n] to [n'], draws were made, an allocation failed, a write failed. *)
Definition drew (n n' : netst) : Prop := n_oracle n' `suffix_of` n_oracle n /\ n_uv n' `suffix_of` n_uv n.
Definition alloc_failed (n n' : netst) : Prop := exists os, n_oracle n = os ++ n_oracle n' /\ false ∈ os.
Definition write_failed (n n' : netst) : Prop := exists us code, n_uv n = us ++ n_uv n' /\ uv_error code ∈ us.

Lemma drew_refl n : drew n n.
Proof. by split. Qed.

Lemma drew_trans n1 n2 n3 : drew n1 n2 -> drew n2 n3 -> drew n1 n3.
Proof. intros [A1 A2] [B1 B2]. split; by etrans. Qed.

Lemma alloc_failed_within n1 n2 n3 n4 : drew n1 n2 -> alloc_failed n2 n3 -> drew n3 n4 -> alloc_failed n1 n4.
Proof.
  intros [[o1 H1] _] (os & H2 & Hin) [[o3 H3] _]. exists (o1 ++ os ++ o3). split; [|set_solver].
  by rewrite H1, H2, H3, <- !app_assoc.
Qed.

Lemma write_failed_within n1 n2 n3 n4 : drew n1 n2 -> write_failed n2 n3 -> drew n3 n4 -> write_failed n1 n4.
Proof.
  intros [_ [o1 H1]] (os & c & H2 & Hin) [_ [o3 H3]]. exists (o1 ++ os ++ o3), c. split; [|set_solver].
  by rewrite H1, H2, H3, <- !app_assoc.
Qed.

Lemma malloc_draws o ok o' : malloc o = (ok, o') -> exists os, o = os ++ o' /\ (ok = false -> false ∈ os).
Proof.
  destruct o as [|b o]; intros [= <- <-]; [by exists []|]. exists [b]. split; [done|]. intros ->. set_solver.
Qed.

Lemma n_malloc_draws n ok n' : n_malloc n = (ok, n') -> drew n n' /\ (ok = false -> alloc_failed n n').
Proof.
  unfold n_malloc. destruct (malloc (n_oracle n)) as [ok1 o] eqn:E. intros [= <- <-].
  apply malloc_draws in E as (os & E & Hf). split; [split; [by exists os | done]|]. intros H. exists os. auto.
Qed.

(** * Building a frame *)

(** From [st] to [st'] at most [k] bytes were added; an error has a cause: it was there,
    an allocation failed, or the buffer would have reached [lim] bytes. *)
Record puts (lim k : Z) (st st' : bufst) : Prop := Puts {
  pu_len : b_len st.1 <= b_len st'.1 <= b_len st.1 + k;
  pu_error : b_error st.1 = true -> b_error st'.1 = true;
  pu_cause : exists os, st.2 = os ++ st'.2 /\ (b_error st'.1 = true -> b_error st.1 = true \/ false ∈ os \/ lim <= b_len st.1 + k)
}.

Lemma puts_refl lim st : puts lim 0 st st.
Proof. constructor; [lia | done |]. exists []. auto. Qed.

Lemma puts_trans lim k1 k2 a b c : puts lim k1 a b -> puts lim k2 b c -> puts lim (k1 + k2) a c.
Proof.
  intros [A1 A2 (o1 & E1 & A3)] [B1 B2 (o2 & E2 & B3)]. constructor; [lia | auto |]. exists (o1 ++ o2).
  rewrite E1, E2, app_assoc. split; [done|]. rewrite elem_of_app. intros [H|[H|H]]%B3; [|auto | right; right; lia].
  apply A3 in H as [H|[H|H]]; [auto | auto | right; right; lia].
Qed.

Lemma puts_mono lim k k' a b : k <= k' -> puts lim k a b -> puts lim k' a b.
Proof.
  intros Hk [A1 A2 (o1 & E1 & A3)]. constructor; [lia | done |]. exists o1. split; [done|].
  intros [H|[H|H]]%A3; [auto | auto | right; right; lia].
Qed.

Lemma reserve_puts lim st extra ok st' :
  lim <= 2 ^ 64 -> 0 <= extra -> buf_reserve st extra = (ok, st') ->
  b_len st'.1 = b_len st.1 /\ b_error st'.1 = negb ok /\ puts lim extra st st'.
Proof.
  intros Hlim He. destruct st as [b o]. unfold buf_reserve. assert (0 <= b_len b) by (unfold b_len; lia).
  destruct (b_error b) eqn:Eb; [intros [= <- <-]; split_and!; [done | done |]; apply (puts_mono _ 0); [lia | apply puts_refl]|].
  destruct (Z.ltb_spec (u64 (b_len b + extra)) (b_len b)) as [Hw|].
  { intros [= <- <-]. split_and!; [done | done |]. constructor; simpl; [unfold b_len; simpl; lia | congruence|].
    exists []. split; [done|]. intros _. right. right. destruct (Z_lt_le_dec (b_len b + extra) (2 ^ 64)); [rewrite u64_small in Hw; lia | lia]. }
  destruct (_ <=? _); [intros [= <- <-]; split_and!; [done | done |]; apply (puts_mono _ 0); [lia | apply puts_refl]|].
  destruct (malloc o) as [ok1 o1] eqn:Em. apply malloc_draws in Em as (os & -> & Hf).
  destruct ok1; intros [= <- <-]; (split_and!; [done | done |]); constructor; simpl; try (unfold b_len; simpl; lia); try congruence; exists os;
    (split; [done|]); auto; congruence.
Qed.

Lemma put_puts lim st n vs :
  lim <= 2 ^ 64 -> Z.of_nat (length vs) = n ->
  puts lim n st (match buf_reserve st n with (false, st') => st' | (true, st') => buf_push st' vs end).
Proof.
  intros Hlim Hn. destruct (buf_reserve st n) as [ok st'] eqn:E. apply (reserve_puts lim) in E as (H1 & H2 & H3); [|done | lia].
  destruct ok; [|done]. destruct H3 as [A1 A2 A3]. constructor; simpl; [|done | done]. unfold b_len in *. simpl. rewrite length_app. lia.
Qed.

Section Frames.
Context (lim : Z) (Hlim : lim <= 2 ^ 64).

Lemma u8_puts st v : puts lim 1 st (bmqp_buf_put_u8 st v).
Proof. by apply put_puts. Qed.
Lemma u16_puts st v : puts lim 2 st (bmqp_buf_put_u16 st v).
Proof. by apply put_puts. Qed.
Lemma u32_puts st v : puts lim 4 st (bmqp_buf_put_u32 st v).
Proof. by apply put_puts. Qed.
Lemma u64_puts st v : puts lim 8 st (bmqp_buf_put_u64 st v).
Proof. by apply put_puts. Qed.

Lemma bytes_puts st data : puts lim (Z.of_nat (length data)) st (bmqp_buf_put_bytes st data).
Proof.
  unfold bmqp_buf_put_bytes. destruct (Z.eqb_spec (Z.of_nat (length data)) 0) as [->|]; [apply puts_refl | by apply put_puts].
Qed.

Lemma shortstr_puts st s : puts lim 256 st (bmqp_buf_put_shortstr st (Some s)).
Proof.
  unfold bmqp_buf_put_shortstr, bmqp_buf_put_shortstr_n. change 256 with (1 + 255). eapply puts_trans; [apply u8_puts|].
  eapply puts_mono; [|apply bytes_puts]. rewrite length_take. destruct (Z.ltb_spec 255 (Z.of_nat (length s))); lia.
Qed.

Lemma begin_puts st type channel : puts lim 7 st (bmqp_frame_begin st type channel).2 /\
  (bmqp_frame_begin st type channel).1 = b_len (bmqp_frame_begin st type channel).2.1.
Proof.
  split; [|done]. change 7 with (1 + 2 + 4). unfold bmqp_frame_begin. simpl.
  eapply puts_trans; [eapply puts_trans; [apply u8_puts | apply u16_puts] | apply u32_puts].
Qed.

Lemma begin_nonempty st type channel :
  b_error (bmqp_frame_begin st type channel).2.1 = false -> 0 < b_len (bmqp_frame_begin st type channel).2.1.
Proof.
  unfold bmqp_frame_begin. simpl. set (st1 := bmqp_buf_put_u8 st type). intros He.
  destruct (puts_trans _ _ _ _ _ _ (u16_puts st1 channel) (u32_puts _ 0)) as [A1 A2 _].
  assert (0 < b_len st1.1); [|lia]. destruct (b_error st1.1) eqn:E1; [rewrite A2 in He by done; done|]. clear He A1 A2.
  unfold st1, bmqp_buf_put_u8 in *. destruct (buf_reserve st 1) as [ok st2] eqn:E. apply (reserve_puts lim) in E as (_ & H2 & _); [|done | done].
  destruct ok; simpl in *; [unfold b_len; simpl; rewrite length_app; simpl; lia | congruence].
Qed.

Lemma write_puts st type channel payload : puts lim (Z.of_nat (length payload) + 8) st (bmqp_frame_write st type channel payload).
Proof.
  replace (Z.of_nat (length payload) + 8) with (1 + 2 + 4 + Z.of_nat (length payload) + 1) by lia. unfold bmqp_frame_write.
  repeat (eapply puts_trans; [|first [apply u8_puts | apply u16_puts | apply u32_puts | apply bytes_puts]]). apply u8_puts.
Qed.

(** The loop over the body. *)
Lemma body_frames_puts fuel chunk channel : 0 < chunk -> forall rem out,
  puts lim (9 * Z.of_nat (length rem)) out (body_frames fuel chunk channel rem out).
Proof.
  intros Hc. induction fuel as [|fuel IH]; intros rem out; [apply (puts_mono _ 0); [lia | apply puts_refl]|].
  destruct rem as [|x rem]; [apply (puts_mono _ 0); [lia | apply puts_refl]|]. cbn [body_frames].
  set (l := x :: rem) in *. set (n := Z.to_nat _). assert (Hl : (1 <= length l)%nat) by (simpl; lia). clearbody l.
  assert (Hn : (1 <= n <= length l)%nat) by (unfold n; destruct (Z.ltb_spec (Z.of_nat (length l)) chunk); lia).
  eapply puts_mono; [|eapply puts_trans; [apply write_puts | apply IH]]. rewrite length_take, length_drop. lia.
Qed.

Lemma tail_puts chunk channel body out :
  0 < chunk -> puts lim (18 * Z.of_nat (length body)) out (delivery_tail chunk channel body out).
Proof.
  intros Hc. unfold delivery_tail. set (rem := Z.of_nat (length body)).
  destruct (Z.ltb_spec 0 rem) as [Hr|]; [|eapply puts_mono; [|by apply body_frames_puts]; lia].
  assert (Hd : 0 <= (rem + chunk - 1) / chunk <= rem).
  { split; [apply Z.div_pos; lia|]. apply Z.div_le_upper_bound; nia. }
  replace (18 * rem) with (9 * rem + 9 * rem) by lia. eapply puts_trans; [|by apply body_frames_puts].
  unfold bmqp_buf_reserve. destruct (buf_reserve _ _) as [ok st] eqn:E. apply (reserve_puts lim) in E as (_ & _ & H); [|done | unfold BMQP_FRAME_OVERHEAD, BMQP_FRAME_HEADER_SIZE; lia].
  eapply puts_mono; [|exact H]. unfold BMQP_FRAME_OVERHEAD, BMQP_FRAME_HEADER_SIZE. lia.
Qed.
End Frames.

(** A frame of less than 2^32 bytes is closed. *)
Lemma finish_puts st start : 0 <= start <= b_len st.1 -> puts (2 ^ 32) 1 st (bmqp_frame_finish st start).
Proof.
  intros Hs. unfold bmqp_frame_finish. destruct (b_error st.1) eqn:Eb; [apply (puts_mono _ 0); [lia | apply puts_refl]|].
  destruct (Z.ltb_spec 4294967295 (u64 (b_len st.1 - start))) as [Hl|].
  { constructor; simpl; [unfold b_len; simpl; lia | done |]. exists []. split; [done|]. intros _. right. right.
    destruct (Z_lt_le_dec (b_len st.1 - start) (2 ^ 64)); [rewrite u64_small in Hl by lia; lia | lia]. }
  match goal with |- puts _ _ _ (bmqp_buf_put_u8 ?x _) => set (st1 := x) end.
  assert (E : b_len st1.1 = b_len st.1) by (unfold st1, buf_poke, b_len; simpl; by rewrite !length_insert).
  destruct (u8_puts (2 ^ 32) ltac:(lia) st1 BMQP_FRAME_END) as [A1 A2 A3]. rewrite E in *. constructor; [done | | done]. by intros ?; apply A2.
Qed.

(** The method frame and the header frame; the first byte is there unless an error
    occurred. *)
Lemma head_puts channel ctag tag msg out :
  puts (2 ^ 32) (1024 + Z.of_nat (length (m_props msg))) out (delivery_head channel ctag tag msg out) /\
  (b_error (delivery_head channel ctag tag msg out).1 = false -> 0 < b_len (delivery_head channel ctag tag msg out).1).
Proof.
  assert (Hlim : 2 ^ 32 <= 2 ^ 64) by lia. unfold delivery_head.
  pose proof (begin_nonempty _ Hlim out BMQP_FRAME_METHOD channel) as Hne.
  destruct (begin_puts _ Hlim out BMQP_FRAME_METHOD channel) as [P0 E0]. destruct (bmqp_frame_begin out _ _) as [mstart out1]. simpl in P0, E0, Hne.
  match goal with |- context [bmqp_frame_finish ?x mstart] => set (out2 := x) end.
  assert (P1 : puts (2 ^ 32) (2 + 2 + 256 + 8 + 1 + 256 + 256) out1 out2).
  { unfold out2. repeat (eapply puts_trans; [|first [apply (u8_puts _ Hlim) | apply (u16_puts _ Hlim) | apply (u64_puts _ Hlim) | apply (shortstr_puts _ Hlim)]]).
    apply (u16_puts _ Hlim). }
  assert (P2 : puts (2 ^ 32) 1 out2 (bmqp_frame_finish out2 mstart)) by (apply finish_puts; destruct P1; unfold b_len in *; lia).
  set (out3 := bmqp_frame_finish out2 mstart) in *. clearbody out2 out3.
  destruct (begin_puts _ Hlim out3 BMQP_FRAME_HEADER channel) as [P3 E3]. destruct (bmqp_frame_begin out3 _ _) as [hstart out4]. simpl in P3, E3.
  match goal with |- context [bmqp_frame_finish ?x hstart] => set (out5 := x) end.
  assert (P4 : puts (2 ^ 32) (2 + 2 + 8 + (2 + Z.of_nat (length (m_props msg)))) out4 out5).
  { unfold out5. eapply puts_trans; [eapply puts_trans; [eapply puts_trans; [apply (u16_puts _ Hlim) | apply (u16_puts _ Hlim)] | apply (u64_puts _ Hlim)]|].
    destruct (m_props msg) as [|x props]; [apply (u16_puts _ Hlim)|]. eapply puts_mono; [|apply (bytes_puts _ Hlim)]. lia. }
  assert (P5 : puts (2 ^ 32) 1 out5 (bmqp_frame_finish out5 hstart)) by (apply finish_puts; destruct P4; unfold b_len in *; lia).
  pose proof (puts_trans _ _ _ _ _ _ P1 (puts_trans _ _ _ _ _ _ P2 (puts_trans _ _ _ _ _ _ P3 (puts_trans _ _ _ _ _ _ P4 P5)))) as P.
  split; [eapply puts_mono; [|exact (puts_trans _ _ _ _ _ _ P0 P)]; lia|]. destruct P as [A1 A2 _]. intros He.
  destruct (b_error out1.1) eqn:Eo; [rewrite A2 in He by done; done|]. specialize (Hne eq_refl). lia.
Qed.

Lemma chunk_pos frame_max : 0 < chunk_of frame_max.
Proof. unfold chunk_of. destruct (Z.ltb_spec BMQP_FRAME_OVERHEAD (if frame_max =? 0 then 131072 else frame_max)); lia. Qed.

(** * Sending *)

(** No buffer can hold the frames of the message. *)
Definition too_large (m : message) : Prop := 2 ^ 31 <= Z.of_nat (length (m_props m)) \/ 2 ^ 59 <= m_body_len m.

(** What made a call that ran from [n] to [n'] fail to send [m]. *)
Definition send_failed (m : message) (n n' : netst) : Prop := alloc_failed n n' \/ write_failed n n' \/ too_large m.

Lemma send_failed_within m n1 n2 n3 n4 : drew n1 n2 -> send_failed m n2 n3 -> drew n3 n4 -> send_failed m n1 n4.
Proof. intros H1 [H|[H|H]] H3; [left; by eapply alloc_failed_within | right; left; by eapply write_failed_within | by right; right]. Qed.

Lemma uv_write_draws cn len n r n' : uv_write cn len n = (r, n') -> drew n n' /\ forall code, r = uv_error code -> write_failed n n'.
Proof.
  unfold uv_write. destruct (n_uv n) as [|x us] eqn:E; intros [= <- <-]; [split; [apply drew_refl | done]|].
  split; [split; [done | simpl; rewrite E; by apply suffix_cons_r]|]. intros code ->. exists [uv_error code], code. simpl. split; [done | set_solver].
Qed.

Lemma send_owned_draws data cn n rc cn' n' :
  beaver_conn_send_owned data cn n = (rc, cn', n') ->
  drew n n' /\ (rc <> 0 -> cn_closing cn = true \/ length data = 0%nat \/ alloc_failed n n' \/ write_failed n n').
Proof.
  unfold beaver_conn_send_owned. destruct (cn_closing cn); [intros [= <- <- <-]; split; [apply drew_refl | by left]|]. simpl.
  destruct (Z.eqb_spec (Z.of_nat (length data)) 0); [intros [= <- <- <-]; split; [apply drew_refl | intros _; right; left; lia]|].
  destruct (n_malloc n) as [ok n1] eqn:Em. apply n_malloc_draws in Em as [H1 Hf]. destruct ok; cbn [negb]; [|intros [= <- <- <-]; split; [done | intros _; do 2 right; left; by apply Hf]].
  destruct (uv_write cn _ n1) as [r n2] eqn:Eu. apply uv_write_draws in Eu as [H2 Hw]. pose proof (drew_trans _ _ _ H1 H2) as H.
  destruct r as [code|size]; intros [= <- <- <-]; [|done]. split; [done|]. intros _. do 3 right.
  eapply write_failed_within; [exact H1 | by eapply Hw | apply drew_refl].
Qed.

Lemma send_delivery_draws header m cn n h rc cn' n' h' :
  beaver_conn_send_delivery header m cn n h = (rc, cn', n', h') ->
  drew n n' /\ (rc <> 0 -> cn_closing cn = true \/ length header = 0%nat \/ alloc_failed n n' \/ write_failed n n').
Proof.
  unfold beaver_conn_send_delivery. destruct (cn_closing cn); [intros [= <- <- <- <-]; split; [apply drew_refl | by left]|]. simpl.
  destruct (Z.eqb_spec (Z.of_nat (length header)) 0); [intros [= <- <- <- <-]; split; [apply drew_refl | intros _; right; left; lia]|].
  destruct (n_malloc n) as [ok n1] eqn:Em. apply n_malloc_draws in Em as [H1 Hf]. destruct ok; cbn [negb]; [|intros [= <- <- <- <-]; split; [done | intros _; do 2 right; left; by apply Hf]].
  destruct (uv_write cn _ n1) as [r n2] eqn:Eu. apply uv_write_draws in Eu as [H2 Hw]. pose proof (drew_trans _ _ _ H1 H2) as H.
  destruct r as [code|size]; intros [= <- <- <- <-]; [|done]. split; [done|]. intros _. do 3 right.
  eapply write_failed_within; [exact H1 | by eapply Hw | apply drew_refl].
Qed.

(** The buffer [b] of a delivery, [out] being its head: an error has a cause. *)
Lemma built m n out b o k :
  puts (2 ^ 32) (1024 + Z.of_nat (length (m_props m))) (bmqp_buf_init, n_oracle n) out -> (b_error out.1 = false -> 0 < b_len out.1) ->
  puts (2 ^ 64) k out (b, o) -> (2 ^ 64 - 2 ^ 32 <= k -> too_large m) ->
  drew n (n <| n_oracle := o |>) /\ (b_error b = true -> send_failed m n (n <| n_oracle := o |>)) /\
  (b_error b = false -> (0 < length (b_data b))%nat).
Proof.
  intros [A1 A2 (o1 & E1 & A3)] Hne [B1 B2 (o2 & E2 & B3)] Hk. simpl in *. change (b_len bmqp_buf_init) with 0 in *.
  assert (Hlt : 2 ^ 32 <= 0 + (1024 + Z.of_nat (length (m_props m))) -> too_large m) by (intros ?; left; lia).
  split_and!.
  - split; [|done]. simpl. exists (o1 ++ o2). by rewrite E1, E2, app_assoc.
  - intros Hb. destruct (B3 Hb) as [He|[He|He]]; [destruct (A3 He) as [?|[?|?]]; [done | | by right; right; apply Hlt] | |].
    + left. exists (o1 ++ o2). split; [by rewrite E1, E2, app_assoc | set_solver].
    + left. exists (o1 ++ o2). split; [by rewrite E1, E2, app_assoc | set_solver].
    + right. right. destruct (Z_lt_le_dec (Z.of_nat (length (m_props m))) (2 ^ 31)); [apply Hk; lia | by left].
  - intros Hb. destruct (b_error out.1) eqn:Eo; [rewrite B2 in Hb by done; done|]. specialize (Hne eq_refl). unfold b_len in *. lia.
Qed.

(** Building and sending one delivery. *)
Lemma send_message_draws channel ctag tag m cn n h rc cn' n' h' :
  send_message channel ctag tag m cn n h = (rc, cn', n', h') ->
  drew n n' /\ (rc <> 0 -> cn_closing cn = true \/ send_failed m n n').
Proof.
  unfold send_message. destruct (head_puts channel ctag tag m (bmqp_buf_init, n_oracle n)) as [Ph Hne].
  set (out := delivery_head _ _ _ _ _) in *. clearbody out. destruct (_ && _).
  - match goal with |- context [bmqp_buf_put_u32 ?x ?v] => pose proof (puts_trans _ _ _ _ _ _ (puts_trans _ _ _ _ _ _
      (u8_puts (2 ^ 64) ltac:(lia) out BMQP_FRAME_BODY) (u16_puts (2 ^ 64) ltac:(lia) _ channel)) (u32_puts (2 ^ 64) ltac:(lia) x v)) as Pt end.
    destruct (bmqp_buf_put_u32 _ _) as [b o]. destruct (built m n out b o 7 Ph Hne Pt) as (H1 & H2 & H3); [lia|].
    destruct (b_error b); [intros [= <- <- <- <-]; auto|]. intros [H4 H5]%send_delivery_draws. split; [by eapply drew_trans|].
    intros [H|[H|[H|H]]]%H5; [by left | specialize (H3 eq_refl); lia | |]; right.
    + left. eapply alloc_failed_within; [exact H1 | exact H | apply drew_refl].
    + right. left. eapply write_failed_within; [exact H1 | exact H | apply drew_refl].
  - pose proof (tail_puts (2 ^ 64) ltac:(lia) (chunk_of (cn_frame_max cn)) channel (m_body m) out (chunk_pos _)) as Pt.
    destruct (delivery_tail _ _ _ _) as [b o]. destruct (built m n out b o _ Ph Hne Pt) as (H1 & H2 & H3); [unfold too_large, m_body_len; lia|].
    destruct (b_error b); [intros [= <- <- <- <-]; auto|]. destruct (beaver_conn_send_owned _ cn _) as [[rc1 cn1] n1] eqn:E. intros [= <- <- <- <-].
    apply send_owned_draws in E as [H4 H5]. split; [by eapply drew_trans|].
    intros [H|[H|[H|H]]]%H5; [by left | specialize (H3 eq_refl); lia | |]; right.
    + left. eapply alloc_failed_within; [exact H1 | exact H | apply drew_refl].
    + right. left. eapply write_failed_within; [exact H1 | exact H | apply drew_refl].
Qed.
