(* ===== verification/DispatchServe.v ===== *)
(** Delivery: servicing a group hands the messages of its queue, in order, to
    consumers that can take them. *)

From S2P Require Import Prelude Tables Frame HashMap Message Queue Store Exchange Broker BrokerRoute BrokerSpec BrokerDelivery Net Dispatch DispatchInv DispatchOps DispatchDraw.

(** * Sending *)

(** The messages a connection keeps alive. *)
Abbreviation in_flight cn := (omap id (cn_writes cn)).

Lemma send_owned_spec data cn n rc cn' n' :
  beaver_conn_send_owned data cn n = (rc, cn', n') ->
  rc = 0 /\ (exists size, cn' = written cn size (Z.of_nat (length data)) None (uv_buf data)) \/ rc <> 0 /\ cn' = cn.
Proof.
  unfold beaver_conn_send_owned. destruct (_ || _); [intros [= <- <- <-]; by right|].
  destruct (n_malloc n) as [[] n1]; [|intros [= <- <- <-]; by right]. cbn [negb].
  destruct (uv_write cn _ n1) as [[code|size] n2]; intros [= <- <- <-]; [by right | left; eauto].
Qed.

Lemma send_delivery_spec header m cn n h rc cn' n' h' :
  beaver_conn_send_delivery header m cn n h = (rc, cn', n', h') ->
  rc = 0 /\ h' = message_ref m h /\
    (exists size len, cn' = written cn size len (Some m) (uv_buf header ++ uv_buf (m_body m) ++ [0xCE])) \/
  rc <> 0 /\ cn' = cn /\ (h' = h \/ h' = message_unref (Some m) (message_ref m h)).
Proof.
  unfold beaver_conn_send_delivery. destruct (_ || _); [intros [= <- <- <- <-]; right; auto|].
  destruct (n_malloc n) as [[] n1]; [|intros [= <- <- <- <-]; right; auto]. cbn [negb].
  destruct (uv_write cn _ n1) as [[code|size] n2]; intros [= <- <- <- <-]; [right; auto | left; eauto].
Qed.

Section Serve.
Context {M : Type} `{!PtrMap M} `{!PtrMapLaws M}.
Implicit Types (w : world M) (d : dispatcher M).

(** A delivery that is sent keeps at most a reference to its message. *)
Lemma send_message_ok channel ctag tag m cn n w R F rc cn' n' h' :
  world_ok w R F -> m ∈ F ->
  send_message channel ctag tag m cn n (s_heap (w_sys w)) = (rc, cn', n', h') ->
  (ample (w_sys w) -> h_oracle h' = []) /\ (flags cn', cn_send_paused cn') = (flags cn, cn_send_paused cn) /\
  if rc =? 0 then exists refs, in_flight cn' = in_flight cn ++ refs /\ world_ok (w_heap (fun _ => h') w) R (refs ++ F)
  else cn' = cn /\ world_ok (w_heap (fun _ => h') w) R F.
Proof.
  intros Hw Hm. unfold send_message. set (h := s_heap (w_sys w)).
  assert (Hid : world_ok (w_heap (fun _ => h) w) R F).
  { apply (world_heap w (fun _ => h) R F F Hw); [done|]. pose proof (wo_msgs _ _ _ Hw) as Hms. by apply Forall_app in Hms as [_ ?]. }
  assert (Hfail : (ample (w_sys w) -> h_oracle h = []) /\ (flags cn, cn_send_paused cn) = (flags cn, cn_send_paused cn) /\
    if (-1) =? 0 then exists refs, in_flight cn = in_flight cn ++ refs /\ world_ok (w_heap (fun _ => h) w) R (refs ++ F)
    else cn = cn /\ world_ok (w_heap (fun _ => h) w) R F) by (by split_and!).
  destruct (_ && _).
  - destruct (bmqp_buf_put_u32 _ _) as [out o]. destruct (b_error out); [by intros [= <- <- <- <-]|].
    intros [(-> & -> & size & len & ->)|(Hne & -> & Hor)]%send_delivery_spec.
    + split_and!; [intros Ha; by rewrite message_ref_oracle | done |]. exists [m]. split; [unfold written; simpl; by rewrite omap_app|].
      exact (world_ref_msg w m R F Hw Hm).
    + apply Z.eqb_neq in Hne. rewrite Hne. destruct Hor as [->| ->]; [by split_and!|].
      split_and!; [intros Ha; by rewrite message_unref_oracle, message_ref_oracle | done | done |].
      exact (world_unref_msg _ m R F (world_ref_msg w m R F Hw Hm)).
  - destruct (delivery_tail _ _ _ _) as [out o]. destruct (b_error out); [by intros [= <- <- <- <-]|].
    destruct (beaver_conn_send_owned _ cn _) as [[rc1 cn1] n1] eqn:E. intros [= <- <- <- <-].
    destruct (send_owned_spec _ _ _ _ _ _ E) as [(-> & size & ->)|(Hne & ->)].
    + split_and!; [done | done |]. exists []. split; [unfold written; simpl; by rewrite omap_app | done].
    + apply Z.eqb_neq in Hne. rewrite Hne. by split_and!.
Qed.

(** * One delivery *)

(** What a delivery leaves alone: all but the consumer, the connections, the
    delivery tag and the tracking of the queue. *)
Record delivers d d' : Prop := Delivers {
  dl_hub : (d_self d', d_groups d', d_gobjs d', d_consumers d', d_pending d', d_next_addr d') =
           (d_self d, d_groups d, d_gobjs d, d_consumers d, d_pending d, d_next_addr d);
  dl_closing : forall k, (fun cn => (flags cn, cn_send_paused cn)) <$> d_conns d' !! k = (fun cn => (flags cn, cn_send_paused cn)) <$> d_conns d !! k;
  dl_net : drew (d_net d) (d_net d');
  dl_calm : calm (d_world d) (d_world d');
  dl_queues : forall x, q_at d' x = q_at d x
}.

Lemma delivers_trans d1 d2 d3 : delivers d1 d2 -> delivers d2 d3 -> delivers d1 d3.
Proof.
  intros [A1 A2 A3 A4 A5] [B1 B2 B3 B4 B5]. constructor; [congruence | | by eapply drew_trans | by eapply calm_trans | intros x; by rewrite B5, A5].
  intros k. by rewrite B2, A2.
Qed.

(** The tracking of the queue at [p] alone. *)
Lemma track_delivers p cid no_ack d R F :
  disp_ok d R F -> p ∈ owned_refs (d_world d) ++ d_refs d ++ R -> 0 <= cid < 2 ^ 64 ->
  let d' := snd (d_on_queue tt p (fun q s => let '(q, s) := queue_consume_on_deliver cid no_ack q s in (tt, q, s)) d) in
  disp_ok d' R F /\ delivers d d' /\ d_cobjs d' = d_cobjs d /\ d_conns d' = d_conns d /\ d_next_delivery_tag d' = d_next_delivery_tag d.
Proof.
  intros Hd Hp Hcid. pose proof (do_world _ _ _ Hd) as Hw.
  destruct (d_on_queue_ok p d _ _ Hw Hp tt (fun q s => let '(q, s) := queue_consume_on_deliver cid no_ack q s in (tt, q, s))
    (fun _ => d_msgs d ++ F)) as (q & a & q' & s' & Hq & E & -> & Hw' & Hc'); [intros; by apply op_on_deliver|].
  cbn [snd]. split_and!; [eapply disp_same; [done | done | done | apply Hc'] | | done | done | done].
  constructor; [done | done | apply drew_refl | done |]. intros x. rewrite (set_queue_at p q) by done.
  destruct (decide (x = p)) as [->|]; [|done]. unfold q_at. rewrite Hq. simpl. f_equal.
  pose proof (so_queues _ _ _ (wo_store _ _ _ Hw) _ _ Hq) as Hok. apply qinv_contents.
  destruct (queue_consume_on_deliver cid no_ack q (w_sys (d_world d))) as [q1 s1] eqn:E1. injection E as _ <- _.
  destruct (on_deliver_spec _ _ _ _ _ _ (qi_tracking _ _ Hok) Hcid E1) as (H1 & H2 & _). by eapply qinv_tracking.
Qed.

(** The delivery is recorded with the consumer unless it needs no ack. *)
Definition recorded (c : consumer) (tag : Z) (m : message) : consumer :=
  if cs_no_ack c then c else c <| cs_unacked ::= fun l => l ++ [(tag, m)] |>.

Definition has_slot (c : consumer) : Prop := cs_no_ack c = false -> (length (cs_unacked c) < cs_cap_unacked c)%nat.

Lemma record_delivery_ok cp c tag m d R F :
  disp_ok d R (m :: F) -> d_cobjs d !! cp = Some c -> has_slot c ->
  let d' := record_delivery cp tag m d in
  disp_ok d' R (m :: F) /\ delivers d d' /\ d_cobjs d' = <[cp := recorded c tag m]> (d_cobjs d) /\ d_conns d' = d_conns d /\
  d_next_delivery_tag d' = d_next_delivery_tag d.
Proof.
  intros Hd Hc Hslot. unfold record_delivery, recorded. rewrite Hc.
  assert (Hcid : 0 <= m_cluster_id m < 2 ^ 64) by (apply (world_msgs _ _ _ m (do_world _ _ _ Hd)); set_solver).
  destruct (cs_no_ack c) eqn:En.
  - destruct (track_delivers (cs_queue c) (m_cluster_id m) true d R _ Hd (consumer_queue_live d R cp c Hc) Hcid) as (H1 & H2 & H3 & H4 & H5).
    rewrite insert_id by done. by split_and!.
  - specialize (Hslot En). unfold consumer_add_unacked.
    destruct (Nat.eqb_spec (length (cs_unacked c)) (cs_cap_unacked c)) as [|_]; [lia|]. cbn iota beta zeta.
    set (c' := c <| cs_unacked ::= fun l => l ++ [(tag, m)] |>).
    set (d1 := d_heap (fun _ => s_heap (w_sys (d_world (d_heap (message_ref m) d)))) (d_heap (message_ref m) d)).
    set (d2 := (d1 <| d_net := d_net d |>) <| d_cobjs ::= <[cp := c']> |>).
    pose proof Hd as [Hwi Hw Hh].
    pose proof (world_ref_msg _ m _ _ Hw ltac:(set_solver)) as Hw1.
    assert (Hd2 : disp_ok d2 R (m :: F)).
    { constructor; [| |done].
      - apply (wired_set_consumer _ cp c c'); [by eapply wired_same | done | done | simpl; rewrite length_app; simpl; lia].
      - eapply world_ok_proper; [..|exact Hw1]; unfold d_refs, d_msgs; simpl.
        + by rewrite (gather_same _ _ _ c c' Hc).
        + rewrite gather_insert, (gather_split _ _ _ _ Hc). simpl. rewrite fmap_app. simpl. solve_perm. }
    destruct (track_delivers (cs_queue c) (m_cluster_id m) false d2 R _ Hd2) as (H1 & H2 & H3 & H4 & H5); [|done|].
    { change (cs_queue c) with (cs_queue c'). apply (consumer_queue_live d2 R cp). apply lookup_insert_eq. }
    split_and!; try done. eapply delivers_trans; [|exact H2].
    constructor; try done. split_and!; [done | done|]. unfold ample, d2, d1, d_heap, w_sys. simpl. by rewrite message_ref_oracle.
Qed.

Lemma deliver_ok cp c m d R F rc d' :
  disp_ok d R (m :: F) -> d_cobjs d !! cp = Some c -> has_slot c -> deliver cp m d = (rc, d') ->
  let tag := u64 (d_next_delivery_tag d + 1) in
  disp_ok d' R (m :: F) /\ delivers d d' /\ d_next_delivery_tag d' = tag /\
  (rc = 0 /\ d_cobjs d' = <[cp := recorded c tag m]> (d_cobjs d) \/
   rc = -1 /\ d_cobjs d' = d_cobjs d /\ send_failed m (d_net d) (d_net d')).
Proof.
  intros Hd Hc Hslot. unfold deliver. rewrite Hc. pose proof Hd as [Hwi Hw Hh].
  destruct (wi_consumer _ Hwi cp c Hc) as (_ & _ & (cn & Hcn & Hsh) & _). cbn [mbind option_bind]. rewrite Hcn. cbn [fmap option_fmap option_map].
  set (tag := u64 (d_next_delivery_tag d + 1)).
  destruct (send_message _ _ _ _ _ _ _) as [[[sent cn'] n] h] eqn:Es.
  assert (Hm : m ∈ d_msgs d ++ m :: F) by set_solver.
  destruct (send_message_ok _ _ _ _ _ _ _ _ _ _ _ _ _ Hw Hm Es) as (Ho & Hcl & Hsent). apply send_message_draws in Es as [Hdr Hwhy].
  set (d1 := ((d_heap (fun _ => h) d) <| d_next_delivery_tag := tag |> <| d_net := n |>) <| d_conns ::= <[cs_conn c := cn']> |>).
  assert (Hwi1 : wired d1) by (apply (wired_set_conn _ _ cn); [by eapply wired_same | done | by injection Hcl as E1 E2; unfold flags; rewrite E1, E2]).
  assert (Hdl1 : delivers d d1).
  { constructor; try done.
    intros k. simpl. destruct (decide (cs_conn c = k)) as [<-|]; [by rewrite lookup_insert_eq, Hcn; simpl; rewrite Hcl | by rewrite lookup_insert_ne]. }
  destruct (sent =? 0) eqn:Ez; intros [= <- <-].
  - destruct Hsent as (refs & Hfl & Hw1).
    assert (Hd1 : disp_ok d1 R (m :: F)).
    { constructor; [done | | done]. eapply world_ok_proper; [..|exact Hw1]; unfold d_refs, d_msgs; simpl; [done|].
      rewrite gather_insert, (gather_split _ _ _ _ Hcn), Hfl. solve_perm. }
    destruct (record_delivery_ok cp c tag m d1 R F Hd1 Hc Hslot) as (H1 & H2 & H3 & H4 & H5).
    split_and!; [done | by eapply delivers_trans | done | by left].
  - destruct Hsent as [-> Hw1]. apply Z.eqb_neq in Ez. split_and!; [| done | done |].
    2:{ right. split_and!; [done | done |]. destruct (Hwhy Ez) as [Hx|Hx]; [|exact Hx]. unfold shut, flags in Hsh. by rewrite Hx in Hsh. }
    constructor; [done | | done]. eapply world_ok_proper; [..|exact Hw1]; unfold d_refs, d_msgs; simpl; [done|].
    by rewrite (gather_same _ _ _ cn cn Hcn).
Qed.

(** * Choosing a consumer *)

(** The consumer at [cp] can take a message now. *)
Definition ready d (cp : positive) : Prop :=
  exists c cn, d_cobjs d !! cp = Some c /\ d_conns d !! cs_conn c = Some cn /\
    cn_closing cn = false /\ cn_send_paused cn = false /\ beaver_conn_send_full cn = false /\
    (cs_no_ack c = false -> cs_prefetch c <> 0 -> Z.of_nat (length (cs_unacked c)) < cs_prefetch c).

(** What the search changes: the cursor of the group, the pause marks, the room for
    deliveries. *)
Record searched (ga : positive) d d' : Prop := Searched {
  se_hub : (d_self d', d_groups d', d_consumers d', d_pending d', d_next_addr d', d_world d', d_next_delivery_tag d') =
           (d_self d, d_groups d, d_consumers d, d_pending d, d_next_addr d, d_world d, d_next_delivery_tag d);
  se_groups : forall x, x <> ga -> d_gobjs d' !! x = d_gobjs d !! x;
  se_group : forall g, d_gobjs d !! ga = Some g -> exists r, d_gobjs d' !! ga = Some (g <| g_rr := r |>);
  se_conns : forall k, (fun cn => (cn_closing cn, cn_queue_size cn, cn_writes cn, cn_wire cn)) <$> d_conns d' !! k =
                       (fun cn => (cn_closing cn, cn_queue_size cn, cn_writes cn, cn_wire cn)) <$> d_conns d !! k;
  se_paused : forall k cn, d_conns d !! k = Some cn -> cn_send_paused cn = true ->
                exists cn', d_conns d' !! k = Some cn' /\ cn_send_paused cn' = true;
  se_consumers : forall cp c, d_cobjs d !! cp = Some c -> exists cap, d_cobjs d' !! cp = Some (c <| cs_cap_unacked := cap |>);
  se_others : forall g cp, d_gobjs d !! ga = Some g -> cp ∉ g_arr g -> d_cobjs d' !! cp = d_cobjs d !! cp;
  se_net : drew (d_net d) (d_net d')
}.

Lemma searched_refl ga d : searched ga d d.
Proof.
  constructor; try done.
  - intros g Hg. exists (g_rr g). rewrite Hg. by destruct g.
  - eauto.
  - intros cp c Hc. exists (cs_cap_unacked c). rewrite Hc. by destruct c.
Qed.

Lemma searched_trans ga d1 d2 d3 : searched ga d1 d2 -> searched ga d2 d3 -> searched ga d1 d3.
Proof.
  intros [A1 A2 A3 A4 A5 A6 A7 A8] [B1 B2 B3 B4 B5 B6 B7 B8]. constructor.
  - congruence.
  - intros x Hx. by rewrite B2, A2.
  - intros g (r & Hr)%A3. destruct (B3 _ Hr) as [r' Hr']. exists r'. exact Hr'.
  - intros k. by rewrite B4, A4.
  - intros k cn Hk Hp. destruct (A5 k cn Hk Hp) as (cn' & H1 & H2). eauto.
  - intros cp c (cap & Hcap)%A6. destruct (B6 _ _ Hcap) as [cap' H']. exists cap'. exact H'.
  - intros g cp Hg Hn. destruct (A3 g Hg) as [r Hr]. rewrite (B7 _ _ Hr Hn). by eapply A7.
  - by eapply drew_trans.
Qed.

(** The consumer at [cp] cannot take a message now: its connection is closing or paused,
    or its prefetch is used up. *)
Definition blocked d (cp : positive) : Prop :=
  exists c cn, d_cobjs d !! cp = Some c /\ d_conns d !! cs_conn c = Some cn /\
    (cn_closing cn = true \/ cn_send_paused cn = true \/
     cs_no_ack c = false /\ cs_prefetch c <> 0 /\ cs_prefetch c <= Z.of_nat (length (cs_unacked c))).

(** A blocked consumer stays blocked in the search. *)
Lemma blocked_searched ga d d' cp : searched ga d d' -> blocked d cp -> blocked d' cp.
Proof.
  intros Hs (c & cn & Hc & Hk & Hor). destruct (se_consumers _ _ _ Hs _ _ Hc) as [cap Hc'].
  pose proof (se_conns _ _ _ Hs (cs_conn c)) as Hcn. rewrite Hk in Hcn. destruct (d_conns d' !! cs_conn c) as [cn'|] eqn:Hk'; [|done].
  injection Hcn as E1 _ _ _. exists (c <| cs_cap_unacked := cap |>), cn'. split_and!; [done | done |].
  destruct Hor as [H|[H|H]]; [left; congruence | right; left | by right; right].
  destruct (se_paused _ _ _ Hs _ _ Hk H) as (cn2 & H1 & H2). congruence.
Qed.

(** Room for one more delivery. *)
Lemma reserve_spec c n ok c' n' :
  (length (cs_unacked c) <= cs_cap_unacked c)%nat -> consumer_reserve_unacked c n = (ok, c', n') ->
  (exists cap, c' = c <| cs_cap_unacked := cap |>) /\ (length (cs_unacked c') <= cs_cap_unacked c')%nat /\
  (ok = true -> (length (cs_unacked c') < cs_cap_unacked c')%nat) /\
  (ok = false -> c' = c /\ (cs_cap_unacked c <= length (cs_unacked c))%nat).
Proof.
  intros Hl. unfold consumer_reserve_unacked. destruct (Nat.ltb_spec (length (cs_unacked c)) (cs_cap_unacked c)).
  { intros [= <- <- <-]. split_and!; try done. exists (cs_cap_unacked c). by destruct c. }
  unfold n_malloc. destruct (malloc (n_oracle n)) as [ok1 o] eqn:Em. intros [= <- <- <-].
  destruct ok1; simpl; split_and!; try done; eauto.
  - destruct (Nat.eqb_spec (cs_cap_unacked c) 0); lia.
  - intros _. destruct (Nat.eqb_spec (cs_cap_unacked c) 0); lia.
  - exists (cs_cap_unacked c). by destruct c.
Qed.

(** The steps of the search. *)
Lemma search_cursor ga g r d R F :
  disp_ok d R F -> d_gobjs d !! ga = Some g -> let d' := d <| d_gobjs ::= <[ga := g <| g_rr := r |>]> |> in
  disp_ok d' R F /\ searched ga d d' /\ d_gobjs d' !! ga = Some (g <| g_rr := r |>).
Proof.
  intros Hd Hg. cbv zeta. split_and!; [by eapply disp_set_group | | apply lookup_insert_eq].
  destruct (searched_refl ga d) as [A1 A2 A3 A4 A5 A6 A7 A8]. constructor; try done; simpl.
  - intros x Hx. by rewrite lookup_insert_ne.
  - intros g0 Hg0. rewrite lookup_insert_eq. rewrite Hg in Hg0. injection Hg0 as <-. eauto.
Qed.

Lemma search_pause ga k cn d R F :
  disp_ok d R F -> d_conns d !! k = Some cn -> let d' := d <| d_conns ::= <[k := cn <| cn_send_paused := true |>]> |> in
  disp_ok d' R F /\ searched ga d d'.
Proof.
  intros Hd Hk. split; [by eapply disp_set_conn|]. destruct (searched_refl ga d) as [A1 A2 A3 A4 A5 A6 A7 A8]. constructor; try done; simpl.
  - intros x. destruct (decide (x = k)) as [->|]; [by rewrite lookup_insert_eq, Hk | by rewrite lookup_insert_ne].
  - intros x y Hx Hy. destruct (decide (x = k)) as [->|]; [rewrite lookup_insert_eq; eauto | rewrite lookup_insert_ne by done; eauto].
Qed.

Lemma search_reserve ga cp c c' n cap d R F :
  disp_ok d R F -> d_cobjs d !! cp = Some c -> c' = c <| cs_cap_unacked := cap |> -> drew (d_net d) n ->
  (forall g, d_gobjs d !! ga = Some g -> cp ∈ g_arr g) -> (length (cs_unacked c') <= cs_cap_unacked c')%nat -> let d' := d <| d_net := n |> <| d_cobjs ::= <[cp := c']> |> in
  disp_ok d' R F /\ searched ga d d'.
Proof.
  intros Hd Hc -> Hn Hin Hl. split.
  - eapply (disp_set_consumer (d <| d_net := n |>)); try done. by eapply disp_field.
  - destruct (searched_refl ga d) as [A1 A2 A3 A4 A5 A6 A7 A8]. constructor; try done; simpl.
    + intros x y Hx. destruct (decide (x = cp)) as [->|]; [|rewrite lookup_insert_ne by done; eauto].
      rewrite lookup_insert_eq. rewrite Hc in Hx. injection Hx as <-. eauto.
    + intros g x Hg Hx. rewrite lookup_insert_ne; [done|]. intros ->. by apply Hx, Hin.
Qed.

(** The member of the group [k] steps from the cursor on. *)
Definition nth_member (g : group) (k : nat) : option positive :=
  g_arr g !! Z.to_nat ((g_rr g + Z.of_nat k) mod Z.of_nat (length (g_arr g))).

(** From [d0] to [d] the consumer at [cp] could not be given a message: it is blocked, or
    the allocation of room for one more unacked delivery failed. *)
Definition stuck d0 d (cp : positive) : Prop :=
  blocked d cp \/ alloc_failed (d_net d0) (d_net d) /\ exists c, d_cobjs d !! cp = Some c /\ ~ has_slot c.

Definition pick_result (tries : nat) (ga : positive) (g : group) d R F (r : option positive) d' : Prop :=
  disp_ok d' R F /\ searched ga d d' /\
  (0 <= g_rr g -> g_rr g + Z.of_nat tries < 2 ^ 64 ->
     exists r', d_gobjs d' !! ga = Some (g <| g_rr := r' |>) /\ g_rr g <= r' <= g_rr g + Z.of_nat tries) /\
  match r with
  | Some cp => cp ∈ g_arr g /\ ready d' cp /\ exists c, d_cobjs d' !! cp = Some c /\ has_slot c
  | None => d_cobjs d' = d_cobjs d /\
      (0 <= g_rr g -> g_rr g + Z.of_nat tries < 2 ^ 64 ->
       forall k cp, (k < tries)%nat -> nth_member g k = Some cp -> stuck d d' cp)
  end.

Lemma pick_skip tries ga g d d1 R F r d' cp :
  nth_member g 0 = Some cp -> stuck d d1 cp ->
  searched ga d d1 -> d_cobjs d1 = d_cobjs d ->
  pick_result tries ga (g <| g_rr := u64 (g_rr g + 1) |>) d1 R F r d' -> pick_result (S tries) ga g d R F r d'.
Proof.
  intros Hcp Hnr Hs Ec (Hd' & Hs' & Hrr & Hr). split_and!; [done | by eapply searched_trans | |].
  { intros H0 Hw. assert (Eu : u64 (g_rr g + 1) = g_rr g + 1) by (apply u64_small; lia). rewrite Eu in Hrr.
    destruct Hrr as (r' & E & Hb); simpl in *; [lia | lia |]. exists r'. split; [done | lia]. }
  destruct r as [x|]; [done|]. destruct Hr as [Ec' Hr]. split; [congruence|]. intros H0 Hw k y Hk Hy. destruct k as [|k].
  - rewrite Hcp in Hy. injection Hy as <-. destruct Hnr as [Hnr|(Hal & c & E & Hn)].
    + left. by eapply blocked_searched.
    + right. split; [eapply alloc_failed_within; [apply drew_refl | exact Hal | apply Hs']|]. exists c. split; [congruence | done].
  - assert (Eu : u64 (g_rr g + 1) = g_rr g + 1) by (apply u64_small; lia).
    rewrite Eu in Hr. destruct (Hr ltac:(simpl; lia) ltac:(simpl; lia) k y ltac:(lia)) as [H|[Hal H]].
    + rewrite <- Hy. unfold nth_member. simpl. f_equal. f_equal. f_equal. lia.
    + by left.
    + right. split; [|done]. eapply alloc_failed_within; [apply Hs | exact Hal | apply drew_refl].
Qed.

Lemma nth_member_at g : g_arr g <> [] ->
  exists cp, nth_member g 0 = Some cp /\ g_arr g !! Z.to_nat (g_rr g mod Z.of_nat (length (g_arr g))) = Some cp.
Proof.
  intros Hne. assert (Hlen : (0 < length (g_arr g))%nat) by (destruct (g_arr g); [done | simpl; lia]).
  assert (E : nth_member g 0 = g_arr g !! Z.to_nat (g_rr g mod Z.of_nat (length (g_arr g)))) by (unfold nth_member; f_equal; f_equal; f_equal; lia).
  rewrite E. destruct (_ !! _) as [cp|] eqn:H; [by exists cp|]. apply lookup_ge_None in H.
  pose proof (Z.mod_pos_bound (g_rr g) (Z.of_nat (length (g_arr g)))). lia.
Qed.

(** The consumer at [cp] on its connection. *)
Lemma ready_spec d cp c cn : d_cobjs d !! cp = Some c -> d_conns d !! cs_conn c = Some cn ->
  ready d cp <-> cn_closing cn = false /\ cn_send_paused cn || beaver_conn_send_full cn = false /\
    negb (cs_no_ack c) && negb (cs_prefetch c =? 0) && (cs_prefetch c <=? Z.of_nat (length (cs_unacked c))) = false.
Proof.
  intros Hc Hcn. rewrite orb_false_iff, !andb_false_iff, !negb_false_iff, Z.eqb_eq, Z.leb_gt. split.
  - intros (c1 & cn1 & E1 & E2 & B1 & B2 & B3 & B4). rewrite Hc in E1. injection E1 as <-. rewrite Hcn in E2. injection E2 as <-.
    split_and!; try done. destruct (cs_no_ack c); [auto|]. destruct (decide (cs_prefetch c = 0)); [auto|]. right. auto.
  - intros (B1 & [B2 B3] & B4). exists c, cn. split_and!; try done. intros N1 N2. destruct B4 as [[?|?]|?]; congruence || lia.
Qed.

Lemma pick_consumer_ok tries ga : forall d R F g r d',
  disp_ok d R F -> d_gobjs d !! ga = Some g -> g_arr g <> [] -> pick_consumer tries ga d = (r, d') ->
  pick_result tries ga g d R F r d'.
Proof.
  induction tries as [|tries IH]; intros d R F g r d' Hd Hg Hne; cbn [pick_consumer].
  { intros [= <- <-]. split_and!; [done | apply searched_refl | | done | intros; lia].
    intros H0 Hw. exists (g_rr g). split; [rewrite Hg; by destruct g | lia]. }
  rewrite Hg. set (g1 := g <| g_rr := u64 (g_rr g + 1) |>). set (d0 := d <| d_gobjs ::= <[ga := g1]> |>).
  destruct (search_cursor ga g (u64 (g_rr g + 1)) d R F Hd Hg) as (Hd0 & Hs0 & Hg0). fold g1 in Hd0, Hs0, Hg0. fold d0 in Hd0, Hs0, Hg0.
  destruct (nth_member_at g Hne) as (cp & Hcp & Hat).
  pose proof (list_elem_of_lookup_2 _ _ _ Hat) as Hin.
  destruct (wi_group _ (do_wired _ _ _ Hd) ga g Hg) as (_ & _ & Hmem). destruct (Hmem cp Hin) as (c & Hc & _).
  destruct (wi_consumer _ (do_wired _ _ _ Hd) cp c Hc) as (_ & _ & (cn & Hcn & _) & Hcap).
  rewrite Hat. cbn [mbind option_bind]. replace (d_cobjs d0 !! cp) with (Some c) by done. cbn [mbind option_bind].
  replace (d_conns d0 !! cs_conn c) with (Some cn) by done. cbn [fmap option_fmap option_map].
  pose proof (ready_spec d cp c cn Hc Hcn) as Hready.
  assert (Hcont : forall d1, disp_ok d1 R F -> searched ga d d1 -> d_gobjs d1 !! ga = Some g1 ->
    stuck d d1 cp -> d_cobjs d1 = d_cobjs d ->
    pick_consumer tries ga d1 = (r, d') -> pick_result (S tries) ga g d R F r d').
  { intros d1 Hd1 Hs1 Hg1 Hn1 Ho1 E. apply (pick_skip tries ga g d d1 R F r d' cp); try done. by apply IH. }
  destruct (cn_closing cn) eqn:E1; [apply Hcont; try done; left; exists c, cn; auto|].
  destruct (cn_send_paused cn || beaver_conn_send_full cn) eqn:E2.
  { destruct (search_pause ga (cs_conn c) cn d0 R F Hd0 Hcn) as [Hd1 Hs1].
    apply Hcont; try done; [by eapply searched_trans|]. left. eexists c, _. split_and!; [done | apply lookup_insert_eq | by right; left]. }
  destruct (negb (cs_no_ack c) && negb (cs_prefetch c =? 0) && (cs_prefetch c <=? Z.of_nat (length (cs_unacked c)))) eqn:E4.
  { apply Hcont; try done. left. exists c, cn. split_and!; [done | done |]. right. right. reflect_bools. destruct (cs_no_ack c); [done|]. split_and!; [done | lia | lia]. }
  assert (Hrd : ready d cp) by (by apply Hready).
  destruct (cs_no_ack c) eqn:En.
  { intros [= <- <-]. split_and!; try done; [|exists c; split; [done | intros H; congruence]].
    intros H0 Hw. exists (g_rr g1). split; [done|]. unfold g1. simpl. rewrite u64_small by lia. lia. }
  destruct (consumer_reserve_unacked c (d_net d0)) as [[ok c1] n1] eqn:Er.
  destruct (reserve_spec _ _ _ _ _ Hcap Er) as ([cap Ecap] & Hl1 & Hok & Hfl).
  assert (Hdr : drew (d_net d0) n1 /\ (ok = false -> alloc_failed (d_net d0) n1)).
  { unfold consumer_reserve_unacked in Er. destruct (_ <? _)%nat; [injection Er as <- _ <-; split; [apply drew_refl | done]|].
    destruct (n_malloc (d_net d0)) as [ok1 n2] eqn:Em. apply n_malloc_draws in Em. by injection Er as <- _ <-. }
  destruct Hdr as [Hdr Hal]. assert (Hmine : forall g2, d_gobjs d0 !! ga = Some g2 -> cp ∈ g_arr g2) by (intros g2 Hg2; rewrite Hg0 in Hg2; by injection Hg2 as <-).
  destruct (search_reserve ga cp c c1 n1 cap d0 R F Hd0 Hc Ecap Hdr Hmine Hl1) as [Hd1 Hs1].
  destruct ok.
  2:{ destruct (Hfl eq_refl) as [-> Hfull]. apply Hcont; try done; [by eapply searched_trans | | by apply insert_id].
      right. split; [by apply Hal|]. exists c. split; [apply lookup_insert_eq|]. intros Hsl. specialize (Hsl En). lia. }
  intros [= <- <-]. split_and!; [done | by eapply searched_trans | | done | |].
  - intros H0 Hw. exists (g_rr g1). split; [done|]. unfold g1. simpl. rewrite u64_small by lia. lia.
  - destruct Hrd as (c2 & cn2 & F1 & F2 & F3 & F4 & F5 & F6). rewrite Hc in F1. injection F1 as <-.
    exists c1, cn2. subst c1. split_and!; try done. apply lookup_insert_eq.
  - exists c1. split; [apply lookup_insert_eq|]. intros _. by apply Hok.
Qed.

(** * Servicing a group *)

Lemma disp_dequeue p d R F l :
  disp_ok d R F -> p ∈ owned_refs (d_world d) ++ d_refs d ++ R -> q_at d p = Some l ->
  exists d1, d_on_queue None p queue_dequeue d = (head l, d1) /\ disp_ok d1 R (option_list (head l) ++ F) /\ moved d d1 /\
    calm (d_world d) (d_world d1) /\ q_at d1 p = Some (tail l) /\ forall x, x <> p -> q_at d1 x = q_at d x.
Proof.
  intros Hd Hp Hl. pose proof (do_world _ _ _ Hd) as Hw.
  destruct (d_on_queue_ok p d _ _ Hw Hp None queue_dequeue (fun r => option_list r ++ d_msgs d ++ F))
    as (q & a & q' & s' & Hq & E & -> & Hw' & Hc); [intros; apply op_dequeue|].
  unfold q_at in Hl. rewrite Hq in Hl. injection Hl as <-. pose proof (wo_store _ _ _ Hw) as Hst.
  destruct (dequeue_spec q (w_sys (d_world d)) (messages_of (delete p (st_queues (d_store d))) ++ d_msgs d ++ F) a q' s' (contents q))
    as (_ & _ & -> & Hq'); [by eapply so_queues | rewrite app_assoc, <- (messages_split _ _ _ Hq); apply Hst | done |].
  eexists. split; [done|]. split_and!; [| done | done | |].
  - eapply disp_same; [done | done | | apply Hc]. eapply world_ok_proper; [..|exact Hw']; [done|]. simpl.
    change (d_msgs (d <| d_world ::= set_queue p q' s' |>)) with (d_msgs d). solve_perm.
  - rewrite (set_queue_at p q), decide_True by done. by rewrite (qinv_contents _ _ Hq').
  - intros x Hx. by rewrite (set_queue_at p q), decide_False by done.
Qed.

Lemma disp_requeue p m d R F l :
  disp_ok d R (m :: F) -> p ∈ owned_refs (d_world d) ++ d_refs d ++ R -> q_at d p = Some l ->
  let d1 := snd (requeue p m d) in
  disp_ok d1 R (m :: F) /\ moved d d1 /\ calm (d_world d) (d_world d1) /\ (forall x, x <> p -> q_at d1 x = q_at d x) /\
  (q_at d1 p = Some (l ++ [m]) \/ ~ ample (w_sys (d_world d)) /\ q_at d1 p = Some l).
Proof.
  intros Hd Hp Hl. pose proof (do_world _ _ _ Hd) as Hw.
  destruct (requeue_ok p d _ _ Hw Hp m ltac:(set_solver)) as (q & q' & s' & rc & Hq & E & -> & Hw' & Hc).
  pose proof (requeue_contents p q m _ _ _ _ _ _ Hw ltac:(set_solver) Hq E) as Hor.
  unfold q_at in Hl. rewrite Hq in Hl. injection Hl as <-. cbn [snd].
  split_and!; [eapply disp_same; [done | done | done | apply Hc] | done | done | |].
  - intros x Hx. by rewrite (set_queue_at p q), decide_False by done.
  - rewrite (set_queue_at p q), decide_True by done. destruct Hor as [(_ & ->)|(_ & Hn & ->)]; auto.
Qed.

Lemma disp_unref_msg m d R F :
  disp_ok d R (m :: F) -> let d1 := d_heap (message_unref (Some m)) d in
  disp_ok d1 R F /\ moved d d1 /\ calm (d_world d) (d_world d1) /\ forall x, q_at d1 x = q_at d x.
Proof.
  intros Hd. pose proof (do_world _ _ _ Hd) as Hw. rewrite <- Permutation_middle in Hw.
  destruct (d_unref_msg_ok m d _ _ Hw) as (Hw1 & Hm & Hc). split_and!; [|done | done | done].
  eapply disp_same; [done | done | exact Hw1 | apply Hc].
Qed.

(** The deliveries of a log that went to the consumer at [cp]. *)
Definition sent_to (cp : positive) (log : list (positive * Z * message)) : list (Z * message) :=
  (fun x => (x.1.2, x.2)) <$> filter (fun x => x.1.1 = cp) log.

(** The consumer after the deliveries [us]. *)
Definition after (c : consumer) (us : list (Z * message)) (cap : nat) : consumer :=
  (if cs_no_ack c then c else c <| cs_unacked ::= fun l => l ++ us |>) <| cs_cap_unacked := cap |>.

(** From [d] to [d'] the deliveries [log] were made, to members of [arr], the
    messages being taken from the queue at [p]. *)
Record serviced (ga p : positive) (arr : list positive) (log : list (positive * Z * message)) d d' : Prop := Serviced {
  sd_hub : (d_self d', d_groups d', d_consumers d', d_pending d', d_next_addr d') =
           (d_self d, d_groups d, d_consumers d, d_pending d, d_next_addr d);
  sd_groups : forall x, x <> ga -> d_gobjs d' !! x = d_gobjs d !! x;
  sd_group : forall g, d_gobjs d !! ga = Some g -> exists r, d_gobjs d' !! ga = Some (g <| g_rr := r |>);
  sd_calm : calm (d_world d) (d_world d');
  sd_queues : forall x, x <> p -> q_at d' x = q_at d x;
  sd_consumers : forall cp c, d_cobjs d !! cp = Some c -> exists cap, d_cobjs d' !! cp = Some (after c (sent_to cp log) cap);
  sd_others : forall cp, cp ∉ arr -> d_cobjs d' !! cp = d_cobjs d !! cp;
  sd_conns : forall k cn, d_conns d !! k = Some cn ->
    exists cn', d_conns d' !! k = Some cn' /\ cn_closing cn' = cn_closing cn /\ (cn_send_paused cn = true -> cn_send_paused cn' = true);
  sd_net : drew (d_net d) (d_net d');
  sd_tags : forall i x, log !! i = Some x -> x.1.2 = u64 (d_next_delivery_tag d + 1 + Z.of_nat i);
  sd_members : forall x, x ∈ log -> x.1.1 ∈ arr;
  sd_prefetch : forall cp c c', d_cobjs d !! cp = Some c -> d_cobjs d' !! cp = Some c' -> cs_no_ack c = false -> cs_prefetch c <> 0 ->
    Z.of_nat (length (cs_unacked c')) <= Z.max (Z.of_nat (length (cs_unacked c))) (cs_prefetch c)
}.

Lemma after_nil c : after c [] (cs_cap_unacked c) = c.
Proof. destruct c as [x1 x2 x3 x4 x5 [] x7 x8 x9 x10]; unfold after, update_field; cbn; rewrite ?app_nil_r; reflexivity. Qed.

Lemma after_app c us1 us2 cap1 cap2 : after (after c us1 cap1) us2 cap2 = after c (us1 ++ us2) cap2.
Proof. destruct c as [x1 x2 x3 x4 x5 [] x7 x8 x9 x10]; unfold after, update_field; cbn; rewrite ?app_assoc; reflexivity. Qed.

Lemma after_fields c us cap :
  cs_no_ack (after c us cap) = cs_no_ack c /\ cs_prefetch (after c us cap) = cs_prefetch c /\
  cs_unacked (after c us cap) = cs_unacked c ++ (if cs_no_ack c then [] else us).
Proof. unfold after. destruct (cs_no_ack c) eqn:E; simpl; by rewrite ?app_nil_r. Qed.

(** Steps without a delivery. *)
Lemma serviced_search ga p g d d' : d_gobjs d !! ga = Some g -> searched ga d d' -> serviced ga p (g_arr g) [] d d'.
Proof.
  intros Hg [A1 A2 A3 A4 A5 A6 A7 A8]. injection A1 as B1 B2 B3 B4 B5 B6 B7. constructor; try done.
  - congruence.
  - rewrite B6. done.
  - intros x _. unfold q_at, d_store. by rewrite B6.
  - intros cp c (cap & Hcap)%A6. exists cap. rewrite Hcap. f_equal. destruct c as [x1 x2 x3 x4 x5 [] x7 x8 x9 x10]; unfold after, update_field; cbn; rewrite ?app_nil_r; reflexivity.
  - intros cp Hn. by apply (A7 g).
  - intros k cn Hk. specialize (A4 k). rewrite Hk in A4. destruct (d_conns d' !! k) as [cn'|] eqn:Hk'; [|done]. injection A4 as E1 _ _ _.
    exists cn'. split_and!; [done | done |]. intros Hp. destruct (A5 _ _ Hk Hp) as (cn2 & H1 & H2). congruence.
  - intros x Hx. by apply elem_of_nil in Hx.
  - intros cp c c' Hc Hc' _ _. destruct (A6 _ _ Hc) as [cap Hcap]. rewrite Hc' in Hcap. injection Hcap as ->. simpl. lia.
Qed.

(** Connections that keep their marks. *)
Lemma marks_kept d d' :
  (forall k, (fun cn => (flags cn, cn_send_paused cn)) <$> d_conns d' !! k = (fun cn => (flags cn, cn_send_paused cn)) <$> d_conns d !! k) ->
  forall k cn, d_conns d !! k = Some cn ->
    exists cn', d_conns d' !! k = Some cn' /\ cn_closing cn' = cn_closing cn /\ (cn_send_paused cn = true -> cn_send_paused cn' = true).
Proof.
  intros H k cn Hk. specialize (H k). rewrite Hk in H. destruct (d_conns d' !! k) as [cn'|]; [|done]. injection H as E1 _ E3.
  exists cn'. split_and!; [done | done | congruence].
Qed.

Lemma serviced_same ga p arr d d' :
  (d_self d', d_groups d', d_gobjs d', d_consumers d', d_pending d', d_next_addr d') =
  (d_self d, d_groups d, d_gobjs d, d_consumers d, d_pending d, d_next_addr d) -> d_cobjs d' = d_cobjs d ->
  (forall k, (fun cn => (flags cn, cn_send_paused cn)) <$> d_conns d' !! k = (fun cn => (flags cn, cn_send_paused cn)) <$> d_conns d !! k) ->
  drew (d_net d) (d_net d') -> calm (d_world d) (d_world d') -> (forall x, x <> p -> q_at d' x = q_at d x) -> serviced ga p arr [] d d'.
Proof.
  intros [= B1 B2 B3 B4 B5 B6] Ec Hk Hn Hc Hq. constructor; try done.
  - congruence.
  - by rewrite B3.
  - intros g Hg. exists (g_rr g). rewrite B3, Hg. by destruct g.
  - intros cp c H. exists (cs_cap_unacked c). by rewrite Ec, after_nil.
  - intros cp _. by rewrite Ec.
  - by apply marks_kept.
  - intros x Hx. by apply elem_of_nil in Hx.
  - intros cp c c' H1 H2 _ _. rewrite Ec, H1 in H2. injection H2 as <-. lia.
Qed.

Lemma moved_serviced ga p arr d d' :
  moved d d' -> calm (d_world d) (d_world d') -> (forall x, x <> p -> q_at d' x = q_at d x) -> serviced ga p arr [] d d'.
Proof. intros Hm Hc Hq. apply serviced_same; [by rewrite Hm | by rewrite Hm | by rewrite Hm | rewrite Hm; apply drew_refl | done | done]. Qed.

(** The delivery of [m] to the consumer at [cp]. *)
Lemma serviced_one ga p arr cp c tag m d d' :
  delivers d d' -> d_cobjs d !! cp = Some c -> d_cobjs d' = <[cp := recorded c tag m]> (d_cobjs d) -> cp ∈ arr ->
  tag = u64 (d_next_delivery_tag d + 1) ->
  (cs_no_ack c = false -> cs_prefetch c <> 0 -> Z.of_nat (length (cs_unacked c)) < cs_prefetch c) ->
  serviced ga p arr [(cp, tag, m)] d d'.
Proof.
  intros [A1 A2 A3 A4 A5] Hc Ec Hin Htag Hpf. injection A1 as B1 B2 B3 B4 B5 B6.
  assert (Hrec : forall x y, d_cobjs d !! x = Some y -> d_cobjs d' !! x = Some (after y (sent_to x [(cp, tag, m)]) (cs_cap_unacked y))).
  { intros x y Hy. rewrite Ec. unfold sent_to. rewrite filter_cons. simpl. destruct (decide (cp = x)) as [->|Hne].
    - rewrite lookup_insert_eq. rewrite Hc in Hy. injection Hy as <-. unfold after, recorded. destruct c as [x1 x2 x3 x4 x5 [] x7 x8 x9 x10]; reflexivity.
    - rewrite lookup_insert_ne, Hy by done. simpl. by rewrite after_nil. }
  constructor; try done.
  - congruence.
  - by rewrite B3.
  - intros g Hg. exists (g_rr g). rewrite B3, Hg. by destruct g.
  - intros x y Hy. exists (cs_cap_unacked y). by apply Hrec.
  - intros x Hx. rewrite Ec, lookup_insert_ne; [done|]. by intros ->.
  - by apply marks_kept.
  - intros i x Hi. apply list_lookup_singleton_Some in Hi as [-> <-]. simpl. rewrite Htag. f_equal. lia.
  - intros x Hx. apply list_elem_of_singleton in Hx as ->. done.
  - intros x y y' Hy Hy' Hna Hp. rewrite (Hrec x y Hy) in Hy'. injection Hy' as <-.
    destruct (after_fields y (sent_to x [(cp, tag, m)]) (cs_cap_unacked y)) as (_ & _ & ->). rewrite Hna, length_app.
    unfold sent_to. rewrite filter_cons. simpl. destruct (decide (cp = x)) as [->|Hne]; simpl; [|lia].
    rewrite Hc in Hy. injection Hy as <-. specialize (Hpf Hna Hp). lia.
Qed.

Lemma serviced_trans ga p arr log1 log2 d1 d2 d3 :
  serviced ga p arr log1 d1 d2 -> (log2 <> [] -> u64 (d_next_delivery_tag d2) = u64 (d_next_delivery_tag d1 + Z.of_nat (length log1))) ->
  serviced ga p arr log2 d2 d3 -> serviced ga p arr (log1 ++ log2) d1 d3.
Proof.
  intros [A1 A2 A3 A4 A5 A6 A6a A6b A6c A7 A8 A9] Ht [B1 B2 B3 B4 B5 B6 B6a B6b B6c B7 B8 B9]. constructor.
  - congruence.
  - intros x Hx. by rewrite B2, A2.
  - intros g (r & Hr)%A3. destruct (B3 _ Hr) as [r' Hr']. exists r'. exact Hr'.
  - by eapply calm_trans.
  - intros x Hx. by rewrite B5, A5.
  - intros cp c (cap & Hcap)%A6. destruct (B6 _ _ Hcap) as [cap' H']. exists cap'. rewrite H', after_app. f_equal. f_equal.
    unfold sent_to. by rewrite filter_app, fmap_app.
  - intros cp Hn. by rewrite B6a, A6a.
  - intros k cn (cn1 & H1 & E1 & P1)%A6b. destruct (B6b _ _ H1) as (cn2 & H2 & E2 & P2). exists cn2. split_and!; [done | congruence | auto].
  - by eapply drew_trans.
  - intros i x [Hi|[Hge Hi]]%lookup_app_Some; [by apply A7|]. rewrite (B7 _ _ Hi).
    assert (Hne : log2 <> []) by (by intros ->). specialize (Ht Hne). u64_lia.
  - intros x [Hx|Hx]%elem_of_app; auto.
  - intros cp c c' Hc Hc' Hn Hp. destruct (A6 _ _ Hc) as [cap Hcap].
    destruct (after_fields c (sent_to cp log1) cap) as (F1 & F2 & _).
    pose proof (A9 _ _ _ Hc Hcap Hn Hp) as H1. pose proof (B9 _ _ _ Hcap Hc') as H2. rewrite F1, F2 in H2. specialize (H2 Hn Hp). lia.
Qed.

(** Why servicing, from [d] to [d'], ended: [rest] was not delivered, [l'] is in the queue. *)
Inductive stopped (arr : list positive) (no_wrap low_memory : Prop) d d' (rest l' : list message) : Prop :=
  | stop_empty : rest = [] -> l' = [] -> stopped arr no_wrap low_memory d d' rest l'
  | stop_blocked : l' = rest -> (no_wrap -> forall cp, cp ∈ arr -> stuck d d' cp) -> stopped arr no_wrap low_memory d d' rest l'
  | stop_failed m rest' :
      rest = m :: rest' -> send_failed m (d_net d) (d_net d') -> l' = rest' ++ [m] \/ l' = rest' /\ low_memory ->
      stopped arr no_wrap low_memory d d' rest l'.

(** The search visits every member. *)
Lemma nth_member_covers g cp :
  cp ∈ g_arr g -> exists k, (k < length (g_arr g))%nat /\ nth_member g k = Some cp.
Proof.
  intros [i Hi]%list_elem_of_lookup. pose proof (lookup_lt_Some _ _ _ Hi) as Hlt.
  set (n := Z.of_nat (length (g_arr g))). exists (Z.to_nat ((Z.of_nat i - g_rr g) mod n)).
  pose proof (Z.mod_pos_bound (Z.of_nat i - g_rr g) n ltac:(lia)). split; [lia|]. unfold nth_member. rewrite <- Hi. f_equal. fold n.
  rewrite Z2Nat.id by lia. rewrite Z.add_mod_idemp_r by lia. replace (g_rr g + (Z.of_nat i - g_rr g)) with (Z.of_nat i) by lia.
  rewrite Z.mod_small by lia. lia.
Qed.

Lemma stuck_earlier d0 d1 d cp : drew (d_net d0) (d_net d1) -> stuck d1 d cp -> stuck d0 d cp.
Proof.
  intros Hn [H|[Hal H]]; [by left | right]. split; [|done]. eapply alloc_failed_within; [exact Hn | exact Hal | apply drew_refl].
Qed.

Lemma stopped_weaken arr P P' Q Q' d d1 d' rest l' :
  drew (d_net d) (d_net d1) -> (P' -> P) -> (Q -> Q') -> stopped arr P Q d1 d' rest l' -> stopped arr P' Q' d d' rest l'.
Proof.
  intros Hn HP HQ [| |m rest' H1 H2 H3]; [by apply stop_empty | apply stop_blocked; eauto using stuck_earlier|].
  eapply stop_failed; [done | eapply send_failed_within; [exact Hn | exact H2 | apply drew_refl] | tauto].
Qed.

Definition no_wrap (g : group) (n : nat) : Prop :=
  0 <= g_rr g /\ g_rr g + Z.of_nat (n * length (g_arr g)) < 2 ^ 64.

Definition loop_result (fuel : nat) (ga p : positive) (arr : list positive) d R F (g : group) (l : list message) : Prop :=
  exists log rest l', let d' := service_loop fuel ga d in
    disp_ok d' R F /\ serviced ga p arr log d d' /\ l = log.*2 ++ rest /\ q_at d' p = Some l' /\
    stopped arr (no_wrap g (S (length l))) (~ ample (w_sys (d_world d))) d d' rest l'.

(** The round that took [m] from the queue of the group, up to its end. *)
Lemma hand_over_ok ga p arr cp c m d R F l rc d1 :
  disp_ok d R (m :: F) -> p ∈ owned_refs (d_world d) ++ d_refs d ++ R -> q_at d p = Some l ->
  d_cobjs d !! cp = Some c -> has_slot c -> cp ∈ arr ->
  (cs_no_ack c = false -> cs_prefetch c <> 0 -> Z.of_nat (length (cs_unacked c)) < cs_prefetch c) ->
  deliver cp m d = (rc, d1) ->
  if rc =? 0 then
    let tag := u64 (d_next_delivery_tag d + 1) in
    let d2 := d_heap (message_unref (Some m)) d1 in
    disp_ok d2 R F /\ serviced ga p arr [(cp, tag, m)] d d2 /\ d_gobjs d2 = d_gobjs d /\ d_next_delivery_tag d2 = tag /\ q_at d2 p = Some l
  else
    let d2 := d_heap (message_unref (Some m)) (snd (requeue p m d1)) in
    disp_ok d2 R F /\ serviced ga p arr [] d d2 /\ send_failed m (d_net d) (d_net d2) /\
    (q_at d2 p = Some (l ++ [m]) \/ ~ ample (w_sys (d_world d)) /\ q_at d2 p = Some l).
Proof.
  intros Hd Hlive Hl Hc Hslot Hin Hpf Edl.
  destruct (deliver_ok _ _ _ _ _ _ _ _ Hd Hc Hslot Edl) as (Hd1 & Hdl & Ht & Hor). set (tag := u64 _) in *.
  pose proof (dl_hub _ _ Hdl) as [= B1 B2 B3 B4 B5 B6].
  destruct Hor as [[-> Ec]|(-> & Ec & Hwhy)]; simpl Z.eqb; cbv iota zeta.
  - destruct (disp_unref_msg m d1 R F Hd1) as (Hd2 & Hm2 & Hc2 & Hq2). set (d2 := d_heap _ _) in *.
    split_and!; [done | | by rewrite <- B3, Hm2 | by rewrite <- Ht, Hm2 | by rewrite Hq2, (dl_queues _ _ Hdl)].
    apply (serviced_trans _ _ _ [(cp, tag, m)] [] d d1 d2); [by eapply serviced_one | done | apply moved_serviced; auto].
  - assert (Hlive1 : p ∈ owned_refs (d_world d1) ++ d_refs d1 ++ R).
    { rewrite (calm_refs _ _ (dl_calm _ _ Hdl)). unfold d_refs in *. by rewrite B3, B5, Ec. }
    assert (Hl1 : q_at d1 p = Some l) by (by rewrite (dl_queues _ _ Hdl)).
    destruct (disp_requeue p m d1 R F l Hd1 Hlive1 Hl1) as (Hd2 & Hm2 & Hc2 & Hq2 & Hor). set (d2 := snd _) in *.
    destruct (disp_unref_msg m d2 R F Hd2) as (Hd3 & Hm3 & Hc3 & Hq3). set (d3 := d_heap _ d2) in *.
    split_and!; [done | | by rewrite Hm3, Hm2 |].
    + apply (serviced_trans _ _ _ [] [] d d1 d3); [apply serviced_same; [congruence | done | apply Hdl | apply Hdl | apply Hdl | intros; apply Hdl] | done |].
      apply (serviced_trans _ _ _ [] [] d1 d2 d3); [by apply moved_serviced | done | apply moved_serviced; auto].
    + rewrite Hq3. destruct Hor as [->|[Hn ->]]; [by left | right]. split; [|done].
      intros Ha. apply Hn. by apply (dl_calm _ _ Hdl).
Qed.

Lemma searched_world ga d d1 : searched ga d d1 -> d_world d1 = d_world d /\ d_next_delivery_tag d1 = d_next_delivery_tag d.
Proof. intros H. by pose proof (se_hub _ _ _ H) as [= _ _ _ _ _ E1 E2]. Qed.

(** Nobody was found: every member is stuck. *)
Lemma pick_none_stops ga g d R F d1 l low :
  pick_result (length (g_arr g)) ga g d R F None d1 -> stopped (g_arr g) (no_wrap g (S (length l))) low d d1 l l.
Proof.
  intros (_ & _ & _ & _ & Hr). apply stop_blocked; [done|]. intros [H0 Hw] cp Hcp.
  destruct (nth_member_covers g cp Hcp) as (k & Hk & Hn). apply (Hr H0) with k; [nia | done | done].
Qed.

(** The cursor moved by at most one turn. *)
Lemma pick_no_wrap ga g d R F r d1 r1 n :
  pick_result (length (g_arr g)) ga g d R F r d1 -> d_gobjs d1 !! ga = Some (g <| g_rr := r1 |>) ->
  no_wrap g (S (S n)) -> no_wrap (g <| g_rr := r1 |>) (S n).
Proof.
  intros (_ & _ & Hrr & _) Hg1 [H0 Hw]. destruct (Hrr H0) as (r2 & Hr2 & Hb); [nia|]. rewrite Hg1 in Hr2. injection Hr2 as ->.
  unfold no_wrap. change (g_arr (g <| g_rr := r2 |>)) with (g_arr g). change (g_rr (g <| g_rr := r2 |>)) with r2. nia.
Qed.

Lemma moved_live p d d' R :
  moved d d' -> calm (d_world d) (d_world d') -> p ∈ owned_refs (d_world d) ++ d_refs d ++ R -> p ∈ owned_refs (d_world d') ++ d_refs d' ++ R.
Proof. intros Hm Hc Hp. rewrite (calm_refs _ _ Hc). unfold d_refs in *. by rewrite Hm. Qed.

Lemma service_loop_ok fuel ga p arr : forall d R F g l,
  disp_ok d R F -> d_gobjs d !! ga = Some g -> g_queue g = p -> g_arr g = arr -> q_at d p = Some l -> (length l < fuel)%nat ->
  loop_result fuel ga p arr d R F g l.
Proof.
  induction fuel as [|fuel IH]; intros d R F g l Hd Hg Ep Ea Hl Hf; [lia|]. unfold loop_result. cbn [service_loop]. rewrite Hg, Ea, Ep.
  destruct (Nat.eqb_spec (length arr) 0) as [Hz|Hnz].
  { exists [], l, l. split_and!; [done | rewrite <- Ea; apply serviced_search; [done | apply searched_refl] | done | done |].
    apply nil_length_inv in Hz. apply stop_blocked; [done|]. intros _ cp Hcp. rewrite Hz in Hcp. by apply elem_of_nil in Hcp. }
  destruct (pick_consumer (length arr) ga d) as [r d1] eqn:Epk. rewrite <- Ea in Epk, Hnz.
  pose proof (pick_consumer_ok _ _ _ _ _ _ _ _ Hd Hg ltac:(intros Hnil; by rewrite Hnil in Hnz) Epk) as Hpick. pose proof Hpick as (Hd1 & Hs1 & _ & Hr).
  destruct (searched_world _ _ _ Hs1) as [Ew Et]. assert (Hl1 : q_at d1 p = Some l) by (unfold q_at, d_store in *; by rewrite Ew).
  destruct r as [cp|].
  2:{ exists [], l, l. split_and!; [done | by rewrite <- Ea; apply serviced_search | done | done |]. rewrite <- Ea. by eapply pick_none_stops. }
  destruct Hr as (Hin & Hrd & c & Hc & Hslot). rewrite Ea in Hin. destruct (se_group _ _ _ Hs1 g Hg) as [r1 Hg1].
  assert (Hlive : p ∈ owned_refs (d_world d1) ++ d_refs d1 ++ R).
  { rewrite <- Ep. change (g_queue g) with (g_queue (g <| g_rr := r1 |>)). by eapply group_queue_live. }
  destruct (disp_dequeue p d1 R F l Hd1 Hlive Hl1) as (d2 & -> & Hd2 & Hm2 & Hc2 & Hq2 & Ho2).
  assert (Hsv2 : serviced ga p arr [] d d2).
  { apply (serviced_trans _ _ _ [] [] d d1 d2); [by rewrite <- Ea; apply serviced_search | done | by apply moved_serviced]. }
  destruct l as [|m l]; cbn [head tail option_list app] in *.
  { exists [], [], []. split_and!; [done | done | done | done | by apply stop_empty]. }
  assert (Ec2 : d_cobjs d2 = d_cobjs d1) by (by rewrite Hm2). assert (Eg2 : d_gobjs d2 = d_gobjs d1) by (by rewrite Hm2).
  assert (Et2 : d_next_delivery_tag d2 = d_next_delivery_tag d) by (by rewrite Hm2).
  destruct (deliver cp m d2) as [rc d3] eqn:Edl.
  assert (Hpf : cs_no_ack c = false -> cs_prefetch c <> 0 -> Z.of_nat (length (cs_unacked c)) < cs_prefetch c).
  { destruct Hrd as (c' & cn & Hc' & _ & _ & _ & _ & Hpf). rewrite Hc in Hc'. by injection Hc' as <-. }
  pose proof (hand_over_ok ga p arr cp c m d2 R F l rc d3 Hd2 (moved_live _ _ _ _ Hm2 Hc2 Hlive) Hq2 ltac:(by rewrite Ec2) Hslot Hin Hpf Edl) as Hend.
  assert (Ham : ~ ample (w_sys (d_world d2)) -> ~ ample (w_sys (d_world d))).
  { intros Hn Ha. apply Hn, Hc2. by rewrite Ew. }
  destruct (rc =? 0).
  2:{ destruct Hend as (Hd4 & Hs4 & Hwhy & Hor). set (d4 := d_heap _ _) in *.
      assert (Hs : serviced ga p arr [] d d4) by (by apply (serviced_trans _ _ _ [] [] d d2 d4)).
      destruct Hor as [Hq4|[Hn Hq4]]; exists [], (m :: l); eexists; (split_and!; [done | done | done | exact Hq4 |]);
        (eapply stop_failed; [done | eapply send_failed_within; [apply Hsv2 | exact Hwhy | apply drew_refl] | auto]). }
  destruct Hend as (Hd4 & Hs4 & Eg4 & Et4 & Hq4). set (d4 := d_heap _ d3) in *. set (tag := u64 _) in *.
  assert (Hg4 : d_gobjs d4 !! ga = Some (g <| g_rr := r1 |>)) by (by rewrite Eg4, Eg2).
  destruct (IH d4 R F _ l Hd4 Hg4 Ep Ea Hq4 ltac:(cbn [length] in Hf; lia)) as (log & rest & l' & Hd' & Hs' & -> & Hq' & Hstop).
  exists ((cp, tag, m) :: log), rest, l'. cbv zeta. split_and!; [done | | done | done |].
  - apply (serviced_trans _ _ _ [(cp, tag, m)] log d d4 _); [by apply (serviced_trans _ _ _ [] [(cp, tag, m)] d d2 d4); [| rewrite Et2; simpl; rewrite Z.add_0_r |] | | done].
    intros _. rewrite Et4. unfold tag. rewrite Et2. cbn [length]. u64_lia.
  - eapply stopped_weaken; [eapply drew_trans; [apply Hsv2 | apply Hs4] | by eapply pick_no_wrap | | exact Hstop].
    intros Hn Ha. apply Hn. apply (sd_calm _ _ _ _ _ _ Hs4), Hc2. by rewrite Ew.
Qed.
End Serve.
