(* ===== verification/DispatchRun.v ===== *)
(** The life of a dispatcher: every event a worker handles keeps the invariant, what
    is pending is served, and freeing the dispatcher gives up all it holds. *)

From S2P Require Import Prelude Tables Frame HashMap Message Queue Store Exchange Broker BrokerRoute BrokerSpec BrokerDelivery Net Dispatch DispatchInv DispatchOps DispatchSettle DispatchServe.

Section Run.
Context {M : Type} `{!PtrMap M} `{!PtrMapLaws M}.
Implicit Types (w : world M) (d : dispatcher M).

(** * Serving *)

Lemma queue_at_live p d R F :
  disp_ok d R F -> p ∈ owned_refs (d_world d) ++ d_refs d ++ R ->
  exists l, q_at d p = Some l /\ d_at_queue 0%nat p queue_depth d = length l.
Proof.
  intros Hd Hp. pose proof (do_world _ _ _ Hd) as Hw. destruct (world_live _ _ _ p Hw Hp) as [q Hq].
  exists (contents q). unfold q_at, d_at_queue, at_queue, d_store in *. rewrite Hq. split; [done|]. cbn.
  exact (ring_count (qi_ring _ _ (so_queues _ _ _ (wo_store _ _ _ Hw) _ _ Hq))).
Qed.

Lemma service_group_ok ga g d R F :
  disp_ok d R F -> d_gobjs d !! ga = Some g ->
  exists l log rest l', let d' := service_group ga d in
    q_at d (g_queue g) = Some l /\ l = log.*2 ++ rest /\ q_at d' (g_queue g) = Some l' /\
    disp_ok d' R F /\ serviced ga (g_queue g) (g_arr g) log d d' /\
    stopped (g_arr g) (no_wrap g (S (length l))) (~ ample (w_sys (d_world d))) d d' rest l'.
Proof.
  intros Hd Hg. destruct (queue_at_live (g_queue g) d R F Hd) as (l & Hl & Hn); [by eapply group_queue_live|].
  unfold service_group. rewrite Hg, Hn.
  destruct (service_loop_ok (S (length l)) ga (g_queue g) (g_arr g) d R F g l Hd Hg eq_refl eq_refl Hl ltac:(lia))
    as (log & rest & l' & H1 & H2 & H3 & H4 & H5). exists l, log, rest, l'. split_and!; done.
Qed.

Lemma service_pending_ok q d R F : disp_ok d (q :: R) F -> disp_ok (service_pending d q) R F.
Proof.
  intros Hd. unfold service_pending. apply disp_drop. pose proof (do_wired _ _ _ Hd) as Hwi.
  rewrite pm_get_spec by apply Hwi. destruct (pm_map _ !! _) as [ga|] eqn:Ek; [|done].
  destruct (wi_groups _ Hwi _ _ Ek) as [g Hg]. rewrite Hg. destruct (0 <? _)%nat; [|done].
  destruct (service_group_ok ga g d _ F Hd Hg) as (l & log & rest & l' & _ & _ & _ & H & _). exact H.
Qed.

Lemma service_all_ok l : forall d R F, disp_ok d (l ++ R) F -> disp_ok (foldl service_pending d l) R F.
Proof. induction l as [|q l IH]; intros d R F Hd; [done|]. cbn [foldl]. by apply IH, service_pending_ok. Qed.

(** The pending list handed over to [on_async]. *)
Lemma detach_ok d R F :
  disp_ok d R F ->
  let d1 := d <| d_pending := [] |> <| d_cap_pending := 0%nat |> <| d_async_sent := false |> in disp_ok d1 (d_pending d ++ R) F.
Proof.
  intros [Hwi Hw Hh] d1. constructor; [by eapply wired_same | | done].
  eapply world_ok_proper; [..|exact Hw]; [|done]. unfold d_refs. simpl. solve_perm.
Qed.

Lemma on_async_ok d R F : disp_ok d R F -> disp_ok (on_async d) R F.
Proof. intros Hd. unfold on_async. apply service_all_ok. by apply detach_ok. Qed.

Lemma unref_at p x d R F :
  disp_ok d (p :: R) F -> x <> p \/ x ∈ owned_refs (d_world d) ++ d_refs d ++ R -> q_at (d_unref p d) x = q_at d x.
Proof.
  intros Hd Hx. unfold q_at. change (d_store (d_unref p d)) with (qp_unref p (d_store d)). destruct (decide (x = p)) as [->|Hne].
  - pose proof (wo_store _ _ _ (do_world _ _ _ Hd)) as Hst. rewrite <- !Permutation_middle in Hst.
    destruct (qp_unref_ok _ _ _ _ Hst) as (_ & _ & _ & Hv). destruct Hx as [|Hx]; [done|]. specialize (Hv p ltac:(set_solver)).
    change (contents <$> st_queues (qp_unref p (d_store d)) !! p) with (contents <$> st_queues (qp_unref p (w_store (d_world d))) !! p).
    unfold d_store. destruct (st_queues (qp_unref p _) !! p), (st_queues (w_store (d_world d)) !! p); try done. by injection Hv as E _; cbn; rewrite E.
  - unfold qp_unref. destruct (st_queues (d_store d) !! p) as [q|]; [|done]. destruct (queue_unref q _) as [[q'|] s]; cbn;
      by rewrite ?lookup_insert_ne, ?lookup_delete_ne.
Qed.

(** * The other events *)

Lemma watermark_ok p d R F : disp_ok d R F -> p ∈ owned_refs (d_world d) ++ d_refs d ++ R ->
  disp_ok (replicate_watermark p d) R F /\ moved d (replicate_watermark p d).
Proof.
  intros Hd Hp. destruct (replicate_watermark_ok p d _ _ (do_world _ _ _ Hd) Hp) as (Hw & Hm & Hc).
  split; [|done]. eapply disp_same; [done | by apply moved_wires | | apply Hc]. rewrite Hm in *. exact Hw.
Qed.

Lemma consume_timer_ok d R F : disp_ok d R F -> disp_ok (consume_timer_cb d) R F.
Proof.
  intros Hd. unfold consume_timer_cb. destruct (negb _); [done|].
  assert (Hall : forall cp, cp ∈ d_consumers d -> is_Some (d_cobjs d !! cp)) by (intros cp; apply (wi_dom _ (do_wired _ _ _ Hd))).
  revert Hall. generalize (d_consumers d) as l. intros l. revert d Hd. induction l as [|cp l IH]; intros d Hd Hall; [done|].
  cbn [foldl]. destruct (Hall cp ltac:(set_solver)) as [c Hc]. rewrite Hc.
  destruct (watermark_ok (cs_queue c) d R F Hd) as [Hd1 Hm]; [by eapply consumer_queue_live|].
  apply IH; [done|]. intros x Hx. rewrite Hm. apply Hall. set_solver.
Qed.

Lemma note_pull_ok q cid d R F :
  disp_ok d R F -> 0 <= cid < 2 ^ 64 -> q ∈ owned_refs (d_world d) ++ d_refs d ++ R -> disp_ok (dispatcher_note_pull q cid d) R F.
Proof.
  intros Hd Hcid Hq. unfold dispatcher_note_pull. destruct (_ || _); [done|].
  destruct (d_on_queue_ok q d _ _ (do_world _ _ _ Hd) Hq tt
    (fun q s => let '(q, s) := queue_consume_on_deliver cid true q s in (tt, q, s)) (fun _ => d_msgs d ++ F))
    as (x & a & q' & s' & _ & _ & -> & Hw' & Hc); [intros; by apply op_on_deliver|].
  apply watermark_ok.
  - eapply disp_same; [done | done | exact Hw' | apply Hc].
  - change (d_world (d <| d_world ::= set_queue q q' s' |>)) with (set_queue q q' s' (d_world d)). by rewrite (calm_refs _ _ Hc).
Qed.

Lemma heap_id f d : f (s_heap (w_sys (d_world d))) = s_heap (w_sys (d_world d)) -> d_heap f d = d.
Proof.
  unfold d_heap, w_heap, w_sys, update_field. destruct d as [self w ? ? ? ? ? ? ? ? ? ? ? ? ? ? ? ? ?]. cbn.
  destruct w as [st ? ? ? ? ? ?]; destruct st as [sy ? ?]; destruct sy; cbn. by intros ->.
Qed.

(** The connection whose oldest write is done. *)
Lemma write_done_ok conn cn cn' ref d R F :
  disp_ok d R F -> d_conns d !! conn = Some cn -> cn_writes cn = ref :: cn_writes cn' -> flags cn' = flags cn ->
  disp_ok ((d_heap (message_unref ref) d) <| d_conns ::= <[conn := cn']> |>) R F.
Proof.
  intros [Hwi Hw Hh] Hcn Ew Ecl.
  set (F1 := gather (fun c => (cs_unacked c).*2) (d_cobjs d) ++
             gather (fun cn => omap id (cn_writes cn)) (delete conn (d_conns d))).
  assert (Hw0 : world_ok (d_world d) (d_refs d ++ R) (option_list ref ++ omap id (cn_writes cn') ++ F1 ++ F)).
  { eapply world_ok_proper; [..|exact Hw]; [done|]. unfold d_msgs. rewrite (gather_split _ _ _ _ Hcn), Ew. unfold F1.
    destruct ref; simpl; solve_perm. }
  assert (Hw1 : world_ok (d_world (d_heap (message_unref ref) d)) (d_refs d ++ R) (omap id (cn_writes cn') ++ F1 ++ F)).
  { destruct ref as [m|]; [|by rewrite heap_id]. by destruct (d_unref_msg_ok m d _ _ Hw0) as (Hw1 & _). }
  assert (Hwh : wired (d_heap (message_unref ref) d)) by (by eapply wired_same).
  constructor; [by eapply wired_set_conn | | exact Hh].
  eapply world_ok_proper; [..|exact Hw1]; [done|]. unfold d_msgs, F1. simpl. rewrite gather_insert. solve_perm.
Qed.

Lemma on_write_ok conn size d R F :
  disp_ok d R F -> is_Some (d_conns d !! conn) -> disp_ok (on_write conn size d) R F.
Proof.
  intros Hd [cn Hcn]. unfold on_write. rewrite Hcn. unfold on_write_done. destruct (cn_writes cn) as [|ref rest] eqn:Ew.
  { rewrite heap_id by done. by eapply disp_set_conn. }
  destruct (_ && _); [apply resume_conn_ok|]; by eapply write_done_ok.
Qed.

Lemma publish_ok vhost exn rk body d R F :
  disp_ok d R F ->
  exists rc w', (forall fuel, (route_fuel (d_world d) <= fuel)%nat -> broker_publish fuel vhost exn rk body (d_world d) = Some (rc, w')) /\
    disp_ok (take_wakeups (d <| d_world := w' |>)) R F.
Proof.
  intros Hd. destruct (publish_good vhost exn rk body (d_world d) _ _ (do_world _ _ _ Hd)) as (rc & w' & Hrun & Hw' & Hr & Hk & Ho).
  exists rc, w'. split; [done|]. pose proof Hd as [Hwi Hw Hh]. set (d1 := d <| d_world := w' |>).
  set (R0 := gather (fun g => [g_queue g]) (d_gobjs d) ++ gather (fun c => [cs_queue c]) (d_cobjs d) ++ R).
  assert (HR : d_refs d ++ R ≡ₚ d_pending d ++ R0) by (unfold d_refs, R0; solve_perm). rewrite HR in Hw'.
  destruct (take_wakeups_ok d1 R0 (d_msgs d ++ F) Hw') as (Hw2 & Hs2 & _ & _ & _ & Hh2 & _); [by eapply woken_audible|].
  set (d2 := take_wakeups d1) in *. injection Hs2 as E0 E1 E2 E3 E4 E5 E6 E7.
  constructor; [eapply wired_same; [exact Hwi|]; unfold same_wires; congruence | | exact Hh2].
  eapply world_ok_proper; [..|exact Hw2]; unfold d_refs, d_msgs, R0; rewrite ?E1, ?E3, ?E4; [solve_perm | done].
Qed.

(** * The end *)

Lemma destroy_all_ok n : forall d R F,
  disp_ok d R F -> (length (d_consumers d) <= n)%nat ->
  let d' := destroy_all n d in disp_ok d' R F /\ d_consumers d' = [] /\ d_conns d' = d_conns d.
Proof.
  induction n as [|n IH]; intros d R F Hd Hn; cbn [destroy_all].
  - destruct (d_consumers d); [done | cbn [length] in Hn; lia].
  - destruct (d_consumers d) as [|cp l] eqn:El; [done|]. pose proof (do_wired _ _ _ Hd) as Hwi.
    destruct (proj1 (wi_dom _ Hwi cp)) as [c Hc]; [rewrite El; set_solver|].
    destruct (consumer_destroy_ok cp false d R F c Hd Hc) as (g & _ & Hd1 & Hu & _). set (d1 := consumer_destroy cp false d) in *.
    assert (El1 : d_consumers d1 = l).
    { rewrite (ul_list _ _ _ _ _ Hu), El. pose proof (wi_list _ Hwi) as Hnd. rewrite El in Hnd. apply NoDup_cons in Hnd as [Hni _].
      rewrite filter_cons_False by (intros H; by apply H). apply list_filter_all. apply Forall_forall. intros x Hx ->. done. }
    destruct (IH d1 R F Hd1) as (H1 & H2 & H3); [rewrite El1; cbn [length] in Hn; lia|].
    split_and!; [done | done | by rewrite H3, (ul_conns _ _ _ _ _ Hu)].
Qed.

Definition group_refs d : list positive := gather (fun g => [g_queue g]) (d_gobjs d).

Lemma free_groups_ok l : forall d R F,
  world_ok (d_world d) (group_refs d ++ R) F -> NoDup l -> (forall ga, ga ∈ l <-> is_Some (d_gobjs d !! ga)) ->
  let d' := foldl free_group_value d l in
  world_ok (d_world d') R F /\ d_gobjs d' = ∅ /\
  (d_fault d', d_cobjs d', d_pending d', d_conns d') = (d_fault d, d_cobjs d, d_pending d, d_conns d).
Proof.
  induction l as [|ga l IH]; intros d R F Hw Hnd Hl; cbn [foldl].
  - assert (E : d_gobjs d = ∅).
    { apply map_empty. intros ga. destruct (d_gobjs d !! ga) as [g|] eqn:Hg; [|done]. assert (H : ga ∈ []) by (apply Hl; eauto). by apply elem_of_nil in H. }
    unfold group_refs in Hw. rewrite E in Hw. done.
  - apply NoDup_cons in Hnd as [Hni Hnd]. destruct (proj1 (Hl ga)) as [g Hg]; [set_solver|].
    assert (Hw0 : world_ok (d_world d) (g_queue g :: gather (fun g => [g_queue g]) (delete ga (d_gobjs d)) ++ R) F).
    { eapply world_ok_proper; [..|exact Hw]; [|done]. unfold group_refs. rewrite (gather_split _ _ _ _ Hg). solve_perm. }
    destruct (d_unref_ok (g_queue g) d _ _ Hw0) as (Hw1 & Hm & _ & _).
    set (d1 := (d_unref (g_queue g) d) <| d_gobjs ::= delete ga |>).
    assert (E1 : free_group_value d ga = d1) by (unfold free_group_value; by rewrite Hg). rewrite E1.
    destruct (IH d1 R F) as (H1 & H2 & H3); [| done | | split_and!; [exact H1 | exact H2 | rewrite H3; done]].
    + exact Hw1.
    + intros x. simpl. rewrite lookup_delete_is_Some, <- Hl. set_solver.
Qed.

Lemma drop_pending_ok l : forall d R F,
  world_ok (d_world d) (l ++ R) F -> let d' := foldl (fun d q => d_unref q d) d l in
  world_ok (d_world d') R F /\ moved d d'.
Proof.
  induction l as [|q l IH]; intros d R F Hw; cbn [foldl]; [split; auto using moved_refl|].
  destruct (d_unref_ok q d _ _ Hw) as (Hw1 & Hm & _). destruct (IH _ R F Hw1) as [H1 H2].
  split; [done | by eapply moved_trans].
Qed.

Lemma dispatcher_free_ok d R F :
  disp_ok d R F -> let d' := dispatcher_free d in
  world_ok (d_world d') R (gather (fun cn => omap id (cn_writes cn)) (d_conns d) ++ F) /\
  d_cobjs d' = ∅ /\ d_gobjs d' = ∅ /\ d_pending d' = [] /\ d_conns d' = d_conns d /\ d_fault d' = false.
Proof.
  intros Hd. unfold dispatcher_free. set (d0 := d <| d_tearing_down := true |>).
  assert (Hd0 : disp_ok d0 R F) by (by eapply disp_field).
  destruct (destroy_all_ok (length (d_consumers d0)) d0 R F Hd0 (le_n _)) as (Hd1 & El & Ec). set (d1 := destroy_all _ _) in *.
  pose proof Hd1 as [Hwi Hw _]. assert (E0 : d_cobjs d1 = ∅).
  { apply map_empty. intros cp. destruct (d_cobjs d1 !! cp) as [c|] eqn:Hc; [|done].
    assert (H : cp ∈ d_consumers d1) by (apply Hwi; eauto). rewrite El in H. by apply elem_of_nil in H. }
  pose proof (pm_elems_spec _ (wi_map _ Hwi)) as Hel.
  destruct (free_groups_ok (snd <$> pm_elems (d_groups d1)) d1 (d_pending d1 ++ R) (d_msgs d1 ++ F)) as (Hw2 & Eg2 & Ex2).
  - eapply world_ok_proper; [..|exact Hw]; [|done]. unfold d_refs, group_refs. rewrite E0. simpl. solve_perm.
  - rewrite Hel. apply NoDup_fmap_2_strong; [|apply NoDup_map_to_list]. intros [k1 a] [k2 b] H1 H2 E. simpl in E. subst b.
    apply elem_of_map_to_list in H1, H2. f_equal. by eapply wi_inj.
  - intros ga. rewrite Hel, list_elem_of_fmap. split.
    + intros ([k x] & -> & Hx%elem_of_map_to_list). by eapply wi_groups.
    + intros [g Hg]. destruct (wi_registered _ Hwi ga g Hg) as [k Hk]. exists (k, ga). split; [done | by apply elem_of_map_to_list].
  - set (d2 := foldl free_group_value _ _) in *. injection Ex2 as F1 F2 F3 F4. rewrite <- F3 in Hw2.
    destruct (drop_pending_ok (d_pending d2) d2 R _ Hw2) as (Hw3 & Hm3). set (d3 := foldl _ d2 _) in *.
    split_and!; try (rewrite Hm3; simpl; congruence).
    + change (d_world (d3 <| d_pending := [] |>)) with (d_world d3). eapply world_ok_proper; [..|exact Hw3]; [done|].
      unfold d_msgs. rewrite E0, Ec. done.
    + rewrite Hm3. simpl. by rewrite F4, Ec.
    + rewrite Hm3. simpl. rewrite F1. apply Hwi.
Qed.

(** * Events *)

(** What happens to a worker: a connection, the calls of the protocol and of the
    network layer, the wakeup of the loop, the timer. *)
Inductive event :=
  | Accept (conn : positive) (frame_max : Z)
  | Publish (vhost : bytes) (exchange routing_key : option bytes) (body : bytes)
  | Consume (conn : positive) (channel : Z) (tag vhost queue : bytes) (no_ack : bool) (prefetch : Z)
  | Ack (conn : positive) (channel tag : Z) (multiple : bool)
  | Nack (conn : positive) (channel tag : Z) (multiple back : bool)
  | Qos (conn : positive) (channel prefetch : Z)
  | Cancel (conn : positive) (channel : Z) (tag : bytes)
  | CloseChannel (conn : positive) (channel : Z)
  | CloseConn (conn : positive)
  | WriteDone (conn : positive) (size : Z)
  | Wakeup
  | Timer
  | Pulled (vhost queue : bytes) (cid : Z)
  | SetCluster (on : bool).

(** The calls that a connection makes presuppose it; one that is being closed does
    not subscribe. *)
Definition possible (e : event) d : bool :=
  match e with
  | Consume conn _ _ _ _ _ _ => match d_conns d !! conn with Some cn => negb (shut cn) | None => false end
  | CloseConn conn | WriteDone conn _ => bool_decide (is_Some (d_conns d !! conn))
  | Accept conn _ => bool_decide (d_conns d !! conn = None)
  | _ => true
  end.

Definition handle (e : event) d : option (dispatcher M) :=
  match e with
  | Accept conn fmax => Some (d <| d_conns ::= <[conn := conn_zero <| cn_frame_max := fmax |>]> |>)
  | Publish vhost exn rk body =>
      '(_, w) ← broker_publish (route_fuel (d_world d)) vhost exn rk body (d_world d); Some (take_wakeups (d <| d_world := w |>))
  | Consume conn ch tag vhost q no_ack pre => Some (snd (dispatcher_add_consumer conn ch tag vhost q no_ack pre d))
  | Ack conn ch tag multiple => dispatcher_ack (settle_fuel d) conn ch tag multiple d
  | Nack conn ch tag multiple back => dispatcher_nack (settle_fuel d) conn ch tag multiple back d
  | Qos conn ch pre => Some (dispatcher_set_prefetch conn ch pre d)
  | Cancel conn ch tag => Some (dispatcher_cancel conn ch tag d)
  | CloseChannel conn ch => Some (dispatcher_remove_channel conn ch d)
  | CloseConn conn => Some (drop_conn conn d)
  | WriteDone conn size => Some (on_write conn size d)
  | Wakeup => Some (on_async d)
  | Timer => Some (consume_timer_cb d)
  | Pulled vhost q cid =>
      match broker_get_queue vhost q (d_world d) with
      | (Some p, w) => Some (d_unref p (dispatcher_note_pull p (u64 cid) (d <| d_world := w |>)))
      | (None, w) => Some (d <| d_world := w |>)
      end
  | SetCluster on => Some (dispatcher_set_cluster on d)
  end.

(** A whole run; an event that cannot happen is skipped. *)
Fixpoint run (es : list event) d : option (dispatcher M) :=
  match es with
  | [] => Some d
  | e :: es => if possible e d then d' ← handle e d; run es d' else run es d
  end.

Lemma accept_ok conn fmax d R F :
  disp_ok d R F -> d_conns d !! conn = None -> disp_ok (d <| d_conns ::= <[conn := conn_zero <| cn_frame_max := fmax |>]> |>) R F.
Proof.
  intros [Hwi Hw Hh] Hn. constructor; [| |done].
  - destruct Hwi as [H1 H2 H3 H4 H5 H6 H7 H8 H9 H10 H11]. constructor; try done. intros cp c Hc.
    destruct (H10 cp c Hc) as (B1 & B2 & (cn0 & B3 & B5) & B4). split_and!; try done. exists cn0. split; [|done]. simpl.
    rewrite lookup_insert_ne; [done | congruence].
  - eapply world_ok_proper; [..|exact Hw]; [done|]. unfold d_msgs. simpl. rewrite gather_insert, delete_id by done. simpl. solve_perm.
Qed.

Lemma settle_ok conn channel tag multiple back rejected d R F :
  disp_ok d R F -> exists n d', settle_unacked (settle_fuel d) conn channel tag multiple back rejected d = Some (n, d') /\ disp_ok d' R F.
Proof.
  intros Hd. destruct (settle_spec conn channel tag multiple back rejected d R F Hd) as (S & d' & Hrun & Hd' & _). eauto.
Qed.

Lemma pulled_ok vhost q cid d R F :
  disp_ok d R F -> exists d', handle (Pulled vhost q cid) d = Some d' /\ disp_ok d' R F.
Proof.
  intros Hd. cbn [handle]. destruct (broker_get_queue vhost q (d_world d)) as [r w] eqn:E.
  destruct (get_queue_ok _ _ _ _ _ _ _ Hd E) as (Hd1 & _). destruct r as [p|]; eexists; (split; [done|]); [|done].
  apply disp_drop, note_pull_ok; [done | u64_lia | set_solver].
Qed.

Lemma handle_ok e d R F : disp_ok d R F -> possible e d = true -> exists d', handle e d = Some d' /\ disp_ok d' R F.
Proof.
  intros Hd Hp. destruct e; cbn [possible] in Hp; try apply bool_decide_eq_true in Hp; [..|by apply pulled_ok|]; cbn [handle].
  - eexists. split; [done | by apply accept_ok].
  - destruct (publish_ok vhost exchange routing_key body d R F Hd) as (rc & w' & Hrun & Hd'). rewrite Hrun by done.
    eexists. split; [done | exact Hd'].
  - eexists. split; [done|]. destruct (dispatcher_add_consumer _ _ _ _ _ _ _ d) as [rc d'] eqn:E.
    destruct (d_conns d !! conn) as [cn|] eqn:Hcn; [|done]. apply negb_true_iff in Hp.
    by eapply add_consumer_ok in E as [H _]; [|done | exists cn].
  - destruct (settle_ok conn channel tag multiple false false d R F Hd) as (n & d' & E & Hd').
    unfold dispatcher_ack. rewrite E. eexists. split; [done | exact Hd'].
  - destruct (settle_ok conn channel tag multiple back (negb back) d R F Hd) as (n & d' & E & Hd').
    unfold dispatcher_nack. rewrite E. eexists. split; [done | exact Hd'].
  - eexists. split; [done | by apply set_prefetch_ok].
  - eexists. split; [done | by apply cancel_ok].
  - eexists. split; [done | by apply remove_channel_ok].
  - eexists. split; [done | by apply conn_close_ok].
  - eexists. split; [done | by apply on_write_ok].
  - eexists. split; [done | by apply on_async_ok].
  - eexists. split; [done | by apply consume_timer_ok].
  - eexists. split; [done|]. unfold dispatcher_set_cluster. destruct (_ && _); by eapply disp_field.
Qed.

Lemma run_ok es : forall d R F, disp_ok d R F -> exists d', run es d = Some d' /\ disp_ok d' R F.
Proof.
  induction es as [|e es IH]; intros d R F Hd; [by exists d|]. cbn [run]. destruct (possible e d) eqn:Hp; [|by apply IH].
  destruct (handle_ok e d R F Hd Hp) as (d1 & -> & Hd1). cbn. by apply IH.
Qed.

Lemma dispatcher_new_ok self w n d n' R F :
  world_ok w R F -> Forall (fun x => x.1 <> (WAITER_FN, self)) (w_wakeups w) ->
  dispatcher_new self w n ∅ = (Some d, n') -> disp_ok d R F.
Proof.
  intros Hw Hh. unfold dispatcher_new. destruct (n_malloc n) as [[] n1]; [|done]. cbn [negb].
  pose proof (pm_new_ok (n_oracle n1)) as Hnew. destruct (pm_new (n_oracle n1)) as [[m|] o]; [|done].
  destruct (Hnew m eq_refl) as [Hm Hmap]. destruct (n_malloc _) as [[] n2]; [|done]. cbn [negb].
  destruct (n_malloc n2) as [[] n3]; [|done]. cbn [negb]. intros [= <- _].
  constructor; [|done | done]. constructor; simpl; try done; rewrite ?Hmap.
  - constructor.
  - intros cp. rewrite lookup_empty, elem_of_nil. split; [done | by intros [? [=]]].
  - intros k ga Hk. by rewrite lookup_empty in Hk.
  - intros k1 k2 ga Hk. by rewrite lookup_empty in Hk.
Qed.
End Run.
