(* ===== verification/DispatchWake.v ===== *)
(** The wakeup of a worker: every group that a pending queue leads to is serviced, and
    what the servicing of one group achieves is not undone by that of the others. *)

From S2P Require Import Prelude Tables Frame HashMap Message Queue Store Exchange Broker BrokerRoute BrokerSpec BrokerDelivery Net Dispatch DispatchInv DispatchOps DispatchDraw DispatchServe DispatchRun.

(** * The names of the queues *)

Definition q_names (q : queue) : option bytes * bytes := (q_vhost q, q_name q).

Lemma congestion_names q s q' s' : queue_update_congestion q s = (q', s') -> q_names q' = q_names q.
Proof. unfold queue_update_congestion. repeat (destruct (_ && _)); by intros [= <- _]. Qed.

Lemma dequeue_names q s : q_names (queue_dequeue q s).1.2 = q_names q.
Proof.
  unfold queue_dequeue. destruct (0 <? _)%nat; [|done]. destruct (slot q _); [|done].
  destruct (queue_update_congestion _ s) as [q1 s1] eqn:E. by apply congestion_names in E.
Qed.

Lemma requeue_names q m s : q_names (queue_requeue_internal q m s).1.2 = q_names q.
Proof.
  unfold queue_requeue_internal, make_room, queue_grow, push_tail.
  destruct (_ =? _)%nat; [destruct (s_malloc s) as [[] s1]; [|done]|];
    (match goal with |- context [queue_update_congestion ?q ?s] => destruct (queue_update_congestion q s) as [q2 s2] eqn:E end);
    by apply congestion_names in E.
Qed.

Lemma on_deliver_names cid no_ack q s : q_names (queue_consume_on_deliver cid no_ack q s).1 = q_names q.
Proof.
  unfold queue_consume_on_deliver, record_unacked, raise_deliver_hi, grow_unacked. destruct (cid =? 0); [done|].
  destruct no_ack; [by repeat case_match|]. destruct (_ && _); [by repeat case_match|].
  destruct (_ =? _)%nat; [destruct (s_malloc s) as [[] s1]|]; destruct (_ <? _)%nat; simpl; by repeat case_match.
Qed.

Section Wake.
Context {M : Type} `{!PtrMap M} `{!PtrMapLaws M}.
Implicit Types (w : world M) (d : dispatcher M).

Definition names d (x : positive) : option (option bytes * bytes) := q_names <$> st_queues (d_store d) !! x.

Definition named d d' : Prop := forall x, names d' x = names d x.

Lemma named_trans d1 d2 d3 : named d1 d2 -> named d2 d3 -> named d1 d3.
Proof. intros H1 H2 x. by rewrite H2, H1. Qed.

Lemma on_queue_named {A} (dflt : A) p f d :
  (forall q s, q_names (f q s).1.2 = q_names q) -> named d (snd (d_on_queue dflt p f d)).
Proof.
  intros Hf x. unfold d_on_queue, on_queue, names. destruct (st_queues (d_store d) !! p) as [q|] eqn:Hq; [|done].
  specialize (Hf q (st_sys (d_store d))). destruct (f q _) as [[a q'] s']. simpl in Hf.
  unfold d_store in *. simpl. destruct (decide (x = p)) as [->|]; [by rewrite lookup_insert_eq, Hq; simpl; rewrite Hf | by rewrite lookup_insert_ne].
Qed.

Lemma pick_world tries ga : forall d, d_world (snd (pick_consumer tries ga d)) = d_world d.
Proof.
  induction tries as [|tries IH]; intros d; [done|]. cbn [pick_consumer]. destruct (d_gobjs d !! ga) as [g|]; [|done].
  destruct (_ ≫= _) as [[[cp c] cn]|]; [|done]. destruct (cn_closing cn); [by rewrite IH|]. destruct (_ || _); [by rewrite IH|].
  destruct (_ && _); [by rewrite IH|]. destruct (cs_no_ack c); [done|]. destruct (consumer_reserve_unacked c _) as [[[] c1] n]; [done | by rewrite IH].
Qed.

Lemma record_named cp tag m d : named d (record_delivery cp tag m d).
Proof.
  unfold record_delivery. destruct (d_cobjs d !! cp) as [c|]; [|done].
  match goal with |- named _ (snd (d_on_queue _ _ _ ?x)) => apply (named_trans d x) end.
  - destruct (cs_no_ack c); [done|]. by destruct (consumer_add_unacked _ _ _ _ _) as [[[? ?] ?] ?].
  - apply on_queue_named. intros q s. pose proof (on_deliver_names (m_cluster_id m) (cs_no_ack c) q s) as H. by destruct (queue_consume_on_deliver _ _ q s).
Qed.

Lemma deliver_named cp m d : named d (snd (deliver cp m d)).
Proof.
  unfold deliver. destruct (_ ≫= _) as [[c cn]|]; [|done]. destruct (send_message _ _ _ _ _ _ _) as [[[sent cn'] n] h].
  destruct (sent =? 0); [|done]. cbn [snd]. eapply named_trans; [|apply record_named]. done.
Qed.

Lemma service_loop_named fuel ga : forall d, named d (service_loop fuel ga d).
Proof.
  induction fuel as [|fuel IH]; intros d; [done|]. cbn [service_loop]. destruct (d_gobjs d !! ga) as [g|]; [|done].
  destruct (_ =? _)%nat; [done|]. pose proof (pick_world (length (g_arr g)) ga d) as Hw.
  destruct (pick_consumer _ ga d) as [r d1]. simpl in Hw. assert (H1 : named d d1) by (intros x; unfold names, d_store; by rewrite Hw).
  destruct r as [cp|]; [|done]. pose proof (on_queue_named None (g_queue g) queue_dequeue d1 dequeue_names) as H2.
  destruct (d_on_queue None (g_queue g) queue_dequeue d1) as [[msg|] d2]; cbn [snd] in *; [|by eapply named_trans].
  pose proof (deliver_named cp msg d2) as H3. destruct (deliver cp msg d2) as [rc d3]. cbn [snd] in H3.
  pose proof (named_trans _ _ _ H1 (named_trans _ _ _ H2 H3)) as H. destruct (rc =? 0).
  - eapply named_trans; [exact H|]. exact (IH (d_heap (message_unref (Some msg)) d3)).
  - eapply named_trans; [exact H|]. apply (on_queue_named (-1) (g_queue g) (fun q s => queue_requeue_internal q msg s)). intros. apply requeue_names.
Qed.

(** The last reference of the loop may free the queue; no other one is affected. *)
Lemma unref_names p x d R F :
  disp_ok d (p :: R) F -> x <> p \/ x ∈ R -> names (d_unref p d) x = names d x.
Proof.
  intros Hd Hx. pose proof (wo_store _ _ _ (do_world _ _ _ Hd)) as Hst. rewrite <- !Permutation_middle in Hst. unfold names.
  change (d_store (d_unref p d)) with (qp_unref p (d_store d)). unfold qp_unref, d_store.
  destruct (st_queues (w_store (d_world d)) !! p) as [q|] eqn:Hq; [|done]. destruct (decide (x = p)) as [->|Hne].
  - destruct Hx as [|Hx]; [done|]. destruct (so_refs _ _ _ Hst p q Hq) as [Hr _]. rewrite refs_to_cons, decide_True in Hr by done.
    assert (0 < refs_to p (owned_refs (d_world d) ++ d_refs d ++ R))%nat by (apply refs_to_pos; set_solver).
    unfold queue_unref. destruct (Z.eqb_spec (q_refcount q) 1) as [E|_]; [lia|]. simpl. by rewrite lookup_insert_eq, Hq.
  - destruct (queue_unref q _) as [[q'|] s]; simpl; by rewrite ?lookup_insert_ne, ?lookup_delete_ne.
Qed.

(** * What the servicing of other groups leaves alone *)

(** The group that the queue at [p] leads to. *)
Definition group_for d (p : positive) : option positive :=
  pm_map (d_groups d) !! broker_vkey (Some (d_at_queue [] p queue_vhost d)) (Some (d_at_queue [] p queue_name d)).

Lemma group_for_same d d' p : d_groups d' = d_groups d -> names d' p = names d p -> group_for d' p = group_for d p.
Proof.
  intros Eg En. unfold group_for, d_at_queue, at_queue. rewrite Eg. unfold names in En.
  destruct (st_queues (d_store d') !! p) as [q'|], (st_queues (d_store d) !! p) as [q|]; try done. injection En as E1 E2.
  unfold queue_vhost, queue_name. by rewrite E1, E2.
Qed.

(** From [d] to [d'] the group at [ga], with the queue at [q] and the members [arr], was
    not serviced. *)
Record aside (ga q : positive) (arr : list positive) d d' : Prop := Aside {
  as_groups : d_groups d' = d_groups d;
  as_group : d_gobjs d' !! ga = d_gobjs d !! ga;
  as_shape : forall x, (fun g => (g_queue g, g_arr g)) <$> d_gobjs d' !! x = (fun g => (g_queue g, g_arr g)) <$> d_gobjs d !! x;
  as_pending : d_pending d' = d_pending d;
  as_queue : q_at d' q = q_at d q;
  as_members : forall cp, cp ∈ arr -> d_cobjs d' !! cp = d_cobjs d !! cp;
  as_conns : forall k cn, d_conns d !! k = Some cn ->
    exists cn', d_conns d' !! k = Some cn' /\ cn_closing cn' = cn_closing cn /\ (cn_send_paused cn = true -> cn_send_paused cn' = true);
  as_net : drew (d_net d) (d_net d');
  as_ample : ample (w_sys (d_world d)) -> ample (w_sys (d_world d'))
}.

Lemma aside_trans ga q arr d1 d2 d3 : aside ga q arr d1 d2 -> aside ga q arr d2 d3 -> aside ga q arr d1 d3.
Proof.
  intros [A1 A2 A3 A4 A5 A6 A7 A8 A9] [B1 B2 B3 B4 B5 B6 B7 B8 B9]. constructor;
    [congruence | congruence | intros x; by rewrite B3, A3 | congruence | congruence | intros cp Hcp; by rewrite B6, A6 | | by eapply drew_trans | auto].
  intros k cn (cn1 & H1 & E1 & P1)%A7. destruct (B7 _ _ H1) as (cn2 & H2 & E2 & P2). exists cn2. split_and!; [done | congruence | auto].
Qed.

(** The loop gives up its reference. *)
Lemma aside_unref ga q arr p d R F :
  disp_ok d (p :: R) F -> q ∈ owned_refs (d_world d) ++ d_refs d ++ R -> aside ga q arr d (d_unref p d).
Proof.
  intros Hd Hq. pose proof (do_world _ _ _ Hd) as Hw. rewrite <- Permutation_middle in Hw. destruct (d_unref_ok p d _ _ Hw) as (_ & _ & Hc).
  constructor; try done; [apply (unref_at p q d R F Hd); by right | simpl; eauto | apply Hc].
Qed.

(** Another group is serviced. *)
Lemma aside_serviced ga q arr gx g log d d' R F :
  disp_ok d R F -> d_gobjs d !! gx = Some g -> g_queue g <> q -> (forall g0, d_gobjs d !! ga = Some g0 -> g_queue g0 = q /\ g_arr g0 = arr) ->
  is_Some (d_gobjs d !! ga) -> serviced gx (g_queue g) (g_arr g) log d d' -> aside ga q arr d d'.
Proof.
  intros Hd Hg Hne Hq [g0 Hg0] Hs. destruct (Hq _ Hg0) as [Eq Ea]. clear Hq. subst q arr. assert (Hga : ga <> gx) by congruence.
  pose proof (sd_hub _ _ _ _ _ _ Hs) as [= _ E1 _ E2 _]. constructor; try done.
  - by apply (sd_groups _ _ _ _ _ _ Hs).
  - intros x. destruct (decide (x = gx)) as [->|Hx]; [|by rewrite (sd_groups _ _ _ _ _ _ Hs)].
    destruct (sd_group _ _ _ _ _ _ Hs g Hg) as [r ->]. by rewrite Hg.
  - apply (sd_queues _ _ _ _ _ _ Hs). congruence.
  - intros cp Hcp. apply (sd_others _ _ _ _ _ _ Hs). intros Hin.
    destruct (wi_group _ (do_wired _ _ _ Hd) _ _ Hg0) as (_ & _ & Hm0). destruct (wi_group _ (do_wired _ _ _ Hd) _ _ Hg) as (_ & _ & Hm).
    destruct (Hm0 _ Hcp) as (c0 & H0 & E0). destruct (Hm _ Hin) as (c1 & H1 & E3). congruence.
  - apply Hs.
  - apply Hs.
  - apply (sd_calm _ _ _ _ _ _ Hs).
Qed.

Lemma service_pending_named x y d R F : disp_ok d (x :: R) F -> y ∈ R -> names (service_pending d x) y = names d y.
Proof.
  intros Hd Hy. unfold service_pending. pose proof (do_wired _ _ _ Hd) as Hwi. rewrite pm_get_spec by apply Hwi.
  assert (H0 : names (d_unref x d) y = names d y) by (apply (unref_names x y d R F Hd); by right).
  destruct (pm_map _ !! _) as [ga|] eqn:Ek; [|done]. destruct (wi_groups _ Hwi _ _ Ek) as [g Hg]. rewrite Hg. destruct (0 <? _)%nat; [|done].
  destruct (service_group_ok ga g d _ F Hd Hg) as (l & log & rest & l' & _ & _ & _ & H & _).
  rewrite (unref_names x y _ R F H) by (by right). unfold service_group. rewrite Hg. apply service_loop_named.
Qed.

Lemma service_pending_aside ga g x d R F :
  disp_ok d (x :: R) F -> d_gobjs d !! ga = Some g ->
  (forall gx g', group_for d x = Some gx -> d_gobjs d !! gx = Some g' -> g_queue g' <> g_queue g) ->
  aside ga (g_queue g) (g_arr g) d (service_pending d x).
Proof.
  intros Hd Hg Hother. unfold service_pending. pose proof (do_wired _ _ _ Hd) as Hwi. rewrite pm_get_spec by apply Hwi.
  assert (H0 : aside ga (g_queue g) (g_arr g) d (d_unref x d)) by (eapply aside_unref; [done | by eapply group_queue_live]).
  fold (group_for d x). destruct (group_for d x) as [gx|] eqn:Ek; [|done]. destruct (wi_groups _ Hwi _ _ Ek) as [g' Hg']. rewrite Hg'.
  destruct (0 <? _)%nat; [|done]. destruct (service_group_ok gx g' d _ F Hd Hg') as (l & log & rest & l' & _ & _ & _ & Hd1 & Hs & _).
  assert (H1 : aside ga (g_queue g) (g_arr g) d (service_group gx d)).
  { eapply aside_serviced; [done | done | by apply (Hother gx) | | by eexists | exact Hs]. intros g0 Hg0. by simplify_eq. }
  eapply aside_trans; [exact H1|]. eapply aside_unref; [done|]. eapply group_queue_live. rewrite (as_group _ _ _ _ _ H1). exact Hg.
Qed.

(** The queues of a list that do not lead to the group are served. *)
Lemma service_all_aside ga g ps : forall d R F,
  disp_ok d (ps ++ R) F -> d_gobjs d !! ga = Some g ->
  (forall x gx g', x ∈ ps -> group_for d x = Some gx -> d_gobjs d !! gx = Some g' -> g_queue g' <> g_queue g) ->
  let d' := foldl service_pending d ps in
  disp_ok d' R F /\ aside ga (g_queue g) (g_arr g) d d' /\ forall y, y ∈ R -> names d' y = names d y.
Proof.
  induction ps as [|x ps IH]; intros d R F Hd Hg Hother.
  { split_and!; [done | | done]. constructor; try done. simpl. eauto. }
  cbn [foldl]. pose proof (service_pending_aside ga g x d (ps ++ R) F Hd Hg ltac:(set_solver)) as H1.
  pose proof (service_pending_named x) as Hn. set (d1 := service_pending d x) in *.
  destruct (IH d1 R F) as (Hd' & H2 & H3).
  - by apply service_pending_ok.
  - by rewrite (as_group _ _ _ _ _ H1).
  - intros y gy g' Hy Ey Hgy. rewrite (group_for_same d d1 y) in Ey by (apply H1 || (apply (Hn y d (ps ++ R) F Hd); set_solver)).
    pose proof (as_shape _ _ _ _ _ H1 gy) as Hsh. rewrite Hgy in Hsh. destruct (d_gobjs d !! gy) as [g2|] eqn:Hg2; [|done]. injection Hsh as -> _.
    apply (Hother y gy); [set_solver | done | done].
  - split_and!; [done | by eapply aside_trans |]. intros y Hy. rewrite H3 by done. apply (Hn y d (ps ++ R) F Hd). set_solver.
Qed.

(** * The wakeup *)

(** From [d] to [d'] the members [arr] of a group got the deliveries [log]. *)
Record handed (arr : list positive) (log : list (positive * Z * message)) d d' : Prop := Handed {
  hd_members : forall x, x ∈ log -> x.1.1 ∈ arr;
  hd_consumers : forall cp c, cp ∈ arr -> d_cobjs d !! cp = Some c -> exists cap, d_cobjs d' !! cp = Some (after c (sent_to cp log) cap);
  hd_tags : exists t, forall i x, log !! i = Some x -> x.1.2 = u64 (t + 1 + Z.of_nat i);
  hd_prefetch : forall cp c c', cp ∈ arr -> d_cobjs d !! cp = Some c -> d_cobjs d' !! cp = Some c' -> cs_no_ack c = false -> cs_prefetch c <> 0 ->
    Z.of_nat (length (cs_unacked c')) <= Z.max (Z.of_nat (length (cs_unacked c))) (cs_prefetch c)
}.

Lemma handed_over ga q p arr log d d1 d2 d' :
  aside ga q arr d d1 -> serviced ga p arr log d1 d2 -> aside ga q arr d2 d' -> handed arr log d d'.
Proof.
  intros HA Hs HB. constructor.
  - apply Hs.
  - intros cp c Hcp Hc. rewrite (as_members _ _ _ _ _ HB) by done. apply (sd_consumers _ _ _ _ _ _ Hs). by rewrite (as_members _ _ _ _ _ HA).
  - eexists. apply (sd_tags _ _ _ _ _ _ Hs).
  - intros cp c c' Hcp Hc Hc'. rewrite (as_members _ _ _ _ _ HB) in Hc' by done. rewrite <- (as_members _ _ _ _ _ HA) in Hc by done.
    by apply (sd_prefetch _ _ _ _ _ _ Hs _ _ _ Hc Hc').
Qed.

Lemma stopped_aside ga q arr P Q d d1 d' rest l' : aside ga q arr d1 d' -> stopped arr P Q d d1 rest l' -> stopped arr P Q d d' rest l'.
Proof.
  intros HA [| |m rest' H1 H2 H3]; [by apply stop_empty | apply stop_blocked; [done|] | eapply stop_failed; [done | | done]].
  - intros HP cp Hcp. destruct (H0 HP cp Hcp) as [(c & cn & Hc & Hk & Hor)|(Hal & c & Hc & Hn)].
    + left. destruct (as_conns _ _ _ _ _ HA _ _ Hk) as (cn' & Hk' & E1 & E2). exists c, cn'. rewrite (as_members _ _ _ _ _ HA) by done.
      split_and!; [done | done |]. rewrite E1. naive_solver.
    + right. split; [eapply alloc_failed_within; [apply drew_refl | exact Hal | apply HA]|]. exists c. by rewrite (as_members _ _ _ _ _ HA).
  - eapply send_failed_within; [apply drew_refl | exact H2 | apply HA].
Qed.

Lemma serviced_shape ga p arr log d d' : serviced ga p arr log d d' ->
  is_Some (d_gobjs d !! ga) ->
  forall x, (fun g => (g_queue g, g_arr g)) <$> d_gobjs d' !! x = (fun g => (g_queue g, g_arr g)) <$> d_gobjs d !! x.
Proof.
  intros Hs [g Hg] x. destruct (decide (x = ga)) as [->|Hx]; [|by rewrite (sd_groups _ _ _ _ _ _ Hs)].
  destruct (sd_group _ _ _ _ _ _ Hs g Hg) as [r ->]. by rewrite Hg.
Qed.

(** The pending queue that leads to the group is served. *)
Lemma service_pending_serves p ga g d R F :
  disp_ok d (p :: R) F -> group_for d p = Some ga -> d_gobjs d !! ga = Some g -> g_arr g <> [] ->
  exists l log rest l' d2, let d' := service_pending d p in
    q_at d (g_queue g) = Some l /\ l = log.*2 ++ rest /\ q_at d2 (g_queue g) = Some l' /\ disp_ok d' R F /\
    serviced ga (g_queue g) (g_arr g) log d d2 /\ aside ga (g_queue g) (g_arr g) d2 d' /\
    stopped (g_arr g) (no_wrap g (S (length l))) (~ ample (w_sys (d_world d))) d d2 rest l'.
Proof.
  intros Hd Hfor Hg Hne. pose proof (service_pending_ok p d R F Hd) as Hd'.
  destruct (service_group_ok ga g d _ F Hd Hg) as (l & log & rest & l' & H1 & H2 & H3 & H4 & H5 & H6).
  exists l, log, rest, l', (service_group ga d). cbv zeta. split_and!; try done.
  unfold service_pending. rewrite pm_get_spec by apply (do_wired _ _ _ Hd). fold (group_for d p). rewrite Hfor, Hg.
  rewrite (proj2 (Nat.ltb_lt _ _)) by (destruct (g_arr g); [done | simpl; lia]).
  eapply aside_unref; [exact H4|]. destruct (sd_group _ _ _ _ _ _ H5 g Hg) as [r Hr].
  change (g_queue g) with (g_queue (g <| g_rr := r |>)). by eapply group_queue_live.
Qed.

Lemma wakeup_ok ps1 p ps2 ga g d R F :
  disp_ok d R F -> d_pending d = ps1 ++ p :: ps2 -> group_for d p = Some ga -> d_gobjs d !! ga = Some g -> g_arr g <> [] ->
  (forall x gx g', x ∈ ps1 ++ ps2 -> group_for d x = Some gx -> d_gobjs d !! gx = Some g' -> g_queue g' <> g_queue g) ->
  exists l log rest l', let d' := on_async d in
    q_at d (g_queue g) = Some l /\ l = log.*2 ++ rest /\ q_at d' (g_queue g) = Some l' /\ disp_ok d' R F /\ d_pending d' = [] /\
    handed (g_arr g) log d d' /\ stopped (g_arr g) (no_wrap g (S (length l))) (~ ample (w_sys (d_world d))) d d' rest l'.
Proof.
  intros Hd Ep Hfor Hg Hne Hother. pose proof (detach_ok d R F Hd) as Hd0. unfold on_async. set (d0 := d <| d_pending := [] |> <| d_cap_pending := 0%nat |> <| d_async_sent := false |>) in *.
  rewrite Ep in *. rewrite foldl_app. rewrite <- app_assoc in Hd0.
  destruct (service_all_aside ga g ps1 d0 _ F Hd0 Hg) as (Hd1 & HA & Hn1).
  { intros x gx g' Hx. apply (Hother x gx g'). set_solver. }
  set (d1 := foldl service_pending d0 ps1) in *. cbn [foldl]. assert (Hg1 : d_gobjs d1 !! ga = Some g) by (rewrite (as_group _ _ _ _ _ HA); exact Hg).
  assert (Hf1 : group_for d1 p = Some ga) by (rewrite (group_for_same d0 d1); [exact Hfor | apply HA | apply Hn1; set_solver]).
  destruct (service_pending_serves p ga g d1 _ F Hd1 Hf1 Hg1 Hne) as (l & log & rest & l' & d2 & H1 & H2 & H3 & Hd3 & Hs & HB & Hst).
  pose proof (fun y => service_pending_named p y d1 (ps2 ++ R) F Hd1) as Hn3. set (d3 := service_pending d1 p) in *.
  destruct (sd_group _ _ _ _ _ _ Hs g Hg1) as [r Hr]. rewrite <- (as_group _ _ _ _ _ HB) in Hr. pose proof (sd_hub _ _ _ _ _ _ Hs) as [= _ Eg _ Epn _].
  destruct (service_all_aside ga (g <| g_rr := r |>) ps2 d3 R F Hd3 Hr) as (Hd' & HC & _).
  { intros x gx g' Hx Hfx Hgx. rewrite (group_for_same d0 d3) in Hfx.
    - pose proof (as_shape _ _ _ _ _ HB gx) as E. rewrite (serviced_shape _ _ _ _ _ _ Hs), (as_shape _ _ _ _ _ HA) in E by (by eexists).
      rewrite Hgx in E. destruct (d_gobjs d0 !! gx) as [g2|] eqn:Hg2; [|done]. injection E as -> _. apply (Hother x gx g2); [set_solver | done | done].
    - rewrite (as_groups _ _ _ _ _ HB), Eg. apply HA.
    - rewrite Hn3 by set_solver. apply Hn1. set_solver. }
  pose proof (aside_trans _ _ _ _ _ _ HB HC) as HD. exists l, log, rest, l'. cbv zeta.
  split_and!; [by rewrite <- H1, (as_queue _ _ _ _ _ HA) | done | by rewrite (as_queue _ _ _ _ _ HD) | done | | destruct (handed_over _ _ _ _ _ d0 _ _ _ HA Hs HD); by constructor |].
  - rewrite (as_pending _ _ _ _ _ HD), Epn. apply HA.
  - eapply (stopped_weaken _ _ _ _ _ d d1); [apply HA | done | | exact (stopped_aside _ _ _ _ _ _ _ _ _ _ HD Hst)].
    intros Hn Ha. apply Hn. by apply HA.
Qed.
End Wake.
