(* ===== verification/DispatchWire.v ===== *)
(** What a delivery puts on the wire: the frames of Basic.Deliver, whichever of the
    two send paths is taken, as the frame parser reads them back. *)

From S2P Require Import Prelude Tables Frame HashMap Message Queue Net Dispatch DispatchDraw DispatchServe.

(** A payload cut into pieces of at most [n] bytes. *)
Fixpoint chunks (fuel n : nat) (l : bytes) : list bytes :=
  match fuel, l with
  | S fuel, _ :: _ => take n l :: chunks fuel n (drop n l)
  | _, _ => []
  end.

Lemma chunks_concat fuel n : forall l, (0 < n)%nat -> (length l <= fuel)%nat -> concat (chunks fuel n l) = l.
Proof.
  induction fuel as [|fuel IH]; intros [|x l] Hn Hl; cbn [chunks concat]; try done; [cbn [length] in Hl; lia|].
  rewrite IH, take_drop; [done | done |]. rewrite length_drop. cbn [length] in *. lia.
Qed.

Lemma chunks_bound fuel n : forall l, Forall (fun p => length p <= n)%nat (chunks fuel n l).
Proof.
  induction fuel as [|fuel IH]; intros [|x l]; cbn [chunks]; constructor; auto. rewrite length_take. lia.
Qed.

(** A body of one piece. *)
Lemma chunks_one n (l : bytes) : l <> [] -> (length l <= n)%nat -> chunks (length l) n l = [l].
Proof.
  destruct l as [|x l]; [done|]. intros _ Hl. cbn [length chunks]. rewrite take_ge, drop_ge by done. by destruct (length l).
Qed.

(** The frames of a delivery, as pairs of type and payload. *)
Definition deliver_args (ctag : bytes) (tag : Z) (msg : message) : list field :=
  [FU16 BMQP_CLASS_BASIC; FU16 BMQP_BASIC_DELIVER; FShort ctag; FU64 tag; FU8 0; FShort (m_exchange msg); FShort (m_routing_key msg)].

Definition header_args (msg : message) : list field := [FU16 BMQP_CLASS_BASIC; FU16 0; FU64 (m_body_len msg)].

Definition delivery_frames (frame_max : Z) (ctag : bytes) (tag : Z) (msg : message) : list (Z * bytes) :=
  (BMQP_FRAME_METHOD, deliver_args ctag tag msg ≫= field_bytes) ::
  (BMQP_FRAME_HEADER, (header_args msg ≫= field_bytes) ++ match m_props msg with [] => [0; 0] | props => props end) ::
  (pair BMQP_FRAME_BODY <$> chunks (length (m_body msg)) (Z.to_nat (chunk_of frame_max)) (m_body msg)).

Definition on_wire (channel : Z) (fs : list (Z * bytes)) : bytes := concat ((fun f => frame_bytes f.1 channel f.2) <$> fs).

(** Reading a stream frame by frame, as [protocol_on_data] does. *)
Fixpoint read_frames (fuel : nat) (buf : bytes) : list (bmqp_frame_header * bytes) * bytes :=
  match fuel with
  | O => ([], buf)
  | S fuel =>
      match bmqp_frame_parse buf with
      | (n, Some f) => let '(fs, rest) := read_frames fuel (drop (Z.to_nat n) buf) in (f :: fs, rest)
      | (_, None) => ([], buf)
      end
  end.

Lemma read_on_wire channel fs rest :
  0 <= channel < 2 ^ 16 -> Forall (fun f => byte_ok f.1 /\ Z.of_nat (length f.2) <= BMQP_MAX_FRAME_PAYLOAD) fs ->
  read_frames (length fs) (on_wire channel fs ++ rest) =
  ((fun f => (FrameHeader f.1 channel (Z.of_nat (length f.2)), f.2)) <$> fs, rest).
Proof.
  intros Hch Hf. induction Hf as [|[t p] fs [Ht Hp] _ IH]; [done|]. cbn [length read_frames]. unfold on_wire. cbn [fmap list_fmap concat fst snd].
  rewrite <- app_assoc, frame_parse_bytes by done.
  replace (Z.to_nat (8 + Z.of_nat (length p))) with (length (frame_bytes t channel p))
    by (pose proof (frame_bytes_length t channel p); lia).
  rewrite drop_app_length. fold (on_wire channel fs). by rewrite IH.
Qed.

(** * The two paths *)

Definition short (s : bytes) : Prop := Z.of_nat (length s) <= 255.

(** A message that AMQP can carry, on a connection with the limit [frame_max]. *)
Record deliverable (channel frame_max : Z) (ctag : bytes) (tag : Z) (msg : message) : Prop := Deliverable {
  de_channel : 0 <= channel < 2 ^ 16;
  de_max : 0 <= frame_max <= BMQP_MAX_FRAME_PAYLOAD;
  de_tag : 0 <= tag < 2 ^ 64;
  de_ctag : short ctag;
  de_exchange : short (m_exchange msg);
  de_key : short (m_routing_key msg);
  de_props : Z.of_nat (length (m_props msg)) <= 2 ^ 20;
  de_size : Z.of_nat (length (on_wire channel (delivery_frames frame_max ctag tag msg))) < 2 ^ 32
}.

(** A frame built in place after [pre]. *)
Lemma frame_built_wrote type channel payload pre st0 st at_ st1 st2 :
  b_data (fst st0) = [] -> wrote pre st0 st -> bmqp_frame_begin st type channel = (at_, st1) -> wrote payload st1 st2 ->
  Z.of_nat (length pre) < 2 ^ 32 -> Z.of_nat (length payload) < 2 ^ 32 ->
  wrote (pre ++ frame_bytes type channel payload) st0 (bmqp_frame_finish st2 at_).
Proof.
  intros H0 Hpre Hb Hpay L1 L2. eapply wrote_trans; [done|]. eapply frame_finish_wrote; [done | done | | done].
  intros E2. destruct (Hpay E2) as [E1 D2]. pose proof (frame_begin_wrote st type channel) as Hw. rewrite Hb in Hw. cbn [snd] in Hw.
  destruct (Hw E1) as [E D1]. destruct (Hpre E) as [_ D]. unfold b_len. rewrite D2, D1, D, H0. rewrite !length_app. cbn [length].
  rewrite !be_encode_length. lia.
Qed.

(** The two frames before the body. *)
Lemma delivery_head_wrote frame_max channel ctag tag msg o :
  short ctag -> short (m_exchange msg) -> short (m_routing_key msg) -> 0 <= tag < 2 ^ 64 ->
  Z.of_nat (length (m_props msg)) <= 2 ^ 20 -> 0 <= m_body_len msg < 2 ^ 64 ->
  wrote (on_wire channel (take 2 (delivery_frames frame_max ctag tag msg))) (bmqp_buf_init, o)
    (delivery_head channel ctag tag msg (bmqp_buf_init, o)).
Proof.
  intros Hc He Hk Ht Hp Hb. unfold delivery_head, short in *.
  destruct (bmqp_frame_begin (bmqp_buf_init, o) BMQP_FRAME_METHOD channel) as [at1 st1] eqn:E1.
  set (st2 := bmqp_buf_put_shortstr _ (Some (m_routing_key msg))).
  assert (H2 : wrote (deliver_args ctag tag msg ≫= field_bytes) st1 st2).
  { apply (put_fields_wrote st1 (deliver_args ctag tag msg)). unfold deliver_args.
    repeat (apply Forall_cons; split; [cbn; unfold byte_ok, BMQP_CLASS_BASIC, BMQP_BASIC_DELIVER in *; lia|]). constructor. }
  assert (L1 : Z.of_nat (length (deliver_args ctag tag msg ≫= field_bytes)) < 2 ^ 16).
  { unfold deliver_args. cbn [mbind list_bind field_bytes]. rewrite !length_app, !be_encode_length. cbn [length]. lia. }
  pose proof (frame_built_wrote BMQP_FRAME_METHOD channel _ [] (bmqp_buf_init, o) _ at1 st1 st2 eq_refl (wrote_nil _) E1 H2
    ltac:(done) ltac:(lia)) as H3.
  set (st3 := bmqp_frame_finish st2 at1) in *.
  destruct (bmqp_frame_begin st3 BMQP_FRAME_HEADER channel) as [at2 st4] eqn:E4.
  set (st5 := bmqp_buf_put_u64 _ (m_body_len msg)).
  assert (H5 : wrote (header_args msg ≫= field_bytes) st4 st5).
  { apply (put_fields_wrote st4 (header_args msg)).
    repeat (apply Forall_cons; split; [cbn; unfold BMQP_CLASS_BASIC; lia|]). constructor. }
  set (st6 := match m_props msg with [] => _ | _ => _ end).
  assert (H6 : wrote (match m_props msg with [] => [0; 0] | props => props end) st5 st6).
  { unfold st6. destruct (m_props msg); [exact (put_u16_wrote st5 0) | apply put_bytes_wrote]. }
  unfold on_wire. cbn [delivery_frames take fmap list_fmap concat fst snd]. rewrite app_nil_r.
  eapply frame_built_wrote; [done | exact H3 | exact E4 | by eapply wrote_trans | |].
  - cbn [app]. rewrite frame_bytes_length. lia.
  - rewrite length_app. cbn [mbind list_bind field_bytes header_args]. rewrite !length_app, !be_encode_length.
    destruct (m_props msg); cbn [length] in *; lia.
Qed.

Lemma on_wire_app channel fs1 fs2 : on_wire channel (fs1 ++ fs2) = on_wire channel fs1 ++ on_wire channel fs2.
Proof. unfold on_wire. by rewrite fmap_app, concat_app. Qed.

Lemma body_frames_wrote fuel chunk channel : forall rem out,
  0 < chunk -> Z.of_nat (length rem) < 2 ^ 32 ->
  wrote (on_wire channel (pair BMQP_FRAME_BODY <$> chunks fuel (Z.to_nat chunk) rem)) out (body_frames fuel chunk channel rem out).
Proof.
  induction fuel as [|fuel IH]; intros rem out Hc Hl; [apply wrote_nil|]. destruct rem as [|x rem]; [apply wrote_nil|].
  cbn [body_frames chunks]. set (l := x :: rem) in *. set (n := Z.to_nat (if Z.of_nat (length l) <? chunk then Z.of_nat (length l) else chunk)).
  assert (Et : take n l = take (Z.to_nat chunk) l /\ drop n l = drop (Z.to_nat chunk) l).
  { unfold n. destruct (Z.ltb_spec (Z.of_nat (length l)) chunk); [|done]. rewrite !take_ge, !drop_ge by lia. done. }
  destruct Et as [-> ->]. unfold on_wire. cbn [fmap list_fmap concat fst snd].
  eapply wrote_trans; [apply frame_write_wrote; rewrite length_take; lia|]. apply IH; [done|]. rewrite length_drop. lia.
Qed.

Lemma reserve_wrote st extra : wrote [] st (bmqp_buf_reserve st extra).
Proof.
  pose proof (reserve_push_wrote st extra []) as H. unfold bmqp_buf_reserve.
  destruct (buf_reserve st extra) as [[] st'] eqn:E; [|done]. intros He. cbn [snd] in *.
  specialize (H He). simpl in H. by rewrite app_nil_r in H.
Qed.

Lemma delivery_tail_wrote chunk channel body out :
  0 < chunk -> Z.of_nat (length body) < 2 ^ 32 ->
  wrote (on_wire channel (pair BMQP_FRAME_BODY <$> chunks (length body) (Z.to_nat chunk) body)) out
    (delivery_tail chunk channel body out).
Proof.
  intros Hc Hl. unfold delivery_tail. destruct (0 <? _); [|by apply body_frames_wrote].
  eapply (wrote_trans []); [apply reserve_wrote | by apply body_frames_wrote].
Qed.

Lemma chunk_max frame_max : 0 <= frame_max <= BMQP_MAX_FRAME_PAYLOAD -> chunk_of frame_max <= BMQP_MAX_FRAME_PAYLOAD.
Proof.
  unfold chunk_of, BMQP_MAX_FRAME_PAYLOAD, BMQP_FRAME_OVERHEAD, BMQP_FRAME_HEADER_SIZE. intros H.
  destruct (Z.eqb_spec frame_max 0); destruct (_ <? _); lia.
Qed.

Lemma uv_buf_all data : Z.of_nat (length data) < 2 ^ 32 -> uv_buf data = data.
Proof. intros H. unfold uv_buf, u32. rewrite wrap_small, Nat2Z.id by lia. by rewrite take_ge. Qed.

(** The zero-copy path: the body frame split around the body. *)
Lemma zero_copy_wrote channel (body : bytes) out :
  Z.of_nat (length body) < 2 ^ 32 ->
  wrote ([BMQP_FRAME_BODY] ++ be_encode 2 channel ++ be_encode 4 (Z.of_nat (length body))) out
    (bmqp_buf_put_u32 (bmqp_buf_put_u16 (bmqp_buf_put_u8 out BMQP_FRAME_BODY) channel) (u32 (Z.of_nat (length body)))).
Proof.
  intros Hl. unfold u32. rewrite wrap_small by lia.
  eapply wrote_trans; [apply put_u8_wrote|]. eapply wrote_trans; [apply put_u16_wrote | apply put_u32_wrote].
Qed.

(** Both paths put the same bytes on the wire. *)
Lemma send_message_wire channel ctag tag msg cn n h cn' n' h' :
  deliverable channel (cn_frame_max cn) ctag tag msg -> send_message channel ctag tag msg cn n h = (0, cn', n', h') ->
  cn_wire cn' = cn_wire cn ++ on_wire channel (delivery_frames (cn_frame_max cn) ctag tag msg).
Proof.
  intros [Hch Hmax Htag Hct Hex Hkey Hpr Hsz]. unfold send_message.
  set (chunk := chunk_of (cn_frame_max cn)) in *. set (fs := delivery_frames _ _ _ _) in *.
  set (body := m_body msg). pose proof (chunk_pos (cn_frame_max cn)) as Hpos. fold chunk in Hpos.
  assert (Efs : fs = take 2 fs ++ (pair BMQP_FRAME_BODY <$> chunks (length body) (Z.to_nat chunk) body)) by done.
  rewrite Efs, on_wire_app, length_app in Hsz.
  assert (Hbody : Z.of_nat (length body) < 2 ^ 32).
  { assert (Hc : (length (concat (chunks (length body) (Z.to_nat chunk) body)) <=
      length (on_wire channel (pair BMQP_FRAME_BODY <$> chunks (length body) (Z.to_nat chunk) body)))%nat).
    { generalize (chunks (length body) (Z.to_nat chunk) body). intros l. unfold on_wire. induction l as [|p l IH]; [done|].
      cbn [fmap list_fmap concat fst snd]. rewrite !length_app. pose proof (frame_bytes_length BMQP_FRAME_BODY channel p). lia. }
    rewrite chunks_concat in Hc by lia. lia. }
  pose proof (delivery_head_wrote (cn_frame_max cn) channel ctag tag msg (n_oracle n) Hct Hex Hkey Htag Hpr
    ltac:(unfold m_body_len; fold body; lia)) as Hhead. fold fs in Hhead.
  set (head := delivery_head _ _ _ _ _) in *. set (pre := on_wire channel (take 2 fs)) in *.
  destruct ((0 <? m_body_len msg) && (m_body_len msg <=? chunk)) eqn:Ez.
  - apply andb_true_iff in Ez as [Hz1%Z.ltb_lt Hz2%Z.leb_le]. unfold m_body_len in *. fold body in Hz1, Hz2 |- *.
    rewrite chunks_one in Hsz by (lia || (intros ->; simpl in Hz1; lia)).
    unfold on_wire in Hsz. cbn [fmap list_fmap concat fst snd] in Hsz.
    rewrite app_nil_r in Hsz. unfold frame_bytes in Hsz. rewrite !length_app in Hsz.
    destruct (bmqp_buf_put_u32 _ _) as [out o] eqn:Eo. destruct (b_error out) eqn:Ee; [done|]. intros Es.
    pose proof (wrote_trans _ _ _ _ _ Hhead (zero_copy_wrote channel body head Hbody)) as Hw. rewrite Eo in Hw.
    destruct (Hw Ee) as [_ D]. cbn [fst bmqp_buf_init b_data] in D. rewrite app_nil_l in D.
    destruct (send_delivery_spec _ _ _ _ _ _ _ _ _ Es) as [(_ & _ & size & len & ->)|(Hne & _)]; [|done].
    unfold written, update_field. cbn [cn_wire]. fold body. rewrite (uv_buf_all body) by done. rewrite uv_buf_all.
    + rewrite D, Efs, on_wire_app. fold pre. rewrite chunks_one by (lia || (intros ->; simpl in Hz1; lia)).
      unfold on_wire. cbn [fmap list_fmap concat fst snd]. unfold frame_bytes. by rewrite app_nil_r, <- !app_assoc.
    + rewrite D, !length_app. lia.
  - destruct (delivery_tail chunk channel body head) as [out o] eqn:Eo. destruct (b_error out) eqn:Ee; [done|].
    destruct (beaver_conn_send_owned _ _ _) as [[rc cn1] n1] eqn:Es. intros [= -> <- <- <-].
    pose proof (wrote_trans _ _ _ _ _ Hhead (delivery_tail_wrote chunk channel body head Hpos Hbody)) as Hw.
    rewrite Eo in Hw. destruct (Hw Ee) as [_ D]. cbn [fst bmqp_buf_init b_data] in D. rewrite app_nil_l in D.
    destruct (send_owned_spec _ _ _ _ _ _ Es) as [(_ & size & ->)|(Hne & _)]; [|done].
    unfold written, update_field. cbn [cn_wire]. rewrite uv_buf_all; rewrite D; [by rewrite Efs, on_wire_app|]. rewrite length_app. lia.
Qed.
