(* ===== verification/DispatchSpec.v ===== *)
(** The theorems about the dispatcher (Dispatch.v), from the lemmas of
    DispatchInv.v, DispatchOps.v, DispatchSettle.v, DispatchServe.v, DispatchRun.v,
    DispatchWake.v and DispatchWire.v. *)

From S2P Require Import Prelude Tables Frame HashMap Message Queue Store Exchange Broker BrokerRoute BrokerSpec BrokerDelivery Net Dispatch DispatchInv DispatchOps DispatchSettle DispatchDraw DispatchServe DispatchRun DispatchWake DispatchWire.

Section Spec.
Context {M : Type} `{!PtrMap M} `{!PtrMapLaws M}.
Implicit Types (w : world M) (d : dispatcher M).

(** C13: the dispatcher never touches freed memory and leaks nothing.  From its
    creation on any broker, through any sequence of connections, publishes,
    subscriptions, acks, rejections, cancellations, closes, completed writes,
    wakeups and timer ticks, with any allocation and any write failing, no call
    follows a dangling pointer and every count of references to queues and to
    messages stays exact; once it is freed, all it holds of the broker is the
    messages of writes still in flight. *)
Theorem dispatcher_safe self w n d n' es R F :
  world_ok w R F -> Forall (fun x => x.1 <> (WAITER_FN, self)) (w_wakeups w) ->
  dispatcher_new self w n ∅ = (Some d, n') ->
  exists d', run es d = Some d' /\ d_fault d' = false /\ world_ok (d_world d') (d_refs d' ++ R) (d_msgs d' ++ F) /\
    let d'' := dispatcher_free d' in
    d_fault d'' = false /\ d_refs d'' = [] /\
    world_ok (d_world d'') R (gather (fun cn => omap id (cn_writes cn)) (d_conns d') ++ F).
Proof.
  intros Hw Hh Hn. destruct (run_ok es d R F (dispatcher_new_ok _ _ _ _ _ _ _ Hw Hh Hn)) as (d' & Hr & Hd').
  destruct (dispatcher_free_ok d' R F Hd') as (H1 & H2 & H3 & H4 & H5 & H6).
  exists d'. split_and!; [done | apply Hd' | apply Hd' |]. cbv zeta. split_and!; [done | | done].
  unfold d_refs. by rewrite H2, H3, H4.
Qed.

(** C28: servicing a group delivers in order.  The messages handed out are a prefix
    of the queue, in its order, each to a member of the group, with consecutive
    delivery tags; a consumer that acknowledges gets them at the end of its
    unacked list, never beyond its prefetch, and other queues and the consumers of
    other groups are untouched.  It ends when the queue is empty; when every member is
    stuck, that is, on a paused or closing connection, at its prefetch, or with no room
    for one more unacked delivery because an allocation failed (as long as the
    round-robin cursor does not wrap 2^64); or when a send failed, because an
    allocation or a write of the connection failed or the message is too large for a
    buffer.  Then the message is put back at the tail, and lost only when memory is
    short. *)
Theorem service_in_order ga g d R F :
  disp_ok d R F -> d_gobjs d !! ga = Some g ->
  exists l log rest l', let d' := service_group ga d in
    q_at d (g_queue g) = Some l /\ l = log.*2 ++ rest /\ q_at d' (g_queue g) = Some l' /\
    disp_ok d' R F /\ serviced ga (g_queue g) (g_arr g) log d d' /\
    stopped (g_arr g) (no_wrap g (S (length l))) (~ ample (w_sys (d_world d))) d d' rest l'.
Proof. apply service_group_ok. Qed.

(** C29: a wakeup is followed by progress.  When the loop runs, with any queues pending,
    every group with consumers that exactly one pending queue leads to has been
    serviced when it is done: the messages handed out are a prefix of its queue, they
    are in the unacked lists of the members that acknowledge, and its queue is empty,
    every member is stuck or a send failed, whatever else was served before and after.
    Nothing is pending any more and the invariant holds. *)
Theorem wakeup_serves ps1 p ps2 ga g d R F :
  disp_ok d R F -> d_pending d = ps1 ++ p :: ps2 -> group_for d p = Some ga -> d_gobjs d !! ga = Some g -> g_arr g <> [] ->
  (forall x gx g', x ∈ ps1 ++ ps2 -> group_for d x = Some gx -> d_gobjs d !! gx = Some g' -> g_queue g' <> g_queue g) ->
  exists l log rest l', let d' := on_async d in
    q_at d (g_queue g) = Some l /\ l = log.*2 ++ rest /\ q_at d' (g_queue g) = Some l' /\ disp_ok d' R F /\ d_pending d' = [] /\
    handed (g_arr g) log d d' /\ stopped (g_arr g) (no_wrap g (S (length l))) (~ ample (w_sys (d_world d))) d d' rest l'.
Proof. apply wakeup_ok. Qed.

(** C14: settling is exact.  An ack or a reject ends for every dead-letter topology;
    it takes from the consumers of the channel the deliveries the tag names (all up
    to it when [multiple], all for tag 0) and no other, returns their number, keeps
    the invariant, and, when no message is dead-lettered and memory suffices, puts
    the requeued ones back at the end of their queues. *)
Theorem settle_exact conn channel tag multiple back rejected d R F :
  disp_ok d R F ->
  exists S d', (forall fuel, (settle_fuel d <= fuel)%nat ->
      settle_unacked fuel conn channel tag multiple back rejected d = Some (total (d_consumers d) S, d')) /\
    disp_ok d' R F /\ settled_frame d d' /\ settled_all tag multiple conn channel (d_consumers d) S d d' /\
    single_complete tag multiple conn channel (d_consumers d) S d /\
    (ample (w_sys (d_world d)) -> plain back rejected -> requeued back (d_consumers d) S d d').
Proof. apply settle_spec. Qed.
End Spec.

(** C30: a delivery reads back.  Whichever path sends it, in one buffer or with the
    body in place, a delivery that is sent adds to the wire the Basic.Deliver
    method, the content header and the body frames; the frame parser gets these
    frames back from the stream, their body payloads make up the body, and each
    fits the negotiated frame size. *)
Theorem delivery_roundtrip channel ctag tag msg cn n h cn' n' h' rest :
  deliverable channel (cn_frame_max cn) ctag tag msg -> send_message channel ctag tag msg cn n h = (0, cn', n', h') ->
  let fs := delivery_frames (cn_frame_max cn) ctag tag msg in
  cn_wire cn' = cn_wire cn ++ on_wire channel fs /\
  read_frames (length fs) (on_wire channel fs ++ rest) =
    ((fun f => (FrameHeader f.1 channel (Z.of_nat (length f.2)), f.2)) <$> fs, rest) /\
  concat (drop 2 fs).*2 = m_body msg /\
  Forall (fun f => Z.of_nat (length f.2) <= chunk_of (cn_frame_max cn)) (drop 2 fs).
Proof.
  intros Hd Hs fs. pose proof (chunk_pos (cn_frame_max cn)) as Hpos.
  assert (Hb : Forall (fun f => f.1 = BMQP_FRAME_BODY /\ Z.of_nat (length f.2) <= chunk_of (cn_frame_max cn)) (drop 2 fs)).
  { unfold fs. cbn [delivery_frames drop]. apply Forall_fmap. eapply Forall_impl; [apply chunks_bound|]. simpl. intros p Hp. split; [done | lia]. }
  split_and!; [by eapply send_message_wire | | |].
  - apply read_on_wire; [apply Hd|]. pose proof (chunk_max _ (de_max _ _ _ _ _ Hd)) as Hmax.
    destruct Hd as [_ _ _ Hct Hex Hkey Hpr _]. unfold short in *. rewrite <- (take_drop 2 fs). apply Forall_app. split.
    + unfold fs. cbn [delivery_frames take]. unfold BMQP_MAX_FRAME_PAYLOAD. repeat (apply Forall_cons; split); [..|constructor];
        (split; [done|]); cbn [snd]; unfold deliver_args, header_args; cbn [mbind list_bind field_bytes]; rewrite !length_app, !be_encode_length; cbn [length].
      * lia.
      * destruct (m_props msg); cbn [length] in *; lia.
    + eapply Forall_impl; [exact Hb|]. intros f [-> Hl]. split; [done | lia].
  - unfold fs. cbn [delivery_frames drop]. set (l := chunks _ _ _).
    assert (E : (pair BMQP_FRAME_BODY <$> l).*2 = l) by (induction l as [|p l IH]; cbn; congruence).
    rewrite drop_0, E. apply chunks_concat; lia.
  - eapply Forall_impl; [exact Hb|]. by intros f [_ Hl].
Qed.

(** * A worker with one connection *)

Definition demo_net : netst := Net [] [] 0.

Definition demo_events : list event :=
  [Accept 5 4096; Consume 5 1 (cstr "c1") (cstr "/") (cstr "orders") false 2; Consume 5 1 (cstr "c2") (cstr "/") (cstr "audit") true 0;
   Publish (cstr "/") (Some (cstr "logs")) (Some (cstr "a.b")) [1; 2; 3]].

Definition demo_start : dispatcher (hashmap positive) :=
  match dispatcher_new 1 demo_world demo_net ∅ with (Some d, _) => d | (None, _) => Dispatcher 1 demo_world demo_net ∅ false false false (w_queues demo_world) ∅ ∅ 1 [] [] 0 0 false false [] true end.

Definition demo_disp (es : list event) : dispatcher (hashmap positive) := default demo_start (run es demo_start).

Lemma demo_new : dispatcher_new 1 demo_world demo_net ∅ = (Some demo_start, demo_net).
Proof. vm_compute. reflexivity. Qed.

Lemma demo_quiet : Forall (fun x => x.1 <> (WAITER_FN, 1%positive)) (w_wakeups demo_world).
Proof. assert (E : w_wakeups demo_world = []) by (vm_compute; reflexivity). rewrite E. constructor. Qed.

Lemma demo_disp_ok es : disp_ok (demo_disp es) [] [].
Proof.
  destruct (run_ok es demo_start [] []) as (d & E & Hd).
  - eapply dispatcher_new_ok; [exact demo_world_ok | exact demo_quiet | exact demo_new].
  - unfold demo_disp. by rewrite E.
Qed.

Lemma dispatcher_safe_witness :
  exists d, run (demo_events ++ [Wakeup; Ack 5 1 1 false; CloseConn 5]) demo_start = Some d /\ d_refs (dispatcher_free d) = [].
Proof.
  destruct (dispatcher_safe 1 demo_world demo_net demo_start demo_net (demo_events ++ [Wakeup; Ack 5 1 1 false; CloseConn 5]) [] [])
    as (d & H1 & _ & _ & _ & H2 & _).
  - exact demo_world_ok.
  - exact demo_quiet.
  - exact demo_new.
  - exists d. split; [exact H1 | exact H2].
Defined.

Lemma service_in_order_witness :
  exists g l (log : list (positive * Z * message)) rest l', d_gobjs (demo_disp demo_events) !! 2%positive = Some g /\
    q_at (demo_disp demo_events) (g_queue g) = Some l /\ length l = 1%nat /\ l = log.*2 ++ rest /\
    q_at (service_group 2 (demo_disp demo_events)) (g_queue g) = Some l' /\ l' = [].
Proof.
  destruct (service_in_order 2 (Group 1 [1%positive] 4 0) (demo_disp demo_events) [] []) as (l & log & rest & l' & H1 & H2 & H3 & _).
  - exact (demo_disp_ok demo_events).
  - vm_compute. reflexivity.
  - exists (Group 1 [1%positive] 4 0), l, log, rest, l'.
    assert (E1 : length <$> q_at (demo_disp demo_events) 1 = Some 1%nat) by (vm_compute; reflexivity).
    assert (E2 : q_at (service_group 2 (demo_disp demo_events)) 1 = Some []) by (vm_compute; reflexivity).
    cbn [g_queue] in H1, H3 |- *. rewrite H1 in E1. injection E1 as E1. rewrite H3 in E2. injection E2 as E2.
    split_and!; [vm_compute; reflexivity | exact H1 | exact E1 | exact H2 | exact H3 | exact E2].
Defined.

Lemma demo_group_for x : group_for (demo_disp demo_events) x =
  pm_get (d_groups (demo_disp demo_events)) (broker_vkey (Some (d_at_queue [] x queue_vhost (demo_disp demo_events))) (Some (d_at_queue [] x queue_name (demo_disp demo_events)))).
Proof. unfold group_for. by rewrite <- pm_get_spec by apply (do_wired _ _ _ (demo_disp_ok demo_events)). Qed.

(** Two queues are pending, each with a group. *)
Lemma wakeup_serves_witness :
  exists l (log : list (positive * Z * message)) rest l', d_pending (demo_disp demo_events) = [1; 2]%positive /\
    q_at (demo_disp demo_events) 1 = Some l /\ l = log.*2 ++ rest /\
    q_at (on_async (demo_disp demo_events)) 1 = Some l' /\ length l = 1%nat /\ l' = [].
Proof.
  destruct (wakeup_serves [] 1 [2%positive] 2 (Group 1 [1%positive] 4 0) (demo_disp demo_events) [] []) as (l & log & rest & l' & H1 & H2 & H3 & _).
  - exact (demo_disp_ok demo_events).
  - vm_compute. reflexivity.
  - rewrite demo_group_for. vm_compute. reflexivity.
  - vm_compute. reflexivity.
  - discriminate.
  - intros x gx g' Hx. apply list_elem_of_singleton in Hx as ->. rewrite demo_group_for. intros E Hg.
    assert (E2 : (g_queue <$> (pm_get (d_groups (demo_disp demo_events)) (broker_vkey (Some (d_at_queue [] 2 queue_vhost (demo_disp demo_events))) (Some (d_at_queue [] 2 queue_name (demo_disp demo_events))))
      ≫= fun ga => d_gobjs (demo_disp demo_events) !! ga)) = Some 2%positive) by (vm_compute; reflexivity).
    rewrite E in E2. cbn [mbind option_bind] in E2. rewrite Hg in E2. injection E2 as ->. discriminate.
  - exists l, log, rest, l'.
    assert (E1 : length <$> q_at (demo_disp demo_events) 1 = Some 1%nat) by (vm_compute; reflexivity).
    assert (E2 : q_at (on_async (demo_disp demo_events)) 1 = Some []) by (vm_compute; reflexivity).
    cbn [g_queue] in H1, H3. rewrite H1 in E1. injection E1 as E1. rewrite H3 in E2. injection E2 as E2.
    split_and!; [vm_compute; reflexivity | exact H1 | exact H2 | exact H3 | exact E1 | exact E2].
Defined.

Lemma settle_exact_witness :
  exists d', settle_unacked (settle_fuel (demo_disp (demo_events ++ [Wakeup]))) 5 1 1 false true false (demo_disp (demo_events ++ [Wakeup]))
    = Some (1%nat, d') /\ disp_ok d' [] [].
Proof.
  destruct (settle_exact 5 1 1 false true false (demo_disp (demo_events ++ [Wakeup])) [] []) as (S & d' & H1 & H2 & _).
  - exact (demo_disp_ok (demo_events ++ [Wakeup])).
  - exists d'. split; [|exact H2]. specialize (H1 _ (le_n _)).
    assert (E : fst <$> settle_unacked (settle_fuel (demo_disp (demo_events ++ [Wakeup]))) 5 1 1 false true false
      (demo_disp (demo_events ++ [Wakeup])) = Some 1%nat) by (vm_compute; reflexivity).
    set (r := settle_unacked _ _ _ _ _ _ _ _) in *. set (n := total _ _) in *. clearbody r n. subst r.
    cbn in E. injection E as ->. reflexivity.
Defined.

Definition demo_conn : beaver_conn := conn_zero <| cn_frame_max := 11 |>.
Definition demo_msg : message := Message 1 1 0 (cstr "x") (cstr "k") [1; 2; 3; 4; 5; 6; 7] [] 0.

Lemma delivery_roundtrip_witness :
  exists cn' n' h', send_message 3 (cstr "c") 9 demo_msg demo_conn demo_net (Heap [] 1 ∅ false) = (0, cn', n', h') /\
    fst (read_frames 5 (cn_wire cn')) = (fun f => (FrameHeader f.1 3 (Z.of_nat (length f.2)), f.2)) <$> delivery_frames 11 (cstr "c") 9 demo_msg.
Proof.
  destruct (send_message 3 (cstr "c") 9 demo_msg demo_conn demo_net (Heap [] 1 ∅ false)) as [[[rc cn'] n'] h'] eqn:E.
  assert (Hrc : rc = 0) by (vm_compute in E; injection E as <- _ _ _; reflexivity). subst rc.
  destruct (delivery_roundtrip 3 (cstr "c") 9 demo_msg demo_conn demo_net (Heap [] 1 ∅ false) cn' n' h' []) as (H1 & H2 & _).
  - constructor; vm_compute; repeat split; discriminate.
  - exact E.
  - exists cn', n', h'. split; [reflexivity|]. rewrite H1. change (cn_wire demo_conn) with (@nil Z). rewrite app_nil_l.
    rewrite app_nil_r in H2. change (length (delivery_frames (cn_frame_max demo_conn) (cstr "c") 9 demo_msg)) with 5%nat in H2.
    rewrite H2. reflexivity.
Defined.
