(* ===== verification/Server.v ===== *)
(** A worker: its state and what the protocol engine uses of the network layer
    (src/src/net.c, src/include/net.h, the types of src/src/protocol.c).

    [server] is one worker thread with all it works on: the dispatcher with the
    broker and the connections, the protocol state of each connection, the
    access-control store, the login throttle and the cluster.  The code of a worker
    is a [proc]: a computation on [server] whose result [None] means that the call
    has no defined outcome (it follows a dangling pointer, waits for ever for a lock
    or, in recursive routing, runs out of fuel).  [sv_now] is the loop's clock;
    [sv_uv] has the outcomes of libuv calls other than writes, which succeed when
    it is exhausted. *)

From S2P Require Import Prelude Tables CLib Frame AuthLimit Password AuthStore HashMap Message Queue Store Exchange Broker Net Dispatch.

(** * What a worker asks of the cluster *)

Inductive cluster_call :=
  | cc_declare_exchange (vhost name : bytes) (type flags : Z)
  | cc_declare_queue (vhost name : bytes) (flags overflow max_length max_bytes : Z) (dlx dlx_rkey : bytes)
  | cc_bind (vhost queue exchange routing_key : bytes)
  | cc_delete_queue (vhost queue : bytes)
  | cc_publish (tracked : bool) (vhost exchange routing_key body props : bytes).

Inductive cluster_proposal_status_t := CL_PROPOSAL_PENDING | CL_PROPOSAL_COMMITTED | CL_PROPOSAL_REJECTED.

(** The calls answer with the sequence number of the proposal, 0 when it could not
    be made; an untracked publish answers 0 when it was taken. *)
Class ClusterOps (C : Type) := {
  cluster_replicate : cluster_call -> C -> Z * C;
  cluster_proposal_status : C -> Z -> cluster_proposal_status_t;
  cluster_should_throttle : C -> bool * C
}.

(** * Protocol state *)

Inductive bmqp_state_t :=
  BMQP_STATE_CONNECTED | BMQP_STATE_HANDSHAKE | BMQP_STATE_CHANNEL_OPEN | BMQP_STATE_ACTIVE | BMQP_STATE_CLOSING.

Definition state_num (s : bmqp_state_t) : Z :=
  match s with
  | BMQP_STATE_CONNECTED => 0 | BMQP_STATE_HANDSHAKE => 1 | BMQP_STATE_CHANNEL_OPEN => 2 | BMQP_STATE_ACTIVE => 3
  | BMQP_STATE_CLOSING => 4
  end.

#[global] Instance bmqp_state_eq_dec : EqDecision bmqp_state_t.
Proof. solve_decision. Defined.

(** A Basic.Get delivery that waits for its ack. *)
Record get_unacked_t := GetUnacked { gu_tag : Z; gu_msg : message; gu_queue : positive }.

Record proto_chan_t := Chan {
  ch_id : Z; ch_prefetch : Z; ch_get_unacked : list get_unacked_t; ch_cap_get_unacked : nat; ch_confirm_mode : bool; ch_confirm_seq : Z
}.

#[global] Instance chan_settable : Settable proto_chan_t := fun c =>
  Chan (ch_id c) (ch_prefetch c) (ch_get_unacked c) (ch_cap_get_unacked c) (ch_confirm_mode c) (ch_confirm_seq c).

Inductive pending_kind_t :=
  PENDING_EXCHANGE_DECLARE_OK | PENDING_QUEUE_DECLARE_OK | PENDING_QUEUE_BIND_OK | PENDING_QUEUE_DELETE_OK | PENDING_PUBLISH_CONFIRM.

Record pending_cluster_op := PendingOp {
  op_id : positive; op_seq : Z; op_channel : Z; op_class_id : Z; op_method_id : Z; op_kind : pending_kind_t; op_qname : bytes;
  op_depth : Z; op_confirm_tag : Z; op_deadline_ms : Z
}.

(** A password verification on another thread; [aw_conn] is the connection, [None]
    once it is gone. *)
Record amqp_auth_work := AuthWork {
  aw_conn : option positive; aw_user : bytes; aw_ip : bytes; aw_pass : bytes; aw_stored : bytes; aw_now_ms : Z; aw_user_exists : bool
}.

#[global] Instance auth_work_settable : Settable amqp_auth_work := fun w =>
  AuthWork (aw_conn w) (aw_user w) (aw_ip w) (aw_pass w) (aw_stored w) (aw_now_ms w) (aw_user_exists w).

(** [pr_inbuf] is the buffer up to [inbuf_len]; [pr_pub_body], the bytes received
    into the body buffer once it is allocated. *)
Record proto := Proto {
  pr_state : bmqp_state_t;
  pr_header_received : bool;
  pr_connection_open : bool;
  pr_inbuf : bytes;
  pr_inbuf_pos : nat;
  pr_inbuf_cap : Z;
  pr_channel_max : Z;
  pr_frame_max : Z;
  pr_heartbeat : Z;
  pr_channels : list proto_chan_t;
  pr_cap_channels : nat;
  pr_consumer_seq : Z;
  pr_pub_active : bool;
  pr_pub_have_header : bool;
  pr_pub_mandatory : bool;
  pr_pub_channel : Z;
  pr_pub_exchange : bytes;
  pr_pub_routing_key : bytes;
  pr_pub_body_size : Z;
  pr_pub_body : option bytes;
  pr_pub_props : bytes;
  pr_vhost : bytes;
  pr_user : bytes;
  pr_user_tags : Z;
  pr_pending_ops : list pending_cluster_op;
  pr_conn_blocked : bool;
  pr_pending_auth : option positive;
  pr_excl_queues : list bytes;
  pr_cap_excl : nat
}.

#[global] Instance proto_settable : Settable proto := fun p =>
  Proto (pr_state p) (pr_header_received p) (pr_connection_open p) (pr_inbuf p) (pr_inbuf_pos p) (pr_inbuf_cap p)
    (pr_channel_max p) (pr_frame_max p) (pr_heartbeat p) (pr_channels p) (pr_cap_channels p) (pr_consumer_seq p)
    (pr_pub_active p) (pr_pub_have_header p) (pr_pub_mandatory p) (pr_pub_channel p) (pr_pub_exchange p)
    (pr_pub_routing_key p) (pr_pub_body_size p) (pr_pub_body p) (pr_pub_props p) (pr_vhost p) (pr_user p)
    (pr_user_tags p) (pr_pending_ops p) (pr_conn_blocked p) (pr_pending_auth p) (pr_excl_queues p) (pr_cap_excl p).

Definition pr_pub_body_received (p : proto) : Z := Z.of_nat (length (default [] (pr_pub_body p))).

(** The struct as [calloc] leaves it. *)
Definition proto_zero : proto :=
  Proto BMQP_STATE_CONNECTED false false [] 0 0 0 0 0 [] 0 0 false false false 0 [] [] 0 None [] [] [] 0 [] false None [] 0.

(** * The worker *)

Record beaver_stats_t := Stats { st_next_conn_id : Z; st_total_conns : Z; st_active_conns : Z; st_total_bytes : Z }.

#[global] Instance stats_settable : Settable beaver_stats_t := fun s =>
  Stats (st_next_conn_id s) (st_total_conns s) (st_active_conns s) (st_total_bytes s).

(** The handles of the worker's loop that are not a connection's. *)
Inductive handle := h_tcp | h_sig_int | h_sig_term | h_stats_timer | h_mem_timer | h_throttle_timer | h_shutdown_async.

#[global] Instance handle_eq_dec : EqDecision handle.
Proof. solve_decision. Defined.

Record beaver_server (M C : Type) := Server {
  sv_d : dispatcher M;
  sv_protos : gmap positive proto;
  sv_conns : list positive;             (* the list of connections, head first *)
  sv_conns_locked : bool;
  sv_authstore : option authstore;
  sv_limits : list entry_t;
  sv_inflight : Z;
  sv_works : gmap positive amqp_auth_work;
  sv_cluster : option C;
  sv_stats : beaver_stats_t;
  sv_max_connections : Z;
  sv_max_message_size : Z;
  sv_now : Z;
  sv_uv : list bool;
  sv_next : positive;                   (* the next unused address *)
  sv_active : list handle;              (* the handles that keep the loop running *)
  sv_throttle_started : bool;
  sv_last_reported : Z;
  sv_shutting_down : bool;
  sv_shutdown_sent : bool;              (* [shutdown_async] has been signalled *)
  sv_in_oracle : oracle                 (* the reallocations of input buffers *)
}.
#[global] Arguments Server {_ _}.
#[global] Arguments sv_d {_ _}.
#[global] Arguments sv_protos {_ _}.
#[global] Arguments sv_conns {_ _}.
#[global] Arguments sv_conns_locked {_ _}.
#[global] Arguments sv_authstore {_ _}.
#[global] Arguments sv_limits {_ _}.
#[global] Arguments sv_inflight {_ _}.
#[global] Arguments sv_works {_ _}.
#[global] Arguments sv_cluster {_ _}.
#[global] Arguments sv_stats {_ _}.
#[global] Arguments sv_max_connections {_ _}.
#[global] Arguments sv_max_message_size {_ _}.
#[global] Arguments sv_now {_ _}.
#[global] Arguments sv_uv {_ _}.
#[global] Arguments sv_next {_ _}.
#[global] Arguments sv_active {_ _}.
#[global] Arguments sv_throttle_started {_ _}.
#[global] Arguments sv_last_reported {_ _}.
#[global] Arguments sv_shutting_down {_ _}.
#[global] Arguments sv_shutdown_sent {_ _}.
#[global] Arguments sv_in_oracle {_ _}.

#[global] Instance server_settable M C : Settable (beaver_server M C) := fun s =>
  Server (sv_d s) (sv_protos s) (sv_conns s) (sv_conns_locked s) (sv_authstore s) (sv_limits s) (sv_inflight s) (sv_works s)
    (sv_cluster s) (sv_stats s) (sv_max_connections s) (sv_max_message_size s) (sv_now s) (sv_uv s) (sv_next s) (sv_active s)
    (sv_throttle_started s) (sv_last_reported s) (sv_shutting_down s) (sv_shutdown_sent s) (sv_in_oracle s).

(** * Computations of a worker *)

Section Proc.
Context {M : Type} `{!PtrMap M} {C : Type} `{!ClusterOps C}.

Definition proc (A : Type) : Type := beaver_server M C -> option (A * beaver_server M C).

#[global] Instance proc_ret : MRet proc := fun A a s => Some (a, s).
#[global] Instance proc_bind : MBind proc := fun A B f m s =>
  match m s with
  | Some (a, s) => f a s
  | None => None
  end.

Definition gets {A} (f : beaver_server M C -> A) : proc A := fun s => Some (f s, s).
Definition modify (f : beaver_server M C -> beaver_server M C) : proc unit := fun s => Some (tt, f s).

(** A value that must be there. *)
Definition the {A} (f : beaver_server M C -> option A) : proc A := fun s => (fun a => (a, s)) <$> f s.

Definition on_d {A} (f : dispatcher M -> A * dispatcher M) : proc A := fun s =>
  let '(a, d) := f (sv_d s) in Some (a, s <| sv_d := d |>).
Definition mod_d (f : dispatcher M -> dispatcher M) : proc unit := modify (fun s => s <| sv_d ::= f |>).
Definition try_d {A} (f : dispatcher M -> option (A * dispatcher M)) : proc A := fun s =>
  '(a, d) ← f (sv_d s); Some (a, s <| sv_d := d |>).

(** The broker of the process. *)
Definition on_broker {A} (f : world M -> A * world M) : proc A :=
  on_d (fun d => let '(a, w) := f (d_world d) in (a, d <| d_world := w |>)).

Definition get_conn (k : positive) : proc beaver_conn := the (fun s => d_conns (sv_d s) !! k).
Definition mod_conn (k : positive) (f : beaver_conn -> beaver_conn) : proc unit :=
  cn ← get_conn k; mod_d (fun d => d <| d_conns ::= <[k := f cn]> |>).

Definition get_proto (k : positive) : proc proto := the (fun s => sv_protos s !! k).
Definition mod_proto (k : positive) (f : proto -> proto) : proc unit :=
  p ← get_proto k; modify (fun s => s <| sv_protos ::= <[k := f p]> |>).

Definition alloc : proc bool := on_d d_malloc.

(** The outcome of a call of libuv. *)
Definition uv_call : proc bool := fun s =>
  match sv_uv s with
  | [] => Some (true, s)
  | r :: rest => Some (r, s <| sv_uv := rest |>)
  end.

Fixpoint each {A} (f : A -> proc unit) (l : list A) : proc unit :=
  match l with
  | [] => mret tt
  | x :: l => f x;; each f l
  end.

(** The answer of the cluster, which must be there. *)
Definition on_cluster {A} (f : C -> A * C) : proc A := fun s =>
  match sv_cluster s with
  | Some c => let '(a, c) := f c in Some (a, s <| sv_cluster := Some c |>)
  | None => None
  end.

(** [cluster && cluster_should_throttle(cluster)] *)
Definition cluster_throttled : proc bool := fun s =>
  match sv_cluster s with
  | Some c => let '(b, c) := cluster_should_throttle c in Some (b, s <| sv_cluster := Some c |>)
  | None => Some (false, s)
  end.

(** * Connections *)

Definition lock_conns : proc unit := fun s => if sv_conns_locked s then None else Some (tt, s <| sv_conns_locked := true |>).
Definition unlock_conns : proc unit := modify (fun s => s <| sv_conns_locked := false |>).

Definition conn_list_push (k : positive) : proc unit :=
  lock_conns;; modify (fun s => s <| sv_conns ::= cons k |>);; unlock_conns.

(** The connection must be in the list: the links of one that is not would make the
    list empty. *)
Definition conn_list_remove (k : positive) : proc unit :=
  lock_conns;;
  l ← gets sv_conns;
  if bool_decide (k ∈ l) then modify (fun s => s <| sv_conns ::= filter (fun x => x <> k) |>);; unlock_conns else (fun _ => None).

(** The connections the callback sees. *)
Definition beaver_server_foreach_conn : proc (list positive) :=
  lock_conns;; l ← gets sv_conns; unlock_conns;; mret l.

Definition send (k : positive) (data : bytes) : proc Z :=
  cn ← get_conn k;
  rc ← on_d (fun d => let '(rc, cn, n) := beaver_conn_send data cn (d_net d) in
                      (rc, d <| d_net := n |> <| d_conns ::= <[k := cn]> |>));
  mret rc.

Definition conn_close_handles (k : positive) : proc unit :=
  mod_conn k (fun cn =>
    let cn := if (1 <? cn_n_handles cn)%nat then cn <| cn_hb_timer := timer_off |> <| cn_timer_closing := true |> else cn in
    cn <| cn_tcp_closing := true |>).

Definition beaver_conn_close (k : positive) : proc unit :=
  cn ← get_conn k;
  if cn_closing cn then mret tt
  else
    mod_d (drop_conn k);;
    conn_list_remove k;;
    modify (fun s => s <| sv_stats ::= fun st => st <| st_active_conns ::= fun n => n - 1 |> |>);;
    conn_close_handles k.

Definition beaver_conn_enable_heartbeat (k : positive) (seconds : Z) : proc unit :=
  cn ← get_conn k;
  if (seconds =? 0) || (cn_n_handles cn <? 2)%nat || cn_closing cn then mret tt
  else
    now ← gets sv_now;
    let ms := u32 (seconds * 1000) in
    mod_conn k (fun cn => cn <| cn_hb_interval_ms := ms |> <| cn_last_recv_ms := now |> <| cn_hb_timer := timer_heartbeat (ms / 2) |>).

Definition beaver_conn_clear_handshake_timeout (k : positive) : proc unit :=
  cn ← get_conn k;
  if (cn_n_handles cn <? 2)%nat || cn_closing cn then mret tt else mod_conn k (fun cn => cn <| cn_hb_timer := timer_off |>).

Definition beaver_conn_throttle_read (k : positive) : proc unit :=
  cn ← get_conn k;
  if cn_read_paused cn || cn_closing cn then mret tt
  else
    mod_conn k (fun cn => cn <| cn_read_paused := true |>);;
    started ← gets sv_throttle_started;
    if started : bool then mret tt
    else modify (fun s => s <| sv_throttle_started := true |> <| sv_active ::= cons h_throttle_timer |>).
End Proc.
#[global] Arguments proc : clear implicits.
