(* ===== verification/Protocol.v ===== *)
(** The AMQP 0-9-1 protocol engine: src/src/protocol.c.

    Every function of the file is a definition of the same name; [k] is the address
    of the connection, whose protocol state is [sv_protos s !! k].  A character
    array holds the string before its first NUL ([copy_str]).  Log lines are left
    out, as is the text of the errors that only reaches the log.  The verification
    of a password runs on another thread between [handle_start_ok], which queues
    the work, and [auth_work_after_cb]; a timer drives [pending_op_timer_cb]. *)

From S2P Require Import Prelude Tables CLib Frame AuthLimit Password AuthStore HashMap Message Queue Store Exchange Broker Net Dispatch Server.

(** * Constants *)

Definition AMQP_MAX_BODY_SIZE : Z := 128 * 1024 * 1024.
Definition AMQP_DEFAULT_FRAME_MAX : Z := 131072.
Definition AMQP_CHANNEL_MAX : Z := 2047.
Definition AMQP_HEARTBEAT_SECONDS : Z := 60.
Definition CLUSTER_WAIT_TIMEOUT_MS : Z := 5000.

Definition BMQP_CLASS_CONNECTION : Z := 10.
Definition BMQP_CLASS_CHANNEL : Z := 20.
Definition BMQP_CLASS_EXCHANGE : Z := 40.
Definition BMQP_CLASS_QUEUE : Z := 50.
Definition BMQP_CLASS_CONFIRM : Z := 85.

Definition BMQP_CONNECTION_START : Z := 10.
Definition BMQP_CONNECTION_START_OK : Z := 11.
Definition BMQP_CONNECTION_TUNE : Z := 30.
Definition BMQP_CONNECTION_TUNE_OK : Z := 31.
Definition BMQP_CONNECTION_OPEN : Z := 40.
Definition BMQP_CONNECTION_OPEN_OK : Z := 41.
Definition BMQP_CONNECTION_CLOSE : Z := 50.
Definition BMQP_CONNECTION_CLOSE_OK : Z := 51.
Definition BMQP_CONNECTION_BLOCKED : Z := 60.
Definition BMQP_CONNECTION_UNBLOCKED : Z := 61.
Definition BMQP_CHANNEL_OPEN : Z := 10.
Definition BMQP_CHANNEL_OPEN_OK : Z := 11.
Definition BMQP_CHANNEL_CLOSE : Z := 40.
Definition BMQP_CHANNEL_CLOSE_OK : Z := 41.
Definition BMQP_EXCHANGE_DECLARE : Z := 10.
Definition BMQP_EXCHANGE_DECLARE_OK : Z := 11.
Definition BMQP_QUEUE_DECLARE : Z := 10.
Definition BMQP_QUEUE_DECLARE_OK : Z := 11.
Definition BMQP_QUEUE_BIND : Z := 20.
Definition BMQP_QUEUE_BIND_OK : Z := 21.
Definition BMQP_QUEUE_DELETE : Z := 40.
Definition BMQP_QUEUE_DELETE_OK : Z := 41.
Definition BMQP_BASIC_QOS : Z := 10.
Definition BMQP_BASIC_QOS_OK : Z := 11.
Definition BMQP_BASIC_CONSUME : Z := 20.
Definition BMQP_BASIC_CONSUME_OK : Z := 21.
Definition BMQP_BASIC_CANCEL : Z := 30.
Definition BMQP_BASIC_CANCEL_OK : Z := 31.
Definition BMQP_BASIC_PUBLISH : Z := 40.
Definition BMQP_BASIC_RETURN : Z := 50.
Definition BMQP_BASIC_GET : Z := 70.
Definition BMQP_BASIC_GET_OK : Z := 71.
Definition BMQP_BASIC_GET_EMPTY : Z := 72.
Definition BMQP_BASIC_ACK : Z := 80.
Definition BMQP_BASIC_REJECT : Z := 90.
Definition BMQP_BASIC_NACK : Z := 120.
Definition BMQP_CONFIRM_SELECT : Z := 10.
Definition BMQP_CONFIRM_SELECT_OK : Z := 11.
Definition BMQP_FLAG_PASSIVE : Z := 0x01.
Definition BMQP_FLAG_DURABLE : Z := 0x02.
Definition BMQP_FLAG_EXCLUSIVE : Z := 0x04.

(** [bits & flag] as a condition. *)
Definition has_flag (bits flag : Z) : bool := negb (Z.land bits flag =? 0).

(** * Helpers *)

(** The string that [copy_str] leaves in a buffer of [cap] bytes. *)
Definition copy_str (cap : nat) (src : bytes) : bytes := c_string (take (cap - 1) src).

Definition name_ok (s : bytes) : bool := forallb (fun c => negb ((c <? 32) || (c =? 127))) s.

(** [strrchr]: the part before the last occurrence. *)
Fixpoint before_last (c : Z) (s : bytes) : option bytes :=
  match s with
  | [] => None
  | x :: s =>
      match before_last c s with
      | Some r => Some (x :: r)
      | None => if x =? c then Some [] else None
      end
  end.

(** [%PRIu64]. *)
Definition print_u64 (v : Z) : bytes := digits 20 v.

(** ** Arguments of Queue.Declare *)

Record queue_args_t := QueueArgs {
  qa_overflow : option bytes; qa_max_length : option Z; qa_max_bytes : option Z; qa_dlx : option bytes; qa_dlx_rkey : bytes
}.

#[global] Instance queue_args_settable : Settable queue_args_t := fun a =>
  QueueArgs (qa_overflow a) (qa_max_length a) (qa_max_bytes a) (qa_dlx a) (qa_dlx_rkey a).

Definition is_type (type : Z) (s : string) : bool := existsb (Z.eqb type) (cstr s).

(** The result, the value and the reader. *)
Definition read_field_value (type : Z) (r : bmqp_reader) : bool * Z * bmqp_reader :=
  if is_type type "tbB" then let '(v, r) := bmqp_read_u8 r in (negb (r_error r), v, r)
  else if is_type type "suU" then let '(v, r) := bmqp_read_u16 r in (negb (r_error r), v, r)
  else if is_type type "Iif" then let '(v, r) := bmqp_read_u32 r in (negb (r_error r), v, r)
  else if is_type type "lLTd" then let '(v, r) := bmqp_read_u64 r in (negb (r_error r), v, r)
  else if is_type type "D" then
    let '(_, r) := bmqp_read_u8 r in let '(_, r) := bmqp_read_u32 r in (negb (r_error r), 0, r)
  else if is_type type "V" then (negb (r_error r), 0, r)
  else if is_type type "SxAF" then let '(_, r) := bmqp_read_longstr r in (negb (r_error r), 0, r)
  else (false, 0, r <| r_error := true |>).

(** The loop over the table; an entry has at least two bytes, so [fuel] = its
    length is enough. *)
Fixpoint parse_entries (fuel : nat) (r : bmqp_reader) (out : queue_args_t) : queue_args_t :=
  match fuel with
  | O => out
  | S fuel =>
      if r_error r || negb (0 <? bmqp_reader_remaining r) then out
      else
        let '(name, r) := bmqp_read_shortstr r in
        let '(type, r) := bmqp_read_u8 r in
        match name with
        | Some name =>
            if r_error r then out
            else
              let string_key key := is_type type "S" && bool_decide (name = cstr key) in
              if string_key "x-overflow" then
                let '(v, r) := bmqp_read_longstr r in
                if r_error r then out else parse_entries fuel r (out <| qa_overflow := Some (copy_str 32 (default [] v)) |>)
              else if string_key "x-dead-letter-exchange" then
                let '(v, r) := bmqp_read_longstr r in
                if r_error r then out else parse_entries fuel r (out <| qa_dlx := Some (copy_str 256 (default [] v)) |>)
              else if string_key "x-dead-letter-routing-key" then
                let '(v, r) := bmqp_read_longstr r in
                if r_error r then out else parse_entries fuel r (out <| qa_dlx_rkey := copy_str 256 (default [] v) |>)
              else
                let '(ok, ival, r) := read_field_value type r in
                if negb ok then out
                else if bool_decide (name = cstr "x-max-length") then parse_entries fuel r (out <| qa_max_length := Some ival |>)
                else if bool_decide (name = cstr "x-max-length-bytes") then parse_entries fuel r (out <| qa_max_bytes := Some ival |>)
                else parse_entries fuel r out
        | None => out
        end
  end.

Definition parse_queue_args (tbl : bytes) : queue_args_t :=
  let out := QueueArgs None None None None [] in
  if (length tbl =? 0)%nat then out
  else parse_entries (length tbl) (bmqp_reader_init tbl (Z.of_nat (length tbl))) out.

(** ** Input buffer *)

Definition inbuf_append (data : bytes) (p : proto) (o : oracle) : bool * proto * oracle :=
  let p := if (0 <? pr_inbuf_pos p)%nat
           then p <| pr_inbuf ::= drop (pr_inbuf_pos p) |> <| pr_inbuf_pos := 0%nat |> else p in
  let len := Z.of_nat (length (pr_inbuf p)) in
  let need := u64 (len + Z.of_nat (length data)) in
  if need <? len then (false, p, o)
  else
    let '(ok, p, o) :=
      if pr_inbuf_cap p <? need then
        let newcap := grow_cap 64 (if pr_inbuf_cap p =? 0 then 256 else pr_inbuf_cap p) need in
        let '(ok, o) := malloc o in
        (ok, if ok then p <| pr_inbuf_cap := newcap |> else p, o)
      else (true, p, o) in
    if ok then (true, p <| pr_inbuf ::= fun b => b ++ data |>, o) else (false, p, o).

(** ** Channels *)

Definition is_channel (ch : Z) (c : proto_chan_t) : Prop := ch_id c = ch.
#[global] Instance is_channel_dec ch c : Decision (is_channel ch c) := decide (ch_id c = ch).

(** Its index and the channel. *)
Definition channel_find (p : proto) (ch : Z) : option (nat * proto_chan_t) := list_find (is_channel ch) (pr_channels p).

Definition channel_is_open (p : proto) (ch : Z) : bool := match channel_find p ch with Some _ => true | None => false end.

Section Protocol.
Context {M : Type} `{!PtrMap M} {C : Type} `{!ClusterOps C}.
Context (regexec : bytes -> bytes -> bool) (fuel : nat).
Abbreviation proc A := (proc M C A).

Definition channel_add (k : positive) (ch : Z) : proc bool :=
  p ← get_proto k;
  ok ← (if (length (pr_channels p) =? pr_cap_channels p)%nat then
          ok ← alloc;
          (if ok : bool then
             mod_proto k (fun p => p <| pr_cap_channels := if (pr_cap_channels p =? 0)%nat then 4%nat else (pr_cap_channels p * 2)%nat |>)
           else mret tt);;
          mret ok
        else mret true);
  if ok : bool then mod_proto k (fun p => p <| pr_channels ::= fun l => l ++ [Chan ch 0 [] 0 false 0] |>);; mret true
  else mret false.

(** One Basic.Get delivery of a channel that goes away. *)
Definition release_get (d : dispatcher M) (g : get_unacked_t) : dispatcher M :=
  d_unref (gu_queue g) (d_heap (message_unref (Some (gu_msg g))) (snd (requeue (gu_queue g) (gu_msg g) d))).

Definition chan_release_get_unacked (pc : proto_chan_t) : proc unit :=
  mod_d (fun d => foldl release_get d (ch_get_unacked pc)).

Definition channel_remove (k : positive) (ch : Z) : proc unit :=
  p ← get_proto k;
  match channel_find p ch with
  | Some (i, pc) => chan_release_get_unacked pc;; mod_proto k (fun p => p <| pr_channels ::= swap_remove i |>)
  | None => mret tt
  end.

Definition set_chan (k : positive) (i : nat) (f : proto_chan_t -> proto_chan_t) : proc unit :=
  mod_proto k (fun p => p <| pr_channels ::= alter f i |>).

Definition chan_get_unacked_add (k : positive) (i : nat) (pc : proto_chan_t) (g : get_unacked_t) : proc bool :=
  ok ← (if (length (ch_get_unacked pc) =? ch_cap_get_unacked pc)%nat then
          ok ← alloc;
          (if ok : bool then
             set_chan k i (fun c => c <| ch_cap_get_unacked := if (ch_cap_get_unacked c =? 0)%nat then 8%nat else (ch_cap_get_unacked c * 2)%nat |>)
           else mret tt);;
          mret ok
        else mret true);
  if ok : bool then set_chan k i (fun c => c <| ch_get_unacked ::= fun l => l ++ [g] |>);; mret true else mret false.

(** The loop over the deliveries, from index [j]; [rounds] bounds the iterations.
    Returns how many were settled and those left. *)
Fixpoint get_settle_loop (rounds : nat) (delivery_tag : Z) (multiple back rejected : bool) (j settled : nat)
    (gs : list get_unacked_t) (d : dispatcher M) : option (nat * list get_unacked_t * dispatcher M) :=
  match rounds with
  | O => Some (settled, gs, d)
  | S rounds =>
      match gs !! j with
      | None => Some (settled, gs, d)
      | Some g =>
          if tag_matches multiple delivery_tag (gu_tag g) then
            d ← settle_one fuel (gu_queue g) back rejected (gu_msg g) d;
            let d := d_unref (gu_queue g) d in
            if multiple then get_settle_loop rounds delivery_tag multiple back rejected j (S settled) (swap_remove j gs) d
            else Some (S settled, swap_remove j gs, d)
          else get_settle_loop rounds delivery_tag multiple back rejected (S j) settled gs d
      end
  end.

Definition chan_get_unacked_settle (k : positive) (i : nat) (pc : proto_chan_t) (delivery_tag : Z)
    (multiple back rejected : bool) : proc nat :=
  '(n, gs) ← try_d (fun d => '(n, gs, d) ← get_settle_loop (length (ch_get_unacked pc)) delivery_tag multiple back rejected 0 0
                                             (ch_get_unacked pc) d; Some ((n, gs), d));
  set_chan k i (fun c => c <| ch_get_unacked := gs |>);; mret n.

(** * Exclusive queues *)

Definition track_exclusive_queue (k : positive) (name : bytes) : proc unit :=
  p ← get_proto k;
  if bool_decide (name ∈ pr_excl_queues p) then mret tt
  else
    ok ← (if (length (pr_excl_queues p) =? pr_cap_excl p)%nat then
            ok ← alloc;
            (if ok : bool then mod_proto k (fun p => p <| pr_cap_excl := if (pr_cap_excl p =? 0)%nat then 4%nat else (pr_cap_excl p * 2)%nat |>)
             else mret tt);;
            mret ok
          else mret true);
    if ok : bool then
      dup ← alloc;
      if dup : bool then mod_proto k (fun p => p <| pr_excl_queues ::= fun l => l ++ [name] |>) else mret tt
    else mret tt.

Definition delete_exclusive_queues (k : positive) : proc unit :=
  p ← get_proto k;
  on_broker (fun w => (tt, foldl (fun w name => snd (broker_delete_queue (pr_vhost p) name false false w)) w (pr_excl_queues p)));;
  mod_proto k (fun p => p <| pr_excl_queues := [] |> <| pr_cap_excl := 0%nat |>).

(** * Teardown *)

(** [cancel_pending_ops], for one channel or for all. *)
Definition cancel_pending_ops (k : positive) (channel : option Z) : proc unit :=
  mod_proto k (fun p => p <| pr_pending_ops ::= fun l =>
    match channel with Some ch => filter (fun op => op_channel op <> u16 ch) l | None => [] end |>).

Definition detach_pending_op (k : positive) (id : positive) : proc unit :=
  mod_proto k (fun p => p <| pr_pending_ops ::= filter (fun op => op_id op <> id) |>).

Definition publish_reset (p : proto) : proto :=
  p <| pr_pub_body := None |> <| pr_pub_props := [] |> <| pr_pub_active := false |> <| pr_pub_have_header := false |>
    <| pr_pub_mandatory := false |> <| pr_pub_body_size := 0 |>.

Definition publish_state (k : positive) (s : bmqp_state_t) : proc unit :=
  mod_proto k (fun p => p <| pr_state := s |>);; mod_conn k (fun cn => cn <| cn_amqp_state := state_num s |>).

Definition proto_advance (k : positive) (s : bmqp_state_t) : proc unit :=
  p ← get_proto k;
  if bool_decide (pr_state p = BMQP_STATE_CLOSING) || (state_num s <=? state_num (pr_state p)) then mret tt
  else publish_state k s.

Definition proto_close (k : positive) : proc unit :=
  p ← get_proto k;
  if bool_decide (pr_state p = BMQP_STATE_CLOSING) then mret tt
  else publish_state k BMQP_STATE_CLOSING;; beaver_conn_close k.

Definition proto_fatal (k : positive) : proc unit := proto_close k.

(** * Outbound frames *)

(** Running a writer on a fresh buffer. *)
Definition build (f : bufst -> bufst) : proc bmqp_buf :=
  on_d (fun d => let '(b, o) := f (bmqp_buf_init, n_oracle (d_net d)) in (b, d <| d_net ::= fun n => n <| n_oracle := o |> |>)).

Definition protocol_send_method (k : positive) (channel class_id method_id : Z) (args : bytes) : proc Z :=
  pl ← build (fun b => bmqp_buf_put_bytes (bmqp_buf_put_u16 (bmqp_buf_put_u16 b class_id) method_id) args);
  frame ← build (fun b => bmqp_frame_write b BMQP_FRAME_METHOD channel (b_data pl));
  if negb (b_error pl) && negb (b_error frame) then send k (b_data frame) else mret (-1).

(** The body frames of [protocol_send_content]; [rounds] counts the frames. *)
Fixpoint send_body (rounds : nat) (k : positive) (channel : Z) (chunk : nat) (rem : bytes) : proc Z :=
  match rounds, rem with
  | S rounds, _ :: _ =>
      bf ← build (fun b => bmqp_frame_write b BMQP_FRAME_BODY channel (take chunk rem));
      rc ← (if b_error bf then mret (-1) else send k (b_data bf));
      if rc =? 0 then send_body rounds k channel chunk (drop chunk rem) else mret (-1)
  | _, _ => mret 0
  end.

Definition protocol_send_content (k : positive) (channel class_id : Z) (body props : bytes) (frame_max : Z) : proc Z :=
  hdr ← build (fun b =>
    let b := bmqp_buf_put_u64 (bmqp_buf_put_u16 (bmqp_buf_put_u16 b class_id) 0) (Z.of_nat (length body)) in
    match props with [] => bmqp_buf_put_u16 b 0 | _ => bmqp_buf_put_bytes b props end);
  frame ← build (fun b => bmqp_frame_write b BMQP_FRAME_HEADER channel (b_data hdr));
  rc ← (if b_error hdr || b_error frame then mret (-1) else send k (b_data frame));
  if negb (rc =? 0) then mret (-1)
  else
    let frame_max := if frame_max <? 1024 then AMQP_DEFAULT_FRAME_MAX else frame_max in
    send_body (length body) k channel (Z.to_nat (frame_max - BMQP_FRAME_OVERHEAD)) body.

(** [send_method], with the arguments already encoded; [None] for no arguments. *)
Definition send_method (k : positive) (channel class_id method_id : Z) (args : option bmqp_buf) : proc unit :=
  match args with
  | Some a =>
      if b_error a then proto_fatal k
      else rc ← protocol_send_method k channel class_id method_id (b_data a); if rc =? 0 then mret tt else proto_fatal k
  | None => rc ← protocol_send_method k channel class_id method_id []; if rc =? 0 then mret tt else proto_fatal k
  end.

(** The usual sequence: encode the arguments, send, free the buffer. *)
Definition send_args (k : positive) (channel class_id method_id : Z) (f : bufst -> bufst) : proc unit :=
  a ← build f; send_method k channel class_id method_id (Some a).

Definition send_connection_close (k : positive) (code : Z) (text : bytes) : proc unit :=
  send_args k 0 BMQP_CLASS_CONNECTION BMQP_CONNECTION_CLOSE (fun b =>
    bmqp_buf_put_u16 (bmqp_buf_put_u16 (bmqp_buf_put_shortstr (bmqp_buf_put_u16 b code) (Some text)) 0) 0);;
  proto_close k.

Definition send_channel_close (k : positive) (channel code : Z) (text : bytes) (class_id method_id : Z) : proc unit :=
  send_args k channel BMQP_CLASS_CHANNEL BMQP_CHANNEL_CLOSE (fun b =>
    bmqp_buf_put_u16 (bmqp_buf_put_u16 (bmqp_buf_put_shortstr (bmqp_buf_put_u16 b code) (Some text)) class_id) method_id);;
  cancel_pending_ops k (Some channel);;
  mod_d (dispatcher_remove_channel k channel);;
  channel_remove k channel.

Definition send_publish_confirm (k : positive) (channel tag : Z) (nack : bool) : proc unit :=
  send_args k channel BMQP_CLASS_BASIC (if nack then BMQP_BASIC_NACK else BMQP_BASIC_ACK) (fun b =>
    bmqp_buf_put_u8 (bmqp_buf_put_u64 b tag) 0).

Definition send_connection_blocked (k : positive) (reason : bytes) : proc unit :=
  send_args k 0 BMQP_CLASS_CONNECTION BMQP_CONNECTION_BLOCKED (fun b => bmqp_buf_put_shortstr b (Some reason)).

Definition send_connection_unblocked (k : positive) : proc unit :=
  send_method k 0 BMQP_CLASS_CONNECTION BMQP_CONNECTION_UNBLOCKED None.

Definition protocol_conn_unblock (k : positive) : proc unit :=
  p ← get_proto k;
  if negb (pr_conn_blocked p) then mret tt
  else mod_proto k (fun p => p <| pr_conn_blocked := false |>);; send_connection_unblocked k.

(** * Replies that wait for the cluster *)

Definition queue_declare_ok (k : positive) (channel : Z) (qname : bytes) (depth consumers : Z) : proc unit :=
  send_args k channel BMQP_CLASS_QUEUE BMQP_QUEUE_DECLARE_OK (fun b =>
    bmqp_buf_put_u32 (bmqp_buf_put_u32 (bmqp_buf_put_shortstr_n b qname (Z.of_nat (length qname))) depth) consumers).

Definition queue_delete_ok (k : positive) (channel depth : Z) : proc unit :=
  send_args k channel BMQP_CLASS_QUEUE BMQP_QUEUE_DELETE_OK (fun b => bmqp_buf_put_u32 b depth).

(** A lookup that only inspects the queue. *)
Definition inspect_queue {A} (vhost name : bytes) (f : queue -> A) : proc (option A) :=
  q ← on_broker (broker_get_queue vhost name);
  match q with
  | Some q => a ← the (fun s => f <$> st_queues (d_store (sv_d s)) !! q); mod_d (d_unref q);; mret (Some a)
  | None => mret None
  end.

Definition committed (k : positive) (op : pending_cluster_op) : proc unit :=
  match op_kind op with
  | PENDING_EXCHANGE_DECLARE_OK => send_method k (op_channel op) BMQP_CLASS_EXCHANGE BMQP_EXCHANGE_DECLARE_OK None
  | PENDING_QUEUE_DECLARE_OK =>
      p ← get_proto k;
      depth ← inspect_queue (pr_vhost p) (op_qname op) queue_depth;
      queue_declare_ok k (op_channel op) (op_qname op) (match depth with Some n => u32 (Z.of_nat n) | None => op_depth op end) 0
  | PENDING_QUEUE_BIND_OK => send_method k (op_channel op) BMQP_CLASS_QUEUE BMQP_QUEUE_BIND_OK None
  | PENDING_QUEUE_DELETE_OK => queue_delete_ok k (op_channel op) (op_depth op)
  | PENDING_PUBLISH_CONFIRM => mret tt
  end.

(** The tick of the timer of the operation [id]. *)
Definition pending_op_timer_cb (k : positive) (id : positive) : proc unit :=
  p ← get_proto k;
  match list_find (fun op => op_id op = id) (pr_pending_ops p) with
  | None => mret tt
  | Some (_, op) =>
      c ← the sv_cluster;
      now ← gets sv_now;
      let st := cluster_proposal_status c (op_seq op) in
      let waiting := match st with CL_PROPOSAL_PENDING => now <? op_deadline_ms op | _ => false end in
      if waiting : bool then mret tt
      else
        let ok := match st with CL_PROPOSAL_COMMITTED => true | _ => false end in
        detach_pending_op k id;;
        match op_kind op with
        | PENDING_PUBLISH_CONFIRM => send_publish_confirm k (op_channel op) (op_confirm_tag op) (negb ok)
        | _ =>
            if ok : bool then committed k op
            else send_channel_close k (op_channel op) 541 (cstr "INTERNAL_ERROR - cluster commit failed or timed out")
                   (op_class_id op) (op_method_id op)
        end
  end.

Definition add_pending (k : positive) (f : positive -> Z -> pending_cluster_op) : proc unit :=
  id ← gets sv_next;
  now ← gets sv_now;
  modify (fun s => s <| sv_next ::= Pos.succ |>);;
  mod_proto k (fun p => p <| pr_pending_ops ::= cons (f id (u64 (now + CLUSTER_WAIT_TIMEOUT_MS))) |>).

Definition await_cluster_commit (k : positive) (channel seq class_id method_id : Z) (kind : pending_kind_t) (qname : bytes)
    (depth : Z) : proc unit :=
  ok ← alloc;
  if ok : bool then
    add_pending k (fun id deadline => PendingOp id seq channel class_id method_id kind (snprintf_str 256 qname) depth 0 deadline)
  else send_channel_close k channel 541 (cstr "INTERNAL_ERROR - out of memory awaiting cluster commit") class_id method_id.

Definition await_publish_confirm (k : positive) (channel seq tag : Z) : proc unit :=
  ok ← alloc;
  if ok : bool then add_pending k (fun id deadline => PendingOp id seq channel 0 0 PENDING_PUBLISH_CONFIRM [] 0 tag deadline)
  else send_publish_confirm k channel tag true.

(** * Permissions *)

Definition perm_ok (k : positive) (kind : auth_perm_t) (object : bytes) : proc bool :=
  p ← get_proto k;
  as_ ← gets sv_authstore;
  match as_ with
  | None => mret true
  | Some a => the (fun _ => authstore_check regexec a (pr_user p) (pr_vhost p) kind object)
  end.

Definition refused (prefix object vhost user : bytes) : bytes :=
  snprintf_str 600 (prefix ++ object ++ cstr "' in vhost '" ++ vhost ++ cstr "' refused for user '" ++ user ++ cstr "'").

Definition require_perm (k : positive) (channel : Z) (kind : auth_perm_t) (object : bytes) (class_id method_id : Z) : proc bool :=
  ok ← perm_ok k kind object;
  if ok : bool then mret true
  else
    p ← get_proto k;
    send_channel_close k channel 403 (refused (cstr "ACCESS_REFUSED - access to '") object (pr_vhost p) (pr_user p)) class_id method_id;;
    mret false.

(** * Server properties *)

Definition put_table_str (b : bufst) (key val : string) : bufst :=
  bmqp_buf_put_longstr (bmqp_buf_put_u8 (bmqp_buf_put_shortstr b (Some (cstr key))) 83) (cstr val).

Definition put_table_bool (b : bufst) (key : string) (val : bool) : bufst :=
  bmqp_buf_put_u8 (bmqp_buf_put_u8 (bmqp_buf_put_shortstr b (Some (cstr key))) 116) (if val then 1 else 0).

(** A length-prefixed table from a buffer of its own; an error there leaves it
    empty. *)
Definition put_table (b : bufst) (t : bmqp_buf) : bufst :=
  if b_error t then bmqp_buf_put_u32 b 0
  else bmqp_buf_put_bytes (bmqp_buf_put_u32 b (u32 (Z.of_nat (length (b_data t))))) (b_data t).

Definition put_capabilities (b : bufst) : bufst :=
  let '(t, o) := b in
  let '(caps, o) := put_table_bool (put_table_bool (put_table_bool (bmqp_buf_init, o) "publisher_confirms" true) "basic.nack" true)
                      "connection.blocked" true in
  put_table (bmqp_buf_put_u8 (bmqp_buf_put_shortstr (t, o) (Some (cstr "capabilities"))) 70) caps.

Definition put_server_properties (b : bufst) : bufst :=
  let '(a, o) := b in
  let '(t, o) := put_capabilities (put_table_str (put_table_str (put_table_str (bmqp_buf_init, o) "product" "BeaverMQ") "version" "1.0.0")
                   "platform" "C") in
  put_table (a, o) t.

(** * Guards *)

Definition require_open (k : positive) : proc bool :=
  p ← get_proto k;
  if pr_connection_open p then mret true else proto_fatal k;; mret false.

Definition require_channel (k : positive) (channel : Z) : proc bool :=
  ok ← require_open k;
  if negb ok then mret false
  else
    p ← get_proto k;
    if (channel =? 0) || negb (channel_is_open p channel) then proto_fatal k;; mret false else mret true.

(** * The connection class *)

Definition send_connection_start (k : positive) : proc unit :=
  send_args k 0 BMQP_CLASS_CONNECTION BMQP_CONNECTION_START (fun b =>
    bmqp_buf_put_longstr (bmqp_buf_put_longstr (put_server_properties (bmqp_buf_put_u8 (bmqp_buf_put_u8 b 0) 9)) (cstr "PLAIN")) (cstr "en_US")).

Definition send_connection_tune (k : positive) (user : bytes) (tags : Z) : proc unit :=
  mod_proto k (fun p => p <| pr_user_tags := tags |> <| pr_user := copy_str 128 user |>);;
  send_args k 0 BMQP_CLASS_CONNECTION BMQP_CONNECTION_TUNE (fun b =>
    bmqp_buf_put_u16 (bmqp_buf_put_u32 (bmqp_buf_put_u16 b AMQP_CHANNEL_MAX) AMQP_DEFAULT_FRAME_MAX) AMQP_HEARTBEAT_SECONDS).

Definition authlimit_hash_begin : proc bool := fun s =>
  if sv_inflight s <? AUTHLIMIT_HASH_CONCURRENCY then Some (true, s <| sv_inflight ::= fun n => n + 1 |>) else Some (false, s).

Definition authlimit_hash_end : proc unit := modify (fun s => s <| sv_inflight ::= fun n => n - 1 |>).

Definition record_failure (ip : bytes) (now_ms : Z) : proc unit :=
  modify (fun s => s <| sv_limits ::= authlimit_record_failure (Some ip) now_ms |>).

(** The completion of a password verification; the work itself, [auth_work_cb], is
    the first step.  [cancelled] is the status UV_ECANCELED; [o] has the allocations
    of the hash, on the thread of the work. *)
Definition auth_work_after_cb (id : positive) (cancelled : bool) (o : oracle) : proc unit :=
  w ← the (fun s => sv_works s !! id);
  result ← the (fun _ => if aw_user_exists w then authstore_password_matches o (aw_stored w) (aw_pass w) else Some false);
  authlimit_hash_end;;
  modify (fun s => s <| sv_works ::= delete id |>);;
  match aw_conn w with
  | None => mret tt
  | Some k =>
      if cancelled then mret tt
      else
        mod_proto k (fun p => p <| pr_pending_auth := None |>);;
        if negb result then
          record_failure (aw_ip w) (aw_now_ms w);;
          send_connection_close k 403 (cstr "ACCESS_REFUSED - login refused")
        else
          modify (fun s => s <| sv_limits ::= authlimit_record_success (Some (aw_ip w)) |>);;
          as_ ← gets sv_authstore;
          tags ← match as_ with Some a => the (fun _ => authstore_user_tags a (aw_user w)) | None => mret 0 end;
          send_connection_tune k (aw_user w) tags
  end.

(** The user and the password of a SASL PLAIN response. *)
Definition sasl_plain (resp : bytes) : bytes * bytes :=
  let rlen := length resp in
  if (rlen =? 0)%nat then ([], [])
  else
    let u := S (length (c_string resp)) in
    let ue := (u + length (c_string (drop u resp)))%nat in
    let pw := S ue in
    (if (u <=? rlen)%nat then copy_str 128 (take (ue - u) (drop u resp)) else [],
     if (pw <=? rlen)%nat then copy_str 256 (drop pw resp) else []).

(** Starting the verification on another thread. *)
Definition start_auth (k : positive) (a : authstore) (user pass ip : bytes) (now_ms : Z) : proc unit :=
  ok ← alloc;
  if negb ok then authlimit_hash_end;; proto_fatal k
  else
    hash ← the (fun _ => authstore_lookup_hash a user AUTHSTORE_HASH_MAX);
    id ← gets sv_next;
    let w := AuthWork (Some k) (copy_str 128 user) (copy_str 64 ip) (copy_str 256 pass) (default [] hash) now_ms
               (match hash with Some _ => true | None => false end) in
    queued ← uv_call;
    if queued : bool then
      modify (fun s => s <| sv_next ::= Pos.succ |> <| sv_works ::= <[id := w]> |>);;
      mod_proto k (fun p => p <| pr_pending_auth := Some id |>)
    else mod_proto k (fun p => p <| pr_pending_auth := None |>);; authlimit_hash_end;; proto_fatal k.

Definition handle_start_ok (k : positive) (r : bmqp_reader) : proc unit :=
  let '(_, r) := bmqp_read_longstr r in
  let '(_, r) := bmqp_read_shortstr r in
  let '(resp, r) := bmqp_read_longstr r in
  let '(_, r) := bmqp_read_shortstr r in
  if r_error r then proto_fatal k
  else
    let '(user, pass) := sasl_plain (default [] resp) in
    as_ ← gets sv_authstore;
    match as_ with
    | None => send_connection_tune k user 0
    | Some a =>
        open ← the (fun _ => authstore_is_open a);
        if open : bool then
          send_connection_close k 403
            (cstr "ACCESS_REFUSED - no users configured; create the first admin with 'beavermq add-user'")
        else
          cn ← get_conn k;
          let peer := copy_str 64 (cn_peer cn) in
          let ip := default peer (before_last 58 peer) in
          now ← gets sv_now;
          if (length user =? 0)%nat then
            record_failure ip now;; send_connection_close k 403 (cstr "ACCESS_REFUSED - login refused")
          else
            wait ← (fun s => let '(ms, tab) := authlimit_retry_after_ms (Some ip) now (sv_limits s) in Some (ms, s <| sv_limits := tab |>));
            slot ← (if 0 <? wait then mret false else authlimit_hash_begin);
            if negb slot then send_connection_close k 403 (cstr "ACCESS_REFUSED - too many attempts; retry later")
            else start_auth k a user pass ip now
    end.

Definition handle_tune_ok (k : positive) (r : bmqp_reader) : proc unit :=
  let '(channel_max, r) := bmqp_read_u16 r in
  let '(frame_max, r) := bmqp_read_u32 r in
  let '(heartbeat, r) := bmqp_read_u16 r in
  mod_proto k (fun p => p <| pr_channel_max := channel_max |> <| pr_frame_max := frame_max |> <| pr_heartbeat := heartbeat |>);;
  if r_error r then proto_fatal k
  else
    let frame_max := if (frame_max =? 0) || (AMQP_DEFAULT_FRAME_MAX <? frame_max) then AMQP_DEFAULT_FRAME_MAX else frame_max in
    mod_proto k (fun p => p <| pr_frame_max := frame_max |>);;
    mod_conn k (fun cn => cn <| cn_frame_max := frame_max |>);;
    if negb (heartbeat =? 0) then beaver_conn_enable_heartbeat k heartbeat else beaver_conn_clear_handshake_timeout k.

Definition handle_connection_open (k : positive) (r : bmqp_reader) : proc unit :=
  let '(vh, r) := bmqp_read_shortstr r in
  let '(_, r) := bmqp_read_shortstr r in
  let '(_, r) := bmqp_read_u8 r in
  if r_error r then proto_fatal k
  else
    let vhost := copy_str 128 (default [] vh) in
    mod_proto k (fun p => p <| pr_vhost := vhost |>);;
    if negb (name_ok vhost) then send_connection_close k 530 (cstr "NOT_ALLOWED - illegal vhost name")
    else
      let ready :=
        mod_proto k (fun p => p <| pr_connection_open := true |>);;
        send_args k 0 BMQP_CLASS_CONNECTION BMQP_CONNECTION_OPEN_OK (fun b => bmqp_buf_put_shortstr b (Some [])) in
      as_ ← gets sv_authstore;
      match as_ with
      | None => ready
      | Some a =>
          known ← the (fun _ => authstore_vhost_exists a vhost);
          if negb known then send_connection_close k 530 (cstr "NOT_ALLOWED - vhost not found")
          else
            p ← get_proto k;
            allowed ← the (fun _ => authstore_can_access_vhost a (pr_user p) vhost);
            if negb allowed then send_connection_close k 530 (cstr "NOT_ALLOWED - access to vhost refused") else ready
      end.

Definition handle_connection (k : positive) (channel method : Z) (r : bmqp_reader) : proc unit :=
  p ← get_proto k;
  if negb (channel =? 0) then proto_fatal k
  else match pr_pending_auth p with
  | Some _ => proto_fatal k
  | None =>
      if method =? BMQP_CONNECTION_START_OK then handle_start_ok k r
      else if method =? BMQP_CONNECTION_TUNE_OK then handle_tune_ok k r
      else if method =? BMQP_CONNECTION_OPEN then handle_connection_open k r
      else if method =? BMQP_CONNECTION_CLOSE then
        send_method k 0 BMQP_CLASS_CONNECTION BMQP_CONNECTION_CLOSE_OK None;; proto_close k
      else if method =? BMQP_CONNECTION_CLOSE_OK then proto_close k
      else proto_fatal k
  end.

(** * The channel class *)

Definition handle_channel_open (k : positive) (channel : Z) : proc unit :=
  if (channel =? 0) || (AMQP_CHANNEL_MAX <? channel) then proto_fatal k
  else
    p ← get_proto k;
    if channel_is_open p channel then proto_fatal k
    else
      added ← channel_add k channel;
      if negb added then proto_fatal k
      else
        proto_advance k BMQP_STATE_CHANNEL_OPEN;;
        send_args k channel BMQP_CLASS_CHANNEL BMQP_CHANNEL_OPEN_OK (fun b => bmqp_buf_put_longstr b []).

Definition handle_channel_close (k : positive) (channel : Z) : proc unit :=
  cancel_pending_ops k (Some channel);;
  mod_d (dispatcher_remove_channel k channel);;
  channel_remove k channel;;
  send_method k channel BMQP_CLASS_CHANNEL BMQP_CHANNEL_CLOSE_OK None.

Definition handle_channel (k : positive) (channel method : Z) (r : bmqp_reader) : proc unit :=
  ok ← require_open k;
  if negb ok then mret tt
  else if method =? BMQP_CHANNEL_OPEN then handle_channel_open k channel
  else if method =? BMQP_CHANNEL_CLOSE then handle_channel_close k channel
  else if method =? BMQP_CHANNEL_CLOSE_OK then mret tt
  else proto_fatal k.

(** * The exchange class *)

Definition in_vhost (prefix name vhost : bytes) : bytes :=
  snprintf_str 600 (prefix ++ name ++ cstr "' in vhost '" ++ vhost ++ cstr "'").

(** A proposal that the client waits for, unless it asked not to. *)
Definition propose (k : positive) (channel : Z) (call : cluster_call) (no_wait : bool) (failed : bytes) (class_id method_id : Z)
    (kind : pending_kind_t) (qname : bytes) (depth : Z) : proc unit :=
  seq ← on_cluster (cluster_replicate call);
  if no_wait then mret tt
  else if seq =? 0 then send_channel_close k channel 541 failed class_id method_id
  else await_cluster_commit k channel seq class_id method_id kind qname depth.

(** The exchange is declared on this node only. *)
Definition declare_exchange_local (k : positive) (channel : Z) (vhost ename : bytes) (xtype : exchange_type_t) (bits : Z)
    (no_wait : bool) : proc unit :=
  '(drc, _) ← on_broker (fun w => broker_declare_exchange vhost ename xtype (Z.land bits 0x0E) w);
  if drc =? -2 then
    send_channel_close k channel 406 (cstr "PRECONDITION_FAILED - exchange already declared with different type/flags")
      BMQP_CLASS_EXCHANGE BMQP_EXCHANGE_DECLARE
  else if negb (drc =? 0) then proto_fatal k
  else if no_wait then mret tt
  else send_method k channel BMQP_CLASS_EXCHANGE BMQP_EXCHANGE_DECLARE_OK None.

Definition exchange_probe (k : positive) (channel : Z) (vhost ename : bytes) (no_wait : bool) : proc unit :=
  exists_ ← gets (fun s => (length ename =? 0)%nat || broker_exchange_exists vhost ename (d_world (sv_d s)));
  if negb exists_ then
    send_channel_close k channel 404 (in_vhost (cstr "NOT_FOUND - no exchange '") ename vhost) BMQP_CLASS_EXCHANGE BMQP_EXCHANGE_DECLARE
  else if no_wait then mret tt
  else send_method k channel BMQP_CLASS_EXCHANGE BMQP_EXCHANGE_DECLARE_OK None.

Definition exchange_type_num (t : exchange_type_t) : Z :=
  match t with EXCHANGE_DIRECT => 0 | EXCHANGE_FANOUT => 1 | EXCHANGE_TOPIC => 2 | EXCHANGE_OTHER n => n end.

Definition handle_exchange_declare (k : positive) (channel : Z) (r : bmqp_reader) : proc unit :=
  let '(_, r) := bmqp_read_u16 r in
  let '(ex, r) := bmqp_read_shortstr r in
  let '(ty, r) := bmqp_read_shortstr r in
  let '(bits, r) := bmqp_read_u8 r in
  let '(_, r) := bmqp_read_longstr r in
  if r_error r then proto_fatal k
  else
    let no_wait := has_flag bits 0x10 in
    let ename := copy_str 256 (default [] ex) in
    let etype := copy_str 32 (default [] ty) in
    if negb (name_ok ename) then
      send_channel_close k channel 406 (cstr "PRECONDITION_FAILED - illegal exchange name") BMQP_CLASS_EXCHANGE BMQP_EXCHANGE_DECLARE
    else
      proto_advance k BMQP_STATE_ACTIVE;;
      ok ← require_perm k channel AUTH_CONFIGURE ename BMQP_CLASS_EXCHANGE BMQP_EXCHANGE_DECLARE;
      if negb ok then mret tt
      else
        p ← get_proto k;
        if has_flag bits BMQP_FLAG_PASSIVE then exchange_probe k channel (pr_vhost p) ename no_wait
        else
          let '(trc, xtype) := exchange_type_from_name (Some etype) in
          if negb (trc =? 0) then
            send_channel_close k channel 503
              (snprintf_str 300 (cstr "COMMAND_INVALID - unknown exchange type '" ++ etype ++ cstr "'")) BMQP_CLASS_EXCHANGE BMQP_EXCHANGE_DECLARE
          else
            cl ← gets sv_cluster;
            if (match cl with Some _ => has_flag bits BMQP_FLAG_DURABLE | None => false end) then
              propose k channel (cc_declare_exchange (pr_vhost p) ename (exchange_type_num xtype) (Z.land bits 0x0E)) no_wait
                (cstr "INTERNAL_ERROR - failed to replicate Exchange.Declare") BMQP_CLASS_EXCHANGE BMQP_EXCHANGE_DECLARE
                PENDING_EXCHANGE_DECLARE_OK [] 0
            else declare_exchange_local k channel (pr_vhost p) ename xtype bits no_wait.

Definition handle_exchange (k : positive) (channel method : Z) (r : bmqp_reader) : proc unit :=
  ok ← require_channel k channel;
  if negb ok then mret tt
  else if method =? BMQP_EXCHANGE_DECLARE then handle_exchange_declare k channel r
  else proto_fatal k.

(** * The queue class *)

Definition queue_error (k : positive) (channel method code : Z) (text : bytes) : proc unit :=
  send_channel_close k channel code text BMQP_CLASS_QUEUE method.

Definition queue_probe (k : positive) (channel : Z) (vhost qname : bytes) (no_wait : bool) : proc unit :=
  r ← inspect_queue vhost qname (fun q => (queue_depth q, queue_consumer_count q));
  match r with
  | None => queue_error k channel BMQP_QUEUE_DECLARE 404 (in_vhost (cstr "NOT_FOUND - no queue '") qname vhost)
  | Some (depth, consumers) =>
      if no_wait then mret tt else queue_declare_ok k channel qname (u32 (Z.of_nat depth)) (u32 consumers)
  end.

(** The overflow policy of the arguments: drop-head or not. *)
Definition drop_head_policy (qa : queue_args_t) : bool := bool_decide (qa_overflow qa = Some (cstr "drop-head")).

(** A durable queue that is not exclusive belongs to the cluster. *)
Definition declare_queue_cluster (k : positive) (channel : Z) (vhost qname : bytes) (bits : Z) (qa : queue_args_t)
    (no_wait : bool) : proc unit :=
  flags ← inspect_queue vhost qname queue_flags;
  if (match flags with Some f => negb (f =? Z.land bits 0x0E) | None => false end) then
    queue_error k channel BMQP_QUEUE_DECLARE 406 (cstr "PRECONDITION_FAILED - queue already declared with different flags")
  else
    propose k channel
      (cc_declare_queue vhost qname (Z.land bits 0x0E) (if drop_head_policy qa then 1 else 0) (default 0 (qa_max_length qa))
         (default 0 (qa_max_bytes qa)) (default [] (qa_dlx qa)) (match qa_dlx qa with Some _ => qa_dlx_rkey qa | None => [] end))
      no_wait (cstr "INTERNAL_ERROR - failed to replicate Queue.Declare") BMQP_CLASS_QUEUE BMQP_QUEUE_DECLARE
      PENDING_QUEUE_DECLARE_OK qname 0.

(** The policy of a queue that was just created. *)
Definition apply_queue_args (vhost qname : bytes) (qa : queue_args_t) : proc unit :=
  if bool_decide (qa_overflow qa = None) && bool_decide (qa_max_length qa = None) && bool_decide (qa_max_bytes qa = None)
     && bool_decide (qa_dlx qa = None) then mret tt
  else
    q ← on_broker (broker_get_queue vhost qname);
    match q with
    | None => mret tt
    | Some q =>
        mod_d (pure_queue q (queue_set_limits (default 0 (qa_max_length qa)) (default 0 (qa_max_bytes qa))
                 (if drop_head_policy qa then QUEUE_OVERFLOW_DROP_HEAD else QUEUE_OVERFLOW_REJECT_PUBLISH)));;
        match qa_dlx qa with
        | Some dlx => on_broker (fun w => (tt, broker_set_queue_dead_letter q (Some dlx) (Some (qa_dlx_rkey qa)) w))
        | None => mret tt
        end;;
        mod_d (d_unref q)
    end.

(** The first declarer of an exclusive queue owns it; returns whether to go on. *)
Definition claim_exclusive (k : positive) (channel : Z) (vhost qname : bytes) : proc bool :=
  q ← on_broker (broker_get_queue vhost qname);
  match q with
  | None => mret true
  | Some q =>
      cn ← get_conn k;
      owner ← the (fun s => queue_exclusive_owner <$> st_queues (d_store (sv_d s)) !! q);
      if negb (owner =? 0) && negb (owner =? cn_id cn) then
        mod_d (d_unref q);;
        queue_error k channel BMQP_QUEUE_DECLARE 405 (cstr "RESOURCE_LOCKED - queue is exclusive to another connection");;
        mret false
      else
        (if owner =? 0 then mod_d (pure_queue q (queue_set_exclusive_owner (cn_id cn))) else mret tt);;
        mod_d (d_unref q);;
        track_exclusive_queue k qname;;
        mret true
  end.

Definition declare_queue_local (k : positive) (channel : Z) (vhost qname : bytes) (bits : Z) (qa : queue_args_t)
    (no_wait : bool) : proc unit :=
  '(drc, depth, created) ← on_broker (fun w => broker_declare_queue vhost qname (Z.land bits 0x0E) w);
  if drc =? -2 then
    queue_error k channel BMQP_QUEUE_DECLARE 406 (cstr "PRECONDITION_FAILED - queue already declared with different flags")
  else if negb (drc =? 0) then proto_fatal k
  else
    (if created : bool then apply_queue_args vhost qname qa else mret tt);;
    go ← (if has_flag bits BMQP_FLAG_EXCLUSIVE then claim_exclusive k channel vhost qname else mret true);
    if negb go then mret tt
    else if no_wait then mret tt
    else queue_declare_ok k channel qname depth 0.

(** [amq.gen-<id>-<seq>]. *)
Definition generated (prefix : string) (id seq : Z) : bytes := cstr prefix ++ print_u64 id ++ cstr "-" ++ print_u64 seq.

Definition next_seq (k : positive) : proc Z :=
  p ← get_proto k;
  let seq := u64 (pr_consumer_seq p + 1) in
  mod_proto k (fun p => p <| pr_consumer_seq := seq |>);; mret seq.

Definition handle_queue_declare (k : positive) (channel : Z) (r : bmqp_reader) : proc unit :=
  let '(_, r) := bmqp_read_u16 r in
  let '(q, r) := bmqp_read_shortstr r in
  let '(bits, r) := bmqp_read_u8 r in
  let '(args, r) := bmqp_read_longstr r in
  if r_error r then proto_fatal k
  else
    let no_wait := has_flag bits 0x10 in
    let given := copy_str 256 (default [] q) in
    qname ← (if (length given =? 0)%nat then
               cn ← get_conn k; seq ← next_seq k; mret (snprintf_str 256 (generated "amq.gen-" (cn_id cn) seq))
             else mret given);
    if negb (length given =? 0)%nat && negb (name_ok qname) then
      queue_error k channel BMQP_QUEUE_DECLARE 406 (cstr "PRECONDITION_FAILED - illegal queue name")
    else
      proto_advance k BMQP_STATE_ACTIVE;;
      ok ← require_perm k channel AUTH_CONFIGURE qname BMQP_CLASS_QUEUE BMQP_QUEUE_DECLARE;
      if negb ok then mret tt
      else
        p ← get_proto k;
        if has_flag bits BMQP_FLAG_PASSIVE then queue_probe k channel (pr_vhost p) qname no_wait
        else
          let qa := parse_queue_args (default [] args) in
          if (match qa_dlx qa with Some dlx => negb (name_ok dlx) | None => false end) then
            queue_error k channel BMQP_QUEUE_DECLARE 406 (cstr "PRECONDITION_FAILED - illegal x-dead-letter-exchange")
          else
            cl ← gets sv_cluster;
            if (match cl with Some _ => has_flag bits BMQP_FLAG_DURABLE && negb (has_flag bits BMQP_FLAG_EXCLUSIVE) | None => false end)
            then declare_queue_cluster k channel (pr_vhost p) qname bits qa no_wait
            else declare_queue_local k channel (pr_vhost p) qname bits qa no_wait.

Definition handle_queue_bind (k : positive) (channel : Z) (r : bmqp_reader) : proc unit :=
  let '(_, r) := bmqp_read_u16 r in
  let '(q, r) := bmqp_read_shortstr r in
  let '(e, r) := bmqp_read_shortstr r in
  let '(key, r) := bmqp_read_shortstr r in
  let '(no_wait, r) := bmqp_read_u8 r in
  let '(_, r) := bmqp_read_longstr r in
  if r_error r then proto_fatal k
  else
    let no_wait := has_flag no_wait 0x01 in
    let qname := copy_str 256 (default [] q) in
    let ename := copy_str 256 (default [] e) in
    let key := copy_str 256 (default [] key) in
    if negb (name_ok qname) || negb (name_ok ename) then
      queue_error k channel BMQP_QUEUE_BIND 406 (cstr "PRECONDITION_FAILED - illegal queue/exchange name")
    else
      ok ← require_perm k channel AUTH_WRITE ename BMQP_CLASS_QUEUE BMQP_QUEUE_BIND;
      ok ← (if ok : bool then require_perm k channel AUTH_READ qname BMQP_CLASS_QUEUE BMQP_QUEUE_BIND else mret false);
      if negb ok then mret tt
      else
        p ← get_proto k;
        flags ← inspect_queue (pr_vhost p) qname queue_flags;
        cl ← gets sv_cluster;
        if (match cl, flags with Some _, Some f => has_flag f BMQP_FLAG_DURABLE | _, _ => false end) then
          known ← gets (fun s => broker_exchange_exists (pr_vhost p) ename (d_world (sv_d s)));
          if negb known then
            queue_error k channel BMQP_QUEUE_BIND 404 (in_vhost (cstr "NOT_FOUND - no exchange '") ename (pr_vhost p))
          else
            propose k channel (cc_bind (pr_vhost p) qname ename key) no_wait (cstr "INTERNAL_ERROR - failed to replicate Queue.Bind")
              BMQP_CLASS_QUEUE BMQP_QUEUE_BIND PENDING_QUEUE_BIND_OK [] 0
        else
          rc ← on_broker (fun w => broker_bind (pr_vhost p) qname ename (Some key) w);
          if negb (rc =? 0) then
            queue_error k channel BMQP_QUEUE_BIND 404
              (snprintf_str 900 (cstr "NOT_FOUND - no queue '" ++ qname ++ cstr "' or exchange '" ++ ename ++
                                 cstr "' in vhost '" ++ pr_vhost p ++ cstr "'"))
          else if no_wait then mret tt
          else send_method k channel BMQP_CLASS_QUEUE BMQP_QUEUE_BIND_OK None.

(** The queue leaves the list of this connection's exclusive queues. *)
Definition forget_exclusive (qname : bytes) (l : list bytes) : list bytes :=
  match list_find (fun x => x = qname) l with
  | Some (i, _) => swap_remove i l
  | None => l
  end.

Definition handle_queue_delete (k : positive) (channel : Z) (r : bmqp_reader) : proc unit :=
  let '(_, r) := bmqp_read_u16 r in
  let '(q, r) := bmqp_read_shortstr r in
  let '(bits, r) := bmqp_read_u8 r in
  if r_error r then proto_fatal k
  else
    let if_unused := has_flag bits 0x01 in
    let if_empty := has_flag bits 0x02 in
    let no_wait := has_flag bits 0x04 in
    let qname := copy_str 256 (default [] q) in
    let err := queue_error k channel BMQP_QUEUE_DELETE in
    if negb (name_ok qname) then err 406 (cstr "PRECONDITION_FAILED - illegal queue name")
    else
      proto_advance k BMQP_STATE_ACTIVE;;
      ok ← require_perm k channel AUTH_CONFIGURE qname BMQP_CLASS_QUEUE BMQP_QUEUE_DELETE;
      if negb ok then mret tt
      else
        p ← get_proto k;
        seen ← inspect_queue (pr_vhost p) qname
                 (fun q => (queue_exclusive_owner q, has_flag (queue_flags q) BMQP_FLAG_DURABLE, u32 (Z.of_nat (queue_depth q)),
                            0 <? queue_consumer_count q));
        match seen with
        | None => err 404 (cstr "NOT_FOUND - no such queue")
        | Some (owner, was_durable, msgcount, has_consumers) =>
            cn ← get_conn k;
            if negb (owner =? 0) && negb (owner =? cn_id cn) then
              err 405 (cstr "RESOURCE_LOCKED - queue is exclusive to another connection")
            else if if_unused && has_consumers then err 406 (cstr "PRECONDITION_FAILED - queue in use (has consumers)")
            else if if_empty && (0 <? msgcount) then err 406 (cstr "PRECONDITION_FAILED - queue not empty")
            else
              cl ← gets sv_cluster;
              if (match cl with Some _ => was_durable | None => false end) then
                propose k channel (cc_delete_queue (pr_vhost p) qname) no_wait (cstr "INTERNAL_ERROR - failed to replicate Queue.Delete")
                  BMQP_CLASS_QUEUE BMQP_QUEUE_DELETE PENDING_QUEUE_DELETE_OK [] msgcount
              else
                '(rc, depth) ← on_broker (fun w => broker_delete_queue (pr_vhost p) qname if_unused if_empty w);
                mod_proto k (fun p => p <| pr_excl_queues ::= forget_exclusive qname |>);;
                if no_wait then mret tt
                else queue_delete_ok k channel (if rc =? 0 then depth else msgcount)
        end.

Definition handle_queue (k : positive) (channel method : Z) (r : bmqp_reader) : proc unit :=
  ok ← require_channel k channel;
  if negb ok then mret tt
  else if method =? BMQP_QUEUE_DECLARE then handle_queue_declare k channel r
  else if method =? BMQP_QUEUE_BIND then handle_queue_bind k channel r
  else if method =? BMQP_QUEUE_DELETE then handle_queue_delete k channel r
  else proto_fatal k.

(** * The confirm class *)

Definition handle_confirm (k : positive) (channel method : Z) (r : bmqp_reader) : proc unit :=
  ok ← require_channel k channel;
  if negb ok then mret tt
  else if negb (method =? BMQP_CONFIRM_SELECT) then proto_fatal k
  else
    let '(nowait, r) := bmqp_read_u8 r in
    if r_error r then proto_fatal k
    else
      p ← get_proto k;
      match channel_find p channel with
      | Some (i, _) => set_chan k i (fun c => c <| ch_confirm_mode := true |>)
      | None => mret tt
      end;;
      if has_flag nowait 0x01 then mret tt else send_method k channel BMQP_CLASS_CONFIRM BMQP_CONFIRM_SELECT_OK None.

(** * The basic class *)

Definition handle_qos (k : positive) (channel : Z) (r : bmqp_reader) : proc unit :=
  let '(_, r) := bmqp_read_u32 r in
  let '(prefetch, r) := bmqp_read_u16 r in
  let '(_, r) := bmqp_read_u8 r in
  if r_error r then proto_fatal k
  else
    p ← get_proto k;
    match channel_find p channel with
    | Some (i, _) => set_chan k i (fun c => c <| ch_prefetch := prefetch |>)
    | None => mret tt
    end;;
    mod_d (dispatcher_set_prefetch k channel prefetch);;
    send_method k channel BMQP_CLASS_BASIC BMQP_BASIC_QOS_OK None.

Definition handle_publish (k : positive) (channel : Z) (r : bmqp_reader) : proc unit :=
  let '(_, r) := bmqp_read_u16 r in
  let '(e, r) := bmqp_read_shortstr r in
  let '(key, r) := bmqp_read_shortstr r in
  let '(bits, r) := bmqp_read_u8 r in
  if r_error r then proto_fatal k
  else
    let exchange := copy_str 256 (default [] e) in
    mod_proto k (fun p => (publish_reset p) <| pr_pub_active := true |> <| pr_pub_mandatory := has_flag bits 0x01 |>
                            <| pr_pub_channel := channel |> <| pr_pub_exchange := exchange |>
                            <| pr_pub_routing_key := copy_str 256 (default [] key) |>);;
    if negb (name_ok exchange) then proto_fatal k else mret tt.

Definition handle_consume (k : positive) (channel : Z) (r : bmqp_reader) : proc unit :=
  let '(_, r) := bmqp_read_u16 r in
  let '(q, r) := bmqp_read_shortstr r in
  let '(t, r) := bmqp_read_shortstr r in
  let '(bits, r) := bmqp_read_u8 r in
  let '(_, r) := bmqp_read_longstr r in
  if r_error r then proto_fatal k
  else
    let no_ack := has_flag bits 0x02 in
    let no_wait := has_flag bits 0x08 in
    let qname := copy_str 256 (default [] q) in
    let given := copy_str 128 (default [] t) in
    ctag ← (if (length given =? 0)%nat then
              cn ← get_conn k; seq ← next_seq k; mret (snprintf_str 128 (generated "ctag-" (cn_id cn) seq))
            else mret given);
    if negb (name_ok qname) then
      send_channel_close k channel 406 (cstr "PRECONDITION_FAILED - illegal queue name") BMQP_CLASS_BASIC BMQP_BASIC_CONSUME
    else
      proto_advance k BMQP_STATE_ACTIVE;;
      ok ← require_perm k channel AUTH_READ qname BMQP_CLASS_BASIC BMQP_BASIC_CONSUME;
      if negb ok then mret tt
      else
        p ← get_proto k;
        rc ← on_d (dispatcher_add_consumer k channel ctag (pr_vhost p) qname no_ack
                     (match channel_find p channel with Some (_, c) => ch_prefetch c | None => 0 end));
        if negb (rc =? 0) then proto_fatal k
        else if no_wait then mret tt
        else send_args k channel BMQP_CLASS_BASIC BMQP_BASIC_CONSUME_OK (fun b => bmqp_buf_put_shortstr_n b ctag (Z.of_nat (length ctag))).

Definition handle_cancel (k : positive) (channel : Z) (r : bmqp_reader) : proc unit :=
  let '(t, r) := bmqp_read_shortstr r in
  let '(no_wait, r) := bmqp_read_u8 r in
  if r_error r then proto_fatal k
  else
    let ctag := copy_str 128 (default [] t) in
    mod_d (dispatcher_cancel k channel ctag);;
    if has_flag no_wait 0x01 then mret tt
    else send_args k channel BMQP_CLASS_BASIC BMQP_BASIC_CANCEL_OK (fun b => bmqp_buf_put_shortstr_n b ctag (Z.of_nat (length ctag))).

(** A Basic.Get that found a message. *)
Definition deliver_get (k : positive) (channel : Z) (no_ack : bool) (q : positive) (msg : message) : proc unit :=
  tag ← next_seq k;
  a ← (fun s => build (fun b =>
         bmqp_buf_put_u32 (bmqp_buf_put_shortstr (bmqp_buf_put_shortstr (bmqp_buf_put_u8 (bmqp_buf_put_u64 b tag) 0)
           (Some (m_exchange msg))) (Some (m_routing_key msg))) (u32 (Z.of_nat (d_at_queue 0%nat q queue_depth (sv_d s))))) s);
  send_method k channel BMQP_CLASS_BASIC BMQP_BASIC_GET_OK (Some a);;
  cn ← get_conn k;
  _ ← protocol_send_content k channel BMQP_CLASS_BASIC (m_body msg) (m_props msg) (cn_frame_max cn);
  if no_ack then
    mod_d (dispatcher_note_pull q (m_cluster_id msg));;
    mod_d (fun d => d_unref q (d_heap (message_unref (Some msg)) d))
  else
    p ← get_proto k;
    kept ← match channel_find p channel with
           | Some (i, pc) => chan_get_unacked_add k i pc (GetUnacked tag msg q)
           | None => mret false
           end;
    if kept : bool then mret tt
    else mod_d (fun d => d_unref q (d_heap (message_unref (Some msg)) d));; proto_fatal k.

Definition handle_get (k : positive) (channel : Z) (r : bmqp_reader) : proc unit :=
  let '(_, r) := bmqp_read_u16 r in
  let '(q, r) := bmqp_read_shortstr r in
  let '(no_ack, r) := bmqp_read_u8 r in
  if r_error r then proto_fatal k
  else
    let qname := copy_str 256 (default [] q) in
    if negb (name_ok qname) then
      send_channel_close k channel 406 (cstr "PRECONDITION_FAILED - illegal queue name") BMQP_CLASS_BASIC BMQP_BASIC_GET
    else
      ok ← require_perm k channel AUTH_READ qname BMQP_CLASS_BASIC BMQP_BASIC_GET;
      if negb ok then mret tt
      else
        p ← get_proto k;
        queue ← on_broker (broker_get_queue (pr_vhost p) qname);
        let empty := send_args k channel BMQP_CLASS_BASIC BMQP_BASIC_GET_EMPTY (fun b => bmqp_buf_put_shortstr b (Some [])) in
        match queue with
        | None => empty
        | Some q =>
            msg ← on_d (d_on_queue None q queue_dequeue);
            match msg with
            | None => mod_d (d_unref q);; empty
            | Some msg => deliver_get k channel (has_flag no_ack 0x01) q msg
            end
        end.

(** The deliveries of Basic.Get first, then those of the consumers. *)
Definition settle_both (k : positive) (channel delivery_tag : Z) (multiple back rejected : bool)
    (rest : dispatcher M -> option (dispatcher M)) : proc unit :=
  p ← get_proto k;
  got ← match channel_find p channel with
        | Some (i, pc) => chan_get_unacked_settle k i pc delivery_tag multiple back rejected
        | None => mret 0%nat
        end;
  if multiple || (got =? 0)%nat then try_d (fun d => d ← rest d; Some (tt, d)) else mret tt.

Definition handle_ack (k : positive) (channel : Z) (r : bmqp_reader) : proc unit :=
  let '(tag, r) := bmqp_read_u64 r in
  let '(bits, r) := bmqp_read_u8 r in
  if r_error r then proto_fatal k
  else
    let multiple := has_flag bits 0x01 in
    settle_both k channel tag multiple false false (dispatcher_ack fuel k channel tag multiple).

Definition handle_reject (k : positive) (channel : Z) (r : bmqp_reader) : proc unit :=
  let '(tag, r) := bmqp_read_u64 r in
  let '(bits, r) := bmqp_read_u8 r in
  if r_error r then proto_fatal k
  else
    let back := has_flag bits 0x01 in
    settle_both k channel tag false back (negb back) (dispatcher_nack fuel k channel tag false back).

Definition handle_nack (k : positive) (channel : Z) (r : bmqp_reader) : proc unit :=
  let '(tag, r) := bmqp_read_u64 r in
  let '(bits, r) := bmqp_read_u8 r in
  if r_error r then proto_fatal k
  else
    let multiple := has_flag bits 0x01 in
    let back := has_flag bits 0x02 in
    settle_both k channel tag multiple back (negb back) (dispatcher_nack fuel k channel tag multiple back).

Definition handle_basic (k : positive) (channel method : Z) (r : bmqp_reader) : proc unit :=
  ok ← require_channel k channel;
  if negb ok then mret tt
  else if method =? BMQP_BASIC_QOS then handle_qos k channel r
  else if method =? BMQP_BASIC_PUBLISH then handle_publish k channel r
  else if method =? BMQP_BASIC_CONSUME then handle_consume k channel r
  else if method =? BMQP_BASIC_CANCEL then handle_cancel k channel r
  else if method =? BMQP_BASIC_GET then handle_get k channel r
  else if method =? BMQP_BASIC_ACK then handle_ack k channel r
  else if method =? BMQP_BASIC_REJECT then handle_reject k channel r
  else if method =? BMQP_BASIC_NACK then handle_nack k channel r
  else proto_fatal k.

(** * Content *)

Definition props_is_persistent (props : bytes) : bool :=
  if (length props <? 2)%nat then false
  else
    let r := bmqp_reader_init props (Z.of_nat (length props)) in
    let '(flags, r) := bmqp_read_u16 r in
    if negb (has_flag flags 0x1000) then false
    else
      let r := if has_flag flags 0x8000 then snd (bmqp_read_shortstr r) else r in
      let r := if has_flag flags 0x4000 then snd (bmqp_read_shortstr r) else r in
      let r := if has_flag flags 0x2000 then snd (bmqp_read_longstr r) else r in
      let '(dm, r) := bmqp_read_u8 r in
      negb (r_error r) && (dm =? 2).

Definition send_basic_return (k : positive) (channel code : Z) (text exchange routing_key body props : bytes) : proc unit :=
  send_args k channel BMQP_CLASS_BASIC BMQP_BASIC_RETURN (fun b =>
    bmqp_buf_put_shortstr (bmqp_buf_put_shortstr (bmqp_buf_put_shortstr (bmqp_buf_put_u16 b code) (Some text)) (Some exchange)) (Some routing_key));;
  cn ← get_conn k;
  _ ← protocol_send_content k channel BMQP_CLASS_BASIC body props (cn_frame_max cn);
  mret tt.

(** The next publisher tag of the channel [i]. *)
Definition next_confirm (k : positive) (i : nat) : proc Z :=
  pc ← the (fun s => sv_protos s !! k ≫= (fun p => pr_channels p !! i));
  let tag := u64 (ch_confirm_seq pc + 1) in
  set_chan k i (fun c => c <| ch_confirm_seq := tag |>);; mret tag.

(** Routing in the broker, with the wakeups it sends to this worker's dispatcher. *)
Definition route (vhost : bytes) (msg : message) : proc Z :=
  try_d (fun d => '(rc, w) ← broker_route fuel vhost msg (d_world d); Some (rc, take_wakeups (d <| d_world := w |>))).

(** A publish that goes through the cluster; returns whether it was taken. *)
Definition publish_cluster (k : positive) (p : proto) (confirm : option nat) (body : bytes) : proc bool :=
  let call tracked := cc_publish tracked (pr_vhost p) (pr_pub_exchange p) (pr_pub_routing_key p) body (pr_pub_props p) in
  taken ← match confirm with
          | Some i =>
              seq ← on_cluster (cluster_replicate (call true));
              if seq =? 0 then mret false
              else tag ← next_confirm k i; await_publish_confirm k (pr_pub_channel p) seq tag;; mret true
          | None => rc ← on_cluster (cluster_replicate (call false)); mret (rc =? 0)
          end;
  (if taken : bool then busy ← cluster_throttled; if busy : bool then beaver_conn_throttle_read k else mret tt else mret tt);;
  mret taken.

(** A publish that is routed here; returns whether to go on. *)
Definition publish_local (k : positive) (p : proto) (confirm : option nat) (body : bytes) : proc bool :=
  msg ← on_d (fun d => let '(m, h) := message_new_full (Some (pr_pub_exchange p)) (Some (pr_pub_routing_key p)) body (Some (pr_pub_props p))
                                        (s_heap (w_sys (d_world d))) in (m, d_heap (fun _ => h) d));
  match msg with
  | None => proto_fatal k;; mret false
  | Some msg =>
      routed ← route (pr_vhost p) msg;
      mod_d (d_heap (message_unref (Some msg)));;
      match confirm with
      | Some i => tag ← next_confirm k i; send_publish_confirm k (pr_pub_channel p) tag (routed =? ROUTE_RESOURCE_ERROR)
      | None => mret tt
      end;;
      (if pr_pub_mandatory p && (routed =? ROUTE_UNROUTABLE) then
         send_basic_return k (pr_pub_channel p) 312 (cstr "NO_ROUTE") (pr_pub_exchange p) (pr_pub_routing_key p) body (pr_pub_props p)
       else mret tt);;
      mret true
  end.

(** The end of a publish that was taken: back to ACTIVE, and the memory alarm, which
    blocks the connection unless it consumes. *)
Definition published (k : positive) : proc unit :=
  proto_advance k BMQP_STATE_ACTIVE;;
  alarm ← gets (fun s => queue_memory_alarm_active (w_sys (d_world (sv_d s))) && negb (dispatcher_conn_has_consumers k (sv_d s)));
  (if alarm : bool then
     p ← get_proto k;
     (if pr_conn_blocked p then mret tt
      else mod_proto k (fun p => p <| pr_conn_blocked := true |>);; send_connection_blocked k (cstr "low on memory"));;
     beaver_conn_throttle_read k
   else mret tt);;
  mod_proto k publish_reset.

Definition finalize_publish (k : positive) (body : bytes) : proc unit :=
  p ← get_proto k;
  ok ← perm_ok k AUTH_WRITE (pr_pub_exchange p);
  if negb ok then
    send_channel_close k (pr_pub_channel p) 403
      (refused (cstr "ACCESS_REFUSED - write access to exchange '") (pr_pub_exchange p) (pr_vhost p) (pr_user p))
      BMQP_CLASS_BASIC BMQP_BASIC_PUBLISH;;
    mod_proto k publish_reset
  else
    let confirm := match channel_find p (pr_pub_channel p) with
                   | Some (i, pc) => if ch_confirm_mode pc then Some i else None
                   | None => None
                   end in
    clustered ← gets (fun s => bool_decide (is_Some (sv_cluster s)));
    if clustered && props_is_persistent (pr_pub_props p) then
      taken ← publish_cluster k p confirm body;
      if negb taken then
        send_channel_close k (pr_pub_channel p) 506 (cstr "RESOURCE_ERROR - cannot replicate publish; retry")
          BMQP_CLASS_BASIC BMQP_BASIC_PUBLISH;;
        mod_proto k publish_reset
      else published k
    else
      go ← publish_local k p confirm body;
      if go : bool then published k else mret tt.

(** * Content frames *)

Definition handle_content_header (k : positive) (hdr : bmqp_frame_header) (payload : bytes) : proc unit :=
  p ← get_proto k;
  if negb (fh_channel hdr =? pr_pub_channel p) then proto_fatal k
  else
    let r := bmqp_reader_init payload (fh_payload_len hdr) in
    let '(_, r) := bmqp_read_u16 r in
    let '(_, r) := bmqp_read_u16 r in
    let '(body_size, r) := bmqp_read_u64 r in
    if r_error r then proto_fatal k
    else
      max ← gets sv_max_message_size;
      let body_limit := if max =? 0 then AMQP_MAX_BODY_SIZE else max in
      if body_limit <? body_size then proto_fatal k
      else
        let props := drop (Z.to_nat (r_pos r)) payload in
        ok ← (if (0 <? length props)%nat then alloc else mret true);
        if negb ok then proto_fatal k
        else
          mod_proto k (fun p => (if (0 <? length props)%nat then p <| pr_pub_props := props |> else p)
                                  <| pr_pub_body_size := body_size |> <| pr_pub_have_header := true |>);;
          if body_size =? 0 then finalize_publish k [] else mret tt.

Definition handle_content_body (k : positive) (hdr : bmqp_frame_header) (payload : bytes) : proc unit :=
  p ← get_proto k;
  if negb (fh_channel hdr =? pr_pub_channel p) then proto_fatal k
  else
    let n := fh_payload_len hdr in
    if pr_pub_body_size p <? u64 (pr_pub_body_received p + n) then proto_fatal k
    else
      match pr_pub_body p with
      | None =>
          if n =? pr_pub_body_size p then finalize_publish k payload
          else
            ok ← alloc;
            if negb ok then proto_fatal k
            else mod_proto k (fun p => p <| pr_pub_body := Some payload |>)
      | Some got =>
          let body := got ++ payload in
          mod_proto k (fun p => p <| pr_pub_body := Some body |>);;
          if Z.of_nat (length body) =? pr_pub_body_size p then finalize_publish k body else mret tt
      end.

(** * Dispatch *)

Definition handle_method (k : positive) (channel : Z) (payload : bytes) : proc unit :=
  let r := bmqp_reader_init payload (Z.of_nat (length payload)) in
  let '(class_id, r) := bmqp_read_u16 r in
  let '(method_id, r) := bmqp_read_u16 r in
  if r_error r then proto_fatal k
  else if class_id =? BMQP_CLASS_CONNECTION then handle_connection k channel method_id r
  else if class_id =? BMQP_CLASS_CHANNEL then handle_channel k channel method_id r
  else if class_id =? BMQP_CLASS_EXCHANGE then handle_exchange k channel method_id r
  else if class_id =? BMQP_CLASS_QUEUE then handle_queue k channel method_id r
  else if class_id =? BMQP_CLASS_BASIC then handle_basic k channel method_id r
  else if class_id =? BMQP_CLASS_CONFIRM then handle_confirm k channel method_id r
  else proto_fatal k.

Definition dispatch_frame (k : positive) (hdr : bmqp_frame_header) (payload : bytes) : proc unit :=
  p ← get_proto k;
  let type := fh_type hdr in
  if pr_pub_active p then
    if negb (pr_pub_have_header p) then
      if negb (type =? BMQP_FRAME_HEADER) then proto_fatal k else handle_content_header k hdr payload
    else if negb (type =? BMQP_FRAME_BODY) then proto_fatal k
    else handle_content_body k hdr payload
  else if type =? BMQP_FRAME_METHOD then handle_method k (fh_channel hdr) payload
  else if type =? BMQP_FRAME_HEARTBEAT then mret tt
  else proto_fatal k.

(** * Entry points *)

Definition protocol_conn_new (k : positive) : proc bool :=
  ok ← alloc;
  if ok : bool then
    modify (fun s => s <| sv_protos ::= <[k := proto_zero]> |>);;
    mod_conn k (fun cn => cn <| cn_frame_max := AMQP_DEFAULT_FRAME_MAX |>);;
    mret true
  else mret false.

Definition protocol_conn_free (k : positive) : proc unit :=
  p ← get_proto k;
  match pr_pending_auth p with
  | Some a => modify (fun s => s <| sv_works ::= alter (fun w => w <| aw_conn := None |>) a |>)
  | None => mret tt
  end;;
  delete_exclusive_queues k;;
  cancel_pending_ops k None;;
  each chan_release_get_unacked (pr_channels p);;
  modify (fun s => s <| sv_protos ::= delete k |>).

(** The loop over the complete frames of the buffer; a frame has at least 8 bytes,
    so [rounds] = the bytes buffered is enough. *)
Fixpoint frames_loop (rounds : nat) (k : positive) : proc unit :=
  match rounds with
  | O => mret tt
  | S rounds =>
      p ← get_proto k;
      if bool_decide (pr_state p = BMQP_STATE_CLOSING) then mret tt
      else
        match bmqp_frame_parse (drop (pr_inbuf_pos p) (pr_inbuf p)) with
        | (n, Some (hdr, payload)) =>
            if (0 <? pr_frame_max p) && (pr_frame_max p <? fh_payload_len hdr) then proto_fatal k
            else
              dispatch_frame k hdr payload;;
              mod_proto k (fun p => p <| pr_inbuf_pos ::= fun i => (i + Z.to_nat n)%nat |>);;
              frames_loop rounds k
        | (n, None) => if n =? 0 then mret tt else proto_fatal k
        end
  end.

Definition AMQP_PROTOCOL_HEADER : bytes := cstr "AMQP" ++ [0; 0; 9; 1].

(** The protocol header, taken once; returns whether to go on to the frames. *)
Definition take_header (k : positive) : proc bool :=
  p ← get_proto k;
  let rest := drop (pr_inbuf_pos p) (pr_inbuf p) in
  if pr_header_received p then mret true
  else if (length rest <? 8)%nat then mret false
  else if negb (bool_decide (take 8 rest = AMQP_PROTOCOL_HEADER)) then
    _ ← send k AMQP_PROTOCOL_HEADER; proto_fatal k;; mret false
  else
    mod_proto k (fun p => p <| pr_header_received := true |> <| pr_inbuf_pos ::= fun i => (i + 8)%nat |>);;
    proto_advance k BMQP_STATE_HANDSHAKE;;
    send_connection_start k;;
    mret true.

Definition protocol_on_data (k : positive) (data : bytes) : proc unit :=
  p ← get_proto k;
  if bool_decide (pr_state p = BMQP_STATE_CLOSING) then mret tt
  else
    o ← gets sv_in_oracle;
    let '(ok, p, o) := inbuf_append data p o in
    modify (fun s => s <| sv_in_oracle := o |>);;
    mod_proto k (fun _ => p);;
    if negb ok then proto_fatal k
    else
      go ← take_header k;
      if negb go then mret tt
      else p ← get_proto k; frames_loop (S (length (pr_inbuf p))) k.

End Protocol.
