(* ===== verification/NetServer.v ===== *)
(** The network layer of a worker: the rest of src/src/net.c.

    Accepting, reading, the timers, the closing of connections and the shutdown of
    a worker.  A call back from libuv is a [proc]; the results of libuv's own calls
    are taken from [sv_uv].  [sv_active] holds the handles of the worker that keep
    [uv_run] from returning; those of the HTTP server are not among them. *)

From S2P Require Import Prelude Tables CLib Frame AuthLimit Password AuthStore HashMap Message Queue Store Exchange Broker Net Dispatch Server Protocol.

(** * Constants *)

Definition CONN_READ_BUF_MAX : Z := 64 * 1024.
Definition AMQP_HANDSHAKE_TIMEOUT_MS : Z := 10000.
Definition HEARTBEAT_FRAME : bytes := [8; 0; 0; 0; 0; 0; 0; 0xCE].

(** The peer's name from its address, when libuv knows it. *)
Definition fill_peername (addr : option (bytes * Z)) : bytes :=
  match addr with
  | None => cstr "unknown"
  | Some (ip, port) => snprintf_str 64 (ip ++ cstr ":" ++ print_u64 port)
  end.

Section NetServer.
Context {M : Type} `{!PtrMap M} {C : Type} `{!ClusterOps C}.
Context (regexec : bytes -> bytes -> bool) (fuel : nat).
Abbreviation proc A := (proc M C A).

(** * Reading *)

(** The size of the buffer given to libuv, 0 for none. *)
Definition alloc_buffer (k : positive) (suggested : Z) : proc Z :=
  cn ← get_conn k;
  let want := if CONN_READ_BUF_MAX <? suggested then CONN_READ_BUF_MAX else suggested in
  if cn_rbuf_cap cn <? want then
    ok ← alloc;
    if ok : bool then mod_conn k (fun cn => cn <| cn_rbuf_cap := want |>);; mret want else mret 0
  else mret (cn_rbuf_cap cn).

(** [on_read]: the bytes read, or an error. *)
Definition on_read (k : positive) (data : option bytes) : proc unit :=
  match data with
  | Some [] => mret tt
  | Some data =>
      let nread := Z.of_nat (length data) in
      now ← gets sv_now;
      mod_conn k (fun cn => cn <| cn_last_recv_ms := now |> <| cn_bytes_received ::= fun n => u64 (n + nread) |>);;
      modify (fun s => s <| sv_stats ::= fun st => st <| st_total_bytes ::= fun n => u64 (n + nread) |> |>);;
      protocol_on_data regexec fuel k data
  | None => beaver_conn_close k
  end.

(** * Closing *)

(** One of the handles of the connection is closed; the last one frees it. *)
Definition on_conn_handle_closed (k : positive) : proc unit :=
  mod_conn k (fun cn => cn <| cn_n_handles_closed ::= S |>);;
  cn ← get_conn k;
  if (cn_n_handles_closed cn <? cn_n_handles cn)%nat then mret tt
  else
    p ← gets (fun s => sv_protos s !! k);
    match p with Some _ => protocol_conn_free k | None => mret tt end;;
    mod_d (fun d => d <| d_conns ::= delete k |>).

(** * Timers of a connection *)

Definition on_heartbeat_timer (k : positive) : proc unit :=
  cn ← get_conn k;
  if cn_closing cn then mret tt
  else
    now ← gets sv_now;
    if 2 * cn_hb_interval_ms cn <? u64 (now - cn_last_recv_ms cn) then beaver_conn_close k
    else _ ← send k HEARTBEAT_FRAME; mret tt.

Definition on_handshake_timeout (k : positive) : proc unit :=
  cn ← get_conn k; if cn_closing cn then mret tt else beaver_conn_close k.

(** * Accepting *)

Definition mod_stats (f : beaver_stats_t -> beaver_stats_t) : proc unit := modify (fun s => s <| sv_stats ::= f |>).

(** The connection of the worker once [uv_accept] has succeeded. *)
Definition accepted (k : positive) (addr : option (bytes * Z)) : proc unit :=
  mod_conn k (fun cn => cn <| cn_peer := fill_peername addr |>);;
  mod_stats (fun st => st <| st_active_conns ::= fun n => n + 1 |>);;
  s ← gets (fun s => (sv_max_connections s, st_active_conns (sv_stats s)));
  let refuse := mod_stats (fun st => st <| st_active_conns ::= fun n => n - 1 |>);; conn_close_handles k in
  if (0 <? s.1) && (s.1 <? u64 s.2) then refuse
  else
    ok ← protocol_conn_new k;
    if negb ok then refuse
    else
      conn_list_push k;;
      mod_stats (fun st => st <| st_total_conns ::= fun n => u64 (n + 1) |>);;
      started ← uv_call;
      if started : bool then mret tt else beaver_conn_close k.

(** [on_new_connection]: [status] is libuv's, [addr] the address of the peer. *)
Definition on_new_connection (status : bool) (addr : option (bytes * Z)) : proc unit :=
  if negb status then mret tt
  else
    ok ← alloc;
    if negb ok then mret tt
    else
      tcp ← uv_call;
      if negb tcp then mret tt
      else
        k ← gets sv_next;
        modify (fun s => s <| sv_next ::= Pos.succ |>);;
        mod_stats (fun st => st <| st_next_conn_id ::= fun n => u64 (n + 1) |>);;
        id ← gets (fun s => st_next_conn_id (sv_stats s));
        timer ← uv_call;
        now ← gets sv_now;
        let cn := conn_zero <| cn_id := id |> <| cn_n_handles := 1%nat |> <| cn_last_recv_ms := now |> in
        let cn := if timer : bool then cn <| cn_n_handles := 2%nat |> <| cn_hb_timer := timer_handshake AMQP_HANDSHAKE_TIMEOUT_MS |> else cn in
        mod_d (fun d => d <| d_conns ::= <[k := cn]> |>);;
        taken ← uv_call;
        down ← gets sv_shutting_down;
        if negb taken || down then conn_close_handles k else accepted k addr.

(** * Timers of the worker *)

(** [rss] is the memory the process uses, 0 when it cannot be read. *)
Definition on_memory_timer (rss : Z) : proc unit :=
  down ← gets sv_shutting_down;
  if (down : bool) || (rss =? 0) then mret tt
  else
    _ ← on_broker (fun w => let '(on, s) := queue_memory_alarm_update rss (w_sys w) in (on, w <| w_store ::= fun st => st <| st_sys := s |> |>));
    mret tt.

Definition on_stats_timer : proc unit :=
  modify (fun s => let active := st_active_conns (sv_stats s) in
                   if active =? sv_last_reported s then s else s <| sv_last_reported := active |>).

(** The loop over the connections, under the lock; [l] is the rest of the list. *)
Definition resume_conn (k : positive) : proc unit :=
  cn ← get_conn k;
  (if cn_read_paused cn && negb (cn_closing cn) then mod_conn k (fun cn => cn <| cn_read_paused := false |>) else mret tt);;
  if negb (cn_closing cn) then protocol_conn_unblock k else mret tt.

Definition congested : proc bool :=
  busy ← cluster_throttled;
  if busy : bool then mret true else gets (fun s => queue_memory_alarm_active (w_sys (d_world (sv_d s)))).

Definition on_throttle_timer : proc unit :=
  busy ← congested;
  down ← gets sv_shutting_down;
  if negb down && busy then mret tt
  else
    lock_conns;;
    l ← gets sv_conns;
    each resume_conn l;;
    unlock_conns;;
    modify (fun s => s <| sv_throttle_started := false |> <| sv_active ::= filter (fun h => h <> h_throttle_timer) |>).

(** * Starting and stopping *)

Definition activate (hs : list handle) : proc unit := modify (fun s => s <| sv_active ::= app hs |>).
Definition close_handles (hs : list handle) : proc unit := modify (fun s => s <| sv_active ::= filter (fun h => h ∉ hs) |>).

Definition install (hs : list handle) : proc bool :=
  ok ← uv_call;
  if ok : bool then activate hs;; mret true else mret false.

(** The struct is cleared; the lock, the socket and its address follow, and every
    failure undoes what came before. *)
Definition beaver_server_init : proc bool :=
  modify (fun s => s <| sv_conns := [] |> <| sv_conns_locked := false |> <| sv_authstore := None |> <| sv_cluster := None |>
                     <| sv_max_connections := 0 |> <| sv_max_message_size := 0 |> <| sv_active := [] |> <| sv_throttle_started := false |>
                     <| sv_last_reported := 0 |> <| sv_shutting_down := false |> <| sv_shutdown_sent := false |>);;
  mutex ← uv_call;
  if negb mutex then mret false
  else
    tcp ← uv_call;
    if negb tcp then mret false
    else
      addr ← uv_call;
      if negb addr then mret false
      else bound ← uv_call; if negb bound then mret false else install [h_tcp].

Definition beaver_server_install_signals : proc bool :=
  int ← uv_call;
  if negb int then mret false else install [h_sig_int; h_sig_term].

Definition beaver_server_install_stats : proc bool := install [h_stats_timer].

Definition beaver_server_install_memory_alarm : proc bool :=
  high ← gets (fun s => queue_memory_watermark (w_sys (d_world (sv_d s))));
  if high =? 0 then mret true else install [h_mem_timer].

Definition beaver_server_install_shutdown_async : proc bool := install [h_shutdown_async].

Definition beaver_server_request_shutdown : proc unit :=
  modify (fun s => if bool_decide (h_shutdown_async ∈ sv_active s) then s <| sv_shutdown_sent := true |> else s).

(** The connections are closed in the order of a copy of the list; without memory for
    the copy, along the list, whose order is the same. *)
Definition beaver_server_shutdown : proc unit :=
  down ← gets sv_shutting_down;
  if down : bool then mret tt
  else
    modify (fun s => s <| sv_shutting_down := true |>);;
    l ← beaver_server_foreach_conn;
    _ ← (if (0 <? length l)%nat then alloc else mret true);
    each beaver_conn_close l;;
    mod_d dispatcher_request_close;;
    close_handles [h_tcp; h_shutdown_async; h_sig_int; h_sig_term; h_stats_timer; h_throttle_timer].

Definition on_signal (on_shutdown : option (proc unit)) : proc unit :=
  match on_shutdown with
  | Some f => f
  | None => beaver_server_shutdown
  end.

Definition on_shutdown_async : proc unit := modify (fun s => s <| sv_shutdown_sent := false |>);; beaver_server_shutdown.
End NetServer.
