(* ===== verification/DispatchClient.v ===== *)
(** What the rest of a worker does with the dispatcher (Dispatch.v) and, through it,
    with the broker: each operation keeps the invariant and the connections.  The
    references of the caller are in front of those of the rest of the process. *)

From S2P Require Import Prelude Tables Frame HashMap Message Queue Store Exchange Broker BrokerRoute BrokerSpec BrokerDelivery Net Dispatch DispatchInv DispatchOps DispatchSettle DispatchRun.

Section Client.
Context {M : Type} `{!PtrMap M} `{!PtrMapLaws M}.
Implicit Types (w : world M) (d : dispatcher M).

Definition kept d d' (R : list positive) (F : list message) : Prop := disp_ok d' R F /\ d_conns d' = d_conns d.

Lemma kept_trans d1 d2 d3 R F R' F' : kept d1 d2 R F -> (disp_ok d2 R F -> kept d2 d3 R' F') -> kept d1 d3 R' F'.
Proof. intros [H1 E1] H2. destruct (H2 H1) as [H3 E3]. split; [done | congruence]. Qed.

Lemma kept_refl d R F : disp_ok d R F -> kept d d R F.
Proof. by split. Qed.

(** ** References *)

Lemma kept_unref q d R F : disp_ok d (q :: R) F -> kept d (d_unref q d) R F.
Proof. intros Hd. split; [by apply disp_drop | done]. Qed.

Lemma kept_unref_msg m d R F : disp_ok d R (m :: F) -> kept d (d_heap (message_unref (Some m)) d) R F.
Proof.
  intros Hd. pose proof (do_world _ _ _ Hd) as Hw. rewrite <- Permutation_middle in Hw.
  destruct (d_unref_msg_ok m d _ _ Hw) as (Hw1 & Hm & _ & Hk & _). split; [|done].
  eapply disp_same; [done | by apply moved_wires | | done]. done.
Qed.

Lemma kept_moved d d' R F R' F' :
  disp_ok d R F -> moved d d' -> world_ok (d_world d') (d_refs d ++ R') (d_msgs d ++ F') ->
  w_wakeups (d_world d') = w_wakeups (d_world d) -> kept d d' R' F'.
Proof.
  intros Hd Hm Hw Hk. pose proof (moved_wires _ _ Hm) as Hs. split; [|by injection Hs as _ -> _ _ _ _ _ _].
  eapply disp_same; [done | done | | done]. rewrite Hm. done.
Qed.

(** ** The broker *)

(** An operation of the broker that keeps its invariant and wakes nobody. *)
Lemma kept_world w' d R F R' F' :
  disp_ok d R F -> world_ok w' (d_refs d ++ R') (d_msgs d ++ F') -> w_wakeups w' = w_wakeups (d_world d) ->
  kept d (d <| d_world := w' |>) R' F'.
Proof. intros Hd Hw Hk. by eapply kept_moved. Qed.

Lemma kept_declare_exchange vhost name type flags d R F rc created w' :
  disp_ok d R F -> broker_declare_exchange vhost name type flags (d_world d) = (rc, created, w') -> kept d (d <| d_world := w' |>) R F.
Proof.
  intros Hd E. eapply kept_world; [done | by eapply declare_exchange_spec in E as [H _]; [|by apply Hd] |].
  revert E. unfold broker_declare_exchange. repeat (case_match; simplify_eq/=); by intros [= _ _ <-].
Qed.

Lemma kept_declare_queue vhost name flags d R F rc depth created w' :
  disp_ok d R F -> broker_declare_queue vhost name flags (d_world d) = (rc, depth, created, w') -> kept d (d <| d_world := w' |>) R F.
Proof.
  intros Hd E. eapply kept_world; [done | by eapply declare_queue_spec in E as [H _]; [|by apply Hd] |].
  revert E. unfold broker_declare_queue. repeat (case_match; simplify_eq/=); by intros [= _ _ _ <-].
Qed.

Lemma kept_bind vhost queue exchange rk d R F rc w' :
  disp_ok d R F -> broker_bind vhost queue exchange rk (d_world d) = (rc, w') -> kept d (d <| d_world := w' |>) R F.
Proof.
  intros Hd E. eapply kept_world; [done | by eapply bind_broker_spec in E as [H _]; [|by apply Hd] |].
  revert E. unfold broker_bind. repeat (case_match; simplify_eq/=); by intros [= _ <-].
Qed.

Lemma delete_queue_wakeups vhost name if_unused if_empty w rc depth w' :
  broker_delete_queue vhost name if_unused if_empty w = (rc, depth, w') -> w_wakeups w' = w_wakeups w.
Proof.
  unfold broker_delete_queue. destruct (pm_get _ _) as [q|]; [|by intros [= _ _ <-]].
  destruct (_ && _); [by intros [= _ _ <-]|]. destruct (_ && _); [by intros [= _ _ <-]|].
  destruct (pm_remove _ _) as [v m]. intros [= _ _ <-]. simpl. apply unbind_wakeups.
Qed.

Lemma kept_delete_queue vhost name if_unused if_empty d R F rc depth w' :
  disp_ok d R F -> broker_delete_queue vhost name if_unused if_empty (d_world d) = (rc, depth, w') -> kept d (d <| d_world := w' |>) R F.
Proof.
  intros Hd E. eapply kept_world; [done | by eapply delete_queue_spec in E as [H _]; [|by apply Hd] | by eapply delete_queue_wakeups].
Qed.

Lemma kept_delete_all vhost names : forall d R F, disp_ok d R F ->
  kept d (d <| d_world := foldl (fun w name => snd (broker_delete_queue vhost name false false w)) (d_world d) names |>) R F.
Proof.
  induction names as [|name names IH]; intros d R F Hd; cbn [foldl]; [split; [|done]; by eapply disp_field|].
  destruct (broker_delete_queue vhost name false false (d_world d)) as [[rc depth] w'] eqn:E.
  eapply kept_trans; [by eapply kept_delete_queue|]. intros Hd1. exact (IH _ _ _ Hd1).
Qed.

Lemma kept_get_queue vhost name d R F r w' :
  disp_ok d R F -> broker_get_queue vhost name (d_world d) = (r, w') -> kept d (d <| d_world := w' |>) (option_list r ++ R) F.
Proof. intros Hd E. split; [by eapply get_queue_ok | done]. Qed.

Lemma kept_set_dead_letter q dlx rk d R F :
  disp_ok d (q :: R) F -> kept d (d <| d_world ::= broker_set_queue_dead_letter q dlx rk |>) (q :: R) F.
Proof.
  intros Hd. destruct (set_dead_letter_ok q dlx rk _ _ _ (do_world _ _ _ Hd)) as [Hw _]; [set_solver|].
  eapply kept_moved; [done | done | done |]. simpl. unfold broker_set_queue_dead_letter. by destruct (on_queue _ _ _ _).
Qed.

(** ** A queue the caller holds *)

Lemma kept_pure_queue q f d R F :
  (forall F x s, op_spec F (fun _ => F) (fun x s => (tt, f x, s)) x s) -> disp_ok d (q :: R) F -> kept d (pure_queue q f d) (q :: R) F.
Proof.
  intros Hf Hd. destruct (pure_queue_ok q d _ _ (do_world _ _ _ Hd) ltac:(set_solver) f) as (x & _ & -> & Hw & _ & Hk & _); [by intros|].
  by eapply kept_moved.
Qed.

Lemma kept_dequeue q d R F r d' :
  disp_ok d (q :: R) F -> d_on_queue None q queue_dequeue d = (r, d') -> kept d d' (q :: R) (option_list r ++ F).
Proof.
  intros Hd E. destruct (d_on_queue_ok q d _ _ (do_world _ _ _ Hd) ltac:(set_solver) None queue_dequeue
    (fun r => option_list r ++ d_msgs d ++ F)) as (x & a & x' & s' & Hx & Ex & Ed & Hw & _ & Hk & _); [intros; apply op_dequeue|].
  rewrite Ed in E. injection E as -> <-. eapply kept_moved; [done | done | | done].
  eapply world_ok_proper; [..|exact Hw]; [done | destruct r; simpl; solve_perm].
Qed.

Lemma kept_requeue q m d R F : disp_ok d (q :: R) (m :: F) -> kept d (snd (requeue q m d)) (q :: R) (m :: F).
Proof.
  intros Hd. destruct (requeue_ok q d _ _ (do_world _ _ _ Hd) ltac:(set_solver) m ltac:(set_solver)) as (x & x' & s' & rc & _ & _ & -> & Hw & _ & Hk & _).
  by eapply kept_moved.
Qed.

Lemma watermark_conns q d : d_conns (replicate_watermark q d) = d_conns d.
Proof.
  unfold replicate_watermark, d_on_queue. destruct (negb _); [done|]. destruct (0 <? _); [|done]. by destruct (on_queue _ _ _ _) as [[|] st].
Qed.

Lemma kept_note_pull q cid d R F :
  disp_ok d (q :: R) F -> 0 <= cid < 2 ^ 64 -> kept d (dispatcher_note_pull q cid d) (q :: R) F.
Proof.
  intros Hd Hcid. split; [apply note_pull_ok; [done | done | set_solver]|].
  unfold dispatcher_note_pull. destruct (_ || _); [done|]. unfold d_on_queue. destruct (on_queue _ _ _ _) as [[] st].
  by rewrite watermark_conns.
Qed.

(** ** Consumers *)

Lemma kept_remove_channel conn channel d R F : disp_ok d R F -> kept d (dispatcher_remove_channel conn channel d) R F.
Proof. intros Hd. destruct (remove_consumers_ok conn (Some channel) d R F Hd) as (H1 & H2 & _). by split. Qed.

(** The first part of a close. *)
Lemma drop_conn_spec conn cn d R F :
  disp_ok d R F -> d_conns d !! conn = Some cn -> cn_closing cn = false ->
  disp_ok (drop_conn conn d) R F /\ d_conns (drop_conn conn d) = <[conn := cn <| cn_closing := true |>]> (d_conns d).
Proof.
  intros Hd Hcn Hcl. split; [apply conn_close_ok; eauto|]. unfold drop_conn. rewrite Hcn, Hcl.
  change (d <| d_conns ::= _ |>) with (with_conns (<[conn := cn <| cn_closing := true |>]> (d_conns d)) d). by rewrite with_conns_remove.
Qed.

Lemma kept_cancel conn channel tag d R F : disp_ok d R F -> kept d (dispatcher_cancel conn channel tag d) R F.
Proof.
  intros Hd. split; [by apply cancel_ok|]. unfold dispatcher_cancel. destruct (find_consumer conn channel tag d) as [cp|] eqn:E; [|done].
  destruct (find_consumer_spec _ _ _ _ _ _ _ Hd E) as (c & Hc & _).
  destruct (consumer_destroy_ok cp true d R F c Hd Hc) as (g & _ & _ & Hu & _). apply Hu.
Qed.

Lemma notify_conns q d : d_conns (dispatcher_notify q d) = d_conns d.
Proof.
  assert (E : with_conns (d_conns d) d = d) by (by destruct d). rewrite <- E at 1. by rewrite with_conns_notify.
Qed.

Lemma kept_set_prefetch conn channel prefetch d R F : disp_ok d R F -> kept d (dispatcher_set_prefetch conn channel prefetch d) R F.
Proof.
  intros Hd. split; [by apply set_prefetch_ok|]. unfold dispatcher_set_prefetch, for_consumers. generalize (d_consumers d).
  clear Hd. intros l. revert d. induction l as [|cp l IH]; intros d; [done|]. cbn [foldl]. rewrite IH.
  destruct (d_cobjs d !! cp) as [c|]; [|done]. destruct (is_on _ _ _); [by rewrite notify_conns | done].
Qed.

Lemma kept_add_consumer conn channel tag vhost name no_ack prefetch d R F rc d' :
  disp_ok d R F -> live_conn d conn ->
  dispatcher_add_consumer conn channel tag vhost name no_ack prefetch d = (rc, d') -> kept d d' R F.
Proof. intros Hd Hl E. destruct (add_consumer_ok _ _ _ _ _ _ _ _ _ _ _ _ Hd Hl E) as (H1 & cp & q & ga & _ & H2 & _). by split. Qed.

Lemma kept_settle conn channel tag multiple back rejected d R F :
  disp_ok d R F -> exists n d', (forall fuel, (settle_fuel d <= fuel)%nat ->
    settle_unacked fuel conn channel tag multiple back rejected d = Some (n, d')) /\ kept d d' R F.
Proof.
  intros Hd. destruct (settle_spec conn channel tag multiple back rejected d R F Hd) as (S & d' & Hrun & Hd' & Hf & _).
  exists (total (d_consumers d) S), d'. split; [done|]. split; [done|]. by injection (sf_tables _ _ Hf) as _ -> _ _ _.
Qed.

(** ** A message the caller holds *)

Lemma kept_message_new e r b p d R F msg h :
  disp_ok d R F -> message_new_full e r b p (s_heap (w_sys (d_world d))) = (msg, h) ->
  kept d (d_heap (fun _ => h) d) R (option_list msg ++ F) /\ (forall m, msg = Some m -> m_dl_hops m = 0).
Proof.
  intros Hd E. pose proof (do_world _ _ _ Hd) as Hw.
  destruct (rstate_new _ _ _ _ _ _ _ _ _ (world_rstate _ _ _ Hw) E) as (Hr & _ & Hg & _). split.
  - eapply kept_moved; [done | done | | done]. destruct msg as [m|]; simpl.
    + rewrite <- Permutation_middle. destruct (message_new_fields _ _ _ _ _ _ _ E) as (_ & _ & _ & Hh).
      eapply rstate_world; [exact Hw | exact Hg |]. apply Hr; [done|]. split; [by rewrite Hh | by rewrite (message_new_cid _ _ _ _ _ _ _ E)].
    + by eapply rstate_world.
  - intros m ->. by destruct (message_new_fields _ _ _ _ _ _ _ E) as (_ & _ & _ & Hh).
Qed.

(** Routing, with the wakeups for this worker. *)
Lemma kept_route vhost m d R F :
  disp_ok d R (m :: F) -> exists n rc w', (forall fuel, (n <= fuel)%nat -> broker_route fuel vhost m (d_world d) = Some (rc, w')) /\
    kept d (take_wakeups (d <| d_world := w' |>)) R (m :: F).
Proof.
  intros Hd. pose proof Hd as [Hwi Hw Hh]. rewrite <- Permutation_middle in Hw. pose proof (world_rstate _ _ _ Hw) as Hr.
  set (n := S (weight (nq (owned_refs (d_world d) ++ d_refs d ++ R)) (stored (d_world d)) +
               nq (owned_refs (d_world d) ++ d_refs d ++ R) * wt (nq (owned_refs (d_world d) ++ d_refs d ++ R)) m)).
  destruct (broker_route_good n vhost m (d_world d) _ _ Hr) as (rc & w' & Hroute & Hr' & Hg & Hk & _); [unfold n; lia|].
  exists n, rc, w'. split; [intros fuel Hf; by apply (broker_route_fuel n)|].
  pose proof (rstate_world _ _ _ _ _ Hw Hg Hr') as Hw'.
  set (R0 := gather (fun g => [g_queue g]) (d_gobjs d) ++ gather (fun c => [cs_queue c]) (d_cobjs d) ++ R).
  assert (HR : d_refs d ++ R ≡ₚ d_pending d ++ R0) by (unfold d_refs, R0; solve_perm). rewrite HR in Hw'.
  set (d1 := d <| d_world := w' |>). destruct (take_wakeups_ok d1 R0 (m :: d_msgs d ++ F) Hw') as (Hw2 & Hs2 & _ & _ & _ & Hh2 & _); [by eapply woken_audible|].
  set (d2 := take_wakeups _) in *. injection Hs2 as E0 E1 E2 E3 E4 E5 E6 E7. split; [|exact E1].
  constructor; [eapply wired_same; [exact Hwi|]; unfold same_wires; congruence | | exact Hh2].
  eapply world_ok_proper; [..|exact Hw2]; unfold d_refs, d_msgs, R0; rewrite ?E1, ?E3, ?E4; [solve_perm|].
  simpl. rewrite <- Permutation_middle. done.
Qed.

(** A delivery of Basic.Get that is settled. *)
Lemma kept_settle_one q back rejected m d R F :
  disp_ok d (q :: R) (m :: F) -> exists n d', (forall fuel, (n <= fuel)%nat -> settle_one fuel q back rejected m d = Some d') /\
    kept d d' (q :: R) F.
Proof.
  intros Hd. pose proof Hd as [Hwi Hw Hh].
  set (R0 := gather (fun g => [g_queue g]) (d_gobjs d) ++ gather (fun c => [cs_queue c]) (d_cobjs d) ++ q :: R).
  assert (HR : d_refs d ++ q :: R ≡ₚ d_pending d ++ R0) by (unfold d_refs, R0; solve_perm). rewrite HR in Hw.
  rewrite <- Permutation_middle in Hw.
  destruct (settle_one_ok (d_weight d [m]) q back rejected m d R0 (d_msgs d ++ F) Hw) as (d' & E & Hw' & Hh' & Hs & _);
    [set_solver | done | lia |].
  exists (d_weight d [m]), d'. split; [intros fuel Hf; by eapply settle_one_more|].
  destruct Hs as [Hs _ _ _ _]. injection Hs as E0 E1 E2 E3 E4 E5 E6 E7. split; [|exact E1].
  constructor; [eapply wired_same; [exact Hwi|]; unfold same_wires; congruence | | exact Hh'].
  eapply world_ok_proper; [..|exact Hw']; unfold d_refs, d_msgs, R0; rewrite ?E1, ?E3, ?E4; [solve_perm | done].
Qed.
End Client.
