(* ===== verification/ServerInv.v ===== *)
(** The invariant of a worker (Server.v) and the rules by which its computations
    are shown to return and to keep it.

    [ends m Q s]: from [s] the computation [m], with all but finitely many values of
    the routing fuel, returns the same result, which satisfies [Q].  [stable k m]:
    for the connection [k], [m] returns and keeps the invariant; it is closed under
    sequencing, so most functions are covered by [stable_auto]. *)

From S2P Require Import Prelude Tables CLib Frame AuthLimit Password AuthStore HashMap Message Queue Store Exchange Broker BrokerRoute BrokerSpec BrokerDelivery Net Dispatch DispatchInv DispatchOps DispatchSettle DispatchRun DispatchClient Server Protocol.

(** * What a connection holds *)

Definition chan_refs (c : proto_chan_t) : list positive := gu_queue <$> ch_get_unacked c.
Definition chan_msgs (c : proto_chan_t) : list message := gu_msg <$> ch_get_unacked c.
Definition proto_refs (p : proto) : list positive := pr_channels p ≫= chan_refs.
Definition proto_msgs (p : proto) : list message := pr_channels p ≫= chan_msgs.

(** The representation invariant of the protocol state. *)
Record proto_wf (p : proto) : Prop := ProtoWf {
  wf_ids : NoDup (ch_id <$> pr_channels p);
  wf_range : Forall (fun c => 1 <= ch_id c <= AMQP_CHANNEL_MAX /\ (length (ch_get_unacked c) <= ch_cap_get_unacked c)%nat) (pr_channels p);
  wf_cap : (length (pr_channels p) <= pr_cap_channels p)%nat;
  wf_excl : (length (pr_excl_queues p) <= pr_cap_excl p)%nat;
  wf_pos : (pr_inbuf_pos p <= length (pr_inbuf p))%nat /\ bytes_ok (pr_inbuf p);
  wf_open : pr_connection_open p = false -> pr_channels p = [] /\ pr_pub_active p = false;
  wf_body : (forall b, pr_pub_body p = Some b -> Z.of_nat (length b) <= pr_pub_body_size p) /\
            (pr_pub_have_header p = false -> pr_pub_body p = None) /\ pr_pub_body_size p < 2 ^ 32
}.

Lemma proto_zero_wf : proto_wf proto_zero.
Proof. constructor; try done; simpl; auto; repeat constructor. Qed.

Section ServerInv.
Context {M : Type} `{!PtrMap M} `{!PtrMapLaws M} {C : Type} `{!ClusterOps C}.
Abbreviation server := (beaver_server M C).
Abbreviation proc A := (proc M C A).
Implicit Types (s : server) (k : positive).

(** [R] and [F] are the references that the rest of the process holds. *)
Record inv (R : list positive) (F : list message) s : Prop := Inv {
  iv_disp : disp_ok (sv_d s) (gather proto_refs (sv_protos s) ++ R) (gather proto_msgs (sv_protos s) ++ F);
  iv_wf : forall k p, sv_protos s !! k = Some p -> proto_wf p /\ is_Some (d_conns (sv_d s) !! k) /\
                        (pr_pending_ops p <> [] -> is_Some (sv_cluster s));
  iv_nodup : NoDup (sv_conns s);
  iv_listed : forall k, k ∈ sv_conns s <-> is_Some (sv_protos s !! k) /\ live_conn (sv_d s) k;
  iv_work : forall k p id, sv_protos s !! k = Some p -> pr_pending_auth p = Some id ->
              exists w, sv_works s !! id = Some w /\ aw_conn w = Some k;
  iv_pend : forall id w k, sv_works s !! id = Some w -> aw_conn w = Some k ->
              exists p, sv_protos s !! k = Some p /\ pr_pending_auth p = Some id;
  iv_fresh : forall x, is_Some (d_conns (sv_d s) !! x) \/ is_Some (sv_works s !! x) -> (x < sv_next s)%positive;
  iv_auth : (forall a, sv_authstore s = Some a -> s_locked a = false) /\ 0 <= sv_max_message_size s < 2 ^ 32;
  (* a connection of the protocol engine is closed by [beaver_conn_close] only *)
  iv_flags : forall k p cn, sv_protos s !! k = Some p -> d_conns (sv_d s) !! k = Some cn -> cn_tcp_closing cn = true -> cn_closing cn = true
}.

(** * Computations that return *)

Definition ends {A} (m : nat -> proc A) (Q : A -> server -> Prop) s : Prop :=
  exists a s' n, (forall fuel, (n <= fuel)%nat -> m fuel s = Some (a, s')) /\ Q a s'.

Lemma ends_now {A} (m : nat -> proc A) Q s a s' : (forall fuel, m fuel s = Some (a, s')) -> Q a s' -> ends m Q s.
Proof. intros H HQ. exists a, s', 0%nat. auto. Qed.

Lemma ends_mono {A} (m : nat -> proc A) (P Q : A -> server -> Prop) s : ends m P s -> (forall a s', P a s' -> Q a s') -> ends m Q s.
Proof. intros (a & s' & n & H & HP) HPQ. exists a, s', n. auto. Qed.

Lemma ends_bind {A B} (m : nat -> proc A) (f : nat -> A -> proc B) Q s :
  ends m (fun a s' => ends (fun fuel => f fuel a) Q s') s -> ends (fun fuel => m fuel ≫= f fuel) Q s.
Proof.
  intros (a & s1 & n1 & H1 & b & s2 & n2 & H2 & HQ). exists b, s2, (n1 + n2)%nat. split; [|done]. intros fuel Hf.
  unfold mbind, proc_bind. rewrite H1 by lia. apply H2. lia.
Qed.

Lemma ends_ret {A} (a : A) (Q : A -> server -> Prop) s : Q a s -> ends (fun _ => mret a) Q s.
Proof. intros H. by eapply ends_now. Qed.

(** * Steps of one connection *)

Definition ready k s : Prop :=
  is_Some (sv_protos s !! k) /\ is_Some (d_conns (sv_d s) !! k) /\ sv_conns_locked s = false.

(** The protocol engine knows that the connection is being closed. *)
Definition synced k s : Prop :=
  forall p cn, sv_protos s !! k = Some p -> d_conns (sv_d s) !! k = Some cn -> shut cn = true -> pr_state p = BMQP_STATE_CLOSING.

Definition server_rest s := (sv_max_connections s, sv_max_message_size s, sv_now s, sv_shutting_down s, sv_authstore s).

(** The unread input of a connection. *)
Definition input_of (p : proto) : bytes * nat := (pr_inbuf p, pr_inbuf_pos p).

(** What the code of the connection [k] leaves alone. *)
Record step k s s' : Prop := Step {
  st_ready : ready k s -> ready k s';
  st_synced : synced k s -> synced k s';
  st_others : forall j, j <> k -> sv_protos s' !! j = sv_protos s !! j;
  st_input : input_of <$> sv_protos s' !! k = input_of <$> sv_protos s !! k;
  st_rest : server_rest s' = server_rest s;
  st_cluster : is_Some (sv_cluster s) -> is_Some (sv_cluster s')
}.

Lemma step_refl k s : step k s s.
Proof. by constructor. Qed.

Lemma step_trans k s1 s2 s3 : step k s1 s2 -> step k s2 s3 -> step k s1 s3.
Proof.
  intros [A1 A2 A3 A4 A5 A6] [B1 B2 B3 B4 B5 B6]. constructor; auto; [|congruence..]. intros j Hj. by rewrite B3, A3.
Qed.

(** With [b], the node is part of a cluster. *)
Definition stable {A} (b : bool) k (m : nat -> proc A) : Prop :=
  forall R F s, inv R F s -> ready k s -> (b = true -> is_Some (sv_cluster s)) -> ends m (fun _ s' => inv R F s' /\ step k s s') s.

Lemma stable_bind {A B} b k (m : nat -> proc A) (f : nat -> A -> proc B) :
  stable b k m -> (forall a, stable b k (fun fuel => f fuel a)) -> stable b k (fun fuel => m fuel ≫= f fuel).
Proof.
  intros Hm Hf R F s Hi Hr Hb. apply ends_bind. eapply ends_mono; [by apply Hm|]. intros a s1 [Hi1 Hs1].
  eapply ends_mono; [apply Hf; [done | by apply Hs1 | intros E; by apply Hs1, Hb]|]. intros y s2 [Hi2 Hs2]. split; [done | by eapply step_trans].
Qed.

Lemma stable_ret {A} b k (a : A) : stable b k (fun _ => mret a).
Proof. intros R F s Hi Hr _. apply ends_ret. split; [done | apply step_refl]. Qed.

Lemma stable_gets {A} b k (f : server -> A) : stable b k (fun _ => gets f).
Proof. intros R F s Hi Hr _. eapply ends_now; [done|]. split; [done | apply step_refl]. Qed.

Lemma stable_get_proto b k : stable b k (fun _ => get_proto k).
Proof.
  intros R F s Hi Hr _. destruct Hr as ([p Hp] & Hr). eapply ends_now; [intros _; unfold get_proto, the; by rewrite Hp|].
  split; [done | apply step_refl].
Qed.

Lemma stable_get_conn b k : stable b k (fun _ => get_conn k).
Proof.
  intros R F s Hi Hr _. destruct Hr as (Hr & [cn Hcn] & Hl). eapply ends_now; [intros _; unfold get_conn, the; by rewrite Hcn|].
  split; [done | apply step_refl].
Qed.

(** * Updates *)

(** The same connections, closing as before. *)
Definition same_closing (d d' : dispatcher M) : Prop :=
  forall x, flags <$> d_conns d' !! x = flags <$> d_conns d !! x.

Lemma same_closing_eq d d' : d_conns d' = d_conns d -> same_closing d d'.
Proof. intros E x. by rewrite E. Qed.

Lemma same_closing_set d k cn cn' :
  d_conns d !! k = Some cn -> flags cn' = flags cn -> same_closing d (d <| d_conns ::= <[k := cn']> |>).
Proof.
  intros Hk E x. simpl. destruct (decide (k = x)) as [->|]; [by rewrite lookup_insert_eq, Hk; simpl; rewrite E | by rewrite lookup_insert_ne].
Qed.

Lemma same_closing_sym d d' : same_closing d d' -> same_closing d' d.
Proof. intros H x. by rewrite H. Qed.

Lemma same_closing_agrees d d' k cn' :
  same_closing d d' -> d_conns d' !! k = Some cn' -> exists cn, d_conns d !! k = Some cn /\ flags cn' = flags cn.
Proof.
  intros H E. specialize (H k). rewrite E in H. simpl in H. destruct (d_conns d !! k) as [cn|]; [|done].
  injection H as H1 H2. exists cn. split; [done | unfold flags; congruence].
Qed.

Lemma same_closing_live d d' x : same_closing d d' -> live_conn d' x <-> live_conn d x.
Proof.
  assert (Hl : forall d d', same_closing d d' -> live_conn d' x -> live_conn d x).
  { intros d1 d2 H (cn & (cn0 & H0 & E)%(same_closing_agrees _ _ _ _ H) & Hs). exists cn0. split; [done|]. unfold shut in *. by rewrite <- E. }
  intros H. split; apply Hl; [done | by apply same_closing_sym].
Qed.

Lemma same_closing_some d d' x : same_closing d d' -> is_Some (d_conns d' !! x) <-> is_Some (d_conns d !! x).
Proof. intros H. rewrite <- !(fmap_is_Some flags). by rewrite H. Qed.

(** The dispatcher changes, and with it the references of the rest. *)
Lemma inv_d R F R' F' s d' :
  inv R F s -> disp_ok d' (gather proto_refs (sv_protos s) ++ R') (gather proto_msgs (sv_protos s) ++ F') ->
  same_closing (sv_d s) d' -> inv R' F' (s <| sv_d := d' |>).
Proof.
  intros [H1 H2 H3 H4 H5 H6 H7 H8 H9] Hd Hc. constructor; try done; simpl.
  - intros k p Hp. by rewrite (same_closing_some _ _ k Hc); apply H2.
  - intros k. by rewrite (same_closing_live _ _ k Hc).
  - intros x. by rewrite (same_closing_some _ _ x Hc); apply H7.
  - intros k p cn' Hp (cn & Hcn & [= E1 E2])%(same_closing_agrees _ _ _ _ Hc). rewrite E1, E2. by eapply H9.
Qed.

Lemma step_d k s d' : same_closing (sv_d s) d' -> step k s (s <| sv_d := d' |>).
Proof.
  intros Hc. constructor; try done; simpl.
  - intros (Hp & Hk & Hl). split_and!; try done. simpl. by rewrite (same_closing_some _ _ k Hc).
  - intros Hs p cn Hp (cn0 & Hcn0 & E)%(same_closing_agrees _ _ _ _ Hc) Hcl. apply (Hs p cn0); [done | done|]. unfold shut in *. by rewrite <- E.
Qed.

(** The protocol state of a connection changes, and the dispatcher with it. *)
Lemma inv_dp R F R' F' s k p p' d' :
  inv R F s -> sv_protos s !! k = Some p ->
  disp_ok d' (proto_refs p' ++ gather proto_refs (delete k (sv_protos s)) ++ R')
    (proto_msgs p' ++ gather proto_msgs (delete k (sv_protos s)) ++ F') ->
  same_closing (sv_d s) d' ->
  proto_wf p' -> pr_pending_auth p' = pr_pending_auth p -> (pr_pending_ops p' <> [] -> is_Some (sv_cluster s)) ->
  inv R' F' (s <| sv_d := d' |> <| sv_protos ::= <[k := p']> |>).
Proof.
  intros [H1 H2 H3 H4 H5 H6 H7 H8 H9] Hp Hd Hc Hwf Ha Ho. constructor; try done; simpl.
  - eapply disp_perm; [exact Hd | by rewrite gather_insert; simplify_list_eq..].
  - intros j x [[<- <-]|[_ Hx]]%lookup_insert_Some; rewrite (same_closing_some _ _ _ Hc); [|by apply H2].
    split_and!; [done | by apply (H2 k p) | done].
  - intros j. rewrite H4, lookup_insert_is_Some, (same_closing_live _ _ j Hc). destruct (decide (k = j)) as [->|]; [|naive_solver].
    rewrite Hp. naive_solver.
  - intros j x id [[<- <-]|[_ Hx]]%lookup_insert_Some Hid; [|by eapply H5]. apply (H5 k p); [done | congruence].
  - intros id w j Hw Hj. destruct (H6 id w j Hw Hj) as (x & Hx & Hid). destruct (decide (k = j)) as [->|].
    + exists p'. rewrite lookup_insert_eq. split; [done | congruence].
    + exists x. by rewrite lookup_insert_ne.
  - intros x. rewrite (same_closing_some _ _ x Hc). apply H7.
  - intros j x cn' Hx (cn & Hcn & [= E1 E2])%(same_closing_agrees _ _ _ _ Hc). rewrite E1, E2.
    apply lookup_insert_Some in Hx as [[<- _]|[_ Hx]]; by eapply H9.
Qed.

Lemma inv_split R F s k p :
  inv R F s -> sv_protos s !! k = Some p ->
  disp_ok (sv_d s) (proto_refs p ++ gather proto_refs (delete k (sv_protos s)) ++ R)
    (proto_msgs p ++ gather proto_msgs (delete k (sv_protos s)) ++ F).
Proof.
  intros Hi Hp. eapply disp_perm; [apply Hi | by rewrite (gather_split _ _ _ _ Hp); simplify_list_eq..].
Qed.

Lemma step_p k s p p' :
  sv_protos s !! k = Some p -> (pr_state p = BMQP_STATE_CLOSING -> pr_state p' = BMQP_STATE_CLOSING) -> input_of p' = input_of p ->
  step k s (s <| sv_protos ::= <[k := p']> |>).
Proof.
  intros Hp Hc Hin. constructor; try done; simpl.
  - intros (_ & Hk & Hl). split_and!; try done. simpl. by rewrite lookup_insert_eq.
  - intros Hs x cn Hx Hcn Hcl. simpl in *. rewrite lookup_insert_eq in Hx. injection Hx as <-. apply Hc. by apply (Hs p cn).
  - intros j Hj. by rewrite lookup_insert_ne.
  - rewrite lookup_insert_eq, Hp. simpl. by rewrite Hin.
Qed.

Lemma step_dp k s p p' d' :
  sv_protos s !! k = Some p -> same_closing (sv_d s) d' -> (pr_state p = BMQP_STATE_CLOSING -> pr_state p' = BMQP_STATE_CLOSING) ->
  input_of p' = input_of p -> step k s (s <| sv_d := d' |> <| sv_protos ::= <[k := p']> |>).
Proof. intros Hp Hc Hs Hin. eapply step_trans; [by apply step_d|]. by eapply step_p. Qed.

(** Updates of the protocol state that leave its references alone. *)
Definition mild (f : proto -> proto) : Prop := forall p,
  proto_refs (f p) = proto_refs p /\ proto_msgs (f p) = proto_msgs p /\ pr_pending_auth (f p) = pr_pending_auth p /\
  (pr_pending_ops (f p) <> [] -> pr_pending_ops p <> []) /\
  (pr_state p = BMQP_STATE_CLOSING -> pr_state (f p) = BMQP_STATE_CLOSING) /\
  input_of (f p) = input_of p /\ (proto_wf p -> proto_wf (f p)).

Lemma inv_mild f R F s k p : mild f -> inv R F s -> sv_protos s !! k = Some p -> inv R F (s <| sv_protos ::= <[k := f p]> |>).
Proof.
  intros Hf Hi Hp. destruct (Hf p) as (H1 & H2 & H3 & H4 & _ & _ & H6). destruct (iv_wf _ _ _ Hi k p Hp) as (Hwf & _ & Ho).
  assert (Hi' : inv R F (s <| sv_d := sv_d s |> <| sv_protos ::= <[k := f p]> |>)); [|by destruct s].
  eapply inv_dp; [exact Hi | exact Hp | rewrite H1, H2; by apply inv_split | by apply same_closing_eq | auto | done | auto].
Qed.

Lemma stable_mod_proto b k f : mild f -> stable b k (fun _ => mod_proto k f).
Proof.
  intros Hf R F s Hi Hr _. destruct Hr as ([p Hp] & Hr).
  eapply ends_now; [intros _; unfold mod_proto, get_proto, the, mbind, proc_bind; rewrite Hp; done|].
  split; [by apply inv_mild | eapply step_p; [exact Hp | apply Hf..]].
Qed.

Lemma stable_mod_conn b k f :
  (forall cn, flags (f cn) = flags cn /\ omap id (cn_writes (f cn)) = omap id (cn_writes cn)) -> stable b k (fun _ => mod_conn k f).
Proof.
  intros Hf R F s Hi Hr _. destruct Hr as (_ & [cn Hcn] & _). destruct (Hf cn) as [E1 E2].
  eapply ends_now; [intros _; unfold mod_conn, get_conn, the, mbind, proc_bind; rewrite Hcn; done|].
  pose proof (same_closing_set _ _ _ (f cn) Hcn E1) as Hc. split; [|by apply step_d].
  eapply inv_d; [done | | done]. by eapply disp_set_conn; [apply Hi | ..].
Qed.

(** The dispatcher through an operation that keeps its invariant. *)
Lemma stable_on_d {A} b k (f : dispatcher M -> A * dispatcher M) :
  (forall d R F a d', disp_ok d R F -> f d = (a, d') -> kept d d' R F) -> stable b k (fun _ => on_d f).
Proof.
  intros Hf R F s Hi Hr _. destruct (f (sv_d s)) as [a d'] eqn:E. destruct (Hf _ _ _ _ _ (iv_disp _ _ _ Hi) E) as [Hd' Ec].
  eapply ends_now; [intros _; unfold on_d; rewrite E; done|]. pose proof (same_closing_eq _ _ Ec) as Hc.
  split; [by eapply inv_d | by apply step_d].
Qed.

Lemma stable_mod_d b k (f : dispatcher M -> dispatcher M) :
  (forall d R F, disp_ok d R F -> kept d (f d) R F) -> stable b k (fun _ => mod_d f).
Proof.
  intros Hf. apply (stable_on_d b k (fun d => (tt, f d))). intros d R F a d' Hd [= _ <-]. auto.
Qed.

Lemma stable_on_broker {A} b k (f : world M -> A * world M) :
  (forall d R F a w', disp_ok d R F -> f (d_world d) = (a, w') -> kept d (d <| d_world := w' |>) R F) -> stable b k (fun _ => on_broker f).
Proof.
  intros Hf. apply stable_on_d. intros d R F a d' Hd. destruct (f (d_world d)) as [x w] eqn:E. intros [= <- <-]. by eapply Hf.
Qed.

Lemma kept_net d n R F : disp_ok d R F -> kept d (d <| d_net := n |>) R F.
Proof. intros Hd. split; [by eapply disp_field | done]. Qed.

Lemma stable_alloc b k : stable b k (fun _ => alloc).
Proof.
  apply stable_on_d. intros d R F a d' Hd. unfold d_malloc. destruct (n_malloc (d_net d)) as [ok n]. intros [= _ <-]. by apply kept_net.
Qed.

Lemma stable_build b k f : stable b k (fun _ => build f).
Proof. apply stable_on_d. intros d R F a d' Hd. destruct (f _) as [x o]. intros [= _ <-]. by eapply kept_net. Qed.

(** The fields that the invariant does not look at. *)
Definition unseen (f : server -> server) : Prop := forall s,
  (sv_d (f s), sv_protos (f s), sv_conns (f s), sv_conns_locked (f s), sv_authstore (f s), sv_works (f s), sv_next (f s), server_rest (f s)) =
  (sv_d s, sv_protos s, sv_conns s, sv_conns_locked s, sv_authstore s, sv_works s, sv_next s, server_rest s) /\
  (is_Some (sv_cluster s) -> is_Some (sv_cluster (f s))).

Lemma inv_unseen f R F s : unseen f -> inv R F s -> inv R F (f s).
Proof.
  intros Hf [H1 H2 H3 H4 H5 H6 H7 H8 H9]. destruct (Hf s) as [[= E1 E2 E3 E4 E5 E6 E7 E8 E9 E10 E11 E12] Hc].
  constructor; rewrite ?E1, ?E2, ?E3, ?E5, ?E6, ?E7, ?E9; try done. intros k p Hp. destruct (H2 k p Hp) as (A & B & D). split_and!; auto.
Qed.

Lemma step_unseen f k s : unseen f -> step k s (f s).
Proof.
  intros Hf. destruct (Hf s) as [[= E1 E2 E3 E4 E5 E6 E7 E8 E9 E10 E11 E12] Hc]. constructor; try done.
  - unfold ready. by rewrite E1, E2, E4.
  - unfold synced. by rewrite E1, E2.
  - intros j _. by rewrite E2.
  - by rewrite E2.
  - unfold server_rest. by rewrite E8, E9, E10, E11, E5.
Qed.

Lemma stable_modify b k f : unseen f -> stable b k (fun _ => modify f).
Proof. intros Hf R F s Hi Hr _. eapply ends_now; [done|]. split; [by apply inv_unseen | by apply step_unseen]. Qed.

Lemma stable_uv_call b k : stable b k (fun _ => uv_call).
Proof.
  intros R F s Hi Hr _. unfold uv_call. destruct (sv_uv s) as [|r rest] eqn:E; (eapply ends_now; [intros _; rewrite E; done|]).
  - split; [done | apply step_refl].
  - assert (Hu : unseen (fun s => s <| sv_uv := rest |>)) by done. split; [exact (inv_unseen _ _ _ _ Hu Hi) | exact (step_unseen _ _ _ Hu)].
Qed.

Lemma stable_the {A} b k (x : option A) : is_Some x -> stable b k (fun _ => the (fun _ => x)).
Proof. intros [a ->] R F s Hi Hr _. eapply ends_now; [done|]. split; [done | apply step_refl]. Qed.

(** The access-control store is never left locked. *)
Lemma stable_authstore {A} b k (f : nat -> option authstore -> proc A) :
  stable b k (fun fuel => f fuel None) -> (forall a, s_locked a = false -> stable b k (fun fuel => f fuel (Some a))) ->
  stable b k (fun fuel => gets sv_authstore ≫= f fuel).
Proof.
  intros H1 H2 R F s Hi Hr Hb. apply ends_bind. eapply ends_now; [done|]. destruct (sv_authstore s) as [a|] eqn:E; [|by apply H1].
  apply H2; try done. by eapply (proj1 (iv_auth _ _ _ Hi)).
Qed.

Lemma stable_cluster {A} b k (f : nat -> option C -> proc A) :
  stable b k (fun fuel => f fuel None) -> (forall c, stable true k (fun fuel => f fuel (Some c))) ->
  stable b k (fun fuel => gets sv_cluster ≫= f fuel).
Proof.
  intros H1 H2 R F s Hi Hr Hb. apply ends_bind. eapply ends_now; [done|]. destruct (sv_cluster s) as [c|] eqn:E.
  - apply H2; [done | done |]. rewrite E. eauto.
  - apply H1; [done | done |]. rewrite E. done.
Qed.

Lemma stable_on_cluster {A} k (f : C -> A * C) : stable true k (fun _ => on_cluster f).
Proof.
  intros R F s Hi Hr Hb. destruct (Hb eq_refl) as [c Hc]. destruct (f c) as [a c'] eqn:E.
  eapply ends_now; [intros _; unfold on_cluster; rewrite Hc, E; done|].
  assert (Hu : unseen (fun s => s <| sv_cluster := Some c' |>)) by (intros x; split; [done | intros _; by eexists]).
  split; [exact (inv_unseen _ _ _ _ Hu Hi) | exact (step_unseen _ _ _ Hu)].
Qed.

Lemma stable_throttled b k : stable b k (fun _ => cluster_throttled).
Proof.
  intros R F s Hi Hr Hb. destruct (sv_cluster s) as [c|] eqn:Hc.
  - destruct (cluster_should_throttle c) as [a c'] eqn:E. eapply ends_now; [intros _; unfold cluster_throttled; rewrite Hc, E; done|].
    assert (Hu : unseen (fun s => s <| sv_cluster := Some c' |>)) by (intros x; split; [done | intros _; by eexists]).
    split; [exact (inv_unseen _ _ _ _ Hu Hi) | exact (step_unseen _ _ _ Hu)].
  - eapply ends_now; [intros _; unfold cluster_throttled; rewrite Hc; done|]. split; [done | apply step_refl].
Qed.

(** * Sending *)

Lemma send_fields data cn n rc cn' n' :
  beaver_conn_send data cn n = (rc, cn', n') -> flags cn' = flags cn /\ omap id (cn_writes cn') = omap id (cn_writes cn).
Proof.
  unfold beaver_conn_send, beaver_conn_send_owned. destruct (_ || _); [by intros [= _ <- _]|].
  destruct (n_malloc n) as [[|] n1]; [|by intros [= _ <- _]]. cbn [negb].
  destruct (n_malloc n1) as [[|] n2]; [|by intros [= _ <- _]]. cbn [negb]. destruct (uv_write _ _ _) as [[code|size] n3]; intros [= _ <- _]; [done|].
  split; [done|]. unfold written. simpl. by rewrite omap_app, app_nil_r.
Qed.

Lemma stable_send b k data : stable b k (fun _ => send k data).
Proof.
  intros R F s Hi Hr _. destruct Hr as (_ & [cn Hcn] & _). destruct (beaver_conn_send data cn (d_net (sv_d s))) as [[rc cn'] n'] eqn:E.
  destruct (send_fields _ _ _ _ _ _ E) as [E1 E2].
  eapply ends_now; [intros _; unfold send, get_conn, the, on_d, mbind, proc_bind; rewrite Hcn; cbn [fmap option_fmap option_map]; rewrite E; done|].
  destruct (kept_net (sv_d s) n' _ _ (iv_disp _ _ _ Hi)) as [Hd1 _].
  assert (Hc : same_closing (sv_d s) ((sv_d s) <| d_net := n' |> <| d_conns ::= <[k := cn']> |>)).
  { intros x. exact (same_closing_set (sv_d s) k cn cn' Hcn E1 x). }
  split; [|by apply step_d]. eapply inv_d; [done | | done]. by eapply disp_set_conn.
Qed.

(** ** Symbolic steps *)

Lemma ends_get_proto k p (Q : proto -> server -> Prop) s : sv_protos s !! k = Some p -> Q p s -> ends (fun _ => get_proto k) Q s.
Proof. intros Hp HQ. eapply ends_now; [|exact HQ]. intros _. unfold get_proto, the. by rewrite Hp. Qed.

Lemma ends_mod_proto k f p (Q : unit -> server -> Prop) s :
  sv_protos s !! k = Some p -> Q tt (s <| sv_protos ::= <[k := f p]> |>) -> ends (fun _ => mod_proto k f) Q s.
Proof.
  intros Hp HQ. eapply ends_now; [|exact HQ]. intros _. unfold mod_proto, get_proto, the, mbind, proc_bind. by rewrite Hp.
Qed.

Lemma ends_mod_conn k f cn (Q : unit -> server -> Prop) s :
  d_conns (sv_d s) !! k = Some cn -> Q tt (s <| sv_d ::= fun d => d <| d_conns ::= <[k := f cn]> |> |>) -> ends (fun _ => mod_conn k f) Q s.
Proof.
  intros Hcn HQ. eapply ends_now; [|exact HQ]. intros _. unfold mod_conn, get_conn, the, mbind, proc_bind. by rewrite Hcn.
Qed.

Lemma inv_conn R F s k cn cn' :
  inv R F s -> d_conns (sv_d s) !! k = Some cn -> flags cn' = flags cn -> omap id (cn_writes cn') = omap id (cn_writes cn) ->
  let s' := s <| sv_d ::= fun d => d <| d_conns ::= <[k := cn']> |> |> in inv R F s' /\ forall j, step j s s'.
Proof.
  intros Hi Hcn E1 E2. pose proof (same_closing_set _ _ _ cn' Hcn E1) as Hc. split; [|intros j; exact (step_d j s _ Hc)].
  eapply (inv_d _ _ _ _ _ _ Hi); [|done]. by eapply disp_set_conn; [apply Hi|..].
Qed.

Definition net_step s n : server := s <| sv_d ::= fun d => d <| d_net := n |> |>.

Lemma ends_alloc (Q : bool -> server -> Prop) s : (forall ok n, Q ok (net_step s n)) -> ends (fun _ => alloc) Q s.
Proof.
  intros HQ. unfold alloc, on_d, d_malloc. destruct (n_malloc (d_net (sv_d s))) as [ok n] eqn:E.
  eapply ends_now; [intros _; rewrite E; done|]. apply HQ.
Qed.

Lemma inv_net R F s n : inv R F s -> inv R F (net_step s n) /\ forall k, step k s (net_step s n).
Proof.
  intros Hi. destruct (kept_net (sv_d s) n _ _ (iv_disp _ _ _ Hi)) as [Hd E].
  split; [by eapply inv_d; [|exact Hd | by apply same_closing_eq] | intros k; by apply step_d, same_closing_eq].
Qed.

(** * Closing *)

(** The part of [step] that does not say that the protocol engine knows. *)
Record closed k s s' : Prop := Closed {
  cl_protos : sv_protos s' = sv_protos s;
  cl_dom : forall x, is_Some (d_conns (sv_d s') !! x) <-> is_Some (d_conns (sv_d s) !! x);
  cl_locked : sv_conns_locked s' = sv_conns_locked s;
  cl_rest : server_rest s' = server_rest s;
  cl_cluster : sv_cluster s' = sv_cluster s;
  cl_listed : forall x, x <> k -> x ∈ sv_conns s -> x ∈ sv_conns s'
}.

Lemma closed_refl k s : closed k s s.
Proof. by constructor. Qed.

Lemma inv_closed R F s k d' :
  inv R F s -> disp_ok d' (gather proto_refs (sv_protos s) ++ R) (gather proto_msgs (sv_protos s) ++ F) ->
  (forall x, x <> k -> d_conns d' !! x = d_conns (sv_d s) !! x) -> (exists cn, d_conns d' !! k = Some cn /\ cn_closing cn = true) ->
  is_Some (d_conns (sv_d s) !! k) ->
  inv R F (s <| sv_d := d' |> <| sv_conns ::= filter (fun x => x <> k) |>).
Proof.
  intros [H1 H2 H3 H4 H5 H6 H7 H8 H9] Hd Ho (cn & Hk & Hcl) Hs. constructor; try done; simpl.
  - intros x p Hp. destruct (H2 x p Hp) as (A & B & D). split_and!; try done. destruct (decide (x = k)) as [->|]; [by rewrite Hk | by rewrite Ho].
  - by apply NoDup_filter.
  - intros x. rewrite list_elem_of_filter, H4. unfold live_conn. destruct (decide (x = k)) as [->|Hne]; [|by rewrite (Ho x Hne); naive_solver].
    rewrite Hk. split; [naive_solver|]. intros [_ (cn' & [= <-] & E)]. unfold shut, flags in E. simpl in E. by rewrite Hcl in E.
  - intros x [Hx|Hx]; apply H7; [left | by right]. destruct (decide (x = k)) as [->|Hne]; [done | by rewrite <- (Ho x Hne)].
  - intros x p cn' Hp Hx. destruct (decide (x = k)) as [->|Hne]; [naive_solver | rewrite (Ho x Hne) in Hx; eauto].
Qed.

Lemma inv_open_listed R F s k cn :
  inv R F s -> is_Some (sv_protos s !! k) -> d_conns (sv_d s) !! k = Some cn -> cn_closing cn = false -> k ∈ sv_conns s.
Proof.
  intros Hi [p Hp] Hcn Hcl. apply (iv_listed _ _ _ Hi). split; [by rewrite Hp|]. exists cn. split; [done|].
  unfold shut, flags. simpl. rewrite Hcl. simpl. destruct (cn_tcp_closing cn) eqn:E; [|done].
  by rewrite (iv_flags _ _ _ Hi k p cn Hp Hcn E) in Hcl.
Qed.

Lemma conn_close_ends R F s k :
  inv R F s -> is_Some (sv_protos s !! k) -> sv_conns_locked s = false ->
  ends (fun _ => beaver_conn_close k) (fun _ s' => inv R F s' /\ closed k s s') s.
Proof.
  intros Hi Hsp Hl. assert (exists cn, d_conns (sv_d s) !! k = Some cn) as [cn Hcn].
  { destruct Hsp as [p Hp]. apply (iv_wf _ _ _ Hi k p Hp). }
  unfold beaver_conn_close. destruct (cn_closing cn) eqn:Ecl.
  { eapply ends_now; [intros _; unfold get_conn, the, mbind, proc_bind; rewrite Hcn; simpl; by rewrite Ecl|]. split; [done | apply closed_refl]. }
  pose proof (inv_open_listed _ _ _ _ _ Hi Hsp Hcn Ecl) as Hin.
  destruct (drop_conn_spec k cn (sv_d s) _ _ (iv_disp _ _ _ Hi) Hcn Ecl) as [Hd1 Ec1]. set (d1 := drop_conn k (sv_d s)) in *.
  set (cn1 := cn <| cn_closing := true |>) in *.
  assert (Hk1 : d_conns d1 !! k = Some cn1) by (by rewrite Ec1, lookup_insert_eq).
  set (cn2 := (if (1 <? cn_n_handles cn1)%nat then cn1 <| cn_hb_timer := timer_off |> <| cn_timer_closing := true |> else cn1) <| cn_tcp_closing := true |>).
  set (s2 := (s <| sv_d := d1 <| d_conns ::= <[k := cn2]> |> |> <| sv_conns ::= filter (fun x => x <> k) |>)).
  assert (E2 : cn_closing cn2 = true /\ shut cn2 = true /\ omap id (cn_writes cn2) = omap id (cn_writes cn1)) by (unfold cn2; by destruct (1 <? _)%nat).
  destruct E2 as (E1 & E2 & E3).
  assert (Hd2 : disp_ok (d1 <| d_conns ::= <[k := cn2]> |>) (gather proto_refs (sv_protos s) ++ R) (gather proto_msgs (sv_protos s) ++ F)).
  { eapply disp_shut_conn; [done | exact Hk1 | exact E3 | exact E2]. }
  set (f := fun s : server => s <| sv_conns_locked := false |> <| sv_stats ::= fun st => st <| st_active_conns ::= fun n => n - 1 |> |>).
  exists tt, (f s2), 0%nat. split.
  - intros fuel _. unfold mbind, proc_bind, get_conn, the. rewrite Hcn. cbn [fmap option_fmap option_map]. rewrite Ecl.
    unfold mod_d, modify, conn_list_remove, lock_conns, unlock_conns, gets, conn_close_handles, mod_conn, get_conn, the, mod_d, modify, mbind, proc_bind.
    cbn. rewrite Hl. cbn. rewrite bool_decide_true by exact Hin. cbn. fold d1. rewrite Hk1. done.
  - assert (Hi2 : inv R F s2).
    { eapply inv_closed; [done | exact Hd2 | | | by rewrite Hcn].
      - intros x Hx. simpl. by rewrite lookup_insert_ne, Ec1, lookup_insert_ne.
      - exists cn2. simpl. by rewrite lookup_insert_eq. }
    split; [destruct Hi2; by constructor|]. constructor; try done; intros x; simpl.
    + rewrite Ec1, !lookup_insert_is_Some. destruct (decide (k = x)) as [<-|]; [rewrite Hcn|]; naive_solver.
    + intros Hx Hl'. by apply list_elem_of_filter.
Qed.

End ServerInv.
