(* ===== verification/ProtocolInv.v ===== *)
(** The protocol engine (Protocol.v) returns on every input and keeps the invariant
    of the worker (ServerInv.v). *)

From S2P Require Import Prelude Tables CLib Frame AuthLimit Password AuthStore HashMap Message Queue Store Exchange Broker BrokerRoute BrokerSpec BrokerDelivery Net Dispatch DispatchInv DispatchOps DispatchSettle DispatchRun DispatchClient Server Protocol ServerInv.

Create HintDb stable.

Section ProtocolInv.
Context {M : Type} `{!PtrMap M} `{!PtrMapLaws M} {C : Type} `{!ClusterOps C}.
Context (regexec : bytes -> bytes -> bool).
Abbreviation server := (beaver_server M C).
Abbreviation proc A := (proc M C A).
Implicit Types (s : server) (k : positive).

(** * Branches *)

Lemma stable_if {A} b k (c : bool) (m1 m2 : nat -> proc A) :
  (c = true -> stable b k m1) -> (c = false -> stable b k m2) -> stable b k (fun fuel => if c then m1 fuel else m2 fuel).
Proof. destruct c; auto. Qed.

Lemma stable_option {A B} b k (x : option B) (m1 : nat -> B -> proc A) (m2 : nat -> proc A) :
  (forall y, x = Some y -> stable b k (fun fuel => m1 fuel y)) -> (x = None -> stable b k m2) ->
  stable b k (fun fuel => match x with Some y => m1 fuel y | None => m2 fuel end).
Proof. destruct x; auto. Qed.

Lemma stable_pair {A B D} b k (x : B * D) (m : nat -> B -> D -> proc A) :
  (forall y z, x = (y, z) -> stable b k (fun fuel => m fuel y z)) -> stable b k (fun fuel => let '(y, z) := x in m fuel y z).
Proof. destruct x. auto. Qed.

End ProtocolInv.

#[export] Hint Resolve stable_ret stable_gets stable_get_proto stable_get_conn stable_alloc stable_build stable_uv_call stable_send
  stable_on_cluster stable_throttled : stable.

(** Showing that an update is mild. *)
Ltac mild := intros ?; split_and!; try done; try (intros [?W ?W ?W ?W ?W ?W ?W]; constructor; simpl; try done; auto).

(** Reading the access-control store, which is not locked. *)
Ltac authstore_read :=
  apply stable_the; unfold authstore_check, authstore_is_open, authstore_vhost_exists, authstore_can_access_vhost, authstore_lookup_hash,
    authstore_user_tags, rdlock;
  match goal with H : s_locked _ = false |- _ => rewrite H end; cbn [mbind option_bind]; eauto.

(** One step of the syntax-directed search; it stops at a lookup, which takes a
    reference. *)
Ltac stable_step :=
  lazymatch goal with
  | |- forall _, _ => intro
  | |- stable _ _ (fun _ => gets sv_authstore ≫= _) => apply stable_authstore; [cbn beta iota | intros ? ?; cbn beta iota]
  | |- stable _ _ (fun _ => gets sv_cluster ≫= _) => apply stable_cluster; [cbn beta iota | intros ?; cbn beta iota]
  | |- stable _ _ (fun _ => on_broker (broker_get_queue _ _) ≫= _) => fail
  | |- stable _ _ (fun _ => _ ≫= _) => apply stable_bind
  | |- stable _ _ (fun _ => if _ then _ else _) => apply stable_if
  | |- stable _ _ (fun _ => match _ with Some _ => _ | None => _ end) => apply stable_option
  | |- stable _ _ (fun _ => let '(_, _) := _ in _) => apply stable_pair
  | |- stable _ _ (fun _ => mod_proto _ _) => first [ solve [ eauto with stable ] | apply stable_mod_proto; solve [ mild ] ]
  | |- stable _ _ (fun _ => mod_conn _ _) => first [ solve [ eauto with stable ] | apply stable_mod_conn; done ]
  | |- stable _ _ (fun _ => modify _) => apply stable_modify; done
  | |- stable _ _ (fun _ => the (fun _ => _)) => solve [ authstore_read ]
  | |- stable _ _ _ => solve [ eauto with stable ]
  end.
Ltac stable_auto := repeat stable_step.

Section Outbound.
Context {M : Type} `{!PtrMap M} `{!PtrMapLaws M} {C : Type} `{!ClusterOps C}.
Abbreviation server := (beaver_server M C).
Abbreviation proc A := (proc M C A).
Implicit Types (s : server) (k : positive).

(** [publish_state] towards CLOSING, and the close. *)
Lemma stable_proto_close b k : stable (C := C) (M := M) b k (fun _ => proto_close k).
Proof.
  intros R F s Hi Hr _. pose proof Hr as ([p Hp] & [cn Hcn] & Hl). unfold proto_close. apply ends_bind.
  eapply ends_now; [intros _; unfold get_proto, the; rewrite Hp; done|]. case_bool_decide as Hst.
  { apply ends_ret. split; [done | apply step_refl]. }
  set (s1 := s <| sv_protos ::= <[k := p <| pr_state := BMQP_STATE_CLOSING |>]> |>).
  set (cn1 := cn <| cn_amqp_state := 4 |>). set (s2 := s1 <| sv_d ::= fun d => d <| d_conns ::= <[k := cn1]> |> |>).
  assert (Hi1 : inv R F s1).
  { eapply (inv_mild (fun p => p <| pr_state := BMQP_STATE_CLOSING |>)); [|done | done].
    intros x. split_and!; try done. intros [W1 W2 W3 W4 W5 W6 W7]. by constructor. }
  assert (Hi2 : inv R F s2).
  { eapply inv_d; [exact Hi1 | eapply disp_set_conn; [apply Hi1 | exact Hcn | done | done] | by apply (same_closing_set _ _ cn)]. }
  apply ends_bind. exists tt, s2, 0%nat. split.
  { intros fuel _. unfold publish_state, mod_proto, mod_conn, get_proto, get_conn, the, modify, mod_d, mbind, proc_bind. rewrite Hp. simpl.
    rewrite Hcn. done. }
  eapply ends_mono; [apply conn_close_ends; [exact Hi2 | simpl; by rewrite ?lookup_insert_eq | done]|].
  intros _ s3 [Hi3 [E1 E2 E3 E4 E5]]. split; [done|].
  assert (Hdom : forall x, is_Some (d_conns (sv_d s3) !! x) <-> is_Some (d_conns (sv_d s) !! x)).
  { intros x. rewrite E2. simpl. rewrite lookup_insert_is_Some. destruct (decide (k = x)) as [<-|]; [rewrite Hcn|]; naive_solver. }
  constructor; rewrite ?E1, ?E5; simpl.
  - intros _. unfold ready. rewrite E1, E3. simpl. rewrite lookup_insert_eq. split_and!; [done | apply Hdom; by rewrite Hcn | done].
  - intros _ x c. rewrite E1. simpl. rewrite lookup_insert_eq. by intros [= <-].
  - intros j Hj. by rewrite lookup_insert_ne.
  - by rewrite lookup_insert_eq, Hp.
  - by rewrite E4.
  - done.
Qed.

Lemma stable_proto_fatal b k : stable (C := C) (M := M) b k (fun _ => proto_fatal k).
Proof. apply stable_proto_close. Qed.

Lemma publish_state_ends k st p R F s :
  inv R F s -> ready k s -> sv_protos s !! k = Some p -> (pr_state p = BMQP_STATE_CLOSING -> st = BMQP_STATE_CLOSING) ->
  ends (fun _ => publish_state k st)
    (fun _ s' => inv R F s' /\ step k s s' /\ sv_protos s' !! k = Some (p <| pr_state := st |>)) s.
Proof.
  intros Hi Hr Hp Hst. destruct Hr as (_ & [cn Hcn] & Hl). unfold publish_state. apply ends_bind, (ends_mod_proto _ _ p); [done|].
  set (p' := p <| pr_state := st |>). set (s1 := s <| sv_protos ::= <[k := p']> |>).
  assert (Hs1 : step k s s1) by (eapply step_p; [exact Hp | done..]).
  assert (Hi1 : inv R F s1).
  { destruct (iv_wf _ _ _ Hi k p Hp) as ([] & _ & Ho). assert (Hi' : inv R F (s <| sv_d := sv_d s |> <| sv_protos ::= <[k := p']> |>)); [|by destruct s].
    eapply inv_dp; [exact Hi | exact Hp | by apply (inv_split _ _ _ _ _ Hi Hp) | by apply same_closing_eq | by constructor | done | done]. }
  apply (ends_mod_conn _ _ cn); [done|].
  set (cn' := cn <| cn_amqp_state := state_num st |>).
  destruct (inv_conn R F s1 k cn cn' Hi1 Hcn eq_refl eq_refl) as [Hi2 Hs2].
  split_and!; [exact Hi2 | eapply step_trans; [exact Hs1 | apply Hs2] |]. simpl. by rewrite lookup_insert_eq.
Qed.

Lemma stable_proto_advance b k st : stable (C := C) (M := M) b k (fun _ => proto_advance k st).
Proof.
  intros R F s Hi Hr Hb. pose proof Hr as ([p Hp] & _). unfold proto_advance. apply ends_bind.
  eapply ends_now; [intros _; unfold get_proto, the; rewrite Hp; done|].
  destruct (_ || _) eqn:E; [apply ends_ret; split; [done | apply step_refl]|].
  apply orb_false_iff in E as [E _]. apply bool_decide_eq_false in E.
  eapply ends_mono; [by eapply publish_state_ends|]. by intros a s' (H1 & H2 & _).
Qed.
End Outbound.
#[export] Hint Resolve stable_proto_close stable_proto_fatal stable_proto_advance : stable.

Section Sending.
Context {M : Type} `{!PtrMap M} `{!PtrMapLaws M} {C : Type} `{!ClusterOps C}.
Context (b : bool) (k : positive).
Abbreviation stable := (stable (M := M) (C := C) b k).

Lemma stable_protocol_send_method channel class_id method_id args : stable (fun _ => protocol_send_method k channel class_id method_id args).
Proof. unfold protocol_send_method. stable_auto. Qed.

Lemma stable_send_body rounds channel chunk : forall rem, stable (fun _ => send_body rounds k channel chunk rem).
Proof.
  induction rounds as [|rounds IH]; intros rem; [apply stable_ret|]. cbn [send_body]. destruct rem; [apply stable_ret|]. stable_auto.
Qed.

Lemma stable_protocol_send_content channel class_id body props frame_max :
  stable (fun _ => protocol_send_content k channel class_id body props frame_max).
Proof. unfold protocol_send_content. pose proof stable_send_body. stable_auto. Qed.

Lemma stable_send_method channel class_id method_id args : stable (fun _ => send_method k channel class_id method_id args).
Proof. unfold send_method. pose proof stable_protocol_send_method. stable_auto. Qed.
End Sending.
#[export] Hint Resolve stable_protocol_send_method stable_protocol_send_content stable_send_method : stable.

(** * Channels *)

Lemma channel_find_spec p ch i pc : channel_find p ch = Some (i, pc) -> pr_channels p !! i = Some pc /\ ch_id pc = ch.
Proof. intros H. apply list_find_Some in H as (H1 & H2 & _). done. Qed.

Lemma bind_split {A B} (f : A -> list B) (l : list A) i x : l !! i = Some x -> l ≫= f ≡ₚ f x ++ (swap_remove i l ≫= f).
Proof. intros Hi. by rewrite <- (swap_remove_perm l i x Hi) at 1. Qed.

Lemma swap_remove_wf p i pc : proto_wf p -> pr_channels p !! i = Some pc -> proto_wf (p <| pr_channels ::= swap_remove i |>).
Proof.
  intros [W1 W2 W3 W4 W5 W6 W7] Hi. pose proof (swap_remove_perm _ _ _ Hi) as Hp. constructor; simpl; try done.
  - rewrite <- Hp in W1. by apply NoDup_cons in W1 as [_ W1].
  - rewrite <- Hp in W2. by apply Forall_cons in W2 as [_ W2].
  - apply Permutation_length in Hp. simpl in Hp. lia.
  - intros Ho. destruct (W6 Ho) as [E _]. rewrite E in Hi. done.
Qed.

Section Channels.
Context {M : Type} `{!PtrMap M} `{!PtrMapLaws M} {C : Type} `{!ClusterOps C}.
Implicit Types (s : beaver_server M C) (d : dispatcher M).

(** The deliveries of a channel that goes away. *)
Lemma release_get_all gs : forall d R F,
  disp_ok d ((gu_queue <$> gs) ++ R) ((gu_msg <$> gs) ++ F) -> kept d (foldl release_get d gs) R F.
Proof.
  induction gs as [|g gs IH]; intros d R F Hd; [by apply kept_refl|]. cbn [foldl fmap list_fmap] in *. unfold release_get at 2.
  eapply kept_trans; [apply kept_requeue; exact Hd|]. intros Hd1.
  eapply kept_trans; [apply kept_unref_msg; exact Hd1|]. intros Hd2.
  eapply kept_trans; [apply kept_unref; exact Hd2|]. intros Hd3. by apply IH.
Qed.

Lemma stable_channel_remove b k ch : stable (M := M) (C := C) b k (fun _ => channel_remove k ch).
Proof.
  intros R F s Hi Hr _. destruct Hr as ([p Hp] & _). unfold channel_remove. apply ends_bind.
  eapply ends_now; [intros _; unfold get_proto, the; rewrite Hp; done|].
  destruct (channel_find p ch) as [[i pc]|] eqn:E; [|apply ends_ret; split; [done | apply step_refl]].
  destruct (channel_find_spec _ _ _ _ E) as [Hci _]. destruct (iv_wf _ _ _ Hi k p Hp) as (Hwf & _ & Ho).
  set (p' := p <| pr_channels ::= swap_remove i |>). set (d' := foldl release_get (sv_d s) (ch_get_unacked pc)).
  destruct (release_get_all (ch_get_unacked pc) (sv_d s) (proto_refs p' ++ gather proto_refs (delete k (sv_protos s)) ++ R)
    (proto_msgs p' ++ gather proto_msgs (delete k (sv_protos s)) ++ F)) as [Hd' Ec].
  { eapply disp_perm; [by apply (inv_split _ _ _ _ _ Hi Hp) | |]; unfold proto_refs, proto_msgs, p'; simpl;
      [rewrite (bind_split chan_refs _ _ _ Hci) | rewrite (bind_split chan_msgs _ _ _ Hci)]; unfold chan_refs, chan_msgs; solve_perm. }
  fold d' in Hd', Ec. pose proof (same_closing_eq _ _ Ec) as Hc.
  exists tt, (s <| sv_d := d' |> <| sv_protos ::= <[k := p']> |>), 0%nat. split.
  { intros fuel _. unfold chan_release_get_unacked, mod_d, modify, mod_proto, get_proto, the, mbind, proc_bind. simpl. rewrite Hp. by destruct s. }
  split; [|by eapply step_dp]. eapply inv_dp; try done. by eapply swap_remove_wf.
Qed.

(** An update of one channel that leaves its deliveries alone. *)
Definition chan_mild (f : proto_chan_t -> proto_chan_t) : Prop := forall c,
  ch_id (f c) = ch_id c /\ ch_get_unacked (f c) = ch_get_unacked c /\ (ch_cap_get_unacked c <= ch_cap_get_unacked (f c))%nat.

Lemma alter_bind {A B} (f : A -> A) (g : A -> list B) (l : list A) i : (forall x, g (f x) = g x) -> alter f i l ≫= g = l ≫= g.
Proof. intros H. revert i. induction l as [|x l IH]; intros [|i]; simpl; [done | done | by rewrite H | f_equal; apply IH]. Qed.

Lemma alter_fmap {A B} (f : A -> A) (g : A -> B) (l : list A) i : (forall x, g (f x) = g x) -> g <$> alter f i l = g <$> l.
Proof. intros H. revert i. induction l as [|x l IH]; intros [|i]; simpl; [done | done | by rewrite H | f_equal; apply IH]. Qed.

Lemma chan_mild_mild f i : chan_mild f -> mild (fun p => p <| pr_channels ::= alter f i |>).
Proof.
  intros Hf p.
  assert (Er : forall c, chan_refs (f c) = chan_refs c) by (intros c; unfold chan_refs; by rewrite (proj1 (proj2 (Hf c)))).
  assert (Em : forall c, chan_msgs (f c) = chan_msgs c) by (intros c; unfold chan_msgs; by rewrite (proj1 (proj2 (Hf c)))).
  split_and!; try done; [by apply alter_bind | by apply alter_bind |]. intros [W1 W2 W3 W4 W5 W6 W7]. constructor; simpl; try done.
  - rewrite alter_fmap; [done|]. intros c. apply Hf.
  - apply Forall_alter; [done|]. intros c _ [Hr Hc]. destruct (Hf c) as (-> & -> & Hle). split; [done | lia].
  - by rewrite length_alter.
  - intros Ho. by destruct (W6 Ho) as [-> ->].
Qed.

Lemma stable_set_chan b k i f : chan_mild f -> stable (M := M) (C := C) b k (fun _ => set_chan k i f).
Proof. intros Hf. by apply stable_mod_proto, chan_mild_mild. Qed.

(** A channel is added to an open connection that does not have it. *)
Definition can_add k ch s : Prop := exists p,
  sv_protos s !! k = Some p /\ channel_is_open p ch = false /\ pr_connection_open p = true.

Lemma wf_add_channel p ch :
  proto_wf p -> channel_is_open p ch = false -> pr_connection_open p = true -> 1 <= ch <= AMQP_CHANNEL_MAX ->
  (length (pr_channels p) < pr_cap_channels p)%nat -> proto_wf (p <| pr_channels ::= fun l => l ++ [Chan ch 0 [] 0 false 0] |>).
Proof.
  intros [W1 W2 W3 W4 W5 W6 W7] Hn Ho Hch Hl. constructor; simpl; try done.
  - rewrite fmap_app. apply NoDup_app. split_and!; [done | | repeat constructor; set_solver].
    intros x Hx Hin. cbn in Hin. apply list_elem_of_singleton in Hin. subst x. apply list_elem_of_fmap in Hx as (c & Ec & Hc).
    unfold channel_is_open, channel_find in Hn. destruct (list_find _ _) as [[]|] eqn:E; [done|].
    apply list_find_None in E. rewrite Forall_forall in E. apply (E c Hc). unfold is_channel. congruence.
  - apply Forall_app. split; [done|]. apply Forall_singleton. split; simpl; [done | lia].
  - rewrite length_app. simpl. lia.
  - congruence.
Qed.

(** Room for one more element of an array of the protocol state. *)
Lemma grow_ends k (len cap : proto -> nat) (n c : nat) (set : proto -> proto) R F s p :
  inv R F s -> sv_protos s !! k = Some p -> n = len p -> c = cap p -> (n <= c)%nat ->
  mild set -> len (set p) = len p -> (cap p < cap (set p) \/ cap p <> len p)%nat ->
  ends (fun _ => if (n =? c)%nat then
                   ok ← alloc; (if ok : bool then mod_proto k set else mret tt);; mret ok
                 else mret true)
    (fun ok s1 => exists p1, inv R F s1 /\ step k s s1 /\ sv_protos s1 !! k = Some p1 /\ (p1 = p \/ p1 = set p) /\
                    (ok = true -> len p1 < cap p1)%nat) s.
Proof.
  intros Hi Hp -> -> Hle Hset El Hc. destruct (_ =? _)%nat eqn:E; [apply Nat.eqb_eq in E | apply Nat.eqb_neq in E].
  - apply ends_bind, ends_alloc. intros ok n. destruct (inv_net _ _ _ n Hi) as [Hi1 Hs1]. apply ends_bind. destruct ok.
    + eapply (ends_mod_proto _ _ p); [done|]. apply ends_ret. exists (set p). split_and!.
      * by apply inv_mild.
      * eapply step_trans; [apply Hs1|]. eapply step_p; [exact Hp | apply Hset..].
      * simpl. by rewrite lookup_insert_eq.
      * by right.
      * intros _. lia.
    + apply ends_ret, ends_ret. exists p. split_and!; [done | done | done | by left | done].
  - apply ends_ret. exists p. split_and!; [done | apply step_refl | done | by left | lia].
Qed.

(** An update at the end of a step, for the state at hand. *)
Lemma inv_one R F s k p p' :
  inv R F s -> sv_protos s !! k = Some p -> proto_refs p' = proto_refs p -> proto_msgs p' = proto_msgs p -> proto_wf p' ->
  pr_pending_auth p' = pr_pending_auth p -> pr_pending_ops p' = pr_pending_ops p -> pr_state p' = pr_state p -> input_of p' = input_of p ->
  inv R F (s <| sv_protos ::= <[k := p']> |>) /\ step k s (s <| sv_protos ::= <[k := p']> |>).
Proof.
  intros Hi Hp E1 E2 Hwf E3 E4 E5 E6. split; [|eapply step_p; [exact Hp | by rewrite E5 | done]].
  assert (Hi' : inv R F (s <| sv_d := sv_d s |> <| sv_protos ::= <[k := p']> |>)); [|by destruct s].
  eapply inv_dp; [exact Hi | exact Hp | rewrite E1, E2; by apply inv_split | by apply same_closing_eq | done | done |].
  rewrite E4. by apply (iv_wf _ _ _ Hi k p).
Qed.

Lemma channel_add_ends k ch R F s :
  1 <= ch <= AMQP_CHANNEL_MAX -> inv R F s -> can_add k ch s ->
  ends (fun _ => channel_add k ch) (fun _ s' => inv R F s' /\ step k s s') s.
Proof.
  intros Hch Hi (p & Hp & Hn & Ho). unfold channel_add. apply ends_bind, (ends_get_proto _ p); [done|]. apply ends_bind.
  pose proof (wf_cap _ (proj1 (iv_wf _ _ _ Hi k p Hp))) as Hcap.
  eapply ends_mono; [apply (grow_ends k (fun p => length (pr_channels p)) pr_cap_channels _ _ _ _ _ _ _ Hi Hp eq_refl eq_refl Hcap)|].
  - mild. destruct (_ =? _)%nat eqn:E; [apply Nat.eqb_eq in E | apply Nat.eqb_neq in E]; lia.
  - done.
  - simpl. destruct (_ =? _)%nat eqn:E; [apply Nat.eqb_eq in E | apply Nat.eqb_neq in E]; lia.
  - intros ok s1 (p1 & Hi1 & Hs1 & Hp1 & Hor & Hl). destruct ok; [|apply ends_ret; done].
    apply ends_bind, (ends_mod_proto _ _ p1); [done|]. apply ends_ret.
    assert (Hp1' : channel_is_open p1 ch = false /\ pr_connection_open p1 = true) by (by destruct Hor as [->| ->]). destruct Hp1' as [Hn1 Ho1].
    destruct (inv_one R F s1 k p1 (p1 <| pr_channels ::= fun l => l ++ [Chan ch 0 [] 0 false 0] |>)) as [Hi2 Hs2]; try done.
    + unfold proto_refs. simpl. by rewrite bind_app, app_nil_r.
    + unfold proto_msgs. simpl. by rewrite bind_app, app_nil_r.
    + apply wf_add_channel; auto. by apply (iv_wf _ _ _ Hi1 k).
    + split; [done | by eapply step_trans].
Qed.

(** ** Deliveries of Basic.Get *)

Lemma alter_split {A B} (f : A -> A) (g : A -> list B) (l : list A) i x :
  l !! i = Some x -> alter f i l ≫= g ≡ₚ g (f x) ++ ((take i l ++ drop (S i) l) ≫= g).
Proof.
  revert i. induction l as [|y l IH]; intros [|i] Hi; try done; simpl in *.
  - by injection Hi as ->.
  - rewrite (IH i Hi). solve_perm.
Qed.

Lemma middle_split {A B} (g : A -> list B) (l : list A) i x : l !! i = Some x -> l ≫= g ≡ₚ g x ++ ((take i l ++ drop (S i) l) ≫= g).
Proof. intros Hi. rewrite <- (alter_split id g l i x Hi). by rewrite list_alter_id. Qed.

(** What all channels but [i] hold. *)
Definition other_refs k (i : nat) (p : proto) s : list positive :=
  ((take i (pr_channels p) ++ drop (S i) (pr_channels p)) ≫= chan_refs) ++ gather proto_refs (delete k (sv_protos s)).
Definition other_msgs k (i : nat) (p : proto) s : list message :=
  ((take i (pr_channels p) ++ drop (S i) (pr_channels p)) ≫= chan_msgs) ++ gather proto_msgs (delete k (sv_protos s)).

Lemma inv_chan_split R F s k p i c :
  inv R F s -> sv_protos s !! k = Some p -> pr_channels p !! i = Some c ->
  disp_ok (sv_d s) (chan_refs c ++ other_refs k i p s ++ R) (chan_msgs c ++ other_msgs k i p s ++ F).
Proof.
  intros Hi Hp Hci. eapply disp_perm; [by apply (inv_split _ _ _ _ _ Hi Hp) | |]; unfold proto_refs, proto_msgs, other_refs, other_msgs;
    rewrite (middle_split _ _ _ _ Hci); solve_perm.
Qed.

(** The references of the deliveries on the channel [i] are in the hands of the
    caller, who puts others in their place. *)
Lemma inv_chan R F R' F' s k p i c f d' :
  inv R F s -> sv_protos s !! k = Some p -> pr_channels p !! i = Some c ->
  ch_id (f c) = ch_id c -> (length (ch_get_unacked (f c)) <= ch_cap_get_unacked (f c))%nat ->
  (disp_ok (sv_d s) (chan_refs c ++ other_refs k i p s ++ R) (chan_msgs c ++ other_msgs k i p s ++ F) ->
   disp_ok d' (chan_refs (f c) ++ other_refs k i p s ++ R') (chan_msgs (f c) ++ other_msgs k i p s ++ F')) -> same_closing (sv_d s) d' ->
  let s' := s <| sv_d := d' |> <| sv_protos ::= <[k := p <| pr_channels ::= alter f i |>]> |> in inv R' F' s' /\ step k s s'.
Proof.
  intros Hi Hp Hci Hid Hlen Hd Hc. cbv zeta. split; [|by eapply step_dp]. destruct (iv_wf _ _ _ Hi k p Hp) as (Hwf & _ & Ho).
  eapply inv_dp; try done.
  - eapply disp_perm; [exact (Hd (inv_chan_split _ _ _ _ _ _ _ Hi Hp Hci)) | |]; unfold proto_refs, proto_msgs, other_refs, other_msgs; simpl;
      rewrite (alter_split _ _ _ _ _ Hci); solve_perm.
  - destruct Hwf as [W1 W2 W3 W4 W5 W6 W7]. constructor; simpl; try done.
    + replace (ch_id <$> alter f i (pr_channels p)) with (ch_id <$> pr_channels p); [done|]. apply list_eq. intros j.
      rewrite !list_lookup_fmap. destruct (decide (i = j)) as [<-|]; [|by rewrite list_lookup_alter_ne].
      rewrite list_lookup_alter_eq, Hci. simpl. by rewrite Hid.
    + rewrite Forall_lookup in W2 |- *. intros j y. destruct (decide (i = j)) as [<-|].
      * rewrite list_lookup_alter_eq, Hci. intros [= <-]. split; [rewrite Hid; by apply (W2 i c) | done].
      * rewrite list_lookup_alter_ne by done. apply W2.
    + by rewrite length_alter.
    + intros Hop. destruct (W6 Hop) as [E _]. by rewrite E in Hci.
Qed.

(** The delivery is recorded with the references of the caller, or they stay with
    the caller. *)
Lemma chan_get_unacked_add_ends k i pc g R F s p :
  inv (gu_queue g :: R) (gu_msg g :: F) s -> sv_protos s !! k = Some p -> pr_channels p !! i = Some pc ->
  ends (fun _ => chan_get_unacked_add k i pc g)
    (fun ok s' => (if ok : bool then inv R F s' else inv (gu_queue g :: R) (gu_msg g :: F) s') /\ step k s s') s.
Proof.
  intros Hi Hp Hci. unfold chan_get_unacked_add. apply ends_bind.
  pose proof (wf_range _ (proj1 (iv_wf _ _ _ Hi k p Hp))) as Hwr. rewrite Forall_lookup in Hwr. destruct (Hwr i pc Hci) as [_ Hcap].
  set (grow := fun c : proto_chan_t => c <| ch_cap_get_unacked := if (ch_cap_get_unacked c =? 0)%nat then 8%nat else (ch_cap_get_unacked c * 2)%nat |>).
  set (at_i := fun (f : proto_chan_t -> nat) (p : proto) => default 0%nat (f <$> pr_channels p !! i)).
  eapply ends_mono; [apply (grow_ends k (at_i (fun c => length (ch_get_unacked c))) (at_i ch_cap_get_unacked) _ _
    (fun p => p <| pr_channels ::= alter grow i |>) _ _ _ _ Hi Hp)|].
  - unfold at_i. by rewrite Hci.
  - unfold at_i. by rewrite Hci.
  - done.
  - apply chan_mild_mild. intros c. split_and!; try done. simpl. destruct (_ =? _)%nat eqn:E; [apply Nat.eqb_eq in E | apply Nat.eqb_neq in E]; lia.
  - unfold at_i. simpl. by rewrite list_lookup_alter_eq, Hci.
  - unfold at_i. simpl. rewrite list_lookup_alter_eq, Hci. simpl. destruct (_ =? _)%nat eqn:E; [apply Nat.eqb_eq in E | apply Nat.eqb_neq in E]; lia.
  - intros ok s1 (p1 & Hi1 & Hs1 & Hp1 & Hor & Hl). destruct ok; [|apply ends_ret; done].
    apply ends_bind, (ends_mod_proto _ _ p1); [done|]. apply ends_ret.
    assert (Hc1 : exists c, pr_channels p1 !! i = Some c).
    { destruct Hor as [->| ->]; [eauto|]. simpl. rewrite list_lookup_alter_eq, Hci. eauto. }
    destruct Hc1 as [c Hc1]. specialize (Hl eq_refl). unfold at_i in Hl. rewrite Hc1 in Hl. simpl in Hl.
    destruct (inv_chan (gu_queue g :: R) (gu_msg g :: F) R F s1 k p1 i c (fun c => c <| ch_get_unacked ::= fun l => l ++ [g] |>) (sv_d s1)) as [Hi2 Hs2]; try done.
    + simpl. rewrite length_app. simpl. lia.
    + intros Hd. eapply disp_perm; [exact Hd | |]; unfold chan_refs, chan_msgs; simpl; rewrite fmap_app; simpl; solve_perm.
    + split; [by destruct s1 | eapply step_trans; [exact Hs1 | by destruct s1]].
Qed.

(** The loop over the deliveries takes those that the tag names. *)
Definition unnamed multiple tag (g : get_unacked_t) : Prop := tag_matches multiple tag (gu_tag g) = false.

Lemma get_settle_loop_ok tag multiple back rejected rounds : forall j n gs d R F,
  disp_ok d ((gu_queue <$> gs) ++ R) ((gu_msg <$> gs) ++ F) -> (length gs - j <= rounds)%nat -> Forall (unnamed multiple tag) (take j gs) ->
  exists n0 S gs' d', (forall fuel, (n0 <= fuel)%nat ->
      get_settle_loop fuel rounds tag multiple back rejected j n gs d = Some ((n + length S)%nat, gs', d')) /\
    kept d d' ((gu_queue <$> gs') ++ R) ((gu_msg <$> gs') ++ F) /\ gs ≡ₚ S ++ gs' /\
    Forall (fun g => tag_matches multiple tag (gu_tag g) = true) S /\ (multiple = true \/ S = [] -> Forall (unnamed multiple tag) gs') /\
    (multiple = false -> (length S <= 1)%nat).
Proof.
  induction rounds as [|rounds IH]; intros j n gs d R F Hd Hr Hj.
  { exists 0%nat, [], gs, d. rewrite take_ge in Hj by lia. split_and!; [intros; simpl; by rewrite Nat.add_0_r | by apply kept_refl | done | constructor | done | simpl; lia]. }
  cbn [get_settle_loop]. destruct (gs !! j) as [g|] eqn:Hg.
  2:{ apply lookup_ge_None in Hg. exists 0%nat, [], gs, d. rewrite take_ge in Hj by lia.
      split_and!; [intros; simpl; by rewrite Nat.add_0_r | by apply kept_refl | done | constructor | done | simpl; lia]. }
  pose proof (lookup_lt_Some _ _ _ Hg) as Hlt. destruct (tag_matches multiple tag (gu_tag g)) eqn:Et.
  2:{ destruct (IH (S j) n gs d R F Hd ltac:(lia)) as (n0 & S & gs' & d' & H); [|by exists n0, S, gs', d'].
      rewrite (take_S_r _ _ _ Hg). apply Forall_app. split; [done | by apply Forall_singleton]. }
  pose proof (swap_remove_perm _ _ _ Hg) as Hp.
  destruct (kept_settle_one (gu_queue g) back rejected (gu_msg g) d ((gu_queue <$> swap_remove j gs) ++ R) ((gu_msg <$> swap_remove j gs) ++ F))
    as (n1 & d1 & E1 & Hk1). { eapply disp_perm; [exact Hd | by rewrite <- Hp at 1..]. }
  set (d2 := d_unref (gu_queue g) d1).
  assert (Hk2 : kept d d2 ((gu_queue <$> swap_remove j gs) ++ R) ((gu_msg <$> swap_remove j gs) ++ F)).
  { eapply kept_trans; [exact Hk1|]. intros H1. by apply kept_unref. }
  destruct multiple.
  - destruct (IH j (S n) (swap_remove j gs) d2 R F) as (n2 & S & gs' & d' & E2 & Hk & Hpm & HS & Hun & _).
    + apply Hk2.
    + apply Permutation_length in Hp. simpl in Hp. lia.
    + by rewrite take_swap_remove.
    + exists (n1 + n2)%nat, (g :: S), gs', d'. split_and!; try done.
      * intros fuel Hf. rewrite E1 by lia. cbn [mbind option_bind]. fold d2. rewrite E2 by lia. simpl. do 3 f_equal. lia.
      * eapply kept_trans; [exact Hk2|]. by intros _.
      * simpl. by rewrite <- Hpm.
      * by constructor.
      * intros _. apply Hun. by left.
  - exists n1, [g], (swap_remove j gs), d2. split_and!; try done.
    + intros fuel Hf. rewrite E1 by done. simpl. by rewrite Nat.add_1_r.
    + by constructor.
    + naive_solver.
Qed.

Lemma chan_get_unacked_settle_ends k i pc tag multiple back rejected R F s p :
  inv R F s -> sv_protos s !! k = Some p -> pr_channels p !! i = Some pc ->
  ends (fun fuel => chan_get_unacked_settle fuel k i pc tag multiple back rejected)
    (fun n s' => inv R F s' /\ step k s s' /\ exists S gs', n = length S /\ ch_get_unacked pc ≡ₚ S ++ gs' /\
       Forall (fun g => tag_matches multiple tag (gu_tag g) = true) S /\ (multiple = true \/ S = [] -> Forall (unnamed multiple tag) gs') /\
       (multiple = false -> (length S <= 1)%nat) /\
       sv_protos s' !! k = Some (p <| pr_channels ::= alter (fun c => c <| ch_get_unacked := gs' |>) i |>)) s.
Proof.
  intros Hi Hp Hci. pose proof (wf_range _ (proj1 (iv_wf _ _ _ Hi k p Hp))) as Hwr. rewrite Forall_lookup in Hwr. destruct (Hwr i pc Hci) as [_ Hcap].
  destruct (get_settle_loop_ok tag multiple back rejected (length (ch_get_unacked pc)) 0 0 (ch_get_unacked pc) (sv_d s)
    (other_refs k i p s ++ R) (other_msgs k i p s ++ F))
    as (n0 & S & gs' & d' & E & [Hd' Ec] & Hpm & HS & Hun & Hone); [exact (inv_chan_split _ _ _ _ _ _ _ Hi Hp Hci) | lia | constructor |].
  set (f := fun c : proto_chan_t => c <| ch_get_unacked := gs' |>). set (p' := p <| pr_channels ::= alter f i |>).
  exists (length S), (s <| sv_d := d' |> <| sv_protos ::= <[k := p']> |>), n0. split.
  - intros fuel Hf. unfold chan_get_unacked_settle, try_d, mbind, proc_bind. cbn [mbind option_bind]. rewrite E by done. cbn.
    unfold set_chan, mod_proto, get_proto, the, mbind, proc_bind. simpl. rewrite Hp. by destruct s.
  - assert (Hi2 : inv R F (s <| sv_d := d' |> <| sv_protos ::= <[k := p']> |>) /\ step k s (s <| sv_d := d' |> <| sv_protos ::= <[k := p']> |>)).
    { apply (inv_chan R F R F s k p i pc f d'); try done; [|by apply same_closing_eq]. apply Permutation_length in Hpm.
      rewrite length_app in Hpm. simpl. lia. }
    destruct Hi2 as [Hi2 Hs2]. split_and!; [done | done|]. exists S, gs'. split_and!; try done. simpl. by rewrite lookup_insert_eq.
Qed.
End Channels.
#[export] Hint Resolve stable_channel_remove : stable.
#[export] Hint Extern 1 (stable _ _ (fun _ => set_chan _ _ _)) => apply stable_set_chan; intros ?; by split_and! : stable.

(** * The rest of the engine *)

Section Engine.
Context {M : Type} `{!PtrMap M} `{!PtrMapLaws M} {C : Type} `{!ClusterOps C}.
Context (regexec : bytes -> bytes -> bool).
Implicit Types (s : beaver_server M C).
Abbreviation stable := (stable (M := M) (C := C)).

Lemma stable_send_args b k channel class_id method_id f : stable b k (fun _ => send_args k channel class_id method_id f).
Proof. unfold send_args. stable_auto. Qed.
Hint Resolve stable_send_args : stable.

Lemma stable_send_connection_close b k code text : stable b k (fun _ => send_connection_close k code text).
Proof. unfold send_connection_close. stable_auto. Qed.
Hint Resolve stable_send_connection_close : stable.

Lemma stable_cancel_pending_ops b k channel : stable b k (fun _ => cancel_pending_ops k channel).
Proof.
  apply stable_mod_proto. mild. simpl. destruct channel as [ch|]; [|done]. intros H E. apply H. by rewrite E.
Qed.
Hint Resolve stable_cancel_pending_ops : stable.

Lemma stable_remove_channel b k channel : stable b k (fun _ => mod_d (dispatcher_remove_channel k channel)).
Proof. apply stable_mod_d. intros. by apply kept_remove_channel. Qed.
Hint Resolve stable_remove_channel : stable.

Lemma stable_send_channel_close b k channel code text class_id method_id :
  stable b k (fun _ => send_channel_close k channel code text class_id method_id).
Proof. unfold send_channel_close. stable_auto. Qed.
Hint Resolve stable_send_channel_close : stable.

Lemma stable_send_publish_confirm b k channel tag nack : stable b k (fun _ => send_publish_confirm k channel tag nack).
Proof. apply stable_send_args. Qed.
Hint Resolve stable_send_publish_confirm : stable.

(** ** Exclusive queues *)

Lemma stable_track_exclusive_queue b k name : stable b k (fun _ => track_exclusive_queue k name).
Proof.
  intros R F s Hi Hr Hb. destruct Hr as ([p Hp] & Hr). unfold track_exclusive_queue. apply ends_bind, (ends_get_proto _ p); [done|].
  case_bool_decide; [apply ends_ret; split; [done | apply step_refl]|]. apply ends_bind.
  pose proof (wf_excl _ (proj1 (iv_wf _ _ _ Hi k p Hp))) as Hcap.
  eapply ends_mono; [apply (grow_ends k (fun p => length (pr_excl_queues p)) pr_cap_excl _ _
    (fun p => p <| pr_cap_excl := if (pr_cap_excl p =? 0)%nat then 4%nat else (pr_cap_excl p * 2)%nat |>) _ _ _ _ Hi Hp eq_refl eq_refl Hcap)|].
  - mild. destruct (_ =? _)%nat eqn:E; [apply Nat.eqb_eq in E | apply Nat.eqb_neq in E]; lia.
  - done.
  - simpl. destruct (_ =? _)%nat eqn:E; [apply Nat.eqb_eq in E | apply Nat.eqb_neq in E]; lia.
  - intros ok s1 (p1 & Hi1 & Hs1 & Hp1 & _ & Hl). destruct ok; [|apply ends_ret; done].
    apply ends_bind, ends_alloc. intros dup n. destruct (inv_net _ _ _ n Hi1) as [Hi2 Hs2]. specialize (Hs2 k).
    destruct dup; [|apply ends_ret; split; [done | by eapply step_trans]]. apply (ends_mod_proto _ _ p1); [done|].
    destruct (inv_one R F _ k p1 (p1 <| pr_excl_queues ::= fun l => l ++ [name] |>) Hi2 Hp1) as [Hi3 Hs3]; try done.
    + destruct (proj1 (iv_wf _ _ _ Hi1 k p1 Hp1)) as [W1 W2 W3 W4 W5 W6 W7]. constructor; simpl; try done. rewrite length_app. simpl.
      specialize (Hl eq_refl). lia.
    + split; [done|]. eapply step_trans; [exact Hs1|]. by eapply step_trans.
Qed.
Hint Resolve stable_track_exclusive_queue : stable.

(** ** Lookups *)

(** A reference to a queue that is dropped at the end of [f]. *)
Lemma stable_with_queue {A} b k vhost name (f : nat -> option positive -> proc M C A) :
  stable b k (fun fuel => f fuel None) ->
  (forall q R F s, inv (q :: R) F s -> ready k s -> (b = true -> is_Some (sv_cluster s)) ->
     ends (fun fuel => f fuel (Some q)) (fun _ s' => inv R F s' /\ step k s s') s) ->
  stable b k (fun fuel => on_broker (broker_get_queue vhost name) ≫= f fuel).
Proof.
  intros H1 H2 R F s Hi Hr Hb. apply ends_bind. unfold on_broker, on_d. destruct (broker_get_queue vhost name (d_world (sv_d s))) as [r w] eqn:E.
  destruct (kept_get_queue _ _ _ _ _ _ _ (iv_disp _ _ _ Hi) E) as [Hd Ec]. pose proof (same_closing_eq _ _ Ec) as Hc.
  eapply ends_now; [intros _; rewrite E; reflexivity|].
  assert (Hi1 : inv (option_list r ++ R) F (s <| sv_d := (sv_d s) <| d_world := w |> |>)).
  { eapply inv_d; [done | | done]. eapply disp_perm; [exact Hd | solve_perm | done]. }
  pose proof (step_d k s _ Hc) as Hs1. destruct r as [q|]; cbn [option_list app] in Hi1.
  - eapply ends_mono; [apply (H2 q); [exact Hi1 | by apply Hs1 | done]|]. intros a s2 [Hi2 Hs2]. split; [done | by eapply step_trans].
  - eapply ends_mono; [apply H1; [exact Hi1 | by apply Hs1 | done]|]. intros a s2 [Hi2 Hs2]. split; [done | by eapply step_trans].
Qed.

(** Dropping the reference. *)
Lemma drop_ends k q R F s :
  inv (q :: R) F s -> ends (fun _ => mod_d (d_unref q)) (fun _ s' => inv R F s' /\ step k s s') s.
Proof.
  intros Hi. destruct (kept_unref q (sv_d s) (gather proto_refs (sv_protos s) ++ R) (gather proto_msgs (sv_protos s) ++ F)) as [Hd Ec].
  { eapply disp_perm; [apply Hi | solve_perm | done]. }
  eapply ends_now; [done|]. pose proof (same_closing_eq _ _ Ec) as Hc. split; [by eapply (inv_d _ _ _ _ _ _ Hi) | by apply (step_d k s _ Hc)].
Qed.

(** A queue that is held is there. *)
Lemma held_ends {A} q (f : queue -> A) (Q : A -> beaver_server M C -> Prop) R F s :
  inv (q :: R) F s -> (forall a, Q a s) -> ends (fun _ => the (fun s => f <$> st_queues (d_store (sv_d s)) !! q)) Q s.
Proof.
  intros Hi HQ. destruct (world_live _ _ _ q (do_world _ _ _ (iv_disp _ _ _ Hi))) as [x Hx]; [set_solver|].
  eapply ends_now; [intros _; unfold the, d_store; rewrite Hx; done|]. done.
Qed.

Lemma stable_inspect_queue {A} b k vhost name (f : queue -> A) : stable b k (fun _ => inspect_queue vhost name f).
Proof.
  unfold inspect_queue. apply stable_with_queue; [apply stable_ret|]. intros q R F s Hi Hr Hb.
  apply ends_bind. eapply held_ends; [exact Hi|]. intros a. apply ends_bind. eapply ends_mono; [by apply (drop_ends k)|]. intros u s1 H1.
  by apply ends_ret.
Qed.
Hint Resolve stable_inspect_queue : stable.

(** ** The access-control store *)

Lemma from_hex_length n : forall h b, from_hex h n = Some b -> length b = n.
Proof.
  induction n as [|n IH]; intros h b; simpl; [by intros [= <-]|]. destruct h as [|x [|y h]]; try done.
  destruct (hexval x), (hexval y); try done. intros (r & Hr & ->)%fmap_Some. simpl. by rewrite (IH h r).
Qed.

Lemma password_matches_total o stored pass : is_Some (authstore_password_matches o stored pass).
Proof.
  unfold authstore_password_matches, hash_matches. destruct (_ =? _)%nat; [eauto|]. destruct (strip_prefix _ _) as [rest|]; [|eauto].
  unfold p2_matches. destruct (strtoul rest) as [[iters r] e]. destruct r as [|c sh]; [eauto|].
  destruct (decide (c = 36)) as [->|]; [|repeat (case_match; eauto; try lia)].
  destruct (_ || _); [eauto|]. destruct (_ || _); [eauto|]. destruct (from_hex sh 16) as [salt|] eqn:Es; [|eauto].
  destruct (from_hex _ 32); [|eauto]. apply from_hex_length in Es.
  destruct (pbkdf2_digest pass salt (u32 iters)) as (d & -> & _); [lia | simpl; eauto].
Qed.

Lemma stable_perm_ok b k kind object : stable b k (fun _ => perm_ok regexec k kind object).
Proof. unfold perm_ok. stable_auto. Qed.
Hint Resolve stable_perm_ok : stable.

Lemma stable_require_perm b k channel kind object class_id method_id :
  stable b k (fun _ => require_perm regexec k channel kind object class_id method_id).
Proof. unfold require_perm. stable_auto. Qed.
Hint Resolve stable_require_perm : stable.

Lemma stable_require_open b k : stable b k (fun _ => require_open k).
Proof. unfold require_open. stable_auto. Qed.
Hint Resolve stable_require_open : stable.

Lemma stable_require_channel b k channel : stable b k (fun _ => require_channel k channel).
Proof. unfold require_channel. stable_auto. Qed.
Hint Resolve stable_require_channel : stable.

(** ** Operations that wait for the cluster *)

Lemma inv_next R F s : inv R F s -> inv R F (s <| sv_next ::= Pos.succ |>) /\ forall k, step k s (s <| sv_next ::= Pos.succ |>).
Proof.
  intros [H1 H2 H3 H4 H5 H6 H7 H8 H9]. split; [|by constructor]. constructor; try done. simpl. intros x Hx. specialize (H7 x Hx). lia.
Qed.

Lemma stable_add_pending k f : stable true k (fun _ => add_pending k f).
Proof.
  intros R F s Hi Hr Hb. destruct Hr as ([p Hp] & Hr). destruct (inv_next _ _ _ Hi) as [Hi1 Hs1]. unfold add_pending.
  apply ends_bind. eapply ends_now; [done|]. apply ends_bind. eapply ends_now; [done|]. apply ends_bind. eapply ends_now; [done|].
  apply (ends_mod_proto _ _ p); [done|]. set (op := f _ _).
  set (s1 := s <| sv_next ::= Pos.succ |>) in *. set (p' := p <| pr_pending_ops ::= cons op |>).
  assert (Hi2 : inv R F (s1 <| sv_d := sv_d s1 |> <| sv_protos ::= <[k := p']> |>)).
  { destruct (proj1 (iv_wf _ _ _ Hi1 k p Hp)) as [W1 W2 W3 W4 W5 W6 W7].
    eapply inv_dp; [exact Hi1 | exact Hp | by apply (inv_split _ _ _ _ _ Hi1 Hp) | by apply same_closing_eq | by constructor | done | intros _; by apply Hb]. }
  split; [by destruct s|]. eapply step_trans; [apply Hs1|]. by eapply step_p.
Qed.
Hint Resolve stable_add_pending : stable.

Lemma stable_await_cluster_commit k channel seq class_id method_id kind qname depth :
  stable true k (fun _ => await_cluster_commit k channel seq class_id method_id kind qname depth).
Proof. unfold await_cluster_commit. stable_auto. Qed.
Hint Resolve stable_await_cluster_commit : stable.

Lemma stable_await_publish_confirm k channel seq tag : stable true k (fun _ => await_publish_confirm k channel seq tag).
Proof. unfold await_publish_confirm. stable_auto. Qed.
Hint Resolve stable_await_publish_confirm : stable.

Lemma stable_propose k channel call no_wait failed class_id method_id kind qname depth :
  stable true k (fun _ => propose k channel call no_wait failed class_id method_id kind qname depth).
Proof. unfold propose. stable_auto. Qed.
Hint Resolve stable_propose : stable.

Lemma stable_committed b k op : stable b k (fun _ => committed k op).
Proof. unfold committed, queue_declare_ok, queue_delete_ok. destruct (op_kind op); stable_auto. Qed.
Hint Resolve stable_committed : stable.

Lemma stable_detach b k id : stable b k (fun _ => detach_pending_op k id).
Proof. apply stable_mod_proto. mild. simpl. intros H E. apply H. by rewrite E. Qed.
Hint Resolve stable_detach : stable.

Lemma stable_pending_op_timer_cb b k id : stable b k (fun _ => pending_op_timer_cb k id).
Proof.
  intros R F s Hi Hr Hb. pose proof Hr as ([p Hp] & _). unfold pending_op_timer_cb. apply ends_bind, (ends_get_proto _ p); [done|].
  destruct (list_find _ _) as [[i op]|] eqn:E; [|apply ends_ret; split; [done | apply step_refl]].
  assert (Hc : is_Some (sv_cluster s)).
  { apply (iv_wf _ _ _ Hi k p Hp). apply list_find_Some in E as (E & _). intros En. by rewrite En in E. }
  destruct Hc as [c Hc]. apply ends_bind. eapply ends_now; [intros _; unfold the; by rewrite Hc|].
  cut (stable b k (fun fuel => now ← gets sv_now;
      (if match cluster_proposal_status c (op_seq op) with CL_PROPOSAL_PENDING => now <? op_deadline_ms op | _ => false end then mret tt
       else detach_pending_op k id;;
         match op_kind op with
         | PENDING_PUBLISH_CONFIRM => send_publish_confirm k (op_channel op) (op_confirm_tag op)
             (negb match cluster_proposal_status c (op_seq op) with CL_PROPOSAL_COMMITTED => true | _ => false end)
         | _ => if match cluster_proposal_status c (op_seq op) with CL_PROPOSAL_COMMITTED => true | _ => false end then committed k op
                else send_channel_close k (op_channel op) 541 (cstr "INTERNAL_ERROR - cluster commit failed or timed out") (op_class_id op) (op_method_id op)
         end))); [intros H; by apply H|].
  apply stable_bind; [apply stable_gets|]. intros now. apply stable_if; [intros; apply stable_ret|]. intros _.
  apply stable_bind; [apply stable_detach|]. intros _. destruct (op_kind op); stable_auto.
Qed.

(** ** Starting a connection *)

Lemma stable_send_connection_start b k : stable b k (fun _ => send_connection_start k).
Proof. apply stable_send_args. Qed.
Hint Resolve stable_send_connection_start : stable.

Lemma stable_send_connection_tune b k user tags : stable b k (fun _ => send_connection_tune k user tags).
Proof. unfold send_connection_tune. stable_auto. Qed.
Hint Resolve stable_send_connection_tune : stable.

Lemma stable_hash_end b k : stable b k (fun _ => authlimit_hash_end).
Proof. unfold authlimit_hash_end. stable_auto. Qed.

Lemma stable_record_failure b k ip now : stable b k (fun _ => record_failure ip now).
Proof. unfold record_failure. stable_auto. Qed.
Hint Resolve stable_hash_end stable_record_failure : stable.

Lemma stable_handle_tune_ok b k r : stable b k (fun _ => handle_tune_ok k r).
Proof.
  unfold handle_tune_ok, beaver_conn_enable_heartbeat, beaver_conn_clear_handshake_timeout. stable_auto.
Qed.
Hint Resolve stable_handle_tune_ok : stable.

Lemma stable_handle_connection_open b k r : stable b k (fun _ => handle_connection_open k r).
Proof. unfold handle_connection_open. stable_auto. Qed.
Hint Resolve stable_handle_connection_open : stable.

(** * What is known of the protocol state *)

(** From a protocol state with [P], for a connection whose close is known to the
    engine. *)
Definition triple {A} b k (P : proto -> Prop) (m : nat -> proc M C A) (Q : A -> proto -> Prop) : Prop :=
  forall R F s p, inv R F s -> ready k s -> synced k s -> (b = true -> is_Some (sv_cluster s)) -> sv_protos s !! k = Some p -> P p ->
  ends m (fun a s' => inv R F s' /\ step k s s' /\ exists p', sv_protos s' !! k = Some p' /\ Q a p') s.

Abbreviation safe b k P m := (triple b k P m (fun _ _ => True)).

Lemma triple_stable {A} b k P (m : nat -> proc M C A) : stable b k m -> safe b k P m.
Proof.
  intros Hm R F s p Hi Hr Hy Hb Hp HP. eapply ends_mono; [by apply Hm|]. intros a s' [Hi' Hs']. split_and!; [done | done|].
  destruct (st_ready _ _ _ Hs' Hr) as ([p' Hp'] & _). eauto.
Qed.

Lemma triple_bind {A B} b k P Q T (m : nat -> proc M C A) (f : nat -> A -> proc M C B) :
  triple b k P m Q -> (forall a, triple b k (Q a) (fun fuel => f fuel a) T) -> triple b k P (fun fuel => m fuel ≫= f fuel) T.
Proof.
  intros Hm Hf R F s p Hi Hr Hy Hb Hp HP. apply ends_bind. eapply ends_mono; [by eapply Hm|]. intros a s1 (Hi1 & Hs1 & p1 & Hp1 & HQ).
  eapply ends_mono; [eapply Hf; [exact Hi1 | by apply Hs1 | by apply Hs1 | intros E; by apply Hs1, Hb | exact Hp1 | exact HQ]|].
  intros y s2 (Hi2 & Hs2 & H2). split_and!; [done | by eapply step_trans | done].
Qed.

Lemma triple_pre {A} b k (P P' : proto -> Prop) Q (m : nat -> proc M C A) : triple b k P' m Q -> (forall p, P p -> P' p) -> triple b k P m Q.
Proof. intros Hm HP R F s p Hi Hr Hy Hb Hp H. apply (Hm R F s p); auto. Qed.

Lemma triple_post {A} b k P (Q Q' : A -> proto -> Prop) (m : nat -> proc M C A) : triple b k P m Q -> (forall a p, Q a p -> Q' a p) -> triple b k P m Q'.
Proof.
  intros Hm HQ R F s p Hi Hr Hy Hb Hp H. eapply ends_mono; [by eapply Hm|]. intros a s' (H1 & H2 & p' & Hp' & H3). eauto 10.
Qed.

Lemma triple_get b k P : triple b k P (fun _ => get_proto k) (fun a p => a = p /\ P p).
Proof.
  intros R F s p Hi Hr Hy Hb Hp HP. apply (ends_get_proto _ p); [done|]. split_and!; [done | apply step_refl | eauto].
Qed.

Lemma triple_if {A} b k P Q (c : bool) (m1 m2 : nat -> proc M C A) :
  (c = true -> triple b k P m1 Q) -> (c = false -> triple b k P m2 Q) -> triple b k P (fun fuel => if c then m1 fuel else m2 fuel) Q.
Proof. destruct c; auto. Qed.

(** Computations that leave the protocol states alone. *)
Definition quiet {A} b k (m : nat -> proc M C A) : Prop :=
  forall R F s, inv R F s -> ready k s -> (b = true -> is_Some (sv_cluster s)) ->
  ends m (fun _ s' => inv R F s' /\ step k s s' /\ sv_protos s' = sv_protos s) s.

Lemma triple_quiet {A} b k P (m : nat -> proc M C A) : quiet b k m -> triple b k P m (fun _ => P).
Proof.
  intros Hm R F s p Hi Hr Hy Hb Hp HP. eapply ends_mono; [by apply Hm|]. intros a s' (Hi' & Hs' & E). split_and!; [done | done|].
  exists p. by rewrite E.
Qed.

Lemma quiet_gets {A} b k (f : beaver_server M C -> A) : quiet b k (fun _ => gets f).
Proof. intros R F s Hi Hr _. eapply ends_now; [done|]. split_and!; [done | apply step_refl | done]. Qed.

Lemma quiet_get_conn b k : quiet b k (fun _ => get_conn k).
Proof.
  intros R F s Hi Hr _. destruct Hr as (Hr & [cn Hcn] & Hl). eapply ends_now; [intros _; unfold get_conn, the; by rewrite Hcn|].
  split_and!; [done | apply step_refl | done].
Qed.

Lemma quiet_the {A} b k (x : option A) : is_Some x -> quiet b k (fun _ => the (fun _ => x)).
Proof. intros [a ->] R F s Hi Hr _. eapply ends_now; [done|]. split_and!; [done | apply step_refl | done]. Qed.

Lemma quiet_alloc b k : quiet b k (fun _ => alloc).
Proof. intros R F s Hi Hr _. apply ends_alloc. intros ok n. destruct (inv_net _ _ _ n Hi) as [Hi1 Hs1]. by split_and!. Qed.

Lemma quiet_perm_ok b k kind object : quiet b k (fun _ => perm_ok regexec k kind object).
Proof.
  intros R F s Hi Hr Hb. destruct Hr as ([p Hp] & _). unfold perm_ok. apply ends_bind, (ends_get_proto _ p); [done|].
  apply ends_bind. eapply ends_now; [done|]. destruct (sv_authstore s) as [a|] eqn:E; [|apply ends_ret; split_and!; [done | apply step_refl | done]].
  pose proof (proj1 (iv_auth _ _ _ Hi) a E) as Hl. unfold authstore_check, rdlock. rewrite Hl. cbn [mbind option_bind].
  eapply ends_now; [done|]. split_and!; [done | apply step_refl | done].
Qed.
End Engine.
#[export] Hint Resolve stable_send_args stable_send_connection_close stable_cancel_pending_ops stable_remove_channel stable_send_channel_close
  stable_send_publish_confirm stable_track_exclusive_queue stable_inspect_queue stable_perm_ok stable_require_perm
  stable_require_open stable_require_channel stable_add_pending stable_await_cluster_commit stable_await_publish_confirm
  stable_propose stable_committed stable_detach stable_send_connection_start stable_send_connection_tune stable_hash_end
  stable_record_failure stable_handle_tune_ok stable_handle_connection_open : stable.
