(* ===== verification/ProtocolSafe.v ===== *)
(** The handlers of the protocol engine keep the invariant of the worker, up to
    [protocol_on_data]: whatever bytes a client sends. *)

From S2P Require Import Prelude Tables CLib Frame AuthLimit Password AuthStore HashMap Message Queue Store Exchange Broker BrokerRoute BrokerSpec BrokerDelivery Net Dispatch DispatchInv DispatchOps DispatchSettle DispatchRun DispatchClient Server Protocol ServerInv ProtocolInv.

Section Handlers.
Context {M : Type} `{!PtrMap M} `{!PtrMapLaws M} {C : Type} `{!ClusterOps C}.
Context (regexec : bytes -> bytes -> bool).
Implicit Types (s : beaver_server M C).
Abbreviation stable := (stable (M := M) (C := C)).
Abbreviation safe b k P m := (triple (M := M) (C := C) b k P m (fun _ _ => True)).

(** A quiet step, then the rest. *)
Lemma safe_quiet {A B} b k P Q (m : nat -> proc M C A) (f : nat -> A -> proc M C B) :
  quiet b k m -> (forall a, triple b k P (fun fuel => f fuel a) Q) -> triple b k P (fun fuel => m fuel ≫= f fuel) Q.
Proof. intros Hm Hf. eapply triple_bind; [by apply triple_quiet | done]. Qed.

(** A step after which nothing more is known. *)
Lemma safe_stable {A B} b k P (m : nat -> proc M C A) (f : nat -> A -> proc M C B) :
  safe b k P m -> (forall a, stable b k (fun fuel => f fuel a)) -> safe b k P (fun fuel => m fuel ≫= f fuel).
Proof. intros Hm Hf. eapply triple_bind; [exact Hm|]. intros a. by apply triple_stable. Qed.

Lemma safe_authstore {A} b k P (f : nat -> option authstore -> proc M C A) :
  safe b k P (fun fuel => f fuel None) -> (forall a, s_locked a = false -> safe b k P (fun fuel => f fuel (Some a))) ->
  safe b k P (fun fuel => gets sv_authstore ≫= f fuel).
Proof.
  intros H1 H2 R F s p Hi Hr Hy Hb Hp HP. apply ends_bind. eapply ends_now; [done|].
  destruct (sv_authstore s) as [a|] eqn:E; [|by eapply H1]. eapply H2; try done. by eapply (proj1 (iv_auth _ _ _ Hi)).
Qed.

(** * The connection class *)

Lemma hash_begin_quiet b k : quiet (M := M) (C := C) b k (fun _ => authlimit_hash_begin).
Proof.
  intros R F s Hi Hr _. unfold authlimit_hash_begin. destruct (sv_inflight s <? AUTHLIMIT_HASH_CONCURRENCY) eqn:E; (eapply ends_now; [intros _; rewrite E; done|]).
  - assert (Hu : unseen (fun s : beaver_server M C => s <| sv_inflight ::= fun n => n + 1 |>)) by done.
    split_and!; [exact (inv_unseen _ _ _ _ Hu Hi) | exact (step_unseen _ _ _ Hu) | done].
  - split_and!; [done | apply step_refl | done].
Qed.

(** The work that is queued for the connection. *)
Lemma inv_work_add R F s k p w :
  inv R F s -> sv_protos s !! k = Some p -> pr_pending_auth p = None -> aw_conn w = Some k ->
  let s' := s <| sv_next ::= Pos.succ |> <| sv_works ::= <[sv_next s := w]> |> <| sv_protos ::= <[k := p <| pr_pending_auth := Some (sv_next s) |>]> |> in
  inv R F s' /\ step k s s'.
Proof.
  intros Hi Hp Hn Hw. cbv zeta. set (id := sv_next s). set (p' := p <| pr_pending_auth := Some id |>).
  pose proof (iv_wf _ _ _ Hi k p Hp) as (Hwf & Hcn & Ho).
  assert (Hfr : sv_works s !! id = None).
  { apply eq_None_not_Some. intros H. pose proof (iv_fresh _ _ _ Hi id (or_intror H)). unfold id in *. lia. }
  split; [|constructor; try done; simpl].
  - destruct Hi as [H1 H2 H3 H4 H5 H6 H7 H8 H9]. constructor; try done; simpl.
    + eapply disp_perm; [exact H1 | by rewrite (gather_same _ _ _ p p' Hp)..].
    + intros j x [[<- <-]|[_ Hx]]%lookup_insert_Some; [|by apply H2]. destruct Hwf. split_and!; [by constructor | done | done].
    + intros j. rewrite H4, lookup_insert_is_Some. destruct (decide (k = j)) as [->|]; [|naive_solver]. rewrite Hp. naive_solver.
    + intros j x i [[<- <-]|[Hne Hx]]%lookup_insert_Some Hid.
      * injection Hid as <-. exists w. by rewrite lookup_insert_eq.
      * destruct (H5 j x i Hx Hid) as (w0 & Hw0 & Ej). exists w0. rewrite lookup_insert_ne; [done | congruence].
    + intros i w0 j [[<- <-]|[Hne Hw0]]%lookup_insert_Some Ej.
      * exists p'. rewrite Hw in Ej. injection Ej as <-. by rewrite lookup_insert_eq.
      * destruct (H6 i w0 j Hw0 Ej) as (x & Hx & Hid). destruct (decide (k = j)) as [->|]; [congruence|]. exists x. by rewrite lookup_insert_ne.
    + intros x [Hx|Hx]; [specialize (H7 x (or_introl Hx)); lia|]. rewrite lookup_insert_is_Some in Hx. destruct Hx as [<-|[_ Hx]]; [unfold id; lia|].
      specialize (H7 x (or_intror Hx)). lia.
    + intros j x cn [[<- <-]|[_ Hx]]%lookup_insert_Some; eauto.
  - intros (_ & B & D). split_and!; [|done | done]. simpl. by rewrite lookup_insert_eq.
  - intros Hy x cn. simpl. rewrite lookup_insert_eq. intros [= <-] Hx Hcl. by apply (Hy p cn).
  - intros j Hj. by rewrite lookup_insert_ne.
  - by rewrite lookup_insert_eq, Hp.
Qed.

(** The outcome of a call of libuv. *)
Lemma uv_call_ends (Q : bool -> beaver_server M C -> Prop) s :
  (forall ok l, Q ok (s <| sv_uv := l |>)) -> ends (fun _ => uv_call) Q s.
Proof.
  intros HQ. unfold uv_call. destruct (sv_uv s) as [|r rest] eqn:E; (eapply ends_now; [intros _; rewrite E; done|]); [|apply HQ].
  specialize (HQ true []). replace s with (s <| sv_uv := [] |>); [done|]. destruct s. simpl in E. by subst.
Qed.

Lemma start_auth_safe b k a user pass ip now :
  s_locked a = false -> safe b k (fun p => pr_pending_auth p = None) (fun _ => start_auth k a user pass ip now).
Proof.
  intros Ha. unfold start_auth. apply safe_quiet; [apply quiet_alloc|]. intros ok.
  apply triple_if; intros _; [apply triple_stable; stable_auto|].
  apply safe_quiet; [apply quiet_the; unfold authstore_lookup_hash, rdlock; rewrite Ha; cbn; eauto|]. intros hash R F s p Hi Hr Hy Hb Hp HP.
  apply ends_bind. eapply ends_now; [done|]. apply ends_bind, uv_call_ends. intros queued l.
  assert (Hu : unseen (fun s : beaver_server M C => s <| sv_uv := l |>)) by done.
  pose proof (inv_unseen _ _ _ _ Hu Hi) as Hi1. pose proof (step_unseen _ k s Hu) as Hs1. cbn beta in Hi1, Hs1.
  set (s1 := s <| sv_uv := l |>) in *. destruct queued.
  - apply ends_bind. eapply ends_now; [done|]. apply (ends_mod_proto _ _ p); [done|].
    set (w := AuthWork _ _ _ _ _ _ _). destruct (inv_work_add R F s1 k p w Hi1 Hp HP eq_refl) as [Hi2 Hs2].
    split_and!; [exact Hi2 | by eapply step_trans |]. eexists. split; [|done]. simpl. by rewrite lookup_insert_eq.
  - apply ends_bind, (ends_mod_proto _ _ p); [done|].
    destruct (inv_one R F s1 k p (p <| pr_pending_auth := None |>) Hi1 Hp) as [Hi2 Hs2]; try done.
    { destruct (proj1 (iv_wf _ _ _ Hi k p Hp)). by constructor. }
    set (s2 := s1 <| sv_protos ::= _ |>) in *.
    assert (Hst : stable b k (fun _ => authlimit_hash_end;; proto_fatal k)) by stable_auto.
    eapply ends_mono; [apply Hst; [exact Hi2 | by apply Hs2, Hs1 | done]|]. intros u s3 [Hi3 Hs3].
    pose proof (step_trans _ _ _ _ Hs1 (step_trans _ _ _ _ Hs2 Hs3)) as Hs. split_and!; [done | done |].
    destruct (st_ready _ _ _ Hs Hr) as ([p' Hp'] & _). eauto.
Qed.

Lemma handle_start_ok_safe b k r : safe b k (fun p => pr_pending_auth p = None) (fun _ => handle_start_ok k r).
Proof.
  unfold handle_start_ok. destruct (bmqp_read_longstr r) as [x0 r0], (bmqp_read_shortstr r0) as [x1 r1], (bmqp_read_longstr r1) as [resp r2],
    (bmqp_read_shortstr r2) as [x3 r3].
  apply triple_if; intros _; [apply triple_stable; stable_auto|]. destruct (sasl_plain _) as [user pass].
  apply safe_authstore; [apply triple_stable; stable_auto|]. intros a Ha. cbn beta iota.
  apply safe_quiet; [apply quiet_the; unfold authstore_is_open, rdlock; rewrite Ha; cbn; eauto|]. intros op.
  apply triple_if; intros _; [apply triple_stable; stable_auto|].
  apply safe_quiet; [apply quiet_get_conn|]. intros cn. apply safe_quiet; [apply quiet_gets|]. intros now.
  apply triple_if; intros _; [apply triple_stable; stable_auto|].
  apply safe_quiet.
  { intros R F s Hi Hr _. set (ip := default _ _). destruct (authlimit_retry_after_ms (Some ip) now (sv_limits s)) as [ms tab] eqn:E.
    eapply ends_now; [intros _; rewrite E; done|]. assert (Hu : unseen (fun s : beaver_server M C => s <| sv_limits := tab |>)) by done.
    split_and!; [exact (inv_unseen _ _ _ _ Hu Hi) | exact (step_unseen _ _ _ Hu) | done]. }
  intros wait. apply safe_quiet; [destruct (0 <? wait); [apply (quiet_gets b k (fun _ => false)) | apply hash_begin_quiet]|]. intros slot.
  apply triple_if; intros _; [apply triple_stable; stable_auto | by apply start_auth_safe].
Qed.

Lemma handle_connection_safe b k channel method r : safe b k (fun _ => True) (fun _ => handle_connection k channel method r).
Proof.
  unfold handle_connection. eapply triple_bind; [apply triple_get|]. intros p. cbn beta.
  apply triple_if; intros _; [apply triple_stable; stable_auto|]. destruct (pr_pending_auth p) as [id|] eqn:Ea; [apply triple_stable; stable_auto|].
  apply triple_if; intros _; [eapply triple_pre; [apply handle_start_ok_safe|]; by intros ? [-> _]|].
  apply triple_stable. stable_auto.
Qed.

(** * The channel class *)

Abbreviation running := (fun p => pr_state p <> BMQP_STATE_CLOSING).

Lemma triple_ret {A} b k P (a : A) : triple (M := M) (C := C) b k P (fun _ => mret a) (fun x p => x = a /\ P p).
Proof. intros R F s p Hi Hr Hy Hb Hp HP. apply ends_ret. split_and!; [done | apply step_refl | eauto]. Qed.

(** A guard that fails has closed the connection. *)
Lemma triple_fatal b k P (Q : bool -> proto -> Prop) :
  (forall p, Q false p) -> triple (M := M) (C := C) b k P (fun _ => proto_fatal k;; mret false) Q.
Proof.
  intros HQ. eapply triple_bind; [apply triple_stable, stable_proto_fatal|]. intros []. eapply triple_post; [apply triple_ret|].
  by intros a p [-> _].
Qed.

Lemma require_open_knows b k :
  triple (M := M) (C := C) b k running (fun _ => require_open k) (fun ok p => ok = true -> pr_connection_open p = true /\ running p).
Proof.
  unfold require_open. eapply triple_bind; [apply triple_get|]. intros p. cbn beta. apply triple_if; intros E; [|by apply triple_fatal].
  eapply triple_post; [apply triple_ret|]. intros a p' [-> [-> H]]. done.
Qed.

(** The channel is there and the connection is running. *)
Definition has_channel (channel : Z) (p : proto) : Prop :=
  running p /\ pr_connection_open p = true /\ channel_is_open p channel = true.

Lemma require_channel_knows b k channel :
  triple (M := M) (C := C) b k running (fun _ => require_channel k channel) (fun ok p => ok = true -> has_channel channel p).
Proof.
  unfold require_channel. eapply triple_bind; [apply require_open_knows|]. intros ok. cbn beta. destruct ok; cbn [negb].
  2:{ eapply triple_post; [apply triple_ret|]. by intros a p' [-> _]. }
  eapply triple_bind; [apply triple_get|]. intros p. cbn beta. apply triple_if; intros E; [by apply triple_fatal|].
  apply orb_false_iff in E as [_ E]. apply negb_false_iff in E.
  eapply triple_post; [apply triple_ret|]. intros a p' [-> [-> H]] _. destruct (H eq_refl) as [H1 H2]. done.
Qed.

Lemma handle_channel_open_safe b k channel :
  0 <= channel -> safe b k (fun p => pr_connection_open p = true) (fun _ => handle_channel_open k channel).
Proof.
  intros Hch. unfold handle_channel_open. apply triple_if; intros E; [apply triple_stable; stable_auto|].
  apply orb_false_iff in E as [E1 E2]. apply Z.eqb_neq in E1. apply Z.ltb_ge in E2.
  eapply triple_bind; [apply triple_get|]. intros p. cbn beta. apply triple_if; intros Eo; [apply triple_stable; stable_auto|].
  apply safe_stable; [|stable_auto]. intros R F s p' Hi Hr Hy Hb Hp [-> Ho].
  eapply ends_mono; [apply channel_add_ends; [lia | exact Hi | by exists p']|]. intros a s' [Hi' Hs']. split_and!; [done | done|].
  destruct (st_ready _ _ _ Hs' Hr) as ([x Hx] & _). eauto.
Qed.

Lemma stable_handle_channel_close b k channel : stable b k (fun _ => handle_channel_close k channel).
Proof. unfold handle_channel_close. stable_auto. Qed.
Hint Resolve stable_handle_channel_close : stable.

Lemma handle_channel_safe b k channel method r : 0 <= channel -> safe b k running (fun _ => handle_channel k channel method r).
Proof.
  intros Hch. unfold handle_channel. eapply triple_bind; [apply require_open_knows|]. intros ok. cbn beta.
  destruct ok; cbn [negb]; [|apply triple_stable; stable_auto].
  apply triple_if; intros _.
  - eapply triple_pre; [by apply handle_channel_open_safe|]. intros p H. by destruct (H eq_refl).
  - apply triple_stable. stable_auto.
Qed.

(** * The exchange class *)

Lemma stable_declare_exchange_local b k channel vhost ename xtype bits no_wait :
  stable b k (fun _ => declare_exchange_local k channel vhost ename xtype bits no_wait).
Proof.
  unfold declare_exchange_local. apply stable_bind.
  - apply stable_on_broker. intros d R F [rc created] w' Hd E. by eapply kept_declare_exchange.
  - intros [drc created]. stable_auto.
Qed.
Hint Resolve stable_declare_exchange_local : stable.

Lemma stable_handle_exchange b k channel method r : stable b k (fun _ => handle_exchange regexec k channel method r).
Proof.
  unfold handle_exchange, handle_exchange_declare, exchange_probe. stable_auto.
Qed.

(** * The queue class *)

Lemma stable_queue_error b k channel method code text : stable b k (fun _ => queue_error k channel method code text).
Proof. apply stable_send_channel_close. Qed.
Hint Resolve stable_queue_error : stable.

Lemma stable_queue_declare_ok b k channel qname depth consumers : stable b k (fun _ => queue_declare_ok k channel qname depth consumers).
Proof. apply stable_send_args. Qed.
Hint Resolve stable_queue_declare_ok : stable.

Lemma stable_queue_delete_ok b k channel depth : stable b k (fun _ => queue_delete_ok k channel depth).
Proof. apply stable_send_args. Qed.
Hint Resolve stable_queue_delete_ok : stable.

Lemma stable_next_seq b k : stable b k (fun _ => next_seq k).
Proof. unfold next_seq. stable_auto. Qed.
Hint Resolve stable_next_seq : stable.

(** Operations on a queue that the caller holds. *)
Lemma held_mod_d k q f R F s :
  (forall d R F, disp_ok d (q :: R) F -> kept d (f d) (q :: R) F) -> inv (q :: R) F s ->
  ends (fun _ => mod_d f) (fun _ s' => inv (q :: R) F s' /\ step k s s') s.
Proof.
  intros Hf Hi. destruct (Hf (sv_d s) (gather proto_refs (sv_protos s) ++ R) (gather proto_msgs (sv_protos s) ++ F)) as [Hd Ec].
  { eapply disp_perm; [apply Hi | solve_perm | done]. }
  pose proof (same_closing_eq _ _ Ec) as Hc. eapply ends_now; [done|]. split; [|by apply (step_d k s _ Hc)].
  eapply (inv_d _ _ _ _ _ _ Hi); [|done]. eapply disp_perm; [exact Hd | solve_perm | done].
Qed.

(** A step with the reference in hand, then the rest. *)
Lemma held_bind {A B} k q R F s (m : nat -> proc M C A) (f : nat -> A -> proc M C B) (Q : B -> beaver_server M C -> Prop) :
  ends m (fun _ s' => inv (q :: R) F s' /\ step k s s') s ->
  (forall a s', inv (q :: R) F s' -> step k s s' -> ends (fun fuel => f fuel a) Q s') -> ends (fun fuel => m fuel ≫= f fuel) Q s.
Proof. intros Hm Hf. apply ends_bind. eapply ends_mono; [exact Hm|]. intros a s' [H1 H2]. auto. Qed.

Lemma held_stable {A} b k q R F s (m : nat -> proc M C A) :
  stable b k m -> inv (q :: R) F s -> ready k s -> (b = true -> is_Some (sv_cluster s)) ->
  ends m (fun _ s' => inv (q :: R) F s' /\ step k s s') s.
Proof. intros Hm Hi Hr Hb. by apply Hm. Qed.

Lemma op_limits ml mb ov F q (y : sys) : op_spec F (fun _ => F) (fun q y => (tt, queue_set_limits ml mb ov q, y)) q y.
Proof. eapply op_spec_pure; [done|]. intros []. split_and!; try done. Qed.

Lemma op_owner id F q (y : sys) : op_spec F (fun _ => F) (fun q y => (tt, queue_set_exclusive_owner id q, y)) q y.
Proof. eapply op_spec_pure; [done|]. intros []. split_and!; try done. Qed.

Lemma stable_apply_queue_args b k vhost qname qa : stable b k (fun _ => apply_queue_args vhost qname qa).
Proof.
  unfold apply_queue_args. apply stable_if; intros _; [apply stable_ret|]. apply stable_with_queue; [apply stable_ret|].
  intros q R F s Hi Hr Hb.
  eapply held_bind; [apply (held_mod_d k q); [intros; apply kept_pure_queue; [intros; apply op_limits | done] | exact Hi]|]. intros [] s1 Hi1 Hs1.
  eapply (held_bind k q R F s1).
  { destruct (qa_dlx qa) as [dlx|]; [|by apply (held_stable b k); [apply stable_ret | exact Hi1 | by apply Hs1 | intros E; by apply Hs1, Hb]].
    set (f := fun d : dispatcher M => d <| d_world ::= broker_set_queue_dead_letter q (Some dlx) (Some (qa_dlx_rkey qa)) |>).
    change (ends (fun _ => mod_d f) (fun _ s' => inv (q :: R) F s' /\ step k s1 s') s1).
    apply (held_mod_d k q f); [|exact Hi1]. intros. by apply kept_set_dead_letter. }
  intros u s2 Hi2 Hs2. eapply ends_mono; [by apply (drop_ends k)|]. intros v s3 [Hi3 Hs3]. split; [done|].
  by eapply step_trans, step_trans.
Qed.
Hint Resolve stable_apply_queue_args : stable.

Lemma stable_claim_exclusive b k channel vhost qname : stable b k (fun _ => claim_exclusive k channel vhost qname).
Proof.
  unfold claim_exclusive. apply stable_with_queue; [apply stable_ret|]. intros q R F s Hi Hr Hb.
  eapply (held_bind k q R F s); [by apply (held_stable b); [apply stable_get_conn|..]|]. intros cn s1 Hi1 Hs1.
  apply ends_bind. eapply held_ends; [exact Hi1|]. intros owner. destruct (_ && _).
  - apply ends_bind. eapply ends_mono; [by apply (drop_ends k)|]. intros u s2 [Hi2 Hs2].
    assert (Hst : stable b k (fun _ => queue_error k channel BMQP_QUEUE_DECLARE 405
      (cstr "RESOURCE_LOCKED - queue is exclusive to another connection");; mret false)) by stable_auto.
    eapply ends_mono; [apply Hst; [exact Hi2 | by apply Hs2, Hs1 | intros E; by apply Hs2, Hs1, Hb]|].
    intros v s3 [Hi3 Hs3]. split; [done | by eapply step_trans, step_trans].
  - eapply (held_bind k q R F s1).
    { destruct (owner =? 0); [|by apply (held_stable b k); [apply stable_ret | exact Hi1 | by apply Hs1 | intros E; by apply Hs1, Hb]].
      apply (held_mod_d k q); [intros; apply kept_pure_queue; [intros; apply op_owner | done] | exact Hi1]. }
    intros u s2 Hi2 Hs2. apply ends_bind. eapply ends_mono; [by apply (drop_ends k)|]. intros v s3 [Hi3 Hs3].
    pose proof (step_trans _ _ _ _ Hs1 (step_trans _ _ _ _ Hs2 Hs3)) as Hs.
    assert (Hst : stable b k (fun _ => track_exclusive_queue k qname;; mret true)) by stable_auto.
    eapply ends_mono; [apply Hst; [exact Hi3 | by apply Hs | intros E; by apply Hs, Hb]|].
    intros x s4 [Hi4 Hs4]. split; [done | by eapply step_trans].
Qed.
Hint Resolve stable_claim_exclusive : stable.

Lemma stable_declare_queue_local b k channel vhost qname bits qa no_wait :
  stable b k (fun _ => declare_queue_local k channel vhost qname bits qa no_wait).
Proof.
  unfold declare_queue_local. apply stable_bind.
  - apply stable_on_broker. intros d R F [[rc depth] created] w' Hd E. by eapply kept_declare_queue.
  - intros [[drc depth] created]. stable_auto.
Qed.
Hint Resolve stable_declare_queue_local : stable.

Lemma stable_declare_queue_cluster k channel vhost qname bits qa no_wait :
  stable true k (fun _ => declare_queue_cluster k channel vhost qname bits qa no_wait).
Proof. unfold declare_queue_cluster. stable_auto. Qed.
Hint Resolve stable_declare_queue_cluster : stable.

Lemma stable_queue_probe b k channel vhost qname no_wait : stable b k (fun _ => queue_probe k channel vhost qname no_wait).
Proof. unfold queue_probe. stable_auto. Qed.
Hint Resolve stable_queue_probe : stable.

Lemma stable_handle_queue_declare b k channel r : stable b k (fun _ => handle_queue_declare regexec k channel r).
Proof. unfold handle_queue_declare. stable_auto. Qed.

Lemma stable_bind_local b k vhost qname ename key : stable b k (fun _ => on_broker (fun w => broker_bind vhost qname ename key w)).
Proof. apply stable_on_broker. intros d R F rc w' Hd E. by eapply kept_bind. Qed.

Lemma stable_delete_local b k vhost qname iu ie : stable b k (fun _ => on_broker (fun w => broker_delete_queue vhost qname iu ie w)).
Proof. apply stable_on_broker. intros d R F [rc depth] w' Hd E. by eapply kept_delete_queue. Qed.
Hint Resolve stable_handle_queue_declare stable_bind_local stable_delete_local : stable.

Lemma stable_handle_queue_bind b k channel r : stable b k (fun _ => handle_queue_bind regexec k channel r).
Proof. unfold handle_queue_bind. stable_auto. Qed.
Hint Resolve stable_handle_queue_bind : stable.

Lemma forget_exclusive_length qname l : (length (forget_exclusive qname l) <= length l)%nat.
Proof.
  unfold forget_exclusive. destruct (list_find _ l) as [[i x]|] eqn:E; [|done]. apply list_find_Some in E as (E & _).
  pose proof (Permutation_length (swap_remove_perm _ _ _ E)) as H. simpl in H. lia.
Qed.

Lemma stable_forget b k qname : stable b k (fun _ => mod_proto k (fun p => p <| pr_excl_queues ::= forget_exclusive qname |>)).
Proof. apply stable_mod_proto. mild. pose proof (forget_exclusive_length qname (pr_excl_queues p)). lia. Qed.
Hint Resolve stable_forget : stable.

Lemma stable_handle_queue_delete b k channel r : stable b k (fun _ => handle_queue_delete regexec k channel r).
Proof. unfold handle_queue_delete. stable_auto. Qed.
Hint Resolve stable_handle_queue_delete : stable.

Lemma stable_handle_queue b k channel method r : stable b k (fun _ => handle_queue regexec k channel method r).
Proof. unfold handle_queue. stable_auto. Qed.
End Handlers.
#[export] Hint Resolve stable_handle_channel_close stable_declare_exchange_local stable_queue_error stable_queue_declare_ok
  stable_queue_delete_ok stable_next_seq stable_apply_queue_args stable_claim_exclusive stable_declare_queue_local
  stable_declare_queue_cluster stable_queue_probe stable_handle_queue_declare stable_bind_local stable_delete_local
  stable_handle_queue_bind stable_forget stable_handle_queue_delete stable_handle_exchange stable_handle_queue : stable.
