(* ===== verification/ProtocolData.v ===== *)
(** The basic class, the content of a publish and the dispatch of frames keep the
    invariant of the worker: whatever bytes a client sends, [protocol_on_data]
    returns with the invariant. *)

From S2P Require Import Prelude Tables CLib Frame AuthLimit Password AuthStore HashMap Message Queue Store Exchange Broker BrokerRoute BrokerSpec BrokerDelivery Net Dispatch DispatchInv DispatchOps DispatchSettle DispatchRun DispatchClient Server Protocol ServerInv ProtocolInv ProtocolSafe.

Section Data.
Context {M : Type} `{!PtrMap M} `{!PtrMapLaws M} {C : Type} `{!ClusterOps C}.
Context (regexec : bytes -> bytes -> bool).
Implicit Types (s : beaver_server M C).
Abbreviation stable := (stable (M := M) (C := C)).
Abbreviation safe b k P m := (triple (M := M) (C := C) b k P m (fun _ _ => True)).
Abbreviation running := (fun p => pr_state p <> BMQP_STATE_CLOSING).

(** The end of a proof of [triple] from one of [ends]. *)
Lemma triple_end k s s' : ready k s -> step k s s' -> exists p' : proto, sv_protos s' !! k = Some p' /\ True.
Proof. intros Hr Hs. destruct (st_ready _ _ _ Hs Hr) as ([p' Hp'] & _). eauto. Qed.

(** An update of the protocol state of which something is known. *)
Lemma triple_mod b k (P : proto -> Prop) f :
  (forall p, P p -> proto_wf p -> proto_wf (f p)) ->
  (forall p, proto_refs (f p) = proto_refs p /\ proto_msgs (f p) = proto_msgs p /\ pr_pending_auth (f p) = pr_pending_auth p /\
             pr_pending_ops (f p) = pr_pending_ops p /\ pr_state (f p) = pr_state p /\ input_of (f p) = input_of p) ->
  triple (M := M) (C := C) b k P (fun _ => mod_proto k f) (fun _ p' => exists p, P p /\ p' = f p).
Proof.
  intros Hwf Hf R F s p Hi Hr Hy Hb Hp HP. destruct (Hf p) as (E1 & E2 & E3 & E4 & E5 & E6).
  destruct (inv_one R F s k p (f p) Hi Hp) as [Hi' Hs']; try done; [by apply Hwf, (iv_wf _ _ _ Hi k p Hp)|].
  apply (ends_mod_proto _ _ p); [done|]. split_and!; [done | done|]. exists (f p). simpl. rewrite lookup_insert_eq. eauto.
Qed.

(** ** Subscribing *)

Lemma stable_handle_confirm b k channel method r : stable b k (fun _ => handle_confirm k channel method r).
Proof.
  unfold handle_confirm. stable_auto.
Qed.

Lemma stable_handle_qos b k channel r : stable b k (fun _ => handle_qos k channel r).
Proof.
  unfold handle_qos. stable_auto. apply stable_mod_d. intros. by apply kept_set_prefetch.
Qed.

Lemma stable_handle_cancel b k channel r : stable b k (fun _ => handle_cancel k channel r).
Proof. unfold handle_cancel. stable_auto. apply stable_mod_d. intros. by apply kept_cancel. Qed.
Hint Resolve stable_handle_confirm stable_handle_qos stable_handle_cancel : stable.

Lemma handle_publish_safe b k channel r : safe b k (fun p => pr_connection_open p = true) (fun _ => handle_publish k channel r).
Proof.
  unfold handle_publish. destruct (bmqp_read_u16 r) as [x0 r0], (bmqp_read_shortstr r0) as [e r1], (bmqp_read_shortstr r1) as [key r2],
    (bmqp_read_u8 r2) as [bits r3].
  apply triple_if; intros _; [apply triple_stable; stable_auto|]. apply safe_stable; [|stable_auto].
  eapply triple_post; [apply triple_mod|done].
  - intros p Ho [W1 W2 W3 W4 W5 W6 W7]. constructor; simpl; try done. congruence.
  - by intros p.
Qed.

Lemma next_seq_runs b k : triple (M := M) (C := C) b k running (fun _ => next_seq k) (fun _ => running).
Proof.
  unfold next_seq. eapply triple_bind; [apply triple_get|]. intros p. eapply triple_bind; [apply (triple_mod b k (fun p' => p = p' /\ running p'))|].
  - intros p' _ [W1 W2 W3 W4 W5 W6 W7]. by constructor.
  - by intros p'.
  - intros []. eapply triple_post; [apply triple_ret|]. intros ? p2 (_ & p1 & [_ H] & ->). done.
Qed.

Lemma proto_advance_runs b k st : st <> BMQP_STATE_CLOSING -> triple (M := M) (C := C) b k running (fun _ => proto_advance k st) (fun _ => running).
Proof.
  intros Hst R F s p Hi Hr Hy Hb Hp HP. unfold proto_advance. apply ends_bind, (ends_get_proto _ p); [done|].
  destruct (_ || _); [apply ends_ret; split_and!; [done | apply step_refl | eauto]|].
  eapply ends_mono; [by eapply publish_state_ends|]. intros a s' (H1 & H2 & H3). split_and!; [done | done|]. eexists. split; [done|]. done.
Qed.

Lemma require_perm_runs b k P channel kind object class_id method_id :
  triple (M := M) (C := C) b k P (fun _ => require_perm regexec k channel kind object class_id method_id) (fun ok p => ok = true -> P p).
Proof.
  unfold require_perm. apply safe_quiet; [apply quiet_perm_ok|]. intros ok. apply triple_if; intros E.
  - eapply triple_post; [apply triple_ret|]. by intros a p [-> H].
  - eapply (triple_bind b k P (fun _ _ => True)); [apply triple_stable, stable_get_proto|]. intros p.
    eapply triple_bind; [apply triple_stable, stable_send_channel_close|]. intros []. eapply triple_post; [apply triple_ret|]. by intros a x [-> _].
Qed.

(** A running connection is not being closed. *)
Lemma running_live k s p : synced k s -> ready k s -> sv_protos s !! k = Some p -> running p -> live_conn (sv_d s) k.
Proof.
  intros Hy (_ & [cn Hcn] & _) Hp Hrun. exists cn. split; [done|]. destruct (shut cn) eqn:E; [|done]. by destruct Hrun; apply (Hy p cn).
Qed.

Lemma add_consumer_safe b k channel tag vhost name no_ack prefetch :
  safe b k running (fun _ => on_d (dispatcher_add_consumer k channel tag vhost name no_ack prefetch)).
Proof.
  intros R F s p Hi Hr Hy Hb Hp HP. pose proof (running_live k s p Hy Hr Hp HP) as Hl. unfold on_d.
  destruct (dispatcher_add_consumer k channel tag vhost name no_ack prefetch (sv_d s)) as [rc d'] eqn:E.
  destruct (kept_add_consumer _ _ _ _ _ _ _ _ _ _ _ _ (iv_disp _ _ _ Hi) Hl E) as [Hd Ec]. pose proof (same_closing_eq _ _ Ec) as Hc.
  eapply ends_now; [intros _; rewrite E; done|]. split_and!; [by eapply inv_d | by apply step_d | eauto].
Qed.

Lemma handle_consume_safe b k channel r : safe b k running (fun _ => handle_consume regexec k channel r).
Proof.
  unfold handle_consume. destruct (bmqp_read_u16 r) as [x0 r0], (bmqp_read_shortstr r0) as [q r1], (bmqp_read_shortstr r1) as [t r2],
    (bmqp_read_u8 r2) as [bits r3], (bmqp_read_longstr r3) as [x4 r4].
  apply triple_if; intros _; [apply triple_stable; stable_auto|].
  eapply (triple_bind b k running (fun _ => running)).
  { apply triple_if; intros _; [|eapply triple_post; [apply triple_ret|]; by intros ? ? [_ H]].
    apply safe_quiet; [apply quiet_get_conn|]. intros cn.
    eapply triple_bind; [apply next_seq_runs|]. intros seq. eapply triple_post; [apply triple_ret|]. by intros ? ? [_ H]. }
  intros ctag. cbn beta. apply triple_if; intros _; [apply triple_stable; stable_auto|].
  eapply triple_bind; [by apply proto_advance_runs|]. intros []. cbn beta.
  eapply triple_bind; [apply require_perm_runs|]. intros ok. cbn beta. destruct ok; cbn [negb]; [|apply triple_stable; stable_auto].
  eapply triple_bind; [apply triple_get|]. intros p. cbn beta. apply safe_stable; [|stable_auto].
  eapply triple_pre; [apply add_consumer_safe|]. intros p' [_ H]. auto.
Qed.

(** ** Basic.Get *)

(** The message and the queue are in the hands of the caller. *)
Lemma drop_both k q m R F s :
  inv (q :: R) (m :: F) s ->
  ends (fun _ => mod_d (fun d => d_unref q (d_heap (message_unref (Some m)) d))) (fun _ s' => inv R F s' /\ step k s s') s.
Proof.
  intros Hi. assert (Hk : kept (sv_d s) (d_unref q (d_heap (message_unref (Some m)) (sv_d s))) (gather proto_refs (sv_protos s) ++ R) (gather proto_msgs (sv_protos s) ++ F)).
  { eapply kept_trans; [apply kept_unref_msg|intros Hd; apply kept_unref; exact Hd]. eapply disp_perm; [apply Hi | solve_perm | solve_perm]. }
  destruct Hk as [Hd Ec]. pose proof (same_closing_eq _ _ Ec) as Hc. eapply ends_now; [done|].
  split; [by eapply (inv_d _ _ _ _ _ _ Hi) | by apply (step_d k s _ Hc)].
Qed.

(** After steps that are stable, with the references in hand. *)
Lemma held_then {A B} b k R F s s0 (m : nat -> proc M C A) (f : nat -> A -> proc M C B) (Q : B -> beaver_server M C -> Prop) :
  stable b k m -> inv R F s -> ready k s0 -> (b = true -> is_Some (sv_cluster s0)) -> step k s0 s ->
  (forall a s', inv R F s' -> step k s0 s' -> ends (fun fuel => f fuel a) Q s') -> ends (fun fuel => m fuel ≫= f fuel) Q s.
Proof.
  intros Hm Hi Hr Hb Hs Hf. apply ends_bind. eapply ends_mono; [apply Hm; [exact Hi | by apply Hs | intros E; by apply Hs, Hb]|].
  intros a s' [Hi' Hs']. apply Hf; [done | by eapply step_trans].
Qed.

(** The last step, when it is stable. *)
Lemma stable_end {A} b k R F s s0 (m : nat -> proc M C A) :
  stable b k m -> inv R F s -> ready k s0 -> (b = true -> is_Some (sv_cluster s0)) -> step k s0 s ->
  ends m (fun _ s' => inv R F s' /\ step k s0 s') s.
Proof.
  intros Hm Hi Hr Hb Hs. eapply ends_mono; [apply Hm; [exact Hi | by apply Hs | intros E; by apply Hs, Hb]|].
  intros a s' [Hi' Hs']. split; [done | by eapply step_trans].
Qed.

Lemma held_msg_cid R F m s : inv R (m :: F) s -> 0 <= m_cluster_id m < 2 ^ 64.
Proof. intros Hi. apply (world_msgs _ _ _ m (do_world _ _ _ (iv_disp _ _ _ Hi))). set_solver. Qed.

Lemma deliver_get_ends b k channel no_ack q m R F s :
  inv (q :: R) (m :: F) s -> ready k s -> (b = true -> is_Some (sv_cluster s)) ->
  ends (fun _ => deliver_get k channel no_ack q m) (fun _ s' => inv R F s' /\ step k s s') s.
Proof.
  intros Hi Hr Hb. unfold deliver_get.
  eapply (held_then b k _ _ s s); [apply stable_next_seq | exact Hi | done | done | apply step_refl|]. intros tag s1 Hi1 Hs1.
  eapply (held_then b k _ _ s1 s); [|exact Hi1 | done | done | exact Hs1|].
  { intros R1 F1 s2 Hi2 Hr2 Hb2. by apply (stable_build b k). }
  intros a s2 Hi2 Hs2. eapply (held_then b k _ _ s2 s); [apply stable_send_method | exact Hi2 | done | done | exact Hs2|]. intros [] s3 Hi3 Hs3.
  eapply (held_then b k _ _ s3 s); [apply stable_get_conn | exact Hi3 | done | done | exact Hs3|]. intros cn s4 Hi4 Hs4.
  eapply (held_then b k _ _ s4 s); [apply stable_protocol_send_content | exact Hi4 | done | done | exact Hs4|]. intros x s5 Hi5 Hs5.
  destruct no_ack.
  - apply ends_bind. eapply ends_mono; [apply (held_mod_d k q (dispatcher_note_pull q (m_cluster_id m))); [|exact Hi5]|].
    { intros d R1 F1 Hd. apply kept_note_pull; [done | by eapply held_msg_cid]. }
    intros u s6 [Hi6 Hs6]. eapply ends_mono; [by apply (drop_both k)|]. intros v s7 [Hi7 Hs7]. split; [done|].
    eapply step_trans; [exact Hs5 | by eapply step_trans].
  - destruct (st_ready _ _ _ Hs5 Hr) as ([p Hp] & _). apply ends_bind, (ends_get_proto _ p); [done|]. apply ends_bind.
    set (g := GetUnacked tag m q).
    apply ends_mono with (fun ok s' => (if ok : bool then inv R F s' else inv (q :: R) (m :: F) s') /\ step k s s').
    { destruct (channel_find p channel) as [[i pc]|] eqn:E; [|by apply ends_ret]. destruct (channel_find_spec _ _ _ _ E) as [Hci _].
      eapply ends_mono; [by apply (chan_get_unacked_add_ends k i pc g R F s5 p)|]. intros ok s6 [H6 Hs6]. split; [exact H6 | by eapply step_trans]. }
    intros ok s6 [Hi6 Hs6]. destruct ok; [by apply ends_ret|]. apply ends_bind. eapply ends_mono; [by apply (drop_both k)|].
    intros u s7 [Hi7 Hs7]. eapply (stable_end b k R F s7 s); [apply stable_proto_fatal | done | done | done | by eapply step_trans].
Qed.

Lemma stable_handle_get b k channel r : stable b k (fun _ => handle_get regexec k channel r).
Proof.
  unfold handle_get. stable_auto. apply stable_with_queue; [stable_auto|]. intros q R F s Hi Hr Hb. apply ends_bind.
  unfold on_d. destruct (d_on_queue None q queue_dequeue (sv_d s)) as [msg d'] eqn:E.
  destruct (kept_dequeue q (sv_d s) (gather proto_refs (sv_protos s) ++ R) (gather proto_msgs (sv_protos s) ++ F) msg d') as [Hd Ec]; [|done|].
  { eapply disp_perm; [apply Hi | solve_perm | done]. }
  pose proof (same_closing_eq _ _ Ec) as Hc. eapply ends_now; [intros _; rewrite E; reflexivity|].
  pose proof (step_d k s _ Hc) as Hs1.
  assert (Hi1 : inv (q :: R) (option_list msg ++ F) (s <| sv_d := d' |>)).
  { eapply inv_d; [exact Hi | | done]. eapply disp_perm; [exact Hd | solve_perm | solve_perm]. }
  destruct msg as [m|].
  - eapply ends_mono; [apply (deliver_get_ends b k); [exact Hi1 | by apply Hs1 | done]|]. intros u s2 [Hi2 Hs2]. split; [done | by eapply step_trans].
  - apply ends_bind. eapply ends_mono; [by apply (drop_ends k)|]. intros u s2 [Hi2 Hs2].
    eapply (stable_end b k R F s2 s); [apply stable_send_args | done | done | done | by eapply step_trans].
Qed.
Hint Resolve stable_handle_get : stable.

(** ** Acknowledgements *)

Lemma stable_settle_both b k channel tag multiple back rejected (rest : nat -> dispatcher M -> option (dispatcher M)) :
  (forall d R F, disp_ok d R F -> exists n d', (forall fuel, (n <= fuel)%nat -> rest fuel d = Some d') /\ kept d d' R F) ->
  stable b k (fun fuel => settle_both fuel k channel tag multiple back rejected (rest fuel)).
Proof.
  intros Hrest R F s Hi Hr Hb. pose proof Hr as ([p Hp] & _). unfold settle_both. apply ends_bind, (ends_get_proto _ p); [done|]. apply ends_bind.
  apply ends_mono with (fun _ s' => inv R F s' /\ step k s s').
  { destruct (channel_find p channel) as [[i pc]|] eqn:E; [|apply ends_ret; split; [done | apply step_refl]].
    destruct (channel_find_spec _ _ _ _ E) as [Hci _]. eapply ends_mono; [by apply (chan_get_unacked_settle_ends k i pc _ _ _ _ R F s p)|].
    by intros n s' (H1 & H2 & _). }
  intros got s1 [Hi1 Hs1]. destruct (_ || _); [|by apply ends_ret].
  destruct (Hrest (sv_d s1) _ _ (iv_disp _ _ _ Hi1)) as (n & d' & E & Hd & Ec). pose proof (same_closing_eq _ _ Ec) as Hc.
  exists tt, (s1 <| sv_d := d' |>), n. split; [intros fuel Hf; unfold try_d; cbn [mbind option_bind]; by rewrite E|].
  split; [by eapply inv_d | eapply step_trans; [exact Hs1 | by apply step_d]].
Qed.

Lemma ack_rest k channel tag multiple d R F :
  disp_ok d R F -> exists n d', (forall fuel, (n <= fuel)%nat -> dispatcher_ack fuel k channel tag multiple d = Some d') /\ kept d d' R F.
Proof.
  intros Hd. destruct (kept_settle k channel tag multiple false false d R F Hd) as (x & d' & E & Hk). exists (settle_fuel d), d'.
  split; [|done]. intros fuel Hf. unfold dispatcher_ack. by rewrite E.
Qed.

Lemma nack_rest k channel tag multiple back d R F :
  disp_ok d R F -> exists n d', (forall fuel, (n <= fuel)%nat -> dispatcher_nack fuel k channel tag multiple back d = Some d') /\ kept d d' R F.
Proof.
  intros Hd. destruct (kept_settle k channel tag multiple back (negb back) d R F Hd) as (x & d' & E & Hk). exists (settle_fuel d), d'.
  split; [|done]. intros fuel Hf. unfold dispatcher_nack. by rewrite E.
Qed.

Lemma stable_handle_ack b k channel r : stable b k (fun fuel => handle_ack fuel k channel r).
Proof.
  unfold handle_ack. destruct (bmqp_read_u64 r) as [tag r0], (bmqp_read_u8 r0) as [bits r1].
  apply stable_if; intros _; [stable_auto|]. apply (stable_settle_both _ _ _ _ _ _ _ (fun fuel => dispatcher_ack fuel k channel tag (has_flag bits 1))).
  intros. by apply ack_rest.
Qed.

Lemma stable_handle_reject b k channel r : stable b k (fun fuel => handle_reject fuel k channel r).
Proof.
  unfold handle_reject. destruct (bmqp_read_u64 r) as [tag r0], (bmqp_read_u8 r0) as [bits r1].
  apply stable_if; intros _; [stable_auto|]. apply (stable_settle_both _ _ _ _ _ _ _ (fun fuel => dispatcher_nack fuel k channel tag false (has_flag bits 1))).
  intros. by apply nack_rest.
Qed.

Lemma stable_handle_nack b k channel r : stable b k (fun fuel => handle_nack fuel k channel r).
Proof.
  unfold handle_nack. destruct (bmqp_read_u64 r) as [tag r0], (bmqp_read_u8 r0) as [bits r1].
  apply stable_if; intros _; [stable_auto|].
  apply (stable_settle_both _ _ _ _ _ _ _ (fun fuel => dispatcher_nack fuel k channel tag (has_flag bits 1) (has_flag bits 2))).
  intros. by apply nack_rest.
Qed.
Hint Resolve stable_handle_ack stable_handle_reject stable_handle_nack : stable.

Lemma handle_basic_safe b k channel method r : safe b k running (fun fuel => handle_basic regexec fuel k channel method r).
Proof.
  unfold handle_basic. eapply triple_bind; [apply require_channel_knows|]. intros ok. cbn beta.
  destruct ok; cbn [negb]; [|apply triple_stable; stable_auto].
  apply triple_if; intros _; [apply triple_stable; stable_auto|].
  apply triple_if; intros _; [eapply triple_pre; [apply handle_publish_safe|]; intros p H; by destruct (H eq_refl) as (_ & Ho & _)|].
  apply triple_if; intros _; [eapply triple_pre; [apply handle_consume_safe|]; intros p H; by destruct (H eq_refl) as (Hrun & _)|].
  apply triple_stable. stable_auto.
Qed.

(** * Publishing *)

Lemma stable_throttle_read b k : stable b k (fun _ => beaver_conn_throttle_read k).
Proof. unfold beaver_conn_throttle_read. stable_auto. Qed.

Lemma stable_send_basic_return b k channel code text exchange rk body props :
  stable b k (fun _ => send_basic_return k channel code text exchange rk body props).
Proof. unfold send_basic_return. stable_auto. Qed.

Lemma stable_send_connection_blocked b k reason : stable b k (fun _ => send_connection_blocked k reason).
Proof. apply stable_send_args. Qed.
Hint Resolve stable_throttle_read stable_send_basic_return stable_send_connection_blocked : stable.

Lemma stable_publish_reset b k : stable b k (fun _ => mod_proto k publish_reset).
Proof. apply stable_mod_proto. mild. intros Ho. split; [by apply W4 | done]. Qed.
Hint Resolve stable_publish_reset : stable.

Lemma stable_published b k : stable b k (fun _ => published k).
Proof. unfold published. stable_auto. Qed.
Hint Resolve stable_published : stable.

(** The channel to confirm on is there. *)
Definition confirm_ok (confirm : option nat) (p : proto) : Prop := forall i, confirm = Some i -> is_Some (pr_channels p !! i).

Lemma next_confirm_safe b k i : safe b k (confirm_ok (Some i)) (fun _ => next_confirm k i).
Proof.
  intros R F s p Hi Hr Hy Hb Hp HP. destruct (HP i eq_refl) as [pc Hpc]. unfold next_confirm. apply ends_bind.
  eapply ends_now; [intros _; unfold the; rewrite Hp; cbn [mbind option_bind]; rewrite Hpc; done|].
  assert (Hst : stable b k (fun _ => set_chan k i (fun c => c <| ch_confirm_seq := u64 (ch_confirm_seq pc + 1) |>);; mret (u64 (ch_confirm_seq pc + 1))))
    by stable_auto.
  exact (triple_stable b k (fun _ => True) _ Hst R F s p Hi Hr Hy Hb Hp I).
Qed.

Lemma quiet_on_cluster {A} k (f : C -> A * C) : quiet (M := M) true k (fun _ => on_cluster f).
Proof.
  intros R F s Hi Hr Hb. destruct (Hb eq_refl) as [c Hc]. destruct (f c) as [a c'] eqn:E.
  eapply ends_now; [intros _; unfold on_cluster; rewrite Hc, E; done|].
  assert (Hu : unseen (fun s : beaver_server M C => s <| sv_cluster := Some c' |>)) by (intros x; split; [done | intros _; by eexists]).
  split_and!; [exact (inv_unseen _ _ _ _ Hu Hi) | exact (step_unseen _ _ _ Hu) | done].
Qed.

Lemma publish_cluster_safe k p0 confirm body : safe true k (confirm_ok confirm) (fun _ => publish_cluster k p0 confirm body).
Proof.
  unfold publish_cluster. apply safe_stable; [|stable_auto]. destruct confirm as [i|].
  - apply safe_quiet; [apply quiet_on_cluster|]. intros seq. apply triple_if; intros _; [apply triple_stable; stable_auto|].
    apply safe_stable; [apply next_confirm_safe | stable_auto].
  - apply triple_stable. stable_auto.
Qed.

Lemma route_ends k vhost m R F s :
  inv R (m :: F) s -> ends (fun fuel => route fuel vhost m) (fun _ s' => inv R (m :: F) s' /\ step k s s' /\ sv_protos s' = sv_protos s) s.
Proof.
  intros Hi. destruct (kept_route vhost m (sv_d s) (gather proto_refs (sv_protos s) ++ R) (gather proto_msgs (sv_protos s) ++ F))
    as (n & rc & w' & E & Hd & Ec). { eapply disp_perm; [apply Hi | done | solve_perm]. }
  pose proof (same_closing_eq _ _ Ec) as Hc. exists rc, (s <| sv_d := take_wakeups ((sv_d s) <| d_world := w' |>) |>), n.
  split; [intros fuel Hf; unfold route, try_d; cbn [mbind option_bind]; by rewrite E|].
  split_and!; [|by apply step_d | done]. eapply inv_d; [exact Hi | | done]. eapply disp_perm; [exact Hd | done | solve_perm].
Qed.

Lemma unref_msg_ends k m R F s :
  inv R (m :: F) s ->
  ends (fun _ => mod_d (d_heap (message_unref (Some m)))) (fun _ s' => inv R F s' /\ step k s s' /\ sv_protos s' = sv_protos s) s.
Proof.
  intros Hi. destruct (kept_unref_msg m (sv_d s) (gather proto_refs (sv_protos s) ++ R) (gather proto_msgs (sv_protos s) ++ F)) as [Hd Ec].
  { eapply disp_perm; [apply Hi | done | solve_perm]. }
  pose proof (same_closing_eq _ _ Ec) as Hc. eapply ends_now; [done|].
  split_and!; [by eapply (inv_d _ _ _ _ _ _ Hi) | by apply (step_d k s _ Hc) | done].
Qed.

(** The new message, with its reference, when there is one. *)
Lemma message_new_ends k e r body p0 R F s :
  inv R F s ->
  ends (fun _ => on_d (fun d => let '(m, h) := message_new_full e r body p0 (s_heap (w_sys (d_world d))) in (m, d_heap (fun _ => h) d)))
    (fun msg s' => inv R (option_list msg ++ F) s' /\ step k s s' /\ sv_protos s' = sv_protos s) s.
Proof.
  intros Hi. destruct (message_new_full e r body p0 (s_heap (w_sys (d_world (sv_d s))))) as [msg h] eqn:E.
  destruct (kept_message_new _ _ _ _ _ _ _ _ _ (iv_disp _ _ _ Hi) E) as [[Hd Ec] _]. pose proof (same_closing_eq _ _ Ec) as Hc.
  eapply ends_now; [intros _; unfold on_d; rewrite E; reflexivity|].
  split_and!; [|by apply step_d | done]. eapply inv_d; [exact Hi | | done]. eapply disp_perm; [exact Hd | done | solve_perm].
Qed.

Lemma publish_local_safe b k p0 confirm body : safe b k (confirm_ok confirm) (fun fuel => publish_local fuel k p0 confirm body).
Proof.
  intros R F s p Hi Hr Hy Hb Hp HP. unfold publish_local. apply ends_bind. eapply ends_mono; [by apply (message_new_ends k)|].
  intros msg s1 (Hi1 & Hs1 & E1).
  assert (Hfin : forall (m : nat -> proc M C bool) s2, stable b k m -> inv R F s2 -> step k s s2 ->
    ends m (fun _ s' => inv R F s' /\ step k s s' /\ exists p' : proto, sv_protos s' !! k = Some p' /\ True) s2).
  { intros m s2 Hm Hi2 Hs2. eapply ends_mono; [by apply (stable_end b k R F s2 s)|]. intros a s3 [Hi3 Hs3]. split_and!; [done | done | by eapply triple_end]. }
  destruct msg as [m|]; cbn [option_list app] in Hi1; [|apply Hfin; [stable_auto | exact Hi1 | done]].
  apply ends_bind. eapply ends_mono; [exact (route_ends k _ _ R F s1 Hi1)|]. intros routed s2 (Hi2 & Hs2 & E2).
  apply ends_bind. eapply ends_mono; [exact (unref_msg_ends k _ R F s2 Hi2)|]. intros u s3 (Hi3 & Hs3 & E3).
  pose proof (step_trans _ _ _ _ Hs1 (step_trans _ _ _ _ Hs2 Hs3)) as Hs.
  assert (Hp3 : sv_protos s3 !! k = Some p) by (by rewrite E3, E2, E1).
  apply ends_bind. apply ends_mono with (fun _ s' => inv R F s' /\ step k s s').
  - destruct confirm as [i|]; [|apply ends_ret; by split].
    assert (Hsafe : safe b k (confirm_ok (Some i)) (fun _ => tag ← next_confirm k i; send_publish_confirm k (pr_pub_channel p0) tag (routed =? ROUTE_RESOURCE_ERROR))).
    { apply safe_stable; [apply next_confirm_safe | stable_auto]. }
    eapply ends_mono; [apply (Hsafe R F s3 p); try done; [by apply Hs | by apply Hs | intros E; by apply Hs, Hb]|].
    intros a s4 (Hi4 & Hs4 & _). split; [done | by eapply step_trans].
  - intros a s4 [Hi4 Hs4]. apply Hfin; [stable_auto | done | done].
Qed.

Lemma finalize_publish_safe b k P body : safe b k P (fun fuel => finalize_publish regexec fuel k body).
Proof.
  unfold finalize_publish. eapply triple_bind; [apply triple_get|]. intros p. cbn beta.
  apply safe_quiet; [apply quiet_perm_ok|]. intros ok. apply triple_if; intros _; [apply triple_stable; stable_auto|].
  set (confirm := match channel_find p (pr_pub_channel p) with Some (i, pc) => if ch_confirm_mode pc then Some i else None | None => None end).
  assert (Hc : confirm_ok confirm p).
  { intros i Hi. unfold confirm in Hi. destruct (channel_find p _) as [[j pc]|] eqn:E; [|done]. destruct (channel_find_spec _ _ _ _ E) as [Hj _].
    destruct (ch_confirm_mode pc); [|done]. injection Hi as ->. eauto. }
  intros R F s p' Hi Hr Hy Hb Hp [<- _]. apply ends_bind. eapply ends_now; [done|].
  case_bool_decide as Hcl; cbn [andb].
  - assert (Hs : safe true k (confirm_ok confirm) (fun fuel =>
      if props_is_persistent (pr_pub_props p) then
        taken ← publish_cluster k p confirm body;
        if negb taken then
          send_channel_close k (pr_pub_channel p) 506 (cstr "RESOURCE_ERROR - cannot replicate publish; retry") BMQP_CLASS_BASIC BMQP_BASIC_PUBLISH;;
          mod_proto k publish_reset
        else published k
      else go ← publish_local fuel k p confirm body; if go : bool then published k else mret tt)).
    { apply triple_if; intros _; (apply safe_stable; [|stable_auto]); [apply publish_cluster_safe | apply publish_local_safe]. }
    exact (Hs R F s p Hi Hr Hy (fun _ => Hcl) Hp Hc).
  - assert (Hs : safe b k (confirm_ok confirm) (fun fuel => go ← publish_local fuel k p confirm body; if go : bool then published k else mret tt)).
    { apply safe_stable; [apply publish_local_safe | stable_auto]. }
    exact (Hs R F s p Hi Hr Hy Hb Hp Hc).
Qed.

(** * Content frames *)

Lemma handle_content_header_safe b k hdr payload :
  safe b k (fun p => pr_pub_have_header p = false) (fun fuel => handle_content_header regexec fuel k hdr payload).
Proof.
  unfold handle_content_header. eapply triple_bind; [apply triple_get|]. intros p. cbn beta.
  apply triple_if; intros _; [apply triple_stable; stable_auto|].
  destruct (bmqp_read_u16 _) as [x0 r0], (bmqp_read_u16 r0) as [x1 r1], (bmqp_read_u64 r1) as [body_size r2].
  apply triple_if; intros _; [apply triple_stable; stable_auto|].
  intros R F s p' Hi Hr Hy Hb Hp [<- Hh]. apply ends_bind. eapply ends_now; [done|].
  pose proof (proj2 (iv_auth _ _ _ Hi)) as Hmax. set (limit := if sv_max_message_size s =? 0 then AMQP_MAX_BODY_SIZE else sv_max_message_size s).
  assert (Hlim : limit < 2 ^ 32) by (unfold limit, AMQP_MAX_BODY_SIZE; destruct (_ =? 0); lia).
  cut (safe b k (fun p => pr_pub_have_header p = false) (fun fuel =>
    if limit <? body_size then proto_fatal k
    else
      let props := drop (Z.to_nat (r_pos r2)) payload in
      ok ← (if (0 <? length props)%nat then alloc else mret true);
      if negb ok then proto_fatal k
      else
        mod_proto k (fun p => (if (0 <? length props)%nat then p <| pr_pub_props := props |> else p)
                                <| pr_pub_body_size := body_size |> <| pr_pub_have_header := true |>);;
        if body_size =? 0 then finalize_publish regexec fuel k [] else mret tt)).
  { intros H. exact (H R F s p Hi Hr Hy Hb Hp Hh). }
  apply triple_if; intros El; [apply triple_stable; stable_auto|]. apply Z.ltb_ge in El. cbv zeta. set (props := drop _ _).
  apply safe_quiet; [destruct (0 <? _)%nat; [apply quiet_alloc | apply (quiet_gets b k (fun _ => true))]|]. intros ok.
  apply triple_if; intros _; [apply triple_stable; stable_auto|].
  eapply triple_bind; [apply (triple_mod b k (fun p => pr_pub_have_header p = false))|].
  - intros q Hq [W1 W2 W3 W4 W5 W6 (W7 & W8 & W9)]. destruct (0 <? length props)%nat; (constructor; simpl; try done; split_and!; [|done | lia]);
      intros x; by rewrite (W8 Hq).
  - intros q. by destruct (0 <? length props)%nat.
  - intros []. apply triple_if; intros _; [apply finalize_publish_safe | apply triple_stable; stable_auto].
Qed.

Lemma triple_wf {A} b k (P : proto -> Prop) Q (m : nat -> proc M C A) : triple b k (fun p => P p /\ proto_wf p) m Q -> triple b k P m Q.
Proof. intros H R F s p Hi Hr Hy Hb Hp HP. apply (H R F s p); try done. split; [done | by apply (iv_wf _ _ _ Hi k p)]. Qed.

Lemma triple_pure {A} b k (P : proto -> Prop) (X : Prop) Q (m : nat -> proc M C A) :
  (forall p, P p -> X) -> (X -> triple b k P m Q) -> triple b k P m Q.
Proof. intros HX H R F s p Hi Hr Hy Hb Hp HP. apply (H (HX p HP) R F s p); done. Qed.

Lemma set_body_safe b k p body :
  pr_pub_have_header p = true -> Z.of_nat (length body) <= pr_pub_body_size p ->
  safe b k (fun q => q = p) (fun _ => mod_proto k (fun q => q <| pr_pub_body := Some body |>)).
Proof.
  intros Hh Hb. eapply triple_post; [apply (triple_mod b k (fun q => q = p))|done]; [|by intros q].
  intros q -> [V1 V2 V3 V4 V5 V6 (V7 & V8 & V9)]. constructor; simpl; try done. split_and!; [by intros x [= <-] | congruence | done].
Qed.

Lemma handle_content_body_safe b k hdr payload :
  fh_payload_len hdr = Z.of_nat (length payload) -> fh_payload_len hdr < 2 ^ 32 ->
  safe b k (fun p => pr_pub_have_header p = true) (fun fuel => handle_content_body regexec fuel k hdr payload).
Proof.
  intros Hlen Hmax. unfold handle_content_body. eapply triple_bind; [apply triple_get|]. intros p. cbn beta.
  apply triple_if; intros _; [apply triple_stable; stable_auto|]. cbv zeta.
  apply triple_if; intros Esz; [apply triple_stable; stable_auto|]. apply Z.ltb_ge in Esz.
  apply triple_wf, (triple_pure b k _ (pr_pub_have_header p = true /\ proto_wf p)); [by intros q [[-> H1] H2]|].
  intros [Hh [_ _ _ _ _ _ (W7 & W8 & W9)]].
  (* the size of the body is bounded, so the sum does not wrap *)
  assert (Hsum : Z.of_nat (length (default [] (pr_pub_body p))) + Z.of_nat (length payload) <= pr_pub_body_size p).
  { unfold pr_pub_body_received in Esz. rewrite u64_small in Esz; [lia|].
    destruct (pr_pub_body p) as [got|]; [specialize (W7 got eq_refl)|]; simpl; lia. }
  apply (triple_pre b k _ (fun q => q = p)); [|by intros q [[-> _] _]].
  destruct (pr_pub_body p) as [got|]; simpl in Hsum.
  - eapply triple_bind; [apply set_body_safe; [done | rewrite length_app; lia]|]. intros [].
    apply triple_if; intros _; [apply finalize_publish_safe | apply triple_stable; stable_auto].
  - apply triple_if; intros _; [apply finalize_publish_safe|]. apply safe_quiet; [apply quiet_alloc|]. intros ok.
    apply triple_if; intros _; [apply triple_stable; stable_auto | apply set_body_safe; [done | lia]].
Qed.

(** * Dispatch *)

Lemma handle_method_safe b k channel payload :
  0 <= channel -> safe b k running (fun fuel => handle_method regexec fuel k channel payload).
Proof.
  intros Hch. unfold handle_method. destruct (bmqp_read_u16 _) as [class_id r0], (bmqp_read_u16 r0) as [method_id r1].
  apply triple_if; intros _; [apply triple_stable; stable_auto|].
  apply triple_if; intros _; [eapply triple_pre; [apply handle_connection_safe | done]|].
  apply triple_if; intros _; [by apply handle_channel_safe|].
  apply triple_if; intros _; [apply triple_stable; stable_auto|].
  apply triple_if; intros _; [apply triple_stable; stable_auto|].
  apply triple_if; intros _; [apply handle_basic_safe|].
  apply triple_stable. stable_auto.
Qed.

(** A frame as the parser gives it. *)
Definition frame_ok (hdr : bmqp_frame_header) (payload : bytes) : Prop :=
  0 <= fh_channel hdr /\ fh_payload_len hdr = Z.of_nat (length payload) /\ fh_payload_len hdr < 2 ^ 32.

Lemma dispatch_frame_safe b k hdr payload :
  frame_ok hdr payload -> safe b k running (fun fuel => dispatch_frame regexec fuel k hdr payload).
Proof.
  intros (Hch & Hlen & Hmax). unfold dispatch_frame. eapply triple_bind; [apply triple_get|]. intros p. cbn beta.
  apply triple_if; intros _; [|apply triple_if; intros _; [eapply triple_pre; [by apply handle_method_safe|]; by intros q [_ H]|
    apply triple_stable; stable_auto]].
  destruct (pr_pub_have_header p) eqn:Eh; cbn [negb].
  - apply triple_if; intros _; [apply triple_stable; stable_auto|]. eapply triple_pre; [by apply handle_content_body_safe|]. intros q [-> _]. exact Eh.
  - apply triple_if; intros _; [apply triple_stable; stable_auto|]. eapply triple_pre; [apply handle_content_header_safe|]. intros q [-> _]. exact Eh.
Qed.
End Data.
