(* ===== verification/ProtocolRun.v ===== *)
(** The entry points of the protocol engine (src/src/protocol.c): whatever bytes
    arrive, [protocol_on_data] returns with the invariant of the worker; so do the
    creation and the release of the state of a connection and the end of a password
    verification. *)

From S2P Require Import Prelude Tables CLib Frame AuthLimit Password AuthStore HashMap Message Queue Store Exchange Broker BrokerRoute BrokerSpec BrokerDelivery Net Dispatch DispatchInv DispatchOps DispatchSettle DispatchRun DispatchClient Server Protocol ServerInv ProtocolInv ProtocolSafe ProtocolData.

Section Run.
Context {M : Type} `{!PtrMap M} `{!PtrMapLaws M} {C : Type} `{!ClusterOps C}.
Context (regexec : bytes -> bytes -> bool).
Implicit Types (s : beaver_server M C).
Abbreviation stable := (stable (M := M) (C := C)).
Abbreviation running := (fun p => pr_state p <> BMQP_STATE_CLOSING).

(** A step of the connection [k] that may also take in and use up input. *)
Record went k s s' : Prop := Went {
  wn_ready : ready k s -> ready k s';
  wn_synced : synced k s -> synced k s';
  wn_others : forall j, j <> k -> sv_protos s' !! j = sv_protos s !! j;
  wn_rest : server_rest s' = server_rest s;
  wn_cluster : is_Some (sv_cluster s) -> is_Some (sv_cluster s')
}.

Lemma step_went k s s' : step k s s' -> went k s s'.
Proof. intros []. by constructor. Qed.

Lemma went_trans k s1 s2 s3 : went k s1 s2 -> went k s2 s3 -> went k s1 s3.
Proof. intros [A1 A2 A3 A4 A5] [B1 B2 B3 B4 B5]. constructor; auto; [|congruence]. intros j Hj. by rewrite B3, A3. Qed.

(** The input of a connection changes. *)
Lemma inv_input R F s k p p' :
  inv R F s -> sv_protos s !! k = Some p -> p' = p <| pr_inbuf := pr_inbuf p' |> <| pr_inbuf_pos := pr_inbuf_pos p' |>
    <| pr_inbuf_cap := pr_inbuf_cap p' |> <| pr_header_received := pr_header_received p' |> ->
  (pr_inbuf_pos p' <= length (pr_inbuf p'))%nat -> bytes_ok (pr_inbuf p') ->
  inv R F (s <| sv_protos ::= <[k := p']> |>) /\ went k s (s <| sv_protos ::= <[k := p']> |>).
Proof.
  intros Hi Hp E Hpos Hok. destruct (iv_wf _ _ _ Hi k p Hp) as ([W1 W2 W3 W4 W5 W6 W7] & _ & Ho).
  assert (Hwf : proto_wf p') by (rewrite E; by constructor). split.
  - assert (Hi' : inv R F (s <| sv_d := sv_d s |> <| sv_protos ::= <[k := p']> |>)); [|by destruct s].
    eapply inv_dp; [exact Hi | exact Hp | | by apply same_closing_eq | done | by rewrite E | by rewrite E].
    rewrite E. exact (inv_split _ _ _ _ _ Hi Hp).
  - constructor; try done; simpl.
    + intros (_ & Hk & Hl). split_and!; try done. simpl. by rewrite lookup_insert_eq.
    + intros Hs x cn Hx Hcn Hcl. simpl in *. rewrite lookup_insert_eq in Hx. injection Hx as <-. rewrite E. by apply (Hs p cn).
    + intros j Hj. by rewrite lookup_insert_ne.
Qed.

(** ** Frames *)

(** From a connection whose close the engine knows. *)
Definition fed k (m : nat -> proc M C unit) : Prop :=
  forall R F s, inv R F s -> ready k s -> synced k s -> ends m (fun _ s' => inv R F s' /\ went k s s') s.

Lemma stable_fed k m : stable false k m -> fed k m.
Proof. intros Hm R F s Hi Hr Hy. eapply ends_mono; [by apply Hm|]. intros a s' [H1 H2]. auto using step_went. Qed.

Lemma frames_loop_fed k rounds : fed k (fun fuel => frames_loop regexec fuel rounds k).
Proof.
  induction rounds as [|rounds IH]; [apply stable_fed, stable_ret|]. intros R F s Hi Hr Hy. cbn [frames_loop].
  destruct (proj1 Hr) as [p Hp]. apply ends_bind, (ends_get_proto _ p); [done|]. case_bool_decide as Hst.
  { apply ends_ret. split; [done | apply step_went, step_refl]. }
  destruct (iv_wf _ _ _ Hi k p Hp) as (Hwf & _ & _). destruct (wf_pos _ Hwf) as [Hpos Hok].
  assert (Hfatal : ends (fun _ => proto_fatal k) (fun _ s' => inv R F s' /\ went k s s') s).
  { apply (stable_fed k (fun _ => proto_fatal k)); [apply stable_proto_fatal | done..]. }
  destruct (bmqp_frame_parse _) as [n res] eqn:E.
  destruct (frame_parse_shape _ _ _ (Forall_drop _ _ _ Hok) E) as [[Hn ->]|(hdr & payload & -> & Hn & Hlen & Hmax & Hle & Hch)].
  { destruct (n =? 0); [apply ends_ret; split; [done | apply step_went, step_refl] | done]. }
  destruct (_ && _); [done|]. unfold BMQP_MAX_FRAME_PAYLOAD in Hmax.
  assert (Hf : frame_ok hdr payload) by (split_and!; [lia | done | lia]).
  apply ends_bind. eapply ends_mono; [exact (dispatch_frame_safe regexec false k hdr payload Hf R F s p Hi Hr Hy ltac:(done) Hp Hst)|].
  intros [] s1 (Hi1 & Hs1 & p1 & Hp1 & _). pose proof (st_input _ _ _ Hs1) as Hin. rewrite Hp, Hp1 in Hin. injection Hin as Hin1 Hin2.
  apply ends_bind, (ends_mod_proto _ _ p1); [done|].
  destruct (inv_input R F s1 k p1 (p1 <| pr_inbuf_pos ::= fun i => (i + Z.to_nat n)%nat |>) Hi1 Hp1) as [Hi2 Hs2]; [by destruct p1 | | |].
  { simpl. rewrite Hin1, Hin2. rewrite length_drop in Hle. lia. }
  { simpl. by rewrite Hin1. }
  pose proof (went_trans _ _ _ _ (step_went _ _ _ Hs1) Hs2) as Hs. eapply ends_mono; [apply IH; [exact Hi2 | by apply Hs | by apply Hs]|].
  intros [] s3 [Hi3 Hs3]. split; [done | by eapply went_trans].
Qed.

(** ** Input *)

Lemma take_header_ends k R F s :
  inv R F s -> ready k s -> synced k s -> ends (fun _ => take_header k) (fun _ s' => inv R F s' /\ went k s s') s.
Proof.
  intros Hi Hr Hy. unfold take_header. destruct (proj1 Hr) as [p Hp]. apply ends_bind, (ends_get_proto _ p); [done|].
  assert (Hstable : forall s1 (m : nat -> proc M C bool), went k s s1 -> inv R F s1 -> stable false k m ->
    ends m (fun _ s' => inv R F s' /\ went k s s') s1).
  { intros s1 m Hw Hi1 Hm. eapply ends_mono; [apply Hm; [exact Hi1 | by apply Hw | done]|]. intros a s2 [H1 H2].
    split; [done | eapply went_trans; [exact Hw | by apply step_went]]. }
  pose proof (step_went _ _ _ (step_refl k s)) as Hw0.
  destruct (pr_header_received p); [by apply ends_ret|]. destruct (Nat.ltb_spec (length (drop (pr_inbuf_pos p) (pr_inbuf p))) 8) as [|Hlen]; [by apply ends_ret|].
  destruct (negb _); [apply Hstable; [done | done | stable_auto]|]. rewrite length_drop in Hlen.
  destruct (iv_wf _ _ _ Hi k p Hp) as (Hwf & _ & _). destruct (wf_pos _ Hwf) as [Hpos Hok].
  destruct (inv_input R F s k p (p <| pr_header_received := true |> <| pr_inbuf_pos ::= fun i => (i + 8)%nat |>) Hi Hp) as [Hi1 Hs1];
    [by destruct p | simpl; lia | done |].
  apply ends_bind, (ends_mod_proto _ _ p); [done|]. apply Hstable; [exact Hs1 | exact Hi1 | stable_auto].
Qed.

(** The input buffer takes in the bytes. *)
Lemma inbuf_append_spec data p o ok p' o' :
  (pr_inbuf_pos p <= length (pr_inbuf p))%nat -> inbuf_append data p o = (ok, p', o') ->
  p' = p <| pr_inbuf := pr_inbuf p' |> <| pr_inbuf_pos := pr_inbuf_pos p' |> <| pr_inbuf_cap := pr_inbuf_cap p' |>
         <| pr_header_received := pr_header_received p' |> /\
  pr_header_received p' = pr_header_received p /\ pr_inbuf_pos p' = 0%nat /\
  pr_inbuf p' = drop (pr_inbuf_pos p) (pr_inbuf p) ++ (if ok then data else []).
Proof.
  intros Hpos. unfold inbuf_append.
  assert (E1 : (if (0 <? pr_inbuf_pos p)%nat then p <| pr_inbuf ::= drop (pr_inbuf_pos p) |> <| pr_inbuf_pos := 0%nat |> else p) =
    p <| pr_inbuf := drop (pr_inbuf_pos p) (pr_inbuf p) |> <| pr_inbuf_pos := 0%nat |>).
  { destruct (Nat.ltb_spec 0 (pr_inbuf_pos p)) as [|H0]; [done|]. assert (E0 : pr_inbuf_pos p = 0%nat) by lia. rewrite E0, drop_0.
    destruct p. simpl in *. by subst. }
  rewrite E1. cbv zeta. destruct (_ <? _); [intros [= <- <- <-]; simpl; by rewrite app_nil_r|].
  destruct (_ <? _); [|by intros [= <- <- <-]]. destruct (malloc o) as [[|] o1]; intros [= <- <- <-]; simpl; [done | by rewrite app_nil_r].
Qed.

Lemma protocol_on_data_fed k data : bytes_ok data -> fed k (fun fuel => protocol_on_data regexec fuel k data).
Proof.
  intros Hdata R F s Hi Hr Hy. unfold protocol_on_data. destruct (proj1 Hr) as [p Hp]. apply ends_bind, (ends_get_proto _ p); [done|].
  case_bool_decide as Hst. { apply ends_ret. split; [done | apply step_went, step_refl]. }
  apply ends_bind. eapply ends_now; [done|]. destruct (inbuf_append data p (sv_in_oracle s)) as [[ok p'] o] eqn:E.
  destruct (iv_wf _ _ _ Hi k p Hp) as (Hwf & _ & _). destruct (wf_pos _ Hwf) as [Hpos Hok].
  destruct (inbuf_append_spec _ _ _ _ _ _ Hpos E) as (E1 & E2 & E3 & E4).
  assert (Hu : unseen (fun s : beaver_server M C => s <| sv_in_oracle := o |>)) by done.
  set (s1 := s <| sv_in_oracle := o |>).
  assert (Hi1 : inv R F s1) by exact (inv_unseen _ _ _ _ Hu Hi). assert (Hs1 : step k s s1) by exact (step_unseen _ _ _ Hu).
  destruct (inv_input R F s1 k p p' Hi1 Hp) as [Hi2 Hs2]; [done | lia | rewrite E4; apply Forall_app; split; [by apply Forall_drop | by destruct ok]|].
  pose proof (went_trans _ _ _ _ (step_went _ _ _ Hs1) Hs2) as Hs.
  apply ends_bind. eapply ends_now; [done|]. fold s1. apply ends_bind, (ends_mod_proto _ _ p); [done|].
  assert (Hfed : forall s3 m, inv R F s3 -> went k s s3 -> fed k m -> ends m (fun _ s' => inv R F s' /\ went k s s') s3).
  { intros s3 m Hi3 Hs3 Hm. eapply ends_mono; [apply Hm; [exact Hi3 | by apply Hs3 | by apply Hs3]|]. intros [] s4 [H1 H2].
    split; [done | by eapply went_trans]. }
  destruct ok; cbn [negb]; [|apply Hfed; [exact Hi2 | exact Hs | apply stable_fed, stable_proto_fatal]].
  apply ends_bind. eapply ends_mono; [apply take_header_ends; [exact Hi2 | by apply Hs | by apply Hs]|]. intros go s3 [Hi3 Hs3].
  pose proof (went_trans _ _ _ _ Hs Hs3) as Hs'. destruct go; cbn [negb]; [|by apply ends_ret].
  destruct (wn_ready _ _ _ Hs' Hr) as ([p3 Hp3] & _). apply ends_bind, (ends_get_proto _ p3); [done|].
  apply Hfed; [exact Hi3 | exact Hs' | apply frames_loop_fed].
Qed.

(** ** The life of a protocol state *)

Lemma each_release l : forall s,
  each (M := M) (C := C) chan_release_get_unacked l s =
    Some (tt, s <| sv_d ::= fun d => foldl (fun d c => foldl release_get d (ch_get_unacked c)) d l |>).
Proof. induction l as [|x l IH]; intros s; [by destruct s|]. cbn [each foldl]. unfold mbind, proc_bind. cbn. rewrite IH. by destruct s. Qed.

Lemma release_chans l : forall d R F,
  disp_ok d ((l ≫= chan_refs) ++ R) ((l ≫= chan_msgs) ++ F) ->
  kept d (foldl (fun d c => foldl release_get d (ch_get_unacked c)) d l) R F.
Proof.
  induction l as [|c l IH]; intros d R F Hd; [by apply kept_refl|]. cbn [foldl].
  eapply kept_trans; [apply (release_get_all (ch_get_unacked c) d ((l ≫= chan_refs) ++ R) ((l ≫= chan_msgs) ++ F))|intros Hd1; by apply IH].
  eapply disp_perm; [exact Hd | simpl; unfold chan_refs; solve_perm | simpl; unfold chan_msgs; solve_perm].
Qed.

(** The verification of a connection that is gone is left to itself. *)
Definition orphan (p : proto) (works : gmap positive amqp_auth_work) : gmap positive amqp_auth_work :=
  match pr_pending_auth p with Some a => alter (fun w => w <| aw_conn := None |>) a works | None => works end.

Lemma inv_freed R F s k p d' :
  inv R F s -> sv_protos s !! k = Some p -> ~ live_conn (sv_d s) k ->
  disp_ok d' (gather proto_refs (delete k (sv_protos s)) ++ R) (gather proto_msgs (delete k (sv_protos s)) ++ F) ->
  same_closing (sv_d s) d' ->
  inv R F (s <| sv_works ::= orphan p |> <| sv_d := d' |> <| sv_protos ::= delete k |>).
Proof.
  intros [H1 H2 H3 H4 H5 H6 H7 H8 H9] Hp Hnl Hd Hc.
  assert (Horph : forall id, is_Some (orphan p (sv_works s) !! id) <-> is_Some (sv_works s !! id)).
  { intros id. unfold orphan. destruct (pr_pending_auth p) as [a|]; [|done]. by rewrite lookup_alter_is_Some. }
  assert (Hsame : forall id, pr_pending_auth p <> Some id -> orphan p (sv_works s) !! id = sv_works s !! id).
  { intros id Hne. unfold orphan. destruct (pr_pending_auth p) as [a|]; [|done]. by rewrite lookup_alter_ne by congruence. }
  constructor; try done; simpl.
  - intros j x [Hj Hx]%lookup_delete_Some. rewrite (same_closing_some _ _ _ Hc). by apply H2.
  - intros j. rewrite H4, (same_closing_live _ _ j Hc), lookup_delete_is_Some. destruct (decide (k = j)) as [->|]; naive_solver.
  - intros j x id [Hj Hx]%lookup_delete_Some Hid. destruct (H5 j x id Hx Hid) as (w & Hw & Ew). exists w. split; [|done].
    rewrite Hsame; [done|]. intros Ep. destruct (H5 k p id Hp Ep) as (w' & Hw' & Ew'). congruence.
  - intros id w j Hw Ew. destruct (decide (pr_pending_auth p = Some id)) as [Ep|Ep].
    + exfalso. unfold orphan in Hw. rewrite Ep, lookup_alter_eq in Hw. destruct (sv_works s !! id); simplify_eq/=.
    + rewrite Hsame in Hw by done. destruct (H6 id w j Hw Ew) as (x & Hx & Hid). exists x. split; [|done]. apply lookup_delete_Some.
      split; [|done]. intros <-. congruence.
  - intros x. rewrite (same_closing_some _ _ x Hc), Horph. apply H7.
  - intros j x cn [_ Hx]%lookup_delete_Some (cn0 & Hcn & [= -> ->])%(same_closing_agrees _ _ _ _ Hc). eauto.
Qed.

Lemma protocol_conn_free_ends R F s k p :
  inv R F s -> sv_protos s !! k = Some p -> ~ live_conn (sv_d s) k ->
  ends (fun _ => protocol_conn_free k) (fun _ s' => inv R F s' /\ sv_protos s' = delete k (sv_protos s) /\
    d_conns (sv_d s') = d_conns (sv_d s) /\ sv_conns_locked s' = sv_conns_locked s) s.
Proof.
  intros Hi Hp Hnl.
  destruct (kept_delete_all (pr_vhost p) (pr_excl_queues p) _ _ _ (inv_split _ _ _ _ _ Hi Hp)) as [Hd1 Ec1].
  set (d1 := (sv_d s) <| d_world := _ |>) in *.
  destruct (release_chans (pr_channels p) d1 _ _ Hd1) as [Hd2 Ec2]. set (d2 := foldl _ d1 (pr_channels p)) in *.
  assert (Hc : same_closing (sv_d s) d2) by (apply same_closing_eq; by rewrite Ec2).
  set (p1 := p <| pr_excl_queues := [] |> <| pr_cap_excl := 0%nat |>). unfold protocol_conn_free.
  apply ends_bind, (ends_get_proto _ p); [done|]. apply ends_bind.
  eapply (ends_now _ _ _ tt (s <| sv_works ::= orphan p |>)); [intros _; unfold orphan; by destruct (pr_pending_auth p), s|].
  apply ends_bind. unfold delete_exclusive_queues. apply ends_bind, (ends_get_proto _ p); [done|]. apply ends_bind. eapply ends_now; [done|].
  apply (ends_mod_proto _ _ p); [done|]. apply ends_bind, (ends_mod_proto _ _ p1); [apply lookup_insert_eq|].
  apply ends_bind. eapply ends_now; [intros _; apply each_release|]. eapply ends_now; [done|].
  assert (Hf : inv R F (s <| sv_works ::= orphan p |> <| sv_d := d2 |> <| sv_protos ::= delete k |>)) by (by eapply inv_freed).
  split_and!; [|simpl; by rewrite insert_insert_eq, delete_insert_eq | simpl; by rewrite <- Ec1, <- Ec2 | done].
  destruct Hf as [H1 H2 H3 H4 H5 H6 H7 H8 H9]. constructor; simpl in *; rewrite ?insert_insert_eq, ?delete_insert_eq; done.
Qed.

(** ** The end of a password verification *)

Lemma inv_work_del R F s id w :
  inv R F s -> sv_works s !! id = Some w -> aw_conn w = None -> inv R F (s <| sv_works ::= delete id |>).
Proof.
  intros [H1 H2 H3 H4 H5 H6 H7 H8 H9] Hw Ew. constructor; try done; simpl.
  - intros k p i Hp Hi. destruct (H5 k p i Hp Hi) as (x & Hx & Ex). exists x. split; [|done]. apply lookup_delete_Some. split; [|done]. congruence.
  - intros i x k [_ Hx]%lookup_delete_Some. by apply H6.
  - intros x Hx. apply H7. destruct Hx as [Hx|Hx]; [by left|]. right. apply lookup_delete_is_Some in Hx. tauto.
Qed.

Lemma inv_work_done R F s id w k p :
  inv R F s -> sv_works s !! id = Some w -> aw_conn w = Some k -> sv_protos s !! k = Some p -> pr_pending_auth p = Some id ->
  inv R F (s <| sv_works ::= delete id |> <| sv_protos ::= <[k := p <| pr_pending_auth := None |>]> |>).
Proof.
  intros Hi Hw Ew Hp Ep. pose proof (inv_split _ _ _ _ _ Hi Hp) as Hd. destruct Hi as [H1 H2 H3 H4 H5 H6 H7 H8 H9].
  set (p' := p <| pr_pending_auth := None |>).
  destruct (H2 k p Hp) as ([W1 W2 W3 W4 W5 W6 W7] & Hk & Ho). constructor; try done; simpl.
  - eapply disp_perm; [exact Hd | by rewrite gather_insert; simplify_list_eq..].
  - intros j x [[<- <-]|[_ Hx]]%lookup_insert_Some; [by split_and! | by apply H2].
  - intros j. rewrite H4, lookup_insert_is_Some. destruct (decide (k = j)) as [->|]; [rewrite Hp|]; naive_solver.
  - intros j x i [[<- <-]|[Hne Hx]]%lookup_insert_Some Hi'; [done|]. destruct (H5 j x i Hx Hi') as (y & Hy & Ey). exists y. split; [|done].
    apply lookup_delete_Some. split; [|done]. congruence.
  - intros i x j [Hne Hx]%lookup_delete_Some Ex. destruct (H6 i x j Hx Ex) as (y & Hy & Ey). exists y. split; [|done].
    rewrite lookup_insert_ne; [done|]. congruence.
  - intros x Hx. apply H7. destruct Hx as [Hx|Hx]; [by left|]. right. apply lookup_delete_is_Some in Hx. tauto.
  - intros j x cn [[<- <-]|[_ Hx]]%lookup_insert_Some; eauto.
Qed.

Lemma auth_work_after_cb_ends R F s id w o :
  inv R F s -> sv_conns_locked s = false -> sv_works s !! id = Some w ->
  ends (fun _ => auth_work_after_cb id false o) (fun _ s' => inv R F s' /\ sv_conns_locked s' = false) s.
Proof.
  intros Hi Hl Hw. unfold auth_work_after_cb. apply ends_bind. eapply ends_now; [intros _; unfold the; by rewrite Hw|]. apply ends_bind.
  assert (Hres : is_Some (if aw_user_exists w then authstore_password_matches o (aw_stored w) (aw_pass w) else Some false)).
  { destruct (aw_user_exists w); [apply password_matches_total | done]. }
  destruct Hres as [result ->]. eapply ends_now; [done|]. apply ends_bind. unfold authlimit_hash_end. eapply ends_now; [done|].
  set (s1 := s <| sv_inflight ::= _ |>).
  assert (Hu : unseen (fun s : beaver_server M C => s <| sv_inflight ::= fun n => n - 1 |>)) by done.
  pose proof (inv_unseen _ _ _ _ Hu Hi : inv R F s1) as Hi1. assert (Hw1 : sv_works s1 !! id = Some w) by done.
  assert (Hl1 : sv_conns_locked s1 = false) by done. clearbody s1. clear s Hi Hl Hw Hu.
  apply ends_bind. eapply ends_now; [done|]. destruct (aw_conn w) as [k|] eqn:Ew; [|apply ends_ret; split; [by eapply inv_work_del | done]].
  destruct (iv_pend _ _ _ Hi1 id w k Hw1 Ew) as (p & Hp & Ep). apply ends_bind, (ends_mod_proto _ _ p); [done|].
  pose proof (inv_work_done _ _ _ _ _ _ _ Hi1 Hw1 Ew Hp Ep) as Hi2. set (s2 := s1 <| sv_works ::= _ |> <| sv_protos ::= _ |>) in *.
  assert (Hr : ready k s2).
  { split_and!; [simpl; by rewrite lookup_insert_eq | by apply (iv_wf _ _ _ Hi1 k p Hp) | done]. }
  clearbody s2. clear Hi1. eapply (ends_mono _ (fun _ s' => inv R F s' /\ step k s2 s')).
  - match goal with |- ends ?m _ _ => cut (stable false k m); [intros H; by apply H|] end. stable_auto.
  - intros [] s' [H1 H2]. split; [done | by apply (st_ready _ _ _ H2)].
Qed.
End Run.
