(* ===== verification/NetSafe.v ===== *)
(** The network layer keeps the invariant of the worker: accepting, reading, closing
    and the timers (NetServer.v), and the wake-ups of the dispatcher. *)

From S2P Require Import Prelude Tables CLib Frame AuthLimit Password AuthStore HashMap Message Queue Store Exchange Broker BrokerRoute BrokerSpec BrokerDelivery Net Dispatch DispatchInv DispatchOps DispatchSettle DispatchServe DispatchRun DispatchClient Server Protocol ServerInv ProtocolInv ProtocolSafe ProtocolData ProtocolRun NetServer.

(** * Connections under the dispatcher *)

Section Conns.
Context {M : Type} `{!PtrMap M} `{!PtrMapLaws M}.
Implicit Types (d : dispatcher M) (k : positive).

Lemma disp_add_conn d k cn R F :
  disp_ok d R F -> d_conns d !! k = None -> cn_writes cn = [] -> disp_ok (d <| d_conns ::= <[k := cn]> |>) R F.
Proof.
  intros [Hwi Hw Hh] Hn Hwr. constructor; [| |done].
  - destruct Hwi as [H1 H2 H3 H4 H5 H6 H7 H8 H9 H10 H11]. constructor; try done. intros cp c Hc.
    destruct (H10 cp c Hc) as (B1 & B2 & (cn0 & B3 & B5) & B4). split_and!; try done. exists cn0. split; [|done]. simpl.
    rewrite lookup_insert_ne; [done | congruence].
  - eapply world_ok_proper; [..|exact Hw]; [done|]. unfold d_msgs. simpl. rewrite gather_insert, delete_id by done. rewrite Hwr. simpl. solve_perm.
Qed.

(** No consumer uses the connection. *)
Definition unused d k : Prop := forall cp c, d_cobjs d !! cp = Some c -> cs_conn c <> k.

Lemma not_live_unused d k R F : disp_ok d R F -> ~ live_conn d k -> unused d k.
Proof. intros Hd Hn cp c Hc <-. by destruct (wi_consumer _ (do_wired _ _ _ Hd) cp c Hc) as (_ & _ & Hl & _). Qed.

Lemma wired_conns d X k :
  wired d -> unused d k -> (forall x, x <> k -> X !! x = d_conns d !! x) -> wired (d <| d_conns := X |>).
Proof.
  intros [H1 H2 H3 H4 H5 H6 H7 H8 H9 H10 H11] Hu HX. constructor; try done. intros cp c Hc.
  destruct (H10 cp c Hc) as (B1 & B2 & (cn0 & B3 & B5) & B4). split_and!; try done. exists cn0. split; [|done]. simpl.
  rewrite HX; [done|]. by apply (Hu cp).
Qed.

Lemma disp_reset_conn d k cn cn' R F :
  disp_ok d R F -> d_conns d !! k = Some cn -> unused d k -> omap id (cn_writes cn') = omap id (cn_writes cn) ->
  disp_ok (d <| d_conns ::= <[k := cn']> |>) R F.
Proof.
  intros [Hwi Hw Hh] Hc Hu Hwr. constructor; [eapply wired_conns; [done | done|]; intros x Hx; by rewrite lookup_insert_ne | | done].
  eapply world_ok_proper; [..|exact Hw]; unfold d_refs, d_msgs; simpl; [done|]. rewrite (gather_same _ _ _ cn cn' Hc); [done | by rewrite Hwr].
Qed.

Lemma disp_del_conn d k cn R F :
  disp_ok d R F -> d_conns d !! k = Some cn -> unused d k -> cn_writes cn = [] -> disp_ok (d <| d_conns ::= delete k |>) R F.
Proof.
  intros [Hwi Hw Hh] Hc Hu Hwr. constructor; [eapply wired_conns; [done | done|]; intros x Hx; by rewrite lookup_delete_ne | | done].
  eapply world_ok_proper; [..|exact Hw]; unfold d_refs, d_msgs; simpl; [done|]. rewrite (gather_split _ (d_conns d) _ _ Hc), Hwr. done.
Qed.

(** ** Serving leaves the connections as open as they were *)

Lemma same_closing_trans d1 d2 d3 : same_closing d1 d2 -> same_closing d2 d3 -> same_closing d1 d3.
Proof. intros H1 H2 x. by rewrite H2, H1. Qed.

Lemma on_queue_conns {A} (a : A) p f d : d_conns (snd (d_on_queue a p f d)) = d_conns d.
Proof. unfold d_on_queue. by destruct (on_queue a p f (d_store d)). Qed.

Lemma send_message_shut channel ctag tag m cn n h rc cn' n' h' :
  send_message channel ctag tag m cn n h = (rc, cn', n', h') -> flags cn' = flags cn.
Proof.
  unfold send_message. destruct (_ && _).
  - destruct (bmqp_buf_put_u32 _ _) as [out o]. destruct (b_error out); [by intros [= _ <- _ _]|].
    by intros [(_ & _ & size & len & ->)|(_ & -> & _)]%send_delivery_spec.
  - destruct (delivery_tail _ _ _ _) as [out o]. destruct (b_error out); [by intros [= _ <- _ _]|].
    destruct (beaver_conn_send_owned _ cn _) as [[rc1 cn1] n1] eqn:E. intros [= _ <- _ _].
    by destruct (send_owned_spec _ _ _ _ _ _ E) as [(_ & size & ->)|(_ & ->)].
Qed.

Lemma deliver_closing cp m d : same_closing d (snd (deliver cp m d)).
Proof.
  unfold deliver. destruct (d_cobjs d !! cp) as [c|]; [|done]. cbn [mbind option_bind].
  destruct (d_conns d !! cs_conn c) as [cn|] eqn:Hcn; [|done]. cbn [fmap option_fmap option_map].
  destruct (send_message _ _ _ _ _ _ _) as [[[sent cn'] n] h] eqn:E. apply send_message_shut in E.
  set (d1 := _ <| d_conns ::= _ |>). assert (H1 : same_closing d d1) by exact (same_closing_set d _ _ _ Hcn E).
  destruct (sent =? 0); [|done]. cbn [snd]. eapply same_closing_trans; [exact H1|]. apply same_closing_eq. clearbody d1. clear.
  unfold record_delivery. destruct (d_cobjs d1 !! cp) as [c|]; [|done]. rewrite on_queue_conns. destruct (cs_no_ack c); [done|].
  by destruct (consumer_add_unacked _ _ _ _ _) as [[[ok c'] n] h].
Qed.

Lemma pick_consumer_closing tries ga : forall d, same_closing d (snd (pick_consumer tries ga d)).
Proof.
  induction tries as [|tries IH]; intros d; [done|]. cbn [pick_consumer]. destruct (d_gobjs d !! ga) as [g|]; [|done]. cbv zeta.
  set (d1 := d <| d_gobjs ::= _ |>). assert (H1 : d_conns d1 = d_conns d) by done.
  destruct (g_arr g !! _) as [cp|]; [|done]. cbn [mbind option_bind]. destruct (d_cobjs d1 !! cp) as [c|]; [|done]. cbn [mbind option_bind].
  destruct (d_conns d1 !! cs_conn c) as [cn|] eqn:Hcn; [|done]. cbn [fmap option_fmap option_map].
  assert (Hgo : forall d2, same_closing d1 d2 -> same_closing d (snd (pick_consumer tries ga d2))).
  { intros d2 H2. eapply same_closing_trans; [|apply IH]. exact H2. }
  destruct (cn_closing cn); [by apply Hgo|].
  destruct (_ || _); [apply Hgo; by eapply same_closing_set|].
  destruct (_ && _); [by apply Hgo|]. destruct (cs_no_ack c); [done|].
  destruct (consumer_reserve_unacked c (d_net d1)) as [[ok c'] n]. destruct ok; [done | by apply Hgo].
Qed.

Lemma service_loop_closing fuel ga : forall d, same_closing d (service_loop fuel ga d).
Proof.
  induction fuel as [|fuel IH]; intros d; [done|]. cbn [service_loop]. destruct (d_gobjs d !! ga) as [g|]; [|done].
  destruct (_ =? _)%nat; [done|]. pose proof (pick_consumer_closing (length (g_arr g)) ga d) as H1.
  destruct (pick_consumer _ ga d) as [[cp|] d1]; [|done]. pose proof (on_queue_conns None (g_queue g) queue_dequeue d1) as H2.
  destruct (d_on_queue None (g_queue g) queue_dequeue d1) as [[msg|] d2]; cbn [snd] in *;
    [|eapply same_closing_trans; [exact H1 | by apply same_closing_eq]].
  pose proof (deliver_closing cp msg d2) as H3. destruct (deliver cp msg d2) as [rc d3]. cbn [snd] in H3.
  assert (H : same_closing d d3) by (eapply same_closing_trans; [exact H1|]; eapply same_closing_trans; [by apply same_closing_eq | exact H3]).
  destruct (rc =? 0); [exact (same_closing_trans _ (d_heap (message_unref (Some msg)) d3) _ H (IH _))|]. eapply same_closing_trans; [exact H|]. apply same_closing_eq.
  apply on_queue_conns.
Qed.

Lemma on_async_closing d : same_closing d (on_async d).
Proof.
  unfold on_async. set (d0 := d <| d_pending := [] |> <| d_cap_pending := 0%nat |> <| d_async_sent := false |>).
  assert (H0 : same_closing d d0) by done. revert H0. generalize (d_pending d) as l, d0. clear d0. intros l.
  induction l as [|q l IH]; intros d0 H0; [done|]. cbn [foldl]. apply IH. eapply same_closing_trans; [exact H0|].
  unfold service_pending. destruct (pm_get _ _) as [ga|]; [|done]. destruct (d_gobjs d0 !! ga) as [g|] eqn:Hg; [|done].
  destruct (0 <? _)%nat; [|done]. unfold service_group. rewrite Hg. exact (service_loop_closing _ _ d0).
Qed.

Lemma consume_timer_conns d : d_conns (consume_timer_cb d) = d_conns d.
Proof.
  unfold consume_timer_cb. destruct (negb _); [done|]. generalize (d_consumers d) as l. intros l. revert d.
  induction l as [|cp l IH]; intros d; [done|]. cbn [foldl]. rewrite IH. destruct (d_cobjs d !! cp); [apply watermark_conns | done].
Qed.

Lemma on_write_closing k size d : same_closing d (on_write k size d).
Proof.
  unfold on_write. destruct (d_conns d !! k) as [cn|] eqn:Hcn; [|done].
  destruct (on_write_done size cn _) as [[cn' resume] h] eqn:E.
  assert (Hs : flags cn' = flags cn).
  { revert E. unfold on_write_done. destruct (cn_writes cn); [by intros [= <- _ _]|]. destruct (_ && _); by intros [= <- _ _]. }
  set (d1 := _ <| d_conns ::= _ |>). assert (H1 : same_closing d d1) by exact (same_closing_set d _ _ _ Hcn Hs). destruct resume; [|done].
  eapply same_closing_trans; [exact H1|]. apply same_closing_eq. clearbody d1. clear. unfold dispatcher_resume_conn, for_consumers.
  generalize (d_consumers d1) as l. intros l. revert d1. induction l as [|cp l IH]; intros d; [done|]. cbn [foldl]. rewrite IH.
  destruct (d_cobjs d !! cp) as [c|]; [|done]. destruct (is_on _ _ _); [apply notify_conns | done].
Qed.
End Conns.

(** * The callbacks *)

Section Callbacks.
Context {M : Type} `{!PtrMap M} `{!PtrMapLaws M} {C : Type} `{!ClusterOps C}.
Context (regexec : bytes -> bytes -> bool).
Implicit Types (s : beaver_server M C) (k : positive).
Abbreviation stable := (stable (M := M) (C := C)).

(** Between two callbacks nobody holds the lock of the list of connections. *)
Definition at_rest (R : list positive) (F : list message) s : Prop := inv R F s /\ sv_conns_locked s = false.

Lemma stable_rest {A} k (m : nat -> proc M C A) R F s :
  stable false k m -> at_rest R F s -> is_Some (sv_protos s !! k) -> ends m (fun _ => at_rest R F) s.
Proof.
  intros Hm [Hi Hl] [p Hp]. assert (Hr : ready k s) by (split_and!; [by eexists | by apply (iv_wf _ _ _ Hi k p) | done]).
  eapply ends_mono; [by apply Hm|]. intros a s' [Hi' Hs']. split; [done | by apply (st_ready _ _ _ Hs')].
Qed.

(** The dispatcher through an operation of its own. *)
Lemma rest_d R F s d' :
  at_rest R F s -> (forall R F, disp_ok (sv_d s) R F -> disp_ok d' R F) -> same_closing (sv_d s) d' -> at_rest R F (s <| sv_d := d' |>).
Proof. intros [Hi Hl] Hd Hc. split; [|done]. eapply inv_d; [done | | done]. by apply Hd, Hi. Qed.

Lemma rest_kept R F s d' :
  at_rest R F s -> (forall R F, disp_ok (sv_d s) R F -> kept (sv_d s) d' R F) -> at_rest R F (s <| sv_d := d' |>).
Proof.
  intros Hs Hk. apply rest_d; [done | intros; by apply Hk|]. apply same_closing_eq, (Hk _ _ (iv_disp _ _ _ (proj1 Hs))).
Qed.

Lemma rest_unseen R F f s : unseen f -> at_rest R F s -> at_rest R F (f s).
Proof.
  intros Hf [Hi Hl]. split; [by apply inv_unseen|]. by destruct (Hf s) as [[= _ _ _ -> _ _ _ _ _ _ _] _].
Qed.

Lemma rest_close R F s k :
  at_rest R F s -> is_Some (sv_protos s !! k) -> ends (fun _ => beaver_conn_close k) (fun _ s' => at_rest R F s' /\ closed k s s') s.
Proof.
  intros [Hi Hl] Hk. eapply ends_mono; [by apply conn_close_ends|]. intros [] s' [H1 H2]. split; [|done].
  split; [done|]. by rewrite (cl_locked _ _ _ H2).
Qed.

Lemma rest_conn R F s k : at_rest R F s -> is_Some (sv_protos s !! k) -> is_Some (d_conns (sv_d s) !! k).
Proof. intros [Hi _] [p Hp]. by apply (iv_wf _ _ _ Hi k p Hp). Qed.

(** ** Reading and timers *)

Definition mod_conn_open (f : beaver_conn -> beaver_conn) : Prop :=
  forall cn, flags (f cn) = flags cn /\ omap id (cn_writes (f cn)) = omap id (cn_writes cn).

Lemma rest_mod_conn R F s k f cn :
  mod_conn_open f -> at_rest R F s -> d_conns (sv_d s) !! k = Some cn ->
  ends (fun _ => mod_conn k f) (fun _ s' => at_rest R F s' /\ s' = s <| sv_d ::= fun d => d <| d_conns ::= <[k := f cn]> |> |>) s.
Proof.
  intros Hf [Hi Hl] Hcn. destruct (Hf cn) as [E1 E2]. apply (ends_mod_conn _ _ cn); [done|]. split; [|done].
  destruct (inv_conn R F s k cn (f cn) Hi Hcn E1 E2) as [Hi' _]. by split.
Qed.

Lemma on_read_ends R F s k data :
  at_rest R F s -> is_Some (sv_protos s !! k) -> live_conn (sv_d s) k -> (forall b, data = Some b -> bytes_ok b) ->
  ends (fun fuel => on_read regexec fuel k data) (fun _ => at_rest R F) s.
Proof.
  intros Hs Hp (cn & Hcn & Hsh) Hok. unfold on_read. destruct data as [[|x data]|].
  - by apply ends_ret.
  - specialize (Hok _ eq_refl). set (b := x :: data) in *. clearbody b. apply ends_bind. eapply ends_now; [done|].
    apply ends_bind. eapply ends_mono; [apply (rest_mod_conn R F s k _ cn); [by intros cn' | done | done]|].
    intros [] s1 [Hs1 Es1]. apply ends_bind. eapply ends_now; [done|].
    set (f := fun s : beaver_server M C => s <| sv_stats ::= fun st => st <| st_total_bytes ::= fun n => u64 (n + Z.of_nat (length b)) |> |>).
    change (s1 <| sv_stats ::= _ |>) with (f s1). destruct (rest_unseen R F f s1 ltac:(done) Hs1) as [Hi2 Hl2].
    assert (Hr2 : ready k (f s1)) by (subst s1; split_and!; [done | simpl; by rewrite lookup_insert_eq | done]).
    assert (Hy2 : synced k (f s1)).
    { subst s1. intros p cn' _. simpl. rewrite lookup_insert_eq. intros [= <-] E. unfold shut, flags in *. simpl in *. by rewrite E in Hsh. }
    eapply ends_mono; [by eapply protocol_on_data_fed|]. intros [] s3 [Hi3 Hw3]. split; [done | by apply (wn_ready _ _ _ Hw3)].
  - eapply ends_mono; [by apply rest_close|]. by intros [] s' [H _].
Qed.

Lemma alloc_buffer_stable k n : stable false k (fun _ => alloc_buffer k n).
Proof. unfold alloc_buffer. stable_auto. Qed.

Lemma rest_send R F s k data :
  at_rest R F s -> is_Some (d_conns (sv_d s) !! k) -> ends (fun _ => send k data) (fun _ => at_rest R F) s.
Proof.
  intros [Hi Hl] [cn Hcn]. destruct (beaver_conn_send data cn (d_net (sv_d s))) as [[rc cn'] n'] eqn:E.
  destruct (send_fields _ _ _ _ _ _ E) as [E1 E2].
  eapply ends_now; [intros _; unfold send, get_conn, the, on_d, mbind, proc_bind; rewrite Hcn; cbn [fmap option_fmap option_map]; rewrite E; done|].
  destruct (inv_net R F s n' Hi) as [Hi1 _]. destruct (inv_conn R F (net_step s n') k cn cn' Hi1 Hcn E1 E2) as [Hi2 _]. by split; [destruct s|].
Qed.

Lemma on_heartbeat_timer_ends R F s k :
  at_rest R F s -> is_Some (sv_protos s !! k) -> ends (fun _ => on_heartbeat_timer k) (fun _ => at_rest R F) s.
Proof.
  intros Hs Hp. destruct (rest_conn _ _ _ _ Hs Hp) as [cn Hcn]. unfold on_heartbeat_timer. apply ends_bind. eapply ends_now; [intros _; unfold get_conn, the; by rewrite Hcn|].
  destruct (cn_closing cn); [by apply ends_ret|]. apply ends_bind. eapply ends_now; [done|]. destruct (_ <? _).
  - eapply ends_mono; [by apply rest_close|]. by intros [] s' [H _].
  - apply ends_bind. eapply ends_mono; [apply rest_send; [done | by rewrite Hcn]|]. intros rc s' H. by apply ends_ret.
Qed.

Lemma on_handshake_timeout_ends R F s k :
  at_rest R F s -> is_Some (sv_protos s !! k) -> ends (fun _ => on_handshake_timeout k) (fun _ => at_rest R F) s.
Proof.
  intros Hs Hp. destruct (rest_conn _ _ _ _ Hs Hp) as [cn Hcn]. unfold on_handshake_timeout. apply ends_bind. eapply ends_now; [intros _; unfold get_conn, the; by rewrite Hcn|].
  destruct (cn_closing cn); [by apply ends_ret|]. eapply ends_mono; [by apply rest_close|]. by intros [] s' [H _].
Qed.

Lemma kept_alarm rss on y (d : dispatcher M) R F :
  disp_ok d R F -> queue_memory_alarm_update rss (w_sys (d_world d)) = (on, y) ->
  kept d (d <| d_world ::= fun w => w <| w_store ::= fun st => st <| st_sys := y |> |> |>) R F.
Proof.
  intros Hd E. eapply kept_world; [done | | done]. destruct (do_world _ _ _ Hd) as [H1 H2 H3 H4 H5 H6 H7 H8 [S1 S2 S3 S4 S5 S6] H10].
  assert (Ey : s_heap y = s_heap (w_sys (d_world d)) /\ g_flow_alarm_count y = g_flow_alarm_count (w_sys (d_world d))).
  { revert E. unfold queue_memory_alarm_update. destruct (_ =? 0); [by intros [= _ <-]|].
    destruct (_ && _); [by intros [= _ <-]|]. by destruct (_ && _); intros [= _ <-]. }
  destruct Ey as [E1 E2]. constructor; try done. constructor; try done; simpl; [by rewrite E1 | by rewrite E2].
Qed.

Lemma on_memory_timer_ends R F s rss : at_rest R F s -> ends (fun _ => on_memory_timer rss) (fun _ => at_rest R F) s.
Proof.
  intros Hs. unfold on_memory_timer. apply ends_bind. eapply ends_now; [done|]. destruct (_ || _); [by apply ends_ret|].
  apply ends_bind. unfold on_broker, on_d.
  destruct (queue_memory_alarm_update rss (w_sys (d_world (sv_d s)))) as [on y] eqn:E.
  eapply ends_now; [intros _; rewrite E; done|]. apply ends_ret. apply rest_kept; [done|]. intros. by eapply kept_alarm.
Qed.

(** ** The end of a connection *)

Lemma inv_del_conn R F s k cn :
  inv R F s -> sv_protos s !! k = None -> d_conns (sv_d s) !! k = Some cn -> shut cn = true -> cn_writes cn = [] ->
  inv R F (s <| sv_d ::= fun d => d <| d_conns ::= delete k |> |>).
Proof.
  intros [H1 H2 H3 H4 H5 H6 H7 H8 H9] Hp Hcn Hsh Hwr.
  assert (Hnl : ~ live_conn (sv_d s) k) by (intros (cn' & Hk' & E); congruence).
  constructor; try done; simpl.
  - eapply disp_del_conn; [done | done | by eapply not_live_unused | done].
  - intros j p Hj. destruct (H2 j p Hj) as (A & B & D). split_and!; try done. rewrite lookup_delete_ne; [done | congruence].
  - intros j. rewrite H4. unfold live_conn. simpl. destruct (decide (k = j)) as [<-|]; [rewrite Hp, lookup_delete_eq; naive_solver | by rewrite lookup_delete_ne].
  - intros x Hx. apply H7. destruct Hx as [Hx|Hx]; [left|by right]. apply lookup_delete_is_Some in Hx. tauto.
  - intros j p cn' Hj [_ Hx]%lookup_delete_Some. eauto.
Qed.

(** libuv calls back for the last handle of a connection when its writes are done. *)
Definition may_end (cn : beaver_conn) : Prop :=
  cn_tcp_closing cn = true /\ ((S (cn_n_handles_closed cn) < cn_n_handles cn)%nat \/ cn_writes cn = []).

Lemma on_conn_handle_closed_ends R F s k cn :
  at_rest R F s -> d_conns (sv_d s) !! k = Some cn -> may_end cn -> ends (fun _ => on_conn_handle_closed k) (fun _ => at_rest R F) s.
Proof.
  intros Hs Hcn [Htcp Hend]. unfold on_conn_handle_closed. apply ends_bind.
  eapply ends_mono; [apply (rest_mod_conn R F s k _ cn); [by intros cn' | done | done]|]. intros [] s1 [[Hi1 Hl1] Es1].
  set (cn1 := cn <| cn_n_handles_closed ::= S |>) in *.
  assert (Hk1 : d_conns (sv_d s1) !! k = Some cn1) by (subst s1; simpl; by rewrite lookup_insert_eq). clear Es1.
  assert (Hsh : shut cn1 = true) by (unfold shut, cn1; simpl; by rewrite Htcp, orb_true_r).
  apply ends_bind. eapply ends_now; [intros _; unfold get_conn, the; by rewrite Hk1|].
  destruct (Nat.ltb_spec (cn_n_handles_closed cn1) (cn_n_handles cn1)) as [|Hge]; [by apply ends_ret|].
  destruct Hend as [Hlt|Hwr]; [unfold cn1 in Hge; simpl in Hge; lia|].
  apply ends_bind. eapply ends_now; [done|]. apply ends_bind. destruct (sv_protos s1 !! k) as [p|] eqn:Hp.
  - eapply ends_mono; [apply (protocol_conn_free_ends R F s1 k p); [done | done|]; intros (cn' & Hk' & E); congruence|].
    intros [] s2 (Hi2 & Ep & Ec & El). eapply ends_now; [done|]. split; [|simpl; by rewrite El].
    apply (inv_del_conn _ _ _ _ cn1); [done | by rewrite Ep, lookup_delete_eq | by rewrite Ec | done | done].
  - apply ends_ret. eapply ends_now; [done|]. split; [|done]. by apply (inv_del_conn _ _ _ _ cn1).
Qed.

(** ** Resuming *)

(** A method is sent, or not; the list and its lock are not touched. *)
Definition unlisted R F s s' : Prop :=
  inv R F s' /\ sv_conns s' = sv_conns s /\ sv_conns_locked s' = sv_conns_locked s.

Lemma build_runs R F s f : inv R F s -> exists b n, build (M := M) (C := C) f s = Some (b, net_step s n) /\ unlisted R F s (net_step s n).
Proof.
  intros Hi. unfold build, on_d. destruct (f (bmqp_buf_init, n_oracle (d_net (sv_d s)))) as [b o].
  set (n := (d_net (sv_d s)) <| n_oracle := o |>). exists b, n. split; [by destruct s as [[]]|]. by destruct (inv_net R F s n Hi).
Qed.

Lemma send_runs R F s k data : inv R F s -> is_Some (d_conns (sv_d s) !! k) ->
  exists rc s', send k data s = Some (rc, s') /\ unlisted R F s s' /\ sv_protos s' = sv_protos s.
Proof.
  intros Hi [cn Hcn]. destruct (beaver_conn_send data cn (d_net (sv_d s))) as [[rc cn'] n] eqn:E. destruct (send_fields _ _ _ _ _ _ E) as [E1 E2].
  destruct (inv_net R F s n Hi) as [Hi1 _]. destruct (inv_conn R F (net_step s n) k cn cn' Hi1 Hcn E1 E2) as [Hi2 _].
  eexists rc, _. split; [unfold send, get_conn, the, on_d, mbind, proc_bind; rewrite Hcn; cbn [fmap option_fmap option_map]; by rewrite E|]. by split_and!.
Qed.

Lemma send_method_runs R F s k channel class method args : inv R F s -> is_Some (d_conns (sv_d s) !! k) ->
  exists rc s', protocol_send_method k channel class method args s = Some (rc, s') /\ unlisted R F s s' /\ sv_protos s' = sv_protos s.
Proof.
  intros Hi Hk. unfold protocol_send_method, mbind, proc_bind.
  destruct (build_runs R F s (fun b => bmqp_buf_put_bytes (bmqp_buf_put_u16 (bmqp_buf_put_u16 b class) method) args) Hi) as (pl & n1 & -> & Hi1 & _).
  destruct (build_runs R F (net_step s n1) (fun b => bmqp_frame_write b BMQP_FRAME_METHOD channel (b_data pl)) Hi1) as (fr & n2 & -> & Hi2 & _).
  destruct (_ && _); [|by eexists _, _]. destruct (send_runs R F _ k (b_data fr) Hi2 Hk) as (rc & s' & E & H & Ep). eexists rc, s'. by split_and!.
Qed.

(** One connection of the list, under the lock: its reads go on, and it is told so when
    it had been blocked. *)
Definition reading k (cn : beaver_conn) (p : proto) s : beaver_server M C :=
  s <| sv_d ::= fun d => d <| d_conns ::= <[k := cn <| cn_read_paused := false |>]> |> |>
    <| sv_protos ::= <[k := p <| pr_conn_blocked := false |>]> |>.

(** Connection.Unblocked could not be sent to a connection that is not being closed. *)
Definition unsent k s : Prop := exists cn p rc s',
  d_conns (sv_d s) !! k = Some cn /\ sv_protos s !! k = Some p /\ pr_conn_blocked p = true /\ pr_state p <> BMQP_STATE_CLOSING /\
  protocol_send_method k 0 BMQP_CLASS_CONNECTION BMQP_CONNECTION_UNBLOCKED [] (reading k cn p s) = Some (rc, s') /\ rc <> 0.

Lemma close_waits k s cn : d_conns (sv_d s) !! k = Some cn -> cn_closing cn = false -> sv_conns_locked s = true -> beaver_conn_close k s = None.
Proof.
  intros Hk Hc Hl. unfold beaver_conn_close, get_conn, the, mbind, proc_bind. rewrite Hk. cbn [fmap option_fmap option_map]. rewrite Hc.
  unfold mod_d, modify, conn_list_remove, lock_conns, mbind, proc_bind. cbn. by rewrite Hl.
Qed.

Lemma unpause_runs k s cn : d_conns (sv_d s) !! k = Some cn ->
  (if cn_read_paused cn && true then mod_conn k (fun cn => cn <| cn_read_paused := false |>) else mret tt : proc M C unit) s =
  Some (tt, s <| sv_d ::= fun d => d <| d_conns ::= <[k := cn <| cn_read_paused := false |>]> |> |>).
Proof.
  intros Hk. destruct (cn_read_paused cn) eqn:Ep; cbn [andb].
  - unfold mod_conn, get_conn, the, mod_d, modify, mbind, proc_bind. by rewrite Hk.
  - assert (E : cn <| cn_read_paused := false |> = cn) by (destruct cn; cbn in *; by subst). rewrite E.
    apply insert_id in Hk. unfold mret, proc_ret. destruct s as [[]]. unfold update_field. cbn -[insert] in *. unfold update_field. cbn -[insert]. by rewrite Hk.
Qed.

Lemma reading_inv R F s k p cn : inv R F s -> sv_protos s !! k = Some p -> d_conns (sv_d s) !! k = Some cn -> unlisted R F s (reading k cn p s).
Proof.
  intros Hi Hp Hk. destruct (inv_conn R F s k cn (cn <| cn_read_paused := false |>) Hi Hk) as [Hi1 _]; [done..|].
  assert (Hm : mild (fun p => p <| pr_conn_blocked := false |>)) by (by mild). pose proof (inv_mild _ _ _ _ _ _ Hm Hi1 Hp) as Hi2. by split.
Qed.

Lemma fatal_locked R F k s cn p s' rc : inv R F s -> k ∈ sv_conns s -> sv_conns_locked s = true -> d_conns (sv_d s) !! k = Some cn -> sv_protos s !! k = Some p -> pr_conn_blocked p = true ->
  protocol_send_method k 0 BMQP_CLASS_CONNECTION BMQP_CONNECTION_UNBLOCKED [] (reading k cn p s) = Some (rc, s') -> rc <> 0 ->
  unlisted R F (reading k cn p s) s' -> sv_protos s' = sv_protos (reading k cn p s) ->
  (proto_fatal k s' = Some (tt, s')) \/ (proto_fatal k s' = None /\ unsent k s).
Proof.
  intros Hi Hk Hl Hcn Hp Hb E Hrc (Hi' & Ec & El) Ep.
  assert (Hp' : sv_protos s' !! k = Some (p <| pr_conn_blocked := false |>)) by (rewrite Ep; apply lookup_insert_eq).
  unfold proto_fatal, proto_close, get_proto, the, mbind, proc_bind. rewrite Hp'. cbn [fmap option_fmap option_map].
  destruct (decide (pr_state p = BMQP_STATE_CLOSING)) as [Hs|Hs]; [left; by rewrite bool_decide_true|]. right. rewrite bool_decide_false by done.
  split; [|by exists cn, p, rc, s']. destruct (proj1 (iv_listed _ _ _ Hi' k)) as [_ (cn' & Hcn' & Hsh)]; [by rewrite Ec|].
  unfold publish_state, mod_proto, mod_conn, mod_d, get_proto, get_conn, the, modify, mbind, proc_bind. rewrite Hp'. cbn [fmap option_fmap option_map sv_d].
  cbn. rewrite Hcn'. apply (close_waits k _ (cn' <| cn_amqp_state := state_num BMQP_STATE_CLOSING |>)); [apply lookup_insert_eq | | exact (eq_trans El Hl)].
  unfold shut, flags in Hsh; simpl in Hsh; change (cn_closing cn' = false); by destruct (cn_closing cn').
Qed.

Lemma proc_then {A B} (m : proc M C A) (f : A -> proc M C B) a s s' : m s = Some (a, s') -> (m ≫= f) s = f a s'.
Proof. intros E. unfold mbind, proc_bind. by rewrite E. Qed.

Lemma resume_conn_runs R F s k : inv R F s -> k ∈ sv_conns s -> sv_conns_locked s = true ->
  (exists s', resume_conn k s = Some (tt, s') /\ unlisted R F s s') \/ (resume_conn k s = None /\ unsent k s).
Proof.
  intros Hi Hk Hl. destruct (proj1 (iv_listed _ _ _ Hi k) Hk) as [[p Hp] (cn & Hcn & Hsh)].
  assert (Hcl : cn_closing cn = false) by (unfold shut, flags in Hsh; simpl in Hsh; by destruct (cn_closing cn)).
  unfold resume_conn. rewrite (proc_then _ _ cn s s) by (unfold get_conn, the; by rewrite Hcn). rewrite Hcl. cbn [negb].
  rewrite (proc_then _ _ _ _ _ (unpause_runs k s cn Hcn)). set (s1 := s <| sv_d ::= _ |>). unfold protocol_conn_unblock.
  rewrite (proc_then _ _ p s1 s1) by (unfold get_proto, the; cbn; by rewrite Hp).
  destruct (pr_conn_blocked p) eqn:Hb; cbn [negb].
  2: { left. exists s1. split; [done|]. destruct (inv_conn R F s k cn (cn <| cn_read_paused := false |>) Hi Hcn) as [Hi1 _]; [done..|].
       by split. }
  rewrite (proc_then _ _ tt s1 (reading k cn p s)).
  2: { unfold mod_proto, get_proto, the, modify, mbind, proc_bind. change (sv_protos s1) with (sv_protos s). by rewrite Hp. }
  pose proof (reading_inv R F s k p cn Hi Hp Hcn) as (Hi2 & Ec2 & El2).
  destruct (send_method_runs R F (reading k cn p s) k 0 BMQP_CLASS_CONNECTION BMQP_CONNECTION_UNBLOCKED [] Hi2) as (rc & s3 & E & H3 & Ep3).
  { eexists. apply lookup_insert_eq. }
  unfold send_connection_unblocked, send_method. rewrite (proc_then _ _ _ _ _ E). pose proof H3 as (Hi3 & Ec3 & El3).
  destruct (Z.eqb_spec rc 0) as [|Hrc]; [left; exists s3; split; [done | split_and!; [done | congruence | congruence]]|].
  destruct (fatal_locked R F k s cn p s3 rc) as [H|H]; auto. left. exists s3. split; [done | split_and!; [done | congruence | congruence]].
Qed.

(** The connections before [k] in the list have been resumed, [k] could not be told, and
    closing it waits for the lock of the list that the timer holds. *)
Definition stuck_at k s : Prop := exists l1 l2 s1,
  sv_conns s = l1 ++ k :: l2 /\ each resume_conn l1 s = Some (tt, s1) /\ unsent k s1.

Lemma resume_all_runs R F l : forall s, inv R F s -> l ⊆ sv_conns s -> sv_conns_locked s = true ->
  (exists s', each resume_conn l s = Some (tt, s') /\ unlisted R F s s') \/
  (each resume_conn l s = None /\ exists l1 k l2 s1, l = l1 ++ k :: l2 /\ each resume_conn l1 s = Some (tt, s1) /\ unsent k s1).
Proof.
  induction l as [|k l IH]; intros s Hi Hl Hlk; cbn [each]; [left; by exists s|].
  destruct (resume_conn_runs R F s k Hi) as [(s1 & E & Hi1 & Ec1 & El1)|[E Hu]]; [set_solver | done | |].
  - rewrite (proc_then _ _ _ _ _ E). destruct (IH s1 Hi1) as [(s2 & E2 & Hi2 & Ec2 & El2)|(E2 & l1 & k' & l2 & s2 & -> & E3 & Hu)]; [rewrite Ec1; set_solver | congruence | |].
    + left. exists s2. split; [done|]. split_and!; [done | congruence | congruence].
    + right. split; [done|]. exists (k :: l1), k', l2, s2. split_and!; [done | cbn [each]; by rewrite (proc_then _ _ _ _ _ E) | done].
  - right. split; [unfold mbind, proc_bind; by rewrite E|]. exists [], k, l, s. done.
Qed.

Lemma inv_locked R F s b : inv R F s -> inv R F (s <| sv_conns_locked := b |>).
Proof. intros []. by constructor. Qed.

Lemma congested_runs R F s : at_rest R F s -> exists busy s', congested s = Some (busy, s') /\ at_rest R F s' /\ sv_conns s' = sv_conns s.
Proof.
  intros [Hi Hl]. unfold congested. destruct (sv_cluster s) as [c|] eqn:Hc.
  - destruct (cluster_should_throttle c) as [a c'] eqn:E. rewrite (proc_then _ _ a s (s <| sv_cluster := Some c' |>)) by (unfold cluster_throttled; by rewrite Hc, E).
    assert (at_rest R F (s <| sv_cluster := Some c' |>)) as H
      by (split; [eapply (inv_unseen (fun s => s <| sv_cluster := Some c' |>)); [intros x; split; [done | intros _; by eexists] | exact Hi] | done]).
    destruct a; by eexists _, _.
  - rewrite (proc_then _ _ false s s) by (unfold cluster_throttled; by rewrite Hc). by eexists _, _.
Qed.

(** The throttle timer waits for the lock it holds. *)
Definition self_wait s : Prop := exists k busy s0,
  congested s = Some (busy, s0) /\ (sv_shutting_down s0 = true \/ busy = false) /\ stuck_at k (s0 <| sv_conns_locked := true |>).

Lemma on_throttle_timer_runs R F s : at_rest R F s ->
  (exists s', on_throttle_timer s = Some (tt, s') /\ at_rest R F s') \/ (on_throttle_timer s = None /\ self_wait s).
Proof.
  intros Hs0. destruct (congested_runs R F s Hs0) as (busy & s0 & Ec & [Hi Hl] & _). unfold on_throttle_timer. rewrite (proc_then _ _ _ _ _ Ec).
  rewrite (proc_then _ _ (sv_shutting_down s0) s0 s0) by done. destruct (negb (sv_shutting_down s0) && busy) eqn:Hd; [left; by exists s0|].
  set (s1 := s0 <| sv_conns_locked := true |>). rewrite (proc_then _ _ tt s0 s1) by (unfold lock_conns; by rewrite Hl).
  rewrite (proc_then _ _ (sv_conns s1) s1 s1) by done.
  destruct (resume_all_runs R F (sv_conns s1) s1) as [(s2 & E & Hi2 & _ & _)|(E & l1 & k & l2 & s2 & Hl2 & E2 & Hu)]; [by apply inv_locked | done | done | |].
  - left. rewrite (proc_then _ _ _ _ _ E). eexists. split; [done|]. split; [|done]. destruct Hi2. by constructor.
  - right. split; [unfold mbind, proc_bind; by rewrite E|]. exists k, busy, s0. split; [done|]. split; [|by exists l1, l2, s2].
    destruct (sv_shutting_down s0); [by left|]. by right.
Qed.
End Callbacks.
