(* ===== verification/NetAccept.v ===== *)
(** Accepting connections and shutting a worker down keep the invariant of the
    worker (NetServer.v, src/src/net.c). *)

From S2P Require Import Prelude Tables CLib Frame AuthLimit Password AuthStore HashMap Message Queue Store Exchange Broker BrokerRoute BrokerSpec BrokerDelivery Net Dispatch DispatchInv DispatchOps DispatchSettle DispatchServe DispatchRun DispatchClient Server Protocol ServerInv ProtocolInv ProtocolSafe ProtocolData ProtocolRun NetServer NetSafe.

Section Accept.
Context {M : Type} `{!PtrMap M} `{!PtrMapLaws M} {C : Type} `{!ClusterOps C}.
Implicit Types (s : beaver_server M C) (k : positive) (cn : beaver_conn).

(** A connection that the protocol engine does not know yet. *)
Record newborn k cn s : Prop := Newborn {
  nb_proto : sv_protos s !! k = None;
  nb_conn : d_conns (sv_d s) !! k = Some cn;
  nb_unused : unused (sv_d s) k;
  nb_writes : cn_writes cn = []
}.

Definition set_conn s k cn : beaver_server M C := s <| sv_d ::= fun d => d <| d_conns ::= <[k := cn]> |> |>.

Lemma inv_add_conn R F s k cn :
  inv R F s -> d_conns (sv_d s) !! k = None -> (k < sv_next s)%positive -> cn_writes cn = [] ->
  inv R F (set_conn s k cn) /\ newborn k cn (set_conn s k cn).
Proof.
  intros [H1 H2 H3 H4 H5 H6 H7 H8 H9] Hk Hlt Hwr.
  assert (Hp : sv_protos s !! k = None).
  { destruct (sv_protos s !! k) as [p|] eqn:E; [|done]. destruct (H2 k p E) as (_ & [x Hx] & _). congruence. }
  split.
  - constructor; try done; simpl.
    + by apply disp_add_conn.
    + intros j p Hj. destruct (H2 j p Hj) as (A & B & D). split_and!; try done. apply lookup_insert_is_Some'. auto.
    + intros j. rewrite H4. unfold live_conn. simpl. destruct (decide (k = j)) as [<-|]; [rewrite Hp; naive_solver | by rewrite lookup_insert_ne].
    + intros x Hx. rewrite lookup_insert_is_Some' in Hx. destruct Hx as [[<-|Hx]|Hx]; [done | apply H7; by left | apply H7; by right].
    + intros j p x Hj [[<- <-]|[_ Hx]]%lookup_insert_Some; [congruence | eauto].
  - constructor; [done | apply lookup_insert_eq | | done]. change (unused (sv_d s) k). eapply not_live_unused; [exact H1|]. intros (x & Hx & _). congruence.
Qed.

Lemma inv_newborn R F s k cn cn' :
  inv R F s -> newborn k cn s -> cn_writes cn' = [] -> inv R F (set_conn s k cn') /\ newborn k cn' (set_conn s k cn').
Proof.
  intros [H1 H2 H3 H4 H5 H6 H7 H8 H9] [Hp Hk Hu Hwr] Hwr'. split; [|constructor; [done | apply lookup_insert_eq | exact Hu | done]].
  constructor; try done; simpl.
  - eapply disp_reset_conn; [done | done | done | by rewrite Hwr, Hwr'].
  - intros j p Hj. destruct (H2 j p Hj) as (A & B & D). split_and!; try done. apply lookup_insert_is_Some'. auto.
  - intros j. rewrite H4. unfold live_conn. simpl. destruct (decide (k = j)) as [<-|]; [rewrite Hp; naive_solver | by rewrite lookup_insert_ne].
  - intros x Hx. apply H7. rewrite lookup_insert_is_Some' in Hx. destruct Hx as [[<-|Hx]|Hx]; [left; by rewrite Hk | by left | by right].
  - intros j p x Hj [[<- <-]|[_ Hx]]%lookup_insert_Some; [congruence | eauto].
Qed.

(** The protocol engine takes the connection over, and it is listed. *)
Lemma inv_born R F s k cn :
  inv R F s -> newborn k cn s -> shut cn = false -> inv R F (s <| sv_protos ::= <[k := proto_zero]> |> <| sv_conns ::= cons k |>).
Proof.
  intros [H1 H2 H3 H4 H5 H6 H7 H8 H9] [Hp Hk Hu Hwr] Hsh. constructor; try done; simpl.
  - eapply disp_perm; [exact H1 | rewrite gather_insert, delete_id by done; done..].
  - intros j p [[<- <-]|[_ Hj]]%lookup_insert_Some; [|by apply H2]. split_and!; [apply proto_zero_wf | by rewrite Hk | done].
  - apply NoDup_cons. split; [|done]. rewrite H4, Hp. by intros [[x Hx] _].
  - intros j. rewrite elem_of_cons, H4, lookup_insert_is_Some'. unfold live_conn. destruct (decide (j = k)) as [->|]; [|naive_solver].
    rewrite Hk. naive_solver.
  - intros j p id [[<- <-]|[_ Hj]]%lookup_insert_Some; [done | by apply H5].
  - intros id w j Hw Ej. destruct (H6 id w j Hw Ej) as (p & Hj & Ep). exists p. rewrite lookup_insert_ne; [done | congruence].
  - intros j p x [[<- <-]|[_ Hj]]%lookup_insert_Some Hx Et; [|eauto]. assert (x = cn) as -> by congruence.
    unfold shut, flags in Hsh. simpl in Hsh. by rewrite Et, orb_true_r in Hsh.
Qed.

Lemma inv_fresh_next R F s : inv R F s -> inv R F (s <| sv_next ::= Pos.succ |>).
Proof. intros [H1 H2 H3 H4 H5 H6 H7 H8 H9]. constructor; try done. simpl. intros x Hx. specialize (H7 x Hx). lia. Qed.

(** ** The callback *)

(** The steps before the protocol engine takes over leave the newborn alone. *)
Lemma newborn_unseen f R F s k cn : unseen f -> inv R F s -> newborn k cn s -> inv R F (f s) /\ newborn k cn (f s).
Proof.
  intros Hf Hi [Hp Hk Hu Hwr]. split; [by apply inv_unseen|]. destruct (Hf s) as [[= E1 E2 _ _ _ _ _ _ _ _ _] _].
  constructor; rewrite ?E1, ?E2; done.
Qed.

Lemma close_handles_ends R F s k cn :
  at_rest R F s -> newborn k cn s -> ends (fun _ => conn_close_handles k) (fun _ => at_rest R F) s.
Proof.
  intros [Hi Hl] Hn. unfold conn_close_handles. apply (ends_mod_conn _ _ cn); [apply Hn|].
  match goal with |- at_rest _ _ (s <| sv_d ::= fun d => d <| d_conns ::= <[k := ?x]> |> |>) => destruct (inv_newborn R F s k cn x Hi Hn) as [Hi' _] end;
    [destruct (1 <? _)%nat; apply Hn | by split].
Qed.

Lemma mod_stats_ends (Q : unit -> beaver_server M C -> Prop) f s : Q tt (s <| sv_stats ::= f |>) -> ends (fun _ => mod_stats f) Q s.
Proof. intros H. by eapply ends_now. Qed.

Lemma list_push_ends (Q : unit -> beaver_server M C -> Prop) k s :
  sv_conns_locked s = false -> Q tt (s <| sv_conns ::= cons k |>) -> ends (fun _ => conn_list_push k) Q s.
Proof.
  intros Hl H. eapply ends_now; [|exact H]. intros _. unfold conn_list_push, lock_conns, unlock_conns, modify, mbind, proc_bind. rewrite Hl.
  destruct s. cbn in *. by subst.
Qed.

Lemma accepted_ends R F s k cn addr :
  at_rest R F s -> newborn k cn s -> shut cn = false -> ends (fun _ => accepted k addr) (fun _ => at_rest R F) s.
Proof.
  intros [Hi Hl] Hn Hsh. unfold accepted. apply ends_bind, (ends_mod_conn _ _ cn); [apply Hn|]. set (cn1 := cn <| cn_peer := fill_peername addr |>).
  destruct (inv_newborn R F s k cn cn1 Hi Hn) as [Hi1 Hn1]; [apply Hn|].
  match goal with |- ends _ _ ?x => change x with (set_conn s k cn1) end.
  assert (Hl1 : sv_conns_locked (set_conn s k cn1) = false) by done. assert (Hsh1 : shut cn1 = false) by done.
  set (s1 := set_conn s k cn1) in *. clearbody s1. clearbody cn1. clear s cn Hi Hl Hn Hsh. rename s1 into s, cn1 into cn, Hi1 into Hi, Hn1 into Hn, Hl1 into Hl, Hsh1 into Hsh.
  assert (Hst : forall s f, inv R F s -> newborn k cn s -> inv R F (s <| sv_stats ::= f |>) /\ newborn k cn (s <| sv_stats ::= f |>)).
  { intros s0 f. by apply (newborn_unseen (fun s => s <| sv_stats ::= f |>)). }
  apply ends_bind, mod_stats_ends. destruct (Hst _ (fun st => st <| st_active_conns ::= fun n => n + 1 |>) Hi Hn) as [Hi1 Hn1].
  set (s1 := s <| sv_stats ::= _ |>) in *. assert (Hl1 : sv_conns_locked s1 = false) by done. clearbody s1. clear s Hi Hn Hl.
  apply ends_bind. eapply ends_now; [done|]. cbn zeta.
  assert (Hrefuse : forall s, at_rest R F s -> newborn k cn s ->
    ends (fun _ => mod_stats (fun st => st <| st_active_conns ::= fun n => n - 1 |>);; conn_close_handles k) (fun _ => at_rest R F) s).
  { intros s0 [H1 H2] H3. apply ends_bind, mod_stats_ends. destruct (Hst _ (fun st => st <| st_active_conns ::= fun n => n - 1 |>) H1 H3).
    by apply (close_handles_ends R F _ k cn). }
  destruct (_ && _); [by apply Hrefuse|]. unfold protocol_conn_new. apply ends_bind, ends_bind, ends_alloc. intros ok n.
  destruct (inv_net R F s1 n Hi1) as [Hi2 _]. assert (Hn2 : newborn k cn (net_step s1 n)) by (destruct Hn1; by constructor).
  destruct ok; [|apply ends_ret; by apply Hrefuse]. apply ends_bind. eapply ends_now; [done|].
  apply ends_bind, (ends_mod_conn _ _ cn); [apply Hn2|]. apply ends_ret. cbn [negb]. apply ends_bind, list_push_ends; [done|].
  set (cn3 := cn <| cn_frame_max := _ |>). destruct (inv_newborn R F _ k cn cn3 Hi2 Hn2) as [Hi3 Hn3]; [apply Hn2|].
  pose proof (inv_born _ _ _ _ _ Hi3 Hn3 Hsh) as Hi4. apply ends_bind, mod_stats_ends. apply ends_bind.
  match goal with |- ends _ _ ?x => set (s5 := x) end.
  assert (Hs5 : at_rest R F s5) by (split; [destruct Hi4; by constructor | done]).
  assert (Hk5 : is_Some (sv_protos s5 !! k)) by (simpl; by rewrite lookup_insert_eq).
  clearbody s5. apply uv_call_ends. intros started l. set (s6 := s5 <| sv_uv := l |>).
  assert (Hs6 : at_rest R F s6) by (by apply (rest_unseen R F (fun s => s <| sv_uv := l |>))).
  destruct started; [by apply ends_ret|]. eapply ends_mono; [by apply rest_close|]. by intros [] s' [H _].
Qed.

Lemma on_new_connection_ends R F s status addr : at_rest R F s -> ends (fun _ => on_new_connection status addr) (fun _ => at_rest R F) s.
Proof.
  intros Hs. unfold on_new_connection. destruct status; cbn [negb]; [|by apply ends_ret]. apply ends_bind, ends_alloc. intros ok n.
  destruct (inv_net R F s n (proj1 Hs)) as [Hi1 _]. assert (Hs1 : at_rest R F (net_step s n)) by (split; [done | apply Hs]).
  revert Hs1. generalize (net_step s n). clear s Hs Hi1. intros s Hs. destruct ok; cbn [negb]; [|by apply ends_ret].
  assert (Huv : forall s l, at_rest R F s -> at_rest R F (s <| sv_uv := l |>)).
  { intros s0 l. by apply (rest_unseen R F (fun s => s <| sv_uv := l |>)). }
  apply ends_bind, uv_call_ends. intros tcp l. specialize (Huv s l Hs). revert Huv. generalize (s <| sv_uv := l |>). clear s Hs l. intros s Hs.
  destruct tcp; cbn [negb]; [|by apply ends_ret]. apply ends_bind. eapply ends_now; [done|]. set (k := sv_next s).
  assert (Hk : d_conns (sv_d s) !! k = None).
  { destruct (d_conns (sv_d s) !! k) as [x|] eqn:E; [|done]. pose proof (iv_fresh _ _ _ (proj1 Hs) k) as Hf. rewrite E in Hf.
    specialize (Hf (or_introl (mk_is_Some _ _ eq_refl))). unfold k in Hf. lia. }
  apply ends_bind. eapply ends_now; [done|]. apply ends_bind, mod_stats_ends.
  match goal with |- ends _ _ ?x => set (s1 := x) end.
  assert (Hi1 : inv R F s1) by (destruct (inv_fresh_next R F s (proj1 Hs)); by constructor).
  assert (Hl1 : sv_conns_locked s1 = false) by apply Hs. assert (Hk1 : d_conns (sv_d s1) !! k = None) by done.
  assert (Hlt : (k < sv_next s1)%positive) by (unfold k; simpl; lia). clearbody s1 k. clear s Hs Hk.
  apply ends_bind. eapply ends_now; [done|]. apply ends_bind, uv_call_ends. intros timer l.
  destruct (rest_unseen R F (fun s => s <| sv_uv := l |>) s1 ltac:(done) (conj Hi1 Hl1)) as [Hi2 Hl2].
  apply ends_bind. eapply ends_now; [done|]. apply ends_bind. eapply ends_now; [done|].
  match goal with |- context [<[k := ?x]>] => set (cn := x) end.
  assert (Hcn : cn_writes cn = [] /\ shut cn = false) by (unfold cn; by destruct timer). destruct Hcn as [Hwr Hsh].
  destruct (inv_add_conn R F (s1 <| sv_uv := l |>) k cn Hi2 Hk1 Hlt Hwr) as [Hi3 Hn3].
  match goal with |- ends _ _ ?x => change x with (set_conn (s1 <| sv_uv := l |>) k cn); set (s3 := set_conn (s1 <| sv_uv := l |>) k cn) in * end.
  assert (Hl3 : sv_conns_locked s3 = false) by done. clearbody s3 cn. apply ends_bind, uv_call_ends. intros taken l'.
  destruct (newborn_unseen (fun s => s <| sv_uv := l' |>) R F s3 k cn ltac:(done) Hi3 Hn3) as [Hi4 Hn4].
  apply ends_bind. eapply ends_now; [done|]. destruct (_ || _); [by apply (close_handles_ends R F _ k cn) | by apply (accepted_ends R F _ k cn)].
Qed.

(** ** Shutdown *)

Lemma close_all_ends R F l : forall s,
  at_rest R F s -> (forall k, k ∈ l -> is_Some (sv_protos s !! k)) -> ends (fun _ => each beaver_conn_close l) (fun _ => at_rest R F) s.
Proof.
  induction l as [|k l IH]; intros s Hs Hl; cbn [each]; [by apply ends_ret|]. apply ends_bind.
  eapply ends_mono; [apply rest_close; [done | apply Hl; set_solver]|]. intros [] s1 [Hs1 Hc]. apply IH; [done|].
  intros x Hx. rewrite (cl_protos _ _ _ Hc). apply Hl. set_solver.
Qed.

Lemma inv_shutting R F s : inv R F s -> inv R F (s <| sv_shutting_down := true |>).
Proof. intros []. by constructor. Qed.

Lemma beaver_server_shutdown_ends R F s : at_rest R F s -> ends (fun _ => beaver_server_shutdown) (fun _ => at_rest R F) s.
Proof.
  intros Hs. unfold beaver_server_shutdown. apply ends_bind. eapply ends_now; [done|]. destruct (sv_shutting_down s) eqn:Ed; [by apply ends_ret|].
  apply ends_bind. eapply ends_now; [done|]. set (s1 := s <| sv_shutting_down := true |>).
  assert (Hs1 : at_rest R F s1) by (split; [by apply inv_shutting, Hs | apply Hs]). clearbody s1. clear s Hs Ed.
  apply ends_bind. eapply (ends_now _ _ _ (sv_conns s1) s1).
  { intros _. unfold beaver_server_foreach_conn, lock_conns, unlock_conns, gets, modify, mbind, proc_bind. rewrite (proj2 Hs1).
    destruct Hs1 as [_ Hl]. destruct s1. cbn in *. by subst. }
  apply ends_bind. eapply (ends_mono _ (fun _ s2 => at_rest R F s2 /\ sv_protos s2 = sv_protos s1)).
  { destruct (0 <? _)%nat; [|by apply ends_ret]. apply ends_alloc. intros ok n. destruct (inv_net R F s1 n (proj1 Hs1)) as [Hi _].
    split; [split; [done | apply Hs1] | done]. }
  intros ok s2 [Hs2 Ec2]. apply ends_bind. eapply ends_mono; [apply (close_all_ends R F _ s2 Hs2)|].
  { intros k Hk. rewrite Ec2. by apply (iv_listed _ _ _ (proj1 Hs1)) in Hk as [Hk _]. }
  intros [] s3 Hs3. apply ends_bind. eapply ends_now; [done|]. eapply ends_now; [done|].
  set (s4 := s3 <| sv_d ::= dispatcher_request_close |>).
  assert (Hs4 : at_rest R F s4).
  { apply rest_kept; [done|]. intros R' F' Hd. unfold dispatcher_request_close. destruct (d_async_closing _); [by apply kept_refl|].
    split; [by eapply disp_field | done]. }
  clearbody s4. by apply (rest_unseen R F (fun s => s <| sv_active ::= _ |>)).
Qed.
End Accept.
