(* ===== verification/ServerRun.v ===== *)
(** The life of a worker: the callbacks of its event loop, in any order, keep its
    invariant (ServerInv.v). *)

From S2P Require Import Prelude Tables CLib Frame AuthLimit Password AuthStore HashMap Message Queue Store Exchange Broker BrokerRoute BrokerSpec BrokerDelivery Net Dispatch DispatchInv DispatchOps DispatchSettle DispatchServe DispatchRun DispatchClient Server Protocol ServerInv ProtocolInv ProtocolSafe ProtocolData ProtocolRun NetServer NetSafe NetAccept.

(** What happens to a worker: the callbacks of libuv, the passing of time, and what
    the rest of the process does to the broker. *)
Inductive callback :=
  | cb_connection (status : bool) (addr : option (bytes * Z))
  | cb_alloc (k : positive) (suggested : Z)
  | cb_read (k : positive) (data : option bytes)
  | cb_write (k : positive) (size : Z)
  | cb_closed (k : positive)
  | cb_heartbeat (k : positive)
  | cb_handshake (k : positive)
  | cb_auth (id : positive) (o : oracle)
  | cb_pending (k id : positive)
  | cb_async
  | cb_consume
  | cb_memory (rss : Z)
  | cb_stats
  | cb_throttle
  | cb_shutdown
  | cb_clock (now : Z)
  | cb_published (vhost : bytes) (exchange routing_key : option bytes) (body : bytes)
  | cb_declared (vhost name : bytes) (flags : Z)
  | cb_deleted (vhost name : bytes).

Section ServerRun.
Context {M : Type} `{!PtrMap M} `{!PtrMapLaws M} {C : Type} `{!ClusterOps C}.
Context (regexec : bytes -> bytes -> bool).
Implicit Types (s : beaver_server M C) (k : positive).

(** What the timer of a connection is set to. *)
Definition armed k s : conn_timer := from_option cn_hb_timer timer_off (d_conns (sv_d s) !! k).

(** When libuv makes the call: only for what exists, reads for a connection that is
    not being closed, the last close when the writes are done, the throttle timer
    once it has been started. *)
Definition callable (e : callback) s : bool :=
  match e with
  | cb_alloc k _ => bool_decide (is_Some (sv_protos s !! k))
  | cb_read k data =>
      bool_decide (is_Some (sv_protos s !! k)) &&
      match d_conns (sv_d s) !! k with Some cn => negb (shut cn) | None => false end &&
      match data with Some b => bool_decide (bytes_ok b) | None => true end
  | cb_write k _ => bool_decide (is_Some (d_conns (sv_d s) !! k))
  | cb_heartbeat k => bool_decide (is_Some (sv_protos s !! k)) && match armed k s with timer_heartbeat _ => true | _ => false end
  | cb_handshake k => bool_decide (is_Some (sv_protos s !! k)) && match armed k s with timer_handshake _ => true | _ => false end
  | cb_closed k =>
      match d_conns (sv_d s) !! k with
      | Some cn => cn_tcp_closing cn && ((S (cn_n_handles_closed cn) <? cn_n_handles cn)%nat || bool_decide (cn_writes cn = []))
      | None => false
      end
  | cb_auth id _ => bool_decide (is_Some (sv_works s !! id))
  | cb_pending k _ => bool_decide (is_Some (sv_protos s !! k))
  | cb_throttle => sv_throttle_started s
  | _ => true
  end.

Definition call (fuel : nat) (e : callback) : proc M C unit :=
  match e with
  | cb_connection status addr => on_new_connection status addr
  | cb_alloc k n => _ ← alloc_buffer k n; mret tt
  | cb_read k data => on_read regexec fuel k data
  | cb_write k size => mod_d (on_write k size)
  | cb_closed k => on_conn_handle_closed k
  | cb_heartbeat k => on_heartbeat_timer k
  | cb_handshake k => on_handshake_timeout k
  | cb_auth id o => auth_work_after_cb id false o
  | cb_pending k id => pending_op_timer_cb k id
  | cb_async => mod_d on_async
  | cb_consume => mod_d consume_timer_cb
  | cb_memory rss => on_memory_timer rss
  | cb_stats => on_stats_timer
  | cb_throttle => on_throttle_timer
  | cb_shutdown => beaver_server_shutdown
  | cb_clock now => modify (fun s => s <| sv_now := now |>)
  | cb_published vhost exn rk body =>
      _ ← try_d (fun d => '(rc, w) ← broker_publish fuel vhost exn rk body (d_world d); Some (rc, take_wakeups (d <| d_world := w |>))); mret tt
  | cb_declared vhost name flags =>
      _ ← on_broker (fun w => let '(rc, _, _, w) := broker_declare_queue vhost name flags w in (rc, w)); mret tt
  | cb_deleted vhost name => _ ← on_broker (fun w => let '(rc, _, w) := broker_delete_queue vhost name false false w in (rc, w)); mret tt
  end.

(** A run of the loop; a call that libuv does not make is passed over. *)
Fixpoint serve (fuel : nat) (es : list callback) s : option (beaver_server M C) :=
  match es with
  | [] => Some s
  | e :: es =>
      if callable e s then match call fuel e s with Some (_, s) => serve fuel es s | None => None end else serve fuel es s
  end.

(** [es1] is all of [es], or what came before a throttle timer that waits for the lock
    it holds, in which the worker never leaves that callback. *)
Definition up_to_wait (es1 es : list callback) s : Prop :=
  es1 = es \/ exists es2, es = es1 ++ cb_throttle :: es2 /\ sv_throttle_started s = true /\ self_wait s /\ forall fuel, call fuel cb_throttle s = None.

(** ** Every callback keeps the invariant *)

Lemma take_wakeups_conns (d : dispatcher M) : d_conns (take_wakeups d) = d_conns d.
Proof.
  unfold take_wakeups. set (d1 := d <| d_world ::= _ |>). change (d_conns d) with (d_conns d1). clearbody d1. generalize (snd <$> filter (fun wq => wq.1 = (WAITER_FN, d_self d)) (w_wakeups (d_world d))) as l.
  intros l. revert d1. induction l as [|q l IH]; intros d1; [done|]. cbn [foldl]. rewrite IH. apply notify_conns.
Qed.

Lemma published_ends R F s vhost exn rk body :
  at_rest R F s -> ends (fun fuel => call fuel (cb_published vhost exn rk body)) (fun _ => at_rest R F) s.
Proof.
  intros [Hi Hl]. destruct (publish_ok vhost exn rk body (sv_d s) _ _ (iv_disp _ _ _ Hi)) as (rc & w' & Hrun & Hd).
  set (d' := take_wakeups ((sv_d s) <| d_world := w' |>)) in *. exists tt, (s <| sv_d := d' |>), (route_fuel (d_world (sv_d s))). split.
  - intros fuel Hf. cbn [call]. unfold try_d, mbind, proc_bind. cbn [mbind option_bind]. by rewrite (Hrun fuel Hf).
  - split; [|done]. eapply inv_d; [done | done | apply same_closing_eq]. unfold d'. by rewrite take_wakeups_conns.
Qed.

Lemma on_broker_ends {A} R F s (f : world M -> A * world M) :
  at_rest R F s -> (forall R F a w', disp_ok (sv_d s) R F -> f (d_world (sv_d s)) = (a, w') -> kept (sv_d s) ((sv_d s) <| d_world := w' |>) R F) ->
  ends (fun _ => _ ← on_broker f; mret tt) (fun _ => at_rest R F) s.
Proof.
  intros Hs Hf. apply ends_bind. unfold on_broker, on_d. destruct (f (d_world (sv_d s))) as [a w'] eqn:E.
  eapply ends_now; [intros _; rewrite E; done|]. apply ends_ret. apply rest_kept; [done|]. intros. by eapply Hf.
Qed.

Lemma on_stats_timer_ends R F s : at_rest R F s -> ends (fun _ => on_stats_timer) (fun _ => at_rest R F) s.
Proof.
  intros Hs. unfold on_stats_timer. match goal with |- ends (fun _ => modify ?f) _ _ => assert (Hf : unseen f) end.
  { intros x. cbv zeta. by destruct (_ =? _). }
  eapply ends_now; [done|]. exact (rest_unseen R F _ s Hf Hs).
Qed.

Lemma call_ends e R F s :
  at_rest R F s -> callable e s = true -> e <> cb_throttle -> ends (fun fuel => call fuel e) (fun _ => at_rest R F) s.
Proof.
  intros Hs He Hne. destruct e; cbn [callable] in He; try apply bool_decide_eq_true in He.
  - by apply on_new_connection_ends.
  - apply (stable_rest k); [|done | done]. apply stable_bind; [apply alloc_buffer_stable | intros; apply stable_ret].
  - apply andb_true_iff in He as [[H1 H2]%andb_true_iff H3]. apply bool_decide_eq_true in H1.
    destruct (d_conns (sv_d s) !! k) as [cn|] eqn:Hcn; [|done]. apply negb_true_iff in H2.
    apply on_read_ends; [done | done | by exists cn |]. intros b ->. by apply bool_decide_eq_true in H3.
  - eapply ends_now; [done|]. apply rest_d; [done | intros; by apply on_write_ok | apply on_write_closing].
  - destruct (d_conns (sv_d s) !! k) as [cn|] eqn:Hcn; [|done]. apply andb_true_iff in He as [H1 H2].
    apply (on_conn_handle_closed_ends R F s k cn); [done | done|]. split; [done|]. apply orb_true_iff in H2 as [H2|H2].
    + left. by apply Nat.ltb_lt.
    + right. by apply bool_decide_eq_true in H2.
  - apply andb_true_iff in He as [H1%bool_decide_eq_true _]. by apply on_heartbeat_timer_ends.
  - apply andb_true_iff in He as [H1%bool_decide_eq_true _]. by apply on_handshake_timeout_ends.
  - destruct He as [w Hw]. by eapply auth_work_after_cb_ends; [apply Hs | apply Hs |].
  - apply (stable_rest k); [apply stable_pending_op_timer_cb | done | done].
  - eapply ends_now; [done|]. apply rest_d; [done | intros; by apply on_async_ok | apply on_async_closing].
  - eapply ends_now; [done|]. apply rest_d; [done | intros; by apply consume_timer_ok | apply same_closing_eq, consume_timer_conns].
  - by apply on_memory_timer_ends.
  - by apply on_stats_timer_ends.
  - done.
  - by apply beaver_server_shutdown_ends.
  - eapply ends_now; [done|]. destruct Hs as [[] Hl]. split; [by constructor | done].
  - by apply published_ends.
  - apply on_broker_ends; [done|]. intros R' F' a w' Hd E. destruct (broker_declare_queue _ _ _ _) as [[[rc depth] created] w] eqn:E'.
    injection E as _ <-. by eapply kept_declare_queue.
  - apply on_broker_ends; [done|]. intros R' F' a w' Hd E. destruct (broker_delete_queue _ _ _ _ _) as [[rc depth] w] eqn:E'.
    injection E as _ <-. by eapply kept_delete_queue.
Qed.

Lemma call_ends_or_waits e R F s : at_rest R F s -> callable e s = true ->
  ends (fun fuel => call fuel e) (fun _ => at_rest R F) s \/ (e = cb_throttle /\ self_wait s /\ forall fuel, call fuel e s = None).
Proof.
  intros Hs He. assert (e = cb_throttle \/ e <> cb_throttle) as [->|Hne] by (destruct e; auto; by right); [|left; by apply call_ends].
  destruct (on_throttle_timer_runs R F s Hs) as [(s' & E & Hs')|[E Hw]]; [left; by eapply ends_now | by right].
Qed.

Lemma serve_ends es R F : forall s, at_rest R F s ->
  exists n es1 s', (forall fuel, (n <= fuel)%nat -> serve fuel es1 s = Some s') /\ up_to_wait es1 es s' /\ at_rest R F s'.
Proof.
  induction es as [|e es IH]; intros s Hs; [exists 0%nat, [], s; by split_and!; [|left|]|].
  assert (Hgo : forall es1 s', up_to_wait es1 es s' -> up_to_wait (e :: es1) (e :: es) s').
  { intros es1 s' [->|(es2 & -> & H)]; [by left | right; by exists es2]. }
  destruct (callable e s) eqn:He; [destruct (call_ends_or_waits e R F s Hs He) as [([] & s1 & n1 & H1 & Hs1)|(-> & Hw & Hn)]|].
  - destruct (IH s1 Hs1) as (n2 & es1 & s2 & H2 & Hu & Hs2). exists (n1 + n2)%nat, (e :: es1), s2. split; [|auto]. intros fuel Hf. cbn [serve]. rewrite He, H1 by lia. apply H2. lia.
  - exists 0%nat, [], s. split_and!; [done | right; by exists es | done].
  - destruct (IH s Hs) as (n2 & es1 & s2 & H2 & Hu & Hs2). exists n2, (e :: es1), s2. split; [|auto]. intros fuel Hf. cbn [serve]. rewrite He. by apply H2.
Qed.

(** A worker before its first connection. *)
Definition worker_start (d : dispatcher M) (auth : option authstore) (cluster : option C) (max_connections max_message_size now : Z) (uv : list bool)
    (o : oracle) : beaver_server M C :=
  Server d ∅ [] false auth [] 0 ∅ cluster (Stats 0 0 0 0) max_connections max_message_size now uv 1 [] false 0 false false o.

Lemma worker_start_rest d auth cluster mc mm now uv o R F :
  disp_ok d R F -> d_conns d = ∅ -> (forall a, auth = Some a -> s_locked a = false) -> 0 <= mm < 2 ^ 32 ->
  at_rest R F (worker_start d auth cluster mc mm now uv o).
Proof.
  intros Hd Hc Ha Hm. split; [|done]. constructor; simpl; try done; rewrite ?Hc.
  - constructor.
  - intros k. rewrite elem_of_nil. unfold live_conn. simpl. rewrite Hc, lookup_empty. naive_solver.
  - intros x [Hx|Hx]; rewrite lookup_empty in Hx; by destruct Hx.
Qed.
End ServerRun.
