(* ===== verification/ServerSpec.v ===== *)
(** The theorems about a worker (Server.v, Protocol.v, NetServer.v) as a whole, from
    the lemmas of ServerInv.v, ProtocolInv.v, ProtocolSafe.v, ProtocolData.v,
    ProtocolRun.v, NetSafe.v, NetAccept.v and ServerRun.v. *)

From S2P Require Import Prelude Tables CLib Frame AuthLimit Password AuthStore HashMap Message Queue Store Exchange Broker BrokerRoute BrokerSpec BrokerDelivery Net Dispatch DispatchInv DispatchOps DispatchSettle DispatchServe DispatchRun DispatchSpec Server Protocol ServerInv NetServer NetSafe ServerRun.

Section Spec.
Context {M : Type} `{!PtrMap M} `{!PtrMapLaws M} {C : Type} `{!ClusterOps C}.
Context (regexec : bytes -> bytes -> bool).
Implicit Types (s : beaver_server M C).

Section Start.
Context (self : positive) (w : world M) (n n' : netst) (d : dispatcher M) (auth : option authstore) (cluster : option C).
Context (max_connections max_message_size now : Z) (uv : list bool) (o : oracle) (R : list positive) (F : list message).

Lemma worker_serves es :
  world_ok w R F -> Forall (fun x => x.1 <> (WAITER_FN, self)) (w_wakeups w) -> dispatcher_new self w n ∅ = (Some d, n') ->
  (forall a, auth = Some a -> s_locked a = false) -> 0 <= max_message_size < 2 ^ 32 ->
  exists N es1 s, (forall fuel, (N <= fuel)%nat ->
    serve regexec fuel es1 (worker_start d auth cluster max_connections max_message_size now uv o) = Some s) /\ up_to_wait regexec es1 es s /\ at_rest R F s.
Proof.
  intros Hw Hh Hn Ha Hm. apply serve_ends, worker_start_rest; [by eapply dispatcher_new_ok | | done | done].
  revert Hn. unfold dispatcher_new. destruct (n_malloc n) as [[] n1]; [|done]. cbn [negb]. destruct (pm_new (n_oracle n1)) as [[m|] o1]; [|done].
  destruct (n_malloc _) as [[] n2]; [|done]. cbn [negb]. destruct (n_malloc n2) as [[] n3]; [|done]. cbn [negb]. by intros [= <- _].
Qed.

(** C2: a worker survives whatever its clients send.  From its start on any broker,
    through any sequence of callbacks of its loop — connections that come and go,
    any bytes in any pieces, completed writes, timers, finished password checks,
    shutdown, and what other threads do to the broker — and with allocations, libuv
    calls and writes failing at any point, every callback returns but one: the
    throttle timer, when Connection.Unblocked cannot be sent to a blocked client, closes
    the connection under the lock of the connection list and waits for that lock
    ([self_wait]).  After all callbacks, or those before such a wait, nothing has
    followed a dangling pointer, and the references to queues and messages that the
    dispatcher, the writes in flight and the unacked Basic.Get deliveries hold are
    counted exactly.  The list of connections has exactly the open ones, and its lock
    is free. *)
Theorem server_safe es :
  world_ok w R F -> Forall (fun x => x.1 <> (WAITER_FN, self)) (w_wakeups w) -> dispatcher_new self w n ∅ = (Some d, n') ->
  (forall a, auth = Some a -> s_locked a = false) -> 0 <= max_message_size < 2 ^ 32 ->
  exists N es1 s, (forall fuel, (N <= fuel)%nat ->
    serve regexec fuel es1 (worker_start d auth cluster max_connections max_message_size now uv o) = Some s) /\ up_to_wait regexec es1 es s /\
    d_fault (sv_d s) = false /\
    world_ok (d_world (sv_d s)) (d_refs (sv_d s) ++ gather proto_refs (sv_protos s) ++ R) (d_msgs (sv_d s) ++ gather proto_msgs (sv_protos s) ++ F) /\
    (forall k, k ∈ sv_conns s <-> is_Some (sv_protos s !! k) /\ live_conn (sv_d s) k) /\ sv_conns_locked s = false.
Proof.
  intros Hw Hh Hn Ha Hm. destruct (worker_serves es Hw Hh Hn Ha Hm) as (N & es1 & s & Hrun & Hu & [Hi Hl]). exists N, es1, s.
  split_and!; [done | done | apply (iv_disp _ _ _ Hi) | apply (iv_disp _ _ _ Hi) | apply (iv_listed _ _ _ Hi) | done].
Qed.

(** C15: the state of every connection stays well formed.  Whatever happened before (up
    to the first throttle timer that waits for the lock it holds, if there is one), the channels of a connection have distinct numbers between 1 and 2047, no array
    holds more than its capacity, the read position lies inside the input buffer,
    a connection that is not open has no channel and no publish in progress, and a
    body under assembly is no longer than its header announced, with less than
    2^32 bytes.  Each belongs to a connection of the worker, and the passwords being
    checked and the connections that wait for one point at each other. *)
Theorem proto_well_formed es :
  world_ok w R F -> Forall (fun x => x.1 <> (WAITER_FN, self)) (w_wakeups w) -> dispatcher_new self w n ∅ = (Some d, n') ->
  (forall a, auth = Some a -> s_locked a = false) -> 0 <= max_message_size < 2 ^ 32 ->
  exists N es1 s, (forall fuel, (N <= fuel)%nat ->
    serve regexec fuel es1 (worker_start d auth cluster max_connections max_message_size now uv o) = Some s) /\ up_to_wait regexec es1 es s /\
    (forall k p, sv_protos s !! k = Some p -> proto_wf p /\ is_Some (d_conns (sv_d s) !! k)) /\
    (forall k id, (exists p, sv_protos s !! k = Some p /\ pr_pending_auth p = Some id) <->
                  (exists x, sv_works s !! id = Some x /\ aw_conn x = Some k)).
Proof.
  intros Hw Hh Hn Ha Hm. destruct (worker_serves es Hw Hh Hn Ha Hm) as (N & es1 & s & Hrun & Hu & [Hi Hl]). exists N, es1, s.
  split_and!; [done | done | |].
  - intros k p Hp. by destruct (iv_wf _ _ _ Hi k p Hp) as (H1 & H2 & _).
  - intros k id. split; [intros (p & Hp & Ep); by eapply (iv_work _ _ _ Hi) | intros (x & Hx & Ex); by eapply (iv_pend _ _ _ Hi)].
Qed.
End Start.
End Spec.

(** * A worker with one client *)

#[global] Instance no_cluster : ClusterOps Empty_set :=
  {| cluster_replicate := fun _ (c : Empty_set) => match c with end;
     cluster_proposal_status := fun (c : Empty_set) _ => match c with end;
     cluster_should_throttle := fun (c : Empty_set) => match c with end |}.

Definition demo_method (ch class method : Z) (args : bytes) : bytes := frame_bytes BMQP_FRAME_METHOD ch ([0; class; 0; method] ++ args).
Definition demo_str (s : bytes) : bytes := Z.of_nat (length s) :: s.
Definition demo_long (b : bytes) : bytes := be_encode 4 (Z.of_nat (length b)) ++ b.

(** The handshake, a channel, a queue, a publish in two body frames and a get. *)
Definition demo_login : bytes :=
  AMQP_PROTOCOL_HEADER ++
  demo_method 0 10 11 (demo_long [] ++ demo_str (cstr "PLAIN") ++ demo_long ([0] ++ cstr "guest" ++ [0] ++ cstr "guest") ++ demo_str (cstr "en")) ++
  demo_method 0 10 31 ([0; 10] ++ be_encode 4 4096 ++ [0; 0]) ++
  demo_method 0 10 40 (demo_str (cstr "/") ++ demo_str [] ++ [0]) ++ demo_method 1 20 10 (demo_str []).
Definition demo_declare : bytes := demo_method 1 50 10 ([0; 0] ++ demo_str (cstr "jobs") ++ [0] ++ demo_long []).
Definition demo_publish : bytes :=
  demo_method 1 60 40 ([0; 0] ++ demo_str [] ++ demo_str (cstr "jobs") ++ [1]) ++
  frame_bytes BMQP_FRAME_HEADER 1 ([0; 60; 0; 0] ++ be_encode 8 5 ++ [0; 0]) ++
  frame_bytes BMQP_FRAME_BODY 1 [1; 2] ++ frame_bytes BMQP_FRAME_BODY 1 [3; 4; 5].
Definition demo_get : bytes := demo_method 1 60 70 ([0; 0] ++ demo_str (cstr "jobs") ++ [0]).

Definition demo_session : list callback :=
  [cb_connection true (Some (cstr "10.0.0.1", 5672)); cb_read 1 (Some (take 40 demo_login)); cb_read 1 (Some (drop 40 demo_login));
   cb_read 1 (Some (demo_declare ++ demo_publish)); cb_read 1 (Some demo_get)] ++
  replicate 9 (cb_write 1 0) ++ [cb_read 1 None; cb_closed 1; cb_closed 1].

Definition demo_worker : beaver_server (hashmap positive) Empty_set := worker_start demo_start None None 100 0 1000 [] [].
Definition any_regex (_ _ : bytes) : bool := true.

Lemma server_safe_witness :
  exists N es1 s, (forall fuel, (N <= fuel)%nat -> serve any_regex fuel es1 demo_worker = Some s) /\ up_to_wait any_regex es1 demo_session s /\ d_fault (sv_d s) = false.
Proof.
  destruct (server_safe any_regex 1 demo_world demo_net demo_net demo_start None (@None Empty_set) 100 0 1000 [] [] [] [] demo_session)
    as (N & es1 & s & H1 & Hu & H2 & _).
  - exact demo_world_ok.
  - exact demo_quiet.
  - exact demo_new.
  - discriminate.
  - lia.
  - exists N, es1, s. split; [exact H1 | split; [exact Hu | exact H2]].
Defined.

Lemma proto_well_formed_witness :
  exists N es1 s, (forall fuel, (N <= fuel)%nat -> serve any_regex fuel es1 demo_worker = Some s) /\ up_to_wait any_regex es1 (take 5 demo_session) s /\
    (forall k p, sv_protos s !! k = Some p -> proto_wf p /\ is_Some (d_conns (sv_d s) !! k)).
Proof.
  destruct (proto_well_formed any_regex 1 demo_world demo_net demo_net demo_start None (@None Empty_set) 100 0 1000 [] [] [] [] (take 5 demo_session))
    as (N & es1 & s & H1 & Hu & H2 & _).
  - exact demo_world_ok.
  - exact demo_quiet.
  - exact demo_new.
  - discriminate.
  - lia.
  - exists N, es1, s. split; [exact H1 | split; [exact Hu | exact H2]].
Defined.

(** The connections that exist, the messages they hold for acks, and those queued. *)
Definition demo_view (s : beaver_server (hashmap positive) Empty_set) : list positive * nat * nat * nat :=
  (sv_conns s, size (d_conns (sv_d s)), length (gather proto_msgs (sv_protos s)), length (messages_of (st_queues (d_store (sv_d s))))).

(** The session evaluates: after the get the connection holds the message; at the end
    nothing of the connection is left and the message is back in its queue. *)
Example demo_session_runs :
  demo_view <$> serve any_regex 60 (take 5 demo_session) demo_worker = Some ([1%positive], 1%nat, 1%nat, 0%nat) /\
  demo_view <$> serve any_regex 60 demo_session demo_worker = Some ([], 0%nat, 0%nat, 1%nat).
Proof. split; vm_compute; reflexivity. Qed.

(** A client that publishes while memory is short is blocked; once it is not, the
    throttle timer resumes it when the write succeeds, and waits for ever when it fails. *)
Definition demo_short : world (hashmap positive) := demo_world <| w_store ::= fun st => st <| st_sys ::= queue_set_memory_watermark 1000 |> |>.
Definition demo_blocked : option (beaver_server (hashmap positive) Empty_set) :=
  serve any_regex 60 (take 3 demo_session ++ [cb_memory 2000; cb_read 1 (Some (demo_declare ++ demo_publish)); cb_memory 100])
    (demo_worker <| sv_d ::= fun d => d <| d_world := demo_short |> |>).
Definition demo_resumed (uv_ : list uv_result) : option (option bool) :=
  s ← demo_blocked;
  Some (r ← serve any_regex 60 [cb_throttle] (s <| sv_d ::= fun d => d <| d_net ::= fun n => n <| n_uv := uv_ |> |> |>);
        p ← sv_protos r !! 1%positive; Some (pr_conn_blocked p)).

Example throttle_timer_waits : demo_resumed [] = Some (Some false) /\ demo_resumed [uv_error 32] = Some None.
Proof. split; vm_compute; reflexivity. Qed.
