(* ===== verification/ClusterWire.v ===== *)
(** The codecs of the cluster: big-endian integers, CRC-32, frame headers and the
    operations that are replicated (src/src/cluster.c, src/include/cluster.h).

    A write through a cursor ([put_be32(w, v); w += 4]) is the list of the bytes it
    writes; a read through a cursor returns the bytes that are left.  The table of
    the CRC is filled the same way whenever [crc_build] runs, so it is a constant. *)

From S2P Require Import Prelude CLib Frame Crypto.

(** * Constants *)

Definition CLUSTER_MAX_NODES : Z := 5.
Definition CLUSTER_HDR_SIZE : Z := 16.
Definition CLUSTER_FRAME_MAGIC : Z := 0xB7.
Definition CLUSTER_PROTO_VERSION : Z := 1.
Definition CLUSTER_MAX_PAYLOAD : Z := 16 * 1024 * 1024.

Definition CL_FRAME_HELLO : Z := 1.
Definition CL_FRAME_HELLO_ACK : Z := 2.
Definition CL_FRAME_PREVOTE : Z := 10.
Definition CL_FRAME_PREVOTE_RESP : Z := 11.
Definition CL_FRAME_VOTE_REQ : Z := 12.
Definition CL_FRAME_VOTE_RESP : Z := 13.
Definition CL_FRAME_APPEND : Z := 14.
Definition CL_FRAME_APPEND_RESP : Z := 15.
Definition CL_FRAME_FORWARD : Z := 16.
Definition CL_FRAME_STATUS : Z := 17.
Definition CL_FRAME_SNAP_BEGIN : Z := 18.
Definition CL_FRAME_SNAP_CHUNK : Z := 19.
Definition CL_FRAME_ROUTE_HINT : Z := 20.
Definition CL_FRAME_SNAP_END : Z := 21.
Definition CL_FRAME_SNAP_ACK : Z := 22.
Definition CL_FRAME_FORWARD_ACK : Z := 23.

Definition CL_OP_NOOP : Z := 0.
Definition CL_OP_PUBLISH : Z := 1.
Definition CL_OP_DECLARE_QUEUE : Z := 2.
Definition CL_OP_DECLARE_EXCH : Z := 3.
Definition CL_OP_BIND : Z := 4.
Definition CL_OP_ACK : Z := 5.
Definition CL_OP_ADD_VHOST : Z := 6.
Definition CL_OP_DEL_VHOST : Z := 7.
Definition CL_OP_ADD_USER : Z := 8.
Definition CL_OP_DEL_USER : Z := 9.
Definition CL_OP_SET_PERM : Z := 10.
Definition CL_OP_CLEAR_PERM : Z := 11.
Definition CL_OP_DELETE_QUEUE : Z := 12.

(** * Big-endian integers *)

Definition put_be32 (v : Z) : bytes := [u8 (v ≫ 24); u8 (v ≫ 16); u8 (v ≫ 8); u8 v].

Definition get_be32 (p : bytes) : Z :=
  match p with
  | a :: b :: c :: d :: _ => Z.lor (Z.lor (Z.lor (a ≪ 24) (b ≪ 16)) (c ≪ 8)) d
  | _ => 0
  end.

Definition put_be64 (v : Z) : bytes := put_be32 (u32 (v ≫ 32)) ++ put_be32 (u32 v).

Definition get_be64 (p : bytes) : Z := Z.lor (get_be32 p ≪ 32) (get_be32 (drop 4 p)).

(** * CRC-32 *)

Fixpoint crc_bits (k : nat) (c : Z) : Z :=
  match k with
  | O => c
  | S k => crc_bits k (if Z.land c 1 =? 0 then c ≫ 1 else Z.lxor 0xEDB88320 (c ≫ 1))
  end.

Definition crc_build : list Z := (fun i => crc_bits 8 (Z.of_nat i)) <$> seq 0 256.

Definition s_crc_tab : list Z := Eval vm_compute in crc_build.

Definition crc_step (c b : Z) : Z := Z.lxor (default 0 (s_crc_tab !! Z.to_nat (Z.land (Z.lxor c b) 0xFF))) (c ≫ 8).

Definition cluster_crc32 (data : bytes) : Z := Z.lxor (foldl crc_step 0xFFFFFFFF data) 0xFFFFFFFF.

(** * Frame headers *)

Record cluster_frame_hdr_t := Hdr {
  h_magic : Z; h_version : Z; h_type : Z; h_flags : Z; h_term : Z; h_length : Z; h_crc32 : Z
}.

Definition cluster_hdr_pack (h : cluster_frame_hdr_t) : bytes :=
  [h_magic h; h_version h; h_type h; h_flags h] ++ put_be32 (h_term h) ++ put_be32 (h_length h) ++ put_be32 (h_crc32 h).

(** The header at the front of [p]; [None] is the result -1. *)
Definition cluster_hdr_parse (p : bytes) : option cluster_frame_hdr_t :=
  if Z.of_nat (length p) <? CLUSTER_HDR_SIZE then None
  else
    let h := Hdr (default 0 (p !! 0%nat)) (default 0 (p !! 1%nat)) (default 0 (p !! 2%nat)) (default 0 (p !! 3%nat))
               (get_be32 (drop 4 p)) (get_be32 (drop 8 p)) (get_be32 (drop 12 p)) in
    if negb (h_magic h =? CLUSTER_FRAME_MAGIC) || negb (h_version h =? CLUSTER_PROTO_VERSION) then None
    else if CLUSTER_MAX_PAYLOAD <? h_length h then None
    else Some h.

(** A frame and the bytes [cl_send] writes for it. *)
Record mesh_frame := Fr { fr_hdr : cluster_frame_hdr_t; fr_payload : bytes }.

Definition cl_frame (type flags term : Z) (payload : bytes) : mesh_frame :=
  Fr (Hdr CLUSTER_FRAME_MAGIC CLUSTER_PROTO_VERSION type flags term (u32 (Z.of_nat (length payload))) (cluster_crc32 payload)) payload.

Definition fr_bytes (f : mesh_frame) : bytes := cluster_hdr_pack (fr_hdr f) ++ fr_payload f.

(** * Reading and writing operations *)

Definition wr8 (v : Z) : bytes := [u8 v].
Definition wr16 (v : Z) : bytes := [u8 (v ≫ 8); u8 v].
Definition wr32 (v : Z) : bytes := put_be32 v.
Definition wr_str (s : bytes) : bytes :=
  let n := u16 (Z.of_nat (length s)) in wr16 n ++ take (Z.to_nat n) s.

Definition rd8 (p : bytes) : Z * bytes := match p with b :: p => (b, p) | [] => (0, []) end.
Definition rd16 (p : bytes) : Z * bytes := match p with a :: b :: p => (Z.lor (a ≪ 8) b, p) | _ => (0, []) end.
Definition rd32 (p : bytes) : Z * bytes := if (length p <? 4)%nat then (0, []) else (get_be32 p, drop 4 p).

(** A string into a buffer of [outsz] bytes, as the C string it holds. *)
Definition rd_str (outsz : Z) (p : bytes) : option bytes * bytes :=
  let '(n, p) := rd16 p in
  if (Z.of_nat (length p) <? n) || (outsz <=? n) then (None, p) else (Some (c_string (take (Z.to_nat n) p)), drop (Z.to_nat n) p).

(** Several strings in a row; the first that fails ends the evaluation. *)
Fixpoint rd_strs (k : nat) (outsz : Z) (p : bytes) : option (list bytes * bytes) :=
  match k with
  | O => Some ([], p)
  | S k =>
      let '(s, p) := rd_str outsz p in
      s ← s;
      '(l, p) ← rd_strs k outsz p;
      Some (s :: l, p)
  end.

(** Names longer than 250 bytes are refused. *)
Definition names_fit (l : list bytes) : bool := forallb (fun s => (length s <=? 250)%nat) l.

(** * The operations that are replicated *)

Definition enc_declare_queue (vhost name : bytes) (flags overflow max_length max_bytes : Z) (dlx dlx_rkey : bytes) : option bytes :=
  if names_fit [vhost; name; dlx; dlx_rkey] then
    Some (wr8 flags ++ wr_str vhost ++ wr_str name ++ wr8 overflow ++ put_be64 max_length ++ put_be64 max_bytes ++ wr_str dlx ++ wr_str dlx_rkey)
  else None.

Definition enc_declare_exchange (vhost name : bytes) (type flags : Z) : option bytes :=
  if names_fit [vhost; name] then Some (wr8 type ++ wr8 flags ++ wr_str vhost ++ wr_str name) else None.

Definition enc_strings (l : list bytes) : option bytes := if names_fit l then Some (l ≫= wr_str) else None.

Definition encode_publish_op (vhost exchange routing_key body props : bytes) : option bytes :=
  if names_fit [vhost; exchange; routing_key] then
    Some (wr_str vhost ++ wr_str exchange ++ wr_str routing_key ++ put_be32 (u32 (Z.of_nat (length props))) ++ props ++
          put_be32 (u32 (Z.of_nat (length body))) ++ body)
  else None.

Definition enc_consume (vhost queue : bytes) (watermark : Z) : option bytes :=
  if names_fit [vhost; queue] then Some (wr_str vhost ++ wr_str queue ++ put_be64 watermark) else None.

Definition enc_add_user (user pass_hash : bytes) (tags : Z) : option bytes :=
  if names_fit [user; pass_hash] then Some (wr_str user ++ wr_str pass_hash ++ wr32 tags) else None.

(** * The integers *)

Lemma put_be32_encode v : put_be32 v = be_encode 4 v.
Proof. unfold put_be32. cbn. by rewrite Z.shiftr_0_r. Qed.

Lemma put_be32_length v : length (put_be32 v) = 4%nat.
Proof. done. Qed.

Lemma put_be64_length v : length (put_be64 v) = 8%nat.
Proof. done. Qed.

Lemma put_be32_ok v : bytes_ok (put_be32 v).
Proof. rewrite put_be32_encode. apply be_encode_ok. Qed.
#[export] Hint Resolve put_be32_ok : bmq.

Lemma put_be64_ok v : bytes_ok (put_be64 v).
Proof. apply Forall_app. eauto with bmq. Qed.
#[export] Hint Resolve put_be64_ok : bmq.

Lemma get_be32_decode a b c d p : bytes_ok [a; b; c; d] -> get_be32 (a :: b :: c :: d :: p) = be_decode [a; b; c; d].
Proof.
  intros H. rewrite !Forall_cons in H. destruct H as (Ha & Hb & Hc & Hd & _). unfold get_be32.
  rewrite <- (load32_decode a b c d) by done. by rewrite !u32_shift by (done || lia).
Qed.

Lemma get_put_be32 v r : 0 <= v < 2 ^ 32 -> get_be32 (put_be32 v ++ r) = v.
Proof.
  intros Hv. unfold put_be32. cbn [app]. rewrite get_be32_decode by (repeat constructor; apply u8_byte_ok).
  change (be_decode (put_be32 v) = v). rewrite put_be32_encode, be_decode_encode. change (256 ^ Z.of_nat 4) with (2 ^ 32). by apply Z.mod_small.
Qed.

Lemma u32_range z : 0 <= u32 z < 2 ^ 32.
Proof. apply (wrap_range 32). lia. Qed.

Lemma u32_small z : 0 <= z < 2 ^ 32 -> u32 z = z.
Proof. apply wrap_small. Qed.

Lemma get_put_be64 v r : 0 <= v < 2 ^ 64 -> get_be64 (put_be64 v ++ r) = v.
Proof.
  intros Hv. unfold get_be64, put_be64. rewrite <- app_assoc. rewrite get_put_be32 by apply u32_range.
  change (drop 4 (put_be32 (u32 (v ≫ 32)) ++ put_be32 (u32 v) ++ r)) with (put_be32 (u32 v) ++ r).
  rewrite get_put_be32 by apply u32_range. rewrite lor_shiftl_low by (lia || apply u32_range).
  unfold u32, wrap. rewrite Z.shiftr_div_pow2 by lia. change (2 ^ 64) with (2 ^ 32 * 2 ^ 32) in Hv.
  rewrite (Z.mod_small (v / 2 ^ 32)) by (split; [apply Z.div_pos; lia | apply Z.div_lt_upper_bound; lia]). rewrite Z.mul_comm. symmetry. apply Z.div_mod. lia.
Qed.

Lemma get_be32_range p : bytes_ok p -> 0 <= get_be32 p < 2 ^ 32.
Proof.
  intros H. destruct p as [|a [|b [|c [|d p]]]]; try (cbn; lia). rewrite !Forall_cons in H. destruct H as (Ha & Hb & Hc & Hd & _).
  rewrite get_be32_decode by (by repeat apply Forall_cons_2). apply be_decode_range. by repeat apply Forall_cons_2.
Qed.

(** * The CRC *)

Lemma crc_table i : (i < 256)%nat -> s_crc_tab !! i = Some (crc_bits 8 (Z.of_nat i)).
Proof.
  intros Hi. assert (E : s_crc_tab = crc_build) by (vm_compute; reflexivity). rewrite E. unfold crc_build.
  rewrite list_lookup_fmap, lookup_seq_lt by done. done.
Qed.

Definition crc_bit (c : Z) : Z := if Z.land c 1 =? 0 then c ≫ 1 else Z.lxor 0xEDB88320 (c ≫ 1).

Lemma land_1_eqb c : (Z.land c 1 =? 0) = negb (Z.testbit c 0).
Proof. change 1 with (Z.ones 1) at 1. rewrite Z.land_ones by lia. change (2 ^ 1) with 2. rewrite <- Z.bit0_mod. by destruct (Z.testbit c 0). Qed.

Lemma crc_bit_lxor a b : crc_bit (Z.lxor a b) = Z.lxor (crc_bit a) (crc_bit b).
Proof.
  unfold crc_bit. rewrite !land_1_eqb, Z.lxor_spec, Z.shiftr_lxor. set (P := 0xEDB88320). clearbody P.
  destruct (Z.testbit a 0), (Z.testbit b 0); cbn [xorb negb]; [| | |done]; apply Z.bits_inj'; intros n Hn; rewrite !Z.lxor_spec;
    destruct (Z.testbit P n), (Z.testbit (a ≫ 1) n), (Z.testbit (b ≫ 1) n); done.
Qed.

Lemma crc_bits_S k c : crc_bits (S k) c = crc_bits k (crc_bit c).
Proof. done. Qed.

Lemma crc_bits_lxor k a b : crc_bits k (Z.lxor a b) = Z.lxor (crc_bits k a) (crc_bits k b).
Proof. revert a b. induction k as [|k IH]; intros a b; [done|]. by rewrite !crc_bits_S, crc_bit_lxor, IH. Qed.

Lemma crc_bits_add j k c : crc_bits (j + k) c = crc_bits k (crc_bits j c).
Proof. revert c. induction j as [|j IH]; intros c; [done|]. cbn [Nat.add]. by rewrite !crc_bits_S, IH. Qed.

(** The bits above the processed ones are moved down. *)
Lemma crc_bits_shiftl k c : crc_bits k (c ≪ Z.of_nat k) = c.
Proof.
  induction k as [|k IH]; [by rewrite Z.shiftl_0_r|]. rewrite crc_bits_S. unfold crc_bit. rewrite land_1_eqb.
  rewrite Z.shiftl_spec_low by lia. cbn [negb]. rewrite Z.shiftr_shiftl_r by lia.
  replace (1 - Z.of_nat (S k)) with (- Z.of_nat k) by lia. by rewrite Z.shiftr_opp_r, IH.
Qed.

Lemma split_low c k : 0 <= k -> c = Z.lxor (Z.land c (Z.ones k)) ((c ≫ k) ≪ k).
Proof.
  intros Hk. apply Z.bits_inj'. intros n Hn. rewrite Z.lxor_spec, Z.land_spec, Z.shiftl_spec by done. destruct (Z.lt_ge_cases n k).
  - rewrite Z.ones_spec_low, (Z.testbit_neg_r _ (n - k)) by lia. by rewrite andb_true_r, xorb_false_r.
  - rewrite Z.ones_spec_high by lia. rewrite andb_false_r, xorb_false_l, Z.shiftr_spec by lia. f_equal. lia.
Qed.

(** The table computes eight steps of the division at once. *)
Lemma crc_step_bits c b : byte_ok b -> 0 <= c -> crc_step c b = crc_bits 8 (Z.lxor c b).
Proof.
  intros Hb Hc. unfold crc_step. set (x := Z.lxor c b). assert (Hx : 0 <= x) by (apply Z.lxor_nonneg; unfold byte_ok in Hb; lia).
  change 0xFF with (Z.ones 8). pose proof (Z.mod_pos_bound x (2 ^ 8) ltac:(lia)). rewrite Z.land_ones by lia.
  rewrite crc_table by lia. cbn [default from_option id]. rewrite Z2Nat.id by lia. rewrite <- Z.land_ones by lia.
  replace (c ≫ 8) with (x ≫ 8).
  - rewrite (split_low x 8) at 3 by lia. rewrite crc_bits_lxor. f_equal. symmetry. apply (crc_bits_shiftl 8).
  - unfold x. rewrite Z.shiftr_lxor. rewrite (Z.shiftr_div_pow2 b) by lia. unfold byte_ok in Hb. rewrite Z.div_small by lia. by rewrite Z.lxor_0_r.
Qed.

Lemma below_shiftr n x : 0 <= n -> 0 <= x -> x < 2 ^ n <-> x ≫ n = 0.
Proof.
  intros Hn Hx. rewrite Z.shiftr_div_pow2 by done. assert (0 < 2 ^ n) by (by apply Z.pow_pos_nonneg). split; [intros; by apply Z.div_small|].
  intros E. apply Z.div_small_iff in E; lia.
Qed.

Lemma lxor_below n a b : 0 <= n -> 0 <= a < 2 ^ n -> 0 <= b < 2 ^ n -> 0 <= Z.lxor a b < 2 ^ n.
Proof.
  intros Hn [Ha Ha'] [Hb Hb']. assert (0 <= Z.lxor a b) by (apply Z.lxor_nonneg; lia). split; [done|].
  apply below_shiftr in Ha', Hb'; [|done..]. apply below_shiftr; [done..|]. by rewrite Z.shiftr_lxor, Ha', Hb'.
Qed.

Definition crc_ok (c : Z) : Prop := 0 <= c < 2 ^ 32.

Lemma crc_bit_ok c : crc_ok c -> crc_ok (crc_bit c).
Proof.
  unfold crc_ok. intros H. assert (Hs : 0 <= c ≫ 1 < 2 ^ 32).
  { rewrite Z.shiftr_div_pow2 by lia. change (2 ^ 1) with 2. pose proof (Z.div_le_upper_bound c 2 c). pose proof (Z.div_pos c 2). lia. }
  unfold crc_bit. destruct (_ =? _); [done | by apply lxor_below].
Qed.

Lemma crc_bits_ok k c : crc_ok c -> crc_ok (crc_bits k c).
Proof. revert c. induction k as [|k IH]; intros c H; [done|]. rewrite crc_bits_S. by apply IH, crc_bit_ok. Qed.

Lemma crc_bit_inj a b : crc_ok a -> crc_ok b -> crc_bit a = crc_bit b -> a = b.
Proof.
  assert (Htop : forall c, crc_ok c -> Z.testbit (crc_bit c) 31 = Z.testbit c 0).
  { unfold crc_ok. intros c Hc. assert (Hs : Z.testbit (c ≫ 1) 31 = false).
    { rewrite Z.shiftr_spec by lia. rewrite Z.testbit_false by lia. rewrite Z.div_small by lia. done. }
    unfold crc_bit. rewrite land_1_eqb. destruct (Z.testbit c 0); cbn [negb]; [|done]. rewrite Z.lxor_spec, Hs. done. }
  intros Ha Hb E. assert (E0 : Z.testbit a 0 = Z.testbit b 0) by (rewrite <- !Htop by done; by rewrite E).
  unfold crc_bit in E. rewrite !land_1_eqb, <- E0 in E. assert (E1 : a ≫ 1 = b ≫ 1).
  { destruct (Z.testbit a 0); cbn [negb] in E; [|done]. apply (f_equal (Z.lxor 0xEDB88320)) in E. by rewrite <- !Z.lxor_assoc, !Z.lxor_nilpotent, !Z.lxor_0_l in E. }
  apply Z.bits_inj'. intros n Hn. destruct (decide (n = 0)) as [->|]; [done|]. apply (f_equal (fun x => Z.testbit x (n - 1))) in E1.
  rewrite !Z.shiftr_spec in E1 by lia. by replace (n - 1 + 1) with n in E1 by lia.
Qed.

Lemma crc_bits_inj k : forall a b, crc_ok a -> crc_ok b -> crc_bits k a = crc_bits k b -> a = b.
Proof.
  induction k as [|k IH]; intros a b Ha Hb E; [done|]. rewrite !crc_bits_S in E. apply IH in E; [|by apply crc_bit_ok..]. by apply crc_bit_inj.
Qed.

(** The message as a number, its first byte lowest. *)
Definition le_word (bs : bytes) : Z := foldr (fun b acc => Z.lxor b (acc ≪ 8)) 0 bs.

Lemma le_word_lt bs : bytes_ok bs -> 0 <= le_word bs < 2 ^ (8 * Z.of_nat (length bs)).
Proof.
  induction 1 as [|b bs Hb _ IH]; [done|]. cbn [length le_word foldr]. fold (le_word bs). replace (8 * Z.of_nat (S (length bs))) with (8 * Z.of_nat (length bs) + 8) by lia.
  unfold byte_ok in Hb. apply lxor_below; [lia | |].
  - split; [lia|]. apply Z.lt_le_trans with (2 ^ 8); [lia | apply Z.pow_le_mono_r; lia].
  - rewrite Z.shiftl_mul_pow2, Z.pow_add_r by lia. nia.
Qed.

Lemma le_word_inj a : forall b, bytes_ok a -> bytes_ok b -> length a = length b -> le_word a = le_word b -> a = b.
Proof.
  induction a as [|x a IH]; intros [|y b] Ha Hb Hl E; try done. apply Forall_cons in Ha as [Hx Ha], Hb as [Hy Hb]. injection Hl as Hl.
  cbn [le_word foldr] in E. fold (le_word a) (le_word b) in E.
  assert (Hlow : forall z w n, byte_ok z -> 0 <= n < 8 -> Z.testbit (Z.lxor z (w ≪ 8)) n = Z.testbit z n).
  { intros z w n Hz Hn. rewrite Z.lxor_spec, Z.shiftl_spec_low by lia. by rewrite xorb_false_r. }
  assert (Ez : forall z w, byte_ok z -> Z.lxor z (w ≪ 8) ≫ 8 = w).
  { intros z w Hz. unfold byte_ok in Hz. rewrite Z.shiftr_lxor, (Z.shiftr_div_pow2 z), Z.div_small by lia. rewrite Z.shiftr_shiftl_r by lia.
    change (8 - 8) with 0. by rewrite Z.shiftr_0_r, Z.lxor_0_l. }
  assert (le_word a = le_word b) by (rewrite <- (Ez x (le_word a)), <- (Ez y (le_word b)) by done; by rewrite E).
  f_equal; [|by apply IH]. apply Z.bits_inj'. intros n Hn. destruct (Z.lt_ge_cases n 8).
  - rewrite <- (Hlow x (le_word a)), <- (Hlow y (le_word b)) by done. by rewrite E.
  - unfold byte_ok in *. rewrite <- (Z.mod_small x (2 ^ 8)), <- (Z.mod_small y (2 ^ 8)) by lia.
    by rewrite !Z.mod_pow2_bits_high by lia.
Qed.

Lemma crc_fold_bits bs : forall c, bytes_ok bs -> 0 <= c -> foldl crc_step c bs = crc_bits (8 * length bs) (Z.lxor c (le_word bs)).
Proof.
  induction bs as [|b bs IH]; intros c Hbs Hc; [cbn; by rewrite Z.lxor_0_r|]. apply Forall_cons in Hbs as [Hb Hbs]. cbn [foldl].
  assert (Hcb : 0 <= Z.lxor c b) by (apply Z.lxor_nonneg; unfold byte_ok in Hb; lia).
  assert (Hn : 0 <= crc_bits 8 (Z.lxor c b)).
  { rewrite <- crc_step_bits by done. unfold crc_step. rewrite Z.lxor_nonneg, Z.shiftr_nonneg. split; [done|intros _].
    destruct (s_crc_tab !! _) as [v|] eqn:E; [|done]. cbn. pose proof (lookup_lt_Some _ _ _ E) as Hlt. change (length s_crc_tab) with 256%nat in Hlt.
    rewrite crc_table in E by done. injection E as <-. apply (crc_bits_ok 8). unfold crc_ok. lia. }
  rewrite crc_step_bits, IH by done. cbn [length le_word foldr]. fold (le_word bs).
  replace (8 * S (length bs))%nat with (8 + 8 * length bs)%nat by lia. rewrite crc_bits_add. f_equal.
  rewrite <- Z.lxor_assoc, (crc_bits_lxor 8 (Z.lxor c b)). f_equal. symmetry. apply (crc_bits_shiftl 8).
Qed.

Lemma crc_fold_ok bs : forall c, bytes_ok bs -> crc_ok c -> crc_ok (foldl crc_step c bs).
Proof.
  induction bs as [|b bs IH]; intros c Hbs Hc; [done|]. apply Forall_cons in Hbs as [Hb Hbs]. cbn [foldl]. apply IH; [done|].
  rewrite crc_step_bits by (done || apply Hc). apply crc_bits_ok. apply lxor_below; [lia | done | unfold byte_ok in Hb; lia].
Qed.

Lemma crc_fold_inj bs : forall c c', bytes_ok bs -> crc_ok c -> crc_ok c' -> foldl crc_step c bs = foldl crc_step c' bs -> c = c'.
Proof.
  induction bs as [|b bs IH]; intros c c' Hbs Hc Hc' E; [done|]. apply Forall_cons in Hbs as [Hb Hbs]. cbn [foldl] in E.
  assert (Hok : forall c, crc_ok c -> crc_ok (Z.lxor c b)) by (intros; apply lxor_below; [lia | done | unfold byte_ok in Hb; lia]).
  assert (Hst : forall c, crc_ok c -> crc_ok (crc_step c b)) by (intros x Hx; rewrite crc_step_bits by (done || apply Hx); apply crc_bits_ok; auto).
  apply IH in E; auto. rewrite !crc_step_bits in E by (done || apply Hc || apply Hc'). apply crc_bits_inj in E; auto.
  apply (f_equal (fun x => Z.lxor x b)) in E. by rewrite !Z.lxor_assoc, !Z.lxor_nilpotent, !Z.lxor_0_r in E.
Qed.

(** C40: a change inside four consecutive bytes changes the CRC. *)
Lemma crc32_burst a x y r :
  bytes_ok (a ++ x ++ r) -> bytes_ok y -> length x = length y -> (length x <= 4)%nat -> x <> y ->
  cluster_crc32 (a ++ x ++ r) <> cluster_crc32 (a ++ y ++ r).
Proof.
  rewrite !Forall_app. intros (Ha & Hx & Hr) Hy Hl H4 Hne E. apply Hne. unfold cluster_crc32 in E. rewrite !foldl_app in E.
  apply (f_equal (fun z => Z.lxor z 0xFFFFFFFF)) in E. rewrite !Z.lxor_assoc, !Z.lxor_nilpotent, !Z.lxor_0_r in E.
  assert (Hc : crc_ok (foldl crc_step 0xFFFFFFFF a)) by (apply crc_fold_ok; [done | unfold crc_ok; lia]).
  set (c := foldl crc_step 0xFFFFFFFF a) in *. clearbody c. apply crc_fold_inj in E; [|done | by apply crc_fold_ok..].
  rewrite !crc_fold_bits, <- Hl in E by (done || apply Hc).
  assert (Hw : forall w, bytes_ok w -> (length w <= 4)%nat -> crc_ok (Z.lxor c (le_word w))).
  { intros w Hw Hlw. apply lxor_below; [lia | done|]. pose proof (le_word_lt w Hw). split; [lia|].
    apply Z.lt_le_trans with (2 ^ (8 * Z.of_nat (length w))); [lia | apply Z.pow_le_mono_r; lia]. }
  apply crc_bits_inj in E; [|apply Hw; lia || done..]. apply (f_equal (Z.lxor c)) in E.
  rewrite <- !Z.lxor_assoc, !Z.lxor_nilpotent, !Z.lxor_0_l in E. by apply le_word_inj.
Qed.

Lemma crc32_burst_witness : cluster_crc32 [1; 2; 3] <> cluster_crc32 [1; 9; 3].
Proof. apply (crc32_burst [1] [2] [9] [3]); [repeat constructor; lia | repeat constructor; lia | reflexivity | simpl; lia | discriminate]. Defined.

(** * Headers and strings *)

Record hdr_ok (h : cluster_frame_hdr_t) : Prop := HdrOk {
  ho_magic : h_magic h = CLUSTER_FRAME_MAGIC;
  ho_version : h_version h = CLUSTER_PROTO_VERSION;
  ho_term : 0 <= h_term h < 2 ^ 32;
  ho_length : 0 <= h_length h <= CLUSTER_MAX_PAYLOAD;
  ho_crc : 0 <= h_crc32 h < 2 ^ 32
}.

Lemma hdr_pack_length h : length (cluster_hdr_pack h) = 16%nat.
Proof. done. Qed.

Lemma hdr_pack_parse h r : hdr_ok h -> cluster_hdr_parse (cluster_hdr_pack h ++ r) = Some h.
Proof.
  intros [H1 H2 H3 H4 H5]. unfold cluster_hdr_parse.
  destruct (Z.ltb_spec (Z.of_nat (length (cluster_hdr_pack h ++ r))) CLUSTER_HDR_SIZE) as [Hl|_].
  { rewrite length_app, hdr_pack_length in Hl. unfold CLUSTER_HDR_SIZE in Hl. lia. }
  assert (E1 : get_be32 (drop 4 (cluster_hdr_pack h ++ r)) = h_term h) by (apply (get_put_be32 (h_term h)); lia).
  assert (E2 : get_be32 (drop 8 (cluster_hdr_pack h ++ r)) = h_length h) by (apply (get_put_be32 (h_length h)); unfold CLUSTER_MAX_PAYLOAD in H4; lia).
  assert (E3 : get_be32 (drop 12 (cluster_hdr_pack h ++ r)) = h_crc32 h) by (apply (get_put_be32 (h_crc32 h)); lia).
  rewrite E1, E2, E3. cbn [lookup list_lookup cluster_hdr_pack app default from_option id h_magic h_version h_length]. rewrite H1, H2.
  destruct (Z.ltb_spec CLUSTER_MAX_PAYLOAD (h_length h)); [lia|]. cbn. destruct h. cbn in *. by subst.
Qed.

(** A C string that fits the names of an operation. *)
Definition name_fits (s : bytes) : Prop := Forall (fun b => 0 < b < 256) s /\ (length s <= 250)%nat.

#[global] Instance name_fits_dec s : Decision (name_fits s) := _.

Lemma rd16_wr16 n r : 0 <= n < 2 ^ 16 -> rd16 (wr16 n ++ r) = (n, r).
Proof.
  intros Hn. unfold wr16. cbn [app rd16]. f_equal. rewrite lor_shiftl_low by (lia || apply u8_range). unfold u8, wrap. rewrite Z.shiftr_div_pow2 by lia.
  rewrite (Z.mod_small (n / 2 ^ 8)) by (split; [apply Z.div_pos; lia | apply Z.div_lt_upper_bound; lia]). rewrite Z.mul_comm. symmetry. apply Z.div_mod. lia.
Qed.

Lemma wr_str_bytes s : name_fits s -> wr_str s = wr16 (Z.of_nat (length s)) ++ s.
Proof.
  intros [_ Hl]. unfold wr_str. set (n := Z.of_nat (length s)). assert (Hn : u16 n = n) by (apply wrap_small; unfold n; lia). rewrite Hn.
  unfold n. by rewrite Nat2Z.id, firstn_all.
Qed.

Lemma wr_rd_str s r : name_fits s -> rd_str 256 (wr_str s ++ r) = (Some s, r).
Proof.
  intros Hf. rewrite wr_str_bytes by done. destruct Hf as [Hs Hl]. unfold rd_str. rewrite <- app_assoc, rd16_wr16 by lia.
  rewrite length_app. destruct (Z.ltb_spec (Z.of_nat (length s + length r)) (Z.of_nat (length s))); [lia|].
  destruct (Z.leb_spec 256 (Z.of_nat (length s))); [lia|]. cbn [orb]. rewrite Nat2Z.id, take_app_length, drop_app_length, c_string_id; [done|].
  eapply Forall_impl; [exact Hs|]. cbn. lia.
Qed.

Lemma wr_rd_strs l r : Forall name_fits l -> rd_strs (length l) 256 ((l ≫= wr_str) ++ r) = Some (l, r).
Proof.
  induction 1 as [|s l Hs _ IH]; [done|]. cbn [length rd_strs mbind list_bind]. fold (l ≫= wr_str).
  rewrite <- app_assoc, wr_rd_str by done. cbn [mbind option_bind]. by rewrite IH.
Qed.
