(* ===== verification/ClusterNode.v ===== *)
(** The state of a cluster node, its files and its log (src/src/cluster.c,
    src/include/cluster.h).

    A node is one thread with its Raft state, the log with its copy on disk, the
    links to its peers and the broker and access-control store to which committed
    operations are applied.  Its code is a [cl]: a computation on [cluster_node]
    whose result [None] means that the call has no defined outcome (it reads memory
    that was freed or never written, or waits for ever for a lock).  The outcomes of
    allocations, of system calls and of writes to a link come from the lists [n_mem],
    [n_io] and [n_uv]; an exhausted list stands for success.  What is sent is
    appended to [n_out]. *)

From S2P Require Import Prelude CLib Crypto AuthStore HashMap Message Queue Store Exchange Broker ClusterWire.

(** * Files *)

(** The bytes of a file; from the end of [f_data] to [f_size] they are zero. *)
Record file := File { f_data : bytes; f_size : Z }.

#[global] Instance file_settable : Settable file := fun f => File (f_data f) (f_size f).

Definition f_empty : file := File [] 0.

(** [pread] of [n] bytes, when so many are there. *)
Definition f_read (f : file) (off n : Z) : option bytes :=
  if off + n <=? f_size f then
    let b := take (Z.to_nat n) (drop (Z.to_nat off) (f_data f)) in
    Some (b ++ replicate (Z.to_nat n - length b) 0)
  else None.

Definition f_write (off : Z) (b : bytes) (f : file) : file :=
  let at_ := Z.to_nat off in
  File (take at_ (f_data f) ++ replicate (at_ - length (f_data f)) 0 ++ b ++ drop (at_ + length b) (f_data f))
       (Z.max (f_size f) (off + Z.of_nat (length b))).

Definition f_truncate (n : Z) (f : file) : file := File (take (Z.to_nat n) (f_data f)) n.

(** [posix_fallocate] up to [n], and the hole that is punched below [n]. *)
Definition f_reserve (n : Z) (f : file) : file := f <| f_size ::= Z.max n |>.
Definition f_punch (n : Z) (f : file) : file :=
  f <| f_data ::= fun d => replicate (Nat.min (Z.to_nat n) (length d)) 0 ++ drop (Z.to_nat n) d |>.

(** The outcome of a system call; a write that fails has written a few bytes. *)
Inductive io_result := io_ok | io_fail (written : nat).

(** * The log *)

(** [e_payload] is [None] for the null pointer. *)
Record cluster_log_entry_t := Entry { e_term : Z; e_index : Z; e_op_type : Z; e_len : Z; e_payload : option bytes }.

#[global] Instance entry_settable : Settable cluster_log_entry_t := fun e =>
  Entry (e_term e) (e_index e) (e_op_type e) (e_len e) (e_payload e).

(** [lg_entries] are the slots in use: the entries after [base_index] up to
    [last_index]. *)
Record cluster_log_t := Log {
  lg_entries : list cluster_log_entry_t;
  lg_cap : Z;
  lg_base_index : Z;
  lg_base_term : Z;
  lg_commit_index : Z;
  lg_applied_index : Z;
  lg_durable_index : Z;
  lg_compacted_to : Z
}.

#[global] Instance log_settable : Settable cluster_log_t := fun l =>
  Log (lg_entries l) (lg_cap l) (lg_base_index l) (lg_base_term l) (lg_commit_index l) (lg_applied_index l)
    (lg_durable_index l) (lg_compacted_to l).

Definition lg_last_index (l : cluster_log_t) : Z := lg_base_index l + Z.of_nat (length (lg_entries l)).

Definition log_zero : cluster_log_t := Log [] 0 0 0 0 0 0 0.

(** The files of the log; a cell of the offset table that was never written is
    [None], and the table has [off_cap] cells. *)
Record cl_persist_t := Persist {
  ps_log : file;
  ps_meta : file;
  ps_snap : bytes;
  ps_log_size : Z;
  ps_write_pos : Z;
  ps_alloc_size : Z;
  ps_offsets : list (option Z);
  ps_base_index : Z;
  ps_base_offset : Z;
  ps_wbuf : bytes;
  ps_wbuf_cap : Z;
  ps_dirty : bool
}.

#[global] Instance persist_settable : Settable cl_persist_t := fun p =>
  Persist (ps_log p) (ps_meta p) (ps_snap p) (ps_log_size p) (ps_write_pos p) (ps_alloc_size p) (ps_offsets p)
    (ps_base_index p) (ps_base_offset p) (ps_wbuf p) (ps_wbuf_cap p) (ps_dirty p).

(** * Peers *)

Inductive cluster_role_t := CL_ROLE_FOLLOWER | CL_ROLE_CANDIDATE | CL_ROLE_LEADER.
Inductive cluster_health_t := CL_HEALTH_OK | CL_HEALTH_ISOLATED.
Inductive cluster_state_t := CL_STATE_HEALTHY | CL_STATE_SYNCING | CL_STATE_DEGRADED | CL_STATE_NO_QUORUM.
Inductive cluster_link_state_t := CL_LINK_DOWN | CL_LINK_CONNECTING | CL_LINK_HANDSHAKING | CL_LINK_UP.

#[global] Instance role_eq_dec : EqDecision cluster_role_t.
Proof. solve_decision. Defined.
#[global] Instance health_eq_dec : EqDecision cluster_health_t.
Proof. solve_decision. Defined.
#[global] Instance cluster_state_eq_dec : EqDecision cluster_state_t.
Proof. solve_decision. Defined.
#[global] Instance link_state_eq_dec : EqDecision cluster_link_state_t.
Proof. solve_decision. Defined.

(** A state transfer to a peer: the queues and the messages of the current queue,
    with the references that are held. *)
Record snap_t := Snap {
  sn_active : bool;
  sn_base : Z;
  sn_base_term : Z;
  sn_queues : list positive;
  sn_qi : nat;
  sn_msgs : list message;
  sn_mi : nat;
  sn_unacked_chunks : Z;
  sn_end_sent : bool
}.

#[global] Instance snap_settable : Settable snap_t := fun s =>
  Snap (sn_active s) (sn_base s) (sn_base_term s) (sn_queues s) (sn_qi s) (sn_msgs s) (sn_mi s) (sn_unacked_chunks s) (sn_end_sent s).

Definition snap_zero : snap_t := Snap false 0 0 [] 0 [] 0 0 false.

Record cluster_peer_t := Peer {
  p_node_id : Z;
  p_addr : bytes;
  p_have_sa : bool;
  p_link_state : cluster_link_state_t;
  p_outbound : bool;
  p_closing : bool;
  p_link : option positive;             (* the stream of the link *)
  p_reconnect_timer : option Z;
  p_backoff_ms : Z;
  p_next_index : Z;
  p_match_index : Z;
  p_durable_index : Z;
  p_snap : snap_t;
  p_inflight : Z;
  p_rbuf : bytes;
  p_rbuf_cap : Z
}.

#[global] Instance peer_settable : Settable cluster_peer_t := fun p =>
  Peer (p_node_id p) (p_addr p) (p_have_sa p) (p_link_state p) (p_outbound p) (p_closing p) (p_link p) (p_reconnect_timer p)
    (p_backoff_ms p) (p_next_index p) (p_match_index p) (p_durable_index p) (p_snap p) (p_inflight p) (p_rbuf p) (p_rbuf_cap p).

(** A stream of the loop: bound to a peer, an accepted one whose first frame is
    awaited, or one that nobody owns any more. *)
Inductive stream_owner := so_peer (i : nat) | so_inbound (rbuf : bytes) (cap : Z) | so_none.
Record stream := Stream { s_owner : stream_owner; s_closing : bool }.

#[global] Instance stream_settable : Settable stream := fun s => Stream (s_owner s) (s_closing s).

(** * Proposals *)

Record cl_proposal_t := Proposal { pp_op_type : Z; pp_seq : Z; pp_data : bytes }.

Definition pp_len (p : cl_proposal_t) : Z := Z.of_nat (length (pp_data p)).

Record cl_fwd_ack_t := FwdAck { fa_log_index : Z; fa_origin_node_id : Z; fa_seq : Z }.

(** The numbers of [cluster_proposal_status_t]. *)
Definition PROPOSAL_PENDING : Z := 0.
Definition PROPOSAL_COMMITTED : Z := 1.
Definition PROPOSAL_REJECTED : Z := 2.
Definition CL_STATUS_TABLE_SIZE : Z := 4096.

(** * The node *)

Record cluster_node (M : Type) := Node {
  n_self_id : Z;
  n_nnodes : Z;
  n_quorum : Z;
  n_self_addr : bytes;
  n_secret : bytes;
  n_durable_commit : bool;
  n_peers : list cluster_peer_t;
  n_current_term : Z;
  n_voted_for : Z;
  n_role : cluster_role_t;
  n_leader_id : Z;
  n_votes_granted : Z;
  n_prevotes_granted : Z;
  n_in_prevote : bool;
  n_last_leader_contact : Z;
  n_log : cluster_log_t;
  n_persist : option cl_persist_t;
  n_log_dirty : bool;
  n_inbox_depth : Z;
  n_throttle : bool;
  n_leader_commit_seen : Z;
  n_apply_lag_throttle : bool;
  n_view : list (Z * Z);  (* match index and reachability by id *)
  n_view_target : Z;
  n_view_commit : Z;
  n_view_state : Z;
  n_have_view : bool;
  n_status_tick : Z;
  n_election_timer : option Z;  (* the timeout it is armed with *)
  n_heartbeat_timer : bool;
  n_fsync_timer : bool;
  n_fwd_retry_timer : bool;
  n_fwd_congested : bool;
  n_election_min_ms : Z;
  n_election_max_ms : Z;
  n_heartbeat_ms : Z;
  n_rng_state : Z;
  n_propose : list cl_proposal_t;  (* the inbox, head first *)
  n_propose_woken : bool;  (* [propose_async] has been signalled *)
  n_propose_seq_next : Z;
  n_propose_status : gmap Z (Z * Z);  (* sequence number and status by slot *)
  n_fwd_pending : list cl_proposal_t;
  n_fwd_pending_tick : Z;
  n_committed_fwd_seq : list Z;
  n_committed_fwd_index : list Z;
  n_fwd_acked_seq : Z;
  n_fwd_acked_index : Z;
  n_fwd_marked_seq : Z;
  n_fwd_ack_pending : list cl_fwd_ack_t;
  n_health : cluster_health_t;
  n_storage_failed : bool;
  n_broker : option (world M);
  n_authstore : option authstore;
  n_running : bool;
  n_topo : bytes;
  n_topo_cap : Z;
  n_compact_tick : Z;
  n_compact_hint : Z;
  n_snap_warn_at : Z;
  n_streams : gmap positive stream;
  n_next_stream : positive;
  n_listening : bool;
  n_stopping : bool;  (* [shutdown_async] has been signalled *)
  n_now : Z;  (* the clock of the loop *)
  n_mem : oracle;
  n_io : list io_result;
  n_uv : list bool;
  n_out : list (nat * mesh_frame)  (* the frames sent, with the peer *)
}.
#[global] Arguments Node {_}.
#[global] Arguments n_self_id {_}.
#[global] Arguments n_nnodes {_}.
#[global] Arguments n_quorum {_}.
#[global] Arguments n_self_addr {_}.
#[global] Arguments n_secret {_}.
#[global] Arguments n_durable_commit {_}.
#[global] Arguments n_peers {_}.
#[global] Arguments n_current_term {_}.
#[global] Arguments n_voted_for {_}.
#[global] Arguments n_role {_}.
#[global] Arguments n_leader_id {_}.
#[global] Arguments n_votes_granted {_}.
#[global] Arguments n_prevotes_granted {_}.
#[global] Arguments n_in_prevote {_}.
#[global] Arguments n_last_leader_contact {_}.
#[global] Arguments n_log {_}.
#[global] Arguments n_persist {_}.
#[global] Arguments n_log_dirty {_}.
#[global] Arguments n_inbox_depth {_}.
#[global] Arguments n_throttle {_}.
#[global] Arguments n_leader_commit_seen {_}.
#[global] Arguments n_apply_lag_throttle {_}.
#[global] Arguments n_view {_}.
#[global] Arguments n_view_target {_}.
#[global] Arguments n_view_commit {_}.
#[global] Arguments n_view_state {_}.
#[global] Arguments n_have_view {_}.
#[global] Arguments n_status_tick {_}.
#[global] Arguments n_election_timer {_}.
#[global] Arguments n_heartbeat_timer {_}.
#[global] Arguments n_fsync_timer {_}.
#[global] Arguments n_fwd_retry_timer {_}.
#[global] Arguments n_fwd_congested {_}.
#[global] Arguments n_election_min_ms {_}.
#[global] Arguments n_election_max_ms {_}.
#[global] Arguments n_heartbeat_ms {_}.
#[global] Arguments n_rng_state {_}.
#[global] Arguments n_propose {_}.
#[global] Arguments n_propose_woken {_}.
#[global] Arguments n_propose_seq_next {_}.
#[global] Arguments n_propose_status {_}.
#[global] Arguments n_fwd_pending {_}.
#[global] Arguments n_fwd_pending_tick {_}.
#[global] Arguments n_committed_fwd_seq {_}.
#[global] Arguments n_committed_fwd_index {_}.
#[global] Arguments n_fwd_acked_seq {_}.
#[global] Arguments n_fwd_acked_index {_}.
#[global] Arguments n_fwd_marked_seq {_}.
#[global] Arguments n_fwd_ack_pending {_}.
#[global] Arguments n_health {_}.
#[global] Arguments n_storage_failed {_}.
#[global] Arguments n_broker {_}.
#[global] Arguments n_authstore {_}.
#[global] Arguments n_running {_}.
#[global] Arguments n_topo {_}.
#[global] Arguments n_topo_cap {_}.
#[global] Arguments n_compact_tick {_}.
#[global] Arguments n_compact_hint {_}.
#[global] Arguments n_snap_warn_at {_}.
#[global] Arguments n_streams {_}.
#[global] Arguments n_next_stream {_}.
#[global] Arguments n_listening {_}.
#[global] Arguments n_stopping {_}.
#[global] Arguments n_now {_}.
#[global] Arguments n_mem {_}.
#[global] Arguments n_io {_}.
#[global] Arguments n_uv {_}.
#[global] Arguments n_out {_}.

#[global] Instance node_settable M : Settable (cluster_node M) := fun n =>
  Node (n_self_id n) (n_nnodes n) (n_quorum n) (n_self_addr n) (n_secret n) (n_durable_commit n) (n_peers n) (n_current_term n)
    (n_voted_for n) (n_role n) (n_leader_id n) (n_votes_granted n) (n_prevotes_granted n) (n_in_prevote n) (n_last_leader_contact n)
    (n_log n) (n_persist n) (n_log_dirty n) (n_inbox_depth n) (n_throttle n) (n_leader_commit_seen n) (n_apply_lag_throttle n)
    (n_view n) (n_view_target n) (n_view_commit n) (n_view_state n) (n_have_view n) (n_status_tick n) (n_election_timer n)
    (n_heartbeat_timer n) (n_fsync_timer n) (n_fwd_retry_timer n) (n_fwd_congested n) (n_election_min_ms n) (n_election_max_ms n)
    (n_heartbeat_ms n) (n_rng_state n) (n_propose n) (n_propose_woken n) (n_propose_seq_next n) (n_propose_status n) (n_fwd_pending n)
    (n_fwd_pending_tick n) (n_committed_fwd_seq n) (n_committed_fwd_index n) (n_fwd_acked_seq n) (n_fwd_acked_index n)
    (n_fwd_marked_seq n) (n_fwd_ack_pending n) (n_health n) (n_storage_failed n) (n_broker n) (n_authstore n) (n_running n) (n_topo n)
    (n_topo_cap n) (n_compact_tick n) (n_compact_hint n) (n_snap_warn_at n) (n_streams n) (n_next_stream n) (n_listening n)
    (n_stopping n) (n_now n) (n_mem n) (n_io n) (n_uv n) (n_out n).

(** * Computations of a node *)

Section Cl.
Context {M : Type} `{!PtrMap M}.

Definition cl (A : Type) : Type := cluster_node M -> option (A * cluster_node M).

#[global] Instance cl_ret : MRet cl := fun A a n => Some (a, n).
#[global] Instance cl_bind : MBind cl := fun A B f m n =>
  match m n with
  | Some (a, n) => f a n
  | None => None
  end.

Definition nget {A} (f : cluster_node M -> A) : cl A := fun n => Some (f n, n).
Definition nset (f : cluster_node M -> cluster_node M) : cl unit := fun n => Some (tt, f n).

(** No defined outcome. *)
Definition undefined {A} : cl A := fun _ => None.
Definition defined {A} (o : option A) : cl A := fun n => (fun a => (a, n)) <$> o.

Definition set_log (f : cluster_log_t -> cluster_log_t) : cl unit := nset (fun n => n <| n_log ::= f |>).
Definition last_index : cl Z := nget (fun n => lg_last_index (n_log n)).

Definition get_peer (i : nat) : cl cluster_peer_t := fun n => (fun p => (p, n)) <$> n_peers n !! i.
Definition set_peer (i : nat) (f : cluster_peer_t -> cluster_peer_t) : cl unit := nset (fun n => n <| n_peers ::= alter f i |>).

Definition set_ps (f : cl_persist_t -> cl_persist_t) : cl unit := nset (fun n => n <| n_persist ::= fmap f |>).

Definition cl_malloc : cl bool := fun n => let '(ok, o) := malloc (n_mem n) in Some (ok, n <| n_mem := o |>).

Definition syscall : cl io_result := fun n =>
  match n_io n with
  | [] => Some (io_ok, n)
  | r :: rest => Some (r, n <| n_io := rest |>)
  end.

Definition uv : cl bool := fun n =>
  match n_uv n with
  | [] => Some (true, n)
  | r :: rest => Some (r, n <| n_uv := rest |>)
  end.

Fixpoint for_each {A} (f : A -> cl unit) (l : list A) : cl unit :=
  match l with
  | [] => mret tt
  | x :: l => f x;; for_each f l
  end.

(** The operations on the broker of the process. *)
Definition on_world {A} (f : world M -> A * world M) : cl (option A) := fun n =>
  match n_broker n with
  | None => Some (None, n)
  | Some w => let '(a, w) := f w in Some (Some a, n <| n_broker := Some w |>)
  end.
Definition on_store {A} (f : store -> A * store) : cl (option A) :=
  on_world (fun w => let '(a, st) := f (w_store w) in (a, w <| w_store := st |>)).
End Cl.
#[global] Arguments cl : clear implicits.
