(* ===== verification/ClusterLog.v ===== *)
(** Timers, frames, persistence and the log of a cluster node: the first part of
    src/src/cluster.c.  [uv_ip4_addr] stands for libuv's parser of addresses; the
    fuel is that of the broker's recursive routing, [regcomp] the C library's. *)

From S2P Require Import Prelude CLib Crypto AuthStore HashMap Message Queue Store Exchange Broker ClusterWire ClusterNode.

(** * Utilities *)

Definition xorshift64 (s : Z) : Z :=
  let x := Z.lxor s (u64 (s ≪ 13)) in
  let x := Z.lxor x (x ≫ 7) in
  let x := Z.lxor x (u64 (x ≪ 17)) in
  if x =? 0 then 0x9E3779B97F4A7C15 else x.

(** A 32-bit value as a signed integer. *)
Definition int32 (z : Z) : Z := if z <? 2 ^ 31 then z else z - 2 ^ 32.

Definition atoi (s : bytes) : Z := let '(v, _, _) := strtol s in int32 (u32 v).

(** The smallest doubling of [nc] that is at least [need]. *)
Fixpoint grow_until (fuel : nat) (nc need : Z) : Z :=
  match fuel with
  | O => nc
  | S fuel => if nc <? need then grow_until fuel (nc * 2) need else nc
  end.

Definition double_to (cap first need : Z) : Z := grow_until 64 (if cap =? 0 then first else cap) need.

Section Log.
Context {M : Type} `{!PtrMap M}.
Abbreviation cl A := (cl M A).

Definition election_timeout_ms : cl Z :=
  n ← nget id;
  let span := u32 (n_election_max_ms n - n_election_min_ms n + 1) in
  let x := xorshift64 (n_rng_state n) in
  nset (fun n => n <| n_rng_state := x |>);;
  if span =? 0 then undefined else mret (u32 (n_election_min_ms n + u32 (x mod span))).

Definition parse_addr (uv_ip4_addr : bytes -> Z -> bool) (s : bytes) : bool :=
  match strrchr 58 s with
  | None => false
  | Some (host, rest) =>
      if (length host =? 0)%nat || (64 <=? length host)%nat then false
      else
        let port := atoi rest in
        if (port <=? 0) || (65535 <? port) then false else uv_ip4_addr host port
  end.

(** Appending to a read buffer; [None] when the memory is exhausted. *)
Definition buf_append (buf : bytes) (cap : Z) (data : bytes) : cl (option (bytes * Z)) :=
  let need := Z.of_nat (length buf + length data) in
  if cap <? need then
    ok ← cl_malloc;
    if ok : bool then mret (Some (buf ++ data, double_to cap 1024 need)) else mret None
  else mret (Some (buf ++ data, cap)).

(** * Sending *)

Definition cl_send (i : nat) (type flags term : Z) (payload : bytes) : cl Z :=
  p ← get_peer i;
  match p_link p with
  | None => mret (-1)
  | Some _ =>
      ok ← cl_malloc;
      if negb ok then mret (-1)
      else
        ok ← cl_malloc;
        if negb ok then mret (-1)
        else
          ok ← uv;
          if negb ok then mret (-1)
          else nset (fun n => n <| n_out ::= fun l => l ++ [(i, cl_frame type flags term payload)] |>);; mret 0
  end.

Definition CL_HELLO_LEN : Z := 4 + 8 + 32.

Definition hello_payload_build (type : Z) : cl bytes :=
  n ← nget id;
  let x := xorshift64 (n_rng_state n) in
  nset (fun n => n <| n_rng_state := x |>);;
  let out := put_be32 (u32 (n_self_id n)) ++ put_be64 x in
  mac ← defined (crypto_hmac_sha256 (n_secret n) (type :: out));
  mret (out ++ mac).

(** The node id that the payload proves, [None] for the result -1. *)
Definition hello_payload_verify (type : Z) (payload : bytes) : cl (option Z) :=
  if negb (Z.of_nat (length payload) =? CL_HELLO_LEN) then mret None
  else
    secret ← nget n_secret;
    want ← defined (crypto_hmac_sha256 secret (type :: take 12 payload));
    if crypto_ct_memcmp want (take 32 (drop 12 payload)) =? 0 then mret (Some (int32 (get_be32 payload))) else mret None.

Definition send_hello (i : nat) (type : Z) : cl unit :=
  body ← hello_payload_build type;
  term ← nget n_current_term;
  _ ← cl_send i type 0 (u32 term) body;
  mret tt.

(** * Health *)

Definition reachable (n : cluster_node M) : Z :=
  1 + Z.of_nat (length (filter (fun p => p_link_state p = CL_LINK_UP) (n_peers n))).

Definition healthy (n : cluster_node M) : bool :=
  (match n_role n with
   | CL_ROLE_LEADER => n_quorum n <=? reachable n
   | CL_ROLE_FOLLOWER => 0 <=? n_leader_id n
   | CL_ROLE_CANDIDATE => false
   end) && negb (n_storage_failed n).

Definition update_health : cl unit :=
  nset (fun n => n <| n_health := if healthy n then CL_HEALTH_OK else CL_HEALTH_ISOLATED |>).

Definition arm_election_timer : cl unit :=
  t ← election_timeout_ms; nset (fun n => n <| n_election_timer := Some t |>).

Definition storage_write_failed : cl unit :=
  nset (fun n => n <| n_storage_failed := true |>);;
  role ← nget n_role;
  (if bool_decide (role = CL_ROLE_LEADER) then
     nset (fun n => n <| n_heartbeat_timer := false |> <| n_role := CL_ROLE_FOLLOWER |> <| n_leader_id := -1 |>);;
     arm_election_timer
   else mret tt);;
  update_health.

(** * Files *)

Definition CL_META_MAGIC : Z := 0x424D514D.
Definition CL_META_SIZE : Z := 24.
Definition CL_REC_HDR : Z := 24.
Definition CL_FALLOC_CHUNK : Z := 64 * 1024 * 1024.

Definition meta_bytes (term voted_for : Z) : bytes :=
  put_be32 CL_META_MAGIC ++ put_be32 1 ++ put_be64 term ++ put_be32 (u32 voted_for) ++ [0; 0; 0; 0].

Definition persist_meta : cl unit :=
  n ← nget id;
  match n_persist n with
  | None => mret tt
  | Some _ =>
      let b := meta_bytes (n_current_term n) (n_voted_for n) in
      r ← syscall;
      match r with
      | io_fail k => set_ps (fun ps => ps <| ps_meta ::= f_write 0 (take k b) |>);; storage_write_failed
      | io_ok =>
          set_ps (fun ps => ps <| ps_meta ::= f_write 0 b |>);;
          r ← syscall;
          match r with io_ok => mret tt | io_fail _ => storage_write_failed end
      end
  end.

Definition persist_reserve (end_ : Z) : cl unit :=
  ps ← nget n_persist;
  match ps with
  | None => mret tt
  | Some ps =>
      if end_ <=? ps_alloc_size ps then mret tt
      else
        let target := (end_ + CL_FALLOC_CHUNK - 1) / CL_FALLOC_CHUNK * CL_FALLOC_CHUNK in
        r ← syscall;
        match r with
        | io_ok => set_ps (fun ps => ps <| ps_log ::= f_reserve target |> <| ps_alloc_size := target |>)
        | io_fail _ => set_ps (fun ps => ps <| ps_alloc_size := end_ |>)
        end
  end.

Definition persist_write_flush : cl unit :=
  ps ← nget n_persist;
  match ps with
  | None => mret tt
  | Some ps =>
      if (length (ps_wbuf ps) =? 0)%nat then mret tt
      else
        let len := Z.of_nat (length (ps_wbuf ps)) in
        persist_reserve (ps_write_pos ps + len);;
        r ← syscall;
        match r with
        | io_ok =>
            set_ps (fun p => p <| ps_log ::= f_write (ps_write_pos ps) (ps_wbuf ps) |> <| ps_write_pos := ps_write_pos ps + len |>)
        | io_fail k =>
            set_ps (fun p => p <| ps_log ::= f_write (ps_write_pos ps) (take k (ps_wbuf ps)) |>);; storage_write_failed
        end;;
        set_ps (fun p => p <| ps_wbuf := [] |>)
  end.

Definition off_ensure (need : Z) : cl bool :=
  ps ← nget n_persist;
  match ps with
  | None => mret true
  | Some ps =>
      let cap := Z.of_nat (length (ps_offsets ps)) in
      if need <=? cap then mret true
      else
        ok ← cl_malloc;
        if negb ok then mret false
        else
          let nc := double_to cap 64 need in
          set_ps (fun ps => ps <| ps_offsets ::= fun l => l ++ replicate (Z.to_nat (nc - cap)) None |>);; mret true
  end.

(** The payload that is there when the length says so. *)
Definition payload_of (e : cluster_log_entry_t) : cl bytes :=
  if e_len e =? 0 then mret [] else defined (e_payload e).

Definition record_bytes (e : cluster_log_entry_t) (payload : bytes) : bytes :=
  put_be64 (e_term e) ++ put_be64 (e_index e) ++ put_be32 (e_op_type e) ++ put_be32 (e_len e) ++ payload.

(** Room for [need] more bytes in the write buffer. *)
Definition wbuf_ensure (need : Z) : cl bool :=
  ps ← nget n_persist;
  match ps with
  | None => mret true
  | Some ps =>
      let want := Z.of_nat (length (ps_wbuf ps)) + need in
      if want <=? ps_wbuf_cap ps then mret true
      else
        ok ← cl_malloc;
        if ok : bool then set_ps (fun p => p <| ps_wbuf_cap := double_to (ps_wbuf_cap ps) (256 * 1024) want |>);; mret true
        else persist_write_flush;; if ps_wbuf_cap ps <? need then storage_write_failed;; mret false else mret true
  end.

(** [true] is the result 0. *)
Definition persist_append (e : cluster_log_entry_t) : cl bool :=
  ps ← nget n_persist;
  match ps with
  | None => mret true
  | Some ps =>
      ok ← off_ensure (e_index e - ps_base_index ps);
      if negb ok then storage_write_failed;; mret false
      else
        let need := CL_REC_HDR + e_len e in
        ok ← wbuf_ensure need;
        if negb ok then mret false
        else
          payload ← payload_of e;
          set_ps (fun ps =>
            ps <| ps_wbuf ::= fun w => w ++ record_bytes e payload |>
               <| ps_offsets ::= <[Z.to_nat (e_index e - ps_base_index ps - 1) := Some (ps_log_size ps)]> |>
               <| ps_log_size ::= fun z => z + need |> <| ps_dirty := true |>);;
          mret true
  end.

Definition persist_sync : cl unit :=
  ps ← nget n_persist;
  match ps with
  | None => mret tt
  | Some _ =>
      persist_write_flush;;
      failed ← nget n_storage_failed;
      if failed : bool then mret tt
      else
        dirty ← nget (fun n => match n_persist n with Some ps => ps_dirty ps | None => false end);
        r ← (if dirty : bool then syscall else mret io_ok);
        match r with
        | io_fail _ => storage_write_failed
        | io_ok =>
            set_ps (fun ps => ps <| ps_dirty := false |>);;
            set_log (fun l => l <| lg_durable_index := lg_last_index l |>)
        end
  end.

(** A cell of the offset table, when the table has it. *)
Definition read_offset (slot dflt : Z) (ps : cl_persist_t) : option Z :=
  if (0 <=? slot) && (slot <? Z.of_nat (length (ps_offsets ps))) then ps_offsets ps !! Z.to_nat slot ≫= id else Some dflt.

Definition persist_truncate (idx : Z) : cl unit :=
  ps ← nget n_persist;
  match ps with
  | None => mret tt
  | Some _ =>
      if idx <? 1 then mret tt
      else
        persist_write_flush;;
        ps ← nget n_persist;
        ps ← defined ps;
        newsize ← defined (if ps_base_index ps <? idx then read_offset (idx - ps_base_index ps - 1) (ps_log_size ps) ps else Some (ps_log_size ps));
        r ← syscall;
        match r with
        | io_fail _ => mret tt
        | io_ok => set_ps (fun ps => ps <| ps_log ::= f_truncate newsize |> <| ps_log_size := newsize |> <| ps_write_pos := newsize |>
                                        <| ps_dirty := true |>)
        end
  end.

(** * The log *)

Definition log_ensure_cap (need : Z) : cl bool :=
  cap ← nget (fun n => lg_cap (n_log n));
  if need <=? cap then mret true
  else
    ok ← cl_malloc;
    if ok : bool then set_log (fun l => l <| lg_cap := double_to cap 16 need |>);; mret true else mret false.

Definition log_at (l : cluster_log_t) (idx : Z) : option cluster_log_entry_t :=
  if (idx <=? lg_base_index l) || (lg_last_index l <? idx) then None else lg_entries l !! Z.to_nat (idx - lg_base_index l - 1).

Definition log_term_at (l : cluster_log_t) (idx : Z) : Z :=
  if idx =? lg_base_index l then lg_base_term l else match log_at l idx with Some e => e_term e | None => 0 end.

Definition log_truncate_from (idx : Z) : cl unit :=
  l ← nget n_log;
  let idx := if idx <=? lg_base_index l then lg_base_index l + 1 else idx in
  if lg_last_index l <? idx then mret tt
  else
    persist_truncate idx;;
    set_log (fun l => l <| lg_entries ::= take (Z.to_nat (idx - 1 - lg_base_index l)) |>).

(** [true] is the result 0. *)
Definition log_append (term op : Z) (data : bytes) : cl bool :=
  l ← nget n_log;
  let last := lg_last_index l in
  ok ← log_ensure_cap (last + 1 - lg_base_index l);
  if negb ok then mret false
  else
    let len := Z.of_nat (length data) in
    ok ← (if len =? 0 then mret true else cl_malloc);
    if negb ok then mret false
    else
      let e := Entry term (last + 1) op len (if len =? 0 then None else Some data) in
      ok ← persist_append e;
      if negb ok then mret false
      else set_log (fun l => l <| lg_entries ::= fun es => es ++ [e] |>);; mret true.

(** * The topology of the snapshot *)

(** The records of the topology: operation, length and payload. *)
Fixpoint topo_has (fuel : nat) (op : Z) (data topo : bytes) : bool :=
  match fuel with
  | O => false
  | S fuel =>
      if (length topo <? 8)%nat then false
      else
        let l := get_be32 (drop 4 topo) in
        if (get_be32 topo =? op) && (l =? Z.of_nat (length data)) && (8 + l <=? Z.of_nat (length topo)) &&
           bool_decide (take (length data) (drop 8 topo) = data) then true
        else topo_has fuel op data (drop (8 + Z.to_nat l) topo)
  end.

Definition topo_add (op : Z) (data : bytes) : cl unit :=
  n ← nget id;
  let topo := n_topo n in
  if topo_has (length topo) op data topo then mret tt
  else
    let need := Z.of_nat (length topo) + 8 + Z.of_nat (length data) in
    ok ← (if n_topo_cap n <? need then
            ok ← cl_malloc;
            if ok : bool then nset (fun n => n <| n_topo_cap := double_to (n_topo_cap n) 256 need |>);; mret true else mret false
          else mret true);
    if negb ok then storage_write_failed
    else nset (fun n => n <| n_topo ::= fun t => t ++ put_be32 op ++ put_be32 (Z.of_nat (length data)) ++ data |>).

(** * Snapshots *)

Definition snap_record_size (q : queue) (m : message) : Z :=
  2 + Z.of_nat (length (queue_vhost q)) + 2 + Z.of_nat (length (queue_name q)) + 2 + Z.of_nat (length (m_exchange m)) +
  2 + Z.of_nat (length (m_routing_key m)) + 4 + Z.of_nat (length (m_props m)) + 4 + m_body_len m + 8.

Definition snap_write_record (q : queue) (m : message) : bytes :=
  wr_str (queue_vhost q) ++ wr_str (queue_name q) ++ wr_str (m_exchange m) ++ wr_str (m_routing_key m) ++
  put_be32 (u32 (Z.of_nat (length (m_props m)))) ++ m_props m ++ put_be32 (u32 (m_body_len m)) ++ m_body m ++ put_be64 (m_cluster_id m).

(** The queues with a reference to each; the collection stops when the array cannot
    grow. *)
Definition collect_queue_cb (q : positive) (c : list positive * nat * oracle * store) : bool * (list positive * nat * oracle * store) :=
  let '(qs, cap, o, st) := c in
  if (length qs =? cap)%nat then
    let '(ok, o) := malloc o in
    if ok then (false, (qs ++ [q], if (cap =? 0)%nat then 16%nat else (cap * 2)%nat, o, qp_ref q st)) else (true, (qs, cap, o, st))
  else (false, (qs ++ [q], cap, o, qp_ref q st)).

Definition collect_queues : cl (list positive) := fun n =>
  match n_broker n with
  | None => Some ([], n)
  | Some w =>
      let '(qs, _, o, st) := broker_foreach_queue collect_queue_cb ([], 0%nat, n_mem n, w_store w) w in
      Some (qs, n <| n_mem := o |> <| n_broker := Some (w <| w_store := st |>) |>)
  end.

Definition unref_message (m : message) : cl unit :=
  _ ← on_world (fun w => (tt, w_heap (message_unref (Some m)) w)); mret tt.
Definition unref_queue (q : positive) : cl unit := _ ← on_store (fun st => (tt, qp_unref q st)); mret tt.

(** [queue_snapshot_refs] of the queue at [q]: the messages, or [None] when the
    memory is exhausted. *)
Definition snapshot_refs (q : positive) (max_cid : Z) : cl (option (list message)) :=
  r ← on_store (fun st => on_queue ([], false) q (fun q s => let '(ms, oom, s) := queue_snapshot_refs max_cid q s in ((ms, oom), q, s)) st);
  match r with
  | Some (ms, oom) => mret (if oom : bool then None else Some ms)
  | None => mret (Some [])
  end.

(** The queue behind a pointer, for its names. *)
Definition queue_at (q : positive) : cl queue := fun n =>
  match n_broker n with Some w => (fun x => (x, n)) <$> st_queues (w_store w) !! q | None => None end.

(** The records of [ms]: each is allocated and written. *)
Fixpoint dump_messages (q : queue) (ms : list message) : cl (option bytes) :=
  match ms with
  | [] => mret (Some [])
  | m :: ms =>
      ok ← cl_malloc;
      if negb ok then mret None
      else
        r ← syscall;
        match r with
        | io_fail _ => mret None
        | io_ok => rest ← dump_messages q ms; mret ((fun b => snap_write_record q m ++ b) <$> rest)
        end
  end.

Fixpoint dump_queues (base_index : Z) (qs : list positive) : cl (option (Z * bytes)) :=
  match qs with
  | [] => mret (Some (0, []))
  | q :: qs =>
      ms ← snapshot_refs q base_index;
      match ms with
      | None => mret None
      | Some ms =>
          qd ← queue_at q;
          b ← dump_messages qd ms;
          for_each unref_message ms;;
          match b with
          | None => mret None
          | Some b => rest ← dump_queues base_index qs; mret ((fun cb => (Z.of_nat (length ms) + cb.1, b ++ cb.2)) <$> rest)
          end
      end
  end.

Definition CL_SNAP_MAGIC : Z := 0x424D5153.
Definition CL_SNAP_HDR : Z := 36.

Definition snap_head (base_index base_term base_offset : Z) (topo : bytes) : bytes :=
  put_be32 CL_SNAP_MAGIC ++ put_be32 2 ++ put_be64 base_index ++ put_be64 base_term ++ put_be64 base_offset ++
  put_be32 (u32 (Z.of_nat (length topo))) ++ topo.

Definition all_ok (k : nat) : cl bool :=
  (fix go k : cl bool := match k with O => mret true | S k => r ← syscall; match r with io_ok => go k | io_fail _ => mret false end end) k.

(** [true] is the result 0.  The file appears with the rename, when the header, the
    records, their number and the synchronisation have succeeded. *)
Definition snapshot_write (base_index base_term base_offset : Z) : cl bool :=
  n ← nget id;
  match n_persist n with
  | None => mret false
  | Some _ =>
      ok ← cl_malloc;
      if negb ok then mret false
      else
        let head := snap_head base_index base_term base_offset (n_topo n) in
        ok ← all_ok 3;                  (* open, the header, the place of the count *)
        if negb ok then mret false
        else
          qs ← collect_queues;
          dump ← dump_queues base_index qs;
          for_each unref_queue qs;;
          match dump with
          | None => mret false
          | Some (count, b) =>
              ok ← all_ok 3;            (* the count, fsync, rename *)
              if negb ok then mret false
              else
                set_ps (fun ps => ps <| ps_snap := head ++ put_be32 (cluster_crc32 head) ++ put_be32 (u32 count) ++ b |>);; mret true
          end
  end.
End Log.
