(* ===== verification/ClusterApply.v ===== *)
(** Applying committed operations, compaction, recovery and proposals of a cluster
    node: src/src/cluster.c up to the Raft state machine.  [fuel] bounds the broker's
    recursive routing, [regcomp] is the C library's. *)

From S2P Require Import Prelude CLib Crypto AuthStore HashMap Message Queue Store Exchange Broker ClusterWire ClusterNode ClusterLog.

Section Apply.
Context {M : Type} `{!PtrMap M}.
Context (fuel : nat) (regcomp : bytes -> bool).
Abbreviation cl A := (cl M A).

(** * The broker and the access-control store *)

Definition on_auth {A} (f : authstore -> option (A * authstore)) : cl (option A) := fun n =>
  match n_authstore n with
  | None => Some (None, n)
  | Some s => match f s with Some (a, s) => Some (Some a, n <| n_authstore := Some s |>) | None => None end
  end.

Definition try_world {A} (f : world M -> option (A * world M)) : cl A := fun n =>
  match n_broker n with
  | None => None
  | Some w => match f w with Some (a, w) => Some (a, n <| n_broker := Some w |>) | None => None end
  end.

Definition exchange_type_of (z : Z) : exchange_type_t :=
  if z =? 0 then EXCHANGE_DIRECT else if z =? 1 then EXCHANGE_FANOUT else if z =? 2 then EXCHANGE_TOPIC else EXCHANGE_OTHER z.

(** The policy of a queue that the operation has just created. *)
Definition configure_queue (vh name : bytes) (overflow maxlen maxbytes : Z) (dlx dlx_rkey : bytes) (w : world M) : world M :=
  let '(q, w) := broker_get_queue vh name w in
  match q with
  | None => w
  | Some q =>
      let pol := if overflow =? 1 then QUEUE_OVERFLOW_DROP_HEAD else QUEUE_OVERFLOW_REJECT_PUBLISH in
      let w := w <| w_store ::= fun st => snd (on_queue tt q (fun x s => (tt, queue_set_limits maxlen maxbytes pol x, s)) st) |> in
      let w := match dlx with [] => w | _ => broker_set_queue_dead_letter q (Some dlx) (Some dlx_rkey) w end in
      w <| w_store ::= qp_unref q |>
  end.

Definition apply_declare_queue (p : bytes) (w : world M) : world M :=
  let '(flags, p) := rd8 p in
  match rd_strs 2 256 p with
  | Some ([vh; a], p) =>
      let '(_, _, created, w) := broker_declare_queue vh a flags w in
      if created && (17 <=? length p)%nat then
        let '(overflow, p) := rd8 p in
        let maxlen := get_be64 p in
        let maxbytes := get_be64 (drop 8 p) in
        match rd_strs 2 256 (drop 16 p) with
        | Some ([b; c], _) => configure_queue vh a overflow maxlen maxbytes b c w
        | _ => w
        end
      else w
  | _ => w
  end.

Definition apply_declare_exchange (p : bytes) (w : world M) : world M :=
  let '(type, p) := rd8 p in
  let '(flags, p) := rd8 p in
  match rd_strs 2 256 p with
  | Some ([vh; a], _) => snd (broker_declare_exchange vh a (exchange_type_of type) flags w)
  | _ => w
  end.

Definition apply_bind (p : bytes) (w : world M) : world M :=
  match rd_strs 4 256 p with
  | Some ([vh; a; b; c], _) => snd (broker_bind vh a b (Some c) w)
  | _ => w
  end.

Definition apply_delete_queue (p : bytes) (w : world M) : world M :=
  match rd_strs 2 256 p with
  | Some ([vh; a], _) => snd (broker_delete_queue vh a false false w)
  | _ => w
  end.

(** A counted block: its length and its bytes. *)
Definition rd_block (p : bytes) : option (bytes * bytes) :=
  if (length p <? 4)%nat then None
  else
    let n := get_be32 p in
    if Z.of_nat (length (drop 4 p)) <? n then None else Some (take (Z.to_nat n) (drop 4 p), drop (Z.to_nat n) (drop 4 p)).

(** [None] when the memory for the message is exhausted. *)
Definition apply_publish (idx : Z) (p : bytes) : cl unit :=
  match rd_strs 3 256 p with
  | Some ([vh; ex; rk], p) =>
      match rd_block p with
      | Some (props, p) =>
          match rd_block p with
          | Some (body, _) =>
              m ← try_world (fun w =>
                let '(m, h) := message_new_full (Some ex) (Some rk) body (match props with [] => None | _ => Some props end) (s_heap (w_sys w)) in
                Some (m, w_heap (fun _ => h) w));
              match m with
              | None => storage_write_failed
              | Some m =>
                  let m := m <| m_cluster_id := idx |> in
                  _ ← try_world (broker_route fuel vh m);
                  unref_message m
              end
          | None => mret tt
          end
      | None => mret tt
      end
  | _ => mret tt
  end.

Definition drain_queue (vh qn : bytes) (wm : Z) (w : world M) : world M :=
  let '(q, w) := broker_get_queue vh qn w in
  match q with
  | None => w
  | Some q =>
      let w := w <| w_store ::= fun st => snd (on_queue 0%nat q (fun x s => queue_drain_consumed wm x s) st) |> in
      w <| w_store ::= qp_unref q |>
  end.

Definition apply_ack (p : bytes) (w : world M) : world M :=
  match rd_strs 2 256 p with
  | Some ([vh; qn], p) => if (8 <=? length p)%nat then drain_queue vh qn (get_be64 p) w else w
  | _ => w
  end.

Definition auth_op {A} (f : authstore -> option (A * authstore)) : cl unit := _ ← on_auth f; mret tt.

(** The operations on the access-control store ... *)
Definition apply_auth_op (op : Z) (p : bytes) : cl unit :=
  if op =? CL_OP_ADD_VHOST then
    match rd_str 256 p with
    | (Some a, _) =>
        auth_op (authstore_add_vhost a);;
        _ ← on_world (fun w => (tt, broker_declare_default_exchanges a w)); mret tt
    | _ => mret tt
    end
  else if op =? CL_OP_DEL_VHOST then
    match rd_str 256 p with (Some a, _) => auth_op (authstore_del_vhost a) | _ => mret tt end
  else if op =? CL_OP_ADD_USER then
    match rd_strs 2 256 p with
    | Some ([a; hash], p) => let '(tags, _) := rd32 p in auth_op (authstore_add_user a hash tags)
    | _ => mret tt
    end
  else if op =? CL_OP_DEL_USER then
    match rd_str 256 p with (Some a, _) => auth_op (authstore_del_user a) | _ => mret tt end
  else if op =? CL_OP_SET_PERM then
    match rd_strs 5 256 p with
    | Some ([a; b; cfg; wr; rd], _) => auth_op (authstore_set_perm regcomp a b cfg wr rd)
    | _ => mret tt
    end
  else if op =? CL_OP_CLEAR_PERM then
    match rd_strs 2 256 p with
    | Some ([a; b], _) => auth_op (authstore_clear_perm a b)
    | _ => mret tt
    end
  else mret tt.

(** ... when the node has one. *)
Definition apply_auth (op : Z) (p : bytes) : cl unit :=
  auth ← nget n_authstore;
  match auth with None => mret tt | Some _ => apply_auth_op op p end.

(** Operations that the snapshot keeps. *)
Definition keeps_topology (op : Z) : bool :=
  (op =? CL_OP_DECLARE_QUEUE) || (op =? CL_OP_DECLARE_EXCH) || (op =? CL_OP_BIND) || (op =? CL_OP_DELETE_QUEUE) ||
  ((CL_OP_ADD_VHOST <=? op) && (op <=? CL_OP_CLEAR_PERM)).

Definition pure_world (f : world M -> world M) : cl unit := _ ← on_world (fun w => (tt, f w)); mret tt.

Definition apply_op (e : cluster_log_entry_t) : cl unit :=
  broker ← nget n_broker;
  match broker with
  | None => mret tt
  | Some _ =>
      p ← payload_of e;
      let op := e_op_type e in
      (if op =? CL_OP_DECLARE_QUEUE then pure_world (apply_declare_queue p)
       else if op =? CL_OP_DECLARE_EXCH then pure_world (apply_declare_exchange p)
       else if op =? CL_OP_BIND then pure_world (apply_bind p)
       else if op =? CL_OP_DELETE_QUEUE then pure_world (apply_delete_queue p)
       else if op =? CL_OP_PUBLISH then apply_publish (e_index e) p
       else if op =? CL_OP_ACK then pure_world (apply_ack p)
       else apply_auth op p);;
      if keeps_topology op then topo_add op p else mret tt
  end.

(** * Snapshots *)

(** One record; the bytes after it, or [None] for the result -1. *)
Definition snap_apply_record (p : bytes) : cl (option bytes) :=
  match rd_strs 4 256 p with
  | Some ([vh; qn; ex; rk], p) =>
      match rd_block p with
      | Some (props, p) =>
          match rd_block p with
          | Some (body, p) =>
              if (length p <? 8)%nat then mret None
              else
                let cid := get_be64 p in
                let rest := drop 8 p in
                q ← try_world (fun w => Some (broker_get_queue vh qn w));
                q ← (match q with
                     | Some q => mret (Some q)
                     | None =>
                         try_world (fun w =>
                           let '(_, _, _, w) := broker_declare_queue vh qn 0x02 w in Some (broker_get_queue vh qn w))
                     end);
                match q with
                | None => mret (Some rest)
                | Some q =>
                    m ← try_world (fun w =>
                      let '(m, h) := message_new_full (Some ex) (Some rk) body (match props with [] => None | _ => Some props end) (s_heap (w_sys w)) in
                      Some (m, w_heap (fun _ => h) w));
                    match m with
                    | None => mret tt
                    | Some m =>
                        let m := m <| m_cluster_id := cid |> in
                        _ ← try_world (queue_enqueue (broker_route fuel) q m);
                        unref_message m
                    end;;
                    unref_queue q;;
                    mret (Some rest)
                end
          | None => mret None
          end
      | None => mret None
      end
  | _ => mret None
  end.

(** [count] rounds of a loop that takes at least one byte of [p] in each. *)
Definition rounds (count : Z) (p : bytes) : nat := Z.to_nat (Z.min count (Z.of_nat (S (length p)))).

(** At most [k] records, while there are bytes left. *)
Fixpoint snap_apply_records (k : nat) (p : bytes) : cl unit :=
  match k with
  | O => mret tt
  | S k =>
      match p with
      | [] => mret tt
      | _ => r ← snap_apply_record p; match r with Some p => snap_apply_records k p | None => mret tt end
      end
  end.

(** The operations of the topology, at the boundary of the snapshot. *)
Fixpoint replay_topo (k : nat) (base_index base_term : Z) (topo : bytes) : cl unit :=
  match k with
  | O => mret tt
  | S k =>
      if (length topo <? 8)%nat then mret tt
      else
        let op := get_be32 topo in
        let len := get_be32 (drop 4 topo) in
        if Z.of_nat (length topo) <? 8 + len then mret tt
        else
          apply_op (Entry base_term base_index op len (Some (take (Z.to_nat len) (drop 8 topo))));;
          replay_topo k base_index base_term (drop (8 + Z.to_nat len) topo)
  end.

Definition replay_all (base_index base_term : Z) : cl unit :=
  topo ← nget n_topo; replay_topo (length topo) base_index base_term topo.

(** The boundary of the snapshot: index, term and offset in the log file. *)
Definition snapshot_load : cl (option (Z * Z * Z)) :=
  ps ← nget n_persist;
  match ps with
  | None => mret None
  | Some ps =>
      let buf := ps_snap ps in
      let sz := Z.of_nat (length buf) in
      if sz <? CL_SNAP_HDR + 4 then mret None
      else
        r ← syscall;
        match r with
        | io_fail _ => mret None
        | io_ok =>
            let topo_len := get_be32 (drop 32 buf) in
            let crc_end := CL_SNAP_HDR + topo_len + 4 in
            if negb (get_be32 buf =? CL_SNAP_MAGIC) then mret None
            else if negb (crc_end <=? sz) then mret None
            else if negb (cluster_crc32 (take (Z.to_nat (CL_SNAP_HDR + topo_len)) buf) =? get_be32 (drop (Z.to_nat (CL_SNAP_HDR + topo_len)) buf)) then
              mret None
            else
              ok ← (if topo_len =? 0 then mret false else cl_malloc);
              (if ok : bool then nset (fun n => n <| n_topo := take (Z.to_nat topo_len) (drop 36 buf) |> <| n_topo_cap := topo_len |>) else mret tt);;
              (if crc_end + 4 <=? sz then
                 let p := drop (Z.to_nat crc_end) buf in
                 snap_apply_records (rounds (get_be32 p) p) (drop 4 p)
               else mret tt);;
              mret (Some (get_be64 (drop 8 buf), get_be64 (drop 16 buf), get_be64 (drop 24 buf)))
        end
  end.

Definition persist_compact (new_base new_base_offset : Z) : cl unit :=
  ps ← nget n_persist;
  match ps with
  | None => mret tt
  | Some _ =>
      persist_write_flush;;
      l ← nget n_log;
      set_ps (fun ps =>
        let drop_ := new_base - ps_base_index ps in
        let live := lg_last_index l - new_base in
        let cap := Z.of_nat (length (ps_offsets ps)) in
        let ps := if drop_ <? cap then
                    ps <| ps_offsets ::= fun o => take (Z.to_nat live) (drop (Z.to_nat drop_) o) ++ drop (Z.to_nat live) o |>
                  else ps in
        ps <| ps_base_index := new_base |> <| ps_base_offset := new_base_offset |>
           <| ps_log ::= f_punch new_base_offset |> <| ps_dirty := true |>)
  end.

(** What compaction may drop of the entries up to [upto]. *)
Definition compact_limit (upto : Z) (n : cluster_node M) : Z :=
  let upto := Z.min upto (lg_applied_index (n_log n)) in
  match n_broker n with
  | None => upto
  | Some w =>
      let live := broker_min_live_cluster_id w in
      if negb (live =? UINT64_MAX) && (live <=? upto) then (if live =? 0 then 0 else live - 1) else upto
  end.

Definition log_compact_to (upto : Z) : cl unit :=
  n ← nget id;
  let upto := compact_limit upto n in
  let l := n_log n in
  if upto <=? lg_base_index l then mret tt
  else if upto - lg_base_index l <? 4096 then mret tt
  else
    let new_base_term := log_term_at l upto in
    new_base_offset ← defined (match n_persist n with
                               | Some ps => read_offset (upto - ps_base_index ps) (ps_log_size ps) ps
                               | None => Some 0
                               end);
    ok ← snapshot_write upto new_base_term new_base_offset;
    if negb ok then mret tt
    else if lg_last_index l <? upto then undefined
    else
      set_log (fun l => l <| lg_entries ::= drop (Z.to_nat (upto - lg_base_index l)) |> <| lg_base_index := upto |> <| lg_base_term := new_base_term |>
                          <| lg_compacted_to ::= Z.max upto |>);;
      persist_compact upto new_base_offset.

(** * Recovery *)

(** The records of the log file from [off] on; [idx] is the index that comes next. *)
Fixpoint load_records (k : nat) (idx off : Z) : cl unit :=
  match k with
  | O => mret tt
  | S k =>
      ps ← nget n_persist;
      ps ← defined ps;
      match f_read (ps_log ps) off CL_REC_HDR with
      | None => mret tt
      | Some hdr =>
          let term := get_be64 hdr in
          let op := get_be32 (drop 16 hdr) in
          let len := get_be32 (drop 20 hdr) in
          if (CLUSTER_MAX_PAYLOAD <? len) || negb (get_be64 (drop 8 hdr) =? idx) then mret tt
          else
            ok ← (if len =? 0 then mret true else cl_malloc);
            if negb ok then mret tt
            else
              match (if len =? 0 then Some [] else f_read (ps_log ps) (off + CL_REC_HDR) len) with
              | None => mret tt
              | Some payload =>
                  l ← nget n_log;
                  let slot := idx - lg_base_index l in
                  ok ← log_ensure_cap slot;
                  ok ← (if ok : bool then off_ensure slot else mret false);
                  if negb ok then mret tt
                  else
                    set_log (fun l => l <| lg_entries ::= fun es => es ++ [Entry term idx op len (if len =? 0 then None else Some payload)] |>);;
                    set_ps (fun ps => ps <| ps_offsets ::= <[Z.to_nat (slot - 1) := Some off]> |> <| ps_log_size := off + CL_REC_HDR + len |>);;
                    load_records k (idx + 1) (off + CL_REC_HDR + len)
              end
      end
  end.

Definition load_meta (ps : cl_persist_t) : cl unit :=
  match f_read (ps_meta ps) 0 CL_META_SIZE with
  | Some mb =>
      if get_be32 mb =? CL_META_MAGIC then
        nset (fun n => n <| n_current_term := get_be64 (drop 8 mb) |> <| n_voted_for := int32 (get_be32 (drop 16 mb)) |>)
      else mret tt
  | None => mret tt
  end.

Definition persist_load : cl unit :=
  ps ← nget n_persist;
  match ps with
  | None => mret tt
  | Some ps =>
      load_meta ps;;
      base ← snapshot_load;
      base_offset ← (match base with
                     | Some (bi, bt, bo) =>
                         set_log (fun l => l <| lg_base_index := bi |> <| lg_base_term := bt |> <| lg_applied_index := bi |> <| lg_compacted_to := bi |>);;
                         set_ps (fun ps => ps <| ps_base_index := bi |> <| ps_base_offset := bo |>);;
                         replay_all bi bt;;
                         mret bo
                     | None => mret 0
                     end);
      set_ps (fun ps => ps <| ps_log_size := base_offset |>);;
      l ← nget n_log;
      load_records (S (length (f_data (ps_log ps)))) (lg_base_index l + 1) base_offset;;
      set_log (fun l => l <| lg_durable_index := lg_last_index l |>);;
      r ← syscall;
      (match r with io_ok => set_ps (fun ps => ps <| ps_log ::= f_truncate (ps_log_size ps) |>) | io_fail _ => mret tt end);;
      set_ps (fun ps => ps <| ps_write_pos := ps_log_size ps |> <| ps_alloc_size := ps_log_size ps |>)
  end.

(** The files of the node as they are on disk: the log, its meta data and the
    snapshot.  [true] is the result 0. *)
Definition persist_init (dir : bytes) (disk : file * file * bytes) : cl bool :=
  match dir with
  | [] => mret true
  | _ =>
      r ← syscall;
      match r with
      | io_fail _ => mret false
      | io_ok =>
          ok ← cl_malloc;
          if negb ok then mret false
          else
            ok ← all_ok 3;
            if negb ok then mret false
            else
              let '(log, meta, snap) := disk in
              nset (fun n => n <| n_persist := Some (Persist log meta snap 0 0 0 [] 0 0 [] 0 false) |>);;
              persist_load;;
              mret true
      end
  end.
End Apply.
