(* ===== verification/ClusterRaft.v ===== *)
(** The Raft state machine of a cluster node: proposals, commitment, replication,
    elections and the dispatch of frames (src/src/cluster.c). *)

From S2P Require Import Prelude CLib Crypto AuthStore HashMap Message Queue Store Exchange Broker ClusterWire ClusterNode ClusterLog ClusterApply.

(** * Constants *)

Definition CL_SNAP_WINDOW : Z := 4.
Definition CL_SNAP_CHUNK_BYTES : Z := 256 * 1024.
Definition CL_WINDOW_ENTRIES : Z := 8192.
Definition CL_FLOW_HIGH : Z := 16000.
Definition CL_FLOW_LOW : Z := 6000.
Definition CL_MAX_APPEND_ENTRIES : Z := 512.
Definition CL_MAX_APPEND_BYTES : Z := 2 ^ 20.
Definition CL_APPEND_FIXED : Z := 4 + 8 + 8 + 8 + 8 + 4.
Definition CL_SYNC_LAG : Z := 2000.
Definition CL_FWD_MAX_OPS : Z := 1024.
Definition CL_FWD_MAX_BYTES : Z := 256 * 1024.
Definition CL_INBOX_HIGH : Z := 16000.
Definition CL_INBOX_LOW : Z := 4000.

Definition role_num (r : cluster_role_t) : Z :=
  match r with CL_ROLE_FOLLOWER => 0 | CL_ROLE_CANDIDATE => 1 | CL_ROLE_LEADER => 2 end.
Definition state_code (s : cluster_state_t) : Z :=
  match s with CL_STATE_HEALTHY => 0 | CL_STATE_SYNCING => 1 | CL_STATE_DEGRADED => 2 | CL_STATE_NO_QUORUM => 3 end.

(** The values from the largest to the smallest, by the exchanges of the source. *)
Fixpoint sort_pass (x : Z) (l : list Z) : Z * list Z :=
  match l with
  | [] => (x, [])
  | y :: l => if x <? y then let '(m, l) := sort_pass y l in (m, x :: l) else let '(m, l) := sort_pass x l in (m, y :: l)
  end.

Fixpoint sort_desc (fuel : nat) (l : list Z) : list Z :=
  match fuel, l with
  | S fuel, x :: l => let '(m, l) := sort_pass x l in m :: sort_desc fuel l
  | _, _ => l
  end.

Section Raft.
Context {M : Type} `{!PtrMap M}.
Context (fuel : nat) (regcomp : bytes -> bool).
Abbreviation cl A := (cl M A).
Abbreviation node := (cluster_node M).

Definition is_leader (n : node) : bool := bool_decide (n_role n = CL_ROLE_LEADER).
Definition link_up (p : cluster_peer_t) : bool := bool_decide (p_link_state p = CL_LINK_UP).

(** The indices of the peers. *)
Definition peers : cl (list nat) := nget (fun n => seq 0 (length (n_peers n))).

Fixpoint find_peer_from (i : nat) (node_id : Z) (l : list cluster_peer_t) : option nat :=
  match l with
  | [] => None
  | p :: l => if p_node_id p =? node_id then Some i else find_peer_from (S i) node_id l
  end.
Definition find_peer (n : node) (node_id : Z) : option nat := find_peer_from 0 node_id (n_peers n).

(** * Proposals *)

Definition mark_proposal_status (seq status : Z) : cl unit :=
  if seq =? 0 then mret tt else nset (fun n => n <| n_propose_status ::= <[seq mod CL_STATUS_TABLE_SIZE := (seq, status)]> |>).

Definition push_fwd_ack_pending (log_index origin seq : Z) : cl unit :=
  if seq =? 0 then mret tt
  else
    ok ← cl_malloc;
    if ok : bool then nset (fun n => n <| n_fwd_ack_pending ::= fun l => l ++ [FwdAck log_index origin seq] |>) else mret tt.

Definition resolve_local_fwd_acks : cl unit :=
  n ← nget id;
  if (n_fwd_acked_seq n <=? n_fwd_marked_seq n) || (lg_applied_index (n_log n) <? n_fwd_acked_index n) then mret tt
  else
    let acked := n_fwd_acked_seq n in
    let from := n_fwd_marked_seq n + 1 in
    let oldest := acked - (CL_STATUS_TABLE_SIZE - 1) in
    let from := if (CL_STATUS_TABLE_SIZE <=? acked) && (from <? oldest) then oldest else from in
    for_each (fun i => mark_proposal_status (from + Z.of_nat i) PROPOSAL_COMMITTED) (seq 0 (Z.to_nat (acked + 1 - from)));;
    nset (fun n => n <| n_fwd_marked_seq := acked |>).

(** The acks that [commit] settles: those of this node are marked, of the others the
    highest number and its index are kept. *)
Fixpoint settle_acks (commit : Z) (l : list cl_fwd_ack_t) (bump : list (Z * Z)) : cl (list (Z * Z)) :=
  match l with
  | [] => nset (fun n => n <| n_fwd_ack_pending := [] |>);; mret bump
  | a :: l' =>
      if fa_log_index a <=? commit then
        self ← nget n_self_id;
        let o := fa_origin_node_id a in
        if o =? self then mark_proposal_status (fa_seq a) PROPOSAL_COMMITTED;; settle_acks commit l' bump
        else if (0 <=? o) && (o <? CLUSTER_MAX_NODES) && ((default (0, 0) (bump !! Z.to_nat o)).1 <? fa_seq a) then
          settle_acks commit l' (<[Z.to_nat o := (fa_seq a, fa_log_index a)]> bump)
        else settle_acks commit l' bump
      else nset (fun n => n <| n_fwd_ack_pending := l |>);; mret bump
  end.

Definition send_fwd_ack (id : nat) (b : Z * Z) : cl unit :=
  if b.1 =? 0 then mret tt
  else
    nset (fun n => n <| n_committed_fwd_seq ::= alter (Z.max b.1) id |> <| n_committed_fwd_index ::= alter (Z.max b.2) id |>);;
    n ← nget (fun n => n);
    match find_peer n (Z.of_nat id) with
    | None => mret tt
    | Some i =>
        p ← get_peer i;
        if link_up p then
          let body := put_be64 (default 0 (n_committed_fwd_seq n !! id)) ++ put_be64 (default 0 (n_committed_fwd_index n !! id)) in
          _ ← cl_send i CL_FRAME_FORWARD_ACK 0 (u32 (n_current_term n)) body; mret tt
        else mret tt
    end.

Definition resolve_fwd_acks : cl unit :=
  n ← nget id;
  match n_fwd_ack_pending n with
  | [] => mret tt
  | l =>
      bump ← settle_acks (lg_commit_index (n_log n)) l (replicate 5 (0, 0));
      for_each (fun id => send_fwd_ack id (default (0, 0) (bump !! id))) (seq 0 5)
  end.

(** * Commitment *)

Fixpoint apply_loop (k : nat) : cl unit :=
  match k with
  | O => mret tt
  | S k =>
      l ← nget n_log;
      let idx := lg_applied_index l + 1 in
      (match log_at l idx with Some e => apply_op fuel regcomp e | None => mret tt end);;
      set_log (fun l => l <| lg_applied_index := idx |>);;
      apply_loop k
  end.

Definition apply_committed : cl unit :=
  l ← nget n_log;
  apply_loop (Z.to_nat (lg_commit_index l - lg_applied_index l));;
  resolve_local_fwd_acks.

Definition all_durable_index (n : node) : Z :=
  foldl (fun m p => if p_durable_index p <? m then p_durable_index p else m) (lg_durable_index (n_log n)) (n_peers n).

(** The bodies of the entries up to [upto] are freed. *)
Definition free_bodies (from upto : Z) (l : cluster_log_t) : cluster_log_t :=
  l <| lg_entries ::= imap (fun i e =>
        let idx := lg_base_index l + 1 + Z.of_nat i in
        if (from <? idx) && (idx <=? upto) then e <| e_payload := None |> else e) |>.

Definition compact_payloads (upto : Z) : cl unit :=
  set_log (fun l =>
    let upto := Z.min upto (lg_commit_index l) in
    let l := free_bodies (lg_compacted_to l) upto l in
    l <| lg_compacted_to ::= Z.max upto |>).

(** The index that a majority has. *)
Definition majority_index (n : node) : option Z :=
  let v := if n_durable_commit n then
             (if n_storage_failed n then 0 else lg_durable_index (n_log n)) :: (p_durable_index <$> n_peers n)
           else lg_last_index (n_log n) :: (p_match_index <$> n_peers n) in
  sort_desc (length v) v !! Z.to_nat (n_quorum n - 1).

Definition advance_commit : cl unit :=
  n ← nget id;
  N ← defined (majority_index n);
  (if (lg_commit_index (n_log n) <? N) && (log_term_at (n_log n) N =? n_current_term n) then
     set_log (fun l => l <| lg_commit_index := N |>);;
     apply_committed;;
     resolve_fwd_acks
   else mret tt);;
  n ← nget id;
  compact_payloads (all_durable_index n).

(** * State transfer to a peer *)

Definition snap_reset (i : nat) : cl unit :=
  p ← get_peer i;
  for_each unref_message (drop (sn_mi (p_snap p)) (sn_msgs (p_snap p)));;
  for_each unref_queue (drop (sn_qi (p_snap p)) (sn_queues (p_snap p)));;
  set_peer i (fun p => p <| p_snap := snap_zero |>).

Definition set_snap (i : nat) (f : snap_t -> snap_t) : cl unit := set_peer i (fun p => p <| p_snap ::= f |>).

Definition snap_start (i : nat) : cl unit :=
  snap_reset i;;
  l ← nget n_log;
  let base := lg_compacted_to l in
  qs ← collect_queues;
  set_snap i (fun s => s <| sn_base := base |> <| sn_base_term := log_term_at l base |> <| sn_queues := qs |> <| sn_active := true |>);;
  ok ← cl_malloc;
  if negb ok then snap_reset i
  else
    n ← nget id;
    let body := put_be64 base ++ put_be64 (log_term_at l base) ++ put_be32 (u32 (Z.of_nat (length (n_topo n)))) ++ n_topo n in
    rc ← cl_send i CL_FRAME_SNAP_BEGIN 0 (u32 (n_current_term n)) body;
    if rc =? 0 then mret tt else snap_reset i.

(** The messages of the next queue that has any; [false] when the memory is
    exhausted and the transfer is given up. *)
Fixpoint snap_load_queue (k : nat) (i : nat) : cl bool :=
  match k with
  | O => mret true
  | S k =>
      p ← get_peer i;
      let s := p_snap p in
      if (sn_mi s <? length (sn_msgs s))%nat then mret true
      else
        match sn_queues s !! sn_qi s with
        | None => mret true
        | Some q =>
            set_snap i (fun s => s <| sn_msgs := [] |> <| sn_mi := 0%nat |>);;
            ms ← snapshot_refs q (sn_base s);
            match ms with
            | None => snap_reset i;; mret false
            | Some [] => unref_queue q;; set_snap i (fun s => s <| sn_qi ::= S |>);; snap_load_queue k i
            | Some ms => set_snap i (fun s => s <| sn_msgs := ms |>);; snap_load_queue k i
            end
        end
  end.

(** How many of the messages fit one chunk, at least one. *)
Fixpoint chunk_count (q : queue) (size : Z) (first : bool) (ms : list message) : nat :=
  match ms with
  | [] => 0
  | m :: ms =>
      let size' := size + snap_record_size q m in
      if first || (size' <=? CL_SNAP_CHUNK_BYTES) then S (chunk_count q size' false ms) else 0
  end.

(** One chunk of the current queue; [false] when it could not be sent. *)
Definition send_chunk (i : nat) (s : snap_t) (qp : positive) : cl bool :=
  q ← queue_at qp;
  let rest := drop (sn_mi s) (sn_msgs s) in
  let nrec := chunk_count q 4 true rest in
  let ms := take nrec rest in
  ok ← cl_malloc;
  if negb ok then mret false
  else
    term ← nget n_current_term;
    rc ← cl_send i CL_FRAME_SNAP_CHUNK 0 (u32 term) (put_be32 (Z.of_nat nrec) ++ (ms ≫= snap_write_record q));
    if negb (rc =? 0) then mret false
    else
      for_each unref_message ms;;
      let mi := (sn_mi s + nrec)%nat in
      set_snap i (fun s => s <| sn_mi := mi |> <| sn_unacked_chunks ::= fun z => z + 1 |>);;
      (if (length (sn_msgs s) <=? mi)%nat then
         unref_queue qp;; set_snap i (fun s => s <| sn_qi ::= S |> <| sn_mi := 0%nat |> <| sn_msgs := [] |>)
       else mret tt);;
      mret true.

Fixpoint snap_pump_loop (k : nat) (i : nat) : cl unit :=
  match k with
  | O => mret tt
  | S k =>
      p ← get_peer i;
      let s := p_snap p in
      if negb (sn_active s) || (CL_SNAP_WINDOW <=? sn_unacked_chunks s) then mret tt
      else
        ok ← snap_load_queue (S (S (length (sn_queues s)))) i;
        if negb ok then mret tt
        else
          p ← get_peer i;
          let s := p_snap p in
          match sn_queues s !! sn_qi s with
          | None =>
              if sn_end_sent s then mret tt
              else
                set_snap i (fun s => s <| sn_end_sent := true |>);;
                term ← nget n_current_term;
                _ ← cl_send i CL_FRAME_SNAP_END 0 (u32 term) [];
                mret tt
          | Some qp => ok ← send_chunk i s qp; if ok : bool then snap_pump_loop k i else mret tt
          end
  end.

(** Each round but the last adds a chunk that waits for its ack. *)
Definition snap_pump (i : nat) : cl unit := snap_pump_loop (S (Z.to_nat CL_SNAP_WINDOW)) i.

(** * Replication *)

(** How many entries from [i] on go into one frame. *)
Fixpoint append_count (k : nat) (l : cluster_log_t) (i last size cnt : Z) : Z :=
  match k with
  | O => cnt
  | S k =>
      if (last <? i) || (CL_MAX_APPEND_ENTRIES <=? cnt) then cnt
      else
        let esz := 24 + match log_at l i with Some e => e_len e | None => 0 end in
        if (0 <? cnt) && (CL_MAX_APPEND_BYTES <? size + esz) then cnt else append_count k l (i + 1) last (size + esz) (cnt + 1)
  end.

(** The entries from [i] on, as they are sent. *)
Fixpoint append_entries (k : nat) (l : cluster_log_t) (i : Z) : cl bytes :=
  match k with
  | O => mret []
  | S k =>
      b ← (match log_at l i with Some e => p ← payload_of e; mret (record_bytes e p) | None => mret [] end);
      rest ← append_entries k l (i + 1);
      mret (b ++ rest)
  end.

Definition send_append (i : nat) : cl unit :=
  p ← get_peer i;
  n ← nget id;
  let l := n_log n in
  let ni := if p_next_index p =? 0 then 1 else p_next_index p in
  (if (ni <=? lg_compacted_to l) && (10000 <? u64 (n_now n - n_snap_warn_at n)) then nset (fun n => n <| n_snap_warn_at := n_now n |>) else mret tt);;
  let last := if ni <=? lg_compacted_to l then ni - 1 else lg_last_index l in
  let cnt := append_count (Z.to_nat CL_MAX_APPEND_ENTRIES) l ni last CL_APPEND_FIXED 0 in
  ok ← cl_malloc;
  if negb ok then mret tt
  else
    es ← append_entries (Z.to_nat cnt) l ni;
    let prev := ni - 1 in
    let body := put_be32 (u32 (n_self_id n)) ++ put_be64 prev ++ put_be64 (log_term_at l prev) ++ put_be64 (lg_commit_index l) ++
                put_be64 (all_durable_index n) ++ put_be32 cnt ++ es in
    _ ← cl_send i CL_FRAME_APPEND (if n_throttle n then 1 else 0) (u32 (n_current_term n)) body;
    set_peer i (fun p => p <| p_next_index ::= fun z => u64 (z + cnt) |> <| p_inflight ::= fun z => u64 (z + cnt) |>).

Fixpoint pump_loop (k : nat) (i : nat) (last : Z) : cl unit :=
  match k with
  | O => mret tt
  | S k =>
      p ← get_peer i;
      if (last <? p_next_index p) || (CL_WINDOW_ENTRIES <=? p_inflight p) then mret tt
      else
        send_append i;;
        p' ← get_peer i;
        if p_next_index p' =? p_next_index p then mret tt else pump_loop k i last
  end.

Definition pump_peer (i : nat) : cl unit :=
  p ← get_peer i;
  n ← nget id;
  if negb (is_leader n) || negb (link_up p) then mret tt
  else if sn_active (p_snap p) then snap_pump i
  else if (0 <? lg_compacted_to (n_log n)) && (p_next_index p <=? lg_compacted_to (n_log n)) then snap_start i;; snap_pump i
  else
    let last := lg_last_index (n_log n) in
    pump_loop (S (Z.to_nat (last + 1 - p_next_index p))) i last.

Definition replicate_to_peers : cl unit := l ← peers; for_each pump_peer l.

(** ** Forwarding proposals to the leader *)

(** The proposals of one frame, and the rest. *)
Fixpoint fwd_slice (bytes_ cnt : Z) (l : list cl_proposal_t) : list cl_proposal_t * list cl_proposal_t :=
  match l with
  | [] => ([], [])
  | p :: l' =>
      if (cnt <? CL_FWD_MAX_OPS) && ((cnt =? 0) || (bytes_ + 16 + pp_len p <=? CL_FWD_MAX_BYTES)) then
        let '(a, b) := fwd_slice (bytes_ + 16 + pp_len p) (cnt + 1) l' in (p :: a, b)
      else ([], l)
  end.

Definition fwd_record (p : cl_proposal_t) : bytes :=
  put_be32 (pp_op_type p) ++ put_be32 (u32 (pp_len p)) ++ put_be64 (pp_seq p) ++ pp_data p.

Definition requeue_proposals (l : list cl_proposal_t) : cl unit := nset (fun n => n <| n_propose ::= app l |>).
Definition fwd_pending_append (l : list cl_proposal_t) : cl unit := nset (fun n => n <| n_fwd_pending ::= fun p => p ++ l |>).

(** What could not be sent. *)
Fixpoint forward_loop (k : nat) (l : list cl_proposal_t) : cl (list cl_proposal_t) :=
  match k, l with
  | O, _ | _, [] => mret l
  | S k, _ =>
      n ← nget id;
      match (if 0 <=? n_leader_id n then find_peer n (n_leader_id n) else None) with
      | None => mret l
      | Some i =>
          p ← get_peer i;
          if negb (link_up p) then mret l
          else
            let '(a, rest) := fwd_slice 4 0 l in
            ok ← cl_malloc;
            if negb ok then mret l
            else
              rc ← cl_send i CL_FRAME_FORWARD 0 (u32 (n_current_term n)) (put_be32 (Z.of_nat (length a)) ++ (a ≫= fwd_record));
              if negb (rc =? 0) then mret l
              else
                nset (fun n => n <| n_inbox_depth ::= fun z => z - Z.of_nat (length a) |>);;
                fwd_pending_append a;;
                forward_loop k rest
      end
  end.

Definition clear_congestion : cl unit :=
  nset (fun n => if n_inbox_depth n <? CL_INBOX_LOW then n <| n_fwd_congested := false |> else n).

Definition forward_batch_to_leader (l : list cl_proposal_t) : cl unit :=
  rest ← forward_loop (length l) l;
  (match rest with
   | [] => mret tt
   | _ => requeue_proposals rest;; nset (fun n => n <| n_fwd_retry_timer := true |>)
   end);;
  clear_congestion.

Definition retransmit : cl unit :=
  n ← nget id;
  match n_fwd_pending n with
  | [] => mret tt
  | l => nset (fun n => n <| n_fwd_pending := [] |>);; forward_batch_to_leader l
  end.

Definition peer_on_link_up (i : nat) : cl unit :=
  last ← last_index;
  set_peer i (fun p => p <| p_next_index := last + 1 |> <| p_match_index := 0 |> <| p_durable_index := 0 |> <| p_inflight := 0 |>);;
  snap_reset i;;
  pump_peer i;;
  p ← get_peer i;
  leader ← nget n_leader_id;
  if leader =? p_node_id p then retransmit else mret tt.

(** ** The leader *)

Definition leader_append (op : Z) (data : bytes) : cl unit :=
  n ← nget id;
  if negb (is_leader n) then mret tt
  else
    ok ← log_append (n_current_term n) op data;
    if ok : bool then nset (fun n => n <| n_log_dirty := true |>) else mret tt.

Definition leader_update_flow : cl unit :=
  nset (fun n =>
    let backlog := u64 (lg_last_index (n_log n) - lg_commit_index (n_log n)) in
    if negb (n_throttle n) && (CL_FLOW_HIGH <? backlog) then n <| n_throttle := true |>
    else if n_throttle n && (backlog <? CL_FLOW_LOW) then n <| n_throttle := false |>
    else n).

Definition leader_flush : cl unit :=
  dirty ← nget n_log_dirty;
  if negb dirty then mret tt
  else
    nset (fun n => n <| n_log_dirty := false |>);;
    persist_write_flush;;
    replicate_to_peers;;
    advance_commit;;
    leader_update_flow.

(** ** Submitting proposals *)

Definition propose_internal (op : Z) (data : bytes) : cl Z :=
  nset (fun n => if CL_INBOX_HIGH <? n_inbox_depth n then n <| n_fwd_congested := true |> else n);;
  ok ← cl_malloc;
  if negb ok then mret 0
  else
    next ← nget n_propose_seq_next;
    let seq := u64 (next + 1) in
    nset (fun n => n <| n_propose_seq_next := seq |> <| n_propose ::= fun l => l ++ [Proposal op seq data] |>
                     <| n_inbox_depth ::= fun z => z + 1 |> <| n_propose_woken := true |>);;
    mret seq.

Definition cluster_propose (op : Z) (data : bytes) : cl Z :=
  seq ← propose_internal op data; mret (if seq =? 0 then -1 else 0).

Definition cluster_replicate_add_vhost (vhost : bytes) : cl Z :=
  match enc_strings [vhost] with Some b => cluster_propose CL_OP_ADD_VHOST b | None => mret (-1) end.

(** * Status *)

Definition leader_cluster_state (n : node) : cluster_state_t :=
  let up := filter (fun p => p_link_state p = CL_LINK_UP) (n_peers n) in
  let last := lg_last_index (n_log n) in
  if reachable n <? n_quorum n then CL_STATE_NO_QUORUM
  else if reachable n <? n_nnodes n then CL_STATE_DEGRADED
  else if existsb (fun p => p_match_index p + CL_SYNC_LAG <? last) up then CL_STATE_SYNCING
  else CL_STATE_HEALTHY.

Definition status_member (n : node) (id : Z) : bytes :=
  let '(match_, reach) :=
    if id =? n_self_id n then (lg_last_index (n_log n), true)
    else
      match find_peer n id ≫= (fun i => n_peers n !! i) with
      | Some p => (p_match_index p, link_up p)
      | None => (0, false)
      end in
  put_be64 match_ ++ [if reach : bool then 1 else 0].

Definition send_status : cl unit :=
  n ← nget id;
  if negb (is_leader n) then mret tt
  else
    ok ← cl_malloc;
    if negb ok then mret tt
    else
      let body := [state_code (leader_cluster_state n)] ++ put_be64 (lg_last_index (n_log n)) ++ put_be64 (lg_commit_index (n_log n)) ++
                  put_be32 (u32 (n_nnodes n)) ++ (seq 0 (Z.to_nat (n_nnodes n)) ≫= (fun i => status_member n (Z.of_nat i))) in
      l ← peers;
      for_each (fun i => p ← get_peer i;
        if link_up p then _ ← cl_send i CL_FRAME_STATUS 0 (u32 (n_current_term n)) body; mret tt else mret tt) l.

(** * Elections *)

Definition send_vote_request (prevote : bool) : cl unit :=
  n ← nget id;
  let last := lg_last_index (n_log n) in
  let term := if prevote then u32 (n_current_term n + 1) else u32 (n_current_term n) in
  let body := put_be32 (u32 (n_self_id n)) ++ put_be64 last ++ put_be64 (log_term_at (n_log n) last) in
  l ← peers;
  for_each (fun i => p ← get_peer i;
    if link_up p then _ ← cl_send i (if prevote then CL_FRAME_PREVOTE else CL_FRAME_VOTE_REQ) 0 term body; mret tt else mret tt) l.

Definition log_is_current (n : node) (cand_idx cand_term : Z) : bool :=
  let my_idx := lg_last_index (n_log n) in
  let my_term := log_term_at (n_log n) my_idx in
  if cand_term =? my_term then my_idx <=? cand_idx else my_term <? cand_term.

Definition send_vote_resp (i : nat) (type term : Z) (granted : bool) : cl unit :=
  _ ← cl_send i type 0 term [if granted then 1 else 0]; mret tt.

Definition send_append_resp (i : nat) (success : bool) (hint : Z) : cl unit :=
  n ← nget id;
  _ ← cl_send i CL_FRAME_APPEND_RESP 0 (u32 (n_current_term n))
        ([if success then 1 else 0] ++ put_be64 hint ++ put_be64 (lg_durable_index (n_log n)));
  mret tt.

Definition observe_term (term : Z) : cl bool :=
  cur ← nget n_current_term;
  if term <=? cur then mret false
  else
    nset (fun n => n <| n_current_term := term |> <| n_voted_for := -1 |> <| n_in_prevote := false |> <| n_role := CL_ROLE_FOLLOWER |>
                     <| n_leader_id := -1 |> <| n_throttle := false |> <| n_heartbeat_timer := false |>);;
    arm_election_timer;;
    update_health;;
    persist_meta;;
    mret true.

Definition become_leader : cl unit :=
  nset (fun n => n <| n_role := CL_ROLE_LEADER |> <| n_leader_id := n_self_id n |> <| n_in_prevote := false |> <| n_election_timer := None |>);;
  li ← last_index;
  l ← peers;
  for_each (fun i =>
    set_peer i (fun p => p <| p_next_index := li + 1 |> <| p_match_index := 0 |> <| p_durable_index := 0 |> <| p_inflight := 0 |>);;
    snap_reset i) l;;
  term ← nget n_current_term;
  _ ← log_append term CL_OP_NOOP [];
  update_health;;
  replicate_to_peers;;
  nset (fun n => n <| n_heartbeat_timer := true |>);;
  auth ← nget n_authstore;
  match auth with
  | None => mret tt
  | Some a =>
      known ← defined (authstore_vhost_exists a (cstr "/"));
      if known : bool then mret tt
      else
        _ ← cluster_replicate_add_vhost (cstr "/");
        _ ← defined (authstore_is_open a);
        mret tt
  end.

Definition become_candidate : cl unit :=
  nset (fun n => n <| n_in_prevote := false |> <| n_current_term ::= fun t => u64 (t + 1) |> <| n_voted_for := n_self_id n |>
                   <| n_role := CL_ROLE_CANDIDATE |> <| n_leader_id := -1 |> <| n_votes_granted := 1 |>);;
  persist_meta;;
  update_health;;
  n ← nget id;
  if n_quorum n <=? n_votes_granted n then become_leader
  else send_vote_request false;; arm_election_timer.

Definition start_prevote : cl unit :=
  nset (fun n => n <| n_in_prevote := true |> <| n_prevotes_granted := 1 |> <| n_leader_id := -1 |>);;
  update_health;;
  n ← nget id;
  if n_quorum n <=? n_prevotes_granted n then become_candidate
  else send_vote_request true;; arm_election_timer.
End Raft.
