(* ===== verification/ClusterDispatch.v ===== *)
(** The frames and callbacks of a cluster node: dispatch, links, timers, the inbox
    and the life of a node (the second part of src/src/cluster.c). *)

From S2P Require Import Prelude CLib Crypto AuthStore HashMap Message Queue Store Exchange Broker ClusterWire ClusterNode ClusterLog ClusterApply ClusterRaft.

Section Dispatch.
Context {M : Type} `{!PtrMap M}.
Context (fuel : nat) (regcomp : bytes -> bool) (uv_ip4_addr : bytes -> Z -> bool).
Abbreviation cl A := (cl M A).
Abbreviation node := (cluster_node M).

(** * Links *)

Definition CL_BACKOFF_CAP : Z := 2000.

Definition schedule_reconnect (i : nat) : cl unit :=
  p ← get_peer i;
  if p_closing p then mret tt
  else
    let b := if p_backoff_ms p =? 0 then 100 else p_backoff_ms p * 2 in
    let b := if CL_BACKOFF_CAP <? b then CL_BACKOFF_CAP else b in
    set_peer i (fun p => p <| p_backoff_ms := b |> <| p_reconnect_timer := Some b |>).

Definition get_stream (sid : positive) : cl stream := fun n => (fun s => (s, n)) <$> n_streams n !! sid.
Definition set_stream (sid : positive) (f : stream -> stream) : cl unit := nset (fun n => n <| n_streams ::= alter f sid |>).

(** [uv_close] of a stream that is not being closed. *)
Definition close_once (sid : positive) : cl unit :=
  s ← get_stream sid; if s_closing s then mret tt else set_stream sid (fun s => s <| s_closing := true |>).

Definition on_link_closed (sid : positive) : cl unit :=
  s ← get_stream sid;
  nset (fun n => n <| n_streams ::= delete sid |>);;
  match s_owner s with
  | so_peer i =>
      set_peer i (fun p => p <| p_link := None |>);;
      p ← get_peer i;
      if p_outbound p && negb (p_closing p) then schedule_reconnect i else mret tt
  | _ => mret tt
  end.

Definition drop_peer_link (i : nat) : cl unit :=
  set_peer i (fun p => p <| p_link_state := CL_LINK_DOWN |>);;
  snap_reset i;;
  set_peer i (fun p => p <| p_rbuf := [] |> <| p_rbuf_cap := 0 |>);;
  update_health;;
  p ← get_peer i;
  match p_link p with None => mret tt | Some sid => close_once sid end.

(** * Frames *)

(** [HELLO] and [HELLO_ACK] on a link that is bound to a peer. *)
Definition on_hello (i : nat) (type : Z) (payload : bytes) : cl unit :=
  p ← get_peer i;
  id ← hello_payload_verify type payload;
  if negb (bool_decide (id = Some (p_node_id p))) then drop_peer_link i
  else
    (if type =? CL_FRAME_HELLO then send_hello i CL_FRAME_HELLO_ACK else mret tt);;
    set_peer i (fun p => p <| p_link_state := CL_LINK_UP |>);;
    update_health;;
    peer_on_link_up i.

(** The log of the candidate, of which a short frame says nothing. *)
Definition up_to_date (n : node) (payload : bytes) : bool :=
  if (length payload <? 20)%nat then true else log_is_current n (get_be64 (drop 4 payload)) (get_be64 (drop 12 payload)).

Definition granted (payload : bytes) : bool := match payload with b :: _ => negb (b =? 0) | [] => false end.

Definition on_prevote (i : nat) (term : Z) (payload : bytes) : cl unit :=
  n ← nget id;
  let cur := n_current_term n in
  let fresh_leader := is_leader n || (u64 (n_now n - n_last_leader_contact n) <? n_election_min_ms n) in
  let grant := negb fresh_leader && (u64 (cur + 1) <=? term) && up_to_date n payload in
  send_vote_resp i CL_FRAME_PREVOTE_RESP (u32 cur) grant.

Definition on_prevote_resp (term : Z) (payload : bytes) : cl unit :=
  stepped ← observe_term term;
  n ← nget id;
  if stepped || negb (n_in_prevote n && granted payload) then mret tt
  else
    nset (fun n => n <| n_prevotes_granted ::= fun z => z + 1 |>);;
    if n_quorum n <=? n_prevotes_granted n + 1 then become_candidate else mret tt.

Definition on_vote_req (i : nat) (term : Z) (payload : bytes) : cl unit :=
  _ ← observe_term term;
  n ← nget id;
  p ← get_peer i;
  let cur := n_current_term n in
  let cand := p_node_id p in
  let grant := (term =? cur) && up_to_date n payload && ((n_voted_for n =? -1) || (n_voted_for n =? cand)) in
  (if grant then
     nset (fun n => n <| n_voted_for := cand |>);;
     persist_meta;;
     arm_election_timer
   else mret tt);;
  send_vote_resp i CL_FRAME_VOTE_RESP (u32 cur) grant.

Definition on_vote_resp (term : Z) (payload : bytes) : cl unit :=
  stepped ← observe_term term;
  n ← nget id;
  if stepped || negb (bool_decide (n_role n = CL_ROLE_CANDIDATE) && (term =? n_current_term n) && granted payload) then mret tt
  else
    nset (fun n => n <| n_votes_granted ::= fun z => z + 1 |>);;
    if n_quorum n <=? n_votes_granted n + 1 then become_leader else mret tt.

(** The entries of the frame; [false] when one is cut off or cannot be appended. *)
Fixpoint take_entries (k : nat) (q : bytes) : cl bool :=
  match k with
  | O => mret true
  | S k =>
      if (length q <? 24)%nat then mret false
      else
        let et := get_be64 q in
        let eop := get_be32 (drop 16 q) in
        let elen := get_be32 (drop 20 q) in
        let q := drop 24 q in
        if Z.of_nat (length q) <? elen then mret false
        else
          ok ← log_append et eop (take (Z.to_nat elen) q);
          if ok : bool then take_entries k (drop (Z.to_nat elen) q) else mret false
  end.

Definition follow (i : nat) (flags : Z) : cl unit :=
  p ← get_peer i;
  nset (fun n => n <| n_role := CL_ROLE_FOLLOWER |> <| n_leader_id := p_node_id p |> <| n_in_prevote := false |>
                   <| n_last_leader_contact := n_now n |> <| n_throttle := negb (Z.land flags 1 =? 0) |> <| n_heartbeat_timer := false |>);;
  arm_election_timer;;
  update_health.

Definition reject_append (i : nat) : cl unit := last ← last_index; send_append_resp i false last.

(** What follows when the entries are in the log. *)
Definition appended (i : nat) (leader_commit compact_idx : Z) : cl unit :=
  persist_write_flush;;
  failed ← nget n_storage_failed;
  if failed : bool then reject_append i
  else
    last ← last_index;
    nset (fun n => n <| n_leader_commit_seen := leader_commit |>);;
    commit ← nget (fun n => lg_commit_index (n_log n));
    let newc := Z.min leader_commit last in
    (if commit <? newc then set_log (fun l => l <| lg_commit_index := newc |>);; apply_committed fuel regcomp else mret tt);;
    compact_payloads compact_idx;;
    nset (fun n => n <| n_compact_hint := compact_idx |>);;
    send_append_resp i true last.

Definition on_append (i : nat) (term flags : Z) (payload : bytes) : cl unit :=
  _ ← observe_term term;
  cur ← nget n_current_term;
  if term <? cur then reject_append i
  else
    follow i flags;;
    if Z.of_nat (length payload) <? CL_APPEND_FIXED then reject_append i
    else
      let prev_idx := get_be64 (drop 4 payload) in
      let prev_term := get_be64 (drop 12 payload) in
      let leader_commit := get_be64 (drop 20 payload) in
      let compact_idx := get_be64 (drop 28 payload) in
      let ecount := get_be32 (drop 36 payload) in
      l ← nget n_log;
      let mylast := lg_last_index l in
      if mylast <? prev_idx then send_append_resp i false mylast
      else if (0 <? prev_idx) && negb (log_term_at l prev_idx =? prev_term) then send_append_resp i false (prev_idx - 1)
      else
        log_truncate_from (prev_idx + 1);;
        ok ← take_entries (rounds ecount payload) (drop 40 payload);
        if ok : bool then appended i leader_commit compact_idx else reject_append i.

Definition on_append_resp (i : nat) (term : Z) (payload : bytes) : cl unit :=
  stepped ← observe_term term;
  n ← nget id;
  if stepped || negb (is_leader n) || (length payload <? 9)%nat then mret tt
  else
    let hint := get_be64 (drop 1 payload) in
    (if (17 <=? length payload)%nat then set_peer i (fun p => p <| p_durable_index := get_be64 (drop 9 payload) |>) else mret tt);;
    (if granted payload then
       set_peer i (fun p =>
         let p := p <| p_match_index ::= Z.max hint |> in
         p <| p_inflight := u64 (p_next_index p - 1 - p_match_index p) |>);;
       advance_commit fuel regcomp
     else
       set_peer i (fun p =>
         let p := if u64 (hint + 1) <? p_next_index p then p <| p_next_index := u64 (hint + 1) |> else p in
         p <| p_match_index ::= Z.min hint |> <| p_inflight := 0 |>));;
    pump_peer i.

(** One forwarded operation. *)
Definition take_forwarded (leader : bool) (origin op seq : Z) (data : bytes) : cl unit :=
  if leader then
    before ← last_index;
    leader_append op data;;
    last ← last_index;
    if before <? last then push_fwd_ack_pending last origin seq else mret tt
  else _ ← cluster_propose op data; mret tt.

Fixpoint forwarded_loop (k : nat) (leader : bool) (origin already : Z) (q : bytes) : cl unit :=
  match k with
  | O => mret tt
  | S k =>
      if (length q <? 16)%nat then mret tt
      else
        let op := get_be32 q in
        let len := get_be32 (drop 4 q) in
        let seq := get_be64 (drop 8 q) in
        let q := drop 16 q in
        if Z.of_nat (length q) <? len then mret tt
        else
          (if negb (seq =? 0) && (seq <=? already) then mret tt else take_forwarded leader origin op seq (take (Z.to_nat len) q));;
          forwarded_loop k leader origin already (drop (Z.to_nat len) q)
  end.

Definition on_forward (i : nat) (payload : bytes) : cl unit :=
  if (length payload <? 4)%nat then mret tt
  else
    n ← nget id;
    p ← get_peer i;
    let origin := p_node_id p in
    let already := if (0 <=? origin) && (origin <? CLUSTER_MAX_NODES) then default 0 (n_committed_fwd_seq n !! Z.to_nat origin) else 0 in
    forwarded_loop (rounds (get_be32 payload) payload) (is_leader n) origin already (drop 4 payload).

Definition on_forward_ack (payload : bytes) : cl unit :=
  if (length payload <? 8)%nat then mret tt
  else
    let acked := get_be64 payload in
    let acked_idx := if (16 <=? length payload)%nat then get_be64 (drop 8 payload) else 0 in
    nset (fun n => n <| n_fwd_acked_seq ::= Z.max acked |> <| n_fwd_acked_index ::= Z.max acked_idx |>
                     <| n_fwd_pending ::= filter (fun p => acked < pp_seq p) |>);;
    resolve_local_fwd_acks.

(** ** State transfer, on the side of the follower *)

Definition purge_queue_cb (q : positive) (st : store) : bool * store := (false, snd (on_queue 0%nat q queue_purge st)).

Definition purge_queues : cl unit :=
  _ ← on_world (fun w => (tt, w <| w_store := broker_foreach_queue purge_queue_cb (w_store w) w |>)); mret tt.

(** The log starts again at the boundary, in memory and on disk. *)
Definition reset_log (base bterm : Z) : cl unit :=
  set_log (fun l => l <| lg_entries := [] |> <| lg_base_index := base |> <| lg_base_term := bterm |> <| lg_applied_index := base |>
                      <| lg_compacted_to := base |> <| lg_durable_index := base |> <| lg_commit_index := base |>);;
  ps ← nget n_persist;
  match ps with
  | None => mret tt
  | Some _ =>
      r ← syscall;
      set_ps (fun ps =>
        let ps := match r with io_ok => ps <| ps_log := f_empty |> | io_fail _ => ps end in
        ps <| ps_wbuf := [] |> <| ps_log_size := 0 |> <| ps_write_pos := 0 |> <| ps_alloc_size := 0 |> <| ps_base_index := base |>
           <| ps_base_offset := 0 |> <| ps_dirty := true |>)
  end.

Definition on_snap_begin (i : nat) (term : Z) (payload : bytes) : cl unit :=
  cur ← nget n_current_term;
  if term <? cur then mret tt
  else
    _ ← observe_term term;
    p ← get_peer i;
    nset (fun n => n <| n_role := CL_ROLE_FOLLOWER |> <| n_leader_id := p_node_id p |> <| n_last_leader_contact := n_now n |>);;
    arm_election_timer;;
    if (length payload <? 20)%nat then mret tt
    else
      let base := get_be64 payload in
      let bterm := get_be64 (drop 8 payload) in
      let tlen := get_be32 (drop 16 payload) in
      last ← last_index;
      if Z.of_nat (length payload) - 20 <? tlen then mret tt
      else if base <=? last then mret tt
      else
        purge_queues;;
        reset_log base bterm;;
        ok ← (if tlen =? 0 then mret false else cl_malloc);
        (if ok : bool then
           nset (fun n => n <| n_topo := take (Z.to_nat tlen) (drop 20 payload) |> <| n_topo_cap := tlen |>);;
           replay_all fuel regcomp base bterm
         else mret tt);;
        update_health.

Definition snap_ack (i : nat) (final : bool) : cl unit :=
  n ← nget id;
  _ ← cl_send i CL_FRAME_SNAP_ACK 0 (u32 (n_current_term n)) ([if final then 1 else 0] ++ put_be64 (lg_base_index (n_log n)));
  mret tt.

Definition heard_leader : cl unit := nset (fun n => n <| n_last_leader_contact := n_now n |>);; arm_election_timer.

Definition on_snap_chunk (i : nat) (term : Z) (payload : bytes) : cl unit :=
  cur ← nget n_current_term;
  if term <? cur then mret tt
  else
    heard_leader;;
    if (length payload <? 4)%nat then mret tt
    else
      snap_apply_records fuel (rounds (get_be32 payload) payload) (drop 4 payload);;
      snap_ack i false.

Definition on_snap_end (i : nat) (term : Z) : cl unit :=
  cur ← nget n_current_term;
  if term <? cur then mret tt
  else
    heard_leader;;
    n ← nget id;
    (match n_persist n with
     | Some _ => _ ← snapshot_write (lg_base_index (n_log n)) (lg_base_term (n_log n)) 0; mret tt
     | None => mret tt
     end);;
    snap_ack i true;;
    update_health.

(** ... and of the leader. *)
Definition on_snap_ack (i : nat) (term : Z) (payload : bytes) : cl unit :=
  stepped ← observe_term term;
  n ← nget id;
  p ← get_peer i;
  if stepped || negb (is_leader n) || (length payload <? 9)%nat || negb (sn_active (p_snap p)) then mret tt
  else if granted payload then
    let base := get_be64 (drop 1 payload) in
    snap_reset i;;
    set_peer i (fun p => p <| p_next_index := u64 (base + 1) |> <| p_match_index := base |> <| p_durable_index := base |> <| p_inflight := 0 |>);;
    pump_peer i
  else
    set_snap i (fun s => if 0 <? sn_unacked_chunks s then s <| sn_unacked_chunks ::= fun z => z - 1 |> else s);;
    snap_pump i.

(** The entries of the view, as far as the bytes go. *)
Fixpoint read_view (k : nat) (q : bytes) (old : list (Z * Z)) : list (Z * Z) :=
  match k, old with
  | S k, v :: old =>
      if (length q <? 9)%nat then v :: old else (get_be64 q, default 0 (q !! 8%nat)) :: read_view k (drop 9 q) old
  | _, _ => old
  end.

Definition on_status (term : Z) (payload : bytes) : cl unit :=
  _ ← observe_term term;
  if (length payload <? 21)%nat then mret tt
  else
    let nn := get_be32 (drop 17 payload) in
    if CLUSTER_MAX_NODES <? nn then mret tt
    else
      nset (fun n => n <| n_view ::= read_view (Z.to_nat nn) (drop 21 payload) |> <| n_view_target := get_be64 (drop 1 payload) |>
                       <| n_view_commit := get_be64 (drop 9 payload) |> <| n_view_state := default 0 (payload !! 0%nat) |> <| n_have_view := true |>).

Definition cl_dispatch (i : nat) (h : cluster_frame_hdr_t) (payload : bytes) : cl unit :=
  let type := h_type h in
  let term := h_term h in
  if (type =? CL_FRAME_HELLO) || (type =? CL_FRAME_HELLO_ACK) then on_hello i type payload
  else if type =? CL_FRAME_PREVOTE then on_prevote i term payload
  else if type =? CL_FRAME_PREVOTE_RESP then on_prevote_resp term payload
  else if type =? CL_FRAME_VOTE_REQ then on_vote_req i term payload
  else if type =? CL_FRAME_VOTE_RESP then on_vote_resp term payload
  else if type =? CL_FRAME_APPEND then on_append i term (h_flags h) payload
  else if type =? CL_FRAME_APPEND_RESP then on_append_resp i term payload
  else if type =? CL_FRAME_FORWARD then on_forward i payload
  else if type =? CL_FRAME_FORWARD_ACK then on_forward_ack payload
  else if type =? CL_FRAME_SNAP_BEGIN then on_snap_begin i term payload
  else if type =? CL_FRAME_SNAP_CHUNK then on_snap_chunk i term payload
  else if type =? CL_FRAME_SNAP_END then on_snap_end i term
  else if type =? CL_FRAME_SNAP_ACK then on_snap_ack i term payload
  else if type =? CL_FRAME_STATUS then on_status term payload
  else mret tt.

(** * Reading *)

(** The frames in the buffer of the peer from [off] on; [None] is the result -1.  The
    buffer is read anew for every frame, and a buffer that ends before [off] is read
    outside its bounds. *)
Fixpoint drain_loop (k : nat) (i : nat) (off : nat) : cl (option nat) :=
  match k with
  | O => undefined
  | S k =>
      p ← get_peer i;
      let buf := drop off (p_rbuf p) in
      if (length (p_rbuf p) <? off)%nat then undefined
      else if Z.of_nat (length buf) <? CLUSTER_HDR_SIZE then mret (Some off)
      else
        match cluster_hdr_parse buf with
        | None => mret None
        | Some h =>
            let need := CLUSTER_HDR_SIZE + h_length h in
            if Z.of_nat (length buf) <? need then mret (Some off)
            else
              let payload := take (Z.to_nat (h_length h)) (drop 16 buf) in
              if negb (cluster_crc32 payload =? h_crc32 h) then mret None
              else cl_dispatch i h payload;; drain_loop k i (off + Z.to_nat need)
        end
  end.

(** [true] is the result 0. *)
Definition cl_drain_frames (i : nat) : cl bool :=
  p ← get_peer i;
  off ← drain_loop (S (length (p_rbuf p))) i 0;
  match off with
  | None => mret false
  | Some off => set_peer i (fun p => p <| p_rbuf ::= drop off |>);; mret true
  end.

(** What was read from the link of a peer; [None] is an error. *)
Definition on_peer_read (sid : positive) (data : option bytes) : cl unit :=
  s ← get_stream sid;
  match s_owner s with
  | so_peer i =>
      match data with
      | None => drop_peer_link i
      | Some [] => mret tt
      | Some d =>
          p ← get_peer i;
          r ← buf_append (p_rbuf p) (p_rbuf_cap p) d;
          match r with
          | None => drop_peer_link i
          | Some (b, cap) =>
              set_peer i (fun p => p <| p_rbuf := b |> <| p_rbuf_cap := cap |>);;
              ok ← cl_drain_frames i;
              if ok : bool then leader_flush fuel regcomp else drop_peer_link i
          end
      end
  | _ => undefined
  end.

(** * Connecting *)

Definition open_stream (o : stream_owner) : cl positive :=
  sid ← nget n_next_stream;
  nset (fun n => n <| n_next_stream ::= Pos.succ |> <| n_streams ::= <[sid := Stream o false]> |>);;
  mret sid.

Definition cl_dial (i : nat) : cl unit :=
  p ← get_peer i;
  if negb (p_have_sa p) then schedule_reconnect i
  else
    sid ← open_stream (so_peer i);
    set_peer i (fun p => p <| p_link_state := CL_LINK_CONNECTING |> <| p_link := Some sid |>);;
    ok ← uv;
    if ok : bool then mret tt else close_once sid.

Definition reconnect_timer_cb (i : nat) : cl unit :=
  p ← get_peer i;
  set_peer i (fun p => p <| p_reconnect_timer := None |>);;
  if p_closing p then mret tt else cl_dial i.

(** [uv_close] may not be called twice. *)
Definition on_connect (sid : positive) (status : bool) : cl unit :=
  s ← get_stream sid;
  match s_owner s with
  | so_peer i =>
      set_peer i (fun p => p <| p_link := Some sid |>);;
      if status then
        set_peer i (fun p => p <| p_backoff_ms := 0 |> <| p_link_state := CL_LINK_HANDSHAKING |>);;
        send_hello i CL_FRAME_HELLO
      else if s_closing s then undefined
      else close_once sid
  | _ => undefined
  end.

Definition on_new_peer_conn (status : bool) : cl unit :=
  if negb status then mret tt
  else
    ok ← cl_malloc;
    if negb ok then mret tt
    else
      sid ← open_stream (so_inbound [] 0);
      taken ← uv;
      if taken : bool then mret tt else close_once sid.

(** The link that the peer had before is left to its close callback. *)
Definition orphan_link (i : nat) : cl unit :=
  p ← get_peer i;
  match p_link p with
  | None => mret tt
  | Some old => set_stream old (fun s => s <| s_owner := so_none |>);; set_peer i (fun p => p <| p_link := None |>);; close_once old
  end.

(** The accepted stream becomes the link of the peer; [rest] are the bytes after the
    first frame. *)
Definition bind_link (sid : positive) (i : nat) (rest : bytes) : cl unit :=
  orphan_link i;;
  set_peer i (fun p => p <| p_rbuf := [] |> <| p_rbuf_cap := 0 |> <| p_link := Some sid |>);;
  set_stream sid (fun s => s <| s_owner := so_peer i |>);;
  (match rest with
   | [] => mret tt
   | _ =>
       r ← buf_append [] 0 rest;
       match r with Some (b, cap) => set_peer i (fun p => p <| p_rbuf := b |> <| p_rbuf_cap := cap |>) | None => mret tt end
   end);;
  send_hello i CL_FRAME_HELLO_ACK;;
  set_peer i (fun p => p <| p_link_state := CL_LINK_UP |>);;
  update_health;;
  peer_on_link_up i.

(** The first frame of an accepted stream must be a HELLO with the secret, of a peer
    that is not dialled from here. *)
Definition first_frame (sid : positive) (buf : bytes) : cl unit :=
  if Z.of_nat (length buf) <? CLUSTER_HDR_SIZE then mret tt
  else
    match cluster_hdr_parse buf with
    | None => close_once sid
    | Some h =>
        if negb (h_type h =? CL_FRAME_HELLO) then close_once sid
        else if Z.of_nat (length buf) <? CLUSTER_HDR_SIZE + h_length h then mret tt
        else
          let payload := take (Z.to_nat (h_length h)) (drop 16 buf) in
          if negb (cluster_crc32 payload =? h_crc32 h) then close_once sid
          else
            peer_id ← hello_payload_verify CL_FRAME_HELLO payload;
            n ← nget id;
            match peer_id ≫= find_peer n with
            | None => close_once sid
            | Some i =>
                p ← get_peer i;
                if p_outbound p then close_once sid else bind_link sid i (drop (Z.to_nat (h_length h)) (drop 16 buf))
            end
    end.

Definition on_inbound_read (sid : positive) (data : option bytes) : cl unit :=
  s ← get_stream sid;
  match s_owner s, data with
  | so_inbound _ _, None => close_once sid
  | so_inbound buf cap, Some d =>
      r ← (match d with [] => mret None | _ => buf_append buf cap d end);
      let '(buf, cap) := default (buf, cap) r in
      set_stream sid (fun s => s <| s_owner := so_inbound buf cap |>);;
      first_frame sid buf
  | _, _ => undefined
  end.

(** * Timers *)

Definition election_timer_cb : cl unit :=
  n ← nget id; if is_leader n then mret tt else start_prevote.

Definition heartbeat_timer_cb : cl unit :=
  n ← nget id;
  if negb (is_leader n) then nset (fun n => n <| n_heartbeat_timer := false |>)
  else
    leader_update_flow;;
    last ← last_index;
    l ← peers;
    for_each (fun i =>
      p ← get_peer i;
      if negb (link_up p) then mret tt
      else
        pump_peer i;;
        p ← get_peer i;
        if negb (sn_active (p_snap p)) && (last <? p_next_index p) then send_append i else mret tt) l;;
    tick ← nget (fun n => u32 (n_status_tick n + 1));
    nset (fun n => n <| n_status_tick := tick |>);;
    if tick mod 5 =? 0 then send_status else mret tt.

(** Trimming the memory of the process is left out. *)
Definition fsync_timer_cb : cl unit :=
  persist_sync;;
  n ← nget id;
  (if n_durable_commit n && is_leader n then advance_commit fuel regcomp else mret tt);;
  nset (fun n => n <| n_fwd_pending_tick ::= fun z => z + 1 |>);;
  n ← nget id;
  (if 120 <=? n_fwd_pending_tick n then nset (fun n => n <| n_fwd_pending_tick := 0 |>);; retransmit else mret tt);;
  nset (fun n => n <| n_compact_tick ::= fun z => z + 1 |>);;
  n ← nget id;
  if 80 <=? n_compact_tick n then
    nset (fun n => n <| n_compact_tick := 0 |>);;
    let upto := if is_leader n then all_durable_index n else n_compact_hint n in
    if upto =? 0 then mret tt else log_compact_to upto
  else mret tt.

(** * The inbox *)

Fixpoint drain_proposals (l : list cl_proposal_t) : cl unit :=
  match l with
  | [] => mret tt
  | p :: l =>
      n ← nget id;
      take_forwarded (is_leader n) (n_self_id n) (pp_op_type p) (pp_seq p) (pp_data p);;
      nset (fun n => n <| n_inbox_depth ::= fun z => z - 1 |>);;
      drain_proposals l
  end.

Definition drain_inbox : cl unit :=
  l ← nget n_propose;
  nset (fun n => n <| n_propose := [] |>);;
  n ← nget id;
  if negb (is_leader n) then forward_batch_to_leader l
  else drain_proposals l;; leader_flush fuel regcomp;; clear_congestion.

Definition propose_async_cb : cl unit := nset (fun n => n <| n_propose_woken := false |>);; drain_inbox.
Definition fwd_retry_timer_cb : cl unit := nset (fun n => n <| n_fwd_retry_timer := false |>);; drain_inbox.
End Dispatch.
