(* ===== verification/ClusterApi.v ===== *)
(** The life of a cluster node and what the workers ask of it (the last part of
    src/src/cluster.c). *)

From S2P Require Import Prelude CLib Crypto AuthStore HashMap Message Queue Store Exchange Broker ClusterWire ClusterNode ClusterLog ClusterApply ClusterRaft ClusterDispatch.

Definition CLUSTER_DEFAULT_PORT : Z := 6672.
Definition CL_APPLY_LAG_HIGH : Z := 20000.
Definition CL_APPLY_LAG_LOW : Z := 15000.

(** * Configuration *)

Record cluster_config_t := ClusterConfig {
  cc_self_id : Z; cc_nnodes : Z; cc_bind_addr : bytes; cc_cluster_port : Z; cc_node_addr : list bytes; cc_data_dir : bytes;
  cc_election_min_ms : Z; cc_election_max_ms : Z; cc_heartbeat_ms : Z; cc_secret : bytes; cc_durable_commit : bool
}.

#[global] Instance cluster_config_settable : Settable cluster_config_t := fun c =>
  ClusterConfig (cc_self_id c) (cc_nnodes c) (cc_bind_addr c) (cc_cluster_port c) (cc_node_addr c) (cc_data_dir c) (cc_election_min_ms c)
    (cc_election_max_ms c) (cc_heartbeat_ms c) (cc_secret c) (cc_durable_commit c).

Definition cluster_config_defaults : cluster_config_t :=
  ClusterConfig 0 3 (cstr "0.0.0.0") CLUSTER_DEFAULT_PORT (replicate 5 []) [] 1000 2000 200 [] true.

Section Api.
Context {M : Type} `{!PtrMap M}.
Context (fuel : nat) (regcomp : bytes -> bool) (uv_ip4_addr : bytes -> Z -> bool).
Abbreviation cl A := (cl M A).
Abbreviation node := (cluster_node M).

(** * Life *)

Definition new_peer (cfg : cluster_config_t) (id : Z) : cluster_peer_t :=
  let addr := snprintf_str 72 (default [] (cc_node_addr cfg !! Z.to_nat id)) in
  Peer id addr (parse_addr uv_ip4_addr addr) CL_LINK_DOWN (cc_self_id cfg <? id) false None None 0 0 0 0 snap_zero 0 [] 0.

(** The node before its files are read; [mem], [io] and [uv_] are the outcomes to
    come. *)
Definition blank_node (cfg : cluster_config_t) (broker : option (world M)) (auth : option authstore) (mem : oracle) (io : list io_result) (uv_ : list bool)
    : node :=
  let self := cc_self_id cfg in
  {| n_self_id := self; n_nnodes := cc_nnodes cfg; n_quorum := cc_nnodes cfg / 2 + 1;
     n_self_addr := if (0 <=? self) && (self <? CLUSTER_MAX_NODES) then snprintf_str 72 (default [] (cc_node_addr cfg !! Z.to_nat self)) else [];
     n_secret := snprintf_str 128 (cc_secret cfg); n_durable_commit := cc_durable_commit cfg; n_peers := [];
     n_current_term := 0; n_voted_for := -1; n_role := CL_ROLE_FOLLOWER; n_leader_id := -1; n_votes_granted := 0; n_prevotes_granted := 0;
     n_in_prevote := false; n_last_leader_contact := 0; n_log := log_zero; n_persist := None; n_log_dirty := false; n_inbox_depth := 0;
     n_throttle := false; n_leader_commit_seen := 0; n_apply_lag_throttle := false; n_view := replicate 5 (0, 0); n_view_target := 0;
     n_view_commit := 0; n_view_state := 0; n_have_view := false; n_status_tick := 0; n_election_timer := None; n_heartbeat_timer := false;
     n_fsync_timer := false; n_fwd_retry_timer := false; n_fwd_congested := false; n_election_min_ms := cc_election_min_ms cfg;
     n_election_max_ms := cc_election_max_ms cfg; n_heartbeat_ms := cc_heartbeat_ms cfg;
     n_rng_state := Z.lxor 0x9E3779B97F4A7C15 (u64 (u64 (self + 1) * 0xD1B54A32D192ED03));
     n_propose := []; n_propose_woken := false; n_propose_seq_next := 0; n_propose_status := ∅; n_fwd_pending := []; n_fwd_pending_tick := 0;
     n_committed_fwd_seq := replicate 5 0; n_committed_fwd_index := replicate 5 0; n_fwd_acked_seq := 0; n_fwd_acked_index := 0;
     n_fwd_marked_seq := 0; n_fwd_ack_pending := []; n_health := CL_HEALTH_ISOLATED; n_storage_failed := false; n_broker := broker;
     n_authstore := auth; n_running := false; n_topo := []; n_topo_cap := 0; n_compact_tick := 0; n_compact_hint := 0; n_snap_warn_at := 0;
     n_streams := ∅; n_next_stream := 1; n_listening := false; n_stopping := false; n_now := 0; n_mem := mem; n_io := io; n_uv := uv_; n_out := [] |}.

(** [None] is no defined outcome, [Some None] the null pointer. *)
Definition cluster_node_new (cfg : cluster_config_t) (disk : file * file * bytes) (broker : option (world M)) (auth : option authstore)
    (mem : oracle) (io : list io_result) (uv_ : list bool) : option (option node) :=
  if (cc_nnodes cfg <? 1) || (CLUSTER_MAX_NODES <? cc_nnodes cfg) then Some None
  else if (length (cc_secret cfg) =? 0)%nat then Some None
  else
    let '(ok, mem) := malloc mem in
    if negb ok then Some None
    else
      match persist_init fuel regcomp (cc_data_dir cfg) disk (blank_node cfg broker auth mem io uv_) with
      | None => None
      | Some (false, _) => Some None
      | Some (true, n) =>
          let ids := filter (fun id => id <> cc_self_id cfg) (Z.of_nat <$> seq 0 (Z.to_nat (cc_nnodes cfg))) in
          Some (Some (n <| n_peers := new_peer cfg <$> ids |>))
      end.

Definition cluster_node_listen (bind_addr : bytes) (port : Z) : cl bool :=
  ok ← uv;
  if negb ok then mret false
  else if negb (uv_ip4_addr bind_addr port) then mret false
  else
    ok ← uv;
    if negb ok then mret false
    else ok ← uv; if ok : bool then nset (fun n => n <| n_listening := true |>);; mret true else mret false.

Definition cluster_node_start : cl unit :=
  l ← peers;
  for_each (fun i => p ← get_peer i; if p_outbound p then cl_dial i else mret tt) l;;
  arm_election_timer;;
  nset (fun n => n <| n_fsync_timer := bool_decide (is_Some (n_persist n)) |> <| n_running := true |>).

Definition close_peer (i : nat) : cl unit :=
  set_peer i (fun p => p <| p_closing := true |> <| p_reconnect_timer := None |>);;
  p ← get_peer i;
  match p_link p with None => mret tt | Some sid => close_once sid end.

Definition cluster_node_stop : cl unit :=
  running ← nget n_running;
  if negb running then mret tt
  else
    nset (fun n => n <| n_running := false |>);;
    persist_sync;;
    l ← peers;
    for_each close_peer l;;
    nset (fun n => n <| n_listening := false |> <| n_election_timer := None |> <| n_heartbeat_timer := false |> <| n_fsync_timer := false |>
                     <| n_fwd_retry_timer := false |>).

Definition cluster_node_request_shutdown (installed : bool) : cl unit :=
  if installed then nset (fun n => n <| n_stopping := true |>) else mret tt.

Definition shutdown_async_cb : cl unit := nset (fun n => n <| n_stopping := false |>);; cluster_node_stop.

(** * Queries *)

Definition cluster_role_of (n : node) : cluster_role_t := n_role n.
Definition cluster_leader_id (n : node) : Z := n_leader_id n.
Definition cluster_is_leader (n : node) : bool := is_leader n.
Definition cluster_term (n : node) : Z := n_current_term n.
Definition cluster_health (n : node) : cluster_health_t := n_health n.

(** The mark of the apply lag moves with the query. *)
Definition lag_throttle (n : node) : bool :=
  let seen := n_leader_commit_seen n in
  let applied := lg_applied_index (n_log n) in
  let lag := if applied <? seen then seen - applied else 0 in
  if negb (n_apply_lag_throttle n) && (CL_APPLY_LAG_HIGH <? lag) then true
  else if n_apply_lag_throttle n && (lag <? CL_APPLY_LAG_LOW) then false
  else n_apply_lag_throttle n.

Definition should_throttle : cl bool :=
  nset (fun n => n <| n_apply_lag_throttle := lag_throttle n |>);;
  nget (fun n => n_throttle n || n_fwd_congested n || n_apply_lag_throttle n).

Definition proposal_status (n : node) (seq : Z) : Z :=
  if seq =? 0 then PROPOSAL_REJECTED
  else
    let '(got, val) := default (0, 0) (n_propose_status n !! (seq mod CL_STATUS_TABLE_SIZE)) in
    if got =? seq then val else PROPOSAL_PENDING.

(** * Proposals of the workers *)

Definition cluster_propose_tracked (op : Z) (data : bytes) : cl Z := propose_internal op data.

(** An operation whose names are too long is refused. *)
Definition tracked (op : Z) (data : option bytes) : cl Z := match data with Some b => cluster_propose_tracked op b | None => mret 0 end.
Definition untracked (op : Z) (data : option bytes) : cl Z := match data with Some b => cluster_propose op b | None => mret (-1) end.

Definition cluster_replicate_declare_queue (vhost name : bytes) (flags overflow max_length max_bytes : Z) (dlx dlx_rkey : option bytes) : cl Z :=
  tracked CL_OP_DECLARE_QUEUE (enc_declare_queue vhost name flags overflow max_length max_bytes (default [] dlx) (default [] dlx_rkey)).
Definition cluster_replicate_declare_exchange (vhost name : bytes) (type flags : Z) : cl Z :=
  tracked CL_OP_DECLARE_EXCH (enc_declare_exchange vhost name type flags).
Definition cluster_replicate_bind (vhost queue exchange routing_key : bytes) : cl Z :=
  tracked CL_OP_BIND (enc_strings [vhost; queue; exchange; routing_key]).
Definition cluster_replicate_delete_queue (vhost queue : bytes) : cl Z := tracked CL_OP_DELETE_QUEUE (enc_strings [vhost; queue]).

(** The encoding of a message is allocated. *)
Definition publish_op (vhost exchange routing_key body props : bytes) : cl (option bytes) :=
  match encode_publish_op vhost exchange routing_key body props with
  | None => mret None
  | Some b => ok ← cl_malloc; mret (if ok : bool then Some b else None)
  end.
Definition cluster_replicate_publish (vhost exchange routing_key body props : bytes) : cl Z :=
  b ← publish_op vhost exchange routing_key body props; untracked CL_OP_PUBLISH b.
Definition cluster_replicate_publish_tracked (vhost exchange routing_key body props : bytes) : cl Z :=
  b ← publish_op vhost exchange routing_key body props; tracked CL_OP_PUBLISH b.

Definition cluster_replicate_consume (vhost queue : bytes) (watermark : Z) : cl Z := untracked CL_OP_ACK (enc_consume vhost queue watermark).
Definition cluster_replicate_del_vhost (vhost : bytes) : cl Z := untracked CL_OP_DEL_VHOST (enc_strings [vhost]).
Definition cluster_replicate_add_user (user pass_hash : bytes) (tags : Z) : cl Z := untracked CL_OP_ADD_USER (enc_add_user user pass_hash tags).
Definition cluster_replicate_del_user (user : bytes) : cl Z := untracked CL_OP_DEL_USER (enc_strings [user]).
Definition cluster_replicate_set_perm (user vhost configure write read : bytes) : cl Z :=
  untracked CL_OP_SET_PERM (enc_strings [user; vhost; configure; write; read]).
Definition cluster_replicate_clear_perm (user vhost : bytes) : cl Z := untracked CL_OP_CLEAR_PERM (enc_strings [user; vhost]).

(** * Status *)

Record cluster_member_t := Member {
  mm_node_id : Z; mm_is_self : bool; mm_is_leader : bool; mm_reachable : Z; mm_match_index : Z; mm_addr : bytes
}.

Record cluster_status_t := ClStatus {
  cs_self_id : Z; cs_nnodes : Z; cs_leader_id : Z; cs_quorum : Z; cs_term : Z; cs_commit_index : Z; cs_last_index : Z; cs_target_index : Z;
  cs_role : cluster_role_t; cs_health : cluster_health_t; cs_state : Z; cs_storage_failed : bool; cs_members : list cluster_member_t
}.

Definition status_of_member (n : node) (id : Z) : cluster_member_t :=
  let lead := n_leader_id n =? id in
  if id =? n_self_id n then Member id true lead 1 (lg_last_index (n_log n)) (n_self_addr n)
  else
    match find_peer n id ≫= (fun i => n_peers n !! i) with
    | None => Member id false lead 0 0 []
    | Some p =>
        if is_leader n then Member id false lead (if link_up p then 1 else 0) (p_match_index p) (p_addr p)
        else
          let v := default (0, 0) (n_view n !! Z.to_nat id) in
          if n_have_view n then Member id false lead v.2 v.1 (p_addr p) else Member id false lead 0 0 (p_addr p)
    end.

Definition cluster_get_status (n : node) : cluster_status_t :=
  let state := if is_leader n then state_code (leader_cluster_state n)
               else if n_have_view n then n_view_state n
               else if bool_decide (n_health n = CL_HEALTH_OK) then state_code CL_STATE_HEALTHY else state_code CL_STATE_NO_QUORUM in
  ClStatus (n_self_id n) (n_nnodes n) (n_leader_id n) (n_quorum n) (n_current_term n) (lg_commit_index (n_log n)) (lg_last_index (n_log n))
    (if is_leader n then lg_last_index (n_log n) else n_view_target n) (n_role n) (n_health n) state (n_storage_failed n)
    (status_of_member n ∘ Z.of_nat <$> seq 0 (Z.to_nat (Z.min (n_nnodes n) CLUSTER_MAX_NODES))).
End Api.
