(* ===== verification/ClusterVotes.v ===== *)
(** What the code of a cluster node does to the term, the vote and the role: most of
    it leaves them alone ([calm]), a higher term is adopted with the vote reset
    ([moves]). *)

From S2P Require Import Prelude CLib Crypto AuthStore HashMap Message Queue Store Exchange Broker ClusterWire ClusterNode ClusterLog ClusterApply ClusterRaft ClusterDispatch ClusterApi.

(** The frames that elections depend on: a request for a vote and a vote, with their
    term. *)
Inductive vmsg := VReq (term : Z) | VGrant (term : Z).

Definition vmsg_of (f : mesh_frame) : option vmsg :=
  let h := fr_hdr f in
  if h_type h =? CL_FRAME_VOTE_REQ then Some (VReq (h_term h))
  else if (h_type h =? CL_FRAME_VOTE_RESP) && granted (fr_payload f) then Some (VGrant (h_term h))
  else None.

Definition votes_of (out : list (nat * mesh_frame)) : list (nat * vmsg) := omap (fun kf => pair kf.1 <$> vmsg_of kf.2) out.

Lemma votes_of_app a b : votes_of (a ++ b) = votes_of a ++ votes_of b.
Proof. apply omap_app. Qed.

(** The term and the vote that a start would read from the file. *)
Definition meta_of (f : file) : Z * Z :=
  match f_read f 0 CL_META_SIZE with
  | Some mb => if get_be32 mb =? CL_META_MAGIC then (get_be64 (drop 8 mb), int32 (get_be32 (drop 16 mb))) else (0, -1)
  | None => (0, -1)
  end.

Section Votes.
Context {M : Type} `{!PtrMap M}.
Context (fuel : nat) (regcomp : bytes -> bool).
Abbreviation cl A := (cl M A).
Abbreviation node := (cluster_node M).
Implicit Types (n : node).

Definition durable n : Prop :=
  0 <= n_current_term n < 2 ^ 64 -> -1 <= n_voted_for n < 2 ^ 31 ->
  forall ps, n_persist n = Some ps -> n_storage_failed n = false -> meta_of (ps_meta ps) = (n_current_term n, n_voted_for n).

Definition ids n := (n_self_id n, n_nnodes n, n_quorum n, p_node_id <$> n_peers n).
Definition ballot n := (n_current_term n, n_voted_for n, n_votes_granted n).

Record calm n n' : Prop := Calm {
  ca_ids : ids n' = ids n;
  ca_ballot : ballot n' = ballot n;
  ca_role : n_role n' = n_role n \/ n_role n' = CL_ROLE_FOLLOWER;
  ca_durable : durable n -> durable n';
  ca_out : votes_of (n_out n') = votes_of (n_out n)
}.

Lemma cl_bind_Some {A B} (m : cl A) (f : A -> cl B) n b n' :
  (m ≫= f) n = Some (b, n') -> exists a n1, m n = Some (a, n1) /\ f a n1 = Some (b, n').
Proof. unfold mbind, cl_bind. destruct (m n) as [[a n1]|]; [|done]. eauto. Qed.

Lemma nset_Some f n u n' : nset f n = Some (u, n') -> n' = f n.
Proof. by intros [= _ <-]. Qed.

Lemma nget_Some {A} (f : node -> A) n a n' : nget f n = Some (a, n') -> a = f n /\ n' = n.
Proof. by intros [= <- <-]. Qed.

Lemma ret_Some {A} (a b : A) n n' : (mret a : cl A) n = Some (b, n') -> b = a /\ n' = n.
Proof. by intros [= <- <-]. Qed.

Lemma calm_votes_refl n : calm n n.
Proof. constructor; auto. Qed.

Lemma calm_votes_trans n1 n2 n3 : calm n1 n2 -> calm n2 n3 -> calm n1 n3.
Proof. intros [A1 A2 A3 A4 A5] [B1 B2 B3 B4 B5]. constructor; try congruence; auto. destruct B3 as [->|]; auto. Qed.

Definition calm_m {A} (m : cl A) : Prop := forall n a n', m n = Some (a, n') -> calm n n'.

Lemma calm_ret {A} (a : A) : calm_m (mret a).
Proof. intros n b n' [= <- <-]. apply calm_votes_refl. Qed.

Lemma calm_bind {A B} (m : cl A) (f : A -> cl B) : calm_m m -> (forall a, calm_m (f a)) -> calm_m (m ≫= f).
Proof.
  intros Hm Hf n b n'. unfold mbind, cl_bind. destruct (m n) as [[a n1]|] eqn:E; [|done]. intros E2. eapply calm_votes_trans; [by eapply Hm | by eapply Hf].
Qed.

Lemma calm_nget {A} (f : node -> A) : calm_m (nget f).
Proof. intros n a n' [= _ <-]. apply calm_votes_refl. Qed.

Lemma calm_undefined {A} : calm_m (undefined (A := A)).
Proof. intros n a n' [=]. Qed.

Lemma calm_defined {A} (o : option A) : calm_m (defined o).
Proof. intros n a n'. unfold defined. destruct o; [|done]. intros [= _ <-]. apply calm_votes_refl. Qed.

Lemma calm_nset f : (forall n, calm n (f n)) -> calm_m (nset f).
Proof. intros Hf n a n' [= _ <-]. apply Hf. Qed.

Lemma calm_set_log f : calm_m (set_log f).
Proof. apply calm_nset. intros n. constructor; auto. Qed.

Lemma calm_get_peer i : calm_m (get_peer i).
Proof. intros n a n'. unfold get_peer. destruct (n_peers n !! i); [|done]. intros [= _ <-]. apply calm_votes_refl. Qed.

Lemma alter_ids f i (l : list cluster_peer_t) : (forall p, p_node_id (f p) = p_node_id p) -> p_node_id <$> alter f i l = p_node_id <$> l.
Proof.
  intros Hf. apply list_eq. intros j. rewrite !list_lookup_fmap. destruct (decide (i = j)) as [->|].
  - rewrite list_lookup_alter_eq. destruct (l !! j); simpl; [by rewrite Hf | done].
  - by rewrite list_lookup_alter_ne.
Qed.

Lemma calm_set_peer i f : (forall p, p_node_id (f p) = p_node_id p) -> calm_m (set_peer i f).
Proof. intros Hf. apply calm_nset. intros n. constructor; auto. unfold ids. simpl. by rewrite alter_ids. Qed.

Lemma calm_set_ps f : (forall ps, ps_meta (f ps) = ps_meta ps) -> calm_m (set_ps f).
Proof.
  intros Hf. apply calm_nset. intros n. constructor; auto. intros Hd Ht Hv ps. simpl. intros (ps0 & E & ->)%fmap_Some Hs. rewrite Hf. by apply Hd.
Qed.

Lemma calm_malloc : calm_m cl_malloc.
Proof. intros n a n'. unfold cl_malloc. destruct (malloc _) as [ok o]. intros [= _ <-]. constructor; auto. Qed.

Lemma calm_syscall : calm_m syscall.
Proof. intros n a n'. unfold syscall. destruct (n_io n); intros [= _ <-]; [apply calm_votes_refl | constructor; auto]. Qed.

Lemma calm_uv : calm_m uv.
Proof. intros n a n'. unfold uv. destruct (n_uv n); intros [= _ <-]; [apply calm_votes_refl | constructor; auto]. Qed.

Lemma calm_for_each {A} (f : A -> cl unit) l : (forall x, calm_m (f x)) -> calm_m (for_each f l).
Proof. intros Hf. induction l as [|x l IH]; [apply calm_ret | apply calm_bind; auto]. Qed.

Lemma calm_on_world {A} (f : world M -> A * world M) : calm_m (on_world f).
Proof.
  intros n a n'. unfold on_world. destruct (n_broker n); [|intros [= _ <-]; apply calm_votes_refl]. destruct (f _). intros [= _ <-]. constructor; auto.
Qed.

Lemma calm_try_world {A} (f : world M -> option (A * world M)) : calm_m (try_world f).
Proof.
  intros n a n'. unfold try_world. destruct (n_broker n); [|done]. destruct (f _) as [[]|]; [|done]. intros [= _ <-]. constructor; auto.
Qed.

Lemma calm_on_auth {A} (f : authstore -> option (A * authstore)) : calm_m (on_auth f).
Proof.
  intros n a n'. unfold on_auth. destruct (n_authstore n); [|intros [= _ <-]; apply calm_votes_refl]. destruct (f _) as [[]|]; [|done].
  intros [= _ <-]. constructor; auto.
Qed.
End Votes.

(** The test of a computation that has returned. *)
Ltac cl_if H := match type of H with (if ?c then _ else _) _ = _ => let Hc := fresh "Hc" in destruct c eqn:Hc end.

Create HintDb calm.
#[export] Hint Resolve calm_ret calm_nget calm_undefined calm_defined calm_set_log calm_get_peer calm_malloc calm_syscall calm_uv calm_on_world
  calm_try_world calm_on_auth : calm.

(** An update of the fields that votes do not depend on. *)
Ltac calm_update := intros; repeat case_match; constructor; solve [done | by left | by right | auto].

Ltac calm_step :=
  match goal with
  | |- calm_m (mbind _ _) => apply calm_bind; [|intros]
  | |- calm_m (for_each _ _) => apply calm_for_each; intros
  | |- calm_m (nset _) => apply calm_nset; calm_update
  | |- calm_m (set_peer _ _) => apply calm_set_peer; intros; repeat case_match; done
  | |- calm_m (set_ps _) => apply calm_set_ps; intros; repeat case_match; done
  | |- calm_m (match ?x with _ => _ end) => destruct x
  | |- calm_m _ => solve [auto with calm]
  end.

Ltac calm_auto := intros; repeat calm_step.

(** * The first part of cluster.c *)

Lemma f_read_write b f : f_read (f_write 0 b f) 0 (Z.of_nat (length b)) = Some b.
Proof.
  unfold f_read, f_write. cbn [f_size f_data]. replace (Z.to_nat 0) with 0%nat by done. rewrite drop_0, take_0, Z.max_comm.
  rewrite (proj2 (Z.leb_le _ _)) by lia. replace (0 - length (f_data f))%nat with 0%nat by lia. simpl.
  rewrite Nat2Z.id, take_app_length, Nat.sub_diag. by rewrite app_nil_r.
Qed.

Lemma meta_of_bytes t v f : 0 <= t < 2 ^ 64 -> -1 <= v < 2 ^ 31 -> meta_of (f_write 0 (meta_bytes t v) f) = (t, v).
Proof.
  intros Ht Hv. unfold meta_of. replace CL_META_SIZE with (Z.of_nat (length (meta_bytes t v))) by (unfold meta_bytes, put_be64; done).
  rewrite f_read_write. unfold meta_bytes. rewrite get_put_be32 by done. rewrite Z.eqb_refl.
  replace (drop 8 _) with (put_be64 t ++ put_be32 (u32 v) ++ [0; 0; 0; 0]) by done.
  replace (drop 16 _) with (put_be32 (u32 v) ++ [0; 0; 0; 0]) by done.
  rewrite get_put_be64, get_put_be32 by (done || apply u32_range). f_equal. unfold int32. destruct (decide (v = -1)) as [->|]; [done|].
  rewrite u32_small by lia. case_match; lia.
Qed.

Section LogVotes.
Context {M : Type} `{!PtrMap M}.
Context (fuel : nat) (regcomp : bytes -> bool).
Implicit Types (n : cluster_node M).

Lemma calm_election_timeout : calm_m (M := M) election_timeout_ms.
Proof. unfold election_timeout_ms. calm_auto. Qed.
#[local] Hint Resolve calm_election_timeout : calm.

Lemma calm_arm : calm_m (M := M) arm_election_timer.
Proof. unfold arm_election_timer. calm_auto. Qed.

Lemma calm_update_health : calm_m (M := M) update_health.
Proof. unfold update_health. calm_auto. Qed.
#[local] Hint Resolve calm_arm calm_update_health : calm.

Lemma calm_failed_write : calm_m (M := M) (nset (fun n => n <| n_storage_failed := true |>)).
Proof. apply calm_nset. intros n. constructor; auto. by intros Hd Ht Hv ps E. Qed.
#[local] Hint Resolve calm_failed_write : calm.

Lemma calm_storage_write_failed : calm_m (M := M) storage_write_failed.
Proof. unfold storage_write_failed. apply calm_bind; [auto with calm|]. calm_auto. Qed.
#[local] Hint Resolve calm_storage_write_failed : calm.

Lemma storage_write_failed_fails n a n' : storage_write_failed n = Some (a, n') -> n_storage_failed n' = true.
Proof.
  unfold storage_write_failed, arm_election_timer, election_timeout_ms, update_health, mbind, cl_bind, nset, nget, mret, cl_ret. simpl.
  repeat case_match; simplify_eq; intros; simplify_eq; done.
Qed.

(** The file has the term and the vote, or the node knows that it failed. *)
Lemma persist_meta_durable n a n' : persist_meta n = Some (a, n') -> durable n'.
Proof.
  unfold persist_meta. unfold mbind at 1, cl_bind at 1, nget at 1. cbn [id]. destruct (n_persist n) as [ps|] eqn:Ep.
  2:{ intros [= _ <-] _ _ ps. by rewrite Ep. }
  assert (forall (m : cl M unit) n0 b n1, (m ;; storage_write_failed) n0 = Some (b, n1) -> durable n1) as Hf.
  { intros m n0 b n1. unfold mbind, cl_bind. destruct (m n0) as [[? n2]|]; [|done]. intros E _ _ ps' _. by rewrite (storage_write_failed_fails _ _ _ E). }
  unfold mbind at 1, cl_bind at 1. destruct (syscall n) as [[[|k] n1]|] eqn:Es; [|apply Hf|done].
  assert (ballot n1 = ballot n /\ n_persist n1 = n_persist n) as [Hb Hp].
  { revert Es. unfold syscall. destruct (n_io n); intros E; simplify_eq; done. }
  unfold set_ps, mbind, cl_bind, nset, syscall. cbn. destruct (n_io n1) as [|[|k] l]; cbn.
  3:{ intros E _ _ ps' _. by rewrite (storage_write_failed_fails _ _ _ E). }
  all: intros [= _ <-] Ht Hv ps'; cbn in *; rewrite Hp, Ep; intros [= <-] _; cbn; unfold ballot in Hb; injection Hb as E1 E2 E3; rewrite E1, E2 in *; by apply meta_of_bytes.
Qed.

Lemma calm_persist_meta : calm_m (M := M) persist_meta.
Proof.
  assert (forall f n r n', (set_ps f;; storage_write_failed) n = Some (r, n') -> ids n' = ids n /\ ballot n' = ballot n /\
    (n_role n' = n_role n \/ n_role n' = CL_ROLE_FOLLOWER) /\ votes_of (n_out n') = votes_of (n_out n)) as Hf.
  { intros f n r n' E. by destruct (calm_storage_write_failed _ _ _ E). }
  intros n a n' E. apply persist_meta_durable in E as Hd. revert E. unfold persist_meta. unfold mbind at 1, cl_bind at 1, nget at 1. cbn [id].
  destruct (n_persist n) as [ps|]; [|intros [= _ <-]; apply calm_votes_refl].
  unfold mbind at 1, cl_bind at 1. destruct (syscall n) as [[r n1]|] eqn:Es; [|done]. apply calm_syscall in Es as [C1 C2 C3 C4 C5]. intros E.
  assert (ids n' = ids n1 /\ ballot n' = ballot n1 /\ (n_role n' = n_role n1 \/ n_role n' = CL_ROLE_FOLLOWER) /\
    votes_of (n_out n') = votes_of (n_out n1)) as (D1 & D2 & D3 & D4).
  2:{ constructor; [congruence | congruence | | done | congruence]. destruct D3 as [->|]; auto. }
  destruct r as [|k]; [|by eapply Hf]. revert E. unfold set_ps, mbind, cl_bind, nset, syscall. cbn. destruct (n_io n1) as [|[|k] l]; cbn.
  1-2: intros [= _ <-]; by auto.
  intros E. by destruct (calm_storage_write_failed _ _ _ E).
Qed.
End LogVotes.
#[export] Hint Resolve calm_election_timeout calm_arm calm_update_health calm_storage_write_failed calm_persist_meta : calm.
