(* ===== verification/ClusterCalm.v ===== *)
(** The code of a cluster node that has nothing to do with elections leaves the term,
    the vote and the requests for votes alone. *)

From S2P Require Import Prelude CLib Crypto AuthStore HashMap Message Queue Store Exchange Broker ClusterWire ClusterNode ClusterLog ClusterApply ClusterRaft ClusterDispatch ClusterApi ClusterVotes.

Lemma calm_buf_append {M : Type} `{!PtrMap M} b c d : calm_m (M := M) (buf_append b c d).
Proof. unfold buf_append. calm_auto. Qed.
#[export] Hint Resolve calm_buf_append : calm.

Lemma calm_cl_send {M : Type} `{!PtrMap M} i t fl term b : vmsg_of (cl_frame t fl term b) = None -> calm_m (M := M) (cl_send i t fl term b).
Proof.
  intros Ht. unfold cl_send. repeat (calm_step || (apply calm_nset; intros n; constructor; auto)).
  etransitivity; [apply votes_of_app|]. unfold votes_of at 2. cbn [omap list_omap fst snd]. rewrite Ht. apply app_nil_r.
Qed.
#[export] Hint Extern 1 (calm_m (cl_send _ _ _ _ _)) => apply calm_cl_send; reflexivity : calm.

Lemma calm_hello_payload_build {M : Type} `{!PtrMap M} t : calm_m (M := M) (hello_payload_build t).
Proof. unfold hello_payload_build. calm_auto. Qed.
#[export] Hint Resolve calm_hello_payload_build : calm.

Lemma calm_hello_payload_verify {M : Type} `{!PtrMap M} t p : calm_m (M := M) (hello_payload_verify t p).
Proof. unfold hello_payload_verify. calm_auto. Qed.
#[export] Hint Resolve calm_hello_payload_verify : calm.

Lemma calm_send_hello {M : Type} `{!PtrMap M} i t : t = CL_FRAME_HELLO \/ t = CL_FRAME_HELLO_ACK -> calm_m (M := M) (send_hello i t).
Proof. intros [-> | ->]; unfold send_hello; calm_auto. Qed.
#[export] Hint Extern 1 (calm_m (send_hello _ _)) => apply calm_send_hello; auto : calm.

Lemma calm_persist_reserve {M : Type} `{!PtrMap M} z : calm_m (M := M) (persist_reserve z).
Proof. unfold persist_reserve. calm_auto. Qed.
#[export] Hint Resolve calm_persist_reserve : calm.

Lemma calm_persist_write_flush {M : Type} `{!PtrMap M} : calm_m (M := M) (persist_write_flush).
Proof. unfold persist_write_flush. calm_auto. Qed.
#[export] Hint Resolve calm_persist_write_flush : calm.

Lemma calm_off_ensure {M : Type} `{!PtrMap M} z : calm_m (M := M) (off_ensure z).
Proof. unfold off_ensure. calm_auto. Qed.
#[export] Hint Resolve calm_off_ensure : calm.

Lemma calm_payload_of {M : Type} `{!PtrMap M} e : calm_m (M := M) (payload_of e).
Proof. unfold payload_of. calm_auto. Qed.
#[export] Hint Resolve calm_payload_of : calm.

Lemma calm_wbuf_ensure {M : Type} `{!PtrMap M} z : calm_m (M := M) (wbuf_ensure z).
Proof. unfold wbuf_ensure. calm_auto. Qed.
#[export] Hint Resolve calm_wbuf_ensure : calm.

Lemma calm_persist_append {M : Type} `{!PtrMap M} e : calm_m (M := M) (persist_append e).
Proof. unfold persist_append. calm_auto. Qed.
#[export] Hint Resolve calm_persist_append : calm.

Lemma calm_persist_sync {M : Type} `{!PtrMap M} : calm_m (M := M) (persist_sync).
Proof. unfold persist_sync. calm_auto. Qed.
#[export] Hint Resolve calm_persist_sync : calm.

Lemma calm_persist_truncate {M : Type} `{!PtrMap M} z : calm_m (M := M) (persist_truncate z).
Proof. unfold persist_truncate. calm_auto. Qed.
#[export] Hint Resolve calm_persist_truncate : calm.

Lemma calm_log_ensure_cap {M : Type} `{!PtrMap M} z : calm_m (M := M) (log_ensure_cap z).
Proof. unfold log_ensure_cap. calm_auto. Qed.
#[export] Hint Resolve calm_log_ensure_cap : calm.

Lemma calm_log_truncate_from {M : Type} `{!PtrMap M} z : calm_m (M := M) (log_truncate_from z).
Proof. unfold log_truncate_from. calm_auto. Qed.
#[export] Hint Resolve calm_log_truncate_from : calm.

Lemma calm_log_append {M : Type} `{!PtrMap M} t o d : calm_m (M := M) (log_append t o d).
Proof. unfold log_append. calm_auto. Qed.
#[export] Hint Resolve calm_log_append : calm.

Lemma calm_topo_add {M : Type} `{!PtrMap M} o d : calm_m (M := M) (topo_add o d).
Proof. unfold topo_add. calm_auto. Qed.
#[export] Hint Resolve calm_topo_add : calm.

Lemma calm_collect_queues {M : Type} `{!PtrMap M} : calm_m (M := M) (collect_queues).
Proof. intros n a n'. unfold collect_queues. destruct (n_broker n); [|intros [= _ <-]; apply calm_votes_refl]. destruct (broker_foreach_queue _ _ _) as [[[? ?] ?] ?]. intros [= _ <-]. constructor; auto. Qed.
#[export] Hint Resolve calm_collect_queues : calm.

Lemma calm_unref_message {M : Type} `{!PtrMap M} m : calm_m (M := M) (unref_message m).
Proof. unfold unref_message. calm_auto. Qed.
#[export] Hint Resolve calm_unref_message : calm.

Lemma calm_unref_queue {M : Type} `{!PtrMap M} m : calm_m (M := M) (unref_queue m).
Proof. unfold unref_queue, on_store. calm_auto. Qed.
#[export] Hint Resolve calm_unref_queue : calm.

Lemma calm_snapshot_refs {M : Type} `{!PtrMap M} m c : calm_m (M := M) (snapshot_refs m c).
Proof. unfold snapshot_refs, on_store. calm_auto. Qed.
#[export] Hint Resolve calm_snapshot_refs : calm.

Lemma calm_queue_at {M : Type} `{!PtrMap M} q : calm_m (M := M) (queue_at q).
Proof. intros n a n'. unfold queue_at. destruct (n_broker n); [|done]. destruct (_ !! _); [|done]. intros [= _ <-]. apply calm_votes_refl. Qed.
#[export] Hint Resolve calm_queue_at : calm.

Lemma calm_dump_messages {M : Type} `{!PtrMap M} q ms : calm_m (M := M) (dump_messages q ms).
Proof. induction ms; simpl; calm_auto. Qed.
#[export] Hint Resolve calm_dump_messages : calm.

Lemma calm_dump_queues {M : Type} `{!PtrMap M} b qs : calm_m (M := M) (dump_queues b qs).
Proof. induction qs; simpl; calm_auto. Qed.
#[export] Hint Resolve calm_dump_queues : calm.

Lemma calm_all_ok {M : Type} `{!PtrMap M} k : calm_m (M := M) (all_ok k).
Proof. unfold all_ok. induction k; calm_auto. Qed.
#[export] Hint Resolve calm_all_ok : calm.

Lemma calm_snapshot_write {M : Type} `{!PtrMap M} i t o : calm_m (M := M) (snapshot_write i t o).
Proof. unfold snapshot_write. calm_auto. Qed.
#[export] Hint Resolve calm_snapshot_write : calm.

Lemma calm_apply_publish {M : Type} `{!PtrMap M} (fuel : nat) i p : calm_m (M := M) (apply_publish fuel i p).
Proof. unfold apply_publish. calm_auto. Qed.
#[export] Hint Resolve calm_apply_publish : calm.

Lemma calm_auth_op {M : Type} `{!PtrMap M} {A} (f : authstore -> option (A * authstore)) : calm_m (M := M) (auth_op f).
Proof. unfold auth_op. calm_auto. Qed.
#[export] Hint Resolve calm_auth_op : calm.

Lemma calm_apply_auth_op {M : Type} `{!PtrMap M} (regcomp : bytes -> bool) o p : calm_m (M := M) (apply_auth_op regcomp o p).
Proof. unfold apply_auth_op. calm_auto. Qed.
#[export] Hint Resolve calm_apply_auth_op : calm.

Lemma calm_apply_auth {M : Type} `{!PtrMap M} (regcomp : bytes -> bool) o p : calm_m (M := M) (apply_auth regcomp o p).
Proof. unfold apply_auth. calm_auto. Qed.
#[export] Hint Resolve calm_apply_auth : calm.

Lemma calm_pure_world {M : Type} `{!PtrMap M} f : calm_m (M := M) (pure_world f).
Proof. unfold pure_world. calm_auto. Qed.
#[export] Hint Resolve calm_pure_world : calm.

Lemma calm_apply_op {M : Type} `{!PtrMap M} (fuel : nat) (regcomp : bytes -> bool) e : calm_m (M := M) (apply_op fuel regcomp e).
Proof. unfold apply_op. calm_auto. Qed.
#[export] Hint Resolve calm_apply_op : calm.

Lemma calm_snap_apply_record {M : Type} `{!PtrMap M} (fuel : nat) p : calm_m (M := M) (snap_apply_record fuel p).
Proof. unfold snap_apply_record. calm_auto. Qed.
#[export] Hint Resolve calm_snap_apply_record : calm.

Lemma calm_snap_apply_records {M : Type} `{!PtrMap M} (fuel : nat) k p : calm_m (M := M) (snap_apply_records fuel k p).
Proof. revert p. induction k; simpl; calm_auto. Qed.
#[export] Hint Resolve calm_snap_apply_records : calm.

Lemma calm_replay_topo {M : Type} `{!PtrMap M} (fuel : nat) (regcomp : bytes -> bool) k bi bt t : calm_m (M := M) (replay_topo fuel regcomp k bi bt t).
Proof. revert t. induction k; simpl; calm_auto. Qed.
#[export] Hint Resolve calm_replay_topo : calm.

Lemma calm_replay_all {M : Type} `{!PtrMap M} (fuel : nat) (regcomp : bytes -> bool) bi bt : calm_m (M := M) (replay_all fuel regcomp bi bt).
Proof. unfold replay_all. calm_auto. Qed.
#[export] Hint Resolve calm_replay_all : calm.

Lemma calm_snapshot_load {M : Type} `{!PtrMap M} (fuel : nat) : calm_m (M := M) (snapshot_load fuel).
Proof. unfold snapshot_load. calm_auto. Qed.
#[export] Hint Resolve calm_snapshot_load : calm.

Lemma calm_persist_compact {M : Type} `{!PtrMap M} a b : calm_m (M := M) (persist_compact a b).
Proof. unfold persist_compact. calm_auto. Qed.
#[export] Hint Resolve calm_persist_compact : calm.

Lemma calm_log_compact_to {M : Type} `{!PtrMap M} u : calm_m (M := M) (log_compact_to u).
Proof. unfold log_compact_to. calm_auto. Qed.
#[export] Hint Resolve calm_log_compact_to : calm.

Lemma calm_load_records {M : Type} `{!PtrMap M} k i o : calm_m (M := M) (load_records k i o).
Proof. revert i o. induction k; simpl; calm_auto. Qed.
#[export] Hint Resolve calm_load_records : calm.

Lemma calm_last_index {M : Type} `{!PtrMap M} : calm_m (M := M) (last_index).
Proof. unfold last_index. calm_auto. Qed.
#[export] Hint Resolve calm_last_index : calm.

Lemma calm_peers {M : Type} `{!PtrMap M} : calm_m (M := M) (peers).
Proof. unfold peers. calm_auto. Qed.
#[export] Hint Resolve calm_peers : calm.

Lemma calm_mark_proposal_status {M : Type} `{!PtrMap M} a b : calm_m (M := M) (mark_proposal_status a b).
Proof. unfold mark_proposal_status. calm_auto. Qed.
#[export] Hint Resolve calm_mark_proposal_status : calm.

Lemma calm_push_fwd_ack_pending {M : Type} `{!PtrMap M} a b c : calm_m (M := M) (push_fwd_ack_pending a b c).
Proof. unfold push_fwd_ack_pending. calm_auto. Qed.
#[export] Hint Resolve calm_push_fwd_ack_pending : calm.

Lemma calm_resolve_local_fwd_acks {M : Type} `{!PtrMap M} : calm_m (M := M) (resolve_local_fwd_acks).
Proof. unfold resolve_local_fwd_acks. calm_auto. Qed.
#[export] Hint Resolve calm_resolve_local_fwd_acks : calm.

Lemma calm_settle_acks {M : Type} `{!PtrMap M} c l b : calm_m (M := M) (settle_acks c l b).
Proof. revert b. induction l; simpl; calm_auto. Qed.
#[export] Hint Resolve calm_settle_acks : calm.

Lemma calm_send_fwd_ack {M : Type} `{!PtrMap M} i b : calm_m (M := M) (send_fwd_ack i b).
Proof. unfold send_fwd_ack. calm_auto. Qed.
#[export] Hint Resolve calm_send_fwd_ack : calm.

Lemma calm_resolve_fwd_acks {M : Type} `{!PtrMap M} : calm_m (M := M) (resolve_fwd_acks).
Proof. unfold resolve_fwd_acks. calm_auto. Qed.
#[export] Hint Resolve calm_resolve_fwd_acks : calm.

Lemma calm_apply_loop {M : Type} `{!PtrMap M} (fuel : nat) (regcomp : bytes -> bool) k : calm_m (M := M) (apply_loop fuel regcomp k).
Proof. induction k; simpl; calm_auto. Qed.
#[export] Hint Resolve calm_apply_loop : calm.

Lemma calm_apply_committed {M : Type} `{!PtrMap M} (fuel : nat) (regcomp : bytes -> bool) : calm_m (M := M) (apply_committed fuel regcomp).
Proof. unfold apply_committed. calm_auto. Qed.
#[export] Hint Resolve calm_apply_committed : calm.

Lemma calm_compact_payloads {M : Type} `{!PtrMap M} u : calm_m (M := M) (compact_payloads u).
Proof. unfold compact_payloads. calm_auto. Qed.
#[export] Hint Resolve calm_compact_payloads : calm.

Lemma calm_advance_commit {M : Type} `{!PtrMap M} (fuel : nat) (regcomp : bytes -> bool) : calm_m (M := M) (advance_commit fuel regcomp).
Proof. unfold advance_commit. calm_auto. Qed.
#[export] Hint Resolve calm_advance_commit : calm.

Lemma calm_snap_reset {M : Type} `{!PtrMap M} i : calm_m (M := M) (snap_reset i).
Proof. unfold snap_reset. calm_auto. Qed.
#[export] Hint Resolve calm_snap_reset : calm.

Lemma calm_set_snap {M : Type} `{!PtrMap M} i f : calm_m (M := M) (set_snap i f).
Proof. unfold set_snap. calm_auto. Qed.
#[export] Hint Resolve calm_set_snap : calm.

Lemma calm_snap_start {M : Type} `{!PtrMap M} i : calm_m (M := M) (snap_start i).
Proof. unfold snap_start. calm_auto. Qed.
#[export] Hint Resolve calm_snap_start : calm.

Lemma calm_snap_load_queue {M : Type} `{!PtrMap M} k i : calm_m (M := M) (snap_load_queue k i).
Proof. induction k; simpl; calm_auto. Qed.
#[export] Hint Resolve calm_snap_load_queue : calm.

Lemma calm_send_chunk {M : Type} `{!PtrMap M} i s q : calm_m (M := M) (send_chunk i s q).
Proof. unfold send_chunk. calm_auto. Qed.
#[export] Hint Resolve calm_send_chunk : calm.

Lemma calm_snap_pump_loop {M : Type} `{!PtrMap M} k i : calm_m (M := M) (snap_pump_loop k i).
Proof. induction k; cbn [snap_pump_loop]; calm_auto. Qed.
#[export] Hint Resolve calm_snap_pump_loop : calm.

Lemma calm_snap_pump {M : Type} `{!PtrMap M} i : calm_m (M := M) (snap_pump i).
Proof. unfold snap_pump. calm_auto. Qed.
#[export] Hint Resolve calm_snap_pump : calm.

Lemma calm_append_entries {M : Type} `{!PtrMap M} k l i : calm_m (M := M) (append_entries k l i).
Proof. revert i. induction k; simpl; calm_auto. Qed.
#[export] Hint Resolve calm_append_entries : calm.

Lemma calm_send_append {M : Type} `{!PtrMap M} i : calm_m (M := M) (send_append i).
Proof. unfold send_append. calm_auto. Qed.
#[export] Hint Resolve calm_send_append : calm.

Lemma calm_pump_loop {M : Type} `{!PtrMap M} k i l : calm_m (M := M) (pump_loop k i l).
Proof. induction k; simpl; calm_auto. Qed.
#[export] Hint Resolve calm_pump_loop : calm.

Lemma calm_pump_peer {M : Type} `{!PtrMap M} i : calm_m (M := M) (pump_peer i).
Proof. unfold pump_peer. calm_auto. Qed.
#[export] Hint Resolve calm_pump_peer : calm.

Lemma calm_replicate_to_peers {M : Type} `{!PtrMap M} : calm_m (M := M) (replicate_to_peers).
Proof. unfold replicate_to_peers. calm_auto. Qed.
#[export] Hint Resolve calm_replicate_to_peers : calm.

Lemma calm_requeue_proposals {M : Type} `{!PtrMap M} l : calm_m (M := M) (requeue_proposals l).
Proof. unfold requeue_proposals. calm_auto. Qed.
#[export] Hint Resolve calm_requeue_proposals : calm.

Lemma calm_fwd_pending_append {M : Type} `{!PtrMap M} l : calm_m (M := M) (fwd_pending_append l).
Proof. unfold fwd_pending_append. calm_auto. Qed.
#[export] Hint Resolve calm_fwd_pending_append : calm.

Lemma calm_forward_loop {M : Type} `{!PtrMap M} k l : calm_m (M := M) (forward_loop k l).
Proof. revert l. induction k; simpl; calm_auto. Qed.
#[export] Hint Resolve calm_forward_loop : calm.

Lemma calm_clear_congestion {M : Type} `{!PtrMap M} : calm_m (M := M) (clear_congestion).
Proof. unfold clear_congestion. calm_auto. Qed.
#[export] Hint Resolve calm_clear_congestion : calm.

Lemma calm_forward_batch_to_leader {M : Type} `{!PtrMap M} l : calm_m (M := M) (forward_batch_to_leader l).
Proof. unfold forward_batch_to_leader. calm_auto. Qed.
#[export] Hint Resolve calm_forward_batch_to_leader : calm.

Lemma calm_retransmit {M : Type} `{!PtrMap M} : calm_m (M := M) (retransmit).
Proof. unfold retransmit. calm_auto. Qed.
#[export] Hint Resolve calm_retransmit : calm.

Lemma calm_peer_on_link_up {M : Type} `{!PtrMap M} i : calm_m (M := M) (peer_on_link_up i).
Proof. unfold peer_on_link_up. calm_auto. Qed.
#[export] Hint Resolve calm_peer_on_link_up : calm.

Lemma calm_leader_append {M : Type} `{!PtrMap M} o d : calm_m (M := M) (leader_append o d).
Proof. unfold leader_append. calm_auto. Qed.
#[export] Hint Resolve calm_leader_append : calm.

Lemma calm_leader_update_flow {M : Type} `{!PtrMap M} : calm_m (M := M) (leader_update_flow).
Proof. unfold leader_update_flow. apply calm_nset. cbv zeta. calm_update. Qed.
#[export] Hint Resolve calm_leader_update_flow : calm.

Lemma calm_leader_flush {M : Type} `{!PtrMap M} (fuel : nat) (regcomp : bytes -> bool) : calm_m (M := M) (leader_flush fuel regcomp).
Proof. unfold leader_flush. calm_auto. Qed.
#[export] Hint Resolve calm_leader_flush : calm.

Lemma calm_propose_internal {M : Type} `{!PtrMap M} o d : calm_m (M := M) (propose_internal o d).
Proof. unfold propose_internal. calm_auto. Qed.
#[export] Hint Resolve calm_propose_internal : calm.

Lemma calm_cluster_propose {M : Type} `{!PtrMap M} o d : calm_m (M := M) (cluster_propose o d).
Proof. unfold cluster_propose. calm_auto. Qed.
#[export] Hint Resolve calm_cluster_propose : calm.

Lemma calm_cluster_replicate_add_vhost {M : Type} `{!PtrMap M} v : calm_m (M := M) (cluster_replicate_add_vhost v).
Proof. unfold cluster_replicate_add_vhost. calm_auto. Qed.
#[export] Hint Resolve calm_cluster_replicate_add_vhost : calm.

Lemma calm_send_status {M : Type} `{!PtrMap M} : calm_m (M := M) (send_status).
Proof. unfold send_status. calm_auto. Qed.
#[export] Hint Resolve calm_send_status : calm.

Lemma calm_send_append_resp {M : Type} `{!PtrMap M} i s h : calm_m (M := M) (send_append_resp i s h).
Proof. unfold send_append_resp. calm_auto. Qed.
#[export] Hint Resolve calm_send_append_resp : calm.

Lemma calm_schedule_reconnect {M : Type} `{!PtrMap M} i : calm_m (M := M) (schedule_reconnect i).
Proof. unfold schedule_reconnect. calm_auto. Qed.
#[export] Hint Resolve calm_schedule_reconnect : calm.

Lemma calm_get_stream {M : Type} `{!PtrMap M} s : calm_m (M := M) (get_stream s).
Proof. intros n a n'. unfold get_stream. destruct (_ !! _); [|done]. intros [= _ <-]. apply calm_votes_refl. Qed.
#[export] Hint Resolve calm_get_stream : calm.

Lemma calm_set_stream {M : Type} `{!PtrMap M} s f : calm_m (M := M) (set_stream s f).
Proof. unfold set_stream. calm_auto. Qed.
#[export] Hint Resolve calm_set_stream : calm.

Lemma calm_close_once {M : Type} `{!PtrMap M} s : calm_m (M := M) (close_once s).
Proof. unfold close_once. calm_auto. Qed.
#[export] Hint Resolve calm_close_once : calm.

Lemma calm_on_link_closed {M : Type} `{!PtrMap M} s : calm_m (M := M) (on_link_closed s).
Proof. unfold on_link_closed. calm_auto. Qed.
#[export] Hint Resolve calm_on_link_closed : calm.

Lemma calm_drop_peer_link {M : Type} `{!PtrMap M} i : calm_m (M := M) (drop_peer_link i).
Proof. unfold drop_peer_link. calm_auto. Qed.
#[export] Hint Resolve calm_drop_peer_link : calm.

Lemma calm_on_hello {M : Type} `{!PtrMap M} i t p : calm_m (M := M) (on_hello i t p).
Proof. unfold on_hello. calm_auto. Qed.
#[export] Hint Resolve calm_on_hello : calm.

Lemma calm_take_entries {M : Type} `{!PtrMap M} k q : calm_m (M := M) (take_entries k q).
Proof. revert q. induction k; simpl; calm_auto. Qed.
#[export] Hint Resolve calm_take_entries : calm.

Lemma calm_follow {M : Type} `{!PtrMap M} i f : calm_m (M := M) (follow i f).
Proof. unfold follow. calm_auto. Qed.
#[export] Hint Resolve calm_follow : calm.

Lemma calm_reject_append {M : Type} `{!PtrMap M} i : calm_m (M := M) (reject_append i).
Proof. unfold reject_append. calm_auto. Qed.
#[export] Hint Resolve calm_reject_append : calm.

Lemma calm_appended {M : Type} `{!PtrMap M} (fuel : nat) (regcomp : bytes -> bool) i a b : calm_m (M := M) (appended fuel regcomp i a b).
Proof. unfold appended. calm_auto. Qed.
#[export] Hint Resolve calm_appended : calm.

Lemma calm_take_forwarded {M : Type} `{!PtrMap M} b o p s d : calm_m (M := M) (take_forwarded b o p s d).
Proof. unfold take_forwarded. calm_auto. Qed.
#[export] Hint Resolve calm_take_forwarded : calm.

Lemma calm_forwarded_loop {M : Type} `{!PtrMap M} k b o a q : calm_m (M := M) (forwarded_loop k b o a q).
Proof. revert q. induction k; simpl; calm_auto. Qed.
#[export] Hint Resolve calm_forwarded_loop : calm.

Lemma calm_on_forward {M : Type} `{!PtrMap M} i p : calm_m (M := M) (on_forward i p).
Proof. unfold on_forward. calm_auto. Qed.
#[export] Hint Resolve calm_on_forward : calm.

Lemma calm_on_forward_ack {M : Type} `{!PtrMap M} p : calm_m (M := M) (on_forward_ack p).
Proof. unfold on_forward_ack. calm_auto. Qed.
#[export] Hint Resolve calm_on_forward_ack : calm.

Lemma calm_purge_queues {M : Type} `{!PtrMap M} : calm_m (M := M) (purge_queues).
Proof. unfold purge_queues. calm_auto. Qed.
#[export] Hint Resolve calm_purge_queues : calm.

Lemma calm_reset_log {M : Type} `{!PtrMap M} a b : calm_m (M := M) (reset_log a b).
Proof. unfold reset_log. calm_auto. Qed.
#[export] Hint Resolve calm_reset_log : calm.

Lemma calm_snap_ack {M : Type} `{!PtrMap M} i b : calm_m (M := M) (snap_ack i b).
Proof. unfold snap_ack. calm_auto. Qed.
#[export] Hint Resolve calm_snap_ack : calm.

Lemma calm_heard_leader {M : Type} `{!PtrMap M} : calm_m (M := M) (heard_leader).
Proof. unfold heard_leader. calm_auto. Qed.
#[export] Hint Resolve calm_heard_leader : calm.

Lemma calm_on_snap_chunk {M : Type} `{!PtrMap M} (fuel : nat) i t p : calm_m (M := M) (on_snap_chunk fuel i t p).
Proof. unfold on_snap_chunk. calm_auto. Qed.
#[export] Hint Resolve calm_on_snap_chunk : calm.

Lemma calm_on_snap_end {M : Type} `{!PtrMap M} i t : calm_m (M := M) (on_snap_end i t).
Proof. unfold on_snap_end. calm_auto. Qed.
#[export] Hint Resolve calm_on_snap_end : calm.

Lemma calm_open_stream {M : Type} `{!PtrMap M} o : calm_m (M := M) (open_stream o).
Proof. unfold open_stream. calm_auto. Qed.
#[export] Hint Resolve calm_open_stream : calm.

Lemma calm_cl_dial {M : Type} `{!PtrMap M} i : calm_m (M := M) (cl_dial i).
Proof. unfold cl_dial. calm_auto. Qed.
#[export] Hint Resolve calm_cl_dial : calm.

Lemma calm_reconnect_timer_cb {M : Type} `{!PtrMap M} i : calm_m (M := M) (reconnect_timer_cb i).
Proof. unfold reconnect_timer_cb. calm_auto. Qed.
#[export] Hint Resolve calm_reconnect_timer_cb : calm.

Lemma calm_on_connect {M : Type} `{!PtrMap M} s b : calm_m (M := M) (on_connect s b).
Proof. unfold on_connect. calm_auto. Qed.
#[export] Hint Resolve calm_on_connect : calm.

Lemma calm_on_new_peer_conn {M : Type} `{!PtrMap M} b : calm_m (M := M) (on_new_peer_conn b).
Proof. unfold on_new_peer_conn. calm_auto. Qed.
#[export] Hint Resolve calm_on_new_peer_conn : calm.

Lemma calm_orphan_link {M : Type} `{!PtrMap M} i : calm_m (M := M) (orphan_link i).
Proof. unfold orphan_link. calm_auto. Qed.
#[export] Hint Resolve calm_orphan_link : calm.

Lemma calm_bind_link {M : Type} `{!PtrMap M} s i r : calm_m (M := M) (bind_link s i r).
Proof. unfold bind_link. calm_auto. Qed.
#[export] Hint Resolve calm_bind_link : calm.

Lemma calm_first_frame {M : Type} `{!PtrMap M} s b : calm_m (M := M) (first_frame s b).
Proof. unfold first_frame. calm_auto. Qed.
#[export] Hint Resolve calm_first_frame : calm.

Lemma calm_on_inbound_read {M : Type} `{!PtrMap M} s d : calm_m (M := M) (on_inbound_read s d).
Proof. unfold on_inbound_read. calm_auto. Qed.
#[export] Hint Resolve calm_on_inbound_read : calm.

Lemma calm_heartbeat_timer_cb {M : Type} `{!PtrMap M} : calm_m (M := M) (heartbeat_timer_cb).
Proof. unfold heartbeat_timer_cb. calm_auto. Qed.
#[export] Hint Resolve calm_heartbeat_timer_cb : calm.

Lemma calm_fsync_timer_cb {M : Type} `{!PtrMap M} (fuel : nat) (regcomp : bytes -> bool) : calm_m (M := M) (fsync_timer_cb fuel regcomp).
Proof. unfold fsync_timer_cb. calm_auto. Qed.
#[export] Hint Resolve calm_fsync_timer_cb : calm.

Lemma calm_drain_proposals {M : Type} `{!PtrMap M} l : calm_m (M := M) (drain_proposals l).
Proof. induction l; simpl; calm_auto. Qed.
#[export] Hint Resolve calm_drain_proposals : calm.

Lemma calm_drain_inbox {M : Type} `{!PtrMap M} (fuel : nat) (regcomp : bytes -> bool) : calm_m (M := M) (drain_inbox fuel regcomp).
Proof. unfold drain_inbox. calm_auto. Qed.
#[export] Hint Resolve calm_drain_inbox : calm.

Lemma calm_propose_async_cb {M : Type} `{!PtrMap M} (fuel : nat) (regcomp : bytes -> bool) : calm_m (M := M) (propose_async_cb fuel regcomp).
Proof. unfold propose_async_cb. calm_auto. Qed.
#[export] Hint Resolve calm_propose_async_cb : calm.

Lemma calm_fwd_retry_timer_cb {M : Type} `{!PtrMap M} (fuel : nat) (regcomp : bytes -> bool) : calm_m (M := M) (fwd_retry_timer_cb fuel regcomp).
Proof. unfold fwd_retry_timer_cb. calm_auto. Qed.
#[export] Hint Resolve calm_fwd_retry_timer_cb : calm.

Lemma calm_cluster_node_listen {M : Type} `{!PtrMap M} (uv_ip4_addr : bytes -> Z -> bool) b p : calm_m (M := M) (cluster_node_listen uv_ip4_addr b p).
Proof. unfold cluster_node_listen. calm_auto. Qed.
#[export] Hint Resolve calm_cluster_node_listen : calm.

Lemma calm_cluster_node_start {M : Type} `{!PtrMap M} : calm_m (M := M) (cluster_node_start).
Proof. unfold cluster_node_start. calm_auto. Qed.
#[export] Hint Resolve calm_cluster_node_start : calm.

Lemma calm_close_peer {M : Type} `{!PtrMap M} i : calm_m (M := M) (close_peer i).
Proof. unfold close_peer. calm_auto. Qed.
#[export] Hint Resolve calm_close_peer : calm.

Lemma calm_cluster_node_stop {M : Type} `{!PtrMap M} : calm_m (M := M) (cluster_node_stop).
Proof. unfold cluster_node_stop. calm_auto. Qed.
#[export] Hint Resolve calm_cluster_node_stop : calm.
