(* ===== verification/ElectSpec.v ===== *)
(** Elections as a protocol of terms, votes and roles, without the code: what a node
    may do with its vote, and that at most one node leads in a term.  The messages
    are delivered in any order, each at most once, and may be lost. *)

From stdpp Require Import gmultiset.
From S2P Require Import Prelude ClusterNode ClusterVotes.

#[global] Instance vmsg_eq_dec : EqDecision vmsg.
Proof. solve_decision. Defined.
#[global] Instance vmsg_countable : Countable vmsg :=
  inj_countable' (fun m => match m with VReq t => (true, t) | VGrant t => (false, t) end)
    (fun p => if p.1 then VReq p.2 else VGrant p.2) (fun m => match m with VReq _ => eq_refl | VGrant _ => eq_refl end).

Record vnode := VNode { v_term : Z; v_for : Z; v_role : cluster_role_t; v_count : Z }.
Record vnet := VNet { vn_nodes : gmap Z vnode; vn_msgs : gmultiset (Z * Z * vmsg) }.

Section Spec.
Context (N : Z).

Definition majority : Z := N / 2 + 1.

(** A candidate with [count] votes stays one, gives up, or leads. *)
Definition may_become (count : Z) (r : cluster_role_t) : Prop := r = CL_ROLE_LEADER -> majority <= count.

Definition requests (i t : Z) (dsts : list Z) : gmultiset (Z * Z * vmsg) := list_to_set_disj ((fun d => (i, d, VReq t)) <$> dsts).

Inductive vstep : vnet -> vnet -> Prop :=
| vs_quiet ns ms i t f r c r' c' :
    ns !! i = Some (VNode t f r c) -> (r' = r /\ c' = c) \/ r' = CL_ROLE_FOLLOWER ->
    vstep (VNet ns ms) (VNet (<[i := VNode t f r' c']> ns) ms)
| vs_adopt ns ms i t f r c t' c' :
    ns !! i = Some (VNode t f r c) -> t < t' ->
    vstep (VNet ns ms) (VNet (<[i := VNode t' (-1) CL_ROLE_FOLLOWER c']> ns) ms)
| vs_stand ns ms i t f r c r' dsts :
    ns !! i = Some (VNode t f r c) -> may_become 1 r' -> NoDup dsts -> (forall d, d ∈ dsts -> d <> i /\ 0 <= d < N) ->
    vstep (VNet ns ms) (VNet (<[i := VNode (t + 1) i r' 1]> ns) (ms ⊎ requests i (t + 1) dsts))
| vs_grant ns ms i t f r c cand r' (reply : bool) :
    ns !! i = Some (VNode t f r c) -> (cand, i, VReq t) ∈ ms -> f = -1 \/ f = cand -> r' = r \/ r' = CL_ROLE_FOLLOWER ->
    vstep (VNet ns ms) (VNet (<[i := VNode t cand r' c]> ns) (ms ∖ {[+ (cand, i, VReq t) +]} ⊎ (if reply then {[+ (i, cand, VGrant t) +]} else ∅)))
| vs_vote ns ms i t f c g r' :
    ns !! i = Some (VNode t f CL_ROLE_CANDIDATE c) -> (g, i, VGrant t) ∈ ms -> may_become (c + 1) r' ->
    vstep (VNet ns ms) (VNet (<[i := VNode t f r' (c + 1)]> ns) (ms ∖ {[+ (g, i, VGrant t) +]}))
| vs_lose ns ms ms' : ms' ⊆ ms -> vstep (VNet ns ms) (VNet ns ms').

Definition in_range (i : Z) : Prop := 0 <= i < N.

(** The votes ever given, by voter and term. *)
Abbreviation ballots := (gmap (Z * Z) Z).
Implicit Types (V : ballots) (s : vnet).

(** Every counted vote was given, and nothing that could count it again is left. *)
Definition counted V (ms : gmultiset (Z * Z * vmsg)) (c t : Z) (G : gset Z) : Prop :=
  (c ∉ G) /\ (forall g, g ∈ G -> V !! (g, t) = Some c /\ ((c, g, VReq t) ∉ ms) /\ ((g, c, VGrant t) ∉ ms)).

Record vinv V s : Prop := VInv {
  vi_nodes : forall i, is_Some (vn_nodes s !! i) <-> in_range i;
  vi_ballots : forall i t c, V !! (i, t) = Some c -> in_range i /\ in_range c;
  vi_vote : forall i v, vn_nodes s !! i = Some v -> v_for v <> -1 -> V !! (i, v_term v) = Some (v_for v);
  vi_hist : forall i v t c, vn_nodes s !! i = Some v -> V !! (i, t) = Some c -> t < v_term v \/ (t = v_term v /\ v_for v = c);
  vi_req : forall c i t, (c, i, VReq t) ∈ vn_msgs s -> c <> i /\ in_range i /\ exists v, vn_nodes s !! c = Some v /\ t <= v_term v;
  vi_grant : forall i c t, (i, c, VGrant t) ∈ vn_msgs s -> c <> i /\ V !! (i, t) = Some c /\ exists v, vn_nodes s !! c = Some v /\ t <= v_term v;
  vi_once : forall c i t, (multiplicity (c, i, VReq t) (vn_msgs s) + multiplicity (i, c, VGrant t) (vn_msgs s) <= 1)%nat;
  vi_cand : forall c v, vn_nodes s !! c = Some v -> v_role v = CL_ROLE_CANDIDATE ->
    v_for v = c /\ exists G, counted V (vn_msgs s) c (v_term v) G /\ v_count v = 1 + Z.of_nat (size G);
  vi_lead : forall c v, vn_nodes s !! c = Some v -> v_role v = CL_ROLE_LEADER ->
    exists Q : gset Z, majority <= Z.of_nat (size Q) /\ forall g, g ∈ Q -> V !! (g, v_term v) = Some c
}.

(** ** Quorums *)

Definition all_ids : gset Z := list_to_set (Z.of_nat <$> seq 0 (Z.to_nat N)).

Lemma elem_of_all_ids i : i ∈ all_ids <-> in_range i.
Proof.
  unfold all_ids, in_range. rewrite elem_of_list_to_set, list_elem_of_fmap. setoid_rewrite elem_of_seq. split.
  - intros (k & -> & Hk). lia.
  - intros Hi. exists (Z.to_nat i). lia.
Qed.

Lemma size_all_ids : 0 <= N -> Z.of_nat (size all_ids) = N.
Proof.
  intros HN. unfold all_ids. rewrite size_list_to_set, length_fmap, length_seq; [lia|]. apply NoDup_fmap_2; [|apply NoDup_seq]. intros x y. lia.
Qed.

Lemma majorities_meet (A B : gset Z) :
  0 <= N -> majority <= Z.of_nat (size A) -> majority <= Z.of_nat (size B) -> (forall g, g ∈ A -> in_range g) -> (forall g, g ∈ B -> in_range g) ->
  exists g, g ∈ A /\ g ∈ B.
Proof.
  unfold majority. intros HN HA HB RA RB. destruct (decide (A ∩ B = ∅)) as [E|E].
  - exfalso. assert (size (A ∪ B) <= size all_ids)%nat as Hs.
    { apply subseteq_size. intros g [?|?]%elem_of_union; apply elem_of_all_ids; auto. }
    rewrite size_union in Hs by set_solver. apply inj_le in Hs. rewrite size_all_ids in Hs by done.
    pose proof (Z.mul_succ_div_gt N 2 ltac:(lia)). lia.
  - apply set_choose_L in E as [g Hg]. exists g. set_solver.
Qed.

Lemma vinv_safe V s i j v w :
  0 <= N -> vinv V s -> vn_nodes s !! i = Some v -> vn_nodes s !! j = Some w ->
  v_role v = CL_ROLE_LEADER -> v_role w = CL_ROLE_LEADER -> v_term v = v_term w -> i = j.
Proof.
  intros HN Hs Hi Hj Rv Rw Et. destruct (vi_lead _ _ Hs _ _ Hi Rv) as (A & SA & HA), (vi_lead _ _ Hs _ _ Hj Rw) as (B & SB & HB).
  destruct (majorities_meet A B HN SA SB) as (g & GA & GB).
  - intros g Hg. by apply HA, (vi_ballots _ _ Hs) in Hg as [? _].
  - intros g Hg. by apply HB, (vi_ballots _ _ Hs) in Hg as [? _].
  - specialize (HA g GA). specialize (HB g GB). rewrite Et in HA. congruence.
Qed.

(** ** The steps *)

(** The sender of a request, or the receiver of a vote, has reached the term. *)
Definition reached (ns : gmap Z vnode) (c t : Z) : Prop := exists v, ns !! c = Some v /\ t <= v_term v.

Definition msgs_ok V (ns : gmap Z vnode) (ms : gmultiset (Z * Z * vmsg)) : Prop :=
  (forall c i t, (c, i, VReq t) ∈ ms -> c <> i /\ in_range i /\ reached ns c t) /\
  (forall i c t, (i, c, VGrant t) ∈ ms -> c <> i /\ V !! (i, t) = Some c /\ reached ns c t) /\
  (forall c i t, (multiplicity (c, i, VReq t) ms + multiplicity (i, c, VGrant t) ms <= 1)%nat).

Definition cand_ok V ms c v : Prop :=
  v_role v = CL_ROLE_CANDIDATE -> v_for v = c /\ exists G, counted V ms c (v_term v) G /\ v_count v = 1 + Z.of_nat (size G).

Definition lead_ok V c v : Prop :=
  v_role v = CL_ROLE_LEADER -> exists Q : gset Z, majority <= Z.of_nat (size Q) /\ forall g, g ∈ Q -> V !! (g, v_term v) = Some c.

Definition ballot_ok V i v : Prop :=
  (v_for v <> -1 -> V !! (i, v_term v) = Some (v_for v)) /\ (forall t c, V !! (i, t) = Some c -> t < v_term v \/ (t = v_term v /\ v_for v = c)).

Lemma reached_insert ns i v v' c t : ns !! i = Some v -> v_term v <= v_term v' -> reached ns c t -> reached (<[i := v']> ns) c t.
Proof.
  intros Hi Hle (w & Hw & Ht). destruct (decide (c = i)) as [->|Hne].
  - exists v'. rewrite lookup_insert_eq. split; [done|]. simplify_eq. lia.
  - exists w. by rewrite lookup_insert_ne.
Qed.

Lemma vinv_update V V' ns ms ms' i v v' :
  vinv V (VNet ns ms) -> ns !! i = Some v -> V ⊆ V' -> (forall j t c, V' !! (j, t) = Some c -> V !! (j, t) = Some c \/ (j = i /\ in_range c)) ->
  ballot_ok V' i v' -> msgs_ok V' (<[i := v']> ns) ms' -> (forall c t G, c <> i -> counted V ms c t G -> counted V' ms' c t G) ->
  cand_ok V' ms' i v' -> lead_ok V' i v' -> vinv V' (VNet (<[i := v']> ns) ms').
Proof.
  intros [I1 I2 I3 I4 I5 I6 I7 I8 I9] Hi HV HV' [B1 B2] (M1 & M2 & M3) HG HC HL. simpl in *.
  assert (in_range i) as Ri by (apply I1; eauto).
  constructor; simpl; try done.
  - intros j. rewrite <- I1. destruct (decide (i = j)) as [->|]; [rewrite lookup_insert_eq, Hi | rewrite lookup_insert_ne by done]; done.
  - intros j t c [?%I2|[-> ?]]%HV'; done.
  - intros j w [[<- <-]|[Hne Hj]]%lookup_insert_Some Hf; [by apply B1|]. eapply lookup_weaken; [|done]. by apply I3.
  - intros j w t c [[<- <-]|[Hne Hj]]%lookup_insert_Some Hf; [by apply B2|]. apply HV' in Hf as [Hf|[-> _]]; [by eapply I4 | done].
  - intros c w [[<- <-]|[Hne Hj]]%lookup_insert_Some Hr; [by apply HC|]. destruct (I8 _ _ Hj Hr) as (? & G & HG0 & ?). eauto 10.
  - intros c w [[<- <-]|[Hne Hj]]%lookup_insert_Some Hr; [by apply HL|]. destruct (I9 _ _ Hj Hr) as (Q & HQ & HA).
    exists Q. split; [done|]. intros g Hg. eapply lookup_weaken; [by apply HA | done].
Qed.

(** What holds of the messages and of the votes when nothing changes in them. *)
Lemma msgs_ok_insert V ns ms i v v' : vinv V (VNet ns ms) -> ns !! i = Some v -> v_term v <= v_term v' -> msgs_ok V (<[i := v']> ns) ms.
Proof.
  intros Hs Hi Hle. split; [|split; [|apply (vi_once _ _ Hs)]].
  - intros c j t (? & ? & Hr)%(vi_req _ _ Hs). eauto using reached_insert.
  - intros j c t (? & ? & Hr)%(vi_grant _ _ Hs). eauto using reached_insert.
Qed.

Lemma vinv_ballot_ok V ns ms i v : vinv V (VNet ns ms) -> ns !! i = Some v -> ballot_ok V i v.
Proof. intros Hs Hi. split; [by apply (vi_vote _ _ Hs) | intros t c; by apply (vi_hist _ _ Hs)]. Qed.

Lemma vinv_quiet V ns ms i t f r c r' c' :
  vinv V (VNet ns ms) -> ns !! i = Some (VNode t f r c) -> (r' = r /\ c' = c) \/ r' = CL_ROLE_FOLLOWER ->
  vinv V (VNet (<[i := VNode t f r' c']> ns) ms).
Proof.
  intros Hs Hi Hr. eapply vinv_update; eauto.
  - apply (vinv_ballot_ok _ _ _ _ _ Hs Hi).
  - by eapply msgs_ok_insert.
  - intros E. simpl in E. destruct Hr as [[-> ->]| ->]; [|done]. by apply (vi_cand _ _ Hs _ _ Hi).
  - intros E. simpl in E. destruct Hr as [[-> ->]| ->]; [|done]. by apply (vi_lead _ _ Hs _ _ Hi).
Qed.

Lemma vinv_adopt V ns ms i t f r c t' c' :
  vinv V (VNet ns ms) -> ns !! i = Some (VNode t f r c) -> t < t' -> vinv V (VNet (<[i := VNode t' (-1) CL_ROLE_FOLLOWER c']> ns) ms).
Proof.
  intros Hs Hi Hlt. eapply vinv_update; eauto; [| | done | done].
  - split; simpl; [done|]. intros t0 c0 H0. apply (vi_hist _ _ Hs _ _ _ _ Hi) in H0. simpl in H0. lia.
  - eapply msgs_ok_insert; [done..|]. simpl. lia.
Qed.

Lemma counted_mono V V' ms ms' c t G :
  V ⊆ V' -> (forall g, g ∈ G -> (c, g, VReq t) ∈ ms' -> (c, g, VReq t) ∈ ms) ->
  (forall g, g ∈ G -> (g, c, VGrant t) ∈ ms' -> (g, c, VGrant t) ∈ ms) -> counted V ms c t G -> counted V' ms' c t G.
Proof. intros HV H1 H2 [Hc HG]. split; [done|]. intros g Hg. destruct (HG g Hg) as (? & ? & ?). split; [by eapply lookup_weaken|]. naive_solver. Qed.

Lemma elem_of_requests x i t dsts : x ∈ requests i t dsts <-> exists d, x = (i, d, VReq t) /\ d ∈ dsts.
Proof. unfold requests. rewrite elem_of_list_to_set_disj, list_elem_of_fmap. done. Qed.

Lemma multiplicity_requests c d t i t' dsts : NoDup dsts -> (multiplicity (c, d, VReq t) (requests i t' dsts) <= 1)%nat.
Proof.
  intros Hnd. unfold requests. induction Hnd as [|x l Hx Hnd IH]; cbn [list_to_set_disj fmap list_fmap]; [rewrite multiplicity_empty; lia|].
  rewrite multiplicity_disj_union. destruct (decide ((c, d, VReq t) = (i, x, VReq t'))) as [E|Hne].
  - rewrite E, multiplicity_singleton_eq. match goal with |- (1 + ?m <= 1)%nat => enough (m = 0%nat) by lia end.
    apply not_elem_of_multiplicity. rewrite elem_of_list_to_set_disj, list_elem_of_fmap. intros (y & Hy & ?). by simplify_eq.
  - by rewrite multiplicity_singleton_ne.
Qed.

Lemma vinv_stand V ns ms i t f r c r' dsts :
  vinv V (VNet ns ms) -> ns !! i = Some (VNode t f r c) -> may_become 1 r' -> NoDup dsts -> (forall d, d ∈ dsts -> d <> i /\ 0 <= d < N) ->
  vinv (<[(i, t + 1) := i]> V) (VNet (<[i := VNode (t + 1) i r' 1]> ns) (ms ⊎ requests i (t + 1) dsts)).
Proof.
  intros Hs Hi Hr Hnd Hd. assert (in_range i) as Ri by (apply (vi_nodes _ _ Hs); eauto).
  assert (forall c0, V !! (i, t + 1) <> Some c0) as Hnew by (intros c0 H0; apply (vi_hist _ _ Hs _ _ _ _ Hi) in H0; simpl in H0; lia).
  assert (V ⊆ <[(i, t + 1) := i]> V) as HV by (apply insert_subseteq, eq_None_not_Some; intros [c0 H0]; by apply Hnew in H0).
  destruct (msgs_ok_insert _ _ _ _ _ (VNode (t + 1) i r' 1) Hs Hi) as (M1 & M2 & M3); [simpl; lia|].
  assert (forall d, d ∈ dsts -> ((i, d, VReq (t + 1)) ∉ ms) /\ ((d, i, VGrant (t + 1)) ∉ ms)) as Hold.
  { intros d Hdd. split; intros H0; [apply (vi_req _ _ Hs) in H0 | apply (vi_grant _ _ Hs) in H0]; destruct H0 as (_ & _ & v & Hv & Hle);
      simpl in Hv; simplify_eq; simpl in Hle; lia. }
  eapply vinv_update; eauto.
  - intros j t0 c0 [[E <-]|[_ H0]]%lookup_insert_Some; [simplify_eq; auto | auto].
  - split; simpl; [intros _; by rewrite lookup_insert_eq|]. intros t0 c0 [[E <-]|[Hne H0]]%lookup_insert_Some; [simplify_eq; auto|].
    apply (vi_hist _ _ Hs _ _ _ _ Hi) in H0. simpl in H0. lia.
  - split; [|split].
    + intros c0 j t0 [H0|(d & E & Hdd)%elem_of_requests]%gmultiset_elem_of_disj_union; [by apply M1 in H0|]. simplify_eq. destruct (Hd d Hdd).
      split; [done|]. split; [done|]. exists (VNode (t + 1) i r' 1). rewrite lookup_insert_eq. simpl. auto with lia.
    + intros j c0 t0 [H0|(d & E & Hdd)%elem_of_requests]%gmultiset_elem_of_disj_union; [|done]. apply M2 in H0 as (? & ? & ?).
      split; [done|]. split; [by eapply lookup_weaken | done].
    + intros c0 j t0. rewrite !multiplicity_disj_union.
      rewrite (proj1 (not_elem_of_multiplicity (j, c0, VGrant t0) (requests _ _ _))) by (intros (d & E & _)%elem_of_requests; done).
      destruct (decide ((c0, j, VReq t0) ∈ requests i (t + 1) dsts)) as [(d & E & Hdd)%elem_of_requests|Hn%not_elem_of_multiplicity].
      * simplify_eq. destruct (Hold d Hdd) as [->%not_elem_of_multiplicity ->%not_elem_of_multiplicity].
        pose proof (multiplicity_requests i d (t + 1) i (t + 1) dsts Hnd). lia.
      * rewrite Hn. pose proof (M3 c0 j t0). lia.
  - intros c0 t0 G Hne. apply counted_mono; [done | |]; intros g Hg [H0|(d & E & Hdd)%elem_of_requests]%gmultiset_elem_of_disj_union; by simplify_eq.
  - intros _. simpl. split; [done|]. exists ∅. split; [|by rewrite size_empty]. split; set_solver.
  - intros E. simpl in *. exists {[i]}. rewrite size_singleton. split; [by apply Hr|]. intros g ->%elem_of_singleton. by rewrite lookup_insert_eq.
Qed.

Lemma vinv_lose V ns ms ms' : vinv V (VNet ns ms) -> ms' ⊆ ms -> vinv V (VNet ns ms').
Proof.
  intros [I1 I2 I3 I4 I5 I6 I7 I8 I9] Hsub. simpl in *. assert (forall x, x ∈ ms' -> x ∈ ms) as Hel by (intros x Hx; by eapply gmultiset_elem_of_subseteq).
  constructor; simpl; try done; eauto.
  - intros c i t. pose proof (I7 c i t). pose proof (Hsub (c, i, VReq t)). pose proof (Hsub (i, c, VGrant t)). lia.
  - intros c v Hv Hr. destruct (I8 c v Hv Hr) as (? & G & HG & ?). split; [done|]. exists G. split; [|done].
    by apply (counted_mono V V ms ms'); auto.
Qed.

Lemma difference_msgs (ms ms' : gmultiset (Z * Z * vmsg)) : ms ∖ ms' ⊆ ms.
Proof. intros x. rewrite multiplicity_difference. lia. Qed.

(** The messages after a request was answered. *)
Definition answered (ms : gmultiset (Z * Z * vmsg)) (i cand t : Z) (reply : bool) : gmultiset (Z * Z * vmsg) :=
  ms ∖ {[+ (cand, i, VReq t) +]} ⊎ (if reply then {[+ (i, cand, VGrant t) +]} else ∅).

Lemma elem_of_answered x ms i cand t reply : x ∈ answered ms i cand t reply -> x ∈ ms \/ x = (i, cand, VGrant t).
Proof.
  unfold answered. intros [H|H]%gmultiset_elem_of_disj_union.
  - left. eapply gmultiset_elem_of_subseteq; [done|]. apply difference_msgs.
  - right. destruct reply; [by apply gmultiset_elem_of_singleton in H | by apply gmultiset_not_elem_of_empty in H].
Qed.

Lemma answered_once ms i cand t reply c j t' :
  (cand, i, VReq t) ∈ ms -> (multiplicity (c, j, VReq t') ms + multiplicity (j, c, VGrant t') ms <= 1)%nat ->
  (multiplicity (c, j, VReq t') (answered ms i cand t reply) + multiplicity (j, c, VGrant t') (answered ms i cand t reply) <= 1)%nat.
Proof.
  intros Hin Hle. rewrite elem_of_multiplicity in Hin. unfold answered. rewrite !multiplicity_disj_union, !multiplicity_difference.
  assert (forall x, multiplicity x (if reply then {[+ (i, cand, VGrant t) +]} else ∅) <= multiplicity x {[+ (i, cand, VGrant t) +]})%nat as Hr.
  { intros x. destruct reply; [done | rewrite multiplicity_empty; lia]. }
  pose proof (Hr (c, j, VReq t')) as H1. pose proof (Hr (j, c, VGrant t')) as H2. rewrite multiplicity_singleton_ne in H1 by done.
  destruct (decide ((c, j, t') = (cand, i, t))) as [[= -> -> ->]|Hne].
  - rewrite multiplicity_singleton_eq in H2. rewrite (multiplicity_singleton_eq (cand, i, VReq t)). lia.
  - rewrite (multiplicity_singleton_ne (j, c, VGrant t')) in H2 by congruence. lia.
Qed.

Lemma vinv_grant V ns ms i t f r c cand r' reply :
  vinv V (VNet ns ms) -> ns !! i = Some (VNode t f r c) -> (cand, i, VReq t) ∈ ms -> f = -1 \/ f = cand -> r' = r \/ r' = CL_ROLE_FOLLOWER ->
  vinv (<[(i, t) := cand]> V) (VNet (<[i := VNode t cand r' c]> ns) (answered ms i cand t reply)).
Proof.
  intros Hs Hi Hreq Hf Hr. destruct (vi_req _ _ Hs _ _ _ Hreq) as (Hci & Ri & (w & Hw & Hle)). simpl in Hw.
  assert (in_range cand) as Rc by (apply (vi_nodes _ _ Hs); eauto).
  assert (V !! (i, t) = None \/ V !! (i, t) = Some cand) as HVi.
  { destruct (V !! (i, t)) as [c0|] eqn:E; [right | auto]. pose proof (vi_ballots _ _ Hs _ _ _ E) as [_ Rc0].
    apply (vi_hist _ _ Hs _ _ _ _ Hi) in E as [E|[_ <-]]; simpl in *; [lia|]. destruct Hf as [-> | ->]; [unfold in_range in *; lia | done]. }
  assert (V ⊆ <[(i, t) := cand]> V) as HV by (destruct HVi; [by apply insert_subseteq | by rewrite insert_id]).
  destruct (msgs_ok_insert _ _ _ _ _ (VNode t cand r' c) Hs Hi) as (M1 & M2 & M3); [simpl; lia|].
  eapply vinv_update; eauto.
  - intros j t0 c0 [[E <-]|[_ H0]]%lookup_insert_Some; [simplify_eq; auto | auto].
  - split; simpl; [intros _; by rewrite lookup_insert_eq|]. intros t0 c0 [[E <-]|[Hne H0]]%lookup_insert_Some; [simplify_eq; auto|].
    apply (vi_hist _ _ Hs _ _ _ _ Hi) in H0 as [?|[? _]]; simpl in *; [auto | congruence].
  - split; [|split].
    + intros c0 j t0 [H0|H0]%elem_of_answered; [by apply M1 | done].
    + intros j c0 t0 [H0|H0]%elem_of_answered.
      * apply M2 in H0 as (? & ? & ?). split; [done|]. split; [by eapply lookup_weaken | done].
      * simplify_eq. rewrite lookup_insert_eq. split; [done|]. split; [done|]. exists w. by rewrite lookup_insert_ne.
    + intros c0 j t0. by apply answered_once.
  - intros c0 t0 G Hne HG. pose proof (proj2 HG) as HG'. revert HG. apply counted_mono; [done | |]; intros g Hg [H0|H0]%elem_of_answered; try done.
    simplify_eq. by destruct (HG' _ Hg) as (_ & ? & _).
  - intros E. simpl in E. assert (r = CL_ROLE_CANDIDATE) as -> by (destruct Hr; congruence).
    destruct (vi_cand _ _ Hs _ _ Hi eq_refl) as [E1 _]. simpl in E1. exfalso. unfold in_range in *. destruct Hf; subst; [lia | done].
  - intros E. simpl in E. assert (r = CL_ROLE_LEADER) as -> by (destruct Hr; congruence).
    destruct (vi_lead _ _ Hs _ _ Hi eq_refl) as (Q & HQ & HA). exists Q. split; [done|]. intros g Hg. eapply lookup_weaken; [by apply HA | done].
Qed.

Lemma vinv_vote V ns ms i t f c g r' :
  vinv V (VNet ns ms) -> ns !! i = Some (VNode t f CL_ROLE_CANDIDATE c) -> (g, i, VGrant t) ∈ ms -> may_become (c + 1) r' ->
  vinv V (VNet (<[i := VNode t f r' (c + 1)]> ns) (ms ∖ {[+ (g, i, VGrant t) +]})).
Proof.
  intros Hs Hi Hg Hr. destruct (vi_grant _ _ Hs _ _ _ Hg) as (Hne & HVg & _).
  destruct (vi_cand _ _ Hs _ _ Hi eq_refl) as (Ef & G & [HiG HG] & Hc). simpl in Ef, Hc, HG. subst f.
  assert (g ∉ G) as HgG by (intros H0; by apply HG in H0 as (_ & _ & ?)).
  assert (in_range i) as Ri by (apply (vi_nodes _ _ Hs); eauto).
  assert (V !! (i, t) = Some i) as HVi by (apply (vi_vote _ _ Hs _ _ Hi); simpl; unfold in_range in Ri; lia).
  assert (vinv V (VNet ns (ms ∖ {[+ (g, i, VGrant t) +]}))) as Hs' by (eapply vinv_lose; [done|]; apply difference_msgs).
  pose proof (vi_once _ _ Hs i g t) as Honce. simpl in Honce. rewrite elem_of_multiplicity in Hg.
  eapply vinv_update; [apply Hs' | done | done | auto | | | auto | |].
  - apply (vinv_ballot_ok _ _ _ _ _ Hs Hi).
  - by eapply msgs_ok_insert.
  - intros _. simpl. split; [done|]. exists ({[g]} ∪ G). split.
    + split; [set_solver|]. intros g' [->%elem_of_singleton|Hg']%elem_of_union.
      * split; [done|]. split; apply not_elem_of_multiplicity; rewrite multiplicity_difference.
        -- rewrite multiplicity_singleton_ne by done. lia.
        -- rewrite multiplicity_singleton_eq. lia.
      * destruct (HG g' Hg') as (? & ? & ?). split; [done|].
        split; (intros Hx; eapply gmultiset_elem_of_subseteq in Hx; [by eauto | apply difference_msgs]).
    + rewrite size_union, size_singleton by set_solver. lia.
  - intros E. simpl in E. exists ({[i; g]} ∪ G). split.
    + rewrite !size_union, !size_singleton by set_solver. specialize (Hr E). lia.
    + intros g' Hg'. simpl. assert (g' = i \/ g' = g \/ g' ∈ G) as [->|[->|H0]] by set_solver; [done | done | by apply HG].
Qed.

(** Every step keeps the invariant, with the votes it gives added. *)
Lemma vstep_inv s s' V : vstep s s' -> vinv V s -> exists V', vinv V' s'.
Proof.
  intros Hst. destruct Hst; intros Hs; eauto using vinv_quiet, vinv_adopt, vinv_stand, vinv_vote, vinv_lose.
  eexists. by eapply vinv_grant.
Qed.

Lemma vsteps_inv s s' V : rtc vstep s s' -> vinv V s -> exists V', vinv V' s'.
Proof. intros Hst. revert V. induction Hst as [s|s1 s2 s3 H _ IH]; intros V Hs; [eauto|]. destruct (vstep_inv _ _ _ H Hs) as [V' ?]. eauto. Qed.
End Spec.
