(* ===== verification/ClusterElect.v ===== *)
(** Elections of the cluster: the nodes of [cluster.c] with the frames on their way,
    and that they follow the protocol of [ElectSpec]. *)

From stdpp Require Import gmultiset.
From S2P Require Import Prelude CLib Crypto AuthStore HashMap Message Queue Store Exchange Broker ClusterWire ClusterNode ClusterLog ClusterApply ClusterRaft ClusterDispatch ClusterApi ClusterVotes ClusterCalm ElectSpec.

(** The handlers are unfolded before the monad is. *)
Strategy expand [send_vote_request observe_term become_leader become_candidate start_prevote on_prevote_resp on_vote_req on_vote_resp on_append
  on_append_resp on_snap_begin on_snap_ack on_status election_timer_cb].

Section Effects.
Context {M : Type} `{!PtrMap M}.
Context (fuel : nat) (regcomp : bytes -> bool).
Implicit Types (n : cluster_node M).

Lemma vmsg_of_frame t fl term b :
  vmsg_of (cl_frame t fl term b) =
    if t =? CL_FRAME_VOTE_REQ then Some (VReq term) else if (t =? CL_FRAME_VOTE_RESP) && granted b then Some (VGrant term) else None.
Proof. reflexivity. Qed.

(** ** What the handlers do to the vote *)

(** Like [calm], with the requests and votes [r] sent. *)
Record sends (r : list (nat * vmsg)) n n' : Prop := Sends {
  se_ids : ids n' = ids n;
  se_ballot : ballot n' = ballot n;
  se_role : n_role n' = n_role n \/ n_role n' = CL_ROLE_FOLLOWER;
  se_durable : durable n -> durable n';
  se_out : votes_of (n_out n') = votes_of (n_out n) ++ r
}.

Lemma calm_sends n n' : calm n n' -> sends [] n n'.
Proof. intros [C1 C2 C3 C4 C5]. constructor; auto. by rewrite app_nil_r. Qed.

Lemma sends_calm n n' : sends [] n n' -> calm n n'.
Proof. intros [C1 C2 C3 C4 C5]. constructor; auto. by rewrite app_nil_r in C5. Qed.

Lemma sends_trans r1 r2 n1 n2 n3 : sends r1 n1 n2 -> sends r2 n2 n3 -> sends (r1 ++ r2) n1 n3.
Proof.
  intros [A1 A2 A3 A4 A5] [B1 B2 B3 B4 B5]. constructor; try congruence; auto; [destruct B3 as [->|]; auto|]. by rewrite B5, A5, app_assoc.
Qed.

Lemma cl_send_sends i t fl term b n rc n' :
  cl_send i t fl term b n = Some (rc, n') -> exists r, sends r n n' /\ (r = [] \/ exists m, vmsg_of (cl_frame t fl term b) = Some m /\ r = [(i, m)]).
Proof.
  destruct (vmsg_of (cl_frame t fl term b)) as [m|] eqn:Em.
  2:{ intros H. exists []. split; [|auto]. apply calm_sends. by eapply calm_cl_send. }
  intros (p & n0 & C0%calm_get_peer & E)%cl_bind_Some.
  assert (forall k (m' : cl M Z) n1 n2, calm n n1 -> (ok ← (k : cl M bool); if negb ok then mret (-1) else m') n1 = Some (rc, n2) ->
    calm_m k -> (exists n3, calm n n3 /\ m' n3 = Some (rc, n2)) \/ calm n n2) as Hstep.
  { intros k m' n1 n2 C1 (ok & n3 & Ek & Er)%cl_bind_Some Hk. apply Hk in Ek. destruct ok; simpl in Er.
    - left. eauto using calm_votes_trans.
    - right. injection Er as _ <-. eauto using calm_votes_trans. }
  assert (calm n n' -> exists r, sends r n n' /\ (r = [] \/ exists m0, Some m = Some m0 /\ r = [(i, m0)])) as Hq by (eauto 10 using calm_sends).
  destruct (p_link p); [|injection E as _ <-; auto].
  destruct (Hstep _ _ _ _ C0 E calm_malloc) as [(n1 & C1 & E1)|]; [|auto]. destruct (Hstep _ _ _ _ C1 E1 calm_malloc) as [(n2 & C2 & E2)|]; [|auto].
  destruct (Hstep _ _ _ _ C2 E2 calm_uv) as [(n3 & C3 & E3)|]; [|auto]. injection E3 as <- <-.
  exists [(i, m)]. split; [|eauto]. destruct C3 as [D1 D2 D3 D4 D5]. constructor; auto. etransitivity; [apply votes_of_app|].
  rewrite D5. f_equal. unfold votes_of. cbn [omap list_omap fst snd]. by rewrite Em.
Qed.

(** A higher term is adopted and the vote is free again. *)
Inductive moves n n' : Prop :=
| mv_calm : calm n n' -> moves n n'
| mv_term : n_current_term n < n_current_term n' -> n_voted_for n' = -1 -> n_role n' = CL_ROLE_FOLLOWER -> ids n' = ids n -> durable n' ->
    votes_of (n_out n') = votes_of (n_out n) -> moves n n'.

Lemma moves_calm n1 n2 n3 : moves n1 n2 -> calm n2 n3 -> moves n1 n3.
Proof.
  intros [C|A1 A2 A3 A4 A5 A6] D; [apply mv_calm; by eapply calm_votes_trans|]. destruct D as [D1 D2 D3 D4 D5]. injection D2 as E1 E2 E3.
  apply mv_term; [lia | congruence | destruct D3; congruence | congruence | auto | congruence].
Qed.

Lemma observe_term_moves t n b n' :
  observe_term t n = Some (b, n') -> moves n n' /\ t <= n_current_term n' /\ (b = false -> n' = n) /\ (b = true -> n_current_term n' = t).
Proof.
  intros (cur & n0 & [= <- <-] & E)%cl_bind_Some. destruct (t <=? n_current_term n) eqn:Hle; reflect_bools; [injection E as <- <-; split; [apply mv_calm, calm_votes_refl | done]|].
  apply cl_bind_Some in E as (? & n0 & E0%nset_Some & E'). apply cl_bind_Some in E' as (? & n1 & E1%calm_arm & E).
  apply cl_bind_Some in E as (? & n2 & E2%calm_update_health & E). apply cl_bind_Some in E as (? & n3 & E3 & [= <- <-]).
  apply persist_meta_durable in E3 as Hd. apply calm_persist_meta in E3.
  destruct (calm_votes_trans _ _ _ (calm_votes_trans _ _ _ E1 E2) E3) as [D1 D2 D3 _ D5]. injection D2 as F1 F2 F3. subst n0. simpl in *.
  split; [|split; [lia | done]]. apply mv_term; [lia | done | by destruct D3 | done..].
Qed.

Lemma for_each_sends {A} (f : A -> cl M unit) (g : A -> nat * vmsg) l : forall n u n',
  (forall x n u n', f x n = Some (u, n') -> sends [] n n' \/ sends [g x] n n') -> for_each f l n = Some (u, n') ->
  exists l', l' `sublist_of` l /\ sends (g <$> l') n n'.
Proof.
  induction l as [|x l IH]; intros n u n' Hf.
  - intros [= _ <-]. exists []. split; [constructor | apply calm_sends, calm_votes_refl].
  - intros (u1 & n1 & E1 & E2)%cl_bind_Some. apply IH in E2 as (l' & Hl & Hs); [|done]. destruct (Hf _ _ _ _ E1) as [H1|H1].
    + exists l'. split; [by constructor|]. apply (sends_trans _ _ _ _ _ H1 Hs).
    + exists (x :: l'). split; [by constructor|]. apply (sends_trans _ _ _ _ _ H1 Hs).
Qed.

Lemma request_sends k term b n u n' :
  (p ← get_peer k; if link_up p then _ ← cl_send k CL_FRAME_VOTE_REQ 0 term b; mret tt else mret tt) n = Some (u, n') ->
  sends [] n n' \/ sends [(k, VReq term)] n n'.
Proof.
  intros (p & n1 & E1%calm_get_peer%calm_sends & E)%cl_bind_Some.
  destruct (link_up p); [|injection E as _ <-; by left]. apply cl_bind_Some in E as (rc & n2 & E2 & [= _ <-]).
  apply cl_send_sends in E2 as (r & Hr & [->|(m & Hm & ->)]); [left | right]; apply (sends_trans _ _ _ _ _ E1) in Hr; [done|].
  rewrite vmsg_of_frame in Hm. by injection Hm as <-.
Qed.

Lemma vote_request_sends n u n' :
  send_vote_request false n = Some (u, n') ->
  exists ks, ks `sublist_of` seq 0 (length (n_peers n)) /\ sends ((fun k => (k, VReq (u32 (n_current_term n)))) <$> ks) n n'.
Proof.
  unfold send_vote_request. intros (? & ? & [= <- <-] & E)%cl_bind_Some. cbv zeta in E. apply cl_bind_Some in E as (? & ? & [= <- <-] & E).
  eapply for_each_sends; [|apply E]. intros k n0 u0 n3. apply request_sends.
Qed.

Lemma calm_vote_request_pre : calm_m (M := M) (send_vote_request true).
Proof. unfold send_vote_request. calm_auto. Qed.

Lemma calm_prevote_resp i t b : calm_m (M := M) (send_vote_resp i CL_FRAME_PREVOTE_RESP t b).
Proof. unfold send_vote_resp. calm_auto. Qed.

Lemma become_leader_calm n u n' : become_leader n = Some (u, n') -> calm (n <| n_role := CL_ROLE_LEADER |>) n'.
Proof.
  intros (? & n0 & E0%nset_Some & E)%cl_bind_Some. match type of E with ?m ?n1 = _ => assert (calm_m m) as Hm by calm_auto; apply Hm in E end.
  eapply calm_votes_trans; [|apply E]. rewrite E0. clear. constructor; auto.
Qed.

(** The node stands for election in the next term. *)
Definition candidate n (r : cluster_role_t) : cluster_node M :=
  n <| n_current_term := u64 (n_current_term n + 1) |> <| n_voted_for := n_self_id n |> <| n_role := r |> <| n_votes_granted := 1 |>.

Definition stands n n' : Prop := exists r ks,
  (r = CL_ROLE_LEADER -> n_quorum n <= 1) /\ ks `sublist_of` seq 0 (length (n_peers n)) /\ durable n' /\
  sends ((fun k => (k, VReq (u32 (u64 (n_current_term n + 1))))) <$> ks) (candidate n r) n'.

Lemma calm_with_role n n' r : calm n n' -> durable n' -> calm (n <| n_role := r |>) (n' <| n_role := r |>).
Proof. intros [C1 C2 C3 C4 C5] Hd. constructor; auto. Qed.

Lemma become_candidate_stands n u n' : become_candidate n = Some (u, n') -> stands n n'.
Proof.
  intros (? & n0 & E0%nset_Some & E)%cl_bind_Some.
  assert (forall r, calm (candidate n r) (n0 <| n_role := r |>)) as Hb by (intros r; rewrite E0; clear; destruct n; constructor; auto).
  assert (calm (candidate n CL_ROLE_CANDIDATE) n0) as Hc by (rewrite E0; clear; destruct n; constructor; auto).
  assert (n_quorum n0 = n_quorum n /\ n_votes_granted n0 = 1 /\ n_current_term n0 = u64 (n_current_term n + 1) /\ n_peers n0 = n_peers n) as (Q1 & Q2 & Q3 & Q4)
    by (rewrite E0; clear; by destruct n).
  clear E0. apply cl_bind_Some in E as (? & n1 & E1 & E).
  apply persist_meta_durable in E1 as Hd. apply calm_persist_meta in E1. apply cl_bind_Some in E as (? & n2 & E2%calm_update_health & E).
  apply cl_bind_Some in E as (? & ? & [= <- <-] & E). pose proof (calm_votes_trans _ _ _ E1 E2) as C. apply (ca_durable _ _ E2) in Hd.
  pose proof (ca_ids _ _ C) as Ei. injection Ei as Ei1 Ei2 Ei3 Ei4. pose proof (ca_ballot _ _ C) as Eb. injection Eb as Eb1 Eb2 Eb3.
  destruct (n_quorum n2 <=? n_votes_granted n2) eqn:Eq; reflect_bools.
  - apply become_leader_calm in E. exists CL_ROLE_LEADER, []. split; [intros _; lia|]. split; [apply sublist_nil_l|].
    split; [by apply (ca_durable _ _ E)|]. apply calm_sends. eapply calm_votes_trans; [|apply E].
    eapply calm_votes_trans; [apply Hb|]. by apply calm_with_role.
  - apply cl_bind_Some in E as (? & n3 & E3 & E4%calm_arm). apply vote_request_sends in E3 as (ks & Hks & Hs).
    exists CL_ROLE_CANDIDATE, ks. split; [done|]. assert (length (n_peers n2) = length (n_peers n)) as <-.
    { rewrite <- Q4, <- (length_fmap p_node_id), Ei4. by rewrite length_fmap. }
    split; [done|]. split; [by apply (ca_durable _ _ E4), (se_durable _ _ _ Hs)|]. rewrite Eb1, Q3 in Hs.
    rewrite <- (app_nil_r (_ <$> ks)), <- (app_nil_l (_ <$> ks)).
    eapply sends_trans; [|by apply calm_sends]. eapply sends_trans; [apply calm_sends | apply Hs]. by eapply calm_votes_trans.
Qed.

(** What a call does to the vote: nothing but adopting a term, or standing for
    election after that. *)
Inductive elects n n' : Prop :=
| el_moves : moves n n' -> elects n n'
| el_stands n1 n2 : calm n n1 -> stands n1 n2 -> calm n2 n' -> elects n n'.

Lemma start_prevote_elects n u n' : start_prevote n = Some (u, n') -> elects n n'.
Proof.
  intros (? & n0 & E0 & E)%cl_bind_Some. assert (calm n n0) as C0 by (injection E0 as _ <-; constructor; auto).
  apply cl_bind_Some in E as (? & n1 & E1%calm_update_health & E). apply cl_bind_Some in E as (? & ? & [= <- <-] & E).
  pose proof (calm_votes_trans _ _ _ C0 E1) as C. case_match.
  - apply become_candidate_stands in E. eapply el_stands; [apply C | apply E | apply calm_votes_refl].
  - apply cl_bind_Some in E as (? & n3 & E3%calm_vote_request_pre & E4%calm_arm). apply el_moves, mv_calm. eauto using calm_votes_trans.
Qed.

Lemma on_prevote_resp_elects t p n u n' : on_prevote_resp t p n = Some (u, n') -> elects n n'.
Proof.
  intros (st & n0 & E0 & E)%cl_bind_Some. apply observe_term_moves in E0 as (Hm & _ & Hf & _).
  apply cl_bind_Some in E as (? & ? & [= <- <-] & E). destruct st; [injection E as _ <-; by apply el_moves|]. rewrite Hf in * by done.
  simpl in E. case_match; [injection E as _ <-; by apply el_moves|]. apply cl_bind_Some in E as (? & n1 & [= _ <-] & E).
  case_match; [|injection E as _ <-; apply el_moves, mv_calm; constructor; auto].
  apply become_candidate_stands in E. eapply el_stands; [|apply E | apply calm_votes_refl]. constructor; auto.
Qed.

(** The request of the peer [i] at term [t] is answered, perhaps with the vote. *)
Inductive answers (i : nat) (t : Z) n n' : Prop :=
| an_moves : moves n n' -> answers i t n n'
| an_grants n1 p r : moves n n1 -> n_peers n1 !! i = Some p -> n_current_term n1 = t -> n_voted_for n1 = -1 \/ n_voted_for n1 = p_node_id p ->
    r = [] \/ r = [(i, VGrant (u32 t))] -> sends r (n1 <| n_voted_for := p_node_id p |>) n' -> durable n' -> answers i t n n'.

Lemma vote_resp_sends i t b n u n' :
  send_vote_resp i CL_FRAME_VOTE_RESP t b n = Some (u, n') -> exists r, sends r n n' /\ (r = [] \/ (b = true /\ r = [(i, VGrant t)])).
Proof.
  intros (rc & n1 & E & [_ ->]%ret_Some)%cl_bind_Some. apply cl_send_sends in E as (r & Hs & Hr). exists r. split; [done|].
  destruct Hr as [->|(m & Hm & ->)]; [auto|]. rewrite vmsg_of_frame in Hm. destruct b; [|done]. injection Hm as <-. auto.
Qed.

Lemma get_peer_Some i n p n' : get_peer i n = Some (p, n') -> n_peers n !! i = Some p /\ n' = n.
Proof. unfold get_peer. destruct (n_peers n !! i); [|done]. by intros [= <- <-]. Qed.

Lemma on_vote_req_answers i t b n u n' : on_vote_req i t b n = Some (u, n') -> answers i t n n'.
Proof.
  intros (st & n1 & E0 & E)%cl_bind_Some. apply observe_term_moves in E0 as (Hm & _). apply cl_bind_Some in E as (? & ? & [-> ->]%nget_Some & E).
  apply cl_bind_Some in E as (p & ? & [Hp ->]%get_peer_Some & E). cbv zeta in E. unfold id in E.
  destruct ((t =? n_current_term n1) && up_to_date n1 b && ((n_voted_for n1 =? -1) || (n_voted_for n1 =? p_node_id p))) eqn:Hg.
  - apply andb_true_iff in Hg as [[Ht%Z.eqb_eq _]%andb_true_iff Hv]. apply orb_true_iff in Hv. rewrite !Z.eqb_eq in Hv.
    apply cl_bind_Some in E as (? & n5 & E & E5). apply cl_bind_Some in E as (? & n2 & ->%nset_Some & E).
    apply cl_bind_Some in E as (? & n3 & E3 & E4%calm_arm). apply persist_meta_durable in E3 as Hd. apply calm_persist_meta in E3.
    apply vote_resp_sends in E5 as (r & Hs & Hr). pose proof (calm_sends _ _ (calm_votes_trans _ _ _ E3 E4)) as Hc.
    apply (an_grants _ _ _ _ n1 p r); [done | done | done | done | | apply (sends_trans _ _ _ _ _ Hc Hs) |].
    + destruct Hr as [->|[_ ->]]; subst; auto.
    + by apply (se_durable _ _ _ Hs), (ca_durable _ _ E4).
  - apply cl_bind_Some in E as (? & ? & [_ ->]%ret_Some & E). apply vote_resp_sends in E as (r & Hs & [->|[? _]]); [|done].
    apply an_moves. eapply moves_calm; [done|]. by apply sends_calm.
Qed.

(** The vote of a peer is counted. *)
Inductive counts (t : Z) (b : bytes) n n' : Prop :=
| co_moves : moves n n' -> counts t b n n'
| co_counts r : n_role n = CL_ROLE_CANDIDATE -> n_current_term n = t -> granted b = true ->
    (r = CL_ROLE_LEADER -> n_quorum n <= n_votes_granted n + 1) ->
    calm (n <| n_votes_granted ::= fun z => z + 1 |> <| n_role := r |>) n' -> counts t b n n'.

Lemma on_vote_resp_counts t b n u n' : on_vote_resp t b n = Some (u, n') -> counts t b n n'.
Proof.
  intros (st & n1 & E0 & E)%cl_bind_Some. apply observe_term_moves in E0 as (Hm & _ & Hf & _).
  apply cl_bind_Some in E as (? & ? & [-> ->]%nget_Some & E). unfold id in E.
  destruct st; [apply ret_Some in E as [_ ->]; by apply co_moves|]. rewrite Hf in * by done. clear n1 Hf. cbn [orb] in E.
  destruct (bool_decide (n_role n = CL_ROLE_CANDIDATE) && (t =? n_current_term n) && granted b) eqn:Hg; cbn [negb] in E;
    [|apply ret_Some in E as [_ ->]; by apply co_moves].
  apply andb_true_iff in Hg as [[Hr%bool_decide_eq_true Ht%Z.eqb_eq]%andb_true_iff Hb].
  apply cl_bind_Some in E as (? & n1 & ->%nset_Some & E).
  destruct (n_quorum n <=? n_votes_granted n + 1) eqn:Hq; reflect_bools.
  - apply become_leader_calm in E. by apply (co_counts _ _ _ _ CL_ROLE_LEADER).
  - apply ret_Some in E as [_ ->]. apply (co_counts _ _ _ _ CL_ROLE_CANDIDATE); try done. destruct n. simpl in Hr. subst. constructor; auto.
Qed.

Lemma observe_then_calm {A} t (k : bool -> cl M A) n a n' :
  (forall b, calm_m (k b)) -> (observe_term t ≫= k) n = Some (a, n') -> moves n n'.
Proof. intros Hk (b & n1 & [Hm _]%observe_term_moves & E)%cl_bind_Some. apply Hk in E. by eapply moves_calm. Qed.

Lemma on_append_moves i t fl b n u n' : on_append fuel regcomp i t fl b n = Some (u, n') -> moves n n'.
Proof. apply observe_then_calm. intros ?; cbv beta zeta. calm_auto. Qed.

Lemma on_append_resp_moves i t b n u n' : on_append_resp fuel regcomp i t b n = Some (u, n') -> moves n n'.
Proof. apply observe_then_calm. intros ?; cbv beta zeta. calm_auto. Qed.

Lemma on_snap_ack_moves i t b n u n' : on_snap_ack i t b n = Some (u, n') -> moves n n'.
Proof. apply observe_then_calm. intros ?; cbv beta zeta. calm_auto. Qed.

Lemma on_status_moves t b n u n' : on_status t b n = Some (u, n') -> moves n n'.
Proof. apply observe_then_calm. intros ?; cbv beta zeta. calm_auto. Qed.

Lemma on_snap_begin_moves i t b n u n' : on_snap_begin fuel regcomp i t b n = Some (u, n') -> moves n n'.
Proof.
  intros (? & ? & [-> ->]%nget_Some & E)%cl_bind_Some. destruct (t <? n_current_term n); [apply ret_Some in E as [_ ->]; apply mv_calm, calm_votes_refl|].
  revert E. apply observe_then_calm. intros ?; cbv beta zeta. calm_auto.
Qed.

Lemma calm_on_prevote i t b : calm_m (M := M) (on_prevote i t b).
Proof. unfold on_prevote. apply calm_bind; [calm_auto|]. intros n. apply calm_prevote_resp. Qed.

Lemma moves_elects {A} (m : cl M A) n a n' : calm_m m -> m n = Some (a, n') -> elects n n'.
Proof. intros Hm E. apply el_moves, mv_calm. by eapply Hm. Qed.

(** Only two kinds of frames bear on the vote. *)
Lemma cl_dispatch_votes i h b n u n' :
  cl_dispatch fuel regcomp i h b n = Some (u, n') ->
  (h_type h = CL_FRAME_VOTE_REQ /\ answers i (h_term h) n n') \/
  (h_type h = CL_FRAME_VOTE_RESP /\ counts (h_term h) b n n') \/ elects n n'.
Proof.
  unfold cl_dispatch. cbv zeta. intros E. case_match; [right; right; revert E; apply moves_elects; auto with calm|].
  destruct (h_type h =? CL_FRAME_PREVOTE); [right; right; revert E; apply moves_elects, calm_on_prevote|].
  destruct (h_type h =? CL_FRAME_PREVOTE_RESP); [right; right; by eapply on_prevote_resp_elects|].
  destruct (h_type h =? CL_FRAME_VOTE_REQ) eqn:Eq; [reflect_bools; left; split; [done|]; by eapply on_vote_req_answers|].
  destruct (h_type h =? CL_FRAME_VOTE_RESP) eqn:Er; [reflect_bools; right; left; split; [done|]; by eapply on_vote_resp_counts|].
  right; right. repeat match type of E with (if ?c then _ else _) _ = _ => destruct c end;
    first [ revert E; apply moves_elects; by auto with calm | apply el_moves ].
  - by eapply on_append_moves.
  - by eapply on_append_resp_moves.
  - by eapply on_snap_begin_moves.
  - by eapply on_snap_ack_moves.
  - by eapply on_status_moves.
Qed.

Lemma election_timer_elects n u n' : election_timer_cb n = Some (u, n') -> elects n n'.
Proof.
  intros (? & ? & [-> ->]%nget_Some & E)%cl_bind_Some. unfold id in E. destruct (is_leader n); [|by eapply start_prevote_elects].
  apply ret_Some in E as [_ ->]. apply el_moves, mv_calm, calm_votes_refl.
Qed.
End Effects.
