(* ===== verification/ClusterMesh.v ===== *)
(** The cluster as a whole: the nodes and the frames on their way, what can happen to
    them, and that the elections among them are those of [ElectSpec]. *)

From stdpp Require Import gmultiset.
From S2P Require Import Prelude CLib Crypto AuthStore HashMap Message Queue Store Exchange Broker ClusterWire ClusterNode ClusterLog ClusterApply ClusterRaft ClusterDispatch ClusterApi ClusterVotes ClusterCalm ElectSpec ClusterElect.

Strategy expand [persist_load persist_init].

Section Mesh.
Context {M : Type} `{!PtrMap M}.
Context (fuel : nat) (regcomp : bytes -> bool) (uv_ip4_addr : bytes -> Z -> bool).
Context (N : Z).
Abbreviation cl A := (cl M A).
Abbreviation node := (cluster_node M).
Implicit Types (n : node).

(** * Events *)

(** What happens to a node other than a frame of a peer: its timers, its streams, the
    requests of the workers, the clock, the outcomes to come, and the work of the
    others on the broker and on the access-control store. *)
Inductive cluster_event :=
| ce_start | ce_stop | ce_election | ce_heartbeat | ce_fsync | ce_inbox | ce_fwd_retry | ce_flush
| ce_reconnect (i : nat) | ce_broken (i : nat)
| ce_connect (sid : positive) (ok : bool) | ce_accept (ok : bool) | ce_inbound (sid : positive) (data : option bytes) | ce_closed (sid : positive)
| ce_propose (op : Z) (data : bytes)
| ce_clock (now : Z) | ce_outcomes (mem : oracle) (io : list io_result) (uv_ : list bool)
| ce_broker (w : option (world M)) | ce_auth (a : option authstore).

Definition run_event (e : cluster_event) : cl unit :=
  match e with
  | ce_start => cluster_node_start
  | ce_stop => cluster_node_stop
  | ce_election => election_timer_cb
  | ce_heartbeat => heartbeat_timer_cb
  | ce_fsync => fsync_timer_cb fuel regcomp
  | ce_inbox => propose_async_cb fuel regcomp
  | ce_fwd_retry => fwd_retry_timer_cb fuel regcomp
  | ce_flush => leader_flush fuel regcomp
  | ce_reconnect i => reconnect_timer_cb i
  | ce_broken i => drop_peer_link i
  | ce_connect sid ok => on_connect sid ok
  | ce_accept ok => on_new_peer_conn ok
  | ce_inbound sid data => on_inbound_read sid data
  | ce_closed sid => on_link_closed sid
  | ce_propose op data => _ ← cluster_propose_tracked op data; mret tt
  | ce_clock now => nset (fun n => n <| n_now := now |>)
  | ce_outcomes mem io uv_ => nset (fun n => n <| n_mem := mem |> <| n_io := io |> <| n_uv := uv_ |>)
  | ce_broker w => nset (fun n => n <| n_broker := w |>)
  | ce_auth a => nset (fun n => n <| n_authstore := a |>)
  end.

(** * The mesh *)

(** The frames on their way, with the ids of the sender and of the receiver. *)
Record mesh := Mesh { me_nodes : gmap Z node; me_frames : list (Z * Z * mesh_frame) }.

(** What the node [i] has sent. *)
Definition sent (i : Z) n : list (Z * Z * mesh_frame) :=
  omap (fun kf => (fun p => (i, p_node_id p, kf.2)) <$> n_peers n !! kf.1) (n_out n).

(** The node is back in its loop. *)
Definition settle (i : Z) n (ns : gmap Z node) (fs : list (Z * Z * mesh_frame)) : mesh :=
  Mesh (<[i := n <| n_out := [] |>]> ns) (fs ++ sent i n).

(** A process of the node [i] that has read the files [disk]. *)
Definition boots (i : Z) (disk : file * file * bytes) n : Prop := exists cfg broker auth mem io uv_,
  cc_self_id cfg = i /\ cc_nnodes cfg = N /\ cc_data_dir cfg <> [] /\
  cluster_node_new fuel regcomp uv_ip4_addr cfg disk broker auth mem io uv_ = Some (Some n).

(** Every step but the loss of a frame is one call at one node.  A frame is
    delivered at most once, in any order.  A process may stop at any time, and is
    started again on its files: [raft.meta] as it is on the disk, which has to hold the
    term and the vote of the node, and any log and snapshot.  The file holds them
    whenever no write has failed ([election_safety] shows it); after a failed write the
    node goes on with a vote that is in memory only, and [vote_lost_on_restart] in
    [ClusterDemo] shows what is excluded here. *)
Inductive mesh_step : mesh -> mesh -> Prop :=
| ms_event ns fs i n e n' :
    ns !! i = Some n -> run_event e n = Some (tt, n') -> mesh_step (Mesh ns fs) (settle i n' ns fs)
| ms_frame ns fs1 fs2 src i f n k n' :
    ns !! i = Some n -> find_peer n src = Some k -> cl_dispatch fuel regcomp k (fr_hdr f) (fr_payload f) n = Some (tt, n') ->
    mesh_step (Mesh ns (fs1 ++ (src, i, f) :: fs2)) (settle i n' ns (fs1 ++ fs2))
| ms_lost ns fs1 f fs2 : mesh_step (Mesh ns (fs1 ++ f :: fs2)) (Mesh ns (fs1 ++ fs2))
| ms_restart ns fs i n ps log snap n' :
    ns !! i = Some n -> n_persist n = Some ps -> meta_of (ps_meta ps) = (n_current_term n, n_voted_for n) -> boots i (log, ps_meta ps, snap) n' ->
    mesh_step (Mesh ns fs) (settle i n' ns fs).

(** The terms are sent in 32 bits. *)
Definition terms_fit (m : mesh) : Prop := forall i n, me_nodes m !! i = Some n -> n_current_term n < 2 ^ 32.

(** Nodes that have never run before, with a file without a term. *)
Definition mesh_init (m : mesh) : Prop :=
  me_frames m = [] /\
  forall i, (in_range N i -> exists n log snap, boots i (log, f_empty, snap) n /\ me_nodes m !! i = Some (n <| n_out := [] |>)) /\
            (me_nodes m !! i <> None -> in_range N i).

Inductive mesh_reach : mesh -> Prop :=
| mr_init m : mesh_init m -> mesh_reach m
| mr_step m m' : mesh_reach m -> mesh_step m m' -> terms_fit m' -> mesh_reach m'.

(** ** What is seen of it in the elections *)

Definition vote_view n : vnode := VNode (n_current_term n) (n_voted_for n) (n_role n) (n_votes_granted n).
Definition vmsgs (fs : list (Z * Z * mesh_frame)) : gmultiset (Z * Z * vmsg) := list_to_set_disj (omap (fun x => pair x.1 <$> vmsg_of x.2) fs).
Definition view (m : mesh) : vnet := VNet (vote_view <$> me_nodes m) (vmsgs (me_frames m)).

(** The other nodes. *)
Definition others (i : Z) : list Z := filter (fun j => j <> i) (Z.of_nat <$> seq 0 (Z.to_nat N)).

Record node_good (i : Z) n : Prop := NodeGood {
  ng_ids : ids n = (i, N, majority N, others i);
  ng_term : 0 <= n_current_term n < 2 ^ 32;
  ng_for : -1 <= n_voted_for n < N;
  ng_durable : durable n
}.

Definition mesh_good (m : mesh) : Prop :=
  1 <= N <= 5 /\ (forall i, is_Some (me_nodes m !! i) <-> in_range N i) /\
  forall i n, me_nodes m !! i = Some n -> node_good i n /\ n_out n = [].

(** * Refinement *)

Lemma vmsgs_app a b : vmsgs (a ++ b) = vmsgs a ⊎ vmsgs b.
Proof. unfold vmsgs. by rewrite omap_app, list_to_set_disj_app. Qed.

(** The votes among the frames sent, to their receivers. *)
Definition addressed (i : Z) (l : list Z) (km : nat * vmsg) : option (Z * Z * vmsg) := (fun d => (i, d, km.2)) <$> l !! km.1.

Lemma vmsgs_sent i n : vmsgs (sent i n) = list_to_set_disj (omap (addressed i (p_node_id <$> n_peers n)) (votes_of (n_out n))).
Proof.
  unfold vmsgs, sent, votes_of. induction (n_out n) as [|[k f] l IH]; [done|]. cbn [omap list_omap fst snd].
  destruct (vmsg_of f) as [m|] eqn:Em; cbn [fmap option_fmap option_map].
  - cbn [omap list_omap]. unfold addressed at 1. cbn [fst snd]. rewrite list_lookup_fmap.
    destruct (n_peers n !! k) as [p|]; cbn; rewrite ?Em; cbn; by rewrite IH.
  - destruct (n_peers n !! k) as [p|]; cbn; rewrite ?Em; done.
Qed.

Lemma vmsgs_silent i n : votes_of (n_out n) = [] -> vmsgs (sent i n) = ∅.
Proof. intros E. by rewrite vmsgs_sent, E. Qed.

Lemma view_settle i n ns fs : view (settle i n ns fs) = VNet (<[i := vote_view n]> (vote_view <$> ns)) (vmsgs fs ⊎ vmsgs (sent i n)).
Proof. unfold view, settle. cbn [me_nodes me_frames]. rewrite fmap_insert, vmsgs_app. by destruct n. Qed.

Lemma good_calm i n n' : calm n n' -> node_good i n -> node_good i n'.
Proof.
  intros [C1 C2 C3 C4 C5] [G1 G2 G3 G4]. injection C2 as E1 E2 E3. constructor; [congruence | by rewrite E1 | by rewrite E2 | auto].
Qed.

Lemma good_moves i n n' : moves n n' -> node_good i n -> n_current_term n' < 2 ^ 32 -> 1 <= N -> node_good i n'.
Proof.
  intros [C|A1 A2 A3 A4 A5 A6] G Hlt HN; [by eapply good_calm|]. destruct G as [G1 G2 G3 G4]. constructor; [congruence | lia | lia | done].
Qed.

Lemma step_calm ns ms i n n' :
  calm n n' -> ns !! i = Some (vote_view n) -> vstep N (VNet ns ms) (VNet (<[i := vote_view n']> ns) ms).
Proof.
  intros [C1 C2 C3 C4 C5] Hi. injection C2 as E1 E2 E3. unfold vote_view. rewrite E1, E2. eapply vs_quiet; [apply Hi|].
  destruct C3 as [->|]; [left; auto | right; auto].
Qed.

Lemma step_moves ns ms i n n' :
  moves n n' -> ns !! i = Some (vote_view n) -> vstep N (VNet ns ms) (VNet (<[i := vote_view n']> ns) ms).
Proof.
  intros [C|A1 A2 A3 A4 A5 A6] Hi; [by eapply step_calm|]. unfold vote_view at 1. rewrite A2, A3. by eapply (vs_adopt N ns ms i _ _ _ _ _ (n_votes_granted n') Hi).
Qed.

Lemma others_NoDup i : NoDup (others i).
Proof. unfold others. apply NoDup_filter, NoDup_fmap_2; [|apply NoDup_seq]. intros x y. lia. Qed.

Lemma elem_of_others i d : d ∈ others i <-> d <> i /\ 0 <= d < N.
Proof.
  unfold others. rewrite list_elem_of_filter, list_elem_of_fmap. setoid_rewrite elem_of_seq. split.
  - intros (? & k & -> & Hk). lia.
  - intros (? & Hd). split; [done|]. exists (Z.to_nat d). lia.
Qed.

Lemma sublist_omap {A B} (f : A -> option B) (l k : list A) : l `sublist_of` k -> omap f l `sublist_of` omap f k.
Proof. induction 1; cbn; [done | case_match; [by constructor | done] | case_match; [by constructor | done]]. Qed.

Lemma omap_lookup_seq {A} (l : list A) : forall p, omap (fun k => (p ++ l) !! k) (seq (length p) (length l)) = l.
Proof.
  induction l as [|x l IH]; intros p; [done|]. cbn [length seq omap list_omap]. rewrite list_lookup_middle by done. f_equal.
  replace (S (length p)) with (length (p ++ [x])) by (rewrite length_app; simpl; lia). rewrite (cons_middle x p l), app_assoc. apply IH.
Qed.

(** The requests of a candidate go to different peers. *)
Lemma requests_addressed i (l : list Z) t (ks : list nat) :
  NoDup l -> ks `sublist_of` seq 0 (length l) ->
  exists dsts, NoDup dsts /\ (forall d, d ∈ dsts -> d ∈ l) /\
    list_to_set_disj (omap (addressed i l) ((fun k => (k, VReq t)) <$> ks)) = requests i t dsts.
Proof.
  intros Hnd Hks. exists (omap (fun k => l !! k) ks).
  assert (omap (fun k => l !! k) ks `sublist_of` l) as Hsub.
  { pose proof (omap_lookup_seq l []) as E. simpl in E. apply (sublist_omap (fun k => l !! k)) in Hks. by rewrite E in Hks. }
  split; [by eapply sublist_NoDup|]. split; [intros d Hd; eapply elem_of_submseteq; [done | by apply sublist_submseteq]|].
  unfold requests. f_equal. clear. induction ks as [|k ks IH]; [done|]. cbn [fmap list_fmap omap list_omap]. unfold addressed at 1. cbn [fst snd].
  destruct (l !! k); cbn; by rewrite IH.
Qed.

(** Every call keeps the node good and is a step of the protocol. *)
Definition refines (i : Z) n n' (ms ms' : gmultiset (Z * Z * vmsg)) : Prop :=
  node_good i n' /\ forall ns, ns !! i = Some (vote_view n) -> rtc (vstep N) (VNet ns ms) (VNet (<[i := vote_view n']> ns) ms').

Lemma refines_then i n n1 n2 ms ms1 ms2 : refines i n n1 ms ms1 -> (node_good i n1 -> refines i n1 n2 ms1 ms2) -> refines i n n2 ms ms2.
Proof.
  intros [G1 H1] H2. destruct (H2 G1) as [G2 H3]. split; [done|]. intros ns Hi. etransitivity; [by apply H1|].
  rewrite <- (insert_insert_eq ns i (vote_view n2) (vote_view n1)). apply H3, lookup_insert_eq.
Qed.

Lemma refines_calm i n n' ms : calm n n' -> node_good i n -> refines i n n' ms ms.
Proof. intros C G. split; [by eapply good_calm|]. intros ns Hi. by eapply rtc_once, step_calm. Qed.

Lemma refines_moves i n n' ms : 1 <= N -> moves n n' -> node_good i n -> n_current_term n' < 2 ^ 32 -> refines i n n' ms ms.
Proof. intros HN C G Ht. split; [by eapply good_moves|]. intros ns Hi. by eapply rtc_once, step_moves. Qed.

Lemma refines_stands i n n' ms :
  1 <= N <= 5 -> in_range N i -> stands n n' -> node_good i n -> votes_of (n_out n) = [] -> n_current_term n' < 2 ^ 32 ->
  refines i n n' ms (ms ⊎ vmsgs (sent i n')).
Proof.
  intros HN Hi (r & ks & Hr & Hks & Hd & Hs) [G1 G2 G3 G4] Ho Ht. pose proof G1 as Gi. injection G1 as I1 I2 I3 I4.
  destruct Hs as [S1 S2 S3 S4 S5]. injection S2 as K1 K2 K3.
  assert (u64 (n_current_term n + 1) = n_current_term n + 1) as Hu by (apply Z.mod_small; lia).
  assert (n_current_term n' = n_current_term n + 1) as Et by (rewrite K1; exact Hu).
  assert (n_voted_for n' = i) as Ev by (rewrite K2; unfold candidate; simpl; done).
  assert (n_votes_granted n' = 1) as Ec by (rewrite K3; done).
  destruct (requests_addressed i (others i) (n_current_term n + 1) ks (others_NoDup i)) as (dsts & Hnd & Hin & Hreq).
  { rewrite <- I4, length_fmap. done. }
  assert (p_node_id <$> n_peers n' = others i) as Ep by (rewrite <- I4; by injection S1).
  assert (vmsgs (sent i n') = requests i (n_current_term n + 1) dsts) as ->.
  { rewrite vmsgs_sent, Ep, <- Hreq, S5. replace (votes_of (n_out (candidate n r))) with (@nil (nat * vmsg)) by (by rewrite <- Ho). cbn [app].
    rewrite Hu, u32_small by lia. done. }
  split; [constructor; [rewrite S1; exact Gi | lia | unfold in_range in Hi; lia | done]|].
  intros ns Hns. unfold vote_view at 1. rewrite Et, Ev, Ec. apply rtc_once. eapply vs_stand; [apply Hns | | done |].
  - intros Hl. unfold majority in *. destruct S3 as [S3|S3]; [|congruence]. rewrite <- I3. apply Hr. unfold candidate in S3. simpl in S3. congruence.
  - intros d Hd'. by apply elem_of_others, Hin.
Qed.

Lemma disj_union_empty (ms : gmultiset (Z * Z * vmsg)) : ms ⊎ ∅ = ms.
Proof. apply (right_id_L ∅ (⊎)). Qed.

Lemma sent_calm i n n' : calm n n' -> vmsgs (sent i n') = vmsgs (sent i n).
Proof. intros [C1 C2 C3 C4 C5]. injection C1 as E1 E2 E3 E4. by rewrite !vmsgs_sent, E4, C5. Qed.

Lemma moves_silent n n' : moves n n' -> votes_of (n_out n') = votes_of (n_out n).
Proof. by intros [[]|]. Qed.

Lemma refines_elects i n n' ms :
  1 <= N <= 5 -> in_range N i -> elects n n' -> node_good i n -> votes_of (n_out n) = [] -> n_current_term n' < 2 ^ 32 ->
  refines i n n' ms (ms ⊎ vmsgs (sent i n')).
Proof.
  intros HN Hi [Hm|n1 n2 C1 Hs C2] G Ho Ht.
  - rewrite vmsgs_silent, disj_union_empty by (by rewrite (moves_silent _ _ Hm)). apply refines_moves; auto; lia.
  - eapply refines_then; [by apply refines_calm|]. intros G1. rewrite (sent_calm _ _ _ C2). eapply refines_then; [|intros G2; by apply refines_calm].
    apply refines_stands; auto; [by rewrite (ca_out _ _ C1)|]. pose proof (ca_ballot _ _ C2) as E. injection E as E _ _. lia.
Qed.

Lemma refines_lose i n ms ms' : node_good i n -> ms' ⊆ ms -> refines i n n ms ms'.
Proof. intros G Hsub. split; [done|]. intros ns Hi. rewrite insert_id by done. by apply rtc_once, vs_lose. Qed.

Lemma refines_answers i k src t n n' ms :
  1 <= N -> in_range N src -> answers k t n n' -> node_good i n -> votes_of (n_out n) = [] -> n_current_term n' < 2 ^ 32 -> others i !! k = Some src ->
  refines i n n' ({[+ (src, i, VReq t) +]} ⊎ ms) (ms ⊎ vmsgs (sent i n')).
Proof.
  intros HN Hsrc [Hm|n1 p r Hm Hp E1 Hv Hr Hs Hd] G Ho Ht Hk.
  - rewrite vmsgs_silent, disj_union_empty by (by rewrite (moves_silent _ _ Hm)). apply (refines_then i n n n' _ ms); [apply refines_lose; [done|]; multiset_solver|].
    intros _. apply refines_moves; auto.
  - destruct Hs as [S1 S2 S3 S4 S5]. pose proof S1 as S1'. injection S2 as K1 K2 K3. simpl in K1, K2, K3.
    eapply refines_then; [apply (refines_moves _ _ n1); auto; lia|]. intros G1. pose proof (ng_ids _ _ G1) as I. injection I as I1 I2 I3 I4.
    assert (p_node_id p = src) as Ep.
    { rewrite <- I4, list_lookup_fmap, Hp in Hk. by injection Hk. }
    assert (p_node_id <$> n_peers n' = others i) as Ei by (rewrite <- I4; by injection S1).
    split; [constructor; [rewrite S1'; apply (ng_ids _ _ G1) | pose proof (ng_term _ _ G1); lia | unfold in_range in Hsrc; lia | done]|].
    intros ns Hns. unfold vote_view at 1. rewrite K1, K2, K3, Ep. apply rtc_once.
    rewrite vmsgs_sent, Ei, S5. replace (votes_of (n_out (n1 <| n_voted_for := p_node_id p |>))) with (@nil (nat * vmsg))
      by (rewrite <- Ho; symmetry; apply (moves_silent _ _ Hm)).
    pose proof (ng_term _ _ G1) as Hb. rewrite u32_small in Hr by lia. cbn [app].
    replace ms with (({[+ (src, i, VReq t) +]} ⊎ ms) ∖ {[+ (src, i, VReq t) +]}) at 2 by multiset_solver.
    replace (list_to_set_disj _) with (if negb (bool_decide (r = [])) then {[+ (i, src, VGrant t) +]} else ∅ : gmultiset (Z * Z * vmsg)).
    2:{ destruct Hr as [->| ->]; [done|]. cbn [omap list_omap]. unfold addressed. cbn [fst snd].
        rewrite Hk. symmetry. apply disj_union_empty. }
    rewrite E1. apply (vs_grant N ns _ i t (n_voted_for n1) (n_role n1) (n_votes_granted n1) src); [|multiset_solver | by rewrite <- Ep | done].
    rewrite Hns. unfold vote_view. by rewrite E1.
Qed.

Lemma refines_counts i src t b n n' ms :
  1 <= N -> counts t b n n' -> node_good i n -> votes_of (n_out n) = [] -> n_current_term n' < 2 ^ 32 ->
  refines i n n' ((if granted b then {[+ (src, i, VGrant t) +]} else ∅) ⊎ ms) (ms ⊎ vmsgs (sent i n')).
Proof.
  intros HN [Hm|r Hr E1 Hg Hq C] G Ho Ht.
  - rewrite vmsgs_silent, disj_union_empty by (by rewrite (moves_silent _ _ Hm)). apply (refines_then i n n n' _ ms); [apply refines_lose; [done|]; multiset_solver|].
    intros _. apply refines_moves; auto.
  - rewrite Hg. rewrite (sent_calm _ _ _ C), vmsgs_silent, disj_union_empty by exact Ho.
    eapply refines_then; [|intros G1; by apply refines_calm]. split; [by destruct G|]. intros ns Hi.
    replace ms with (({[+ (src, i, VGrant t) +]} ⊎ ms) ∖ {[+ (src, i, VGrant t) +]}) at 2 by multiset_solver.
    apply rtc_once. unfold vote_view in *. simpl. rewrite Hr, E1 in *. apply vs_vote; [done | multiset_solver|].
    intros E. unfold majority. pose proof (ng_ids _ _ G) as I. injection I as I1 I2 I3 I4. unfold majority in I3. rewrite <- I3. by apply Hq.
Qed.

Lemma vmsgs_middle fs1 x fs2 :
  vmsgs (fs1 ++ x :: fs2) = (match vmsg_of x.2 with Some m => {[+ (x.1, m) +]} | None => ∅ end) ⊎ vmsgs (fs1 ++ fs2).
Proof.
  change (x :: fs2) with ([x] ++ fs2). rewrite !vmsgs_app. unfold vmsgs at 2. cbn [omap list_omap]. destruct (vmsg_of x.2); cbn [fmap option_fmap option_map].
  - cbn [list_to_set_disj]. rewrite disj_union_empty. multiset_solver.
  - cbn [list_to_set_disj]. multiset_solver.
Qed.

Lemma find_peer_lookup id : forall l i k, find_peer_from i id l = Some k -> exists j, k = (i + j)%nat /\ (p_node_id <$> l) !! j = Some id.
Proof.
  induction l as [|p l IH]; intros i k; simpl; [done|]. destruct (p_node_id p =? id) eqn:E; reflect_bools.
  - intros [= <-]. exists 0%nat. simpl. split; [lia | congruence].
  - intros (j & -> & Hj)%IH. exists (S j). simpl. split; [lia | done].
Qed.

(** ** The files *)

Lemma load_meta_reads ps n u n' :
  load_meta ps n = Some (u, n') -> (n_current_term n, n_voted_for n) = (0, -1) ->
  exists t v, meta_of (ps_meta ps) = (t, v) /\ n' = n <| n_current_term := t |> <| n_voted_for := v |>.
Proof.
  unfold load_meta, meta_of. intros E E0. injection E0 as E1 E2. destruct (f_read _ _ _) as [mb|].
  - destruct (get_be32 mb =? CL_META_MAGIC); [apply nset_Some in E; eauto|]. apply ret_Some in E as [_ ->]. exists 0, (-1). split; [done|].
    destruct n. simpl in *. by subst.
  - apply ret_Some in E as [_ ->]. exists 0, (-1). split; [done|]. destruct n. simpl in *. by subst.
Qed.

Lemma persist_load_reads ps n u n' :
  n_persist n = Some ps -> (n_current_term n, n_voted_for n) = (0, -1) -> persist_load fuel regcomp n = Some (u, n') ->
  exists t v, meta_of (ps_meta ps) = (t, v) /\ calm (n <| n_current_term := t |> <| n_voted_for := v |>) n'.
Proof.
  intros Hp H0 (? & ? & [-> ->]%nget_Some & E)%cl_bind_Some. rewrite Hp in E. apply cl_bind_Some in E as (? & n1 & E1 & E).
  apply load_meta_reads in E1 as (t & v & Hm & ->); [|done]. exists t, v. split; [done|].
  match type of E with ?m ?n1 = _ => assert (calm_m m) as Hc by calm_auto; by apply Hc in E end.
Qed.

Lemma persist_init_reads dir log meta snap n n' :
  dir <> [] -> (n_current_term n, n_voted_for n) = (0, -1) -> persist_init fuel regcomp dir (log, meta, snap) n = Some (true, n') ->
  exists t v, meta_of meta = (t, v) /\ ids n' = ids n /\ ballot n' = (t, v, n_votes_granted n) /\ (n_role n' = n_role n \/ n_role n' = CL_ROLE_FOLLOWER) /\
    durable n' /\ votes_of (n_out n') = votes_of (n_out n).
Proof.
  intros Hdir H0 E. destruct dir as [|d dir]; [done|]. apply cl_bind_Some in E as (r & n1 & C1%calm_syscall & E).
  destruct r; [|apply ret_Some in E as [? _]; done]. apply cl_bind_Some in E as (ok & n2 & C2%calm_malloc & E).
  destruct ok; [|apply ret_Some in E as [? _]; done]. apply cl_bind_Some in E as (ok & n3 & C3%calm_all_ok & E).
  destruct ok; [|apply ret_Some in E as [? _]; done]. apply cl_bind_Some in E as (? & n4 & E4%nset_Some & E).
  apply cl_bind_Some in E as (? & n5 & E5 & [_ ->]%ret_Some).
  pose proof (calm_votes_trans _ _ _ (calm_votes_trans _ _ _ C1 C2) C3) as [D1 D2 D3 _ D5]. injection H0 as T0 V0. injection D2 as F1 F2 F3.
  eapply persist_load_reads in E5 as (t & v & Hm & [L1 L2 L3 L4 L5]); [|by rewrite E4 | rewrite E4; simpl; congruence].
  cbn [ps_meta] in Hm. exists t, v. rewrite E4 in *. split; [done|]. split; [rewrite L1; exact D1|]. split; [rewrite L2, <- F3; done|].
  split; [simpl in L3; destruct L3 as [->|]; auto|]. split; [|rewrite L5; exact D5].
  apply L4. intros _ _ ps [= <-] _. exact Hm.
Qed.

Lemma boots_reads i log meta snap n :
  boots i (log, meta, snap) n ->
  1 <= N <= 5 /\ ids n = (i, N, majority N, others i) /\ n_role n = CL_ROLE_FOLLOWER /\ (n_current_term n, n_voted_for n) = meta_of meta /\
  durable n /\ votes_of (n_out n) = [].
Proof.
  intros (cfg & broker & auth & mem & io & uv_ & <- & HN & Hdir & E). unfold cluster_node_new in E.
  destruct ((cc_nnodes cfg <? 1) || (CLUSTER_MAX_NODES <? cc_nnodes cfg)) eqn:Hn; [done|]. destruct (_ =? 0)%nat; [done|].
  destruct (malloc mem) as [ok mem']. destruct ok; [|done]. cbn [negb] in E.
  destruct (persist_init _ _ _ _ _) as [[[] n0]|] eqn:Ei; [|done..]. injection E as <-.
  apply persist_init_reads in Ei as (t & v & Hm & Hids & Hb & Hr & Hd & Ho); [|done | done].
  injection Hids as I1 I2 I3 I4. injection Hb as B1 B2 B3. reflect_bools. rewrite HN in *.
  split; [unfold CLUSTER_MAX_NODES in *; lia|]. split. { unfold ids. simpl. rewrite I1, I2, I3. unfold others. f_equal. rewrite <- list_fmap_compose. apply list_fmap_id. }
  split; [simpl; by destruct Hr|]. split; [simpl; congruence|]. split; [exact Hd | exact Ho].
Qed.

(** ** The steps *)

Lemma settle_refines ns fs0 fs i n n' :
  mesh_good (Mesh ns fs0) -> ns !! i = Some n -> refines i n n' (vmsgs fs0) (vmsgs fs ⊎ vmsgs (sent i n')) ->
  mesh_good (settle i n' ns fs) /\ rtc (vstep N) (view (Mesh ns fs0)) (view (settle i n' ns fs)).
Proof.
  intros (HN & Hdom & Hall) Hi [G R]. simpl in *. split.
  - split; [done|]. split.
    + intros j. rewrite <- Hdom. unfold settle. cbn [me_nodes]. destruct (decide (i = j)) as [<-|]; [rewrite lookup_insert_eq, Hi | rewrite lookup_insert_ne by done]; done.
    + intros j m. unfold settle. cbn [me_nodes]. intros [[<- <-]|[_ Hj]]%lookup_insert_Some; [|by apply Hall]. split; [by destruct G | done].
  - rewrite view_settle. unfold view. cbn [me_nodes me_frames]. apply R. by rewrite lookup_fmap, Hi.
Qed.

Lemma run_event_elects e n u n' : run_event e n = Some (u, n') -> elects n n'.
Proof.
  destruct e; cbn [run_event]; try (apply moves_elects; by auto with calm); [apply election_timer_elects | ..]; apply moves_elects.
  - unfold cluster_propose_tracked. calm_auto.
  - calm_auto.
  - calm_auto.
  - calm_auto.
  - calm_auto.
Qed.

Lemma settled_term i n ns fs : terms_fit (settle i n ns fs) -> n_current_term n < 2 ^ 32.
Proof. intros H. exact (H i (n <| n_out := [] |>) (lookup_insert_eq _ _ _)). Qed.

Lemma dispatch_refines i src k f n n' ms :
  1 <= N <= 5 -> in_range N i -> node_good i n -> n_out n = [] -> find_peer n src = Some k ->
  cl_dispatch fuel regcomp k (fr_hdr f) (fr_payload f) n = Some (tt, n') -> n_current_term n' < 2 ^ 32 ->
  refines i n n' ((match vmsg_of f with Some m => {[+ (src, i, m) +]} | None => ∅ end) ⊎ ms) (ms ⊎ vmsgs (sent i n')).
Proof.
  intros HN Ri G Ho Hk E Ht. pose proof (ng_ids _ _ G) as I. injection I as _ _ _ I4.
  apply find_peer_lookup in Hk as (k' & -> & Hk). rewrite I4 in Hk. cbn [Nat.add] in E.
  assert (in_range N src) as Rs by (apply list_elem_of_lookup_2, elem_of_others in Hk as [_ ?]; done).
  assert (votes_of (n_out n) = []) as Hv by (by rewrite Ho).
  apply cl_dispatch_votes in E as [[Et Ha]|[[Et Hc]|He]]; unfold vmsg_of.
  - rewrite Et. cbn. eapply refines_answers; eauto; lia.
  - rewrite Et. cbn. destruct (granted (fr_payload f)) eqn:Eg; cbn.
    + pose proof (refines_counts i src _ _ n n' ms ltac:(lia) Hc G Hv Ht) as Hr. by rewrite Eg in Hr.
    + pose proof (refines_counts i src _ _ n n' ms ltac:(lia) Hc G Hv Ht) as Hr. by rewrite Eg in Hr.
  - apply (refines_then i n n n' _ ms); [apply refines_lose; [done|]; case_match; multiset_solver|]. intros _. by apply refines_elects.
Qed.

Lemma restart_refines i n ps log snap n' ms :
  1 <= N -> node_good i n -> n_persist n = Some ps -> meta_of (ps_meta ps) = (n_current_term n, n_voted_for n) -> boots i (log, ps_meta ps, snap) n' ->
  refines i n n' ms (ms ⊎ vmsgs (sent i n')).
Proof.
  intros HN [G1 G2 G3 G4] Hp Hf (HN5 & Hids & Hr & Hm & Hd & Ho)%boots_reads. rewrite Hf in Hm. injection Hm as E1 E2.
  rewrite vmsgs_silent, disj_union_empty by done. split; [constructor; [done | lia | lia | done]|].
  intros ns Hi. apply rtc_once. unfold vote_view. rewrite E1, E2, Hr. eapply vs_quiet; [apply Hi | by right].
Qed.

Lemma mesh_step_refines m m' :
  mesh_good m -> mesh_step m m' -> terms_fit m' -> mesh_good m' /\ rtc (vstep N) (view m) (view m').
Proof.
  intros Hgood Hst. destruct Hst as [ns fs i n e n' Hi E | ns fs1 fs2 src i f n k n' Hi Hk E | ns fs1 f fs2 | ns fs i n ps log snap n' Hi Hp Hf Hb]; intros Ht.
  - eapply settle_refines; [done..|]. destruct Hgood as (HN & Hdom & Hall). destruct (Hall _ _ Hi) as [G Ho]. apply settled_term in Ht.
    apply refines_elects; auto; [apply Hdom; eauto | by eapply run_event_elects | by rewrite Ho].
  - eapply settle_refines; [done..|]. destruct Hgood as (HN & Hdom & Hall). destruct (Hall _ _ Hi) as [G Ho]. apply settled_term in Ht.
    rewrite vmsgs_middle. cbn [fst snd]. eapply dispatch_refines; eauto. apply Hdom. eauto.
  - split; [done|]. unfold view. cbn [me_nodes me_frames]. rewrite vmsgs_middle. apply rtc_once, vs_lose. multiset_solver.
  - eapply settle_refines; [done..|]. destruct Hgood as (HN & Hdom & Hall). destruct (Hall _ _ Hi) as [G Ho].
    eapply restart_refines; eauto; lia.
Qed.
End Mesh.

Section Safety.
Context {M : Type} `{!PtrMap M}.
Context (fuel : nat) (regcomp : bytes -> bool) (uv_ip4_addr : bytes -> Z -> bool).
Context (N : Z).
Implicit Types (m : mesh (M := M)).

Lemma mesh_init_good m : 1 <= N -> mesh_init fuel regcomp uv_ip4_addr N m -> mesh_good N m /\ vinv N ∅ (view m).
Proof.
  intros HN [Hf Hn].
  assert (forall i, is_Some (me_nodes m !! i) <-> in_range N i) as Hdom.
  { intros i. destruct (Hn i) as [H1 H2]. split; [intros [n E]; apply H2; congruence|]. intros Hi. destruct (H1 Hi) as (n & ? & ? & ? & ->). eauto. }
  assert (forall i n, me_nodes m !! i = Some n -> 1 <= N <= 5 /\ node_good N i n /\ n_out n = [] /\ vote_view n = VNode 0 (-1) CL_ROLE_FOLLOWER (n_votes_granted n)) as Hall.
  { intros i n E. destruct (proj1 (Hn i)) as (n0 & log & snap & Hb & E0); [apply Hdom; eauto|]. rewrite E in E0. injection E0 as ->.
    apply boots_reads in Hb as (HN5 & Hids & Hr & Hm & Hd & Ho). injection Hm as E1 E2.
    split; [done|]. split; [constructor; [exact Hids | change (0 <= n_current_term n0 < 2 ^ 32); lia | change (-1 <= n_voted_for n0 < N); lia | exact Hd]|].
    split; [done|]. unfold vote_view. change (n_current_term (n0 <| n_out := [] |>)) with (n_current_term n0). rewrite E1, <- E2, <- Hr. by destruct n0. }
  split.
  - destruct (proj2 (Hdom 0)) as [n E]; [unfold in_range; lia|]. apply Hall in E as [HN5 _]. split; [done|]. split; [done|]. intros j n' Hj. by apply Hall in Hj as (_ & ? & ? & _).
  - assert (forall i v, vn_nodes (view m) !! i = Some v -> exists c, v = VNode 0 (-1) CL_ROLE_FOLLOWER c) as Hv.
    { intros i v. unfold view. simpl. rewrite lookup_fmap. intros (n & E & ->)%fmap_Some. apply Hall in E as (_ & _ & _ & ->). eauto. }
    assert (vn_msgs (view m) = ∅) as He by (unfold view; simpl; by rewrite Hf).
    constructor; rewrite ?He.
    + intros i. rewrite <- Hdom. unfold view. simpl. by rewrite lookup_fmap, fmap_is_Some.
    + done.
    + intros i v (c & ->)%Hv. done.
    + done.
    + multiset_solver.
    + multiset_solver.
    + intros c i t. rewrite !multiplicity_empty. lia.
    + intros c v (? & ->)%Hv. done.
    + intros c v (? & ->)%Hv. done.
Qed.

Lemma mesh_reach_good m : 1 <= N -> mesh_reach fuel regcomp uv_ip4_addr N m -> mesh_good N m /\ exists V, vinv N V (view m).
Proof.
  intros HN Hr. induction Hr as [m Hi|m m' _ [Hg [V HV]] Hst Ht].
  - apply mesh_init_good in Hi as [? ?]; eauto.
  - destruct (mesh_step_refines _ _ _ _ _ _ Hg Hst Ht) as [Hg' Hrt]. split; [done|]. by eapply vsteps_inv.
Qed.

(** C1: at most one node of a cluster leads in a term.  The nodes run the handlers and
    timers of [cluster.c]; frames between them may be delayed, reordered and lost,
    memory and the disk may fail, and processes may stop and start again on their
    files.  Two conditions bound the runs: the terms stay below 2^32, since frames carry
    32 bits of them, and a process starts again only on a [raft.meta] that holds the
    last term and vote of the node.  The second part says when it does: at every node
    none of whose writes has failed. *)
Theorem election_safety m :
  1 <= N -> mesh_reach fuel regcomp uv_ip4_addr N m ->
  (forall i j n n', me_nodes m !! i = Some n -> me_nodes m !! j = Some n' ->
     n_role n = CL_ROLE_LEADER -> n_role n' = CL_ROLE_LEADER -> n_current_term n = n_current_term n' -> i = j) /\
  (forall i n ps, me_nodes m !! i = Some n -> n_persist n = Some ps -> n_storage_failed n = false ->
     meta_of (ps_meta ps) = (n_current_term n, n_voted_for n)).
Proof.
  intros HN ((HN5 & _ & Hall) & V & HV)%mesh_reach_good; [|done]. split.
  - intros i j n n' Hi Hj Hr Hr' Et.
    apply (vinv_safe N V (view m) i j (vote_view n) (vote_view n')); [lia | done | | | exact Hr | exact Hr' | exact Et]; unfold view; simpl; by rewrite lookup_fmap, ?Hi, ?Hj.
  - intros i n ps Hi Hp Hf. destruct (Hall i n Hi) as [[_ Ht Hv Hd] _]. apply Hd; [lia | lia | done | done].
Qed.
End Safety.
