(* ===== verification/ClusterFrame.v ===== *)
(** What a computation of a cluster node leaves alone: [frames pi m] says that [m] does
    not change what the projection [pi] sees, and [frames_auto] shows it from the
    shape of the code. *)

From S2P Require Import Prelude CLib Crypto AuthStore HashMap Message Queue Store Exchange Broker ClusterWire ClusterNode ClusterLog ClusterApply ClusterRaft ClusterDispatch ClusterVotes.

Section Frames.
Context {M : Type} `{!PtrMap M}.
Abbreviation cl A := (cl M A).
Abbreviation node := (cluster_node M).
Implicit Types (n : node).

Definition frames {T A} (pi : node -> T) (m : cl A) : Prop := forall n a n', m n = Some (a, n') -> pi n' = pi n.

Section Rules.
Context {T : Type} (pi : node -> T).

Lemma frames_ret {A} (a : A) : frames pi (mret a).
Proof. by intros n b n' [= <- <-]. Qed.

Lemma frames_bind {A B} (m : cl A) (f : A -> cl B) : frames pi m -> (forall a, frames pi (f a)) -> frames pi (m ≫= f).
Proof. intros Hm Hf n b n' (a & n1 & E1 & E2)%cl_bind_Some. apply Hm in E1. apply Hf in E2. congruence. Qed.

Lemma frames_nget {A} (f : node -> A) : frames pi (nget f).
Proof. by intros n a n' [_ ->]%nget_Some. Qed.

Lemma frames_undefined {A} : frames pi (undefined (A := A)).
Proof. by intros n a n'. Qed.

Lemma frames_defined {A} (o : option A) : frames pi (defined o).
Proof. intros n a n'. unfold defined. destruct o; [|done]. by intros [= _ <-]. Qed.

Lemma frames_nset f : (forall n, pi (f n) = pi n) -> frames pi (nset f).
Proof. by intros Hf n a n' ->%nset_Some. Qed.

Lemma frames_get_peer i : frames pi (get_peer i).
Proof. intros n a n'. unfold get_peer. destruct (n_peers n !! i); [|done]. by intros [= _ <-]. Qed.

Lemma frames_get_stream s : frames pi (get_stream s).
Proof. intros n a n'. unfold get_stream. destruct (n_streams n !! s); [|done]. by intros [= _ <-]. Qed.

Lemma frames_queue_at q : frames pi (queue_at q).
Proof. intros n a n'. unfold queue_at. destruct (n_broker n); [|done]. destruct (_ !! _); [|done]. by intros [= _ <-]. Qed.

Lemma frames_malloc : (forall n o, pi (n <| n_mem := o |>) = pi n) -> frames pi cl_malloc.
Proof. intros H n a n'. unfold cl_malloc. destruct (malloc _). intros [= _ <-]. apply H. Qed.

Lemma frames_syscall : (forall n o, pi (n <| n_io := o |>) = pi n) -> frames pi syscall.
Proof. intros H n a n'. unfold syscall. destruct (n_io n); intros [= _ <-]; [done | apply H]. Qed.

Lemma frames_uv : (forall n o, pi (n <| n_uv := o |>) = pi n) -> frames pi uv.
Proof. intros H n a n'. unfold uv. destruct (n_uv n); intros [= _ <-]; [done | apply H]. Qed.

Lemma frames_for_each {A} (f : A -> cl unit) l : (forall x, frames pi (f x)) -> frames pi (for_each f l).
Proof. intros Hf. induction l as [|x l IH]; [apply frames_ret | apply frames_bind; auto]. Qed.

Lemma frames_on_world {A} (f : world M -> A * world M) : (forall n w, pi (n <| n_broker := w |>) = pi n) -> frames pi (on_world f).
Proof. intros H n a n'. unfold on_world. destruct (n_broker n); [|by intros [= _ <-]]. destruct (f _). intros [= _ <-]. apply H. Qed.

Lemma frames_try_world {A} (f : world M -> option (A * world M)) : (forall n w, pi (n <| n_broker := w |>) = pi n) -> frames pi (try_world f).
Proof. intros H n a n'. unfold try_world. destruct (n_broker n); [|done]. destruct (f _) as [[]|]; [|done]. intros [= _ <-]. apply H. Qed.

Lemma frames_collect_queues : (forall n o w, pi (n <| n_mem := o |> <| n_broker := w |>) = pi n) -> frames pi collect_queues.
Proof.
  intros H n a n'. unfold collect_queues. destruct (n_broker n); [|by intros [= _ <-]]. destruct (broker_foreach_queue _ _ _) as [[[? ?] ?] ?].
  intros [= _ <-]. apply H.
Qed.

Lemma frames_on_auth {A} (f : authstore -> option (A * authstore)) : (forall n a, pi (n <| n_authstore := a |>) = pi n) -> frames pi (on_auth f).
Proof.
  intros H n a n'. unfold on_auth. destruct (n_authstore n); [|by intros [= _ <-]]. destruct (f _) as [[]|]; [|done]. intros [= _ <-]. apply H.
Qed.
End Rules.

End Frames.

Create HintDb frames.
#[export] Hint Resolve frames_ret frames_nget frames_undefined frames_defined frames_get_peer frames_get_stream frames_queue_at : frames.

Ltac frames_step :=
  match goal with
  | |- frames _ (mbind _ _) => apply frames_bind; [|intros]
  | |- frames _ (for_each _ _) => apply frames_for_each; intros
  | |- frames _ (nset _) => apply frames_nset; intros; repeat case_match; done
  | |- frames _ (set_log _) => apply frames_nset; done
  | |- frames _ (set_peer _ _) => apply frames_nset; done
  | |- frames _ (set_ps _) => apply frames_nset; done
  | |- frames _ cl_malloc => apply frames_malloc; done
  | |- frames _ syscall => apply frames_syscall; done
  | |- frames _ uv => apply frames_uv; done
  | |- frames _ (on_world _) => apply frames_on_world; done
  | |- frames _ (try_world _) => apply frames_try_world; done
  | |- frames _ (on_auth _) => apply frames_on_auth; done
  | |- frames _ collect_queues => apply frames_collect_queues; done
  | |- frames _ (match ?x with _ => _ end) => destruct x
  | |- frames _ _ => solve [auto with frames]
  | |- frames _ _ => progress cbv beta zeta
  end.

Ltac frames_auto := intros; repeat frames_step.

(** * Applying operations *)

Section Apply.
Context {M : Type} `{!PtrMap M}.
Context (fuel : nat) (regcomp : bytes -> bool).

(** What an operation that is applied does not touch: the log, the files, the peers
    and what was sent. *)
Definition raft_state (n : cluster_node M) :=
  (n_log n, n_persist n, n_peers n, n_out n, (n_current_term n, n_voted_for n, n_quorum n, n_self_id n)).

Lemma frames_storage_write_failed : frames raft_state storage_write_failed.
Proof. unfold storage_write_failed, arm_election_timer, election_timeout_ms, update_health. frames_auto. Qed.
#[local] Hint Resolve frames_storage_write_failed : frames.

Lemma frames_topo_add op d : frames raft_state (topo_add op d).
Proof. unfold topo_add. frames_auto. Qed.

Lemma frames_unref_message m : frames raft_state (unref_message m).
Proof. unfold unref_message. frames_auto. Qed.
#[local] Hint Resolve frames_topo_add frames_unref_message : frames.

Lemma frames_apply_publish idx p : frames raft_state (apply_publish fuel idx p).
Proof. unfold apply_publish. frames_auto. Qed.

Lemma frames_apply_auth op p : frames raft_state (apply_auth regcomp op p).
Proof. unfold apply_auth, apply_auth_op, auth_op. frames_auto. Qed.
#[local] Hint Resolve frames_apply_publish frames_apply_auth : frames.

Lemma frames_apply_op e : frames raft_state (apply_op fuel regcomp e).
Proof. unfold apply_op, payload_of, pure_world. frames_auto. Qed.

Lemma frames_resolve_local : frames raft_state resolve_local_fwd_acks.
Proof. unfold resolve_local_fwd_acks, mark_proposal_status. frames_auto. Qed.

(** The acknowledgements are sent without a change to the log. *)
Lemma frames_cl_send i t fl term b : frames (M := M) n_log (cl_send i t fl term b).
Proof. unfold cl_send. frames_auto. Qed.
#[local] Hint Resolve frames_cl_send : frames.

Lemma frames_settle_acks c l : forall b, frames (M := M) n_log (settle_acks c l b).
Proof. induction l; intros b; simpl; unfold mark_proposal_status; frames_auto. Qed.
#[local] Hint Resolve frames_settle_acks : frames.

Lemma frames_resolve_fwd_acks : frames (M := M) n_log resolve_fwd_acks.
Proof. unfold resolve_fwd_acks, send_fwd_ack. frames_auto. Qed.
End Apply.
