(* ===== verification/ClusterCommit.v ===== *)
(** Commitment: an entry is committed when a majority has it, and what is committed is
    applied. *)

From S2P Require Import Prelude CLib Crypto AuthStore HashMap Message Queue Store Exchange Broker ClusterWire ClusterNode ClusterLog ClusterApply ClusterRaft ClusterDispatch ClusterVotes ClusterFrame.

(** * The index that a majority has *)

Definition count_ge (x : Z) (l : list Z) : Z := Z.of_nat (length (filter (fun y => x <= y) l)).

Lemma count_ge_perm x l l' : l ≡ₚ l' -> count_ge x l = count_ge x l'.
Proof. intros H. unfold count_ge. by rewrite H. Qed.

Lemma count_ge_app x a b : count_ge x (a ++ b) = count_ge x a + count_ge x b.
Proof. unfold count_ge. rewrite filter_app, length_app. lia. Qed.

Lemma count_ge_all x l : (forall y, y ∈ l -> x <= y) -> count_ge x l = Z.of_nat (length l).
Proof.
  intros H. unfold count_ge. f_equal. induction l as [|y l IH]; [done|]. rewrite filter_cons_True by (apply H; set_solver).
  simpl. rewrite IH; [done|]. intros z Hz. apply H. set_solver.
Qed.

Lemma count_ge_none x l : (forall y, y ∈ l -> y < x) -> count_ge x l = 0.
Proof.
  intros H. unfold count_ge. induction l as [|y l IH]; [done|]. rewrite filter_cons_False; [apply IH; intros z Hz; apply H; set_solver|].
  pose proof (H y ltac:(set_solver)). lia.
Qed.

Lemma count_ge_le x l : 0 <= count_ge x l <= Z.of_nat (length l).
Proof. unfold count_ge. pose proof (length_filter (fun y => x <= y) l). lia. Qed.

Lemma sort_pass_spec x l : let '(m, l') := sort_pass x l in m :: l' ≡ₚ x :: l /\ forall y, y ∈ l' -> y <= m.
Proof.
  revert x. induction l as [|y l IH]; intros x; simpl; [split; [done | set_solver]|].
  destruct (x <? y) eqn:E; reflect_bools; [specialize (IH y) | specialize (IH x)]; destruct (sort_pass _ l) as [m l'], IH as [Hp Hm].
  - split; [rewrite Permutation_swap, Hp; done|]. intros z [->|Hz]%elem_of_cons; [|by apply Hm].
    assert (y ∈ m :: l') as [->|Hy]%elem_of_cons by (rewrite Hp; set_solver); [lia | apply Hm in Hy; lia].
  - split; [rewrite Permutation_swap, Hp; apply Permutation_swap|]. intros z [->|Hz]%elem_of_cons; [|by apply Hm].
    assert (x ∈ m :: l') as [->|Hx]%elem_of_cons by (rewrite Hp; set_solver); [lia | apply Hm in Hx; lia].
Qed.

Lemma sort_desc_spec k : forall l, (length l <= k)%nat -> sort_desc k l ≡ₚ l /\ StronglySorted Z.ge (sort_desc k l).
Proof.
  induction k as [|k IH]; intros [|x l] Hk; simpl in *; [split; [done | apply SSorted_nil] | lia | split; [done | apply SSorted_nil] |].
  pose proof (sort_pass_spec x l) as Hs. destruct (sort_pass x l) as [m l'], Hs as [Hp Hm].
  destruct (IH l') as [Hp' Hs']. { apply Permutation_length in Hp. simpl in Hp. lia. }
  split; [by rewrite Hp'|]. constructor; [done|]. apply Forall_forall. intros y Hy. rewrite Hp' in Hy. apply Hm in Hy. lia.
Qed.

(** The [q]th largest value is the largest that [q] of the values reach. *)
Lemma nth_largest l k x :
  sort_desc (length l) l !! k = Some x -> Z.of_nat k < count_ge x l /\ forall y, x < y -> count_ge y l <= Z.of_nat k.
Proof.
  destruct (sort_desc_spec (length l) l) as [Hp Hs]; [done|]. revert Hp Hs. generalize (sort_desc (length l) l). intros s Hp Hs Hk.
  rewrite <- (take_drop_middle _ _ _ Hk) in Hs. apply StronglySorted_app in Hs as (H1 & _ & Hs). apply StronglySorted_inv in Hs as [_ Hx].
  rewrite Forall_forall in Hx. pose proof (lookup_lt_Some _ _ _ Hk) as Hlt.
  assert (length (take k s) = k) as Hl by (rewrite length_take; lia).
  split; [|intros y Hy]; rewrite <- (count_ge_perm _ _ _ Hp), <- (take_drop_middle _ _ _ Hk), count_ge_app.
  - rewrite count_ge_all; [|intros y Hy; specialize (H1 y x Hy); assert (x ∈ x :: drop (S k) s) by set_solver; specialize (H1 ltac:(done)); lia].
    change (x :: drop (S k) s) with ([x] ++ drop (S k) s). rewrite count_ge_app, (count_ge_all x [x]) by (intros y ->%list_elem_of_singleton; lia).
    pose proof (count_ge_le x (drop (S k) s)). simpl. lia.
  - rewrite (count_ge_none y (x :: _)); [|intros z [->|Hz]%elem_of_cons; [done | apply Hx in Hz; lia]]. pose proof (count_ge_le y (take k s)). lia.
Qed.

Section Commit.
Context {M : Type} `{!PtrMap M}.
Context (fuel : nat) (regcomp : bytes -> bool).
Implicit Types (n : cluster_node M).

(** What each node is known to have: on disk, or at all when commits do not wait for
    the disk. *)
Definition holders n : list Z :=
  if n_durable_commit n then (if n_storage_failed n then 0 else lg_durable_index (n_log n)) :: (p_durable_index <$> n_peers n)
  else lg_last_index (n_log n) :: (p_match_index <$> n_peers n).

(** The largest index that a majority has. *)
Definition majority_has n (N : Z) : Prop := n_quorum n <= count_ge N (holders n) /\ forall K, N < K -> count_ge K (holders n) < n_quorum n.

Lemma majority_index_has n N : 1 <= n_quorum n -> majority_index n = Some N -> majority_has n N.
Proof.
  intros Hq E. unfold majority_index in E. fold (holders n) in E. apply nth_largest in E as [H1 H2]. split; [lia|]. intros K HK. specialize (H2 K HK). lia.
Qed.

(** ** Applying moves the mark and nothing else of the log *)

Lemma raft_log {A} (m : cl M A) n a n' : frames raft_state m -> m n = Some (a, n') -> n_log n' = n_log n.
Proof. intros H E. apply H in E. unfold raft_state in E. congruence. Qed.

Lemma apply_entry_log l e n u n' :
  (match log_at l e with Some x => apply_op fuel regcomp x | None => mret tt end) n = Some (u, n') -> n_log n' = n_log n.
Proof. apply raft_log. destruct (log_at l e); [apply frames_apply_op | apply frames_ret]. Qed.

Lemma apply_loop_log k : forall n u n',
  apply_loop fuel regcomp k n = Some (u, n') -> n_log n' = (n_log n) <| lg_applied_index ::= fun z => z + Z.of_nat k |>.
Proof.
  induction k as [|k IH]; intros n u n'.
  - intros [_ ->]%ret_Some. destruct n as [??????????????? []]. simpl. unfold update_field. simpl. f_equal. lia.
  - intros (l & ? & [-> ->]%nget_Some & E)%cl_bind_Some. apply cl_bind_Some in E as (? & n1 & E1 & E). apply apply_entry_log in E1.
    apply cl_bind_Some in E as (? & n2 & E2 & E). unfold set_log in E2. apply nset_Some in E2. apply IH in E. rewrite E, E2. cbn [n_log update_field].
    rewrite E1. destruct (n_log n). unfold update_field. simpl. f_equal. lia.
Qed.

Lemma apply_committed_log n u n' :
  apply_committed fuel regcomp n = Some (u, n') ->
  n_log n' = (n_log n) <| lg_applied_index ::= fun z => Z.max z (lg_commit_index (n_log n)) |>.
Proof.
  intros (? & ? & [-> ->]%nget_Some & E)%cl_bind_Some. apply cl_bind_Some in E as (? & n1 & E1%apply_loop_log & E2%(raft_log _ _ _ _ frames_resolve_local)).
  rewrite E2, E1. destruct (n_log n). unfold update_field. simpl. f_equal. lia.
Qed.

(** C9: the leader commits exactly up to the largest index that a majority is known to
    have, and only when the entry there is of its own term. *)
Theorem commit_needs_majority n u n' :
  1 <= n_quorum n -> advance_commit fuel regcomp n = Some (u, n') ->
  exists N, majority_has n N /\
    lg_commit_index (n_log n') =
      if (lg_commit_index (n_log n) <? N) && (log_term_at (n_log n) N =? n_current_term n) then N else lg_commit_index (n_log n).
Proof.
  intros Hq (? & ? & [-> ->]%nget_Some & E)%cl_bind_Some. apply cl_bind_Some in E as (N & n1 & E1 & E). unfold id in *.
  assert (majority_index n = Some N /\ n1 = n) as [HN ->]. { unfold defined in E1. destruct (majority_index n); [|done]. by injection E1 as <- <-. }
  exists N. split; [by apply majority_index_has|]. apply cl_bind_Some in E as (? & n2 & E2 & E). apply cl_bind_Some in E as (? & ? & [-> ->]%nget_Some & E).
  unfold compact_payloads, set_log in E. apply nset_Some in E. replace (lg_commit_index (n_log n')) with (lg_commit_index (n_log n2)) by (rewrite E; by destruct (n_log n2) eqn:El; destruct n2; simpl in *; subst).
  clear E. case_match.
  - apply cl_bind_Some in E2 as (? & n3 & E3%nset_Some & E2). apply cl_bind_Some in E2 as (? & n4 & E4%apply_committed_log & E5%frames_resolve_fwd_acks).
    rewrite E5, E4, E3. done.
  - by apply ret_Some in E2 as [_ ->].
Qed.
End Commit.
