(* ===== verification/ClusterOps.v ===== *)
(** The operations that the cluster replicates: what is proposed on one node is what
    every node does to its broker and access-control store when the entry is applied. *)

From S2P Require Import Prelude CLib Crypto AuthStore HashMap Message Queue Store Exchange Broker ClusterWire ClusterNode ClusterLog ClusterApply ClusterVotes.

(** * Operations *)

(** An operation with the arguments of its [cluster_replicate_] function. *)
Inductive cl_op :=
| op_declare_queue (vhost name : bytes) (flags overflow max_length max_bytes : Z) (dlx dlx_rkey : bytes)
| op_declare_exchange (vhost name : bytes) (type flags : Z)
| op_bind (vhost queue exchange routing_key : bytes)
| op_delete_queue (vhost queue : bytes)
| op_publish (vhost exchange routing_key body props : bytes)
| op_consume (vhost queue : bytes) (watermark : Z)
| op_add_vhost (vhost : bytes)
| op_del_vhost (vhost : bytes)
| op_add_user (user pass_hash : bytes) (tags : Z)
| op_del_user (user : bytes)
| op_set_perm (user vhost configure write read : bytes)
| op_clear_perm (user vhost : bytes).

(** The type and the bytes of its entry; [None] when a name is too long. *)
Definition encode_op (o : cl_op) : option (Z * bytes) :=
  match o with
  | op_declare_queue vh name flags ov ml mb dlx rk => pair CL_OP_DECLARE_QUEUE <$> enc_declare_queue vh name flags ov ml mb dlx rk
  | op_declare_exchange vh name type flags => pair CL_OP_DECLARE_EXCH <$> enc_declare_exchange vh name type flags
  | op_bind vh q x rk => pair CL_OP_BIND <$> enc_strings [vh; q; x; rk]
  | op_delete_queue vh q => pair CL_OP_DELETE_QUEUE <$> enc_strings [vh; q]
  | op_publish vh x rk body props => pair CL_OP_PUBLISH <$> encode_publish_op vh x rk body props
  | op_consume vh q wm => pair CL_OP_ACK <$> enc_consume vh q wm
  | op_add_vhost vh => pair CL_OP_ADD_VHOST <$> enc_strings [vh]
  | op_del_vhost vh => pair CL_OP_DEL_VHOST <$> enc_strings [vh]
  | op_add_user u h tags => pair CL_OP_ADD_USER <$> enc_add_user u h tags
  | op_del_user u => pair CL_OP_DEL_USER <$> enc_strings [u]
  | op_set_perm u vh c w r => pair CL_OP_SET_PERM <$> enc_strings [u; vh; c; w; r]
  | op_clear_perm u vh => pair CL_OP_CLEAR_PERM <$> enc_strings [u; vh]
  end.

(** The names are C strings and the numbers have their widths. *)
Definition is_cstr (s : bytes) : Prop := Forall (fun b => 0 < b < 256) s.

Definition op_ok (o : cl_op) : Prop :=
  match o with
  | op_declare_queue vh name flags ov ml mb dlx rk =>
      Forall is_cstr [vh; name; dlx; rk] /\ 0 <= flags < 256 /\ 0 <= ov < 256 /\ 0 <= ml < 2 ^ 64 /\ 0 <= mb < 2 ^ 64
  | op_declare_exchange vh name type flags => Forall is_cstr [vh; name] /\ 0 <= type < 256 /\ 0 <= flags < 256
  | op_bind vh q x rk => Forall is_cstr [vh; q; x; rk]
  | op_delete_queue vh q => Forall is_cstr [vh; q]
  | op_publish vh x rk body props => Forall is_cstr [vh; x; rk] /\ Z.of_nat (length body) < 2 ^ 32 /\ Z.of_nat (length props) < 2 ^ 32
  | op_consume vh q wm => Forall is_cstr [vh; q] /\ 0 <= wm < 2 ^ 64
  | op_add_vhost vh | op_del_vhost vh => Forall is_cstr [vh]
  | op_add_user u h tags => Forall is_cstr [u; h] /\ 0 <= tags < 2 ^ 32
  | op_del_user u => Forall is_cstr [u]
  | op_set_perm u vh c w r => Forall is_cstr [u; vh; c; w; r]
  | op_clear_perm u vh => Forall is_cstr [u; vh]
  end.

Section Ops.
Context {M : Type} `{!PtrMap M}.
Context (fuel : nat) (regcomp : bytes -> bool).

(** A message routed to the queues of this node, with the index of its entry. *)
Definition publish_here (idx : Z) (vh x rk body props : bytes) : cl M unit :=
  m ← try_world (fun w =>
    let '(m, h) := message_new_full (Some x) (Some rk) body (match props with [] => None | _ => Some props end) (s_heap (w_sys w)) in
    Some (m, w_heap (fun _ => h) w));
  match m with
  | None => storage_write_failed
  | Some m => _ ← try_world (broker_route fuel vh (m <| m_cluster_id := idx |>)); unref_message (m <| m_cluster_id := idx |>)
  end.

(** What the operation means on a node: the call of the broker or of the
    access-control store that it stands for. *)
Definition op_effect (idx : Z) (o : cl_op) : cl M unit :=
  match o with
  | op_declare_queue vh name flags ov ml mb dlx rk =>
      pure_world (fun w => let '(_, _, created, w) := broker_declare_queue vh name flags w in
                           if created then configure_queue vh name ov ml mb dlx rk w else w)
  | op_declare_exchange vh name type flags => pure_world (fun w => snd (broker_declare_exchange vh name (exchange_type_of type) flags w))
  | op_bind vh q x rk => pure_world (fun w => snd (broker_bind vh q x (Some rk) w))
  | op_delete_queue vh q => pure_world (fun w => snd (broker_delete_queue vh q false false w))
  | op_publish vh x rk body props => publish_here idx vh x rk body props
  | op_consume vh q wm => pure_world (drain_queue vh q wm)
  | op_add_vhost vh => auth_op (authstore_add_vhost vh);; _ ← on_world (fun w => (tt, broker_declare_default_exchanges vh w)); mret tt
  | op_del_vhost vh => auth_op (authstore_del_vhost vh)
  | op_add_user u h tags => auth_op (authstore_add_user u h tags)
  | op_del_user u => auth_op (authstore_del_user u)
  | op_set_perm u vh c w r => auth_op (authstore_set_perm regcomp u vh c w r)
  | op_clear_perm u vh => auth_op (authstore_clear_perm u vh)
  end.

(** * Decoding *)

Lemma names_ok l : names_fit l = true -> Forall is_cstr l -> Forall name_fits l.
Proof.
  unfold names_fit. rewrite forallb_forall, !Forall_forall. intros Hf Hc s Hs. split; [by apply Hc|]. apply Nat.leb_le, Hf. by apply list_elem_of_In.
Qed.

Lemma rd_wr_strs l r : names_fit l = true -> Forall is_cstr l -> rd_strs (length l) 256 ((l ≫= wr_str) ++ r) = Some (l, r).
Proof. intros Hf Hc. apply wr_rd_strs. by apply names_ok. Qed.

Lemma rd_wr_strs_end l : names_fit l = true -> Forall is_cstr l -> rd_strs (length l) 256 (l ≫= wr_str) = Some (l, []).
Proof. intros Hf Hc. rewrite <- (app_nil_r (l ≫= wr_str)). by apply rd_wr_strs. Qed.

Lemma rd_wr_str_end s : names_fit [s] = true -> Forall is_cstr [s] -> rd_str 256 ([s] ≫= wr_str) = (Some s, []).
Proof. intros Hf Hc. pose proof (names_ok _ Hf Hc) as H. rewrite Forall_singleton in H. by apply wr_rd_str. Qed.

Lemma rd8_wr8 v r : 0 <= v < 256 -> rd8 (wr8 v ++ r) = (v, r).
Proof. intros Hv. unfold wr8. by rewrite u8_small. Qed.

Lemma rd_block_put b r : Z.of_nat (length b) < 2 ^ 32 -> rd_block (put_be32 (u32 (Z.of_nat (length b))) ++ b ++ r) = Some (b, r).
Proof.
  intros Hl. unfold rd_block. rewrite u32_small by lia. rewrite length_app, put_be32_length. rewrite get_put_be32 by lia.
  rewrite drop_app_length' by (by rewrite put_be32_length). destruct (Nat.ltb_spec (4 + length (b ++ r)) 4); [lia|]. rewrite length_app.
  destruct (Z.ltb_spec (Z.of_nat (length b + length r)) (Z.of_nat (length b))); [lia|]. by rewrite Nat2Z.id, take_app_length, drop_app_length.
Qed.

Lemma rd_block_put_end b : Z.of_nat (length b) < 2 ^ 32 -> rd_block (put_be32 (u32 (Z.of_nat (length b))) ++ b) = Some (b, []).
Proof. intros Hl. pose proof (rd_block_put b [] Hl) as E. by rewrite app_nil_r in E. Qed.

Lemma apply_declare_queue_enc vh name flags ov ml mb dlx rk b (w : world M) :
  op_ok (op_declare_queue vh name flags ov ml mb dlx rk) -> enc_declare_queue vh name flags ov ml mb dlx rk = Some b ->
  apply_declare_queue b w = let '(_, _, created, w) := broker_declare_queue vh name flags w in
                            if created then configure_queue vh name ov ml mb dlx rk w else w.
Proof.
  intros (Hc & Hf & Ho & Hml & Hmb). unfold enc_declare_queue. destruct (names_fit _) eqn:Hn; [|done]. intros <-%(inj Some).
  assert (names_fit [vh; name] = true /\ names_fit [dlx; rk] = true) as [N1 N2]
    by (apply andb_true_iff; unfold names_fit in *; by rewrite <- (forallb_app _ [vh; name])).
  assert (Forall is_cstr [vh; name] /\ Forall is_cstr [dlx; rk]) as [C1 C2] by (by apply (Forall_app _ [vh; name])).
  unfold apply_declare_queue. rewrite rd8_wr8 by done.
  pose proof (rd_wr_strs [vh; name] (wr8 ov ++ put_be64 ml ++ put_be64 mb ++ wr_str dlx ++ wr_str rk) N1 C1) as E.
  cbn [mbind list_bind length] in E. rewrite app_nil_r, <- app_assoc in E. rewrite E. destruct (broker_declare_queue vh name flags w) as [[[? ?] created] w'].
  destruct created; [|done]. rewrite (proj2 (Nat.leb_le 17 _)) by (rewrite !length_app, !put_be64_length; simpl; lia). cbn [andb]. rewrite rd8_wr8 by done.
  rewrite get_put_be64 by done. rewrite (drop_app_length' (put_be64 ml) _ 8) by (by rewrite put_be64_length). rewrite get_put_be64 by done.
  rewrite app_assoc, drop_app_length' by (by rewrite length_app, !put_be64_length).
  pose proof (rd_wr_strs_end [dlx; rk] N2 C2) as E2. cbn [mbind list_bind length] in E2. rewrite app_nil_r in E2. by rewrite E2.
Qed.

Lemma apply_publish_enc idx vh x rk body props b (n : cluster_node M) :
  op_ok (op_publish vh x rk body props) -> encode_publish_op vh x rk body props = Some b ->
  apply_publish fuel idx b n = publish_here idx vh x rk body props n.
Proof.
  intros (Hc & Hb & Hp). unfold encode_publish_op. destruct (names_fit _) eqn:Hn; [|done]. intros <-%(inj Some). unfold apply_publish.
  pose proof (rd_wr_strs [vh; x; rk] (put_be32 (u32 (Z.of_nat (length props))) ++ props ++ put_be32 (u32 (Z.of_nat (length body))) ++ body) Hn Hc) as E.
  cbn [mbind list_bind length] in E. rewrite app_nil_r, <- !app_assoc in E. rewrite E, rd_block_put by done.
  by rewrite rd_block_put_end.
Qed.

Lemma apply_strs_enc l b : Forall is_cstr l -> enc_strings l = Some b -> rd_strs (length l) 256 b = Some (l, []).
Proof. intros Hc. unfold enc_strings. destruct (names_fit l) eqn:Hn; [|done]. intros <-%(inj Some). by apply rd_wr_strs_end. Qed.

Lemma apply_str_enc s b : Forall is_cstr [s] -> enc_strings [s] = Some b -> rd_str 256 b = (Some s, []).
Proof. intros Hc. unfold enc_strings. destruct (names_fit [s]) eqn:Hn; [|done]. intros <-%(inj Some). by apply rd_wr_str_end. Qed.

Lemma apply_consume_enc vh q wm b (w : world M) :
  op_ok (op_consume vh q wm) -> enc_consume vh q wm = Some b -> apply_ack b w = drain_queue vh q wm w.
Proof.
  intros [Hc Hw]. unfold enc_consume. destruct (names_fit _) eqn:Hn; [|done]. intros <-%(inj Some). unfold apply_ack.
  pose proof (rd_wr_strs [vh; q] (put_be64 wm) Hn Hc) as E. cbn [mbind list_bind length] in E. rewrite app_nil_r, <- app_assoc in E. rewrite E.
  rewrite put_be64_length. cbn [Nat.leb]. rewrite <- (app_nil_r (put_be64 wm)). by rewrite get_put_be64.
Qed.

Lemma apply_declare_exchange_enc vh name type flags b (w : world M) :
  op_ok (op_declare_exchange vh name type flags) -> enc_declare_exchange vh name type flags = Some b ->
  apply_declare_exchange b w = snd (broker_declare_exchange vh name (exchange_type_of type) flags w).
Proof.
  intros (Hc & Ht & Hf). unfold enc_declare_exchange. destruct (names_fit _) eqn:Hn; [|done]. intros <-%(inj Some). unfold apply_declare_exchange.
  rewrite !rd8_wr8 by done. pose proof (rd_wr_strs_end [vh; name] Hn Hc) as E. cbn [mbind list_bind length] in E. rewrite app_nil_r in E. by rewrite E.
Qed.

Lemma add_user_enc u h tags b :
  op_ok (op_add_user u h tags) -> enc_add_user u h tags = Some b -> exists r, rd_strs 2 256 b = Some ([u; h], r) /\ (rd32 r).1 = tags.
Proof.
  intros [Hc Ht]. unfold enc_add_user. destruct (names_fit _) eqn:Hn; [|done]. intros <-%(inj Some). exists (wr32 tags).
  pose proof (rd_wr_strs [u; h] (wr32 tags) Hn Hc) as E. cbn [mbind list_bind length] in E. rewrite app_nil_r, <- app_assoc in E. split; [exact E|].
  unfold rd32, wr32. rewrite put_be32_length. cbn [Nat.ltb Nat.leb fst]. pose proof (get_put_be32 tags [] Ht) as E3. by rewrite app_nil_r in E3.
Qed.

(** The encoding is not empty, so the entry has a body. *)
Lemma wr_str_length s : (2 <= length (wr_str s))%nat.
Proof. unfold wr_str. rewrite length_app. simpl. lia. Qed.

Lemma enc_strings_length s l b : enc_strings (s :: l) = Some b -> (2 <= length b)%nat.
Proof.
  unfold enc_strings. destruct (names_fit _); [|done]. intros <-%(inj Some). cbn [mbind list_bind]. rewrite length_app. pose proof (wr_str_length s). lia.
Qed.

Lemma encode_op_length o op b : encode_op o = Some (op, b) -> (2 <= length b)%nat.
Proof.
  destruct o; cbn [encode_op]; intros (b' & E & E')%fmap_Some; injection E' as _ ->; try (by eapply enc_strings_length).
  all: revert E; unfold enc_declare_queue, enc_declare_exchange, encode_publish_op, enc_consume, enc_add_user; destruct (names_fit _); [|done];
    intros <-%(inj Some); rewrite !length_app; first [pose proof (wr_str_length vhost) | pose proof (wr_str_length user)]; lia.
Qed.

(** The branch of [apply_op] that an operation takes. *)
Definition apply_branch (idx op : Z) (p : bytes) : cl M unit :=
  if op =? CL_OP_DECLARE_QUEUE then pure_world (apply_declare_queue p)
  else if op =? CL_OP_DECLARE_EXCH then pure_world (apply_declare_exchange p)
  else if op =? CL_OP_BIND then pure_world (apply_bind p)
  else if op =? CL_OP_DELETE_QUEUE then pure_world (apply_delete_queue p)
  else if op =? CL_OP_PUBLISH then apply_publish fuel idx p
  else if op =? CL_OP_ACK then pure_world (apply_ack p)
  else apply_auth regcomp op p.

Lemma pure_world_ext f g (n : cluster_node M) : (forall w, f w = g w) -> pure_world f n = pure_world g n.
Proof. intros H. unfold pure_world, on_world, mbind, cl_bind. destruct (n_broker n); [|done]. by rewrite H. Qed.

Lemma apply_auth_some op p (n : cluster_node M) s : n_authstore n = Some s -> apply_auth regcomp op p n = apply_auth_op regcomp op p n.
Proof. intros E. unfold apply_auth, mbind, cl_bind, nget. by rewrite E. Qed.

Lemma apply_branch_effect o op b idx (n : cluster_node M) :
  op_ok o -> encode_op o = Some (op, b) -> is_Some (n_authstore n) -> apply_branch idx op b n = op_effect idx o n.
Proof.
  intros Hok Henc [s Hs]. destruct o; cbn [encode_op] in Henc; apply fmap_Some in Henc as (b' & E & E'); injection E' as -> ->;
    unfold apply_branch; cbn -[apply_auth pure_world apply_publish op_effect op_ok]; cbn [op_effect];
    try (rewrite (apply_auth_some _ _ _ _ Hs); unfold apply_auth_op; cbn -[rd_str rd_strs rd32 auth_op on_world]).
  - apply pure_world_ext. intros w. by apply apply_declare_queue_enc.
  - apply pure_world_ext. intros w. by apply apply_declare_exchange_enc.
  - apply pure_world_ext. intros w. unfold apply_bind. pose proof (apply_strs_enc [vhost; queue; exchange; routing_key] b' Hok E) as E2. cbn [length] in E2. by rewrite E2.
  - apply pure_world_ext. intros w. unfold apply_delete_queue. pose proof (apply_strs_enc [vhost; queue] b' Hok E) as E2. cbn [length] in E2. by rewrite E2.
  - by apply apply_publish_enc.
  - apply pure_world_ext. intros w. by apply apply_consume_enc.
  - by rewrite (apply_str_enc _ b' Hok E).
  - by rewrite (apply_str_enc _ b' Hok E).
  - destruct (add_user_enc _ _ _ _ Hok E) as (r & -> & <-). by destruct (rd32 r).
  - by rewrite (apply_str_enc _ b' Hok E).
  - pose proof (apply_strs_enc [user; vhost; configure; write; read] b' Hok E) as E2. cbn [length] in E2. by rewrite E2.
  - pose proof (apply_strs_enc [user; vhost] b' Hok E) as E2. cbn [length] in E2. by rewrite E2.
Qed.

Lemma apply_op_effect o op b term idx n :
  op_ok o -> encode_op o = Some (op, b) -> is_Some (n_broker n) -> is_Some (n_authstore n) ->
  apply_op fuel regcomp (Entry term idx op (Z.of_nat (length b)) (Some b)) n =
    (op_effect idx o;; if keeps_topology op then topo_add op b else mret tt) n.
Proof.
  intros Hok Henc [w Hw] Hs. pose proof (encode_op_length _ _ _ Henc) as Hlen.
  transitivity ((apply_branch idx op b;; if keeps_topology op then topo_add op b else mret tt) n).
  - unfold apply_op, mbind at 1, cl_bind at 1, nget at 1. rewrite Hw. unfold payload_of. cbn [e_len e_payload e_op_type e_index].
    rewrite (proj2 (Z.eqb_neq (Z.of_nat (length b)) 0)) by lia. reflexivity.
  - unfold mbind, cl_bind. by rewrite (apply_branch_effect _ _ _ idx n Hok Henc Hs).
Qed.

(** C11: an entry with the encoding of a proposed operation has, on the node that applies
    it, exactly the effect of that operation on the broker or the access-control store,
    and topology is remembered for the snapshot. *)
Theorem replicated_op_applied o op b term idx n :
  op_ok o -> encode_op o = Some (op, b) -> is_Some (n_broker n) -> is_Some (n_authstore n) ->
  apply_op fuel regcomp (Entry term idx op (Z.of_nat (length b)) (Some b)) n =
    (op_effect idx o;; if keeps_topology op then topo_add op b else mret tt) n.
Proof. apply apply_op_effect. Qed.
End Ops.
