(* ===== verification/ClusterWal.v ===== *)
(** The log file of a node: what is written is what a restart reads.  The log is
    followed through any sequence of appends, truncations, flushes, synchronisations
    and restarts, by the list of its entries. *)

From S2P Require Import Prelude CLib Crypto AuthStore HashMap Message Queue Store Exchange Broker ClusterWire ClusterNode ClusterLog ClusterApply ClusterRaft ClusterVotes ClusterFrame.

(** * Records *)

Definition body (e : cluster_log_entry_t) : bytes := default [] (e_payload e).
Definition enc1 (e : cluster_log_entry_t) : bytes := record_bytes e (body e).
Definition enc (rs : list cluster_log_entry_t) : bytes := rs ≫= enc1.

(** An entry as [log_append] makes it. *)
Record rec_ok (idx : Z) (e : cluster_log_entry_t) : Prop := RecOk {
  ro_index : e_index e = idx;
  ro_index_range : 0 <= idx < 2 ^ 64;
  ro_term : 0 <= e_term e < 2 ^ 64;
  ro_op : 0 <= e_op_type e < 2 ^ 32;
  ro_len : e_len e = Z.of_nat (length (body e));
  ro_max : e_len e <= CLUSTER_MAX_PAYLOAD;
  ro_payload : e_payload e = if e_len e =? 0 then None else Some (body e)
}.

Definition recs_ok (rs : list cluster_log_entry_t) : Prop := forall i e, rs !! i = Some e -> rec_ok (Z.of_nat i + 1) e.

Definition endpos (rs : list cluster_log_entry_t) : Z := Z.of_nat (length (enc rs)).

Lemma enc_app a b : enc (a ++ b) = enc a ++ enc b.
Proof. apply bind_app. Qed.

Lemma enc_single e : enc [e] = enc1 e.
Proof. apply app_nil_r. Qed.

Lemma enc_split k rs : enc rs = enc (take k rs) ++ enc (drop k rs).
Proof. by rewrite <- enc_app, take_drop. Qed.

Lemma enc1_length e : length (enc1 e) = (24 + length (body e))%nat.
Proof. unfold enc1, record_bytes. rewrite !length_app, !put_be64_length, !put_be32_length. lia. Qed.

Lemma enc_length_ge rs : (24 * length rs <= length (enc rs))%nat.
Proof. induction rs as [|e rs IH]; [done|]. change (e :: rs) with ([e] ++ rs).
  rewrite enc_app, enc_single, !length_app, enc1_length. simpl. lia. Qed.

Lemma endpos_snoc rs e : rec_ok (Z.of_nat (length rs) + 1) e -> endpos (rs ++ [e]) = endpos rs + CL_REC_HDR + e_len e.
Proof.
  intros H. unfold endpos. rewrite enc_app, enc_single, length_app, enc1_length, (ro_len _ _ H). unfold CL_REC_HDR. lia.
Qed.

Lemma recs_ok_take k rs : recs_ok rs -> recs_ok (take k rs).
Proof. intros H i e Hi. rewrite lookup_take_Some in Hi. apply H, Hi. Qed.

Lemma recs_ok_snoc rs e : recs_ok rs -> rec_ok (Z.of_nat (length rs) + 1) e -> recs_ok (rs ++ [e]).
Proof. intros H He i x Hi. apply lookup_snoc_Some in Hi as [[_ Hi]|[-> <-]]; [by apply H | done]. Qed.

(** ** Reading a record back *)

Lemma enc1_header e : take 24 (enc1 e) = put_be64 (e_term e) ++ put_be64 (e_index e) ++ put_be32 (e_op_type e) ++ put_be32 (e_len e).
Proof. unfold enc1, record_bytes. rewrite !app_assoc. apply take_app_length'. by rewrite !length_app, !put_be64_length, !put_be32_length. Qed.

Lemma enc1_body e : drop 24 (enc1 e) = body e.
Proof. unfold enc1, record_bytes. rewrite !app_assoc. apply drop_app_length'. by rewrite !length_app, !put_be64_length, !put_be32_length. Qed.

Lemma header_fields idx e hdr :
  rec_ok idx e -> hdr = take 24 (enc1 e) ->
  get_be64 hdr = e_term e /\ get_be64 (drop 8 hdr) = idx /\ get_be32 (drop 16 hdr) = e_op_type e /\ get_be32 (drop 20 hdr) = e_len e.
Proof.
  intros [R1 R2 R3 R4 R5 R6 R7] ->. rewrite enc1_header. split; [by apply get_put_be64|].
  rewrite (drop_app_length' (put_be64 (e_term e)) _ 8) by done. split; [rewrite get_put_be64; lia|].
  rewrite (app_assoc (put_be64 _)), (drop_app_length' _ (put_be32 (e_op_type e) ++ _) 16) by done. split; [by apply get_put_be32|].
  rewrite (app_assoc (put_be64 _ ++ put_be64 _)), (drop_app_length' _ (put_be32 (e_len e)) 20) by done.
  rewrite <- (app_nil_r (put_be32 (e_len e))). apply get_put_be32. unfold CLUSTER_MAX_PAYLOAD in R6. lia.
Qed.

(** Bytes of a file that are there. *)
Lemma f_read_data f off a b c : f_data f = a ++ b ++ c -> off = Z.of_nat (length a) -> Z.of_nat (length (f_data f)) <= f_size f ->
  f_read f off (Z.of_nat (length b)) = Some b.
Proof.
  intros E -> Hs. unfold f_read. rewrite E in *. rewrite !length_app in Hs. rewrite (proj2 (Z.leb_le _ _)) by lia.
  rewrite !Nat2Z.id, drop_app_length, take_app_length, Nat.sub_diag. by rewrite app_nil_r.
Qed.

(** After the last record there is nothing, or zeros. *)
Lemma f_read_end f off k hdr : off = Z.of_nat (length (f_data f)) -> f_read f off k = Some hdr -> hdr = replicate (Z.to_nat k) 0.
Proof.
  intros -> E. unfold f_read in E. case_match; [|done]. injection E as <-. rewrite Nat2Z.id, drop_all, take_nil. simpl. by rewrite Nat.sub_0_r.
Qed.

(** * The log and its file *)

(** An entry of the log whose body may have been freed. *)
Definition kept (e r : cluster_log_entry_t) : Prop :=
  e_term e = e_term r /\ e_index e = e_index r /\ e_op_type e = e_op_type r /\ e_len e = e_len r /\ (e_payload e = e_payload r \/ e_payload e = None).

(** The file has the records of the first [k] entries, the write buffer those of the
    others; [d] entries were there at the last synchronisation and have stayed. *)
Record wal (l : cluster_log_t) (ps : cl_persist_t) (rs : list cluster_log_entry_t) (d k : nat) : Prop := Wal {
  wl_base : lg_base_index l = 0;
  wl_ps_base : ps_base_index ps = 0;
  wl_snap : ps_snap ps = [];
  wl_entries : Forall2 kept (lg_entries l) rs;
  wl_recs : recs_ok rs;
  wl_k : (d <= k <= length rs)%nat;
  wl_data : f_data (ps_log ps) = enc (take k rs);
  wl_size : Z.of_nat (length (f_data (ps_log ps))) <= f_size (ps_log ps);
  wl_wbuf : ps_wbuf ps = enc (drop k rs);
  wl_log_size : ps_log_size ps = endpos rs;
  wl_write_pos : ps_write_pos ps = endpos (take k rs);
  wl_offsets : forall i, (i < length rs)%nat -> ps_offsets ps !! i = Some (Some (endpos (take i rs)))
}.

Lemma wal_last l ps rs d k : wal l ps rs d k -> lg_last_index l = Z.of_nat (length rs).
Proof. intros W. unfold lg_last_index. rewrite (wl_base _ _ _ _ _ W), (Forall2_length _ _ _ (wl_entries _ _ _ _ _ W)). lia. Qed.

(** ** Flushing *)

Lemma wal_flush l ps rs d k f :
  wal l ps rs d k -> (forall g, f_data (f g) = f_data g /\ f_size g <= f_size (f g)) ->
  wal l (ps <| ps_log ::= fun g => f_write (ps_write_pos ps) (ps_wbuf ps) (f g) |>
            <| ps_write_pos := ps_write_pos ps + Z.of_nat (length (ps_wbuf ps)) |> <| ps_wbuf := [] |>) rs d (length rs).
Proof.
  intros W Hf. pose proof (enc_split k rs) as Es. destruct (Hf (ps_log ps)) as [Fd Fs].
  assert (endpos rs = endpos (take k rs) + Z.of_nat (length (enc (drop k rs)))) as Ep by (unfold endpos; rewrite Es, length_app; lia).
  destruct W as [W1 W2 W3 W4 W5 W6 W7 W8 W9 W10 W11 W12].
  constructor; simpl; try done; try (rewrite firstn_all; lia || done).
  - lia.
  - rewrite W11, W9. unfold f_write. simpl. unfold endpos. rewrite Nat2Z.id, Fd, W7, firstn_all, Nat.sub_diag, (drop_ge (enc _)) by lia.
    simpl. rewrite app_nil_r, firstn_all. by symmetry.
  - rewrite W11, W9. unfold f_write. simpl. unfold endpos. rewrite !Nat2Z.id, Fd, W7, firstn_all, Nat.sub_diag, (drop_ge (enc _)) by lia.
    simpl. rewrite app_nil_r, length_app. lia.
  - by rewrite drop_all.
  - rewrite W9, W11, firstn_all. lia.
Qed.

Section Wal.
Context {M : Type} `{!PtrMap M}.
Context (fuel : nat) (regcomp : bytes -> bool).
Implicit Types (n : cluster_node M).

(** A node whose log is [rs], with a disk that works. *)
Definition wal_node n (rs : list cluster_log_entry_t) (d k : nat) : Prop :=
  n_io n = [] /\ exists ps, n_persist n = Some ps /\ wal (n_log n) ps rs d k.

Lemma syscall_works n r n' : n_io n = [] -> syscall n = Some (r, n') -> r = io_ok /\ n' = n.
Proof. unfold syscall. intros ->. by intros [= <- <-]. Qed.

Lemma persist_reserve_effect e n ps u n' : n_io n = [] -> n_persist n = Some ps -> persist_reserve e n = Some (u, n') ->
  n_io n' = [] /\ n_log n' = n_log n /\ exists f a, n_persist n' = Some (ps <| ps_log ::= f |> <| ps_alloc_size := a |>) /\
    forall g, f_data (f g) = f_data g /\ f_size g <= f_size (f g).
Proof.
  intros Hio Hps (? & ? & [-> ->]%nget_Some & E)%cl_bind_Some. rewrite Hps in E. case_match.
  - apply ret_Some in E as [_ ->]. split; [done|]. split; [done|]. exists (fun g => g), (ps_alloc_size ps). split; [by destruct ps | done].
  - apply cl_bind_Some in E as (r & n1 & E1 & E). apply syscall_works in E1 as [-> ->]; [|done]. apply nset_Some in E as ->. simpl. rewrite Hps.
    split; [done|]. split; [done|]. eexists _, _. split; [done|]. intros g. simpl. split; [done | lia].
Qed.

Lemma flush_effect n ps u n' : n_io n = [] -> n_persist n = Some ps -> persist_write_flush n = Some (u, n') ->
  n_io n' = [] /\ n_log n' = n_log n /\
  (ps_wbuf ps = [] /\ n_persist n' = Some ps \/
   exists f a, (forall g, f_data (f g) = f_data g /\ f_size g <= f_size (f g)) /\
     n_persist n' = Some (ps <| ps_log ::= fun g => f_write (ps_write_pos ps) (ps_wbuf ps) (f g) |>
       <| ps_write_pos := ps_write_pos ps + Z.of_nat (length (ps_wbuf ps)) |> <| ps_wbuf := [] |> <| ps_alloc_size := a |>)).
Proof.
  intros Hio Hps (? & ? & [-> ->]%nget_Some & E)%cl_bind_Some. rewrite Hps in E. destruct (length (ps_wbuf ps) =? 0)%nat eqn:Hw.
  - apply ret_Some in E as [_ ->]. apply Nat.eqb_eq, nil_length_inv in Hw. auto.
  - cbv zeta in E. apply cl_bind_Some in E as (? & n1 & E1 & E). apply (persist_reserve_effect _ _ _ _ _ Hio Hps) in E1 as (Hio1 & Hl1 & f & a & Hps1 & Hf).
    apply cl_bind_Some in E as (? & n2 & E2 & E). apply syscall_works in E2 as [-> ->]; [|done].
    apply cl_bind_Some in E as (? & n3 & ->%nset_Some & ->%nset_Some). simpl. rewrite Hps1. simpl. split; [done|]. split; [done|]. right.
    exists f, a. done.
Qed.

Lemma flush_wal n rs d k u n' : wal_node n rs d k -> persist_write_flush n = Some (u, n') -> wal_node n' rs d (length rs).
Proof.
  intros (Hio & ps & Hps & W) E. apply (flush_effect _ _ _ _ Hio Hps) in E as (Hio' & Hl & [[Hw Hp]|(f & a & Hf & Hp)]).
  - split; [done|]. exists ps. rewrite Hl. split; [done|]. rewrite (wl_wbuf _ _ _ _ _ W) in Hw. pose proof (enc_length_ge (drop k rs)) as Hk.
    rewrite Hw, length_drop in Hk. simpl in Hk. pose proof (wl_k _ _ _ _ _ W). by replace (length rs) with k by lia.
  - split; [done|]. eexists. split; [exact Hp|]. rewrite Hl. pose proof (wal_flush _ _ _ _ _ f W Hf) as [V1 V2 V3 V4 V5 V6 V7 V8 V9 V10 V11 V12].
    by constructor.
Qed.

(** ** Appending *)

(** All that [wal_node] depends on. *)
Definition walv n := (n_log n, n_persist n, n_io n).

Lemma wal_node_frame n n' rs d k : walv n' = walv n -> wal_node n rs d k -> wal_node n' rs d k.
Proof. intros [= El Ep Ei]. unfold wal_node. by rewrite El, Ep, Ei. Qed.

Lemma frames_wal_failed : frames walv (storage_write_failed (M := M)).
Proof. unfold storage_write_failed, arm_election_timer, election_timeout_ms, update_health. frames_auto. Qed.

Lemma frames_wal_malloc : frames walv (cl_malloc (M := M)).
Proof. by apply frames_malloc. Qed.

Lemma grow_until_ge f need : forall nc, 0 < nc -> need <= nc * 2 ^ Z.of_nat f -> need <= grow_until f nc need.
Proof.
  induction f as [|f IH]; intros nc Hnc Hle; cbn [grow_until]; [simpl in Hle; lia|]. destruct (Z.ltb_spec nc need); [|lia].
  apply IH; [lia|]. rewrite Nat2Z.inj_succ, Z.pow_succ_r in Hle by lia. lia.
Qed.

Lemma double_to_ge cap first need : 0 <= cap -> 0 < first -> need <= 2 ^ 64 -> need <= double_to cap first need.
Proof. intros H1 H2 H3. unfold double_to. change 64 with (Z.of_nat 64) in H3. apply grow_until_ge; case_match; reflect_bools; nia. Qed.

Lemma off_ensure_wal n rs d k need ok n' :
  wal_node n rs d k -> need <= 2 ^ 64 -> off_ensure need n = Some (ok, n') ->
  wal_node n' rs d k /\ n_log n' = n_log n /\ (ok = true -> forall ps, n_persist n' = Some ps -> need <= Z.of_nat (length (ps_offsets ps))).
Proof.
  intros (Hio & ps & Hps & W) Hn (? & ? & [-> ->]%nget_Some & E)%cl_bind_Some. rewrite Hps in E. cbv zeta in E. case_match; reflect_bools.
  - apply ret_Some in E as [-> ->]. split; [by split; eauto|]. split; [done|]. intros _ ps'. rewrite Hps. by intros [= <-].
  - apply cl_bind_Some in E as (ok' & n1 & E1%frames_wal_malloc & E). injection E1 as El Ep Ei. rewrite Hps in Ep. destruct ok'; simpl in E.
    2:{ apply ret_Some in E as [-> ->]. split; [split; [congruence | exists ps; by rewrite El]|]. done. }
    apply cl_bind_Some in E as (? & n2 & ->%nset_Some & [-> ->]%ret_Some). split; [split; [simpl; congruence|]; simpl; rewrite Ep, El; eexists; split; [done|]|].
    + destruct W. constructor; simpl; try done. intros i Hi. by apply lookup_app_l_Some, wl_offsets0.
    + split; [simpl; done|]. intros _ ps'. simpl. rewrite Ep. intros [= <-]. simpl. rewrite length_app, length_replicate.
      pose proof (double_to_ge (Z.of_nat (length (ps_offsets ps))) 64 need). lia.
Qed.

Lemma wbuf_ensure_wal n rs d k need ok n' :
  wal_node n rs d k -> wbuf_ensure need n = Some (ok, n') ->
  n_log n' = n_log n /\ exists k', wal_node n' rs d k' /\ (forall ps ps', n_persist n = Some ps -> n_persist n' = Some ps' -> ps_offsets ps' = ps_offsets ps).
Proof.
  intros Hw (? & ? & [-> ->]%nget_Some & E)%cl_bind_Some. pose proof Hw as (Hio & ps & Hps & W). rewrite Hps in E. cbv zeta in E.
  assert (forall q, Some ps = Some q -> q = ps) as Hq by (by intros q [= <-]).
  case_match; [apply ret_Some in E as [-> ->]; split; [done|]; exists k; split; [done|]; congruence|].
  apply cl_bind_Some in E as (ok' & n1 & E1%frames_wal_malloc & E). pose proof E1 as E1'. injection E1' as El Ep Ei. rewrite Hps in Ep.
  apply (wal_node_frame _ _ _ _ _ E1) in Hw. destruct ok'.
  - apply cl_bind_Some in E as (? & n2 & ->%nset_Some & [-> ->]%ret_Some). simpl. rewrite El. split; [done|]. exists k. split.
    + split; [simpl; congruence|]. simpl. rewrite Ep. eexists. split; [done|]. rewrite El. destruct W. by constructor.
    + intros p p'. simpl. rewrite Hps, Ep. by intros [= <-] [= <-].
  - apply cl_bind_Some in E as (? & n2 & E2 & E). pose proof (flush_effect _ _ _ _ (proj1 Hw) Ep E2) as (Hio2 & Hl2 & Hf). apply (flush_wal _ _ _ _ _ _ Hw) in E2.
    assert (walv n' = walv n2) as Ev.
    { case_match; [|by apply ret_Some in E as [_ ->]]. by apply cl_bind_Some in E as (? & ? & E3%frames_wal_failed & [_ ->]%ret_Some). }
    pose proof Ev as Ev'. injection Ev' as Fl Fp Fi. rewrite Fl, Hl2. split; [done|]. exists (length rs). split; [by eapply wal_node_frame|].
    rewrite Fp. intros p p'. rewrite Hps. intros [= <-]. destruct Hf as [[_ ->]|(f & a & _ & ->)]; by intros [= <-].
Qed.

Definition add_entry (e : cluster_log_entry_t) (l : cluster_log_t) : cluster_log_t := l <| lg_entries ::= fun es => es ++ [e] |>.

(** The state of the files once the record is in the buffer. *)
Definition buffered (e : cluster_log_entry_t) (payload : bytes) (ps : cl_persist_t) : cl_persist_t :=
  ps <| ps_wbuf ::= fun w => w ++ record_bytes e payload |>
     <| ps_offsets ::= <[Z.to_nat (e_index e - ps_base_index ps - 1) := Some (ps_log_size ps)]> |>
     <| ps_log_size ::= fun z => z + (CL_REC_HDR + e_len e) |> <| ps_dirty := true |>.

Lemma wal_append l ps rs d k e :
  wal l ps rs d k -> rec_ok (Z.of_nat (length rs) + 1) e -> e_index e <= Z.of_nat (length (ps_offsets ps)) ->
  wal (add_entry e l) (buffered e (body e) ps) (rs ++ [e]) d k.
Proof.
  intros [W1 W2 W3 W4 W5 W6 W7 W8 W9 W10 W11 W12] He Ho. pose proof (ro_index _ _ He) as Hi.
  assert (take k (rs ++ [e]) = take k rs) as Et by (apply take_app_le; lia).
  constructor; simpl; rewrite ?Et; try done.
  - apply Forall2_app; [done|]. constructor; [|constructor]. unfold kept. auto 10.
  - by apply recs_ok_snoc.
  - rewrite length_app. lia.
  - rewrite W9, drop_app_le by lia. by rewrite enc_app, enc_single.
  - rewrite W10. rewrite endpos_snoc by done. lia.
  - intros i Hlt. rewrite length_app in Hlt. simpl in Hlt. rewrite W2, Hi. destruct (decide (i = length rs)) as [->|Hne].
    + replace (Z.to_nat _) with (length rs) by lia. rewrite list_lookup_insert_eq by lia. by rewrite take_app_length, W10.
    + rewrite list_lookup_insert_ne by lia. rewrite W12 by lia. by rewrite take_app_le by lia.
Qed.

Lemma persist_append_wal n rs d k e ok n' :
  wal_node n rs d k -> rec_ok (Z.of_nat (length rs) + 1) e -> persist_append e n = Some (ok, n') ->
  n_log n' = n_log n /\ exists k',
    if ok then n_io n' = [] /\ exists ps, n_persist n' = Some ps /\ wal (add_entry e (n_log n)) ps (rs ++ [e]) d k' else wal_node n' rs d k'.
Proof.
  intros Hw He (? & ? & [-> ->]%nget_Some & E)%cl_bind_Some. pose proof Hw as (Hio & ps & Hps & W). rewrite Hps in E.
  pose proof (ro_index _ _ He) as Hi. pose proof (ro_index_range _ _ He) as Hr.
  apply cl_bind_Some in E as (ok1 & n1 & E1 & E). apply (off_ensure_wal _ _ _ _ _ _ _ Hw) in E1 as (Hw1 & Hl1 & Ho1);
    [|rewrite (wl_ps_base _ _ _ _ _ W); lia]. destruct ok1; simpl in E.
  2:{ apply cl_bind_Some in E as (? & n2 & E2%frames_wal_failed & [-> ->]%ret_Some). pose proof E2 as E2'. injection E2' as El _ _.
      rewrite El. split; [done|]. exists k. by eapply wal_node_frame. }
  apply cl_bind_Some in E as (ok2 & n2 & E2 & E). apply (wbuf_ensure_wal _ _ _ _ _ _ _ Hw1) in E2 as (Hl2 & k2 & Hw2 & Ho2). destruct ok2; simpl in E.
  2:{ apply ret_Some in E as [-> ->]. split; [congruence | eauto]. }
  apply cl_bind_Some in E as (payload & n3 & E3 & E). assert (payload = body e /\ n3 = n2) as [-> ->].
  { pose proof (ro_payload _ _ He) as Hp. unfold payload_of in E3. unfold body. case_match.
    - apply ret_Some in E3 as [-> ->]. by rewrite Hp.
    - rewrite Hp in E3 |- *. unfold defined in E3. simpl in E3. by injection E3 as <- <-. }
  apply cl_bind_Some in E as (? & n4 & ->%nset_Some & [-> ->]%ret_Some). simpl. rewrite Hl2, Hl1. split; [done|]. exists k2.
  destruct Hw2 as (Hio2 & ps2 & Hps2 & W2). split; [done|]. rewrite Hps2. eexists. split; [done|]. rewrite <- Hl1, <- Hl2. apply wal_append; [done | done|].
  destruct Hw1 as (_ & ps1 & Hps1 & W1). rewrite (Ho2 _ _ Hps1 Hps2). specialize (Ho1 eq_refl _ Hps1). rewrite (wl_ps_base _ _ _ _ _ W) in Ho1. lia.
Qed.

(** The entry that [log_append] makes. *)
Definition new_entry (term op : Z) (data : bytes) (rs : list cluster_log_entry_t) : cluster_log_entry_t :=
  let len := Z.of_nat (length data) in Entry term (Z.of_nat (length rs) + 1) op len (if len =? 0 then None else Some data).

Definition op_fits (term op : Z) (data : bytes) (rs : list cluster_log_entry_t) : Prop :=
  0 <= term < 2 ^ 64 /\ 0 <= op < 2 ^ 32 /\ Z.of_nat (length data) <= CLUSTER_MAX_PAYLOAD /\ Z.of_nat (length rs) + 1 < 2 ^ 64.

Lemma new_entry_ok term op data rs : op_fits term op data rs -> rec_ok (Z.of_nat (length rs) + 1) (new_entry term op data rs).
Proof.
  intros (H1 & H2 & H3 & H4). unfold new_entry. assert (body (new_entry term op data rs) = data) as Hb.
  { unfold body, new_entry. simpl. destruct data; done. }
  constructor; simpl; try done; try lia; unfold new_entry in Hb; rewrite Hb; done.
Qed.

Lemma log_append_wal n rs d k term op data ok n' :
  wal_node n rs d k -> op_fits term op data rs -> log_append term op data n = Some (ok, n') ->
  exists k', wal_node n' (if ok then rs ++ [new_entry term op data rs] else rs) d k'.
Proof.
  intros Hw Hfit (? & ? & [-> ->]%nget_Some & E)%cl_bind_Some. pose proof Hw as (Hio & ps & Hps & W).
  pose proof (wal_last _ _ _ _ _ W) as Hlast. rewrite Hlast in E. cbv zeta in E.
  apply cl_bind_Some in E as (ok1 & n1 & E1 & E).
  assert (wal_node n1 rs d k) as Hw1.
  { apply cl_bind_Some in E1 as (? & ? & [-> ->]%nget_Some & E1). cl_if E1; [by apply ret_Some in E1 as [_ ->]|].
    apply cl_bind_Some in E1 as (ok' & n2 & E2%frames_wal_malloc & E1). apply (wal_node_frame _ _ _ _ _ E2) in Hw as (Hio2 & ps2 & Hps2 & W2).
    destruct ok'; [|apply ret_Some in E1 as [_ ->]; by split; eauto]. apply cl_bind_Some in E1 as (? & n3 & ->%nset_Some & [_ ->]%ret_Some).
    split; [done|]. exists ps2. split; [done|]. destruct W2. by constructor. }
  destruct ok1; simpl in E; [|apply ret_Some in E as [-> ->]; eauto].
  apply cl_bind_Some in E as (ok2 & n2 & E2 & E). assert (wal_node n2 rs d k) as Hw2.
  { cl_if E2; [by apply ret_Some in E2 as [_ ->]|]. apply frames_wal_malloc in E2. by eapply wal_node_frame. }
  destruct ok2; simpl in E; [|apply ret_Some in E as [-> ->]; eauto].
  fold (new_entry term op data rs) in E. apply cl_bind_Some in E as (ok3 & n3 & E3 & E).
  apply (persist_append_wal _ _ _ _ _ _ _ Hw2 (new_entry_ok _ _ _ _ Hfit)) in E3 as (Hl3 & k' & H3). destruct ok3; simpl in E.
  - destruct H3 as (Hio3 & ps3 & Hps3 & W3). apply cl_bind_Some in E as (? & n4 & ->%nset_Some & [-> ->]%ret_Some). exists k'.
    split; [done|]. exists ps3. split; [done|]. simpl. rewrite Hl3. exact W3.
  - apply ret_Some in E as [-> ->]. eauto.
Qed.

(** ** Truncating *)

Definition cut_log (j : nat) (l : cluster_log_t) : cluster_log_t := l <| lg_entries ::= take j |>.

Lemma enc_prefix i rs : take (length (enc (take i rs))) (enc rs) = enc (take i rs).
Proof. rewrite (enc_split i rs). apply take_app_length. Qed.

Lemma wal_cut l ps rs d (j : nat) dirty :
  wal l ps rs d (length rs) -> (j <= length rs)%nat ->
  wal (cut_log j l) (ps <| ps_log ::= f_truncate (endpos (take j rs)) |> <| ps_log_size := endpos (take j rs) |> <| ps_write_pos := endpos (take j rs) |>
                        <| ps_dirty := dirty |>) (take j rs) (Nat.min d j) j.
Proof.
  intros [W1 W2 W3 W4 W5 W6 W7 W8 W9 W10 W11 W12] Hj. rewrite firstn_all in W7. rewrite drop_all in W9.
  constructor; simpl; rewrite ?length_take; rewrite ?take_take, ?Nat.min_id; try done.
  - by apply Forall2_take.
  - by apply recs_ok_take.
  - lia.
  - rewrite W7. unfold endpos. rewrite Nat2Z.id. apply enc_prefix.
  - unfold endpos. lia.
  - rewrite W9, drop_ge; [done|]. rewrite length_take. lia.
  - intros i Hi. rewrite take_take, Nat.min_l by lia. apply W12. lia.
Qed.

Lemma persist_truncate_wal n rs d k idx u n' :
  wal_node n rs d k -> 1 <= idx <= Z.of_nat (length rs) -> persist_truncate idx n = Some (u, n') ->
  n_log n' = n_log n /\ n_io n' = [] /\ exists ps, n_persist n' = Some ps /\
    wal (cut_log (Z.to_nat (idx - 1)) (n_log n)) ps (take (Z.to_nat (idx - 1)) rs) (Nat.min d (Z.to_nat (idx - 1))) (Z.to_nat (idx - 1)).
Proof.
  intros Hw Hidx (? & ? & [-> ->]%nget_Some & E)%cl_bind_Some. pose proof Hw as (Hio & ps & Hps & W). rewrite Hps in E.
  cl_if E; reflect_bools; [lia|]. apply cl_bind_Some in E as (? & n1 & E1 & E).
  pose proof (flush_effect _ _ _ _ Hio Hps E1) as (_ & Hl1 & _). apply (flush_wal _ _ _ _ _ _ Hw) in E1 as (Hio1 & ps1 & Hps1 & W1).
  apply cl_bind_Some in E as (? & ? & [-> ->]%nget_Some & E). rewrite Hps1 in E. apply cl_bind_Some in E as (ps' & n2 & E2 & E).
  unfold defined in E2. simpl in E2. injection E2 as <- <-. apply cl_bind_Some in E as (newsize & n2 & E2 & E).
  assert (newsize = endpos (take (Z.to_nat (idx - 1)) rs) /\ n2 = n1) as [-> ->].
  { rewrite (wl_ps_base _ _ _ _ _ W1) in E2. rewrite (proj2 (Z.ltb_lt 0 idx)) in E2 by lia. unfold read_offset in E2.
    assert (Z.to_nat (idx - 1) < length rs)%nat as Hlt by lia. pose proof (wl_offsets _ _ _ _ _ W1 _ Hlt) as Ho. pose proof (lookup_lt_Some _ _ _ Ho) as Hb.
    replace (idx - 0 - 1) with (idx - 1) in E2 by lia. rewrite (proj2 (andb_true_iff _ _)) in E2 by (rewrite Z.leb_le, Z.ltb_lt; lia).
    rewrite Ho in E2. unfold defined in E2. simpl in E2. by injection E2 as <- <-. }
  apply cl_bind_Some in E as (r & n3 & E3 & E). apply syscall_works in E3 as [-> ->]; [|done]. apply nset_Some in E as ->. simpl. rewrite Hl1, Hps1.
  split; [done|]. split; [done|]. eexists. split; [done|]. rewrite <- Hl1. apply wal_cut; [done | lia].
Qed.

(** The entries that are left. *)
Definition cut (idx : Z) (rs : list cluster_log_entry_t) : list cluster_log_entry_t := take (Z.to_nat (Z.max idx 1 - 1)) rs.

Lemma log_truncate_wal n rs d k idx u n' :
  wal_node n rs d k -> log_truncate_from idx n = Some (u, n') ->
  exists k', wal_node n' (cut idx rs) (Nat.min d (Z.to_nat (Z.max idx 1 - 1))) k'.
Proof.
  intros Hw (? & ? & [-> ->]%nget_Some & E)%cl_bind_Some. pose proof Hw as (Hio & ps & Hps & W). cbv zeta in E.
  rewrite (wl_base _ _ _ _ _ W), (wal_last _ _ _ _ _ W) in E.
  replace (if idx <=? 0 then 0 + 1 else idx) with (Z.max idx 1) in E by (destruct (Z.leb_spec idx 0); lia). unfold cut.
  set (j := Z.max idx 1) in *. assert (1 <= j) as Hj by lia. clearbody j. cl_if E; reflect_bools.
  - apply ret_Some in E as [_ ->]. exists k. pose proof (wl_k _ _ _ _ _ W). rewrite take_ge, Nat.min_l by lia. done.
  - apply cl_bind_Some in E as (? & n1 & E1 & E). apply (persist_truncate_wal _ _ _ _ _ _ _ Hw) in E1 as (Hl & Hio1 & ps1 & Hps1 & W1); [|lia].
    apply nset_Some in E as ->. exists (Z.to_nat (j - 1)). split; [done|]. exists ps1. split; [done|]. simpl. rewrite Hl.
    replace (Z.to_nat (j - 1 - lg_base_index (n_log n))) with (Z.to_nat (j - 1)) by (rewrite (wl_base _ _ _ _ _ W); lia). exact W1.
Qed.

(** ** Synchronising, and freeing bodies *)

Lemma wal_synced l ps rs d dur dirty :
  wal l ps rs d (length rs) -> wal (l <| lg_durable_index := dur |>) (ps <| ps_dirty := dirty |>) rs (length rs) (length rs).
Proof. intros [W1 W2 W3 W4 W5 W6 W7 W8 W9 W10 W11 W12]. by constructor. Qed.

Lemma persist_sync_wal n rs d k u n' :
  wal_node n rs d k -> persist_sync n = Some (u, n') ->
  (n_storage_failed n' = true /\ wal_node n' rs d (length rs)) \/
  (lg_durable_index (n_log n') = Z.of_nat (length rs) /\ wal_node n' rs (length rs) (length rs)).
Proof.
  intros Hw (? & ? & [-> ->]%nget_Some & E)%cl_bind_Some. pose proof Hw as (Hio & ps & Hps & W). rewrite Hps in E.
  apply cl_bind_Some in E as (? & n1 & E1 & E). apply (flush_wal _ _ _ _ _ _ Hw) in E1 as (Hio1 & ps1 & Hps1 & W1).
  apply cl_bind_Some in E as (? & ? & [-> ->]%nget_Some & E). destruct (n_storage_failed n1) eqn:Hf.
  - apply ret_Some in E as [_ ->]. left. split; [done|]. split; eauto.
  - right. apply cl_bind_Some in E as (? & ? & [-> ->]%nget_Some & E). apply cl_bind_Some in E as (r & n2 & E2 & E).
    assert (r = io_ok /\ n2 = n1) as [-> ->] by (cl_if E2; [by apply syscall_works in E2 | by apply ret_Some in E2]).
    apply cl_bind_Some in E as (? & n3 & ->%nset_Some & ->%nset_Some). simpl. split; [apply (wal_last _ _ _ _ _ W1)|].
    split; [done|]. simpl. rewrite Hps1. eexists. split; [done|]. by apply (wal_synced _ _ _ d).
Qed.

Lemma compact_payloads_wal n rs d k upto u n' :
  wal_node n rs d k -> compact_payloads upto n = Some (u, n') -> wal_node n' rs d k.
Proof.
  intros (Hio & ps & Hps & W) ->%nset_Some. split; [done|]. exists ps. split; [done|]. simpl. destruct W. constructor; try done. simpl.
  set (g := fun (i : nat) (e : cluster_log_entry_t) => _). apply Forall2_same_length_lookup. split; [rewrite length_imap; by eapply Forall2_length|].
  intros i x y Hx Hy. rewrite list_lookup_imap in Hx. apply fmap_Some in Hx as (e & He & ->). apply Forall2_same_length_lookup in wl_entries0 as [_ Hk].
  destruct (Hk i e y He Hy) as (K1 & K2 & K3 & K4 & K5). unfold g. case_match; [|done]. unfold kept. simpl. auto 10.
Qed.

(** * Restarting *)

Lemma bind_step {A B} (m : cl M A) (f : A -> cl M B) n a n1 : m n = Some (a, n1) -> (m ≫= f) n = f a n1.
Proof. unfold mbind, cl_bind. by intros ->. Qed.

(** A node that has read [i] of the records [rs]. *)
Record loading n (rs : list cluster_log_entry_t) (i : nat) (ps : cl_persist_t) : Prop := Loading {
  ld_mem : n_mem n = [];
  ld_io : n_io n = [];
  ld_base : lg_base_index (n_log n) = 0;
  ld_entries : lg_entries (n_log n) = take i rs;
  ld_ps : n_persist n = Some ps;
  ld_snap : ps_snap ps = [];
  ld_ps_base : ps_base_index ps = 0;
  ld_wbuf : ps_wbuf ps = [];
  ld_data : f_data (ps_log ps) = enc rs;
  ld_size : Z.of_nat (length (f_data (ps_log ps))) <= f_size (ps_log ps);
  ld_log_size : ps_log_size ps = endpos (take i rs);
  ld_offsets : forall j, (j < i)%nat -> ps_offsets ps !! j = Some (Some (endpos (take j rs)))
}.

Lemma cl_malloc_ok n : n_mem n = [] -> cl_malloc n = Some (true, n <| n_mem := [] |>).
Proof. unfold cl_malloc. by intros ->. Qed.

Lemma loading_mem n rs i ps : loading n rs i ps -> loading (n <| n_mem := [] |>) rs i ps.
Proof. intros []. by constructor. Qed.

Lemma log_ensure_cap_loading n rs i ps need :
  loading n rs i ps -> exists n', log_ensure_cap need n = Some (true, n') /\ loading n' rs i ps.
Proof.
  intros H. unfold log_ensure_cap, mbind, cl_bind, nget. case_match; [eexists; by split|].
  rewrite (cl_malloc_ok _ (ld_mem _ _ _ _ H)). eexists. split; [done|]. destruct H. by constructor.
Qed.

Lemma off_ensure_loading n rs i ps need :
  loading n rs i ps -> need <= 2 ^ 64 ->
  exists n' ps', off_ensure need n = Some (true, n') /\ loading n' rs i ps' /\ need <= Z.of_nat (length (ps_offsets ps')).
Proof.
  intros H Hn. unfold off_ensure, mbind, cl_bind, nget. rewrite (ld_ps _ _ _ _ H). case_match; reflect_bools; [eexists _, _; by split|].
  rewrite (cl_malloc_ok _ (ld_mem _ _ _ _ H)). set (f := fun ps => ps <| ps_offsets ::= _ |>). exists (n <| n_mem := [] |> <| n_persist ::= fmap f |>), (f ps).
  split; [done|]. unfold f. destruct H. split.
  - constructor; try done; simpl; [by rewrite ld_ps0|]. intros j Hj. simpl. by apply lookup_app_l_Some, ld_offsets0.
  - simpl. rewrite length_app, length_replicate. pose proof (double_to_ge (Z.of_nat (length (ps_offsets ps))) 64 need). lia.
Qed.

(** The node with one record more. *)
Definition loaded (e : cluster_log_entry_t) (slot off : Z) n : cluster_node M :=
  n <| n_log ::= fun l => l <| lg_entries ::= fun es => es ++ [e] |> |>
    <| n_persist ::= fmap (fun ps => ps <| ps_offsets ::= <[Z.to_nat (slot - 1) := Some off]> |> <| ps_log_size := off + CL_REC_HDR + e_len e |>) |>.

Lemma loaded_loading n rs i ps e :
  loading n rs i ps -> recs_ok rs -> rs !! i = Some e -> Z.of_nat i + 1 <= Z.of_nat (length (ps_offsets ps)) ->
  exists ps', loading (loaded e (Z.of_nat i + 1) (endpos (take i rs)) n) rs (S i) ps'.
Proof.
  intros H Hok He Ho. pose proof (lookup_lt_Some _ _ _ He) as Hi. assert (length (take i rs) = i) as Hl by (rewrite length_take; lia).
  exists (ps <| ps_offsets ::= <[Z.to_nat (Z.of_nat i + 1 - 1) := Some (endpos (take i rs))]> |> <| ps_log_size := endpos (take i rs) + CL_REC_HDR + e_len e |>).
  destruct H. constructor; try done; simpl; [by rewrite ld_entries0, (take_S_r _ _ _ He) | by rewrite ld_ps0 | |].
  - rewrite (take_S_r _ _ _ He), endpos_snoc; [done|]. rewrite Hl. by apply Hok.
  - intros j Hj. simpl. replace (Z.to_nat (Z.of_nat i + 1 - 1)) with i by lia. destruct (decide (j = i)) as [->|].
    + apply list_lookup_insert_eq. lia.
    + rewrite list_lookup_insert_ne by done. apply ld_offsets0. lia.
Qed.

(** The data of the file around the record [i]. *)
Lemma enc_around rs i e : rs !! i = Some e -> enc rs = enc (take i rs) ++ enc1 e ++ enc (drop (S i) rs).
Proof. intros He. rewrite <- (take_drop_middle _ _ _ He) at 1. rewrite enc_app. change (e :: drop (S i) rs) with ([e] ++ drop (S i) rs). by rewrite enc_app, enc_single. Qed.

Lemma read_header n rs i ps e :
  loading n rs i ps -> rs !! i = Some e -> f_read (ps_log ps) (endpos (take i rs)) CL_REC_HDR = Some (take 24 (enc1 e)).
Proof.
  intros H He. assert (length (take 24 (enc1 e)) = 24%nat) as Hl by (rewrite length_take, enc1_length; lia).
  change CL_REC_HDR with (Z.of_nat 24). rewrite <- Hl at 1. eapply f_read_data; [|done | apply (ld_size _ _ _ _ H)].
  rewrite (ld_data _ _ _ _ H), (enc_around _ _ _ He), <- (take_drop 24 (enc1 e)) at 1. by rewrite <- app_assoc.
Qed.

Lemma read_body n rs i ps e :
  loading n rs i ps -> recs_ok rs -> rs !! i = Some e -> f_read (ps_log ps) (endpos (take i rs) + CL_REC_HDR) (e_len e) = Some (body e).
Proof.
  intros H Hok He. rewrite (ro_len _ _ (Hok _ _ He)). eapply (f_read_data _ _ (enc (take i rs) ++ take 24 (enc1 e))); [| |apply (ld_size _ _ _ _ H)].
  - rewrite (ld_data _ _ _ _ H), (enc_around _ _ _ He), <- (take_drop 24 (enc1 e)) at 1. rewrite enc1_body, <- !app_assoc. done.
  - rewrite length_app, length_take, enc1_length. unfold endpos, CL_REC_HDR. lia.
Qed.

Lemma entry_eta idx e : rec_ok idx e -> Entry (e_term e) idx (e_op_type e) (e_len e) (if e_len e =? 0 then None else Some (body e)) = e.
Proof. intros [R1 R2 R3 R4 R5 R6 R7]. rewrite <- R7. subst. by destruct e. Qed.

Lemma load_record_step k n rs i ps e :
  loading n rs i ps -> recs_ok rs -> rs !! i = Some e ->
  exists n' ps', loading n' rs (S i) ps' /\
    load_records (S k) (Z.of_nat i + 1) (endpos (take i rs)) n = load_records k (Z.of_nat (S i) + 1) (endpos (take (S i) rs)) n'.
Proof.
  intros H Hok He. pose proof (Hok _ _ He) as Hr. pose proof (lookup_lt_Some _ _ _ He) as Hi. assert (length (take i rs) = i) as Hl by (rewrite length_take; lia).
  destruct (header_fields _ _ _ Hr eq_refl) as (F1 & F2 & F3 & F4). pose proof (ro_max _ _ Hr) as Hm. pose proof (ro_index_range _ _ Hr) as Hir.
  assert (exists n1, (if e_len e =? 0 then mret true else cl_malloc) n = Some (true, n1) /\ loading n1 rs i ps) as (n1 & E1 & H1).
  { case_match; [eexists; by split|]. rewrite (cl_malloc_ok _ (ld_mem _ _ _ _ H)). eexists. split; [done | by apply loading_mem]. }
  destruct (log_ensure_cap_loading n1 rs i ps (Z.of_nat i + 1) H1) as (n2 & E2 & H2).
  destruct (off_ensure_loading n2 rs i ps (Z.of_nat i + 1) H2) as (n3 & ps3 & E3 & H3 & Ho); [lia|].
  destruct (loaded_loading n3 rs i ps3 e H3 Hok He Ho) as (ps4 & H4). exists (loaded e (Z.of_nat i + 1) (endpos (take i rs)) n3), ps4. split; [done|].
  cbn [load_records]. rewrite (bind_step _ _ _ _ _ (eq_refl : nget n_persist n = Some (n_persist n, n))), (ld_ps _ _ _ _ H).
  rewrite (bind_step _ _ _ ps n) by done. rewrite (read_header _ _ _ _ _ H He), F1, F2, F3, F4, Z.eqb_refl.
  rewrite (proj2 (Z.ltb_ge CLUSTER_MAX_PAYLOAD (e_len e))) by lia. cbn [orb negb]. rewrite (bind_step _ _ _ _ _ E1). cbn [negb].
  replace (if e_len e =? 0 then Some [] else f_read (ps_log ps) (endpos (take i rs) + CL_REC_HDR) (e_len e)) with (Some (body e)).
  2:{ case_match; reflect_bools; [|by rewrite (read_body _ _ _ _ _ H Hok He)]. pose proof (ro_len _ _ Hr) as Hz. destruct (body e); [done | simpl in Hz; lia]. }
  rewrite (bind_step _ _ _ _ _ (eq_refl : nget n_log n1 = Some (n_log n1, n1))). rewrite (ld_base _ _ _ _ H1), Z.sub_0_r.
  rewrite (bind_step _ _ _ _ _ E2), (bind_step _ _ _ _ _ E3). cbn [negb]. rewrite (entry_eta _ _ Hr).
  replace (endpos (take (S i) rs)) with (endpos (take i rs) + CL_REC_HDR + e_len e).
  2:{ rewrite (take_S_r _ _ _ He), endpos_snoc; [done|]. by rewrite Hl. }
  replace (Z.of_nat i + 1 + 1) with (Z.of_nat (S i) + 1) by lia. done.
Qed.

Lemma load_records_all rs m : forall k n i ps,
  loading n rs i ps -> recs_ok rs -> (i + m = length rs)%nat -> (m < k)%nat ->
  exists n' ps', loading n' rs (length rs) ps' /\ load_records k (Z.of_nat i + 1) (endpos (take i rs)) n = Some (tt, n').
Proof.
  induction m as [|m IH]; intros [|k] n i ps H Hok Hi Hk; try lia.
  - exists n, ps. rewrite Nat.add_0_r in Hi. subst i. split; [done|]. cbn [load_records].
    rewrite (bind_step _ _ _ _ _ (eq_refl : nget n_persist n = Some (n_persist n, n))), (ld_ps _ _ _ _ H), (bind_step _ _ _ ps n) by done.
    destruct (f_read _ _ _) as [hdr|] eqn:Er; [|done]. apply f_read_end in Er as ->; [|by rewrite (ld_data _ _ _ _ H), firstn_all].
    change (get_be64 (drop 8 (replicate (Z.to_nat CL_REC_HDR) 0))) with 0. rewrite (proj2 (Z.eqb_neq 0 _)) by lia. by rewrite orb_true_r.
  - destruct (lookup_lt_is_Some_2 rs i) as [e He]; [lia|]. destruct (load_record_step k n rs i ps e H Hok He) as (n1 & ps1 & H1 & ->).
    apply (IH k n1 (S i) ps1); [done | done | lia | lia].
Qed.

(** A process before it has read its files. *)
Definition fresh_node n : Prop := n_log n = log_zero /\ n_mem n = [] /\ n_io n = [].

Lemma load_meta_total ps n rs i ps0 : loading n rs i ps0 -> exists n', load_meta ps n = Some (tt, n') /\ loading n' rs i ps0.
Proof. intros H. unfold load_meta. repeat case_match; eexists; (split; [done|]); destruct H; by constructor. Qed.

Lemma snapshot_load_none n ps : n_persist n = Some ps -> ps_snap ps = [] -> snapshot_load fuel n = Some (None, n).
Proof. intros Hp Hs. unfold snapshot_load, mbind, cl_bind, nget. by rewrite Hp, Hs. Qed.

(** What [persist_load] does once the records are in memory. *)
Lemma loading_wal n rs ps dur f :
  loading n rs (length rs) ps -> recs_ok rs -> f_data f = enc rs -> Z.of_nat (length (f_data f)) <= f_size f ->
  wal ((n_log n) <| lg_durable_index := dur |>)
    (ps <| ps_log := f |> <| ps_write_pos := ps_log_size ps |> <| ps_alloc_size := ps_log_size ps |>) rs (length rs) (length rs).
Proof.
  intros [L1 L2 L3 L4 L5 L6 L7 L8 L9 L10 L11 L12] Hok Hf Hs. rewrite firstn_all in L4, L11. constructor; simpl; rewrite ?firstn_all, ?drop_all; try done.
  rewrite L4. apply Forall_Forall2_diag, Forall_forall. intros e _. unfold kept. auto 10.
Qed.

Lemma persist_load_wal n rs ps :
  loading n rs 0 ps -> ps_alloc_size ps = 0 -> recs_ok rs ->
  exists n', persist_load fuel regcomp n = Some (tt, n') /\ wal_node n' rs (length rs) (length rs) /\
    lg_entries (n_log n') = rs /\ lg_durable_index (n_log n') = Z.of_nat (length rs).
Proof.
  intros H Ha Hok. unfold persist_load. rewrite (bind_step _ _ _ _ _ (eq_refl : nget n_persist n = Some (n_persist n, n))), (ld_ps _ _ _ _ H).
  destruct (load_meta_total ps n rs 0 ps H) as (n1 & E1 & H1). rewrite (bind_step _ _ _ _ _ E1).
  rewrite (bind_step _ _ _ _ _ (snapshot_load_none _ _ (ld_ps _ _ _ _ H1) (ld_snap _ _ _ _ H1))).
  rewrite (bind_step _ _ _ 0 n1) by done. set (n2 := n1 <| n_persist ::= fmap (fun ps => ps <| ps_log_size := 0 |>) |>).
  rewrite (bind_step _ _ _ tt n2) by done. rewrite (bind_step _ _ _ _ _ (eq_refl : nget n_log n2 = Some (n_log n2, n2))).
  assert (loading n2 rs 0 (ps <| ps_log_size := 0 |>)) as H2.
  { destruct H1. subst n2. constructor; try done; simpl. by rewrite ld_ps0. }
  destruct (load_records_all rs (length rs) (S (length (f_data (ps_log ps)))) n2 0 _ H2 Hok) as (n3 & ps3 & H3 & E3); [done | |].
  { rewrite (ld_data _ _ _ _ H). pose proof (enc_length_ge rs). lia. }
  rewrite (ld_base _ _ _ _ H2). rewrite (bind_step _ _ _ tt n3) by exact E3.
  set (n4 := n3 <| n_log ::= fun l => l <| lg_durable_index := lg_last_index l |> |>). rewrite (bind_step _ _ _ tt n4) by done.
  rewrite (bind_step _ _ _ io_ok n4). 2:{ unfold syscall. by rewrite (ld_io _ _ _ _ H3 : n_io n4 = []). }
  set (n5 := n4 <| n_persist ::= fmap (fun ps => ps <| ps_log ::= f_truncate (ps_log_size ps) |>) |>). rewrite (bind_step _ _ _ tt n5) by done.
  eexists. split; [done|]. pose proof (ld_ps _ _ _ _ H3) as Hp3. pose proof (ld_entries _ _ _ _ H3) as He3. rewrite firstn_all in He3.
  assert (lg_last_index (n_log n3) = Z.of_nat (length rs)) as Hlast by (unfold lg_last_index; rewrite (ld_base _ _ _ _ H3), He3; lia).
  split; [|done]. split; [apply (ld_io _ _ _ _ H3)|]. simpl. rewrite Hp3. eexists. split; [done|].
  pose proof (ld_log_size _ _ _ _ H3) as Hz. rewrite firstn_all in Hz.
  assert (f_data (f_truncate (ps_log_size ps3) (ps_log ps3)) = enc rs) as Hd.
  { simpl. rewrite Hz, (ld_data _ _ _ _ H3). unfold endpos. by rewrite Nat2Z.id, firstn_all. }
  apply (loading_wal n3 rs ps3 _ (f_truncate (ps_log_size ps3) (ps_log ps3))); [done | done | done|]. rewrite Hd. simpl. by rewrite Hz.
Qed.

(** The process is stopped and started again on its files. *)
Lemma restart_wal n rs d k ps n0 dir meta :
  wal_node n rs d k -> n_persist n = Some ps -> fresh_node n0 -> dir <> [] ->
  exists n', persist_init fuel regcomp dir (ps_log ps, meta, []) n0 = Some (true, n') /\ wal_node n' (take k rs) k k /\
    lg_entries (n_log n') = take k rs /\ lg_durable_index (n_log n') = Z.of_nat k.
Proof.
  intros (_ & ps' & Hps' & W) Hps (F1 & F2 & F3) Hdir. rewrite Hps in Hps'. injection Hps' as <-. destruct dir as [|x dir]; [done|].
  assert (length (take k rs) = k) as Hk by (rewrite length_take; pose proof (wl_k _ _ _ _ _ W); lia).
  unfold persist_init. rewrite (bind_step _ _ _ io_ok n0) by (unfold syscall; by rewrite F3). rewrite (bind_step _ _ _ _ _ (cl_malloc_ok _ F2)). cbn [negb].
  set (n1 := n0 <| n_mem := [] |>). assert (all_ok 3 n1 = Some (true, n1)) as Ea.
  { unfold all_ok, mbind, cl_bind, syscall. change (n_io n1) with (n_io n0). by rewrite F3; simpl; rewrite F3; simpl; rewrite F3. }
  rewrite (bind_step _ _ _ _ _ Ea). cbn [negb]. set (p0 := Persist _ _ _ _ _ _ _ _ _ _ _ _). set (n2 := n1 <| n_persist := Some p0 |>).
  rewrite (bind_step _ _ _ tt n2) by done.
  assert (loading n2 (take k rs) 0 p0) as H2.
  { subst n2 p0. constructor; try done; simpl; [by rewrite F1 | by rewrite F1 | apply (wl_data _ _ _ _ _ W) | apply (wl_size _ _ _ _ _ W) | lia]. }
  destruct (persist_load_wal n2 (take k rs) p0 H2 eq_refl) as (n3 & E3 & Hw & He & Hd); [apply recs_ok_take, (wl_recs _ _ _ _ _ W)|].
  rewrite (bind_step _ _ _ _ _ E3). exists n3. rewrite Hk in Hw, Hd. done.
Qed.

(** * Histories *)

(** A node with its log [rs], of which [d] entries were synchronised: started on an
    empty file, it has appended and truncated entries, flushed, synchronised and freed
    bodies, done other work, and been restarted at any time.  Every system call on the
    files succeeds ([fresh_node], and [wr_other] keeps the outcomes), the log is not
    compacted behind a snapshot, and memory may fail except in a restart. *)
Inductive wal_run : cluster_node M -> list cluster_log_entry_t -> nat -> Prop :=
| wr_new n0 dir meta n :
    fresh_node n0 -> dir <> [] -> persist_init fuel regcomp dir (f_empty, meta, []) n0 = Some (true, n) -> wal_run n [] 0
| wr_append n rs d term op data ok n' :
    wal_run n rs d -> op_fits term op data rs -> log_append term op data n = Some (ok, n') ->
    wal_run n' (if ok : bool then rs ++ [new_entry term op data rs] else rs) d
| wr_truncate n rs d idx n' :
    wal_run n rs d -> log_truncate_from idx n = Some (tt, n') -> wal_run n' (cut idx rs) (Nat.min d (Z.to_nat (Z.max idx 1 - 1)))
| wr_flush n rs d n' : wal_run n rs d -> persist_write_flush n = Some (tt, n') -> wal_run n' rs d
| wr_sync n rs d n' :
    wal_run n rs d -> persist_sync n = Some (tt, n') -> wal_run n' rs (if n_storage_failed n' then d else length rs)
| wr_free n rs d upto n' : wal_run n rs d -> compact_payloads upto n = Some (tt, n') -> wal_run n' rs d
| wr_other n rs d n' : wal_run n rs d -> walv n' = walv n -> wal_run n' rs d
| wr_restart n rs d ps n0 dir meta n' :
    wal_run n rs d -> n_persist n = Some ps -> fresh_node n0 -> dir <> [] ->
    persist_init fuel regcomp dir (ps_log ps, meta, []) n0 = Some (true, n') -> wal_run n' (lg_entries (n_log n')) (length (lg_entries (n_log n'))).

Lemma empty_wal : wal log_zero (Persist f_empty f_empty [] 0 0 0 [] 0 0 [] 0 false) [] 0 0.
Proof. constructor; try done; simpl. lia. Qed.

Lemma wal_run_ok n rs d : wal_run n rs d -> exists k, wal_node n rs d k.
Proof.
  induction 1 as [n0 dir meta n Hf Hdir E | n rs d term op data ok n' _ [k IH] Hfit E | n rs d idx n' _ [k IH] E | n rs d n' _ [k IH] E |
    n rs d n' _ [k IH] E | n rs d upto n' _ [k IH] E | n rs d n' _ [k IH] E | n rs d ps n0 dir meta n' _ [k IH] Hps Hf Hdir E].
  - set (n1 := n0 <| n_log := log_zero |> <| n_io := [] |> <| n_persist := Some (Persist f_empty f_empty [] 0 0 0 [] 0 0 [] 0 false) |>).
    assert (wal_node n1 [] 0 0) as Hw by (split; [done|]; eexists; split; [done | apply empty_wal]).
    destruct (restart_wal n1 [] 0 0 _ n0 dir meta Hw eq_refl Hf Hdir) as (n' & E' & Hw' & _). simpl in E'. rewrite E in E'. injection E' as <-. by exists 0%nat.
  - by eapply log_append_wal.
  - by eapply log_truncate_wal.
  - exists (length rs). by eapply flush_wal.
  - exists (length rs). destruct (persist_sync_wal _ _ _ _ _ _ IH E) as [[-> ?]|[_ Hw]]; [done|]. case_match; [|done].
    destruct Hw as (Hio & ps & Hps & W), IH as (_ & ps0 & _ & W0). split; [done|]. exists ps. split; [done|].
    pose proof (wl_k _ _ _ _ _ W0). destruct W. by constructor; try lia.
  - exists k. by eapply compact_payloads_wal.
  - exists k. by eapply wal_node_frame.
  - destruct (restart_wal n rs d k ps n0 dir meta IH Hps Hf Hdir) as (n1 & E1 & Hw & He & _). rewrite E in E1. injection E1 as <-.
    exists k. rewrite He, length_take. pose proof IH as (_ & ? & _ & W). pose proof (wl_k _ _ _ _ _ W). by rewrite Nat.min_l by lia.
Qed.

(** C5: after any history in which every system call on the files succeeds and the log
    is not compacted ([wal_run]), the log in memory is the abstract log (bodies may have
    been freed), and a restart that has memory succeeds and reads back a prefix of it: at
    least all that was synchronised, and all of it when nothing waits in the write
    buffer. *)
Theorem log_recovered n rs d ps n0 dir meta :
  wal_run n rs d -> n_persist n = Some ps -> fresh_node n0 -> dir <> [] ->
  Forall2 kept (lg_entries (n_log n)) rs /\
  exists n' k, persist_init fuel regcomp dir (ps_log ps, meta, []) n0 = Some (true, n') /\
    lg_entries (n_log n') = take k rs /\ lg_durable_index (n_log n') = Z.of_nat k /\
    (d <= k <= length rs)%nat /\ (ps_wbuf ps = [] -> k = length rs).
Proof.
  intros [k Hw]%wal_run_ok Hps Hf Hdir. pose proof Hw as (_ & ps' & Hps' & W). rewrite Hps in Hps'. injection Hps' as <-.
  split; [apply (wl_entries _ _ _ _ _ W)|]. destruct (restart_wal n rs d k ps n0 dir meta Hw Hps Hf Hdir) as (n' & E & _ & He & Hd).
  exists n', k. split; [done|]. split; [done|]. split; [done|]. split; [apply (wl_k _ _ _ _ _ W)|]. intros Hb.
  rewrite (wl_wbuf _ _ _ _ _ W) in Hb. pose proof (enc_length_ge (drop k rs)) as Hl. rewrite Hb, length_drop in Hl. simpl in Hl.
  pose proof (wl_k _ _ _ _ _ W). lia.
Qed.
End Wal.
