(* ===== verification/ClusterReplay.v ===== *)
(** Applying the committed entries: the broker and the access-control store of a node
    are what the replicated operations, in the order of the log, make of them. *)

From S2P Require Import Prelude CLib Crypto AuthStore HashMap Message Queue Store Exchange Broker ClusterWire ClusterNode ClusterLog ClusterApply ClusterRaft ClusterDispatch ClusterVotes ClusterFrame ClusterCommit ClusterOps ClusterWal.

Section Replay.
Context {M : Type} `{!PtrMap M}.
Context (fuel : nat) (regcomp : bytes -> bool).
Implicit Types (n : cluster_node M) (w : world M) (a : authstore).

(** * The meaning of operations *)

Definition publish_on (idx : Z) (vh x rk body props : bytes) w : option (world M) :=
  let '(m, h) := message_new_full (Some x) (Some rk) body (match props with [] => None | _ => Some props end) (s_heap (w_sys w)) in
  let w := w_heap (fun _ => h) w in
  match m with
  | None => Some w
  | Some m =>
      '(_, w) ← broker_route fuel vh (m <| m_cluster_id := idx |>) w;
      Some (w_heap (message_unref (Some (m <| m_cluster_id := idx |>))) w)
  end.

(** What the operation at [idx] does to a broker and an access-control store; [None]
    when a call of theirs does not return. *)
Definition op_result (idx : Z) (o : cl_op) (s : world M * authstore) : option (world M * authstore) :=
  let '(w, a) := s in
  match o with
  | op_declare_queue vh name flags ov ml mb dlx rk =>
      Some (let '(_, _, created, w) := broker_declare_queue vh name flags w in
            if created then configure_queue vh name ov ml mb dlx rk w else w, a)
  | op_declare_exchange vh name type flags => Some (snd (broker_declare_exchange vh name (exchange_type_of type) flags w), a)
  | op_bind vh q x rk => Some (snd (broker_bind vh q x (Some rk) w), a)
  | op_delete_queue vh q => Some (snd (broker_delete_queue vh q false false w), a)
  | op_publish vh x rk body props => w ← publish_on idx vh x rk body props w; Some (w, a)
  | op_consume vh q wm => Some (drain_queue vh q wm w, a)
  | op_add_vhost vh => '(_, a) ← authstore_add_vhost vh a; Some (broker_declare_default_exchanges vh w, a)
  | op_del_vhost vh => '(_, a) ← authstore_del_vhost vh a; Some (w, a)
  | op_add_user u h tags => '(_, a) ← authstore_add_user u h tags a; Some (w, a)
  | op_del_user u => '(_, a) ← authstore_del_user u a; Some (w, a)
  | op_set_perm u vh c wr r => '(_, a) ← authstore_set_perm regcomp u vh c wr r a; Some (w, a)
  | op_clear_perm u vh => '(_, a) ← authstore_clear_perm u vh a; Some (w, a)
  end.

(** Operations from the index [idx] on; [None] is the empty entry of a new leader. *)
Fixpoint run_ops (idx : Z) (os : list (option cl_op)) (s : world M * authstore) : option (world M * authstore) :=
  match os with
  | [] => Some s
  | None :: os => run_ops (idx + 1) os s
  | Some o :: os => s ← op_result idx o s; run_ops (idx + 1) os s
  end.

(** The entry at [idx] carries the operation. *)
Definition carries (idx : Z) (x : option cl_op) (e : cluster_log_entry_t) : Prop :=
  match x with
  | Some o => op_ok o /\ exists op b, encode_op o = Some (op, b) /\ e = Entry (e_term e) idx op (Z.of_nat (length b)) (Some b)
  | None => e = Entry (e_term e) idx CL_OP_NOOP 0 None
  end.

(** * A node that applies them *)

Definition stores n := (n_broker n, n_authstore n).
Definition rest n := (n_log n, n_election_min_ms n, n_election_max_ms n).

(** An election timeout can be drawn. *)
Definition timeouts_ok n : Prop := u32 (n_election_max_ms n - n_election_min_ms n + 1) <> 0.

(** The computation makes the stores [r], or does not return, and leaves the log alone. *)
Definition yields (m : cl M unit) n (r : option (world M * authstore)) : Prop :=
  match r with
  | Some (w, a) => exists n', m n = Some (tt, n') /\ stores n' = (Some w, Some a) /\ rest n' = rest n
  | None => m n = None
  end.

(** The computation returns, and leaves the stores and the log alone. *)
Definition quiet {A} (m : cl M A) : Prop := forall n, timeouts_ok n -> exists x n', m n = Some (x, n') /\ stores n' = stores n /\ rest n' = rest n.

Lemma rest_timeouts n n' : rest n' = rest n -> timeouts_ok n -> timeouts_ok n'.
Proof. intros [= _ E1 E2]. unfold timeouts_ok. by rewrite E1, E2. Qed.

Lemma quiet_bind {A B} (m : cl M A) (f : A -> cl M B) : quiet m -> (forall x, quiet (f x)) -> quiet (m ≫= f).
Proof.
  intros H1 H2 n Ht. destruct (H1 n Ht) as (x & n1 & E1 & S1 & R1). destruct (H2 x n1 (rest_timeouts _ _ R1 Ht)) as (y & n2 & E2 & S2 & R2).
  exists y, n2. rewrite (bind_step _ _ _ _ _ E1). split_and!; [done | congruence | congruence].
Qed.

Lemma quiet_ret {A} (x : A) : quiet (mret x).
Proof. intros n _. by exists x, n. Qed.

Lemma quiet_set f : (forall n, stores (f n) = stores n /\ rest (f n) = rest n) -> quiet (nset f).
Proof. intros H n _. exists tt, (f n). split; [done | apply H]. Qed.

Lemma quiet_get {A} (g : cluster_node M -> A) : quiet (nget g).
Proof. intros n _. by exists (g n), n. Qed.

Lemma quiet_malloc : quiet cl_malloc.
Proof. intros n _. unfold cl_malloc. destruct (malloc (n_mem n)) as [b o]. by exists b, (n <| n_mem := o |>). Qed.

Lemma quiet_each {A} (f : A -> cl M unit) l : (forall x, quiet (f x)) -> quiet (for_each f l).
Proof. intros H. induction l as [|x l IH]; [apply quiet_ret | by apply quiet_bind]. Qed.

Create HintDb quiet.

Ltac quiet_auto :=
  repeat first [solve [auto with quiet nocore] | apply quiet_ret | apply quiet_get | apply quiet_malloc | by apply quiet_set | apply quiet_each; intros
               | apply quiet_bind; [|intros] | match goal with |- quiet (match ?x with _ => _ end) => destruct x end].

Lemma quiet_arm : quiet arm_election_timer.
Proof.
  intros n Ht. unfold arm_election_timer, election_timeout_ms, mbind, cl_bind, nget, nset, id. simpl.
  rewrite (proj2 (Z.eqb_neq _ _) Ht). by eexists _, _.
Qed.

#[local] Hint Resolve quiet_arm : quiet.

Lemma quiet_failed : quiet storage_write_failed.
Proof. unfold storage_write_failed, update_health. quiet_auto. Qed.
#[local] Hint Resolve quiet_failed : quiet.

Lemma quiet_topo op d : quiet (topo_add op d).
Proof. unfold topo_add. quiet_auto. Qed.

Lemma quiet_resolve : quiet resolve_local_fwd_acks.
Proof. unfold resolve_local_fwd_acks, mark_proposal_status. quiet_auto. Qed.

Lemma yields_world f n w a : stores n = (Some w, Some a) -> yields (pure_world f) n (Some (f w, a)).
Proof. intros [= Hw Ha]. unfold yields, pure_world, on_world, mbind, cl_bind. rewrite Hw. exists (n <| n_broker := Some (f w) |>). split; [done|]. split; [|done]. rewrite <- Ha. done. Qed.

Lemma yields_auth {A} (f : authstore -> option (A * authstore)) n w a : stores n = (Some w, Some a) -> yields (auth_op f) n ('(_, a) ← f a; Some (w, a)).
Proof.
  intros [= Hw Ha]. unfold yields, auth_op, on_auth, mbind, cl_bind. rewrite Ha. destruct (f a) as [[x a']|]; [|done]. exists (n <| n_authstore := Some a' |>). split; [done|]. split; [|done]. rewrite <- Hw. done.
Qed.

Lemma yields_publish idx vh x rk body props n w a :
  timeouts_ok n -> stores n = (Some w, Some a) -> yields (publish_here fuel idx vh x rk body props) n (w ← publish_on idx vh x rk body props w; Some (w, a)).
Proof.
  intros Ht [= Hw Ha]. unfold yields, publish_here, publish_on, try_world, mbind, cl_bind. rewrite Hw. destruct (message_new_full _ _ _ _ _) as [m h].
  set (n1 := n <| n_broker := Some (w_heap (fun _ => h) w) |>). destruct m as [m|].
  - change (n_broker n1) with (Some (w_heap (fun _ => h) w)). simpl. destruct (broker_route _ _ _ _) as [[rc w']|]; [|done].
    set (w2 := w_heap (message_unref (Some (m <| m_cluster_id := idx |>))) w'). exists (n1 <| n_broker := Some w2 |>). split; [done|]. split; [|done]. rewrite <- Ha. done.
  - destruct (quiet_failed n1 Ht) as ([] & n2 & E & S2 & R2). exists n2. split; [exact E|]. split; [|done]. rewrite S2, <- Ha. done.
Qed.

Lemma op_effect_yields idx o n w a : timeouts_ok n -> stores n = (Some w, Some a) -> yields (op_effect fuel regcomp idx o) n (op_result idx o (w, a)).
Proof.
  intros Ht Hs. destruct o; cbn [op_effect op_result]; try exact (yields_world _ n w a Hs); try exact (yields_auth _ n w a Hs); [by apply yields_publish|].
  pose proof (yields_auth (authstore_add_vhost vhost) n w a Hs) as H. revert H. unfold yields. destruct (authstore_add_vhost vhost a) as [[x a']|]; simpl; intros H.
  - destruct H as (n1 & E & S1 & R1). rewrite (bind_step _ _ _ _ _ E). destruct (yields_world (broker_declare_default_exchanges vhost) n1 w a' S1) as (n2 & E2 & S2 & R2).
    exists n2. split; [exact E2|]. split; [done | congruence].
  - unfold mbind, cl_bind in *. by rewrite H.
Qed.

(** One entry. *)
Lemma apply_entry_yields idx x e n w a :
  timeouts_ok n -> stores n = (Some w, Some a) -> carries idx x e -> yields (apply_op fuel regcomp e) n (run_ops idx [x] (w, a)).
Proof.
  intros Ht Hs Hc. injection Hs as Hw Ha. destruct x as [o|]; simpl in Hc.
  - destruct Hc as (Hok & op & b & Henc & ->). pose proof (op_effect_yields idx o n w a Ht ltac:(unfold stores; congruence)) as Hy.
    assert (E : apply_op fuel regcomp (Entry (e_term e) idx op (Z.of_nat (length b)) (Some b)) n =
      (op_effect fuel regcomp idx o;; if keeps_topology op then topo_add op b else mret tt) n).
    { apply apply_op_effect; [done | done | by rewrite Hw | by rewrite Ha]. }
    revert Hy. unfold yields. rewrite E. cbn [run_ops]. destruct (op_result idx o (w, a)) as [[w' a']|]; cbn [mbind option_bind]; intros Hy.
    + destruct Hy as (n1 & E1 & S1 & R1). rewrite (bind_step _ _ _ _ _ E1).
      destruct (keeps_topology op); [|by exists n1]. destruct (quiet_topo op b n1 (rest_timeouts _ _ R1 Ht)) as ([] & n2 & E2 & S2 & R2).
      exists n2. split_and!; [done | congruence | congruence].
    + unfold mbind, cl_bind. by rewrite Hy.
  - rewrite Hc. unfold yields. simpl. exists n. unfold apply_op, mbind, cl_bind, nget. rewrite Hw. simpl. unfold apply_auth, mbind, cl_bind, nget. rewrite Ha.
    unfold stores. by rewrite Hw, Ha.
Qed.

Lemma run_ops_cons idx x os s : run_ops idx (x :: os) s = (s ← run_ops idx [x] s; run_ops (idx + 1) os s).
Proof. destruct x as [o|]; cbn [run_ops]; [|done]. by destruct (op_result idx o s). Qed.

(** The entries of the log after [applied] carry the operations [os]. *)
Definition log_carries (l : cluster_log_t) (applied : Z) (os : list (option cl_op)) : Prop :=
  forall i x, os !! i = Some x -> exists e, log_at l (applied + 1 + Z.of_nat i) = Some e /\ carries (applied + 1 + Z.of_nat i) x e.

(** What the loop makes of the stores; the rest of the log is not touched. *)
Lemma apply_loop_replays os : forall n w a,
  timeouts_ok n -> stores n = (Some w, Some a) -> log_carries (n_log n) (lg_applied_index (n_log n)) os ->
  match run_ops (lg_applied_index (n_log n) + 1) os (w, a) with
  | Some (w', a') => exists n', apply_loop fuel regcomp (length os) n = Some (tt, n') /\ stores n' = (Some w', Some a') /\ timeouts_ok n'
  | None => apply_loop fuel regcomp (length os) n = None
  end.
Proof.
  induction os as [|x os IH]; intros n w a Ht Hs Hl; [simpl; by exists n|].
  destruct (Hl 0%nat x eq_refl) as (e & He & Hc). rewrite Z.add_0_r in He, Hc. rewrite run_ops_cons.
  pose proof (apply_entry_yields _ x e n w a Ht Hs Hc) as Hy. cbn [length apply_loop]. rewrite (bind_step _ _ _ (n_log n) n) by done. rewrite He. revert Hy. unfold yields.
  destruct (run_ops _ [x] (w, a)) as [[w1 a1]|]; cbn [mbind option_bind]; intros Hy; [|unfold mbind, cl_bind; by rewrite Hy].
  destruct Hy as (n1 & E1 & S1 & R1). rewrite (bind_step _ _ _ _ _ E1). set (n2 := n1 <| n_log ::= fun l => l <| lg_applied_index := lg_applied_index (n_log n) + 1 |> |>).
  rewrite (bind_step _ _ _ tt n2) by done. injection R1 as L1 T1 T2. specialize (IH n2 w1 a1).
  change (lg_applied_index (n_log n2)) with (lg_applied_index (n_log n) + 1) in IH. apply IH; [unfold timeouts_ok; cbn; congruence | done|].
  intros i y Hi. destruct (Hl (S i) y Hi) as (e' & He' & Hc'). replace (lg_applied_index (n_log n) + 1 + 1 + Z.of_nat i) with (lg_applied_index (n_log n) + 1 + Z.of_nat (S i)) by lia.
  exists e'. split; [|done]. rewrite <- He', <- L1. done.
Qed.

End Replay.
