(* ===== verification/ClusterWorker.v ===== *)
(** The workers and their cluster node: what a worker asks of the cluster
    ([Server.ClusterOps]) is answered by the node of src/src/cluster.c, the operation it
    proposes goes into the inbox of the node, and a leader turns the inbox into entries
    of its log. *)

From S2P Require Import Prelude CLib Crypto AuthStore HashMap Message Queue Store Exchange Broker Server ClusterWire ClusterNode ClusterLog ClusterApply ClusterRaft ClusterDispatch ClusterApi ClusterVotes ClusterFrame ClusterOps ClusterWal.

Section Worker.
Context {M : Type} `{!PtrMap M}.
Implicit Types (n : cluster_node M).

(** * The node as the cluster of a worker *)

Definition op_of (c : cluster_call) : cl_op :=
  match c with
  | cc_declare_exchange vh name type flags => op_declare_exchange vh name type flags
  | cc_declare_queue vh name flags ov ml mb dlx rk => op_declare_queue vh name flags ov ml mb dlx rk
  | cc_bind vh q x rk => op_bind vh q x rk
  | cc_delete_queue vh q => op_delete_queue vh q
  | cc_publish _ vh x rk body props => op_publish vh x rk body props
  end.

(** Whether the answer is the number of the proposal. *)
Definition is_tracked (c : cluster_call) : bool := match c with cc_publish t _ _ _ _ _ => t | _ => true end.

Definition answer_call (c : cluster_call) : cl M Z :=
  match c with
  | cc_declare_exchange vh name type flags => cluster_replicate_declare_exchange vh name type flags
  | cc_declare_queue vh name flags ov ml mb dlx rk => cluster_replicate_declare_queue vh name flags ov ml mb (Some dlx) (Some rk)
  | cc_bind vh q x rk => cluster_replicate_bind vh q x rk
  | cc_delete_queue vh q => cluster_replicate_delete_queue vh q
  | cc_publish true vh x rk body props => cluster_replicate_publish_tracked vh x rk body props
  | cc_publish false vh x rk body props => cluster_replicate_publish vh x rk body props
  end.

Definition status_of (s : Z) : cluster_proposal_status_t :=
  if s =? PROPOSAL_PENDING then CL_PROPOSAL_PENDING else if s =? PROPOSAL_COMMITTED then CL_PROPOSAL_COMMITTED else CL_PROPOSAL_REJECTED.

#[global] Instance node_cluster_ops : ClusterOps (cluster_node M) := {|
  cluster_replicate c n := default (0, n) (answer_call c n);
  cluster_proposal_status n seq := status_of (proposal_status n seq);
  cluster_should_throttle n := default (false, n) (should_throttle n)
|}.

(** * Proposing *)

(** What proposing leaves alone: the log, the role and the term. *)
Definition settled n := (walv n, n_role n, n_current_term n).

(** A proposal is in the inbox with the next number, and the node has been woken. *)
Definition proposed (op : Z) (b : bytes) n n' : Prop :=
  n_propose n' = n_propose n ++ [Proposal op (n_propose_seq_next n + 1) b] /\ n_propose_seq_next n' = n_propose_seq_next n + 1 /\ n_propose_woken n' = true.

Lemma propose_internal_spec op b n :
  0 <= n_propose_seq_next n < 2 ^ 64 - 1 ->
  exists r n', propose_internal op b n = Some (r, n') /\ settled n' = settled n /\ (n_mem n = [] -> n_mem n' = []) /\
    ((r = 0 /\ n_propose n' = n_propose n /\ n_mem n <> []) \/ (r = n_propose_seq_next n + 1 /\ proposed op b n n')).
Proof.
  intros Hs. unfold propose_internal, mbind, cl_bind, nset, cl_malloc, nget, mret, cl_ret.
  set (n1 := if CL_INBOX_HIGH <? n_inbox_depth n then _ else n).
  assert (settled n1 = settled n /\ n_mem n1 = n_mem n /\ n_propose n1 = n_propose n /\ n_propose_seq_next n1 = n_propose_seq_next n) as (E1 & E2 & E3 & E4)
    by (subst n1; by case_match). clearbody n1. rewrite E2. destruct (malloc (n_mem n)) as [[] o] eqn:Em; simpl; eexists _, _; (split; [done|]); simpl.
  - split; [done|]. split; [intros Hn; rewrite Hn in Em; by injection Em as <-|]. right. unfold proposed. simpl. rewrite E3, E4, u64_small by lia. done.
  - split; [done|]. split; [intros Hn; by rewrite Hn in Em|]. left. split; [done|]. split; [done|]. intros Hn. by rewrite Hn in Em.
Qed.

(** The encoding of the operation is proposed, unless a name is too long or there is
    no memory. *)
Lemma propose_encoded (o : option bytes) (t : bool) op n :
  0 <= n_propose_seq_next n < 2 ^ 64 - 1 ->
  exists r n', (if t then tracked op o else untracked op o) n = Some (r, n') /\ settled n' = settled n /\ (n_mem n = [] -> n_mem n' = []) /\
    if r =? (if t then 0 else -1) then n_propose n' = n_propose n /\ (n_mem n = [] -> o = None)
    else exists b, o = Some b /\ proposed op b n n' /\ (t = true -> r = n_propose_seq_next n + 1).
Proof.
  intros Hs. destruct o as [b|]; [|destruct t; by eexists _, n].
  destruct (propose_internal_spec op b n Hs) as (r & n' & E & El & Em & [(-> & H & Hn) | [-> H]]); destruct t; simpl.
  - exists 0, n'. done.
  - exists (-1), n'. split; [|done]. unfold cluster_propose, mbind, cl_bind. by rewrite E.
  - exists (n_propose_seq_next n + 1), n'. rewrite (proj2 (Z.eqb_neq _ 0)) by lia. eauto 10.
  - exists 0, n'. split; [|do 2 (split; [done|]); by exists b]. unfold cluster_propose, mbind, cl_bind. rewrite E.
    by rewrite (proj2 (Z.eqb_neq _ 0)) by lia.
Qed.

(** The answer says that the operation was taken. *)
Definition call_taken (c : cluster_call) (r : Z) : bool := if is_tracked c then negb (r =? 0) else r =? 0.

Lemma untracked_answer op o n r n' : untracked op o n = Some (r, n') -> r = 0 \/ r = -1.
Proof.
  destruct o as [b|]; simpl; [|intros [-> _]%ret_Some; auto]. intros (s & n1 & _ & [-> _]%ret_Some)%cl_bind_Some. case_match; auto.
Qed.

Definition answered c n (r : Z) n' : Prop :=
  settled n' = settled n /\ (n_mem n = [] -> n_mem n' = []) /\
  if call_taken c r then exists op b, encode_op (op_of c) = Some (op, b) /\ proposed op b n n' /\ (is_tracked c = true -> r = n_propose_seq_next n + 1)
  else n_propose n' = n_propose n /\ (n_mem n = [] -> encode_op (op_of c) = None).

(** What a call does before it proposes. *)
Definition prepared n n1 : Prop :=
  settled n1 = settled n /\ (n_mem n = [] -> n_mem n1 = []) /\ n_propose n1 = n_propose n /\ n_propose_seq_next n1 = n_propose_seq_next n.

Lemma call_answered c op o o' n n1 :
  0 <= n_propose_seq_next n < 2 ^ 64 - 1 -> encode_op (op_of c) = pair op <$> o -> o' = o \/ (o' = None /\ n_mem n <> []) ->
  prepared n n1 -> answer_call c n = (if is_tracked c then tracked op o' else untracked op o') n1 ->
  exists r n', answer_call c n = Some (r, n') /\ answered c n r n'.
Proof.
  intros Hs Henc Ho (El & Em & Ep & Es) E. rewrite <- Es in Hs. destruct (propose_encoded o' (is_tracked c) op n1 Hs) as (r & n' & E' & El' & Em' & H).
  exists r, n'. rewrite E, E'. split; [done|]. split; [congruence|]. split; [auto|]. unfold call_taken.
  assert ((if is_tracked c then negb (r =? 0) else r =? 0) = negb (r =? (if is_tracked c then 0 else -1))) as ->.
  { destruct (is_tracked c); [done|]. by destruct (untracked_answer _ _ _ _ _ E') as [-> | ->]. }
  destruct (r =? _); simpl.
  - destruct H as [H1 H2]. split; [congruence|]. intros Hn. specialize (H2 (Em Hn)). destruct Ho as [<- | [_ ?]]; [by rewrite Henc, H2 | done].
  - destruct H as (b & -> & (P1 & P2 & P3) & Ht). destruct Ho as [<- | [? _]]; [|done].
    exists op, b. rewrite Henc. split; [done|]. unfold proposed. rewrite P1, P2, Ep, Es. rewrite Es in Ht. done.
Qed.

Lemma publish_op_spec vh x rk body props n :
  exists o' n1, publish_op vh x rk body props n = Some (o', n1) /\
    (o' = encode_publish_op vh x rk body props \/ (o' = None /\ n_mem n <> [])) /\ prepared n n1.
Proof.
  unfold publish_op. destruct (encode_publish_op _ _ _ _ _) as [b|]; [|exists None, n; split; [done|]; split; [by left | done]].
  unfold mbind, cl_bind, cl_malloc. destruct (malloc (n_mem n)) as [[] o] eqn:E; eexists _, _; (split; [done|]).
  - split; [by left|]. split; [done|]. split; [|done]. intros Hn. rewrite Hn in E. by injection E as <-.
  - assert (n_mem n <> []) as Hn by (intros Hn; by rewrite Hn in E). split; [by right|]. done.
Qed.

(** Each call of a worker returns.  Its operation was put into the inbox, encoded as
    the nodes that apply it read it, exactly when the answer says so; a tracked call
    answers with its number. *)
Lemma worker_proposes c n :
  0 <= n_propose_seq_next n < 2 ^ 64 - 1 -> exists r n', cluster_replicate c n = (r, n') /\ answer_call c n = Some (r, n') /\ answered c n r n'.
Proof.
  intros Hs. assert (exists r n', answer_call c n = Some (r, n') /\ answered c n r n') as (r & n' & E & H).
  { destruct c as [vh name type flags | vh name flags ov ml mb dlx rk | vh q x rk | vh q | t vh x rk body props].
    1-4: by eapply (call_answered _ _ _ _ n n); [done | reflexivity | left; reflexivity | | reflexivity].
    destruct (publish_op_spec vh x rk body props n) as (o' & n1 & E & Ho & Hp).
    eapply (call_answered _ _ _ o' n n1); [done | reflexivity | done | done|].
    destruct t; simpl; unfold cluster_replicate_publish_tracked, cluster_replicate_publish, mbind, cl_bind; by rewrite E. }
  exists r, n'. simpl. by rewrite E.
Qed.

(** * From the inbox to the log *)

(** Memory is available, and the node is what it was. *)
Definition steady n n' : Prop := n_mem n' = [] /\ n_role n' = n_role n /\ n_current_term n' = n_current_term n /\ n_self_id n' = n_self_id n.

Lemma steady_refl n : n_mem n = [] -> steady n n.
Proof. done. Qed.

Lemma steady_trans n1 n2 n3 : steady n1 n2 -> steady n2 n3 -> steady n1 n3.
Proof. intros (_ & E1 & E2 & E3) (Hm & F1 & F2 & F3). unfold steady. rewrite F1, F2, F3. done. Qed.

(** With memory the computation returns [a], and the node is steady. *)
Definition steadily {A} (m : cl M A) (a : A) : Prop := forall n, n_mem n = [] -> exists n', m n = Some (a, n') /\ steady n n'.

Lemma steadily_bind {A B} (m : cl M A) (f : A -> cl M B) a b : steadily m a -> steadily (f a) b -> steadily (m ≫= f) b.
Proof.
  intros Hm Hf n Hn. destruct (Hm n Hn) as (n1 & E1 & S1). destruct (Hf n1 (proj1 S1)) as (n2 & E2 & S2).
  exists n2. split; [by rewrite (bind_step _ _ _ _ _ E1) | by eapply steady_trans].
Qed.

Lemma steadily_get {A B} (g : cluster_node M -> A) (f : A -> cl M B) b : (forall x, steadily (f x) b) -> steadily (nget g ≫= f) b.
Proof. intros H n Hn. by apply (H (g n)). Qed.

Lemma steadily_set f : (forall n, n_mem n = [] -> steady n (f n)) -> steadily (nset f) tt.
Proof. intros H n Hn. by exists (f n); split; [|apply H]. Qed.

Lemma steadily_ret {A} (a : A) : steadily (mret a) a.
Proof. intros n Hn. exists n. split; [done | by apply steady_refl]. Qed.

Lemma steadily_malloc : steadily cl_malloc true.
Proof. intros n Hn. exists (n <| n_mem := [] |>). split; [by apply cl_malloc_ok | done]. Qed.

Lemma steadily_log_ensure need : steadily (log_ensure_cap need) true.
Proof.
  apply steadily_get. intros cap. case_match; [apply steadily_ret|]. eapply steadily_bind; [apply steadily_malloc|]. simpl.
  eapply steadily_bind; [by apply steadily_set | apply steadily_ret].
Qed.

Lemma steadily_off_ensure need : steadily (off_ensure need) true.
Proof.
  apply steadily_get. intros [ps|]; [|apply steadily_ret]. cbv zeta. destruct (_ <=? _); [apply steadily_ret|]. eapply steadily_bind; [apply steadily_malloc|]. simpl.
  eapply steadily_bind; [by apply steadily_set | apply steadily_ret].
Qed.

Lemma steadily_wbuf_ensure need : steadily (wbuf_ensure need) true.
Proof.
  apply steadily_get. intros [ps|]; [|apply steadily_ret]. cbv zeta. destruct (_ <=? _); [apply steadily_ret|]. eapply steadily_bind; [apply steadily_malloc|]. simpl.
  eapply steadily_bind; [by apply steadily_set | apply steadily_ret].
Qed.

Lemma steadily_persist_append e b : (if e_len e =? 0 then Some [] else e_payload e) = Some b -> steadily (persist_append e) true.
Proof.
  intros Hb. apply steadily_get. intros [ps|]; [|apply steadily_ret]. eapply steadily_bind; [apply steadily_off_ensure|]. simpl.
  eapply steadily_bind; [apply steadily_wbuf_ensure|]. simpl. eapply (steadily_bind _ _ b).
  - unfold payload_of. destruct (e_len e =? 0); [injection Hb as <-; apply steadily_ret|]. rewrite Hb. apply steadily_ret.
  - eapply steadily_bind; [by apply steadily_set | apply steadily_ret].
Qed.

(** With memory an append succeeds. *)
Lemma steadily_log_append term op data : steadily (log_append term op data) true.
Proof.
  apply steadily_get. intros l. cbv zeta. eapply steadily_bind; [apply steadily_log_ensure|]. simpl. eapply (steadily_bind _ _ true).
  { case_match; [apply steadily_ret | apply steadily_malloc]. }
  simpl. eapply steadily_bind; [apply (steadily_persist_append _ data)|].
  - simpl. destruct (Z.eqb_spec (Z.of_nat (length data)) 0) as [E|_]; [|done]. by destruct data.
  - simpl. eapply steadily_bind; [by apply steadily_set | apply steadily_ret].
Qed.

Lemma steadily_ack_pending idx origin seq : steadily (push_fwd_ack_pending idx origin seq) tt.
Proof.
  unfold push_fwd_ack_pending. case_match; [apply steadily_ret|]. eapply steadily_bind; [apply steadily_malloc|]. by apply steadily_set.
Qed.

Lemma frames_wal_ack_pending idx origin seq : frames walv (push_fwd_ack_pending (M := M) idx origin seq).
Proof. unfold push_fwd_ack_pending. frames_auto. Qed.

(** The log with the proposals of the inbox behind it. *)
Definition logged (term : Z) (rs : list cluster_log_entry_t) (l : list cl_proposal_t) : list cluster_log_entry_t :=
  foldl (fun rs p => rs ++ [new_entry term (pp_op_type p) (pp_data p) rs]) rs l.

Definition proposal_ok (p : cl_proposal_t) : Prop := 0 <= pp_op_type p < 2 ^ 32 /\ pp_len p <= CLUSTER_MAX_PAYLOAD.

Lemma leader_append_wal n rs d k op data :
  wal_node n rs d k -> is_leader n = true -> n_mem n = [] -> op_fits (n_current_term n) op data rs ->
  exists n' k', leader_append op data n = Some (tt, n') /\ steady n n' /\ wal_node n' (rs ++ [new_entry (n_current_term n) op data rs]) d k'.
Proof.
  intros Hw Hl Hm Hf. destruct (steadily_log_append (n_current_term n) op data n Hm) as (n1 & E1 & S1).
  destruct (log_append_wal _ _ _ _ _ _ _ _ _ Hw Hf E1) as [k' Hw1]. exists (n1 <| n_log_dirty := true |>), k'.
  split; [|split; [exact S1 | by eapply wal_node_frame]]. unfold leader_append.
  rewrite (bind_step _ _ _ n n) by done. rewrite Hl. simpl. by rewrite (bind_step _ _ _ _ _ E1).
Qed.

Lemma take_leader n rs d k p :
  wal_node n rs d k -> is_leader n = true -> n_mem n = [] -> op_fits (n_current_term n) (pp_op_type p) (pp_data p) rs ->
  exists n' k', take_forwarded true (n_self_id n) (pp_op_type p) (pp_seq p) (pp_data p) n = Some (tt, n') /\ steady n n' /\
    wal_node n' (rs ++ [new_entry (n_current_term n) (pp_op_type p) (pp_data p) rs]) d k'.
Proof.
  intros Hw Hl Hm Hf. destruct (leader_append_wal _ _ _ _ _ _ Hw Hl Hm Hf) as (n1 & k' & E1 & S1 & Hw1).
  unfold take_forwarded. rewrite (bind_step _ _ _ (lg_last_index (n_log n)) n) by done. rewrite (bind_step _ _ _ _ _ E1).
  rewrite (bind_step _ _ _ (lg_last_index (n_log n1)) n1) by done. case_match; [|by exists n1, k'].
  destruct (steadily_ack_pending (lg_last_index (n_log n1)) (n_self_id n) (pp_seq p) n1 (proj1 S1)) as (n2 & E2 & S2). exists n2, k'.
  split; [done|]. split; [by eapply steady_trans|]. eapply wal_node_frame; [|exact Hw1]. revert E2. apply frames_wal_ack_pending.
Qed.

Lemma inbox_logged l : forall n rs d k,
  wal_node n rs d k -> is_leader n = true -> n_mem n = [] -> 0 <= n_current_term n < 2 ^ 64 -> Forall proposal_ok l ->
  Z.of_nat (length rs + length l) < 2 ^ 64 ->
  exists n' k', drain_proposals l n = Some (tt, n') /\ steady n n' /\ wal_node n' (logged (n_current_term n) rs l) d k'.
Proof.
  induction l as [|p l IH]; intros n rs d k Hw Hl Hm Ht Hok Hlen; [exists n, k; by split; [|split; [apply steady_refl|]]|].
  apply Forall_cons in Hok as [[Hop Hpl] Hok]. simpl in Hlen. assert (op_fits (n_current_term n) (pp_op_type p) (pp_data p) rs) as Hf
    by (unfold pp_len in Hpl; split_and!; lia).
  destruct (take_leader _ _ _ _ _ Hw Hl Hm Hf) as (n1 & k1 & E1 & S1 & Hw1). set (n2 := n1 <| n_inbox_depth ::= fun z => z - 1 |>).
  pose proof S1 as (Hm1 & Hr1 & Ht1 & Hs1). assert (is_leader n2 = true) as Hl2 by (unfold is_leader in *; simpl; by rewrite Hr1).
  destruct (IH n2 _ _ _ (wal_node_frame _ n2 _ _ _ eq_refl Hw1) Hl2 Hm1) as (n' & k' & E' & S' & Hw');
    [simpl; by rewrite Ht1 | done | rewrite length_app; simpl; lia |].
  exists n', k'. simpl in Hw'. rewrite Ht1 in Hw'. split; [|split; [by eapply steady_trans | done]].
  cbn [drain_proposals]. rewrite (bind_step _ _ _ n n) by done. rewrite Hl, (bind_step _ _ _ _ _ E1). by rewrite (bind_step _ _ _ tt n2) by done.
Qed.

Lemma logged_app term rs l1 l2 : logged term rs (l1 ++ l2) = logged term (logged term rs l1) l2.
Proof. apply foldl_app. Qed.

Lemma encode_op_type o op b : encode_op o = Some (op, b) -> 0 <= op < 2 ^ 32.
Proof. destruct o; simpl; intros (? & _ & [= -> _])%fmap_Some; done. Qed.

(** C12: of a worker on the node that leads: a call whose operation can be encoded (its
    names have at most 250 bytes) in at most 16 MiB is accepted, and the node appends it
    to its log, encoded as every node reads it when it applies the entry, behind the
    operations that were proposed before, in their order.  Memory suffices ([n_mem]), and
    the log is on files whose system calls succeed, without a snapshot ([wal_node]). *)
Theorem worker_op_logged c op b n rs d k :
  encode_op (op_of c) = Some (op, b) -> Z.of_nat (length b) <= CLUSTER_MAX_PAYLOAD ->
  wal_node n rs d k -> is_leader n = true -> n_mem n = [] -> 0 <= n_current_term n < 2 ^ 64 -> 0 <= n_propose_seq_next n < 2 ^ 64 - 1 ->
  Forall proposal_ok (n_propose n) -> Z.of_nat (length rs + length (n_propose n)) + 1 < 2 ^ 64 ->
  exists r n1 n2 k', cluster_replicate c n = (r, n1) /\ call_taken c r = true /\ drain_proposals (n_propose n1) n1 = Some (tt, n2) /\
    let before := logged (n_current_term n) rs (n_propose n) in wal_node n2 (before ++ [new_entry (n_current_term n) op b before]) d k'.
Proof.
  intros Henc Hb Hw Hl Hm Ht Hs Hok Hlen. destruct (worker_proposes c n Hs) as (r & n1 & E & _ & [= E1 E2 E3 E4 E5] & Hm1 & H).
  destruct (call_taken c r) eqn:Ha; [|destruct H as [_ H]; rewrite H in Henc by done; discriminate].
  destruct H as (op' & b' & Henc' & (Ep & _) & _). rewrite Henc in Henc'. injection Henc' as <- <-.
  destruct (inbox_logged (n_propose n1) n1 rs d k) as (n2 & k' & E' & _ & Hw').
  - eapply wal_node_frame; [|exact Hw]. unfold walv. congruence.
  - unfold is_leader in *. by rewrite E4.
  - auto.
  - by rewrite E5.
  - rewrite Ep. apply Forall_app. split; [done|]. apply Forall_singleton. split; [by eapply encode_op_type | done].
  - rewrite Ep, length_app. simpl. lia.
  - exists r, n1, n2, k'. split; [done|]. split; [done|]. split; [done|]. simpl. rewrite Ep, logged_app, E5 in Hw'. exact Hw'.
Qed.
End Worker.
