(* ===== verification/ClusterDemo.v ===== *)
(** Runs of a cluster of three nodes, and what the theorems on elections, commits,
    replication and the log file say of them. *)

From S2P Require Import Prelude CLib Crypto AuthStore HashMap Message Queue Store Exchange Broker BrokerSpec ClusterWire ClusterNode ClusterLog ClusterApply ClusterRaft ClusterDispatch ClusterApi ClusterVotes ElectSpec ClusterElect ClusterMesh ClusterFrame ClusterCommit ClusterOps ClusterWal ClusterReplay Server ClusterWorker.

(** * Runs *)

(** A step that can be carried out: an event of a node, or the delivery or the loss of
    the frame at a position. *)
Inductive mesh_act {M : Type} := ma_event (i : Z) (e : cluster_event (M := M)) | ma_frame (k : nat) | ma_lost (k : nat).
#[global] Arguments mesh_act : clear implicits.

Section Runs.
Context {M : Type} `{!PtrMap M}.
Context (fuel : nat) (regcomp : bytes -> bool) (uv_ip4_addr : bytes -> Z -> bool) (N : Z).

Definition without (k : nat) (fs : list (Z * Z * mesh_frame)) := take k fs ++ drop (S k) fs.

Definition do_act (m : mesh (M := M)) (a : mesh_act M) : option (mesh (M := M)) :=
  match a with
  | ma_event i e =>
      n ← me_nodes m !! i;
      r ← run_event fuel regcomp e n;
      Some (settle i r.2 (me_nodes m) (me_frames m))
  | ma_frame k =>
      x ← me_frames m !! k;
      n ← me_nodes m !! x.1.2;
      j ← find_peer n x.1.1;
      r ← cl_dispatch fuel regcomp j (fr_hdr x.2) (fr_payload x.2) n;
      Some (settle x.1.2 r.2 (me_nodes m) (without k (me_frames m)))
  | ma_lost k => _ ← me_frames m !! k; Some (Mesh (me_nodes m) (without k (me_frames m)))
  end.

Definition fits (m : mesh (M := M)) : bool := forallb (fun x => n_current_term x.2 <? 2 ^ 32) (map_to_list (me_nodes m)).

Fixpoint do_acts (m : mesh (M := M)) (l : list (mesh_act M)) : option (mesh (M := M)) :=
  match l with
  | [] => Some m
  | a :: l => m' ← do_act m a; if fits m' then do_acts m' l else None
  end.

Lemma fits_sound m : fits m = true -> terms_fit m.
Proof.
  unfold fits. rewrite forallb_forall. intros H i n Hi. apply Z.ltb_lt, (H (i, n)). apply list_elem_of_In. by apply elem_of_map_to_list.
Qed.

Lemma do_act_sound m a m' : do_act m a = Some m' -> mesh_step fuel regcomp uv_ip4_addr N m m'.
Proof.
  destruct m as [ns fs], a as [i e|k|k]; simpl.
  - intros (n & Hn & ([[] n'] & E & [= <-])%bind_Some)%bind_Some. by eapply ms_event.
  - intros ([[src i] f] & Hk & (n & Hn & (j & Hj & ([[] n'] & E & [= <-])%bind_Some)%bind_Some)%bind_Some)%bind_Some. simpl in *.
    rewrite <- (take_drop_middle _ _ _ Hk) at 1. by eapply ms_frame.
  - intros ([[src i] f] & Hk & [= <-])%bind_Some. rewrite <- (take_drop_middle _ _ _ Hk) at 1. apply ms_lost.
Qed.

Lemma do_acts_reach l : forall m m', mesh_reach fuel regcomp uv_ip4_addr N m -> do_acts m l = Some m' -> mesh_reach fuel regcomp uv_ip4_addr N m'.
Proof.
  induction l as [|a l IH]; intros m m' Hm; simpl; [by intros [= <-]|]. intros (m1 & E & H1)%bind_Some. destruct (fits m1) eqn:Hf; [|done].
  eapply IH; [|done]. eapply mr_step; [done | by eapply do_act_sound | by apply fits_sound].
Qed.
End Runs.

(** * Three nodes *)

Definition demo_config (i : Z) : cluster_config_t :=
  cluster_config_defaults <| cc_self_id := i |> <| cc_node_addr := [cstr "10.0.0.1:6672"; cstr "10.0.0.2:6672"; cstr "10.0.0.3:6672"] |>
    <| cc_data_dir := cstr "/var/lib/beavermq" |> <| cc_secret := cstr "secret" |>.

Abbreviation demo_node := (cluster_node (hashmap positive)).

Definition demo_boot (i : Z) : option demo_node :=
  mjoin (cluster_node_new 10 (fun _ => true) (fun _ _ => true) (demo_config i) (f_empty, f_empty, []) None None [] [] []).

Definition demo_mesh : option (mesh (M := hashmap positive)) :=
  n0 ← demo_boot 0; n1 ← demo_boot 1; n2 ← demo_boot 2;
  Some (Mesh (<[0 := n0 <| n_out := [] |>]> (<[1 := n1 <| n_out := [] |>]> {[2 := n2 <| n_out := [] |>]})) []).

Definition hello_of (m : mesh (M := hashmap positive)) (k : nat) : bytes := match me_frames m !! k with Some x => fr_bytes x.2 | None => [] end.

(** The nodes dial each other; node 0 stands, and is elected. *)
Definition demo_dial : list (mesh_act (hashmap positive)) :=
  [ma_event 0 ce_start; ma_event 1 ce_start; ma_event 2 ce_start; ma_event 0 (ce_connect 1 true); ma_event 0 (ce_connect 2 true)].
Definition demo_meet (m : mesh (M := hashmap positive)) : list (mesh_act (hashmap positive)) :=
  [ma_event 1 (ce_accept true); ma_event 1 (ce_inbound 2 (Some (hello_of m 0))); ma_event 2 (ce_accept true);
   ma_event 2 (ce_inbound 1 (Some (hello_of m 1))); ma_lost 0; ma_lost 0; ma_frame 0; ma_frame 0].
Definition demo_elect : list (mesh_act (hashmap positive)) :=
  [ma_event 1 (ce_clock 5000); ma_event 2 (ce_clock 5000); ma_event 0 ce_election; ma_frame 0; ma_frame 0; ma_frame 0; ma_frame 0;
   ma_frame 0; ma_frame 0; ma_frame 0].

Definition demo_run : option (mesh (M := hashmap positive)) :=
  m ← demo_mesh;
  m ← do_acts 10 (fun _ => true) m demo_dial;
  m ← do_acts 10 (fun _ => true) m (demo_meet m);
  do_acts 10 (fun _ => true) m demo_elect.

Strategy expand [demo_boot].

Lemma mjoin_Some {A} (x : option (option A)) a : mjoin x = Some a -> x = Some (Some a).
Proof. destruct x as [[]|]; simpl; congruence. Qed.

Lemma demo_boots i n : demo_boot i = Some n -> boots 10 (fun _ => true) (fun _ _ => true) 3 i (f_empty, f_empty, []) n.
Proof. intros E%mjoin_Some. exists (demo_config i), None, None, [], [], []. split; [done|]. split; [done|]. split; [done | exact E]. Qed.

Lemma demo_mesh_init m : demo_mesh = Some m -> mesh_init 10 (fun _ => true) (fun _ _ => true) 3 m.
Proof.
  unfold demo_mesh. intros (n0 & B0%demo_boots & (n1 & B1%demo_boots & (n2 & B2%demo_boots & [= <-])%bind_Some)%bind_Some)%bind_Some.
  split; [done|]. intros i. unfold in_range. simpl. split.
  - intros Hi. assert (i = 0 \/ i = 1 \/ i = 2) as [-> | [-> | ->]] by lia; [exists n0 | exists n1 | exists n2]; exists f_empty, []; (split; [done|]).
    + apply lookup_insert_eq.
    + rewrite lookup_insert_ne by done. apply lookup_insert_eq.
    + rewrite !lookup_insert_ne by done. apply lookup_singleton_eq.
  - rewrite !lookup_insert_None, lookup_singleton_None. lia.
Qed.

Lemma demo_run_reach m : demo_run = Some m -> mesh_reach 10 (fun _ => true) (fun _ _ => true) 3 m.
Proof.
  unfold demo_run. intros (m0 & E0%demo_mesh_init & (m1 & E1 & (m2 & E2 & E3)%bind_Some)%bind_Some)%bind_Some.
  eapply do_acts_reach; [|apply E3]. eapply do_acts_reach; [|apply E2]. eapply do_acts_reach; [|apply E1]. by apply mr_init.
Qed.

(** The leader of the run. *)
Definition leads (i t : Z) (m : option (mesh (M := hashmap positive))) : bool :=
  match m with
  | Some m => match me_nodes m !! i with Some n => bool_decide (n_role n = CL_ROLE_LEADER) && (n_current_term n =? t) | None => false end
  | None => false
  end.

Lemma leads_Some i t m : leads i t m = true -> exists m0 n, m = Some m0 /\ me_nodes m0 !! i = Some n /\ n_role n = CL_ROLE_LEADER /\ n_current_term n = t.
Proof. unfold leads. destruct m as [m|]; [|done]. destruct (me_nodes m !! i) as [n|] eqn:E; [|done]. intros; reflect_bools. eauto 10. Qed.

Lemma demo_leads : leads 0 1 demo_run = true.
Proof. vm_compute. reflexivity. Qed.

Lemma election_safety_witness : exists m n,
  mesh_reach 10 (fun _ => true) (fun _ _ => true) 3 m /\ me_nodes m !! 0 = Some n /\ n_role n = CL_ROLE_LEADER /\ n_current_term n = 1 /\
  forall j n', me_nodes m !! j = Some n' -> n_role n' = CL_ROLE_LEADER -> n_current_term n' = 1 -> 0 = j.
Proof.
  destruct (leads_Some _ _ _ demo_leads) as (m & n & E & Hn & Hr & Ht). apply demo_run_reach in E as Hm.
  exists m, n. do 4 (split; [done|]). intros j n' Hj Hr' Ht'.
  destruct (election_safety 10 (fun _ => true) (fun _ _ => true) 3 m) as [Hsafe _]; [lia | exact Hm|].
  apply (Hsafe 0 j n n'); [exact Hn | exact Hj | exact Hr | exact Hr' | congruence].
Defined.

(** * A leader and a follower *)

(** A run that returns is one that can be evaluated. *)
Lemma returns_Some {A} (x : option (unit * A)) : bool_decide (is_Some x) = true -> exists a, x = Some (tt, a).
Proof. intros [[[] a] ->]%bool_decide_eq_true. by exists a. Qed.

Definition demo_vhost_op : cl_op := op_add_vhost (cstr "orders").
Definition demo_op : Z * bytes := default (0, []) (encode_op demo_vhost_op).
Definition demo_entry (term idx : Z) : cluster_log_entry_t := Entry term idx demo_op.1 (Z.of_nat (length demo_op.2)) (Some demo_op.2).

Definition demo_peer (id durable : Z) : cluster_peer_t :=
  Peer id (cstr "10.0.0.2:6672") true CL_LINK_UP false false None None 0 3 2 durable snap_zero 0 [] 0.

(** Node [i] with two entries in its log: [c] of them committed, none applied. *)
Definition demo_replica (i c : Z) : demo_node :=
  (blank_node (demo_config i) (Some demo_world) (Some (authstore_new [] ∅ [])) [] [] [])
    <| n_current_term := 1 |> <| n_log := Log [Entry 1 1 CL_OP_NOOP 0 None; demo_entry 1 2] 16 0 0 c 0 2 0 |>.

(** A leader whose entries are on its disk and on that of one of two followers. *)
Definition demo_leader : demo_node := (demo_replica 0 0) <| n_role := CL_ROLE_LEADER |> <| n_peers := [demo_peer 1 2; demo_peer 2 0] |>.
Definition demo_leader_committed : demo_node := (demo_replica 0 2) <| n_role := CL_ROLE_LEADER |> <| n_peers := n_peers demo_leader |>.

Definition vhosts_of (r : option (unit * demo_node)) : list bytes :=
  match r with Some (_, n) => match n_authstore n with Some s => s_vhosts s | None => [] end | None => [] end.

Lemma commit_needs_majority_witness : exists n' N,
  advance_commit 10 (fun _ => true) demo_leader = Some (tt, n') /\ majority_has demo_leader N /\ N = 2 /\ lg_commit_index (n_log n') = 2.
Proof.
  destruct (returns_Some (advance_commit 10 (fun _ => true) demo_leader)) as [n' E]; [vm_compute; reflexivity|].
  destruct (commit_needs_majority 10 (fun _ => true) demo_leader tt n') as (N & HN & Hc); [vm_compute; discriminate | exact E |].
  pose proof (majority_index_has demo_leader 2 ltac:(vm_compute; discriminate) ltac:(vm_compute; reflexivity)) as H2.
  exists n', N. split; [exact E|]. split; [exact HN|]. assert (N = 2) as ->; [|split; [done|]; rewrite Hc; vm_compute; reflexivity].
  destruct H2 as [Ha Hb], HN as [Hc1 Hd]. destruct (Z.lt_trichotomy N 2) as [Hl | [? | Hl]]; [|done|].
  - specialize (Hd 2 Hl). lia.
  - specialize (Hb N Hl). lia.
Defined.


Lemma replicated_op_applied_witness :
  apply_op 10 (fun _ => true) (demo_entry 1 2) (demo_replica 1 2) = 
    (op_effect 10 (fun _ => true) 2 demo_vhost_op;; if keeps_topology demo_op.1 then topo_add demo_op.1 demo_op.2 else mret tt) (demo_replica 1 2) /\
  vhosts_of (apply_op 10 (fun _ => true) (demo_entry 1 2) (demo_replica 1 2)) = [cstr "orders"].
Proof.
  split; [|vm_compute; reflexivity].
  apply (replicated_op_applied 10 (fun _ => true) demo_vhost_op demo_op.1 demo_op.2 1 2 (demo_replica 1 2)).
  - repeat constructor.
  - vm_compute. reflexivity.
  - by exists demo_world.
  - by exists (authstore_new [] ∅ []).
Defined.

(** * A log file *)

Definition demo_dir : bytes := cstr "/var/lib/beavermq".
Definition demo_blank : demo_node := blank_node (demo_config 0) None None [] [] [].

(** Three appends; the first two are synchronised, the third is still in the buffer. *)
Definition demo_logged : option demo_node :=
  r ← persist_init 10 (fun _ => true) demo_dir (f_empty, f_empty, []) demo_blank;
  let '(ok0, n0) := r in
  r ← log_append 1 CL_OP_NOOP [] n0;
  let '(ok1, n1) := r in
  r ← log_append 1 CL_OP_ADD_VHOST [1; 2; 3] n1;
  let '(ok2, n2) := r in
  r ← persist_sync n2;
  let '(_, n3) := r in
  r ← log_append 2 CL_OP_DEL_VHOST [4] n3;
  let '(ok4, n4) := r in
  if (ok0 && ok1 && ok2 && ok4 && negb (n_storage_failed n3))%bool then Some n4 else None.

Definition demo_log : list cluster_log_entry_t :=
  [Entry 1 1 CL_OP_NOOP 0 None; Entry 1 2 CL_OP_ADD_VHOST 3 (Some [1; 2; 3]); Entry 2 3 CL_OP_DEL_VHOST 1 (Some [4])].

Lemma demo_fresh : fresh_node demo_blank.
Proof. done. Qed.

Lemma demo_logged_run n : demo_logged = Some n -> wal_run 10 (fun _ => true) n demo_log 2.
Proof.
  unfold demo_logged. intros ([[] n0] & E0 & ([[] n1] & E1 & ([[] n2] & E2 & ([[] n3] & E3 & ([[] n4] & E4 & E)%bind_Some)%bind_Some)%bind_Some)%bind_Some)%bind_Some;
    try discriminate E. destruct (n_storage_failed n3) eqn:Hf; [discriminate E|]. injection E as <-.
  apply (wr_new 10 (fun _ => true)) in E0; [|exact demo_fresh | done].
  apply (wr_append 10 (fun _ => true) _ _ _ _ _ _ _ _ E0) in E1; [|done]. apply (wr_append 10 (fun _ => true) _ _ _ _ _ _ _ _ E1) in E2; [|done].
  apply (wr_sync 10 (fun _ => true) _ _ _ _ E2) in E3. rewrite Hf in E3. by apply (wr_append 10 (fun _ => true) _ _ _ _ _ _ _ _ E3) in E4.
Qed.

Lemma demo_logged_file : match demo_logged with Some n => bool_decide (is_Some (n_persist n)) | None => false end = true.
Proof. vm_compute. reflexivity. Qed.

Lemma log_recovered_witness : exists n ps n' k,
  demo_logged = Some n /\ n_persist n = Some ps /\ persist_init 10 (fun _ => true) demo_dir (ps_log ps, f_empty, []) demo_blank = Some (true, n') /\
  (2 <= k)%nat /\ lg_entries (n_log n') = take k demo_log.
Proof.
  pose proof demo_logged_file as H. destruct demo_logged as [n|] eqn:E; [|discriminate H]. apply bool_decide_eq_true in H as [ps Hps].
  destruct (log_recovered 10 (fun _ => true) n demo_log 2 ps demo_blank demo_dir f_empty) as (_ & n' & k & E' & He & _ & Hk & _);
    [by apply demo_logged_run | exact Hps | exact demo_fresh | discriminate |].
  exists n, ps, n', k. split; [done|]. split; [exact Hps|]. split; [exact E'|]. split; [lia | exact He].
Defined.

(** The node of that log as a leader, asked to delete a queue. *)
Definition demo_call : cluster_call := cc_delete_queue (cstr "/") (cstr "jobs").
Definition demo_deletion : Z * bytes := default (0, []) (encode_op (op_of demo_call)).

Lemma demo_logged_idle :
  match demo_logged with Some n => bool_decide (n_mem n = [] /\ n_propose_seq_next n = 0 /\ n_current_term n = 0 /\ length (n_propose n) = 0%nat) | None => false end = true.
Proof. vm_compute. reflexivity. Qed.

Lemma worker_op_logged_witness : exists n r n1 n2 k,
  demo_logged = Some n /\ cluster_replicate demo_call (n <| n_role := CL_ROLE_LEADER |>) = (r, n1) /\ call_taken demo_call r = true /\
  drain_proposals (n_propose n1) n1 = Some (tt, n2) /\ wal_node n2 (demo_log ++ [new_entry 0 demo_deletion.1 demo_deletion.2 demo_log]) 2 k.
Proof.
  pose proof demo_logged_idle as H. destruct demo_logged as [n|] eqn:E; [|discriminate H].
  apply bool_decide_eq_true in H as (Hm & Hs & Ht & Hp%nil_length_inv). destruct (wal_run_ok _ _ _ _ _ (demo_logged_run n E)) as [k Hw].
  destruct (worker_op_logged demo_call demo_deletion.1 demo_deletion.2 (n <| n_role := CL_ROLE_LEADER |>) demo_log 2 k) as (r & n1 & n2 & k' & H1 & H2 & H3 & H4);
    simpl; rewrite ?Hm, ?Hs, ?Ht, ?Hp; [reflexivity | vm_compute; discriminate | by eapply wal_node_frame | reflexivity | done | lia | lia | constructor | simpl; lia |].
  exists n, r, n1, n2, k'. simpl in H4. rewrite Hp, Ht in H4. done.
Defined.

(** [log_truncate_from] leaves [durable_index] alone: after a truncation and two appends,
    it covers entries that were written but never synchronised. *)
Definition demo_rewritten : option (Z * Z * bool) :=
  n ← demo_logged;
  r ← persist_sync n;
  r ← log_truncate_from 2 r.2;
  r ← log_append 3 CL_OP_NOOP [] r.2;
  r ← log_append 3 CL_OP_NOOP [] r.2;
  r ← persist_write_flush r.2;
  Some (lg_durable_index (n_log r.2), lg_last_index (n_log r.2), match n_persist r.2 with Some ps => ps_dirty ps | None => false end).

Example durable_index_survives_truncation : demo_rewritten = Some (3, 3, true).
Proof. vm_compute. reflexivity. Qed.

(** * Forwarding after a restart *)

(** The number that a node started again gives to its first proposal, and the last index
    of a leader that gets an operation forwarded with that number, when it had committed
    five operations of the node before. *)
Definition demo_first_seq : option Z := fst <$> propose_internal CL_OP_NOOP [] (demo_blank <| n_running := true |>).
Definition demo_forwarded (seq : Z) : option Z :=
  let b := put_be32 1 ++ put_be32 CL_OP_NOOP ++ put_be32 0 ++ put_be64 seq in
  r ← on_forward 0 b (demo_leader <| n_committed_fwd_seq := [0; 5; 0; 0; 0] |>);
  Some (lg_last_index (n_log r.2)).

Example forward_after_restart_dropped : demo_first_seq = Some 1 /\ demo_forwarded 1 = Some 2 /\ demo_forwarded 6 = Some 3.
Proof. vm_compute. repeat split. Qed.

(** * A vote that was not written *)

(** A node gets a request for its vote in term 1 from a peer, and writing the vote fails:
    the votes that it sends, and what its [raft.meta] holds. *)
Definition demo_voter (meta : file) : option demo_node :=
  r ← persist_init 10 (fun _ => true) demo_dir (f_empty, meta, []) demo_blank;
  Some (r.2 <| n_peers := [(demo_peer 1 0) <| p_link := Some 1%positive |>; (demo_peer 2 0) <| p_link := Some 2%positive |>] |>).
Definition demo_asked (k : nat) (io : list io_result) (n : demo_node) : option demo_node := snd <$> on_vote_req k 1 [] (n <| n_io := io |>).
Definition meta_file (n : demo_node) : file := match n_persist n with Some ps => ps_meta ps | None => f_empty end.

Example vote_lost_on_restart :
  exists n n', (n ← demo_voter f_empty; demo_asked 0 [io_ok; io_ok; io_fail 0] n) = Some n /\
    votes_of (n_out n) = [(0%nat, VGrant 1)] /\ n_voted_for n = 1 /\ n_storage_failed n = true /\ meta_of (meta_file n) = (1, -1) /\
    (n0 ← demo_voter (meta_file n); demo_asked 1 [] n0) = Some n' /\ votes_of (n_out n') = [(1%nat, VGrant 1)].
Proof. eexists _, _. split; [vm_compute; reflexivity|]. do 4 (split; [vm_compute; reflexivity|]). split; vm_compute; reflexivity. Qed.

(** * An invalid greeting on a bound link *)

(** [drop_peer_link] frees the buffer that [cl_drain_frames] is reading: the frame after
    it is taken from outside the buffer. *)
Definition demo_reading (type : Z) (body : bytes) : demo_node :=
  demo_leader <| n_peers := [(demo_peer 1 2) <| p_rbuf := fr_bytes (cl_frame type 0 1 body) |>; demo_peer 2 0] |>.

Example invalid_hello_overruns :
  cl_drain_frames 10 (fun _ => true) 0 (demo_reading CL_FRAME_HELLO [1; 2; 3]) = None /\
  cl_drain_frames 10 (fun _ => true) 0 (demo_reading CL_FRAME_HELLO_ACK [1; 2; 3]) = None /\
  is_Some (cl_drain_frames 10 (fun _ => true) 0 (demo_reading CL_FRAME_ROUTE_HINT [1; 2; 3])).
Proof. vm_compute. repeat split. by eexists. Qed.
